(* ===== verification/_CoqProject ===== *)
-Q . S2P
Prelude.v
Utils.v
Logging.v
Runner.v
RunnerTheorems.v
HotReload.v
HotReloadTheorems.v
Tcp.v
Strategies.v
Balancing.v
RegistryData.v
EndpointList.v
Registry.v
LocalInfo.v
Gossip.v
Discoverer.v
Routing.v
RegistryInv.v
RegistrySpec.v
GossipInv.v
RegistryTheorems.v
Listing.v
GossipTheorems.v
CircuitBreaker.v
Bulkhead.v
JsonText.v
Serializers.v
SerializerTheorems.v
Errors.v
Transporter.v
Topics.v
TopicsTheorems.v
Amqp.v
AmqpTheorems.v
Transporters.v
Metrics.v
MetricsTheorems.v
MetricsMiddleware.v
Promises.v
Middlewares.v
Transmit.v
MiddlewareTheorems.v
Calls.v
CallTheorems.v
Tracing.v
TracingTheorems.v
Services.v
ServiceTheorems.v
Broker.v
BrokerTheorems.v
Connection.v
ConnectionTheorems.v
RedisDiscoverer.v
RedisTheorems.v
EtcdDiscoverer.v
Cacher.v
CacherTheorems.v
Cachers.v
Streams.v
Transit.v
TransitInv.v
TransitTheorems.v
Ping.v
Wire.v
