(* ===== verification/Prelude.v ===== *)
(** * Moleculer: a verified model of the core of the microservices framework

    The repository is a JavaScript framework in which every process runs a broker.
    A broker keeps a registry of the nodes of the cluster, their services, actions and
    events; calls and events are routed over the registry by balancing strategies,
    wrapped in middlewares, and travel between nodes as packets of the transit over a
    transporter.  This library models that core from [src/src/] and proves what makes
    it correct.

    ** Files and what they model

    - [Prelude]: this header, JavaScript values ([json]), arrays ([Arr]), ordered maps
      ([OMap], for objects and [Map]s whose order is seen), tactics.
    - [Utils]: [utils.js].  Module [Match] is [match] (event name patterns), [Token]
      is [generateToken].
    - [Logging]: [logger-factory.js] and the levels and queues of [loggers/].
      [Runner], [RunnerTheorems]: [runner.js].  [HotReload], [HotReloadTheorems]:
      [middlewares/hot-reload.js].
    - [Tcp]: [transporters/tcp/] and [packets.js].  [Parser] is the stream parser,
      [Frame] the writer's framing, [Writer] and [Reader] the tables of sockets.
    - [Strategies]: [strategies/].  The class [Strategy] is the interface the endpoint
      lists use, [StrategyLaws] and [StrategySound] what they rely on; one Module per strategy.
      [Balancing]: the five strategies as one type, which only the shard strategy keeps
      from being lawful.
    - [RegistryData], [EndpointList], [Registry], [Discoverer]: [registry/].  Nodes,
      services and endpoints are objects of a store, since catalogs, nodes and lists
      share them; the catalogs are lists and ordered maps of references, as in
      [registry.js], [node-catalog.js], [service-catalog.js], [action-catalog.js],
      [event-catalog.js] and [endpoint-list.js].  The discoverer is the state change of
      heartbeats and periodic checks ([discoverers/base.js], [local.js]).
    - [Routing]: [findNextActionEndpoint], [callWithoutBalancer], [emit], [broadcast],
      [broadcastLocal] of [service-broker.js] with the queries of [event-catalog.js].
    - [RegistryInv], [RegistrySpec], [RegistryTheorems]: the invariant of the registry,
      specifications of its operations, and the theorems about reachable registries.
      [Listing]: the lists of nodes, services, actions and events that [$node] hands out.
    - [LocalInfo], [Gossip], [GossipInv], [GossipTheorems]: what a broker announces of itself
      ([node-catalog.js], [service-catalog.js]) and the gossip of the TCP transporter
      ([transporters/tcp.js]), with the theorems about two brokers that talk.
    - [CircuitBreaker], [Bulkhead]: the middlewares of that name.
    - [JsonText], [Serializers], [SerializerTheorems]: [JSON.stringify] and [JSON.parse] on
      text, and the JSON and extended JSON serializers of [serializers/].
    - [Errors]: [errors.js]; module [Errors] has the constructors of the error classes,
      [Regenerator] what travels of an error and how it is made again.
    - [Transporter]: [transporters/base.js] against the interface [Serializer], which the
      two serializers implement.
    - [Topics], [TopicsTheorems]: the packets of [transit.js] and its subscriptions, and where
      the transporters send and listen; the class [Driver] with [DriverLaws] and
      [BalancerLaws] is what the transit relies on, proved of each transporter.  [Amqp],
      [AmqpTheorems]: [transporters/amqp.js].  [Transporters]: the seven transporters over
      topics as one type, and who handles what they send.
    - [Metrics], [MetricsTheorems]: [metrics/types/], [metrics/rates.js], [metrics/registry.js];
      [MetricsMiddleware]: what [middlewares/metrics.js] does to the registry of metrics.
    - [Transmit]: [middlewares/transmit/] around the sending and receiving of a transporter,
      with [zlib] and the cipher as parameters.
    - [Promises], [Middlewares], [MiddlewareTheorems]: chains of promises, [middleware.js] and
      the middlewares for hooks, validation, tracking, throttling and debouncing.
    - [Calls], [CallTheorems]: contexts ([context.js]) and the call of a broker through the
      timeout, retry, fallback and error handler middlewares.
    - [Tracing], [TracingTheorems]: [tracing/], [middlewares/tracing.js] and the spans of contexts.
    - [Services], [ServiceTheorems]: schemas, mixins and the life cycle of services
      ([service.js]), waiting for services ([service-broker.js]).
    - [Broker], [BrokerTheorems]: the life cycle of a broker ([service-broker.js]): starting,
      stopping, creating and destroying services as promise chains that interleave.
    - [Connection], [ConnectionTheorems]: connecting, subscribing, publishing and disconnecting
      ([transit.js], [transporters/base.js]) as a machine of pending promises and timers.
    - [RedisDiscoverer], [RedisTheorems]: [registry/discoverers/redis.js], with what Redis
      answers as inputs that arrive in any order.  [EtcdDiscoverer]: the keys, checks and leases
      of heartbeats in [registry/discoverers/etcd3.js].
    - [Cacher], [CacherTheorems]: [cachers/base.js], [cachers/memory.js], [lock.js].  [Cachers]: the
      class of cachers, with [cachers/memory-lru.js] and [cachers/redis.js], and the
      three cachers as one type.
    - [Streams]: cutting streams into numbered packets and putting them in order again
      ([transit.js]), for any order of delivery.
    - [Transit]: the rest of [transit.js]: pending requests and streams, the handlers of
      all packets, the clean-up after a node; it joins registry, discoverer, routing and
      streams.  [TransitInv] and [TransitTheorems] hold its invariant and theorems; [Wire]
      composes it with transporter, serializer and error regenerator; [Ping] is [ping()] of
      [service-broker.js] on top of it.

    ** What the theorems show

    - Registry: in every reachable state each endpoint belongs to a registered service of
      a known online node, lists have one endpoint per node and service, the local node
      stays online ([registry_invariant]); an INFO packet with news leaves exactly the
      announced services ([node_info_exact]); a disconnected node leaves nothing behind
      ([node_disconnect_cleans]); the grouped list of services has every name once, with all
      its nodes, actions and events ([services_grouped]).
    - Routing: which endpoint a call gets and which error fits, with any strategy
      ([endpoint_list_next], [call_routing]), the exact deliveries of [emit]
      ([emit_once_per_group]), one packet per node for [broadcast], pattern matching of event names, the choices of the strategies.
    - Gossip: what an exchange settles ([gossip_exchange]) and that the loops of the handlers
      refine a function of one node ([gossip_pointwise]); a broker's announcement is taken
      in completely ([local_info_round_trip]).
    - Transit: no request is lost or answered twice, but for responses whose error cannot be
      restored ([request_not_lost]); a request and
      its response arrive with all fields, from the caller's bytes to the settled promise
      ([remote_call], and [request_and_response] with streams); a lost node rejects
      exactly its requests ([node_gone], [disconnect_message]); pings are answered at the
      latest when their time is up ([ping_answers], [ping_round_trip]); streams arrive in
      order and complete under any reordering of packets ([stream_end_to_end]); TCP
      framing round-trips for any cutting into chunks ([tcp_roundtrip]).
    - Wire: the values it can hold survive the extended JSON serializer ([json_ext_round_trip]),
      the framework's errors any number of hops with their class and fields
      ([error_crosses_nodes]), others as [any_error_restored] says, and packets reach
      the topics of their targets ([prepublish_delivers]), and compressed or encrypted data
      is what was sent ([transmission_transparent]).
    - Calls: retries end ([retry_bounded]), chains of calls keep level and request ID and, while
      nothing is repeated, deadlines ([call_chain_bounded]), hooks run in order ([hooks_in_order]).
    - Tracing: a trace is sampled as a whole on all nodes ([one_trace]), the rate limiter keeps its
      rate ([rate_limit_kept]), the middleware changes no result ([tracing_transparent]).
    - Services: mixins merge as one list of schemas ([mixins_in_order]), secure settings stay
      secret, services start after their dependencies ([service_lifecycle],
      [wait_for_services]), stopping waits for running calls ([graceful_stop]).
    - Broker: a broker whose hooks end comes up with its services started after its connection
      ([broker_starts]); stopping runs to its end whatever fails ([broker_stops]).
    - Connection: a start is never stuck in connecting, except with MQTT and Redis
      ([connect_never_stuck], [subscriptions_fail_silently]), a node is
      announced after it subscribed and asked for the others ([connected_in_order]), packets
      are not lost while subscriptions are made ([publish_once]).
    - Transporters: packets are handled by the nodes they are meant for and by no others
      ([packet_audience], [request_audience]), with each of the seven transporters; the transit hears of lost AMQP connections
      ([amqp_loss_reported]).
    - Hot reload: which services a changed file reloads and when it restarts the broker
      ([hot_reload_exact]), and when the walk over the modules ends ([walk_ends]).
    - Redis discoverer: what a check, lazy or full, finds is what the registry knows
      ([redis_converges]).
    - etcd discoverer: what a check does to the registry ([etcd_check]), and the one key that a
      heartbeat leaves ([heartbeat_key]) unless another overlaps it ([forgotten_lease]).
    - Cachers: at most one handler computes a key ([single_flight]) and every request ends
      ([caching_terminates]); when keys of requests differ ([cache_key_injective]); no cacher
      answers a value that was replaced or removed, and each answers what was just set
      ([cacher_sound]), and cleaning in Redis is
      complete although others write ([clean_removes_old]).
    - Metrics: snapshots are never stale ([gauge_snapshot_fresh]), values and counts are what
      was told ([gauge_values], [histogram_counts]); requests are
      counted exactly ([requests_counted]), the window and quantiles are
      right ([window_recent], [quantile_rank]).
    - Middlewares: an open circuit always has a timer that opens it to requests again
      ([cb_never_stuck]) and moves only along its state machine ([cb_transitions]);
      the bulkhead keeps its limits.
    - Loggers and runner: which messages are printed ([messages_printed]), which options come
      from the environment ([env_overrides]), which service files are loaded ([services_loaded]).
    - Error theorems state behaviour the code has and does not mean to have, each on a
      general or concrete state; they carry the findings.

    ** Modelling conventions

    State is passed explicitly; a component's run is a step relation over its operations
    and its invariant is proved for all reachable states.  A reference to a shared,
    mutable object is a [positive] into a store.  Promises of the transit are numbered
    cells, settled once; what the code hands to the outside (packets, handlers to call,
    broadcasts, metrics) is a list of effects in order.  Errors are constructors of the
    result.  Numbers that the code uses as integers are exact integers in [Z], failure
    rates are fractions; strings are lists of 8-bit characters; objects used as maps
    keep insertion order, which assumes keys that are not array indices.  Random
    numbers, hashing, regular expressions, the LRU package, lodash's [get] and, in the
    transit, the error regenerator (which the options may replace) are parameters of the
    definitions.  Times and random draws are arguments; values of metrics are fractions.

    Recursion is structural except for the parser's loop, which recurses on the length
    of the buffer, and for fuel: [Streams.pieces] takes the length of the chunk, since each
    piece takes at least one byte off ([Streams.pieces_concat]); a call with [n] repetitions
    takes [2 n + 3] ([retry_bounded] shows that it is enough); polling loops one unit for
    each interval until the timeout ([wait_for_services], [graceful_stop]); the walk of hot reload
    has enough fuel unless files require each other in a circle ([walk_ends]); the JSON parser
    two units for each character and two more ([JsonText.parse_print]); the extended
    deserializer one for each character and one more, since nested texts are
    shorter ([ext_round_trip]).

    ** Not modelled

    The layout of log messages; the connections of the transporters of message brokers but AMQP, and
    the INFO that the etcd discoverer stores and reads, which are glue to client libraries; the
    constructor of the broker; the raw info of nodes beyond what [update] keeps; the [RegexCache] of [match],
    which only stores compiled patterns; object mode of streams; the reporters of metrics
    and the metrics of the process; serializers that call packages; the exporters
    of tracing; file watchers and debouncing of hot reload; connecting to Redis and redlock. *)

From stdpp Require Import base tactics list strings option gmap sorting.
From Stdlib Require Import ZArith Lia Ascii Bool.

(** ** Notations of the development *)

Declare Scope js_scope.
Delimit Scope js_scope with js.

(** JavaScript's [===] on strings, as a boolean. *)
Notation "a === b" := (String.eqb a b) (at level 70, no associativity) : js_scope.
Notation "a !== b" := (negb (String.eqb a b)) (at level 70, no associativity) : js_scope.

(** ** JavaScript values

    The values services exchange and store: what [JSON.stringify] sees.  Numbers
    are integers; an object is the list of its own properties in order. *)

Inductive json :=
| JUndef
| JNull
| JBool (b : bool)
| JNum (n : Z)
| JStr (s : string)
| JArr (l : list json)
| JObj (m : list (string * json)).

(** [v == null] *)
Definition is_null (v : json) : bool :=
  match v with JUndef | JNull => true | _ => false end.

(** [!!v] *)
Definition truthy (v : json) : bool :=
  match v with
  | JUndef | JNull => false
  | JBool b => b
  | JNum n => negb (n =? 0)%Z
  | JStr s => negb (String.eqb s "")
  | JArr _ | JObj _ => true
  end.

(** [v || d] *)
Definition js_or (v d : json) : json := if truthy v then v else d.

(** [n || d] on a number that may be absent *)
Definition num_or (n : option Z) (d : Z) : Z :=
  match n with Some x => if (x =? 0)%Z then d else x | None => d end.

(** Concatenation of strings *)
Lemma append_assoc (a b c : string) : String.append (String.append a b) c = String.append a (String.append b c).
Proof. induction a as [|x a IH]; [done|]. exact (f_equal (String.String x) IH). Qed.

(** ** Proof automation shared by the components *)

Create HintDb moleculer.

(** Case analysis on the boolean or option a [match] of the goal inspects. *)
Ltac split_match :=
  match goal with
  | |- context [match ?x with _ => _ end] =>
      lazymatch x with
      | context [match _ with _ => _ end] => fail
      | _ => destruct x eqn:?
      end
  end.

(** The same on a hypothesis. *)
Ltac split_match_in H :=
  match type of H with
  | context [match ?x with _ => _ end] =>
      lazymatch x with
      | context [match _ with _ => _ end] => fail
      | _ => destruct x eqn:?
      end
  end.

(** Turn boolean tests of the code into the propositions they decide. *)
Ltac to_prop :=
  repeat match goal with
  | H : (_ && _) = true |- _ => apply andb_true_iff in H as [? ?]
  | H : (_ || _) = false |- _ => apply orb_false_iff in H as [? ?]
  | H : negb _ = true |- _ => apply negb_true_iff in H
  | H : negb _ = false |- _ => apply negb_false_iff in H
  | H : String.eqb _ _ = true |- _ => apply String.eqb_eq in H
  | H : String.eqb _ _ = false |- _ => apply String.eqb_neq in H
  | H : Pos.eqb _ _ = true |- _ => apply Pos.eqb_eq in H
  | H : Pos.eqb _ _ = false |- _ => apply Pos.eqb_neq in H
  | H : Nat.eqb _ _ = true |- _ => apply Nat.eqb_eq in H
  | H : Nat.eqb _ _ = false |- _ => apply Nat.eqb_neq in H
  | H : Nat.ltb _ _ = true |- _ => apply Nat.ltb_lt in H
  | H : Nat.ltb _ _ = false |- _ => apply Nat.ltb_ge in H
  | H : Nat.leb _ _ = true |- _ => apply Nat.leb_le in H
  | H : Nat.leb _ _ = false |- _ => apply Nat.leb_gt in H
  | H : Z.eqb _ _ = true |- _ => apply Z.eqb_eq in H
  | H : Z.eqb _ _ = false |- _ => apply Z.eqb_neq in H
  | H : Z.ltb _ _ = true |- _ => apply Z.ltb_lt in H
  | H : Z.ltb _ _ = false |- _ => apply Z.ltb_ge in H
  | H : Z.leb _ _ = true |- _ => apply Z.leb_le in H
  | H : Z.leb _ _ = false |- _ => apply Z.leb_gt in H
  end.

(** An invariant of every step of a loop holds at its end. *)
Lemma foldl_invariant {A B} (P : A → Prop) (f : A → B → A) (l : list B) (a : A) :
  P a → (∀ a b, b ∈ l → P a → P (f a b)) → P (foldl f a l).
Proof.
  revert a. induction l as [|b l IH]; intros a Ha Hf; simpl; [done|].
  apply IH; [apply Hf; [left|done]|]. intros a' b' Hb'. apply Hf. by right.
Qed.

(** ** Text *)

Module Text.

(** [s.split(c)] of one character *)
Fixpoint split (c : ascii) (s : string) : list string :=
  match s with
  | EmptyString => [EmptyString]
  | String x r =>
      if Ascii.eqb x c then EmptyString :: split c r
      else match split c r with
           | y :: ys => String x y :: ys
           | [] => [String x EmptyString]
           end
  end.

(** [s.substring(n)] *)
Fixpoint substring_from (n : nat) (s : string) : string :=
  match n, s with
  | S n, String _ r => substring_from n r
  | _, _ => s
  end.

(** [s.includes(c)] *)
Fixpoint contains (c : ascii) (s : string) : bool :=
  match s with EmptyString => false | String x r => Ascii.eqb x c || contains c r end.

Lemma split_one c s : contains c s = false → split c s = [s].
Proof.
  induction s as [|x s IH]; [done|]. simpl. intros Hc. apply orb_false_iff in Hc as [-> Hc]. by rewrite IH.
Qed.

Lemma split_key_at c a b : contains c a = false → split c (String.append a (String c b)) = a :: split c b.
Proof.
  induction a as [|x a IH]; simpl; [by rewrite Ascii.eqb_refl|].
  intros Hc. apply orb_false_iff in Hc as [-> Hc]. by rewrite IH.
Qed.

Lemma substring_append a b : substring_from (String.length a) (String.append a b) = b.
Proof. by induction a. Qed.

Lemma contains_append c a b : contains c (String.append a b) = contains c a || contains c b.
Proof. induction a as [|x a IH]; [done|]. simpl. by rewrite IH, orb_assoc. Qed.

End Text.

(** ** Arrays

    A JavaScript array is a list; [find] and [_.remove] keep their order. *)

Module Arr.

Section arrays.
Context {A : Type}.

(** [arr.find(p)] *)
Fixpoint find (p : A → bool) (l : list A) : option A :=
  match l with
  | [] => None
  | x :: l => if p x then Some x else find p l
  end.

(** [arr.findIndex(p)], with [None] for [-1] *)
Fixpoint findIndex (p : A → bool) (l : list A) : option nat :=
  match l with
  | [] => None
  | x :: l => if p x then Some O else S <$> findIndex p l
  end.

(** [arr.filter(p)] *)
Fixpoint filter (p : A → bool) (l : list A) : list A :=
  match l with
  | [] => []
  | x :: l => if p x then x :: filter p l else filter p l
  end.

(** [_.remove(arr, p)]: what is left of [arr] *)
Definition remove (p : A → bool) : list A → list A := filter (λ x, negb (p x)).

(** [arr.splice(i, 1)]: what is left of [arr] *)
Definition splice1 (i : nat) (l : list A) : list A := take i l ++ drop (S i) l.

Lemma find_Some p l x : find p l = Some x → x ∈ l ∧ p x = true.
Proof.
  induction l as [|y l IH]; simpl; [done|].
  destruct (p y) eqn:E; intros; simplify_eq; [by split; [left|]|].
  destruct IH; [done|]. split; [by right|done].
Qed.

Lemma find_None p l : find p l = None ↔ ∀ x, x ∈ l → p x = false.
Proof.
  induction l as [|y l IH]; simpl.
  - split; [intros _ x Hx; by apply not_elem_of_nil in Hx | done].
  - destruct (p y) eqn:E.
    + split; [done | intros H; specialize (H y); rewrite E in H; ospecialize (H _); [left | done]].
    + rewrite IH. split.
      * intros H x Hx. apply elem_of_cons in Hx as [->|Hx]; eauto.
      * intros H x Hx. apply H. by right.
Qed.

Lemma find_is_Some p l : is_Some (find p l) ↔ ∃ x, x ∈ l ∧ p x = true.
Proof.
  split.
  - intros [x Hx]. exists x. by apply find_Some.
  - intros (x & Hx & Hp). destruct (find p l) eqn:E; [by eexists|].
    apply find_None with (x := x) in E; congruence.
Qed.

Lemma elem_of_filter p l x : x ∈ filter p l ↔ x ∈ l ∧ p x = true.
Proof.
  induction l as [|y l IH]; simpl.
  - split; [intros H; by apply not_elem_of_nil in H | intros [H _]; by apply not_elem_of_nil in H].
  - rewrite elem_of_cons. destruct (p y) eqn:E; rewrite ?elem_of_cons, IH; split.
    + intros [->|[? ?]]; auto.
    + intros [[->|?] ?]; auto.
    + intros [? ?]; auto.
    + intros [[->|?] ?]; [congruence | auto].
Qed.

Lemma elem_of_remove p l x : x ∈ remove p l ↔ x ∈ l ∧ p x = false.
Proof. unfold remove. rewrite elem_of_filter, negb_true_iff. done. Qed.

Lemma filter_filter p q l : filter p (filter q l) = filter (λ x, q x && p x) l.
Proof.
  induction l as [|y l IH]; simpl; [done|].
  destruct (q y) eqn:E; simpl; [destruct (p y)|]; by rewrite ?IH.
Qed.

Lemma filter_ext p q l : (∀ x, x ∈ l → p x = q x) → filter p l = filter q l.
Proof.
  induction l as [|y l IH]; simpl; [done|]. intros H.
  rewrite (H y) by left. rewrite IH; [done|]. intros; apply H; by right.
Qed.

Lemma filter_app p l k : filter p (l ++ k) = filter p l ++ filter p k.
Proof. induction l as [|y l IH]; simpl; [done|]. destruct (p y); simpl; by rewrite IH. Qed.

Lemma filter_length p l : length (filter p l) ≤ length l.
Proof. induction l as [|y l IH]; simpl; [lia|]. destruct (p y); simpl; lia. Qed.

Lemma filter_all p l : (∀ x, x ∈ l → p x = true) → filter p l = l.
Proof.
  induction l as [|y l IH]; simpl; [done|]. intros H. rewrite (H y) by left.
  f_equal. apply IH. intros; apply H; by right.
Qed.

Lemma filter_none p l : (∀ x, x ∈ l → p x = false) → filter p l = [].
Proof.
  induction l as [|y l IH]; simpl; [done|]. intros H. rewrite (H y) by left.
  apply IH. intros; apply H; by right.
Qed.

Lemma filter_nil_inv p l : filter p l = [] → ∀ x, x ∈ l → p x = false.
Proof.
  intros H x Hx. destruct (p x) eqn:E; [|done].
  assert (x ∈ filter p l) as Hin by (apply elem_of_filter; done).
  rewrite H in Hin. by apply not_elem_of_nil in Hin.
Qed.

Lemma findIndex_app p l x k : (∀ y, y ∈ l → p y = false) → p x = true →
  findIndex p (l ++ x :: k) = Some (length l).
Proof.
  induction l as [|y l IH]; simpl; intros Hl Hx; [by rewrite Hx|].
  rewrite (Hl y) by left. rewrite IH; [done| |done]. intros; apply Hl; by right.
Qed.

Lemma findIndex_None p l : (∀ y, y ∈ l → p y = false) → findIndex p l = None.
Proof.
  induction l as [|y l IH]; simpl; intros Hl; [done|].
  rewrite (Hl y) by left. rewrite IH; [done|]. intros; apply Hl; by right.
Qed.

Lemma splice1_app l x k : splice1 (length l) (l ++ x :: k) = l ++ k.
Proof.
  unfold splice1. rewrite take_app_length. f_equal.
  rewrite drop_app_ge by lia. by replace (S (length l) - length l) with 1 by lia.
Qed.

Lemma remove_app_mid p l x k : (∀ y, y ∈ l → p y = false) → p x = true →
  (∀ y, y ∈ k → p y = false) → remove p (l ++ x :: k) = l ++ k.
Proof.
  intros Hl Hx Hk. unfold remove. rewrite filter_app. simpl. rewrite Hx. simpl. f_equal;
    apply filter_all; intros y Hy; [by rewrite Hl | by rewrite Hk].
Qed.

Lemma NoDup_filter p l : NoDup l → NoDup (filter p l).
Proof.
  induction 1 as [|y l Hy Hl IH]; simpl; [constructor|].
  destruct (p y); [|done]. constructor; [|done]. rewrite elem_of_filter. naive_solver.
Qed.

Lemma sublist_filter p l : filter p l `sublist_of` l.
Proof. induction l as [|y l IH]; simpl; [constructor|]. destruct (p y); by constructor. Qed.

End arrays.

Lemma filter_map {A B} (f : A → B) (p : B → bool) (l : list A) :
  filter p (map f l) = map f (filter (λ x, p (f x)) l).
Proof. induction l as [|y l IH]; simpl; [done|]. destruct (p (f y)); simpl; by rewrite IH. Qed.

End Arr.

(** ** Stable sorting

    [arr.sort((a, b) => key(a) - key(b))]: JavaScript's sort is stable, so on
    equal keys the order of [arr] is kept. *)

Module Sort.

Section sort.
Context {A : Type} (key : A → Z).

Fixpoint insert (x : A) (l : list A) : list A :=
  match l with
  | [] => [x]
  | y :: l => if (key x <=? key y)%Z then x :: y :: l else y :: insert x l
  end.

Fixpoint sort (l : list A) : list A :=
  match l with
  | [] => []
  | x :: l => insert x (sort l)
  end.

Definition key_le (x y : A) : Prop := (key x ≤ key y)%Z.

Lemma insert_perm x l : insert x l ≡ₚ x :: l.
Proof.
  induction l as [|y l IH]; simpl; [done|]. destruct (_ <=? _)%Z; [done|].
  rewrite IH. by constructor.
Qed.

Lemma sort_perm l : sort l ≡ₚ l.
Proof. induction l as [|x l IH]; simpl; [done|]. by rewrite insert_perm, IH. Qed.

Lemma insert_sorted x l : StronglySorted key_le l → StronglySorted key_le (insert x l).
Proof.
  induction 1 as [|y l Hs IH Hy]; simpl; [repeat constructor|].
  destruct (key x <=? key y)%Z eqn:E; to_prop; constructor; [by constructor| |done|].
  - constructor; [done|]. eapply Forall_impl; [done|]. unfold key_le. intros; simpl in *; lia.
  - apply Forall_forall. intros z Hz. rewrite insert_perm in Hz.
    apply elem_of_cons in Hz as [->|Hz]; [unfold key_le; lia|].
    by eapply (proj1 (Forall_forall _ _)) in Hy.
Qed.

Lemma sort_sorted l : StronglySorted key_le (sort l).
Proof. induction l as [|x l IH]; simpl; [constructor|]. by apply insert_sorted. Qed.

Lemma sorted_app_le l k : StronglySorted key_le (l ++ k) →
  ∀ x y, x ∈ l → y ∈ k → (key x ≤ key y)%Z.
Proof.
  induction l as [|z l IH]; simpl; intros Hs x y Hx Hy; [by apply not_elem_of_nil in Hx|].
  apply StronglySorted_inv in Hs as [Hs Hz]. apply elem_of_cons in Hx as [->|Hx]; [|by eauto].
  rewrite Forall_forall in Hz. apply Hz. apply elem_of_app. by right.
Qed.

End sort.

End Sort.

#[export] Hint Resolve Arr.NoDup_filter Arr.sublist_filter : moleculer.

(** ** Ordered maps

    A JavaScript [Map], and an object used as one: [set] on a present key
    keeps its position, on an absent key appends it, and iteration follows
    that order. *)

Module OMap.

Definition t (V : Type) : Type := list (string * V).

Section omap.
Context {V : Type}.

Fixpoint get (k : string) (m : t V) : option V :=
  match m with
  | [] => None
  | (k', v) :: m => if String.eqb k k' then Some v else get k m
  end.

Fixpoint set (k : string) (v : V) (m : t V) : t V :=
  match m with
  | [] => [(k, v)]
  | (k', v') :: m => if String.eqb k k' then (k', v) :: m else (k', v') :: set k v m
  end.

Fixpoint delete (k : string) (m : t V) : t V :=
  match m with
  | [] => []
  | (k', v') :: m => if String.eqb k k' then m else (k', v') :: delete k m
  end.

Definition has (k : string) (m : t V) : bool :=
  match get k m with Some _ => true | None => false end.

Definition keys (m : t V) : list string := map fst m.
Definition values (m : t V) : list V := map snd m.

(** A map holds each key once. *)
Definition wf (m : t V) : Prop := NoDup (keys m).

Lemma get_set_eq k v m : get k (set k v m) = Some v.
Proof.
  induction m as [|[k' v'] m IH]; simpl; [by rewrite String.eqb_refl|].
  destruct (String.eqb k k') eqn:E; simpl; rewrite E; done.
Qed.

Lemma get_set_ne k k' v m : k ≠ k' → get k' (set k v m) = get k' m.
Proof.
  intros Hne. induction m as [|[j w] m IH]; simpl.
  - destruct (String.eqb k' k) eqn:E; [|done]. to_prop; congruence.
  - destruct (String.eqb k j) eqn:E; simpl; destruct (String.eqb k' j) eqn:E'; try done.
    to_prop; congruence.
Qed.

Lemma get_Some_elem k v m : get k m = Some v → (k, v) ∈ m.
Proof.
  induction m as [|[j w] m IH]; simpl; [done|].
  destruct (String.eqb k j) eqn:E; intros; [to_prop; simplify_eq; left | right; auto].
Qed.

Lemma get_None_keys k m : get k m = None ↔ k ∉ keys m.
Proof.
  induction m as [|[j w] m IH]; simpl.
  - split; [intros _ H; by apply not_elem_of_nil in H | done].
  - rewrite not_elem_of_cons. destruct (String.eqb k j) eqn:E; to_prop; [split; naive_solver|].
    rewrite IH. naive_solver.
Qed.

Lemma elem_get k v m : wf m → (k, v) ∈ m → get k m = Some v.
Proof.
  unfold wf. induction m as [|[j w] m IH]; simpl; intros Hwf Hin.
  - by apply not_elem_of_nil in Hin.
  - apply NoDup_cons in Hwf as [Hj Hwf]. apply elem_of_cons in Hin as [Heq|Hin].
    + simplify_eq. by rewrite String.eqb_refl.
    + destruct (String.eqb k j) eqn:E; [|auto]. to_prop; subst j. destruct Hj.
      apply list_elem_of_fmap. by exists (k, v).
Qed.

Lemma keys_set_in k v m : k ∈ keys m → keys (set k v m) = keys m.
Proof.
  induction m as [|[j w] m IH]; simpl; intros Hin; [by apply not_elem_of_nil in Hin|].
  destruct (String.eqb k j) eqn:E; simpl; [done|]. to_prop. f_equal. apply IH.
  by apply elem_of_cons in Hin as [?|?].
Qed.

Lemma keys_set_notin k v m : k ∉ keys m → keys (set k v m) = keys m ++ [k].
Proof.
  induction m as [|[j w] m IH]; simpl; intros Hin; [done|].
  rewrite not_elem_of_cons in Hin. destruct Hin as [Hne Hin].
  destruct (String.eqb k j) eqn:E; to_prop; [done|]. simpl. by rewrite IH.
Qed.

Lemma wf_set k v m : wf m → wf (set k v m).
Proof.
  unfold wf. intros Hwf. destruct (decide (k ∈ keys m)) as [Hin|Hin].
  - by rewrite keys_set_in.
  - rewrite keys_set_notin by done. apply NoDup_app. split; [done|]. split; [|apply NoDup_singleton].
    intros x Hx Hx'. apply list_elem_of_singleton in Hx'. naive_solver.
Qed.

Lemma delete_sublist k m : keys (delete k m) `sublist_of` keys m.
Proof.
  induction m as [|[j w] m IH]; simpl; [constructor|].
  destruct (String.eqb k j); simpl; by constructor.
Qed.

Lemma wf_delete k m : wf m → wf (delete k m).
Proof. unfold wf. intros. eapply sublist_NoDup; [done | apply delete_sublist]. Qed.

Lemma get_delete_eq k m : wf m → get k (delete k m) = None.
Proof.
  unfold wf. induction m as [|[j w] m IH]; simpl; [done|]. intros Hwf.
  apply NoDup_cons in Hwf as [Hj Hwf].
  destruct (String.eqb k j) eqn:E; simpl; [|rewrite E; auto].
  to_prop; subst. by apply get_None_keys.
Qed.

Lemma get_delete_ne k k' m : k ≠ k' → get k' (delete k m) = get k' m.
Proof.
  intros Hne. induction m as [|[j w] m IH]; simpl; [done|].
  destruct (String.eqb k j) eqn:E; simpl; destruct (String.eqb k' j) eqn:E'; try done.
  to_prop; congruence.
Qed.

Lemma set_elem k v m j w : (j, w) ∈ set k v m → (j = k ∧ w = v) ∨ (j, w) ∈ m.
Proof.
  induction m as [|[j' w'] m IH]; simpl; intros Hin.
  - apply list_elem_of_singleton in Hin. naive_solver.
  - destruct (String.eqb k j') eqn:E; to_prop; apply elem_of_cons in Hin as [Heq|Hin]; simplify_eq.
    + left; done.
    + right; by right.
    + right; left.
    + apply IH in Hin as [?|?]; [by left | right; by right].
Qed.

(** Deleting every key of a list, as [keys.forEach(k => map.delete(k))] does. *)
Definition delete_all (ks : list string) (m : t V) : t V := foldl (λ m k, delete k m) m ks.

Lemma delete_sub k m j w : (j, w) ∈ delete k m → (j, w) ∈ m.
Proof.
  induction m as [|[k' v'] m IH]; simpl; [done|]. destruct (String.eqb k k'); rewrite !elem_of_cons; [auto|].
  naive_solver.
Qed.

Lemma delete_elem k m j w : wf m → (j, w) ∈ delete k m ↔ (j, w) ∈ m ∧ j ≠ k.
Proof.
  unfold wf. induction m as [|[j' w'] m IH]; simpl; intros Hwf.
  - split; [intros H; by apply not_elem_of_nil in H | intros [H _]; by apply not_elem_of_nil in H].
  - apply NoDup_cons in Hwf as [Hj Hwf]. destruct (String.eqb k j') eqn:E; to_prop.
    + subst j'. rewrite elem_of_cons. split.
      * intros Hin. split; [by right|]. intros ->. destruct Hj.
        apply list_elem_of_fmap. by exists (k, w).
      * intros [[?|?] ?]; [simplify_eq|done].
    + rewrite !elem_of_cons, IH by done. split; [|naive_solver].
      intros [?|[? ?]]; [simplify_eq; split; [by left|done] | split; [by right|done]].
Qed.

Lemma wf_delete_all ks m : wf m → wf (delete_all ks m).
Proof. revert m. induction ks as [|k ks IH]; intros m Hm; simpl; [done|]. apply IH, wf_delete, Hm. Qed.

Lemma delete_all_elem ks m j w : wf m → (j, w) ∈ delete_all ks m ↔ (j, w) ∈ m ∧ j ∉ ks.
Proof.
  revert m. induction ks as [|k ks IH]; intros m Hm; simpl.
  - split; [intros; split; [done | apply not_elem_of_nil] | by intros [? _]].
  - change (foldl _ _ ks) with (delete_all ks (delete k m)).
    rewrite IH by (by apply wf_delete). rewrite delete_elem, not_elem_of_cons by done. tauto.
Qed.

Lemma length_delete k m : k ∈ keys m → S (length (delete k m)) = length m.
Proof.
  induction m as [|[j w] m IH]; simpl; intros Hin; [by apply not_elem_of_nil in Hin|].
  destruct (String.eqb k j) eqn:E; simpl; [done|]. to_prop. f_equal. apply IH.
  by apply elem_of_cons in Hin as [?|?].
Qed.

Lemma keys_delete k m j : wf m → j ∈ keys (delete k m) ↔ j ∈ keys m ∧ j ≠ k.
Proof.
  intros Hm. unfold keys. rewrite !list_elem_of_fmap. split.
  - intros ([j' w] & -> & Hin). apply delete_elem in Hin as [? ?]; [|done].
    split; [|done]. by exists (j', w).
  - intros [([j' w] & -> & Hin) Hne]. exists (j', w). split; [done|]. by apply delete_elem.
Qed.

Lemma length_delete_all ks m : wf m → NoDup ks → (∀ k, k ∈ ks → k ∈ keys m) →
  (length (delete_all ks m) + length ks = length m)%nat.
Proof.
  revert m. induction ks as [|k ks IH]; intros m Hm Hks Hin; simpl; [lia|].
  apply NoDup_cons in Hks as [Hk Hks].
  change (foldl _ _ ks) with (delete_all ks (delete k m)).
  rewrite <- (length_delete k m) by (apply Hin; left).
  assert (length (delete_all ks (delete k m)) + length ks = length (delete k m))%nat; [|lia].
  apply IH; [by apply wf_delete|done|]. intros j Hj. apply keys_delete; [done|].
  split; [apply Hin; by right|]. by intros ->.
Qed.

End omap.

Arguments t : clear implicits.

End OMap.

#[export] Hint Resolve OMap.wf_set OMap.wf_delete : moleculer.
