(* ===== verification/Utils.v ===== *)
(** * Utilities

    Models the functions of [src/utils.js] that other components build on: the
    matcher of event names ([match]), the token generator ([generateToken]),
    [dotSet], [uniq] and [humanize].  Texts to match are lists of characters
    with 8-bit codes. *)

From Stdlib Require Import ZArith Lia Bool Ascii.
From stdpp Require Import base tactics list strings option.
From S2P Require Import Prelude.

Local Open Scope nat_scope.

(** ** Matching event names *)

Module Match.

Notation text := (list ascii).

Definition dot : ascii := "."%char.
Definition star : ascii := "*"%char.
Definition quest : ascii := "?"%char.

(** [s.indexOf(c)]; [None] is [-1] *)
Fixpoint indexOf (c : ascii) (s : text) : option nat :=
  match s with
  | [] => None
  | x :: s => if Ascii.eqb x c then Some 0 else option_map S (indexOf c s)
  end.

Definition lastIndexOf (c : ascii) (s : text) : option nat :=
  option_map (λ i, length s - 1 - i) (indexOf c (rev s)).

(** [s.startsWith(p)] *)
Fixpoint startsWith (p s : text) : bool :=
  match p, s with
  | [], _ => true
  | x :: p, y :: s => Ascii.eqb x y && startsWith p s
  | _ :: _, [] => false
  end.

Definition endsWith (p s : text) : bool := startsWith (rev p) (rev s).

(** The pieces of the regular expression a pattern is turned into. *)
Inductive tok :=
| TChar (c : ascii)  (* the character *)
| TAny               (* [.] *)
| TStar              (* [[^\.]*] *)
| TAll.              (* [.*] *)

(** The replacements of [match]: [?] becomes [.], [**] becomes [.*], [*] becomes
    [[^\.]*]; a dot of the pattern is not escaped and stays a [.]. *)
Fixpoint tokens (p : text) : list tok :=
  match p with
  | [] => []
  | c :: p' =>
      if Ascii.eqb c star then
        match p' with
        | c' :: p'' => if Ascii.eqb c' star then TAll :: tokens p'' else TStar :: tokens p'
        | [] => [TStar]
        end
      else (if Ascii.eqb c quest || Ascii.eqb c dot then TAny else TChar c) :: tokens p'
  end.

(** [.] does not match line terminators. *)
Definition newline (c : ascii) : bool := Ascii.eqb c "010"%char || Ascii.eqb c "013"%char.

(** [regex.test(text)] for the anchored expression. *)
Fixpoint rmatch (p : list tok) : text → bool :=
  match p with
  | [] => λ s, match s with [] => true | _ => false end
  | TChar c :: p => λ s, match s with x :: s => Ascii.eqb x c && rmatch p s | [] => false end
  | TAny :: p => λ s, match s with x :: s => negb (newline x) && rmatch p s | [] => false end
  | TStar :: p => fix go s :=
      rmatch p s || match s with x :: s => negb (Ascii.eqb x dot) && go s | [] => false end
  | TAll :: p => fix go s :=
      rmatch p s || match s with x :: s => negb (newline x) && go s | [] => false end
  end.

(** Characters with a meaning of their own in a regular expression; [match] escapes
    only a leading dollar sign. *)
Definition special (c : ascii) : bool :=
  existsb (Ascii.eqb c) ["\"; "^"; "$"; "+"; "("; ")"; "["; "]"; "{"; "}"; "|"]%char.

Definition plain (p : text) : bool :=
  negb (existsb special (match p with "$"%char :: p => p | p => p end)).

(** [match(text, pattern)].  A pattern that brings its own regular expression
    syntax is left to [regexp], the language's engine.  Compiled expressions are
    cached by pattern, which changes no result. *)
Definition regex_path (regexp : text → text → bool) (t p : text) : bool :=
  if plain p then rmatch (tokens p) t else regexp p t.

Definition match_ (regexp : text → text → bool) (t p : text) : bool :=
  match indexOf quest p with
  | Some _ => regex_path regexp t p
  | None =>
      match indexOf star p with
      | None => bool_decide (p = t)
      | Some first =>
          let len := length p in
          if (2 <? len) && endsWith [star; star] p && (len - 2 <=? first)
          then startsWith (take (len - 2) p) t
          else if (1 <? len) && endsWith [star] p && (len - 1 <=? first) then
            if startsWith (take (len - 1) p) t
            then match indexOf dot (drop len t) with None => true | Some _ => false end
            else false
          else if (len =? 1) && (first =? 0)
          then match indexOf dot t with None => true | Some _ => false end
          else if (len =? 2) && (first =? 0) && bool_decide (lastIndexOf star p = Some 1)
          then true
          else regex_path regexp t p
      end
  end.

(** *** What a pattern means *)

(** [*] stands for characters other than dots, [**] for any characters, [?] for one
    character, everything else for itself. *)
Inductive glob : text → text → Prop :=
| glob_nil : glob [] []
| glob_char c p t : c ≠ star → c ≠ quest → glob p t → glob (c :: p) (c :: t)
| glob_quest c p t : glob p t → glob (quest :: p) (c :: t)
| glob_star p t t' : head p ≠ Some star → dot ∉ t → glob p t' → glob (star :: p) (t ++ t')
| glob_all p t t' : glob p t' → glob (star :: star :: p) (t ++ t').

(** *** Strings *)

Lemma indexOf_None c s : indexOf c s = None ↔ c ∉ s.
Proof.
  induction s as [|x s IH]; simpl; [by rewrite elem_of_nil; naive_solver|].
  rewrite elem_of_cons. destruct (Ascii.eqb_spec x c) as [->|Hne]; [naive_solver|].
  destruct (indexOf c s); simpl; naive_solver.
Qed.

Lemma indexOf_Some c s i : indexOf c s = Some i →
  ∃ s1 s2, s = s1 ++ c :: s2 ∧ length s1 = i ∧ c ∉ s1.
Proof.
  revert i. induction s as [|x s IH]; simpl; [done|]. intros i.
  destruct (Ascii.eqb_spec x c) as [->|Hne].
  - intros [= <-]. exists [], s. split_and!; try done. apply not_elem_of_nil.
  - destruct (indexOf c s) as [j|]; simpl; [|done]. intros [= <-].
    destruct (IH j eq_refl) as (s1 & s2 & -> & <- & Hn). exists (x :: s1), s2.
    split_and!; try done. rewrite elem_of_cons. naive_solver.
Qed.

Lemma startsWith_spec p s : startsWith p s = true ↔ ∃ s', s = p ++ s'.
Proof.
  revert s. induction p as [|x p IH]; intros s; simpl; [naive_solver|].
  destruct s as [|y s]; [naive_solver|]. rewrite andb_true_iff, IH, Ascii.eqb_eq. naive_solver.
Qed.

Lemma endsWith_spec p s : endsWith p s = true ↔ ∃ s', s = s' ++ p.
Proof.
  unfold endsWith. rewrite startsWith_spec. split.
  - intros [s' Hs]. exists (rev s'). by rewrite <- (rev_involutive s), Hs, rev_app_distr, rev_involutive.
  - intros [s' ->]. exists (rev s'). by rewrite rev_app_distr.
Qed.

(** *** The regular expression *)

Definition all_ok (f : ascii → bool) (t : text) : Prop := ∀ c, c ∈ t → f c = true.

(** The star loops of the matcher take any run of allowed characters. *)
Lemma star_loop (f : ascii → bool) (m : text → bool) s :
  (fix go s := m s || match s with x :: s => f x && go s | [] => false end) s = true ↔
  ∃ t t', s = t ++ t' ∧ all_ok f t ∧ m t' = true.
Proof.
  induction s as [|x s IH].
  - rewrite orb_false_r. split.
    + intros Hm. exists [], []. split_and!; try done. intros c Hc. by apply not_elem_of_nil in Hc.
    + intros (t & t' & Heq & _ & Hm). symmetry in Heq. by apply app_eq_nil in Heq as [_ ->].
  - rewrite orb_true_iff, andb_true_iff, IH. split.
    + intros [Hm|[Hx (t & t' & -> & Hok & Hm)]].
      * exists [], (x :: s). split_and!; try done. intros c Hc. by apply not_elem_of_nil in Hc.
      * exists (x :: t), t'. split_and!; try done. intros c Hc. apply elem_of_cons in Hc as [->|Hc]; auto.
    + intros ([|y t] & t' & Heq & Hok & Hm); simplify_eq/=; [by left|]. right. split.
      * apply Hok. left.
      * exists t, t'. split_and!; try done. intros c Hc. apply Hok. by right.
Qed.

(** *** Patterns without other syntax: nothing that should match is missed *)

Lemma tokens_star p : head p ≠ Some star → tokens (star :: p) = TStar :: tokens p.
Proof.
  destruct p as [|c p]; intros Hc; [done|]. simpl.
  destruct (Ascii.eqb_spec c star) as [->|]; [|done]. naive_solver.
Qed.

Lemma glob_rmatch p t : glob p t → (∀ c, c ∈ t → newline c = false) → rmatch (tokens p) t = true.
Proof.
  induction 1 as [|c p t Hs Hq _ IH|c p t _ IH|p t t' Hh Hd _ IH|p t t' _ IH]; intros Hnl.
  - done.
  - assert (newline c = false) as Hc by (apply Hnl; left).
    specialize (IH ltac:(intros; apply Hnl; by right)). simpl.
    apply Ascii.eqb_neq in Hs, Hq. rewrite Hs, Hq. simpl.
    destruct (Ascii.eqb c dot); simpl; rewrite ?Hc, ?Ascii.eqb_refl, IH; done.
  - assert (newline c = false) as Hc by (apply Hnl; left).
    specialize (IH ltac:(intros; apply Hnl; by right)). simpl. by rewrite Hc, IH.
  - rewrite tokens_star by done. simpl rmatch. apply star_loop. exists t, t'. split_and!; [done| |].
    + intros c Hc. apply negb_true_iff, Ascii.eqb_neq. by intros ->.
    + apply IH. intros c Hc. apply Hnl, elem_of_app. by right.
  - simpl rmatch. apply star_loop. exists t, t'. split_and!; [done| |].
    + intros c Hc. rewrite Hnl; [done|]. apply elem_of_app. by left.
    + apply IH. intros c Hc. apply Hnl, elem_of_app. by right.
Qed.

(** Literal prefixes. *)
Definition literal (p : text) : Prop := star ∉ p ∧ quest ∉ p.

Lemma literal_cons c p : literal (c :: p) ↔ c ≠ star ∧ c ≠ quest ∧ literal p.
Proof. unfold literal. rewrite !elem_of_cons. naive_solver. Qed.

Lemma glob_app_literal l p t : literal l → glob (l ++ p) t ↔ ∃ t', t = l ++ t' ∧ glob p t'.
Proof.
  revert t. induction l as [|c l IH]; intros t Hl; simpl.
  - split; [eauto|]. by intros (? & -> & ?).
  - apply literal_cons in Hl as (Hs & Hq & Hl). split.
    + inversion 1; simplify_eq; try done.
      match goal with Hg : glob (l ++ p) _ |- _ => apply IH in Hg as (t' & -> & Hg); [|done] end. eauto.
    + intros (t' & -> & Hg). constructor; [done..|]. apply IH; eauto.
Qed.

Lemma glob_nil_inv t : glob [] t ↔ t = [].
Proof. split; [by inversion 1|]. intros ->. constructor. Qed.

Lemma glob_star_end t : glob [star] t ↔ dot ∉ t.
Proof.
  split.
  - inversion 1; simplify_eq; try done. match goal with Hg : glob [] _ |- _ => apply glob_nil_inv in Hg as -> end.
    by rewrite app_nil_r.
  - intros Hd. rewrite <- (app_nil_r t). by apply glob_star; [|done|constructor].
Qed.

Lemma glob_all_end t : glob [star; star] t.
Proof. rewrite <- (app_nil_r t). apply glob_all. constructor. Qed.

(** *** The fast paths *)

Lemma first_star_literal l k i :
  indexOf star (l ++ k) = Some i → length l ≤ i → star ∉ l.
Proof.
  intros Hi Hle Hin. apply indexOf_Some in Hi as (s1 & s2 & Heq & Hlen & Hn).
  apply list_elem_of_lookup in Hin as [j Hj]. apply lookup_lt_Some in Hj as Hlt.
  assert ((s1 ++ star :: s2) !! j = Some star) as Hj' by by rewrite <- Heq, lookup_app_l.
  destruct (decide (j < length s1)) as [Hlt'|]; [|lia].
  rewrite lookup_app_l in Hj' by done. apply Hn. by eapply list_elem_of_lookup_2.
Qed.

(** A literal text, possibly followed by [*] or [**]. *)
Definition simple (p : text) : Prop :=
  literal p ∨ ∃ l, literal l ∧ (p = l ++ [star] ∨ p = l ++ [star; star]).

(** The extra texts of ["prefix*"]: the search for a dot starts one character
    behind the prefix. *)
Definition skipped_dot (p t : text) : Prop :=
  ∃ l t', l ≠ [] ∧ literal l ∧ p = l ++ [star] ∧ t = l ++ dot :: t' ∧ dot ∉ t'.

Lemma indexOf_app c l k : c ∉ l → indexOf c (l ++ c :: k) = Some (length l).
Proof.
  induction l as [|x l IH]; simpl; [by rewrite Ascii.eqb_refl|]. rewrite elem_of_cons. intros Hn.
  destruct (Ascii.eqb_spec x c); [naive_solver|]. by rewrite IH by naive_solver.
Qed.

Lemma simple_no_quest p : simple p → quest ∉ p.
Proof.
  assert (star ≠ quest) by done.
  unfold simple, literal. intros [?|(l & ? & [->| ->])]; [naive_solver|..];
    rewrite elem_of_app, !elem_of_cons, elem_of_nil; naive_solver.
Qed.

(** The fast paths take every simple pattern with a star. *)
Lemma simple_fast p first :
  simple p → indexOf star p = Some first → let len := length p in
  (2 <? len) && endsWith [star; star] p && (len - 2 <=? first) = false →
  (1 <? len) && endsWith [star] p && (len - 1 <=? first) = false →
  (len =? 1) && (first =? 0) = false →
  (len =? 2) && (first =? 0) && bool_decide (lastIndexOf star p = Some 1) = true.
Proof.
  intros [[Hl _]|(l & [Hl _] & [->| ->])] Hs; simpl.
  - apply indexOf_None in Hl. congruence.
  - rewrite (indexOf_app star l []) in Hs by done. injection Hs as <-. rewrite length_app. simpl.
    rewrite (proj2 (endsWith_spec [star] _)) by eauto.
    intros _. destruct l as [|c l]; [done|]. intros H2. exfalso. apply andb_false_iff in H2 as [H2|H2].
    + apply andb_false_iff in H2 as [H2|H2]; [|done]. apply Nat.ltb_ge in H2. simpl in H2. lia.
    + apply Nat.leb_gt in H2. simpl in H2. lia.
  - rewrite (indexOf_app star l [star]) in Hs by done. injection Hs as <-. rewrite length_app. simpl.
    rewrite (proj2 (endsWith_spec [star; star] _)) by eauto.
    destruct l as [|c l]; [done|]. intros H2. exfalso. apply andb_false_iff in H2 as [H2|H2].
    + apply andb_false_iff in H2 as [H2|H2]; [|done]. apply Nat.ltb_ge in H2. simpl in H2. lia.
    + apply Nat.leb_gt in H2. simpl in H2. lia.
Qed.

(** What the branches of [match] do, by the form of the pattern. *)
Inductive form : text → Type :=
| form_literal p : literal p → form p
| form_star l : literal l → l ≠ [] → form (l ++ [star])
| form_all l : literal l → l ≠ [] → form (l ++ [star; star])
| form_one : form [star]
| form_two : form [star; star]
| form_other p : ¬ simple p → form p.

Definition match_form regexp (t : text) {p} (f : form p) : bool :=
  match f with
  | form_literal p _ => bool_decide (p = t)
  | form_star l _ _ => startsWith l t && negb (bool_decide (dot ∈ drop (S (length l)) t))
  | form_all l _ _ => startsWith l t
  | form_one => negb (bool_decide (dot ∈ t))
  | form_two => true
  | form_other p _ => regex_path regexp t p
  end.

Lemma indexOf_negb c s :
  match indexOf c s with None => true | Some _ => false end = negb (bool_decide (c ∈ s)).
Proof.
  destruct (indexOf c s) eqn:Hi.
  - rewrite bool_decide_true; [done|]. destruct (decide (c ∈ s)); [done|].
    apply indexOf_None in n0. congruence.
  - apply indexOf_None in Hi. by rewrite bool_decide_false.
Qed.

Lemma match_by_form regexp t p : ∃ f : form p, match_ regexp t p = match_form regexp t f.
Proof.
  unfold match_. destruct (indexOf quest p) as [q|] eqn:Hq.
  { unshelve eexists (form_other p _); [|done]. intros Hp%simple_no_quest.
    apply indexOf_None in Hp. congruence. }
  apply indexOf_None in Hq.
  destruct (indexOf star p) as [first|] eqn:Hs.
  2: { apply indexOf_None in Hs. by exists (form_literal p (conj Hs Hq)). }
  set (len := length p). destruct ((2 <? len) && _ && _) eqn:H1.
  { apply andb_prop in H1 as [[H1 H2]%andb_prop H3]. apply endsWith_spec in H2 as [l ->].
    apply Nat.ltb_lt in H1. apply Nat.leb_le in H3. unfold len in *. rewrite length_app in *. simpl in *.
    apply first_star_literal in Hs; [|lia]. rewrite elem_of_app in Hq.
    unshelve eexists (form_all l _ _); [split; [done|naive_solver]|intros ->; simpl in *; lia|].
    simpl. by rewrite Nat.add_sub, take_app_length. }
  destruct ((1 <? len) && _ && _) eqn:H2.
  { apply andb_prop in H2 as [[H2 H3]%andb_prop H4]. apply endsWith_spec in H3 as [l ->].
    apply Nat.ltb_lt in H2. apply Nat.leb_le in H4. unfold len in *. rewrite length_app in *. simpl in *.
    apply first_star_literal in Hs; [|lia]. rewrite elem_of_app in Hq.
    unshelve eexists (form_star l _ _); [split; [done|naive_solver]|intros ->; simpl in *; lia|].
    simpl. rewrite Nat.add_sub, take_app_length, indexOf_negb, Nat.add_1_r.
    by destruct (startsWith l t). }
  destruct ((len =? 1) && _) eqn:H3.
  { apply andb_prop in H3 as [H3 H4]. apply Nat.eqb_eq in H3, H4. unfold len in *. subst first.
    destruct p as [|c [|]]; try done. simpl in Hs. destruct (Ascii.eqb_spec c star) as [->|]; [|done].
    exists form_one. apply indexOf_negb. }
  destruct ((len =? 2) && _ && _) eqn:H4.
  2: { unshelve eexists (form_other p _); [|done]. intros Hp.
       pose proof (simple_fast p first Hp Hs H1 H2 H3). unfold len in *. congruence. }
  apply andb_prop in H4 as [[H4 H5]%andb_prop H6]. apply Nat.eqb_eq in H4, H5. unfold len in *. subst first.
  destruct p as [|c [|c' [|]]]; try done. simpl in Hs. destruct (Ascii.eqb_spec c star) as [->|].
  2: { destruct (Ascii.eqb c' star); done. }
  apply bool_decide_eq_true in H6. unfold lastIndexOf in H6. simpl in H6.
  destruct (Ascii.eqb_spec c' star) as [Heq|]; [rewrite Heq; by exists form_two|done].
Qed.

Lemma startsWith_app l t : startsWith l (l ++ t) = true.
Proof. apply startsWith_spec. eauto. Qed.

Lemma drop_S_app (l t : text) : drop (S (length l)) (l ++ t) = drop 1 t.
Proof. rewrite <- Nat.add_1_r, <- drop_drop, drop_app_length. done. Qed.

Lemma not_elem_drop (c : ascii) n (t : text) : c ∉ t → c ∉ drop n t.
Proof. intros Hn Hin. apply Hn. rewrite <- (take_drop n t), elem_of_app. by right. Qed.

Lemma glob_match regexp t p :
  plain p = true → (∀ c, c ∈ t → newline c = false) → glob p t → match_ regexp t p = true.
Proof.
  intros Hp Hnl Hg. destruct (match_by_form regexp t p) as [f ->].
  destruct f as [p Hl|l Hl Hne|l Hl Hne| | |p Hp']; simpl.
  - rewrite <- (app_nil_r p) in Hg. apply glob_app_literal in Hg as (t' & -> & ->%glob_nil_inv); [|done].
    rewrite app_nil_r. by apply bool_decide_true.
  - apply glob_app_literal in Hg as (t' & -> & Hd%glob_star_end); [|done].
    rewrite startsWith_app, drop_S_app. simpl. rewrite bool_decide_false; [done|]. by apply not_elem_drop.
  - apply glob_app_literal in Hg as (t' & -> & _); [|done]. apply startsWith_app.
  - apply glob_star_end in Hg. by rewrite bool_decide_false.
  - done.
  - unfold regex_path. rewrite Hp. by apply glob_rmatch.
Qed.

Lemma skipped_dot_match regexp p t : skipped_dot p t → match_ regexp t p = true.
Proof.
  intros (l & t' & Hne & Hl & -> & -> & Hd). destruct Hl as [Hls Hlq].
  assert (simple (l ++ [star])) as Hsi by (right; exists l; split; [done|by left]).
  unfold match_. rewrite (proj2 (indexOf_None quest _)) by by apply simple_no_quest.
  rewrite (indexOf_app star l []) by done. destruct (_ && _ && _) eqn:H1.
  { apply startsWith_spec. exists (drop (length (l ++ [star]) - 2) l ++ dot :: t').
    rewrite length_app. simpl. rewrite take_app_le by lia. by rewrite app_assoc, take_drop. }
  destruct ((1 <? _) && _ && _) eqn:H2.
  { rewrite length_app. simpl. rewrite Nat.add_sub, take_app_length, startsWith_app.
    rewrite Nat.add_1_r, drop_S_app, indexOf_negb. simpl. by rewrite bool_decide_false. }
  destruct ((_ =? 1) && _) eqn:H3.
  { apply andb_prop in H3 as [_ H3]. by destruct l. }
  pose proof (simple_fast _ (length l) Hsi (indexOf_app star l [] Hls) H1 H2 H3) as H4. simpl in H4. by rewrite H4.
Qed.

(** Whatever a subscription pattern stands for is matched: for every pattern
    without regular expression syntax of its own and every event name without line
    breaks, if the name has the form the pattern describes ([*] within a segment,
    [**] across segments, [?] one character) then [match] accepts it. *)
Theorem event_match_complete regexp t p :
  plain p = true → (∀ c, c ∈ t → newline c = false) → glob p t → match_ regexp t p = true.
Proof. apply glob_match. Qed.

Lemma event_match_complete_witness :
  match_ (λ _ _, false) (String.list_ascii_of_string "user.42.created") (String.list_ascii_of_string "user.*.cr?ated") = true.
Proof.
  apply event_match_complete; [reflexivity| |].
  - apply (proj1 (list.Forall_forall (λ c, newline c = false) _)). repeat constructor.
  - repeat first [apply glob_nil | apply glob_quest | apply glob_char; [discriminate|discriminate|]
      | change (glob (star :: String.list_ascii_of_string ".cr?ated")
                  (String.list_ascii_of_string "42" ++ String.list_ascii_of_string ".created"));
        apply glob_star; [discriminate|by apply (bool_decide_unpack _)|]].
Defined.

(** *** What else is matched *)

(** Without dots of its own the regular expression accepts nothing else. *)
Lemma rmatch_glob p t : dot ∉ p → rmatch (tokens p) t = true → glob p t.
Proof.
  remember (length p) as k eqn:Hk. revert p t Hk.
  induction (lt_wf k) as [k _ IH]. intros p t -> Hd.
  destruct p as [|c p]; [destruct t; [constructor|done]|].
  rewrite elem_of_cons in Hd. destruct (decide (c = star)) as [->|Hs].
  - destruct (decide (head p = Some star)) as [Hh|Hh].
    + destruct p as [|c p]; simplify_eq/=. intros Hm. apply star_loop in Hm as (t1 & t2 & -> & _ & Hm).
      apply glob_all. eapply IH; [|done|rewrite elem_of_cons in Hd; naive_solver|done]. simpl. lia.
    + rewrite tokens_star by done. intros Hm. apply star_loop in Hm as (t1 & t2 & -> & Hok & Hm).
      apply glob_star; [done| |eapply IH; [|done|naive_solver|done]; simpl; lia].
      intros Hin. by apply Hok in Hin.
  - simpl. apply Ascii.eqb_neq in Hs as Hs'. rewrite Hs'.
    destruct (Ascii.eqb_spec c quest) as [->|Hq]; simpl.
    + destruct t as [|x t]; [done|]. intros [_ Hm]%andb_prop. apply glob_quest.
      eapply IH; [|done|naive_solver|done]. simpl. lia.
    + destruct (Ascii.eqb_spec c dot) as [->|]; [naive_solver|]. simpl. destruct t as [|x t]; [done|].
      intros [->%Ascii.eqb_eq Hm]%andb_prop. apply glob_char; [done..|].
      eapply IH; [|done|naive_solver|done]. simpl. lia.
Qed.

(** What [match] accepts, exactly.  For patterns that are a literal text, possibly
    followed by [*] or [**], and for patterns without dots, [match] accepts the
    event names the pattern describes and, for ["prefix*"], also the names with
    a single dot right after the prefix, which [*] does not stand for. *)
Theorem event_match_exact regexp t p :
  plain p = true → (∀ c, c ∈ t → newline c = false) → simple p ∨ dot ∉ p →
  match_ regexp t p = true ↔ glob p t ∨ skipped_dot p t.
Proof.
  intros Hp Hnl Hsimple. split; [|intros [Hg|(l & t' & Hne & Hl & -> & -> & Hd)]].
  - destruct (match_by_form regexp t p) as [f ->].
    destruct f as [p Hl|l Hl Hne|l Hl Hne| | |p Hns]; simpl.
    + intros Heq%bool_decide_eq_true. subst t. left. rewrite <- (app_nil_r p) at 1.
      apply glob_app_literal; [done|]. exists []. by rewrite app_nil_r, glob_nil_inv.
    + intros [(t' & ->)%startsWith_spec Hd%negb_true_iff%bool_decide_eq_false]%andb_prop.
      rewrite drop_S_app in Hd. destruct t' as [|c t']; simpl in Hd.
      * left. apply glob_app_literal; [done|]. exists []. split; [done|]. by apply glob_star_end, not_elem_of_nil.
      * destruct (decide (c = dot)) as [->|Hc]; [right; exists l, t'; done|]. left.
        apply glob_app_literal; [done|]. exists (c :: t'). split; [done|].
        apply glob_star_end. rewrite elem_of_cons. naive_solver.
    + intros (t' & ->)%startsWith_spec. left. apply glob_app_literal; [done|].
      exists t'. split; [done|]. apply glob_all_end.
    + intros Hd%negb_true_iff%bool_decide_eq_false. left. by apply glob_star_end.
    + intros _. left. apply glob_all_end.
    + unfold regex_path. rewrite Hp. left. apply rmatch_glob; [|done]. naive_solver.
  - by apply glob_match.
  - apply skipped_dot_match. by exists l, t'.
Qed.

Lemma event_match_exact_witness :
  match_ (λ _ _, false) (String.list_ascii_of_string "order.paid") (String.list_ascii_of_string "order*") = true ∧
  ¬ glob (String.list_ascii_of_string "order*") (String.list_ascii_of_string "order.paid").
Proof.
  assert (literal (String.list_ascii_of_string "order")) as Hl by (split; by apply (bool_decide_unpack _)).
  split.
  - apply event_match_exact; [reflexivity| | |].
    + apply (proj1 (list.Forall_forall (λ c, newline c = false) _)). repeat constructor.
    + left. right. exists (String.list_ascii_of_string "order"). auto.
    + right. exists (String.list_ascii_of_string "order"), (String.list_ascii_of_string "paid").
      split_and!; [discriminate|done|reflexivity|reflexivity|by apply (bool_decide_unpack _)].
  - change (¬ glob (String.list_ascii_of_string "order" ++ [star]) (String.list_ascii_of_string "order.paid")).
    intros Hg. apply glob_app_literal in Hg as (t' & Heq & Hd%glob_star_end); [|done].
    simplify_eq/=. apply Hd. left.
Defined.

(** The dots of a pattern that goes to the regular expression are not escaped, so
    they accept any character. *)
Theorem event_match_unescaped_dot regexp :
  match_ regexp (String.list_ascii_of_string "orderXp1") (String.list_ascii_of_string "order.p?") = true ∧
  ¬ glob (String.list_ascii_of_string "order.p?") (String.list_ascii_of_string "orderXp1").
Proof.
  split; [reflexivity|].
  change (¬ glob (String.list_ascii_of_string "order." ++ String.list_ascii_of_string "p?")
    (String.list_ascii_of_string "orderXp1")).
  intros Hg. apply glob_app_literal in Hg as (t' & Heq & _); [|split; by apply (bool_decide_unpack _)]. done.
Qed.

End Match.

(** ** Tokens *)

Module Token.

Local Open Scope Z_scope.

Definition hex : list ascii :=
  ["0";"1";"2";"3";"4";"5";"6";"7";"8";"9";"a";"b";"c";"d";"e";"f"]%char.

Definition digit (i : Z) : ascii := nth (Z.to_nat i) hex "?"%char.

(** [lut[i]]: the two hexadecimal digits of a byte *)
Definition lut (i : Z) : list ascii := [digit (i / 16); digit (i mod 16)].

(** [lut[(d >> k) & 0xff]] *)
Definition byte (d k : Z) : list ascii := lut (Z.land (Z.shiftr d k) 255).

(** [generateToken()] from its four random 32-bit integers *)
Definition generateToken (d0 d1 d2 d3 : Z) : list ascii :=
  byte d0 0 ++ byte d0 8 ++ byte d0 16 ++ byte d0 24 ++ ["-"%char] ++
  byte d1 0 ++ byte d1 8 ++ ["-"%char] ++
  lut (Z.lor (Z.land (Z.shiftr d1 16) 15) 64) ++ byte d1 24 ++ ["-"%char] ++
  lut (Z.lor (Z.land d2 63) 128) ++ byte d2 8 ++ ["-"%char] ++
  byte d2 16 ++ byte d2 24 ++ byte d3 0 ++ byte d3 8 ++ byte d3 16 ++ byte d3 24.

(** The textual form of a random UUID: groups of 8, 4, 4, 4 and 12 hexadecimal
    digits, the version digit 4 and a variant digit between 8 and b. *)
Definition uuid_digit (i : nat) (c : ascii) : bool :=
  if (i =? 8)%nat || (i =? 13)%nat || (i =? 18)%nat || (i =? 23)%nat then Ascii.eqb c "-"
  else if (i =? 14)%nat then Ascii.eqb c "4"
  else if (i =? 19)%nat then existsb (Ascii.eqb c) ["8"; "9"; "a"; "b"]%char
  else existsb (Ascii.eqb c) hex.

Definition is_uuid_v4 (t : list ascii) : bool :=
  (length t =? 36)%nat && forallb (λ '(i, c), uuid_digit i c) (combine (seq 0 36) t).

Lemma digit_hex i : 0 <= i < 16 → existsb (Ascii.eqb (digit i)) hex = true.
Proof.
  intros Hi. assert (i ∈ map Z.of_nat (seq 0 16)) as Hin.
  { apply list_elem_of_fmap. exists (Z.to_nat i). rewrite elem_of_seq. lia. }
  revert i Hi Hin. assert (Forall (λ i, existsb (Ascii.eqb (digit i)) hex = true)
    (map Z.of_nat (seq 0 16))) as Hall by (vm_compute; repeat constructor).
  intros i _ Hin. by apply (proj1 (list.Forall_forall _ _) Hall).
Qed.

Lemma byte_range d k : 0 <= Z.land (Z.shiftr d k) 255 < 256.
Proof. change 255 with (Z.ones 8). rewrite Z.land_ones by lia. by apply Z.mod_pos_bound. Qed.

Lemma byte_hex d k : ∃ a b, byte d k = [a; b] ∧
  existsb (Ascii.eqb a) hex = true ∧ existsb (Ascii.eqb b) hex = true.
Proof.
  unfold byte, lut. eexists _, _. split; [done|]. pose proof (byte_range d k).
  split; apply digit_hex; [|by apply Z.mod_pos_bound].
  split; [apply Z.div_pos; lia|]. apply Z.div_lt_upper_bound; lia.
Qed.

(** A property of all residues below a small bound is checked case by case. *)
Lemma small_cases (P : Z → bool) (k : nat) :
  forallb P (map Z.of_nat (seq 0 k)) = true → ∀ i, 0 <= i < Z.of_nat k → P i = true.
Proof.
  intros Hall i Hi. apply (proj1 (forallb_forall _ _) Hall). apply list_elem_of_In, list_elem_of_fmap.
  exists (Z.to_nat i). rewrite elem_of_seq. lia.
Qed.

Lemma version_byte d : ∃ b, lut (Z.lor (Z.land (Z.shiftr d 16) 15) 64) = ["4"%char; b] ∧
  existsb (Ascii.eqb b) hex = true.
Proof.
  change 15 with (Z.ones 4). rewrite Z.land_ones by lia.
  pose proof (Z.mod_pos_bound (Z.shiftr d 16) (2 ^ 4) ltac:(lia)) as Hi.
  set (i := _ mod _) in *. clearbody i.
  pose proof (small_cases (λ i, Ascii.eqb (digit (Z.lor i 64 / 16)) "4" &&
    existsb (Ascii.eqb (digit (Z.lor i 64 mod 16))) hex) 16 eq_refl i Hi) as Hc. simpl in Hc.
  apply andb_prop in Hc as [H1%Ascii.eqb_eq H2]. eexists. split; [|exact H2]. unfold lut. by rewrite H1.
Qed.

Lemma variant_byte d : ∃ a b, lut (Z.lor (Z.land d 63) 128) = [a; b] ∧
  existsb (Ascii.eqb a) ["8"; "9"; "a"; "b"]%char = true ∧ existsb (Ascii.eqb b) hex = true.
Proof.
  change 63 with (Z.ones 6). rewrite Z.land_ones by lia.
  pose proof (Z.mod_pos_bound d (2 ^ 6) ltac:(lia)) as Hi.
  set (i := _ mod _) in *. clearbody i.
  pose proof (small_cases (λ i, existsb (Ascii.eqb (digit (Z.lor i 128 / 16))) ["8"; "9"; "a"; "b"]%char &&
    existsb (Ascii.eqb (digit (Z.lor i 128 mod 16))) hex) 64 eq_refl i Hi) as Hc. simpl in Hc.
  apply andb_prop in Hc as [H1 H2]. eexists _, _. split_and!; [reflexivity|exact H1|exact H2].
Qed.

(** Every generated token is a well-formed random (version 4) UUID, whatever the
    random source returns. *)
Theorem token_is_uuid d0 d1 d2 d3 : is_uuid_v4 (generateToken d0 d1 d2 d3) = true.
Proof.
  unfold generateToken. destruct (version_byte d1) as (v & -> & Hv), (variant_byte d2) as (a & b & -> & Ha & Hb).
  repeat match goal with |- context [byte ?d ?k] =>
    destruct (byte_hex d k) as (? & ? & -> & ? & ?) end.
  unfold is_uuid_v4. cbn -[existsb hex Ascii.eqb].
  repeat match goal with H : existsb _ _ = true |- _ => rewrite H; clear H end. done.
Qed.

End Token.
