(* ===== verification/Logging.v ===== *)
(** * Logging

    [src/logger-factory.js] with [src/loggers/index.js], the levels of [src/loggers/base.js],
    the handlers of [src/loggers/console.js] and the queue of [src/loggers/file.js].  How
    a message is laid out ([src/loggers/formatted.js]) is left to the formatter, a
    parameter; loggers of other packages are not modelled. *)

From stdpp Require Import base tactics list strings option.
From Stdlib Require Import ZArith Lia Bool Ascii.
From S2P Require Import Prelude Utils.

Module Logging.

(** ** Levels *)

Definition LEVELS : list string := ["fatal"; "error"; "warn"; "info"; "debug"; "trace"]%string.

(** [LEVELS.indexOf(level)] *)
Definition levelIdx (level : string) : Z :=
  match list_find (λ l, l = level) LEVELS with Some (i, _) => Z.of_nat i | None => -1 end.

(** [s.toUpperCase()] *)
Definition upper (c : ascii) : ascii :=
  let n := nat_of_ascii c in if ((97 <=? n) && (n <=? 122))%nat then ascii_of_nat (n - 32) else c.
Fixpoint toUpperCase (s : string) : string :=
  match s with EmptyString => EmptyString | String c s => String (upper c) (toUpperCase s) end.

(** The option [level] *)
Inductive level_option :=
| LevelName (level : string)
| LevelMap (levels : OMap.t string)
| LevelOther.

Section levels.
Context (regexp : list ascii → list ascii → bool).

Definition matches (text pattern : string) : bool :=
  Match.match_ regexp (String.list_ascii_of_string text) (String.list_ascii_of_string pattern).

(** A level that is set *)
Definition set_level (level : option string) : option string :=
  match level with Some l => if String.eqb l "" then None else Some l | None => None end.

(** [getLogLevel(mod)]; an empty level counts as none. *)
Definition getLogLevel (level : level_option) (mod_ : option string) : option string :=
  let m := match mod_ with Some m => toUpperCase m | None => "" end in
  match level with
  | LevelName l => set_level (Some l)
  | LevelMap levels =>
      match set_level (OMap.get m levels) with
      | Some l => Some l
      | None =>
          match find (λ e, matches m e.1 && negb (String.eqb e.1 "**")) levels with
          | Some e => set_level (Some e.2)
          | None => set_level (OMap.get "**" levels)
          end
      end
  | LevelOther => None
  end.

(** ** Appenders *)

Inductive kind := Console | File (interval : Z).
Record appender := Appender { a_kind : kind; level : level_option }.

(** What a logger is bound to *)
Record bindings := Bindings { nodeID : string; ns : string; mod_ : string }.

(** [getLogHandler(bindings)] of both kinds: the index of the level *)
Definition getLogHandler (a : appender) (b : option bindings) : option Z :=
  match b with
  | Some b => levelIdx <$> getLogLevel (level a) (Some (mod_ b))
  | None => None
  end.

(** ** The factory *)

(** A logger: the handlers of its appenders, and whether there was a middleware with the hook
    [newLogEntry] when it was made *)
Record logger := Logger { handlers : list (nat * Z); hooked : bool; bound : option bindings }.

Record t := Factory {
  appenders : list appender;
  cache : OMap.t logger
}.

(** [getBindingsKey(bindings)] *)
Definition getBindingsKey (b : option bindings) : string :=
  match b with Some b => nodeID b +:+ "|" +:+ ns b +:+ "|" +:+ mod_ b | None => "" end.

(** The logger that [getLogger] makes *)
Definition fresh (x : t) (hasNewLogEntryMiddleware : bool) (b : option bindings) : logger :=
  Logger (omap (λ e, (λ h, (e.1, h)) <$> getLogHandler e.2 b) (imap pair (appenders x))) hasNewLogEntryMiddleware b.

(** [getLogger(bindings)] *)
Definition getLogger (hasNewLogEntryMiddleware : bool) (b : option bindings) (x : t) : logger * t :=
  match OMap.get (getBindingsKey b) (cache x) with
  | Some l => (l, x)
  | None =>
      let l := fresh x hasNewLogEntryMiddleware b in
      (l, Factory (appenders x) (OMap.set (getBindingsKey b) l (cache x)))
  end.

(** What one call of a logger does, in order *)
Inductive output :=
| NewLogEntry (type : string)         (* the hooks of the middlewares *)
| Printed (appender : nat) (type : string).

(** [logger[type](...args)] *)
Definition log (l : logger) (type : string) : list output :=
  if (match handlers l with [] => true | _ => false end) && negb (hooked l) then []
  else
    (if hooked l then [NewLogEntry type] else []) ++
    flat_map (λ '(i, h), if (h <? levelIdx type)%Z then [] else [Printed i type]) (handlers l).

End levels.

(** ** Making appenders *)

(** The names of [loggers/index.js] *)
Definition names : list string :=
  ["base"; "formatted"; "bunyan"; "console"; "datadog"; "debug"; "file"; "log4js"; "pino"; "winston"; "levels"]%string.

Definition lower (c : ascii) : ascii :=
  let n := nat_of_ascii c in if ((65 <=? n) && (n <=? 90))%nat then ascii_of_nat (n + 32) else c.
Fixpoint toLowerCase (s : string) : string :=
  match s with EmptyString => EmptyString | String c s => String (lower c) (toLowerCase s) end.

(** An appender to be made: its class and its options; [None]: a BrokerOptionsError *)
Record spec := Spec { s_name : string; s_options : json }.

(** [getByName(name)] *)
Definition getByName (name : json) : option string :=
  match name with
  | JStr n => if existsb (String.eqb (toLowerCase n)) names then Some (toLowerCase n) else None
  | _ => None
  end.

(** [_.defaultsDeep({}, o, { options: { level } })] as far as the level is concerned *)
Definition with_level (globalLogLevel : string) (options : json) : json :=
  match options with
  | JUndef => JObj [("level"%string, JStr globalLogLevel)]
  | JObj m =>
      match OMap.get "level" m with
      | None | Some JUndef => JObj (OMap.set "level" (JStr globalLogLevel) m)
      | Some _ => options
      end
  | _ => options
  end.

(** [Loggers.resolve({ type, options })] *)
Definition resolve (type options : json) : option spec := n ← getByName type; Some (Spec n options).

Definition prop (k : string) (m : OMap.t json) : json := default JUndef (OMap.get k m).

(** One element of the option [logger] *)
Definition resolve_item (globalLogLevel : string) (o : json) : option spec :=
  match o with
  | JStr s => resolve (JStr s) (JObj [("level"%string, JStr globalLogLevel)])
  | JObj m => resolve (prop "type" m) (with_level globalLogLevel (prop "options" m))
  | _ => None
  end.

Fixpoint all_some {A} (l : list (option A)) : option (list A) :=
  match l with [] => Some [] | x :: l => x ← x; l ← all_some l; Some (x :: l) end.

(** [init(opts)] on options that are plain values, with the option [logLevel] of the broker *)
Definition init (logLevel : option string) (opts : json) : option (list spec) :=
  let globalLogLevel := match logLevel with Some l => if String.eqb l "" then "info"%string else l | None => "info"%string end in
  match opts with
  | JBool false | JNull | JUndef => Some []
  | JBool true => all_some [resolve (JStr "Console") (JObj [("level"%string, JStr globalLogLevel)])]
  | JArr l => all_some (map (resolve_item globalLogLevel) (Arr.filter truthy l))
  | o => all_some (map (resolve_item globalLogLevel) (Arr.filter truthy [o]))
  end.

(** ** The queue of the file logger *)

Record file := FileState { queue : list string; timer : bool; written : list (list string) }.

(** [init(loggerFactory)] *)
Definition start (interval : Z) : file := FileState [] (0 <? interval)%Z [].

(** [flush()] *)
Definition flush (f : file) : file :=
  match queue f with [] => f | q => FileState [] (timer f) (written f ++ [q]) end.

(** A handler with the index [h] of its level; the formatter has made the row. *)
Definition handle (interval h : Z) (type row : string) (f : file) : file :=
  if (h <? levelIdx type)%Z then f
  else
    let f := FileState (queue f ++ [row]) (timer f) (written f) in
    if (interval =? 0)%Z then flush f else f.

Inductive file_event := Handle (h : Z) (type row : string) | Tick | Stop.
Definition file_step (interval : Z) (e : file_event) (f : file) : file :=
  match e with
  | Handle h type row => handle interval h type row f
  | Tick => if timer f then flush f else f
  | Stop => flush (FileState (queue f) false (written f))
  end.

End Logging.

(** ** Which messages are printed *)

Import Logging.

Section theorems.
Context (regexp : list ascii → list ascii → bool) (id n : string).

(** The broker asks for the loggers of modules; each time there is a hook or not. *)
Definition requests (rs : list (bool * string)) (x : t) : t :=
  foldl (λ x '(h, m), (getLogger regexp h (Some (Bindings id n m)) x).2) x rs.

(** The hook a module's logger got when it was asked for first *)
Fixpoint first_hook (m : string) (rs : list (bool * string)) (h : bool) : bool :=
  match rs with [] => h | (h', m') :: rs => if String.eqb m m' then h' else first_hook m rs h end.

(** An appender whose level for the module admits messages of the type *)
Definition admits (a : appender) (m type : string) : bool :=
  match getLogLevel regexp (level a) (Some m) with Some l => (levelIdx type <=? levelIdx l)%Z | None => false end.

Lemma key_inj m m' : getBindingsKey (Some (Bindings id n m)) = getBindingsKey (Some (Bindings id n m')) → m = m'.
Proof.
  assert (∀ a b c : string, a +:+ b = a +:+ c → b = c) as Hinj.
  { intros a b c. induction a as [|d a IH]; [done|]. intros [= H]. by apply IH. }
  unfold getBindingsKey. simpl. intros E. by do 4 apply Hinj in E.
Qed.

(** What the cache holds after requests *)
Record cached (apps : list appender) (rs : list (bool * string)) (x : t) : Prop := {
  ca_apps : appenders x = apps;
  ca_key m : OMap.get (getBindingsKey (Some (Bindings id n m))) (cache x) =
    if existsb (λ r, String.eqb m r.2) rs
    then Some (fresh regexp (Factory apps []) (first_hook m rs false) (Some (Bindings id n m))) else None
}.

Lemma fresh_apps x y h b : appenders x = appenders y → fresh regexp x h b = fresh regexp y h b.
Proof. unfold fresh. by intros ->. Qed.

Lemma first_hook_app m rs h h' : first_hook m (rs ++ [(h, m)]) h' = first_hook m rs h.
Proof. induction rs as [|[h0 m0] rs IH]; simpl; [by rewrite String.eqb_refl|]. by rewrite IH. Qed.

Lemma first_hook_ne m m' rs h h' : m ≠ m' → first_hook m (rs ++ [(h', m')]) h = first_hook m rs h.
Proof.
  intros Hm. induction rs as [|[h0 m0] rs IH]; simpl; [|by rewrite IH]. by apply String.eqb_neq in Hm as ->.
Qed.

Lemma first_hook_in m rs h h' : existsb (λ r, String.eqb m r.2) rs = true → first_hook m rs h = first_hook m rs h'.
Proof. induction rs as [|[h0 m0] rs IH]; simpl; [done|]. destruct (String.eqb m m0); simpl; [done|apply IH]. Qed.

Lemma get_cached apps rs x h m : cached apps rs x →
  (getLogger regexp h (Some (Bindings id n m)) x).1 =
    fresh regexp (Factory apps []) (first_hook m rs h) (Some (Bindings id n m)) ∧
  cached apps (rs ++ [(h, m)]) (getLogger regexp h (Some (Bindings id n m)) x).2.
Proof.
  intros [Ha Hk]. unfold getLogger. rewrite (Hk m). destruct (existsb (λ r, String.eqb m r.2) rs) eqn:Hin.
  - cbn [fst snd]. split; [f_equal; by apply first_hook_in|]. constructor; [done|]. intros m'. rewrite existsb_app. cbn [existsb snd]. rewrite orb_false_r, Hk.
    destruct (String.eqb_spec m' m) as [->|Hne]; [|by rewrite orb_false_r, first_hook_ne]. rewrite Hin. cbn [orb]. f_equal. f_equal.
    rewrite first_hook_app. by apply first_hook_in.
  - assert (first_hook m rs h = h) as Hfirst.
    { clear -Hin. induction rs as [|[h0 m0] rs IH]; [done|]. simpl in *. apply orb_false_iff in Hin as [-> Hin]. by apply IH. }
    cbn [fst snd]. split; [rewrite Hfirst; by apply fresh_apps|]. constructor; [done|]. intros m'. cbn [cache].
    rewrite existsb_app. cbn [existsb snd]. rewrite orb_false_r. destruct (String.eqb_spec m' m) as [->|Hne].
    + rewrite OMap.get_set_eq, orb_true_r, first_hook_app, Hfirst. f_equal. by apply fresh_apps.
    + rewrite OMap.get_set_ne by (intros E; by apply key_inj in E). by rewrite orb_false_r, first_hook_ne, Hk.
Qed.

Lemma requests_cached apps rs0 rs x : cached apps rs0 x → cached apps (rs0 ++ rs) (requests rs x).
Proof.
  revert rs0 x. induction rs as [|[h m] rs IH]; intros rs0 x Hx; [by rewrite app_nil_r|].
  replace (rs0 ++ (h, m) :: rs) with ((rs0 ++ [(h, m)]) ++ rs) by by rewrite <- app_assoc. apply IH. by apply get_cached.
Qed.

(** A message is printed by the appenders whose level for the module admits it, each of them
    once and in order, after the hook, whatever loggers were asked for before and
    although they are cached.  The hook is called if there was one when the module's logger
    was asked for first. *)
Theorem messages_printed apps rs h m type :
  let l := (getLogger regexp h (Some (Bindings id n m)) (requests rs (Factory apps []))).1 in
  log l type =
    (if first_hook m rs h then [NewLogEntry type] else []) ++
    omap (λ '(i, a), if admits a m type then Some (Printed i type) else None) (imap pair apps).
Proof.
  intros l. unfold l. assert (cached apps [] (Factory apps [])) as H0 by done.
  destruct (get_cached apps rs _ h m (requests_cached apps [] rs _ H0)) as [-> _].
  set (printed := omap (λ '(i, a), if admits a m type then Some (Printed i type) else None) (imap pair apps)).
  assert (flat_map (λ '(i, h0), if (h0 <? levelIdx type)%Z then [] else [Printed i type])
    (handlers (fresh regexp (Factory apps []) (first_hook m rs h) (Some (Bindings id n m)))) = printed) as E.
  { unfold printed, fresh, getLogHandler, admits. cbn [handlers appenders mod_]. generalize (imap pair apps). intros es.
    induction es as [|[i a] es IH]; [done|]. simpl. destruct (getLogLevel regexp (level a) (Some m)) as [lv|]; simpl; [|exact IH].
    destruct (Z.ltb_spec (levelIdx lv) (levelIdx type)), (Z.leb_spec (levelIdx type) (levelIdx lv)); try lia; simpl; [exact IH|f_equal; exact IH]. }
  unfold log. rewrite E. cbn [hooked fresh]. destruct (first_hook m rs h); [by rewrite andb_false_r|]. rewrite andb_true_r.
  revert E. by destruct (handlers _).
Qed.

(** A logger that was asked for before a middleware was added never tells the middleware of
    anything. *)
Lemma late_hook_unheard apps type :
  NewLogEntry type ∉ log (getLogger regexp true (Some (Bindings id n "broker")) (requests [(false, "broker"%string)] (Factory apps []))).1 type.
Proof.
  simpl. unfold getLogger. simpl. rewrite String.eqb_refl. simpl. unfold log. simpl. destruct (_ && _); [apply not_elem_of_nil|].
  intros Hin. apply list_elem_of_In, in_flat_map in Hin as ([i l] & _ & Hin). destruct (_ <? _)%Z; [done|]. by destruct Hin.
Qed.

End theorems.

(** ** Files *)

(** The rows that handlers of the file logger took *)
Definition taken (es : list file_event) : list string :=
  omap (λ e, match e with Handle h type row => if (h <? levelIdx type)%Z then None else Some row | _ => None end) es.

Lemma flush_empty f : queue (flush f) = [].
Proof. by destruct f as [[] ? ?]. Qed.

(** Every row whose level is admitted is written once and in order, at the latest when the
    logger stops. *)
Theorem rows_written interval es :
  let f := file_step interval Stop (foldl (λ f e, file_step interval e f) (start interval) es) in
  concat (written f) = taken es ∧ queue f = [] ∧ [] ∉ written f.
Proof.
  assert (∀ es f, (∀ q, q ∈ written f → q ≠ []) →
    let f' := foldl (λ f e, file_step interval e f) f es in
    concat (written f') ++ queue f' = (concat (written f) ++ queue f) ++ taken es ∧ (∀ q, q ∈ written f' → q ≠ [])) as Hrun.
  { assert (∀ f, (∀ q, q ∈ written f → q ≠ []) →
      concat (written (flush f)) ++ queue (flush f) = concat (written f) ++ queue f ∧ (∀ q, q ∈ written (flush f) → q ≠ [])) as Hflush.
    { intros [[|r q] tm w] Hw; [done|]. simpl. rewrite concat_app. simpl. rewrite !app_nil_r. split; [done|].
      intros p [?| ->%list_elem_of_singleton]%elem_of_app; auto. }
    clear es. induction es as [|e es IH]; intros f Hf; cbn [foldl]; [unfold taken; simpl; by rewrite app_nil_r|].
    assert (∃ r, concat (written (file_step interval e f)) ++ queue (file_step interval e f) = (concat (written f) ++ queue f) ++ r ∧
      taken (e :: es) = r ++ taken es ∧ (∀ q, q ∈ written (file_step interval e f) → q ≠ [])) as (r & E & -> & Hw).
    { destruct e as [h type row| |]; simpl.
      - unfold handle, taken. simpl. destruct (h <? levelIdx type)%Z; [exists []; by rewrite app_nil_r|]. exists [row].
        set (f1 := FileState _ _ _). assert (concat (written f1) ++ queue f1 = (concat (written f) ++ queue f) ++ [row]) as E by (simpl; by rewrite app_assoc).
        destruct (interval =? 0)%Z; [|done]. destruct (Hflush f1 Hf) as [-> Hw]. done.
      - exists []. rewrite app_nil_r. destruct (timer f); [|done]. destruct (Hflush f Hf) as [-> Hw]. done.
      - exists []. rewrite app_nil_r. set (f1 := FileState _ _ _). destruct (Hflush f1 Hf) as [-> Hw]. done. }
    destruct (IH _ Hw) as [-> Hw']. split; [|done]. by rewrite E, <- app_assoc. }
  intros f. destruct (Hrun (es ++ [Stop]) (start interval)) as [H1 H2]; [by intros q ?%elem_of_nil|].
  rewrite foldl_app in H1, H2. cbn [foldl] in H1, H2. fold f in H1, H2.
  assert (taken (es ++ [Stop]) = taken es) as E by (unfold taken; rewrite omap_app; simpl; by rewrite app_nil_r).
  assert (queue f = []) as Hq by apply flush_empty.
  rewrite E, Hq, app_nil_r in H1. split_and!; [done|done|]. intros Hin. by apply H2 in Hin.
Qed.

(** ** Levels of modules *)

(** The level of a module: its own, else that of the first pattern that matches it, else that
    of [**]. *)
Definition sample_levels : level_option :=
  LevelMap [("BROKER", "warn"); ("**", "error"); ("V2.*", "debug"); ("V2.**", "trace")]%string.

Example module_levels :
  map (getLogLevel (λ _ _, false) sample_levels) [Some "broker"; Some "v2.posts"; Some "v2.posts.x"; Some "metrics"; None]%string =
  [Some "warn"; Some "debug"; Some "trace"; Some "error"; Some "error"]%string.
Proof. vm_compute. reflexivity. Qed.
