(* ===== verification/Runner.v ===== *)
(** * The runner

    [src/runner.js]: finding the configuration file, overwriting options from environment
    variables, the list of service files, and the workers of a cluster.  The file system,
    module resolution, glob patterns and lodash's [defaultsDeep] are parameters. *)

From stdpp Require Import base tactics list strings option.
From Stdlib Require Import ZArith Lia Bool Ascii.
From S2P Require Import Prelude Utils Logging.

Local Open Scope Z_scope.

(** ** Numbers in text *)

Module Number.

(** A number [mantissa * 10 ^ exponent], or an infinite one *)
Inductive t := Decimal (mantissa exponent : Z) | Infinity (negative : bool).

Definition digit (base : Z) (c : ascii) : option Z :=
  let n := Z.of_nat (nat_of_ascii c) in
  let d := if (48 <=? n) && (n <=? 57) then Some (n - 48)
           else if (97 <=? n) && (n <=? 122) then Some (n - 87)
           else if (65 <=? n) && (n <=? 90) then Some (n - 55) else None in
  match d with Some d => if d <? base then Some d else None | None => None end.

(** The value of the leading digits, how many there are, and the rest *)
Fixpoint digits (base acc : Z) (n : nat) (s : string) : Z * nat * string :=
  match s with
  | EmptyString => (acc, n, s)
  | String c r => match digit base c with Some d => digits base (acc * base + d) (S n) r | None => (acc, n, s) end
  end.

Definition white (c : ascii) : bool := existsb (Nat.eqb (nat_of_ascii c)) [9; 10; 11; 12; 13; 32; 160]%nat.
Fixpoint trim_left (s : string) : string :=
  match s with String c r => if white c then trim_left r else s | EmptyString => s end.
Fixpoint trim_right (s : string) : string :=
  match s with
  | String c r => match trim_right r with EmptyString => if white c then EmptyString else String c EmptyString | r => String c r end
  | EmptyString => s
  end.

Definition sign (s : string) : bool * string :=
  match s with String "-" r => (true, r) | String "+" r => (false, r) | _ => (false, s) end.

(** The exponent part, or nothing *)
Definition exponent (s : string) : option Z :=
  match s with
  | EmptyString => Some 0
  | String c r =>
      if Ascii.eqb c "e" || Ascii.eqb c "E" then
        let '(neg, r) := sign r in
        match digits 10 0 0 r with
        | (n, S _, EmptyString) => Some (if neg then - n else n)
        | _ => None
        end
      else None
  end.

Definition decimal (s : string) : option t :=
  let '(neg, s) := sign s in
  if String.eqb s "Infinity" then Some (Infinity neg)
  else
    let '(n, i, r) := digits 10 0 0 s in
    let '(n, f, r) := match r with String "." r => digits 10 n 0 r | _ => (n, 0%nat, r) end in
    if ((i + f)%nat =? 0)%nat then None
    else e ← exponent r; Some (Decimal (if neg then - n else n) (e - Z.of_nat f)).

Definition radix (base : Z) (s : string) : option t :=
  match digits base 0 0 s with (n, S _, EmptyString) => Some (Decimal n 0) | _ => None end.

(** [Number(s)]; [None] is [NaN]. *)
Definition of_string (s : string) : option t :=
  match trim_right (trim_left s) with
  | EmptyString => Some (Decimal 0 0)
  | String "0" (String "x" r) | String "0" (String "X" r) => radix 16 r
  | String "0" (String "o" r) | String "0" (String "O" r) => radix 8 r
  | String "0" (String "b" r) | String "0" (String "B" r) => radix 2 r
  | s => decimal s
  end.

End Number.

Module Runner.

(** ** Environment variables *)

Inductive env_value := EBool (b : bool) | ENumber (n : Number.t) | EText (s : string).

(** [normalizeEnvValue(value)] *)
Definition normalizeEnvValue (value : string) : env_value :=
  let l := Logging.toLowerCase value in
  if String.eqb l "true" || String.eqb l "false" then EBool (String.eqb value "true")
  else match Number.of_string value with Some n => ENumber n | None => EText value end.

(** Options: [null] or [undefined], a value that is no object, a value from the environment,
    an object (plain, or of a class or an array) *)
Inductive conf :=
| CNull
| CAtom (v : json)
| CEnv (v : env_value)
| CObj (plain : bool) (m : list (string * conf)).

Definition env := OMap.t string.

(** A variable that is set, and not to the empty string *)
Definition env_get (e : env) (name : string) : option string :=
  match OMap.get name e with Some v => if String.eqb v "" then None else Some v | None => None end.

(** [(prefix ? prefix + "_" : "") + key] *)
Definition extend (prefix : option string) (key : string) : string :=
  match prefix with Some p => if String.eqb p "" then key else p +:+ "_" +:+ key | None => key end.

(** The loop of [overwriteFromEnv(obj, prefix)] over the keys *)
Fixpoint overwrite (e : env) (prefix : option string) (c : conf) : conf :=
  match c with
  | CObj true m =>
      CObj true (map (λ '(key, v),
        (key, match env_get e (Logging.toUpperCase (extend prefix key)) with
              | Some s => CEnv (normalizeEnvValue s)
              | None => overwrite e (Some (extend prefix key)) v
              end)) m)
  | _ => c
  end.

(** [s.split("__")] *)
Fixpoint split_levels (s : string) : list string :=
  match s with
  | String "_" (String "_" r) => EmptyString :: split_levels r
  | String c r => match split_levels r with x :: l => String c x :: l | [] => [String c EmptyString] end
  | EmptyString => [EmptyString]
  end.

(** [value[0].toUpperCase() + value.substring(1)]; it throws on an empty string. *)
Definition capitalize (s : string) : option string :=
  match s with String c r => Some (String (Logging.upper c) r) | EmptyString => None end.

(** A level of a [MOL_] variable in camel case *)
Definition camel (level : string) : option string :=
  match Text.split "_" (Logging.toLowerCase level) with
  | [] => Some EmptyString
  | x :: l => l ← Logging.all_some (map capitalize l); Some (x +:+ String.concat "" l)
  end.

(** The dotted path of a variable without the prefix *)
Definition dotted (name : string) : option string :=
  l ← Logging.all_some (map camel (split_levels name)); Some (String.concat "." l).

(** [utils.dotSet(obj, path, value)] on the parts of the path; it throws where something is
    set that is not an object. *)
Fixpoint dotSet (m : OMap.t conf) (parts : list string) (value : conf) : option (OMap.t conf) :=
  match parts with
  | [] => None
  | [p] => Some (OMap.set p value m)
  | p :: rest =>
      if String.eqb p "" then Some (OMap.set (String.concat "." parts) value m)
      else
        match OMap.get p m with
        | None | Some CNull => m' ← dotSet [] rest value; Some (OMap.set p (CObj true m') m)
        | Some (CObj plain mp) => m' ← dotSet mp rest value; Some (OMap.set p (CObj plain m') m)
        | Some _ => None
        end
  end.

(** The variables that start with [MOL_], in order *)
Definition moleculer_vars (e : env) : list (string * string) :=
  omap (λ '(k, v), if String.prefix "MOL_" k then Some (Text.substring_from 4 k, v) else None) e.

(** [overwriteFromEnv(obj)] of the options; [None]: it throws. *)
Definition overwriteFromEnv (e : env) (obj : OMap.t conf) : option (OMap.t conf) :=
  match overwrite e None (CObj true obj) with
  | CObj _ obj =>
      foldl (λ o '(name, v), obj ← o; path ← dotted name; dotSet obj (Text.split "." path) (CEnv (normalizeEnvValue v)))
        (Some obj) (moleculer_vars e)
  | _ => None
  end.

(** [mergeOptions(configFromFile)] *)
Definition mergeOptions (defaultsDeep : OMap.t conf → OMap.t conf → OMap.t conf) (defaultOptions : OMap.t conf)
    (silent hot : bool) (e : env) (configFromFile : OMap.t conf) : option (OMap.t conf) :=
  config ← overwriteFromEnv e (defaultsDeep configFromFile defaultOptions);
  let config := if silent then OMap.set "logger" (CAtom (JBool false)) config else config in
  Some (if hot then OMap.set "hotReload" (CAtom (JBool true)) config else config).

(** ** The configuration file *)

Inductive config_file :=
| NotFound                            (* rejected: Config file not found *)
| NoFile                              (* an empty configuration *)
| Unsupported (ext : string)          (* rejected: Not supported file extension *)
| Loaded (path : string).

Section files.
Context (isAbsolute : string → bool) (resolve : string → string → string) (cwd : string) (extname : string → string)
  (tryConfigPath : string → bool → option string).

Definition or_else {A} (a b : option A) : option A := match a with Some _ => a | None => b end.

(** [loadConfigFile()], with the variable [MOLECULER_CONFIG] and the flag [config] *)
Definition loadConfigFile (e : env) (flag : option string) : config_file :=
  let configPath := or_else (env_get e "MOLECULER_CONFIG") flag in
  let found :=
    match configPath with
    | Some p =>
        match (if isAbsolute p then tryConfigPath p false
               else or_else (tryConfigPath (resolve cwd p) false) (tryConfigPath p true)) with
        | Some f => Some (Some f)
        | None => None
        end
    | None =>
        Some (or_else (tryConfigPath (resolve cwd "moleculer.config.js") false) (tryConfigPath (resolve cwd "moleculer.config.json") false))
    end in
  match found with
  | None => NotFound
  | Some None => NoFile
  | Some (Some f) =>
      let ext := extname f in
      if existsb (String.eqb ext) [".json"; ".js"; ".cjs"; ".ts"]%string then Loaded f else Unsupported ext
  end.

(** ** Services *)

Context (isDirectory isServiceFile : string → bool) (glob : string → string → list string) (trim : string → string).

Inductive action :=
| LoadFolder (dir mask : string)      (* [broker.loadServices(dir, mask)] *)
| LoadNpm (name : string)
| LoadService (file : string)
| Watch (dir : string)
| Warn (pattern : string).

(** [s.replace(/\\/g, "/")] *)
Fixpoint slashes (s : string) : string :=
  match s with EmptyString => EmptyString | String c r => String (if Ascii.eqb c "\" then "/"%char else c) (slashes r) end.

(** The files a pattern stands for: [None] ends its turn without files. *)
Definition files_of (hotReload : bool) (fileMask svcDir p : string) : list action * option (list string) :=
  let svcPath := if isAbsolute p then p else resolve svcDir p in
  if isDirectory svcPath then
    let watch := if hotReload then [Watch svcPath] else [] in
    match glob (svcPath +:+ "/" +:+ fileMask) "" with
    | [] => (watch ++ [Warn svcPath], None)
    | files => (watch, Some files)
    end
  else if isServiceFile svcPath then ([], Some [slashes svcPath])
  else if isServiceFile (svcPath +:+ ".service.js") then ([], Some [slashes svcPath +:+ ".service.js"])
  else match glob p svcDir with [] => ([Warn p], Some []) | files => ([], Some files) end.

(** One pattern of [loadServices()] *)
Definition pattern (hotReload : bool) (fileMask svcDir : string) (acc : list action * list string) (p : string) : list action * list string :=
  let '(acts, serviceFiles) := acc in
  let p := trim p in
  let '(skipping, p) := match p with String "!" r => (true, r) | _ => (false, p) end in
  if String.prefix "npm:" p then (acts ++ [LoadNpm (Text.substring_from 4 p)], serviceFiles)
  else
    let '(a, files) := files_of hotReload fileMask svcDir p in
    (acts ++ a,
     match files with
     | None => serviceFiles
     | Some files =>
         if skipping then Arr.filter (λ f, negb (existsb (String.eqb f) files)) serviceFiles else serviceFiles ++ files
     end).

(** [utils.uniq(arr)] *)
Definition uniq (l : list string) : list string :=
  rev (foldl (λ acc x, if existsb (String.eqb x) acc then acc else x :: acc) [] l).

(** [loadServices()], with the flag [mask] and the service paths of the command line *)
Definition loadServices (hotReload : bool) (mask : option string) (servicePaths : list string) (e : env) : list action :=
  let fileMask := match mask with Some m => if String.eqb m "" then "**/*.service.js"%string else m | None => "**/*.service.js"%string end in
  let serviceDir := default ""%string (env_get e "SERVICEDIR") in
  let svcDir := if isAbsolute serviceDir then serviceDir else resolve cwd serviceDir in
  let folder :=
    match env_get e "SERVICES", env_get e "SERVICEDIR" with
    | None, Some _ => if isDirectory svcDir then LoadFolder svcDir fileMask :: (if hotReload then [Watch svcDir] else []) else []
    | _, _ => []
    end in
  let patterns := match env_get e "SERVICES" with Some s => Text.split "," s | None => servicePaths end in
  match patterns with
  | [] => folder
  | _ =>
      let '(acts, serviceFiles) := foldl (pattern hotReload fileMask svcDir) ([], []) patterns in
      folder ++ acts ++ map LoadService (uniq serviceFiles)
  end.

End files.

(** ** Workers *)

Inductive worker_action := Fork | Exit (code : Z) | Nothing.

(** A worker of the cluster has ended. *)
Definition worker_exit (stopping production : bool) (code : Z) : worker_action :=
  if stopping then Nothing else if production && negb (code =? 0) then Fork else Exit code.

(** [startWorkers(instances)]: how many *)
Definition workerCount (instances : option Z) (cpus : Z) : Z :=
  match instances with Some n => if 0 <? n then n else cpus | None => cpus end.

(** The node ID in a worker, [getNodeID()] being the default *)
Definition worker_nodeID (nodeID : option string) (getNodeID : string) (worker : string) : string :=
  match nodeID with Some n => if String.eqb n "" then getNodeID else n | None => getNodeID end +:+ "-" +:+ worker.

End Runner.
