(* ===== verification/RunnerTheorems.v ===== *)
(** * What the runner makes of the environment

    Variables replace exactly the options they name ([env_overrides]), setting a dotted path
    changes that path alone ([dotSet_path]), and a service file is loaded once, if the last
    pattern that names it does not skip it ([services_loaded]). *)

From stdpp Require Import base tactics list strings option.
From Stdlib Require Import ZArith Lia Bool Ascii.
From S2P Require Import Prelude Utils Logging Runner.

Import Runner.

(** ** Options *)

(** The value at a path *)
Fixpoint get_path (ks : list string) (c : conf) : option conf :=
  match ks with
  | [] => Some c
  | k :: ks => match c with CObj _ m => v ← OMap.get k m; get_path ks v | _ => None end
  end.

(** The value at a path through plain objects *)
Fixpoint get_plain (ks : list string) (c : conf) : option conf :=
  match ks with
  | [] => Some c
  | k :: ks => match c with CObj true m => v ← OMap.get k m; get_plain ks v | _ => None end
  end.

(** The first variable on the way to a path that is set, and what is left of the path there *)
Fixpoint first_set (e : env) (prefix : option string) (ks : list string) : option (list string * string) :=
  match ks with
  | [] => None
  | k :: ks =>
      match env_get e (Logging.toUpperCase (extend prefix k)) with
      | Some s => Some (ks, s)
      | None => first_set e (Some (extend prefix k)) ks
      end
  end.

(** The prefix in whose scope the value of a path is overwritten *)
Definition scope (prefix : option string) (ks : list string) : option string :=
  foldl (λ p k, Some (extend p k)) prefix ks.

Lemma get_map {V} (f : string → V → V) k (m : OMap.t V) : OMap.get k (map (λ '(k, v), (k, f k v)) m) = f k <$> OMap.get k m.
Proof.
  induction m as [|[k' v] m IH]; [done|]. simpl. destruct (String.eqb_spec k k') as [->|]; [done|exact IH].
Qed.

Lemma overwrite_get e prefix m k :
  OMap.get k (map (λ '(key, v), (key, match env_get e (Logging.toUpperCase (extend prefix key)) with
    | Some s => CEnv (normalizeEnvValue s) | None => overwrite e (Some (extend prefix key)) v end)) m) =
  (λ v, match env_get e (Logging.toUpperCase (extend prefix k)) with
        | Some s => CEnv (normalizeEnvValue s) | None => overwrite e (Some (extend prefix k)) v end) <$> OMap.get k m.
Proof.
  apply (get_map (λ key v, match env_get e (Logging.toUpperCase (extend prefix key)) with
    | Some s => CEnv (normalizeEnvValue s) | None => overwrite e (Some (extend prefix key)) v end)).
Qed.

(** An option of the configuration is what the variable of its path says, if it is set.
    Otherwise the option is gone if the variable of an object around it is set, which
    then replaces the object; else it is what the configuration says, an object being
    overwritten in turn. *)
Theorem env_overrides e prefix c ks x :
  get_plain ks c = Some x →
  get_path ks (overwrite e prefix c) =
    match first_set e prefix ks with
    | Some ([], s) => Some (CEnv (normalizeEnvValue s))
    | Some (_ :: _, _) => None
    | None => Some (overwrite e (scope prefix ks) x)
    end ∧
  ((∀ m, x ≠ CObj true m) → overwrite e (scope prefix ks) x = x).
Proof.
  intros Hx. split; [|by intros Hm; destruct x as [| | |[] m]; try done; destruct (Hm m)].
  revert prefix c Hx. induction ks as [|k ks IH]; intros prefix c Hx; [by injection Hx as ->|].
  destruct c as [| | |[] m]; try done. cbn [get_plain] in Hx. cbn [overwrite get_path first_set]. rewrite overwrite_get.
  destruct (OMap.get k m) as [v|] eqn:Hk; [|done]. simpl in Hx |- *. destruct (env_get e _) as [s|].
  - destruct ks; [done|]. done.
  - by apply IH.
Qed.

(** ** Dotted paths *)

Definition proper_parts (ks : list string) : Prop := ks ≠ [] ∧ ""%string ∉ ks.

(** Neither path leads through the other. *)
Definition apart (ks js : list string) : Prop := ¬ ks `prefix_of` js ∧ ¬ js `prefix_of` ks.

Lemma apart_cons k ks js : apart (k :: ks) (k :: js) → apart ks js.
Proof. intros [H1 H2]. split; intros H; [apply H1|apply H2]; by apply prefix_cons. Qed.

Lemma dotSet_cons m k ks v : k ≠ ""%string → ks ≠ [] →
  dotSet m (k :: ks) v =
    match OMap.get k m with
    | None | Some CNull => m' ← dotSet [] ks v; Some (OMap.set k (CObj true m') m)
    | Some (CObj plain mp) => m' ← dotSet mp ks v; Some (OMap.set k (CObj plain m') m)
    | Some _ => None
    end.
Proof. intros Hk Hks. apply String.eqb_neq in Hk. destruct ks; [done|]. cbn [dotSet]. by rewrite Hk. Qed.

(** What is set at a path is found there, and the rest of the options is as before. *)
Theorem dotSet_path m ks v m' b :
  proper_parts ks → dotSet m ks v = Some m' →
  get_path ks (CObj b m') = Some v ∧ ∀ js, apart ks js → get_path js (CObj b m') = get_path js (CObj b m).
Proof.
  intros [Hne Hempty]. revert m m' b. induction ks as [|k ks IH]; [done|]. intros m m' b Hset. clear Hne.
  apply not_elem_of_cons in Hempty as [Hk Hks].
  assert (∀ c m1, m' = OMap.set k c m → (ks = [] → c = v) →
    (ks ≠ [] → ∃ b1 m2, c = CObj b1 m1 ∧ dotSet m2 ks v = Some m1 ∧
       ∀ js, js ≠ [] → get_path (k :: js) (CObj b m) = get_path js (CObj b1 m2)) →
    get_path (k :: ks) (CObj b m') = Some v ∧ ∀ js, apart (k :: ks) js → get_path js (CObj b m') = get_path js (CObj b m)) as Hgen.
  { intros c m1 -> Hnil Hcons. split.
    - cbn [get_path]. rewrite OMap.get_set_eq. simpl. destruct (decide (ks = [])) as [E|E]; [rewrite E, Hnil by done; done|].
      destruct (Hcons E) as (b1 & m2 & -> & H2 & _). by apply (IH E Hks m2 m1 b1).
    - intros [|j js] Ha; [by destruct Ha as [_ []]; apply prefix_nil|]. destruct (decide (j = k)) as [->|Hj].
      + apply apart_cons in Ha. assert (js ≠ []) as Hjs by (intros ->; by destruct Ha as [_ []]; apply prefix_nil).
        destruct (decide (ks = [])) as [->|E]; [by destruct Ha as [[] _]; apply prefix_nil|].
        destruct (Hcons E) as (b1 & m2 & -> & H2 & H3). rewrite (H3 js Hjs). cbn [get_path]. rewrite OMap.get_set_eq. simpl.
        by apply (IH E Hks m2 m1 b1).
      + cbn [get_path]. by rewrite OMap.get_set_ne. }
  destruct ks as [|k' ks].
  { simpl in Hset. injection Hset as <-. by apply (Hgen v []). }
  rewrite dotSet_cons in Hset by done. destruct (OMap.get k m) as [[| | |b1 mp]|] eqn:Hg; try done.
  - destruct (dotSet [] (k' :: ks) v) as [m1|] eqn:H1; [|done]. simpl in Hset. injection Hset as <-.
    apply (Hgen (CObj true m1) m1); [done|done|]. intros _. exists true, []. split_and!; [done|done|]. intros [|j js] Hjs; [done|].
    cbn [get_path]. by rewrite Hg.
  - destruct (dotSet mp (k' :: ks) v) as [m1|] eqn:H1; [|done]. simpl in Hset. injection Hset as <-.
    apply (Hgen (CObj b1 m1) m1); [done|done|]. intros _. exists b1, mp. split_and!; [done|done|]. intros js Hjs. cbn [get_path]. rewrite Hg. simpl.
    by destruct js.
  - destruct (dotSet [] (k' :: ks) v) as [m1|] eqn:H1; [|done]. simpl in Hset. injection Hset as <-.
    apply (Hgen (CObj true m1) m1); [done|done|]. intros _. exists true, []. split_and!; [done|done|]. intros [|j js] Hjs; [done|].
    cbn [get_path]. by rewrite Hg.
Qed.

(** ** Service files *)

Lemma existsb_elem f (l : list string) : existsb (String.eqb f) l = true ↔ f ∈ l.
Proof.
  rewrite existsb_exists. split.
  - intros (x & Hx & E). apply String.eqb_eq in E as ->. by apply list_elem_of_In.
  - intros Hf. exists f. split; [by apply list_elem_of_In|apply String.eqb_refl].
Qed.

Lemma uniq_spec l : NoDup (uniq l) ∧ ∀ f, f ∈ uniq l ↔ f ∈ l.
Proof.
  unfold uniq. assert (∀ l acc, NoDup acc →
    let r := foldl (λ acc x, if existsb (String.eqb x) acc then acc else x :: acc) acc l in NoDup r ∧ ∀ f, f ∈ r ↔ f ∈ acc ∨ f ∈ l) as Hl.
  { clear l. induction l as [|x l IH]; intros acc Hacc; simpl; [split; [done|]; intros f; rewrite elem_of_nil; tauto|].
    destruct (existsb (String.eqb x) acc) eqn:E.
    - destruct (IH acc Hacc) as [H1 H2]. split; [done|]. intros f. rewrite H2, elem_of_cons. apply existsb_elem in E.
      split; [tauto|]. intros [?|[->|?]]; auto.
    - destruct (IH (x :: acc)) as [H1 H2]; [apply list.NoDup_cons; split; [|done]; intros H; apply existsb_elem in H; congruence|].
      split; [done|]. intros f. rewrite H2, !elem_of_cons. tauto. }
  destruct (Hl l [] ltac:(constructor)) as [H1 H2]. split; [apply NoDup_ListNoDup, NoDup_rev, NoDup_ListNoDup; exact H1|].
  intros f. rewrite list_elem_of_In, <- in_rev, <- list_elem_of_In, H2, elem_of_nil. tauto.
Qed.

Section services.
Context (isAbsolute : string → bool) (resolve : string → string → string) (cwd : string).
Context (isDirectory isServiceFile : string → bool) (glob : string → string → list string) (trim : string → string).

(** What a pattern says of files: whether it skips them, and which *)
Definition turn (hotReload : bool) (fileMask svcDir p : string) : bool * list string :=
  let p := trim p in
  let '(skipping, p) := match p with String "!" r => (true, r) | _ => (false, p) end in
  (skipping, if String.prefix "npm:" p then []
             else default [] (files_of isAbsolute resolve isDirectory isServiceFile glob hotReload fileMask svcDir p).2).

(** The last pattern that names a file decides. *)
Definition chosen (f : string) (turns : list (bool * list string)) : bool :=
  foldl (λ b '(skip, files), if existsb (String.eqb f) files then negb skip else b) false turns.

(** Which services patterns load besides the list of files *)
Definition loads (a : action) : bool := match a with LoadService _ => true | _ => false end.

Lemma files_of_loads h mask dir p : Arr.filter loads (files_of isAbsolute resolve isDirectory isServiceFile glob h mask dir p).1 = [].
Proof. unfold files_of. destruct h; repeat split_match; done. Qed.

Lemma pattern_files h mask dir acts files p :
  let '(acts', files') := pattern isAbsolute resolve isDirectory isServiceFile glob trim h mask dir (acts, files) p in
  let '(skip, named) := turn h mask dir p in
  Arr.filter loads acts' = Arr.filter loads acts ∧
  ∀ f, f ∈ files' ↔ if existsb (String.eqb f) named then skip = false else f ∈ files.
Proof.
  unfold pattern, turn. set (sp := match trim p with String "!" r => _ | _ => _ end).
  destruct sp as [skip q]. destruct (String.prefix "npm:" q).
  - rewrite Arr.filter_app. simpl. rewrite app_nil_r. done.
  - pose proof (files_of_loads h mask dir q) as Hl. destruct (files_of _ _ _ _ _ _ _ _ q) as [a o]. simpl in Hl |- *.
    rewrite Arr.filter_app, Hl, app_nil_r. split; [done|]. intros f. destruct o as [named|]; [|done]. simpl.
    destruct (existsb (String.eqb f) named) eqn:Hf; destruct skip.
    + rewrite Arr.elem_of_filter, Hf. split; [by intros [_ ?]|done].
    + apply existsb_elem in Hf. rewrite elem_of_app. split; [done|auto].
    + rewrite Arr.elem_of_filter, Hf. tauto.
    + rewrite elem_of_app. assert (f ∉ named) by (intros H; apply existsb_elem in H; congruence). tauto.
Qed.

(** With service patterns from the command line or the variable SERVICES, a file is loaded at
    most once by them, and it is loaded exactly if some pattern names it and the last that
    does so is not one to skip. *)
Theorem services_loaded h mask servicePaths e :
  let fileMask := match mask with Some m => if String.eqb m "" then "**/*.service.js"%string else m | None => "**/*.service.js"%string end in
  let serviceDir := default ""%string (env_get e "SERVICEDIR") in
  let svcDir := if isAbsolute serviceDir then serviceDir else resolve cwd serviceDir in
  let patterns := match env_get e "SERVICES" with Some s => Text.split "," s | None => servicePaths end in
  let loaded := Arr.filter loads (loadServices isAbsolute resolve cwd isDirectory isServiceFile glob trim h mask servicePaths e) in
  NoDup loaded ∧ ∀ f, LoadService f ∈ loaded ↔ chosen f (map (turn h fileMask svcDir) patterns) = true.
Proof.
  cbv zeta. unfold loadServices. set (fileMask := match mask with Some _ => _ | None => _ end). set (svcDir := if isAbsolute _ then _ else _).
  set (patterns := match env_get e "SERVICES" with Some s => Text.split "," s | None => servicePaths end).
  set (folder := match env_get e "SERVICES" with Some _ => [] | None => _ end).
  assert (Arr.filter loads folder = []) as Hfolder by (unfold folder; destruct h; repeat split_match; done).
  assert (∀ ps acts files (b : string → bool), (∀ f, f ∈ files ↔ b f = true) →
    let '(acts', files') := foldl (pattern isAbsolute resolve isDirectory isServiceFile glob trim h fileMask svcDir) (acts, files) ps in
    Arr.filter loads acts' = Arr.filter loads acts ∧
    ∀ f, f ∈ files' ↔ foldl (λ b '(skip, fs), if existsb (String.eqb f) fs then negb skip else b) (b f) (map (turn h fileMask svcDir) ps) = true) as Hfold.
  { induction ps as [|p ps IH]; intros acts files b Hb; cbn [foldl map]; [done|].
    pose proof (pattern_files h fileMask svcDir acts files p) as Hp. destruct (pattern _ _ _ _ _ _ _ _ _ _ p) as [acts1 files1].
    destruct (turn h fileMask svcDir p) as [skip named] eqn:Ht. destruct Hp as [Ha Hf].
    specialize (IH acts1 files1 (λ f, if existsb (String.eqb f) named then negb skip else b f)). rewrite Ha in IH. apply IH.
    intros f. rewrite Hf. destruct (existsb _ _); [by destruct skip|apply Hb]. }
  specialize (Hfold patterns [] [] (λ _, false)). destruct patterns as [|p ps] eqn:Hps.
  - rewrite Hfolder. split; [constructor|]. intros f. rewrite elem_of_nil. done.
  - destruct (foldl _ _ (p :: ps)) as [acts files]. destruct Hfold as [Ha Hf]; [intros f; rewrite elem_of_nil; done|].
    rewrite !Arr.filter_app, Hfolder, Ha. destruct (uniq_spec files) as [H1 H2]. rewrite (Arr.filter_all loads (map LoadService _)); [|by intros a (? & -> & _)%list_elem_of_fmap].
    simpl. split; [apply NoDup_fmap_2; [|done]; by intros ?? [=]|]. intros f. unfold chosen. rewrite <- Hf, <- H2, list_elem_of_fmap.
    split; [by intros (? & [= ->] & ?)|eauto].
Qed.

End services.

(** ** What is not meant *)

(** A boolean in capital letters is false. *)
Lemma capital_true_false : normalizeEnvValue "TRUE" = EBool false ∧ normalizeEnvValue "True" = EBool false.
Proof. by vm_compute. Qed.

(** An empty [MOL_] variable sets an option to zero; the others are ignored when empty. *)
Lemma empty_variable_zero :
  overwriteFromEnv [("MOL_NAMESPACE", "")]%string [("namespace", CAtom (JStr "dev"))]%string =
    Some [("namespace", CEnv (ENumber (Number.Decimal 0 0)))]%string ∧
  overwriteFromEnv [("NAMESPACE", "")]%string [("namespace", CAtom (JStr "dev"))]%string = Some [("namespace", CAtom (JStr "dev"))]%string.
Proof. by vm_compute. Qed.

(** A variable with an underscore too many, or one for an option inside of [logger] while
    that is [true] by default, stops the runner. *)
Lemma variables_throw :
  overwriteFromEnv [("MOL_NODE_ID_", "a")]%string [] = None ∧
  overwriteFromEnv [("MOL_LOGGER__TYPE", "Console")]%string [("logger", CAtom (JBool true))]%string = None.
Proof. by vm_compute. Qed.

(** A package that a pattern skips is loaded. *)
Lemma skipped_package_loaded isAbsolute resolve cwd isDirectory isServiceFile glob :
  loadServices isAbsolute resolve cwd isDirectory isServiceFile glob id false None ["!npm:moleculer-web"]%string [] = [LoadNpm "moleculer-web"].
Proof. done. Qed.

(** ** Witnesses *)

Definition sample_env : env :=
  [("CACHER", "Redis"); ("RETRYPOLICY_RETRIES", "0x10"); ("RETRYPOLICY_DELAY", ""); ("MOL_CIRCUIT_BREAKER__MAX_FAILURES", "-1.5e2")]%string.
Definition sample_options : conf :=
  CObj true [("retryPolicy", CObj true [("retries", CAtom (JNum 5)); ("delay", CAtom (JNum 100))]); ("cacher", CObj true [("ttl", CAtom (JNum 1))])]%string.

Lemma env_overrides_witness :
  get_path ["retryPolicy"; "retries"]%string (overwrite sample_env None sample_options) = Some (CEnv (ENumber (Number.Decimal 16 0))) ∧
  get_path ["retryPolicy"; "delay"]%string (overwrite sample_env None sample_options) = Some (CAtom (JNum 100)) ∧
  get_path ["cacher"; "ttl"]%string (overwrite sample_env None sample_options) = None.
Proof.
  split; [exact (proj1 (env_overrides sample_env None sample_options ["retryPolicy"; "retries"]%string _ eq_refl))|].
  split; [exact (proj1 (env_overrides sample_env None sample_options ["retryPolicy"; "delay"]%string _ eq_refl))|].
  exact (proj1 (env_overrides sample_env None sample_options ["cacher"; "ttl"]%string _ eq_refl)).
Defined.

Definition sample_breaker : OMap.t conf := [("circuitBreaker", CObj true [("enabled", CAtom (JBool true))])]%string.
Definition sample_path : list string := ["circuitBreaker"; "maxFailures"]%string.
Definition sample_set : OMap.t conf := default [] (dotSet sample_breaker sample_path (CAtom (JNum 3))).

Lemma dotSet_path_witness :
  dotSet sample_breaker sample_path (CAtom (JNum 3)) = Some sample_set ∧
  get_path ["circuitBreaker"; "enabled"]%string (CObj true sample_set) = Some (CAtom (JBool true)).
Proof.
  split; [reflexivity|].
  refine (proj2 (dotSet_path sample_breaker sample_path (CAtom (JNum 3)) sample_set true _ eq_refl) ["circuitBreaker"; "enabled"]%string _).
  - split; [discriminate|]. unfold sample_path. rewrite !not_elem_of_cons. repeat split; try discriminate. apply not_elem_of_nil.
  - split; intros [l E]; discriminate E.
Defined.
