(* ===== verification/HotReload.v ===== *)
(** * Hot reload

    [src/middlewares/hot-reload.js]: the walk over the tree of loaded modules that finds which
    files belong to which services, and what is reloaded when a file changes.  The module tree
    of Node.js ([mods]) and the file system ([exists_]) are parameters; a walk that
    does not end (a stack overflow of the program) is [None] for every fuel. *)

From stdpp Require Import base tactics list strings option relations.
From Stdlib Require Import Lia Bool Ascii.
From S2P Require Import Prelude Utils Logging Runner.

Module HotReload.

(** A loaded module: its file and the modules it required *)
Record module_ := Module_ { filename : string; children : list nat }.

(** A service of the broker; those made without a file have no [__filename]. *)
Record svc := Svc { fullName : string; file : option string }.

#[export] Instance svc_eq_dec : EqDecision svc.
Proof. solve_decision. Defined.

Record watch_item := WatchItem {
  services : list string;
  allServices : bool;
  brokerRestart : bool;
  others : list string
}.

(** Items of [options.hotReload.extraFiles] *)
Inductive restart := RestartTheBroker | AllServices | OneService (name : string) | SomeServices (names : list string) | NoRestart.

#[export] Instance restart_eq_dec : EqDecision restart.
Proof. solve_decision. Defined.

Record state := State {
  projectFiles : OMap.t watch_item;
  cache : list string
}.

Definition includes (sub s : string) : bool := match String.index 0 sub s with Some _ => true | None => false end.
Definition endsWith (suffix s : string) : bool :=
  String.eqb (String.substring (String.length s - String.length suffix) (String.length suffix) s) suffix.

Definition isNodeModule (fName : string) : bool := includes "node_modules" fName.
Definition isMoleculerConfig (fName : string) : bool :=
  endsWith "moleculer.config.js" fName || endsWith "moleculer.config.ts" fName || endsWith "moleculer.config.json" fName.

Definition mem (s : string) (l : list string) : bool := existsb (String.eqb s) l.

Section walk.
Context (mods : nat → module_) (broker_services : list svc) (hotReloadModules : list string).

Definition new_item : watch_item := WatchItem [] false false [].

(** [getWatchItem(fName)], and changing what it returns *)
Definition upd_item (fName : string) (f : watch_item → watch_item) (d : state) : state :=
  State (OMap.set fName (f (default new_item (OMap.get fName (projectFiles d)))) (projectFiles d)) (cache d).

Definition add_service (name : string) (parents : list string) (i : watch_item) : watch_item :=
  WatchItem (if mem name (services i) then services i else services i ++ [name]) (allServices i) (brokerRestart i)
    (Runner.uniq (others i ++ parents)).
Definition set_brokerRestart (parents : option (list string)) (i : watch_item) : watch_item :=
  WatchItem (services i) (allServices i) true (match parents with Some ps => Runner.uniq (others i ++ ps) | None => others i end).

(** A package that is not to be reloaded, below a project file *)
Definition skipped (service : option svc) (parents : option (list string)) (fName : string) : bool :=
  match service, parents with
  | None, None => false
  | _, _ => isNodeModule fName && negb (existsb (λ p, includes p fName) hotReloadModules)
  end.

(** [parents.indexOf(fName) !== -1] *)
Definition circular (parents : option (list string)) (fName : string) : bool :=
  match parents with Some ps => mem fName ps | None => false end.

(** The service of a file *)
Definition service_at (fName : string) : option svc :=
  Arr.find (λ s, match file s with Some f => String.eqb f fName | None => false end) broker_services.

(** What is noted of a file *)
Definition note_file (service : option svc) (parents : option (list string)) (fName : string) (d : state) : state :=
  match service with
  | Some s => upd_item fName (add_service (fullName s) (default [] parents)) d
  | None =>
      if isMoleculerConfig fName then upd_item fName (set_brokerRestart None) d
      else match parents with Some _ => upd_item fName (set_brokerRestart parents) d | None => d end
  end.

(** [l.forEach(...)] with a body that may not end *)
Fixpoint each {A} (f : nat → A → option A) (l : list nat) (a : A) : option A :=
  match l with
  | [] => Some a
  | m :: l => a ← f m a; each f l a
  end.

(** [processModule(mod, service, level, parents)].  Of a service the array [parents] is a new one
    for each module; without one, all modules below a configuration file share and extend
    one array, whose contents are returned with the state. *)
Fixpoint processModule (fuel : nat) (service : option svc) (m : nat) (a : option (list string) * state) : option (option (list string) * state) :=
  match fuel with
  | 0 => None
  | S fuel =>
      let '(parents, d) := a in
      let fName := filename (mods m) in
      if skipped service parents fName then Some a
      else if circular parents fName then Some a
      else if isNodeModule fName && mem fName (cache d) then Some a
      else
        let d := if isNodeModule fName then State (projectFiles d) (fName :: cache d) else d in
        let service := match service with Some s => Some s | None => service_at fName end in
        let d := note_file service parents fName d in
        match children (mods m), service with
        | [], _ => Some (parents, d)
        | cs, Some _ =>
            '(_, d) ← each (processModule fuel service) cs (Some (default [] parents ++ [fName]), d);
            Some (parents, d)
        | cs, None =>
            if isMoleculerConfig fName then
              '(_, d) ← each (processModule fuel None) cs (Some [], d);
              Some (parents, d)
            else each (processModule fuel None) cs ((λ ps, ps ++ [fName]) <$> parents, d)
        end
  end.

(** The items of the extra files *)
Definition extra_file (d : state) (e : string * restart) : state :=
  upd_item e.1 (λ i, match e.2 with
    | RestartTheBroker => WatchItem (services i) (allServices i) true (others i)
    | AllServices => WatchItem (services i) true (brokerRestart i) (others i)
    | OneService name => WatchItem (services i ++ [name]) (allServices i) (brokerRestart i) (others i)
    | SomeServices names => WatchItem (services i ++ names) (allServices i) (brokerRestart i) (others i)
    | NoRestart => i
    end) d.

(** [watchProjectFiles()] of a broker that has started: the files that are watched, and what they belong to *)
Definition watchProjectFiles (fuel : nat) (main : nat) (extraFiles : list (string * restart)) (exists_ : string → bool) : option (OMap.t watch_item) :=
  '(_, d) ← processModule fuel None main (None, State [] []);
  Some (Arr.filter (λ '(fName, _), exists_ fName) (projectFiles (foldl extra_file d extraFiles))).

End walk.

(** ** Changes *)

(** What is to be reloaded: a service, or the file of one that is not loaded *)
Inductive entry := Loaded (s : svc) | Missing (path : string).

#[export] Instance entry_eq_dec : EqDecision entry.
Proof. solve_decision. Defined.

(** What a change does at once: starting the broker again, or collecting services for the debounced reload *)
Inductive reaction := RestartBroker | Reload (needToReload : list entry) | Ignore.

(** [needToReload.add(x)] of a [Set] *)
Definition add_entry (l : list entry) (x : entry) : list entry := if decide (x ∈ l) then l else l ++ [x].

(** The watcher of a file, [hasRunner] telling if the broker has a runner that restarts it: the
    modules removed from the cache of [require] and the reaction *)
Definition changed (broker_services : list svc) (hasRunner : bool) (relPath : string → string) (files : OMap.t watch_item) (fName : string)
    (needToReload : list entry) : option (list string * reaction) :=
  i ← OMap.get fName files;
  let cleared := fName :: others i in
  Some (cleared,
    if brokerRestart i && hasRunner then RestartBroker
    else if allServices i then
      Reload (foldl (λ l s, match file s with Some _ => add_entry l (Loaded s) | None => l end) needToReload broker_services)
    else match services i with
         | [] => Ignore
         | names =>
             match foldl (λ l s, if mem (fullName s) names then add_entry l (Loaded s) else l) needToReload broker_services with
             | [] => Reload [Missing (relPath fName)]
             | l => Reload l
             end
         end).

(** What the debounced function does: a service is destroyed and its file loaded again, if it is
    still there. *)
Inductive action := HotReloadService (s : svc) | LoadService (path : string).

Definition entry_file (e : entry) : option string := match e with Loaded s => file s | Missing p => Some p end.

(** [_.uniqWith(...)] by the files *)
Definition dedup (l : list entry) : list entry :=
  foldl (λ acc e, if existsb (λ e', bool_decide (entry_file e' = entry_file e)) acc then acc else acc ++ [e]) [] l.

Definition reloadServices (exists_ : string → bool) (needToReload : list entry) : list action :=
  omap (λ e, match e with
             | Loaded s => Some (HotReloadService s)
             | Missing p => if exists_ p then Some (LoadService p) else None
             end) (dedup needToReload).

(** [hotReloadService(service)]: what is done in order *)
Inductive service_step := Destroy (s : svc) | Load (path : string).
Definition hotReloadService (exists_ : string → bool) (s : svc) : list service_step :=
  Destroy s :: match file s with Some f => if exists_ f then [Load f] else [] | None => [] end.

(** A change in a watched folder: new service files are collected, to be loaded later. *)
Definition folderChanged (broker_services : list svc) (exists_ : string → bool) (needToLoad : list string) (filename : string) : list string :=
  if (endsWith ".service.js" filename || endsWith ".service.ts" filename) &&
     negb (match service_at broker_services filename with Some _ => true | None => false end) && exists_ filename && negb (mem filename needToLoad)
  then needToLoad ++ [filename] else needToLoad.

End HotReload.
