(* ===== verification/HotReloadTheorems.v ===== *)
(** * Theorems about hot reload

    The walk over the modules ends unless project files outside of services require each other
    in a circle ([walk_ends], [circular_overflow]), and a changed file restarts the broker or reloads
    exactly the services whose files need it or for which it is named ([hot_reload_exact]). *)

From stdpp Require Import base tactics list strings option relations.
From Stdlib Require Import Lia Bool Ascii.
From S2P Require Import Prelude Utils Logging Runner RunnerTheorems HotReload.

Import HotReload.

Lemma mem_spec s l : mem s l = true ↔ s ∈ l.
Proof. apply existsb_elem. Qed.

Lemma mem_false s l : mem s l = false ↔ s ∉ l.
Proof. rewrite <- mem_spec. destruct (mem s l); naive_solver. Qed.

(** ** Loops of walks *)

Section loops.
Context {A : Type}.

Lemma each_mono (f g : nat → A → option A) l a r :
  (∀ m a r, f m a = Some r → g m a = Some r) → each f l a = Some r → each g l a = Some r.
Proof.
  intros Hfg. revert a. induction l as [|m l IH]; intros a; simpl; [done|].
  destruct (f m a) as [a'|] eqn:E; simpl; [|done]. intros Hr. rewrite (Hfg _ _ _ E). simpl. by apply IH.
Qed.

Lemma each_invariant (P : A → Prop) (f : nat → A → option A) l a r :
  (∀ m a a', m ∈ l → P a → f m a = Some a' → P a') → P a → each f l a = Some r → P r.
Proof.
  revert a. induction l as [|m l IH]; intros a Hf Ha; simpl; [by intros [= <-]|].
  destruct (f m a) as [a'|] eqn:E; simpl; [|done]. apply IH.
  - intros m' ? ? Hm'. apply Hf. by right.
  - eapply Hf; [by left|done|done].
Qed.

End loops.

Section walk.
Context (mods : nat → module_) (broker_services : list svc) (hotReloadModules : list string).

Notation file_of m := (filename (mods m)).
Notation nm m := (isNodeModule (filename (mods m))).
Notation service_of m := (service_at broker_services (filename (mods m))).
Notation process := (processModule mods broker_services hotReloadModules).

(** ** One module *)

Definition passed (service : option svc) (parents : option (list string)) (m : nat) (d : state) : bool :=
  skipped hotReloadModules service parents (file_of m) || circular parents (file_of m) || (nm m && mem (file_of m) (cache d)).

Definition entered (service : option svc) (parents : option (list string)) (m : nat) (d : state) : state :=
  note_file (match service with Some s => Some s | None => service_of m end) parents (file_of m)
    (if nm m then State (projectFiles d) (file_of m :: cache d) else d).

(** What a walk that ends has done *)
Lemma process_inv fuel service m parents d p' d' : process (S fuel) service m (parents, d) = Some (p', d') →
  passed service parents m d = true ∧ p' = parents ∧ d' = d ∨
  passed service parents m d = false ∧
  match (match service with Some s => Some s | None => service_of m end) with
  | Some s => p' = parents ∧ ∃ q, each (process fuel (Some s)) (children (mods m)) (Some (default [] parents ++ [file_of m]), entered service parents m d) = Some (q, d')
  | None =>
      if isMoleculerConfig (file_of m) then
        p' = parents ∧ ∃ q, each (process fuel None) (children (mods m)) (Some [], entered service parents m d) = Some (q, d')
      else ∃ p0, (is_Some p0 ↔ is_Some parents) ∧ each (process fuel None) (children (mods m)) (p0, entered service parents m d) = Some (p', d')
  end.
Proof.
  cbn [processModule]. unfold passed, entered. destruct (skipped _ _ _ _); [intros [= <- <-]; by left|].
  destruct (circular _ _); [intros [= <- <-]; by left|]. cbn [orb].
  destruct (nm m && mem (file_of m) (cache d)); [intros [= <- <-]; by left|].
  set (d1 := note_file _ _ _ _). intros Hr. right. split; [done|].
  destruct (match service with Some s => Some s | None => service_of m end) as [s|]; destruct (children (mods m)) as [|c cs] eqn:Ec.
  - injection Hr as <- <-. split; [done|]. by eexists.
  - destruct (each _ _ _) as [[q d2]|]; simpl in Hr; [|done]. injection Hr as <- <-. split; [done|]. by exists q.
  - injection Hr as <- <-. destruct (isMoleculerConfig _); [split; [done|]; by eexists|]. by exists parents.
  - destruct (isMoleculerConfig _).
    + destruct (each _ _ _) as [[q d2]|]; simpl in Hr; [|done]. injection Hr as <- <-. split; [done|]. by exists q.
    + eexists. split; [|exact Hr]. by destruct parents.
Qed.

Lemma process_mono fuel k service m a r : fuel ≤ k → process fuel service m a = Some r → process k service m a = Some r.
Proof.
  revert k service m a r. induction fuel as [|fuel IH]; intros k service m [parents d] r Hk; [done|].
  destruct k as [|k]; [lia|]. assert (∀ service m a r, process fuel service m a = Some r → process k service m a = Some r) as Hk'.
  { intros ????. apply IH. lia. }
  cbn [processModule]. destruct (skipped _ _ _ _); [done|]. destruct (circular _ _); [done|].
  destruct (nm m && _); [done|]. destruct (children (mods m)) as [|c cs]; [by destruct (match service with Some s => _ | None => _ end)|].
  destruct (match service with Some s => Some s | None => service_of m end) as [s|].
  - destruct (each (process fuel _) _ _) as [[q d2]|] eqn:E; [|done]. by rewrite (each_mono _ _ _ _ _ (Hk' (Some s)) E).
  - destruct (isMoleculerConfig _); [|by apply each_mono, Hk'].
    destruct (each (process fuel _) _ _) as [[q d2]|] eqn:E; [|done]. by rewrite (each_mono _ _ _ _ _ (Hk' None) E).
Qed.

(** ** What is noted *)

Definition services_of (f : string) (d : state) : list string := services (default new_item (OMap.get f (projectFiles d))).

Lemma services_upd_ne f g h d : f ≠ g → services_of f (upd_item g h d) = services_of f d.
Proof. intros Hne. unfold services_of, upd_item. simpl. by rewrite OMap.get_set_ne. Qed.

Lemma services_upd_eq f h d : services_of f (upd_item f h d) = services (h (default new_item (OMap.get f (projectFiles d)))).
Proof. unfold services_of, upd_item. simpl. by rewrite OMap.get_set_eq. Qed.

Lemma note_services s ps g d f n :
  n ∈ services_of f (note_file (Some s) ps g d) ↔ n ∈ services_of f d ∨ f = g ∧ n = fullName s.
Proof.
  simpl. destruct (decide (f = g)) as [->|Hne].
  - rewrite services_upd_eq. simpl. fold (services_of g d). destruct (mem _ _) eqn:Hm.
    + apply mem_spec in Hm. naive_solver.
    + rewrite elem_of_app, list_elem_of_singleton. naive_solver.
  - rewrite services_upd_ne by done. naive_solver.
Qed.

Lemma note_none ps g d f : services_of f (note_file None ps g d) = services_of f d.
Proof.
  assert (∀ ps', services_of f (upd_item g (set_brokerRestart ps') d) = services_of f d) as Hu.
  { intros ps'. destruct (decide (f = g)) as [->|Hne]; [by rewrite services_upd_eq|by rewrite services_upd_ne]. }
  simpl. destruct (isMoleculerConfig g); [done|]. by destruct ps.
Qed.

Lemma note_cache s ps g d : cache (note_file s ps g d) = cache d.
Proof. destruct s; simpl; [done|]. destruct (isMoleculerConfig g); [done|]. by destruct ps. Qed.

Lemma entered_services service parents m d f n :
  n ∈ services_of f (entered service parents m d) ↔ n ∈ services_of f d ∨
    ∃ s, (match service with Some s => Some s | None => service_of m end) = Some s ∧ f = file_of m ∧ n = fullName s.
Proof.
  unfold entered. assert (∀ d', projectFiles d' = projectFiles d → services_of f d' = services_of f d) as Hp.
  { intros d' E. unfold services_of. by rewrite E. }
  destruct (match service with Some s => _ | None => _ end) as [s|].
  - rewrite note_services, Hp by (by destruct (nm m)). naive_solver.
  - rewrite note_none, Hp by (by destruct (nm m)). naive_solver.
Qed.

Lemma entered_cache service parents m d : cache (entered service parents m d) = if nm m then file_of m :: cache d else cache d.
Proof. unfold entered. rewrite note_cache. by destruct (nm m). Qed.

(** Whether a change of the file restarts the broker *)
Definition restart_of (f : string) (d : state) : bool := brokerRestart (default new_item (OMap.get f (projectFiles d))).

Lemma restart_upd f g h d : restart_of f (upd_item g h d) = if String.eqb g f then brokerRestart (h (default new_item (OMap.get g (projectFiles d)))) else restart_of f d.
Proof.
  unfold restart_of, upd_item. simpl. destruct (String.eqb_spec g f) as [->|Hne]; [by rewrite OMap.get_set_eq|by rewrite OMap.get_set_ne].
Qed.

Lemma entered_restart service parents m d f :
  restart_of f (entered service parents m d) = true ↔ restart_of f d = true ∨
    (match service with Some s => Some s | None => service_of m end) = None ∧ f = file_of m ∧ (isMoleculerConfig (file_of m) = true ∨ is_Some parents).
Proof.
  unfold entered. set (d1 := if nm m then _ else d). assert (restart_of f d1 = restart_of f d) as <- by (unfold d1; by destruct (nm m)).
  destruct (match service with Some s => _ | None => _ end) as [s|]; simpl.
  - rewrite restart_upd. destruct (String.eqb_spec (file_of m) f) as [->|]; simpl; [fold (restart_of f d1)|]; naive_solver.
  - destruct (isMoleculerConfig _), parents; rewrite ?restart_upd; simpl; try destruct (String.eqb_spec (file_of m) f); naive_solver.
Qed.

(** The walk only adds. *)
Record grows (d d' : state) : Prop := {
  gr_restart f : restart_of f d = true → restart_of f d' = true;
  gr_services f n : n ∈ services_of f d → n ∈ services_of f d';
  gr_cache x : x ∈ cache d → x ∈ cache d'
}.

#[export] Instance grows_preorder : PreOrder grows.
Proof. split; [by constructor|]. intros d1 d2 d3 [] []. constructor; auto. Qed.

Lemma grows_entered service parents m d : grows d (entered service parents m d).
Proof.
  constructor; [intros f Hf; apply entered_restart; by left|intros f n Hn; apply entered_services; by left|].
  intros x Hx. rewrite entered_cache. destruct (nm m); [by right|done].
Qed.

Lemma process_grows fuel service m a r : process fuel service m a = Some r → grows a.2 r.2.
Proof.
  revert service m a r. induction fuel as [|fuel IH]; intros service m [parents d] [p' d'] Hr; [done|].
  assert (∀ service cs a r, each (process fuel service) cs a = Some r → grows a.2 r.2) as Heach.
  { intros service' cs a r. apply (each_invariant (λ r, grows a.2 r.2)); [|done].
    intros m' a1 a2 _ Ha Hp. etransitivity; [exact Ha|by eapply IH]. }
  simpl. apply process_inv in Hr as [(_ & _ & ->)|(_ & Hr)]; [done|].
  etransitivity; [apply (grows_entered service parents m)|].
  destruct (match service with Some s => _ | None => _ end) as [s|]; [|destruct (isMoleculerConfig _)].
  - destruct Hr as (_ & q & Hr). by apply Heach in Hr.
  - destruct Hr as (_ & q & Hr). by apply Heach in Hr.
  - destruct Hr as (p0 & _ & Hr). by apply Heach in Hr.
Qed.

End walk.

(** ** Paths *)

Section paths.
Context (mods : nat → module_) (broker_services : list svc).

Notation file_of m := (filename (mods m)).
Notation nm m := (isNodeModule (filename (mods m))).
Notation service_of m := (service_at broker_services (filename (mods m))).
Notation process := (processModule mods broker_services []).

(** A project file requires another one. *)
Definition requires (m c : nat) : Prop := c ∈ children (mods m) ∧ nm c = false.

(** The files on paths that do not meet a file twice *)
Inductive simple_path : list string → nat → string → Prop :=
| path_here ps m : file_of m ∉ ps → nm m = false → simple_path ps m (file_of m)
| path_step ps m c f : file_of m ∉ ps → nm m = false → c ∈ children (mods m) → simple_path (ps ++ [file_of m]) c f → simple_path ps m f.

Lemma simple_path_sound ps m f : simple_path ps m f → nm m = false ∧ ∃ x, rtc requires m x ∧ file_of x = f.
Proof.
  induction 1 as [ps m Hps Hm|ps m c f Hps Hm Hc _ (Hn & x & Hx & Hf)]; (split; [done|]).
  - by exists m.
  - exists x. split; [|done]. eapply rtc_l; [|exact Hx]. done.
Qed.

Fixpoint chain (m : nat) (l : list nat) (x : nat) : Prop :=
  match l with [] => m = x | c :: l => requires m c ∧ chain c l x end.

Lemma rtc_chain m x : rtc requires m x → ∃ l, chain m l x.
Proof. induction 1 as [m|m c x Hc _ (l & Hl)]; [by exists []|by exists (c :: l)]. Qed.

Lemma chain_cut m l1 c l2 x : chain m (l1 ++ c :: l2) x → chain c l2 x.
Proof. revert m. induction l1 as [|y l1 IH]; intros m; simpl; [by intros [_ ?]|intros [_ ?]; by eapply IH]. Qed.

(** With one module for each file a path can be cut until it meets no file twice. *)
Lemma chain_simple (Hinj : ∀ a b, file_of a = file_of b → a = b) l : ∀ ps m x,
  nm m = false → file_of m ∉ ps → (∀ y, y ∈ l → file_of y ∉ ps) → chain m l x → simple_path ps m (file_of x).
Proof.
  induction l as [l IH] using (induction_ltof1 _ (@length nat)). unfold ltof in IH. intros ps m x Hm Hps Hl Hc.
  destruct (decide (m ∈ l)) as [Hin|Hnin].
  - apply list_elem_of_split in Hin as (l1 & l2 & ->). apply chain_cut in Hc.
    apply (IH l2); [rewrite length_app; simpl; lia|done|done| |done]. intros y Hy. apply Hl, elem_of_app. right. by right.
  - destruct l as [|c l]; simpl in Hc; [subst x; by apply path_here|]. destruct Hc as [[Hcm Hcn] Hc].
    apply (path_step ps m c); [done..|]. apply (IH l); [simpl; lia|done| | |done].
    + rewrite elem_of_app, list_elem_of_singleton. intros [Hi|Hi]; [by apply (Hl c); [left|]|]. apply Hinj in Hi. apply Hnin. rewrite Hi. left.
    + intros y Hy. rewrite elem_of_app, list_elem_of_singleton. intros [Hi|Hi]; [by apply (Hl y); [right|]|].
      apply Hinj in Hi. apply Hnin. rewrite <- Hi. by right.
Qed.

Lemma simple_path_complete (Hinj : ∀ a b, file_of a = file_of b → a = b) m x :
  nm m = false → rtc requires m x → simple_path [] m (file_of x).
Proof.
  intros Hm (l & Hl)%rtc_chain. apply (chain_simple Hinj l); [done|apply not_elem_of_nil|intros y _; apply not_elem_of_nil|done].
Qed.

(** ** The modules of one service *)

Lemma passed_project service parents m d : nm m = false → passed mods [] service parents m d = circular parents (file_of m).
Proof. intros Hm. unfold passed, skipped. rewrite Hm. destruct service, parents; simpl; rewrite ?orb_false_r; done. Qed.

Lemma passed_package s parents m d : nm m = true → passed mods [] (Some s) parents m d = true.
Proof. intros Hm. unfold passed, skipped. by rewrite Hm. Qed.

Lemma not_circular parents f : circular parents f = false → f ∉ default [] parents.
Proof. destruct parents; simpl; [by rewrite mem_false|intros _; apply not_elem_of_nil]. Qed.

(** The walk of a service notes it at the files on simple paths and changes no other service. *)
Record noted (s : svc) (P : string → Prop) (d d' : state) : Prop := {
  no_services f n : n ∈ services_of f d' ↔ n ∈ services_of f d ∨ n = fullName s ∧ P f;
  no_cache : cache d' = cache d
}.

Lemma noted_entered service parents m d s : nm m = false →
  (match service with Some s => Some s | None => service_of m end) = Some s →
  noted s (λ f, f = file_of m) d (entered mods broker_services service parents m d).
Proof.
  intros Hm Hs. constructor; [|by rewrite entered_cache, Hm].
  intros f n. rewrite entered_services, Hs. naive_solver.
Qed.

Lemma noted_trans s (P Q : string → Prop) d1 d2 d3 : noted s P d1 d2 → noted s Q d2 d3 → noted s (λ f, P f ∨ Q f) d1 d3.
Proof. intros [H1 C1] [H2 C2]. constructor; [|congruence]. intros f n. rewrite H2, H1. naive_solver. Qed.

Lemma noted_iff s (P Q : string → Prop) d d' : (∀ f, P f ↔ Q f) → noted s P d d' → noted s Q d d'.
Proof. intros Hpq [H1 C1]. constructor; [|done]. intros f n. rewrite H1, Hpq. done. Qed.

Lemma noted_each (f : nat → option (list string) * state → option (option (list string) * state)) s (P : nat → string → Prop) ps cs d p' d' :
  (∀ m d p' d', f m (ps, d) = Some (p', d') → p' = ps ∧ noted s (P m) d d') →
  each f cs (ps, d) = Some (p', d') → p' = ps ∧ noted s (λ g, ∃ c, c ∈ cs ∧ P c g) d d'.
Proof.
  intros Hf. revert d. induction cs as [|c cs IH]; intros d; simpl.
  - intros [= <- <-]. split; [done|]. constructor; [|done]. intros g n. split; [by left|]. intros [?|(_ & ? & ?%elem_of_nil & _)]; done.
  - destruct (f c (ps, d)) as [[p1 d1]|] eqn:E; simpl; [|done]. destruct (Hf _ _ _ _ E) as [-> H1]. intros Hr.
    destruct (IH _ Hr) as [-> H2]. split; [done|]. eapply noted_iff, noted_trans; [|exact H1|exact H2].
    intros g. setoid_rewrite elem_of_cons. naive_solver.
Qed.

Lemma simple_path_inv ps m f : nm m = false → file_of m ∉ ps →
  simple_path ps m f ↔ f = file_of m ∨ ∃ c, c ∈ children (mods m) ∧ simple_path (ps ++ [file_of m]) c f.
Proof.
  intros Hm Hps. split; [destruct 1; eauto|]. intros [->|(c & Hc & Hp)]; [by apply path_here|by apply (path_step ps m c)].
Qed.

Lemma simple_path_not ps m f : nm m = true ∨ file_of m ∈ ps → ¬ simple_path ps m f.
Proof. intros Hb Hp. destruct Hp, Hb; congruence. Qed.

Lemma noted_nothing s (P : string → Prop) d : (∀ f, ¬ P f) → noted s P d d.
Proof. intros HP. constructor; [|done]. intros f n. split; [by left|]. intros [?|[_ ?]]; [done|naive_solver]. Qed.

Lemma service_walk fuel s m parents d p' d' : process fuel (Some s) m (parents, d) = Some (p', d') →
  p' = parents ∧ noted s (simple_path (default [] parents) m) d d'.
Proof.
  revert m parents d p' d'. induction fuel as [|fuel IH]; intros m parents d p' d' Hr; [done|].
  apply process_inv in Hr as [(Hp & -> & ->)|(Hp & -> & q & Hr)].
  - split; [done|]. apply noted_nothing. intros f. apply simple_path_not.
    destruct (nm m) eqn:Hm; [by left|right]. rewrite passed_project in Hp by done. destruct parents; [|done]. by apply mem_spec.
  - destruct (nm m) eqn:Hm; [by rewrite passed_package in Hp|]. rewrite passed_project in Hp by done.
    split; [done|]. apply (noted_each _ s (simple_path (default [] parents ++ [file_of m]))) in Hr as [_ Hr].
    + eapply noted_iff, noted_trans; [|exact (noted_entered (Some s) parents m d s Hm eq_refl)|exact Hr].
      intros f. rewrite simple_path_inv; [done|done|by apply not_circular].
    + intros c d1 p1 d2 Hc. by apply IH in Hc.
Qed.

(** The same from a module that is the service's own. *)
Lemma own_walk fuel s m parents d p' d' : service_of m = Some s → nm m = false → process fuel None m (parents, d) = Some (p', d') →
  p' = parents ∧ noted s (simple_path (default [] parents) m) d d'.
Proof.
  intros Hs Hm Hr. apply (service_walk fuel). destruct fuel as [|fuel]; [done|]. cbn [processModule] in *.
  unfold skipped in *. rewrite Hm, Hs in *. by destruct parents.
Qed.

(** ** The walk from the main module *)

Notation config m := (isMoleculerConfig (filename (mods m))).

(** A module that is no file of a service leads to those it requires. *)
Definition leads (m c : nat) : Prop := service_of m = None ∧ c ∈ children (mods m).
(** The same if it is no configuration either *)
Definition loads (m c : nat) : Prop := service_of m = None ∧ config m = false ∧ c ∈ children (mods m).

(** What the walk leaves of the modules it meets *)
Inductive handled (d : state) : nat → Prop :=
| handled_package m : nm m = true → file_of m ∈ cache d → handled d m
| handled_service m s : nm m = false → service_of m = Some s →
    (∀ f, simple_path [] m f → fullName s ∈ services_of f d) → handled d m
| handled_config m : nm m = false → service_of m = None → config m = true → restart_of (file_of m) d = true → handled d m
| handled_file m : nm m = false → service_of m = None → config m = false →
    (∀ c, c ∈ children (mods m) → handled d c) → handled d m.

Lemma handled_grows d d' m : grows d d' → handled d m → handled d' m.
Proof.
  intros [Hrs Hs Hc]. induction 1 as [m Hm Hin|m s Hm Hsv Hp|m Hm Hsv Hcf Hrf|m Hm Hsv Hcf _ IH].
  - apply handled_package; auto.
  - eapply handled_service; eauto.
  - apply handled_config; auto.
  - by apply handled_file.
Qed.

(** The packages that the walk has entered lead to modules that are handled. *)
Definition closed (d d' : state) : Prop :=
  ∀ x c, nm x = true → file_of x ∉ cache d → file_of x ∈ cache d' → loads x c → handled d' c.

Lemma closed_trans d1 d2 d3 : grows d2 d3 → closed d1 d2 → closed d2 d3 → closed d1 d3.
Proof.
  intros Hg H12 H23 x c Hx H1 H3 Hl. destruct (decide (file_of x ∈ cache d2)) as [H2|H2].
  - eapply handled_grows; [exact Hg|by apply (H12 x)].
  - by apply (H23 x).
Qed.

Lemma closed_same d d' : cache d' = cache d → closed d d'.
Proof. intros E x c _ H1 H2. by rewrite E in H2. Qed.

(** Below a configuration no package is entered. *)
Lemma config_walk fuel m ps d p' d' : process fuel None m (Some ps, d) = Some (p', d') → is_Some p' ∧ cache d' = cache d.
Proof.
  revert m ps d p' d'. induction fuel as [|fuel IH]; intros m ps d p' d' Hr; [done|].
  assert (∀ p d, is_Some p → ∀ q d', each (process fuel None) (children (mods m)) (p, d) = Some (q, d') → is_Some q ∧ cache d' = cache d) as Heach.
  { intros p d1 Hp q d2 He. apply (each_invariant (λ a, is_Some a.1 ∧ cache a.2 = cache d1)) in He; [done| |done].
    intros c [p1 d3] [p2 d4] _ [[ps1 Hps] Hc] Hpr. simpl in *. subst p1. apply IH in Hpr as [? ->]. done. }
  destruct (nm m) eqn:Hm.
  { apply process_inv in Hr as [(_ & -> & ->)|(Hp & _)]; [done|]. unfold passed, skipped in Hp. by rewrite Hm in Hp. }
  destruct (service_of m) as [s|] eqn:Hs.
  { apply (own_walk (S fuel) s) in Hr as [-> [_ Hc]]; [done|done|done]. }
  apply process_inv in Hr as [(_ & -> & ->)|(_ & Hr)]; [done|]. rewrite Hs in Hr.
  assert (cache (entered mods broker_services None (Some ps) m d) = cache d) as Hc by (by rewrite entered_cache, Hm).
  destruct (config m).
  - destruct Hr as (-> & q & Hr). split; [done|]. apply Heach in Hr as [_ Hr]; [congruence|done].
  - destruct Hr as (p0 & Hp0 & Hr). apply Heach in Hr as [? Hr]; [split; [done|congruence]|]. by apply Hp0.
Qed.

Context (Hinj : ∀ a b, file_of a = file_of b → a = b).

(** What the walk of a module does when it starts without parents *)
Definition walks (fuel : nat) (m : nat) : Prop :=
  ∀ d p' d', process fuel None m (None, d) = Some (p', d') → p' = None ∧ handled d' m ∧ closed d d'.

Lemma each_grows fuel service cs a r : each (process fuel service) cs a = Some r → grows a.2 r.2.
Proof.
  apply (each_invariant (λ r, grows a.2 r.2)); [|done].
  intros c a1 a2 _ Ha Hp. etransitivity; [exact Ha|by eapply process_grows].
Qed.

Lemma each_config fuel cs p d q d' : is_Some p → each (process fuel None) cs (p, d) = Some (q, d') → is_Some q ∧ cache d' = cache d.
Proof.
  intros Hp He. apply (each_invariant (λ a, is_Some a.1 ∧ cache a.2 = cache d)) in He; [done| |done].
  intros c [p1 d1] [p2 d2] _ [[ps Hps] Hc] Hpr. simpl in *. subst p1. apply config_walk in Hpr as [? ->]. done.
Qed.

Lemma each_walks fuel cs d p' d' : (∀ c, walks fuel c) → each (process fuel None) cs (None, d) = Some (p', d') →
  p' = None ∧ (∀ c, c ∈ cs → handled d' c) ∧ closed d d'.
Proof.
  intros Hw. revert d. induction cs as [|c cs IH]; intros d; simpl.
  - intros [= <- <-]. split_and!; [done|by intros c ?%elem_of_nil|by apply closed_same].
  - destruct (process fuel None c (None, d)) as [[p1 d1]|] eqn:E; simpl; [|done]. apply Hw in E as (-> & Hc & H1). intros Hr.
    pose proof (each_grows _ _ _ _ _ Hr) as Hg. destruct (IH _ Hr) as (-> & Hcs & H2). split_and!; [done| |by eapply closed_trans].
    intros c' [->|?]%elem_of_cons; [by eapply handled_grows|by apply Hcs].
Qed.

(** The modules below one that is no service's *)
Lemma below_walks fuel m d p' d' : (∀ c, walks fuel c) →
  (if config m then p' = None ∧ ∃ q, each (process fuel None) (children (mods m)) (Some [], d) = Some (q, d')
   else ∃ p0, (is_Some p0 ↔ is_Some (@None (list string))) ∧ each (process fuel None) (children (mods m)) (p0, d) = Some (p', d')) →
  p' = None ∧ grows d d' ∧ closed d d' ∧ ∀ c, loads m c → handled d' c.
Proof.
  intros Hw. destruct (config m) eqn:Hcf.
  - intros (-> & q & Hr). pose proof (each_grows _ _ _ _ _ Hr) as Hg. apply each_config in Hr as [_ Hc]; [|done].
    split_and!; [done|done|by apply closed_same|]. intros c (_ & ? & _). congruence.
  - intros (p0 & Hp0 & Hr). assert (p0 = None) as -> by (destruct p0; [|done]; by destruct (proj1 Hp0)).
    pose proof (each_grows _ _ _ _ _ Hr) as Hg. apply each_walks in Hr as (-> & Hcs & Hcl); [|done].
    split_and!; [done..|]. intros c (_ & _ & ?). by apply Hcs.
Qed.

(** A package that was entered before *)
Lemma package_passed m d : nm m = true → passed mods [] None None m d = true → handled d m ∧ closed d d.
Proof.
  unfold passed. simpl. intros Hm Hp. rewrite Hm in Hp. split; [apply handled_package; [done|]; by apply mem_spec|by apply closed_same].
Qed.

(** A package that is entered now *)
Lemma package_closed m d d1 d' : nm m = true → cache d1 = file_of m :: cache d → grows d1 d' → closed d1 d' →
  (∀ c, loads m c → handled d' c) → handled d' m ∧ closed d d'.
Proof.
  intros Hm Hc1 Hg Hcl Hch. split; [apply handled_package; [done|]; apply Hg; rewrite Hc1; left|].
  intros x c Hx H1 H2 Hl. destruct (decide (file_of x ∈ cache d1)) as [Hx1|Hx1]; [|by apply (Hcl x)].
  rewrite Hc1 in Hx1. apply elem_of_cons in Hx1 as [E|?]; [|done]. apply Hinj in E as ->. by apply Hch.
Qed.

Lemma main_walk fuel m : walks fuel m.
Proof.
  revert m. induction fuel as [|fuel IH]; intros m d p' d' Hr; [done|].
  destruct (nm m) eqn:Hm.
  - apply process_inv in Hr as [(Hp & -> & ->)|(Hp & Hr)]; [split; [done|by apply package_passed]|].
    set (d1 := entered mods broker_services None None m d) in Hr.
    assert (cache d1 = file_of m :: cache d) as Hc1 by (unfold d1; by rewrite entered_cache, Hm).
    destruct (service_of m) as [s|] eqn:Hs; simpl in Hr; [destruct Hr as (-> & q & Hr)|].
    + split; [done|]. pose proof (each_grows _ _ _ _ _ Hr) as Hg.
      apply (noted_each _ s (simple_path ([] ++ [file_of m]))) in Hr as [_ [_ Hc]]; [|by intros ???? ?%service_walk].
      apply (package_closed m d d1); [done..|by apply closed_same|]. intros c [? _]. congruence.
    + apply below_walks in Hr as (-> & Hg & Hcl & Hch); [|done]. split; [done|]. by apply (package_closed m d d1).
  - destruct (service_of m) as [s|] eqn:Hs.
    { apply (own_walk (S fuel) s) in Hr as [-> [Hn Hc]]; [|done..]. split_and!; [done| |by apply closed_same].
      apply (handled_service _ m s); [done..|]. intros f Hf. apply Hn. by right. }
    apply process_inv in Hr as [(Hp & _)|(_ & Hr)]; [by rewrite passed_project in Hp|]. rewrite Hs in Hr.
    apply below_walks in Hr as (-> & Hg & Hcl & Hch); [|done]. split_and!; [done| |].
    + destruct (config m) eqn:Hcf.
      { apply handled_config; [done..|]. apply Hg, entered_restart. right. rewrite Hs. auto. } apply handled_file; [done..|]. intros c Hc. by apply Hch.
    + intros x c Hx H1 H2 Hl. apply (Hcl x); [done| |done|done]. by rewrite entered_cache, Hm.
Qed.

(** Every module that is loaded through modules of no service and no configuration is handled. *)
Lemma loaded_handled d p' d' fuel main m : cache d = [] → process fuel None main (None, d) = Some (p', d') →
  rtc loads main m → handled d' m.
Proof.
  intros Hd Hr Hm. destruct (main_walk fuel main _ _ _ Hr) as (_ & Hmain & Hcl). clear Hr.
  induction Hm as [m|m c x Hl Hx IH]; [done|]. apply IH. destruct Hl as (Hs & Hcf & Hc).
  destruct Hmain as [m Hn Hin|m s Hn Hs' _|m Hn Hs' Hcf' _|m Hn Hs' Hcf' Hch]; [|congruence..|by apply Hch].
  apply (Hcl m); [done|rewrite Hd; apply not_elem_of_nil|done|done].
Qed.

End paths.

(** ** Termination *)

Section ends.
Context (mods : nat → module_) (broker_services : list svc) (hotReloadModules : list string).

Notation file_of m := (filename (mods m)).
Notation nm m := (isNodeModule (filename (mods m))).
Notation service_of m := (service_at broker_services (filename (mods m))).
Notation process := (processModule mods broker_services hotReloadModules).

Lemma process_intro fuel service m parents d :
  passed mods hotReloadModules service parents m d = true ∨
  (∃ q, each (process fuel (match service with Some s => Some s | None => service_of m end)) (children (mods m))
     (match (match service with Some s => Some s | None => service_of m end) with
      | Some s => Some (default [] parents ++ [file_of m])
      | None => if isMoleculerConfig (file_of m) then Some [] else (λ ps, ps ++ [file_of m]) <$> parents
      end, entered mods broker_services service parents m d) = Some q) →
  ∃ r, process (S fuel) service m (parents, d) = Some r.
Proof.
  unfold passed, entered. cbn [processModule]. destruct (skipped _ _ _ _); [eauto|]. destruct (circular _ _); [eauto|]. cbn [orb].
  destruct (nm m && mem (file_of m) (cache d)); [eauto|]. intros [?|([q d'] & Hq)]; [done|].
  destruct (children (mods m)) as [|c cs]; [by destruct (match service with Some s => _ | None => _ end); eauto|].
  destruct (match service with Some s => Some s | None => service_of m end) as [s|].
  - rewrite Hq. simpl. eauto.
  - destruct (isMoleculerConfig _); rewrite Hq; simpl; eauto.
Qed.

Lemma each_ends service cs a (I : option (list string) * state → Prop) :
  (∀ c a, c ∈ cs → I a → ∃ n r, process n service c a = Some r ∧ I r) → I a → ∃ n r, each (process n service) cs a = Some r.
Proof.
  revert a. induction cs as [|c cs IH]; intros a Hc Ha; [by exists 0, a|].
  destruct (Hc c a) as (n1 & r1 & H1 & I1); [by left|done|]. destruct (IH r1) as (n2 & r2 & H2); [intros; apply Hc; [by right|done]|done|].
  exists (n1 `max` n2), r2. simpl. rewrite (process_mono mods broker_services hotReloadModules n1 (n1 `max` n2) service c a r1 ltac:(lia) H1). simpl.
  eapply each_mono; [|exact H2]. intros m a' r Hr. eapply process_mono; [|exact Hr]. lia.
Qed.

(** How many files are not in a list *)
Context (files : list string) (Hfiles : ∀ m c, file_of m ∈ files → c ∈ children (mods m) → file_of c ∈ files).
Definition missing (l : list string) : nat := length (Arr.filter (λ f, negb (mem f l)) files).

Lemma missing_le l k : (∀ f, f ∈ l → f ∈ k) → missing k ≤ missing l.
Proof.
  intros Hs. unfold missing. clear Hfiles. induction files as [|f fs IH]; simpl; [done|].
  destruct (mem f l) eqn:Hl, (mem f k) eqn:Hk; simpl; try lia; [].
  apply mem_spec, Hs, mem_spec in Hl. congruence.
Qed.

Lemma missing_lt l f : f ∈ files → f ∉ l → missing (f :: l) < missing l.
Proof.
  assert (∀ x, mem x (f :: l) = String.eqb x f || mem x l) as Hc by done.
  intros Hf Hl. unfold missing. clear Hfiles. induction files as [|g fs IH]; [by apply elem_of_nil in Hf|].
  assert (length (Arr.filter (λ x, negb (mem x (f :: l))) fs) ≤ length (Arr.filter (λ x, negb (mem x l)) fs)) as Hfs.
  { clear IH Hf. induction fs as [|x fs IH]; cbn [Arr.filter length]; [done|]. rewrite Hc.
    destruct (mem x l), (String.eqb x f); cbn [orb negb length]; lia. }
  cbn [Arr.filter]. rewrite Hc. apply elem_of_cons in Hf as [<-|Hf].
  - apply mem_false in Hl as ->. rewrite String.eqb_refl. cbn [orb negb length]. lia.
  - specialize (IH Hf). destruct (mem g l), (String.eqb g f); cbn [orb negb length]; lia.
Qed.

Lemma service_parents fuel s m parents d p' d' : process fuel (Some s) m (parents, d) = Some (p', d') → p' = parents.
Proof. destruct fuel as [|fuel]; [done|]. intros [(_ & ? & _)|(_ & ? & _)]%process_inv; done. Qed.

(** The walk of a service ends: a path meets no file twice. *)
Lemma service_ends s k : ∀ m parents d, file_of m ∈ files → missing (default [] parents) < k → ∃ n r, process n (Some s) m (parents, d) = Some r.
Proof.
  induction k as [|k IH]; intros m parents d Hm Hk; [lia|].
  destruct (passed mods hotReloadModules (Some s) parents m d) eqn:Hp; [exists 1; apply process_intro; by left|].
  destruct (each_ends (Some s) (children (mods m)) (Some (default [] parents ++ [file_of m]), entered mods broker_services (Some s) parents m d)
    (λ a, a.1 = Some (default [] parents ++ [file_of m]))) as (n & q & Hq); [|done|exists (S n); apply process_intro; right; by exists q].
  intros c [p d1] Hc Ha. simpl in Ha. subst p. destruct (IH c (Some (default [] parents ++ [file_of m])) d1) as (n & [p2 d2] & Hr); [by eapply Hfiles| |].
  - simpl. apply Nat.lt_le_trans with (missing (default [] parents)); [|lia]. eapply Nat.le_lt_trans; [|apply (missing_lt _ (file_of m)); [done|]].
    + apply missing_le. intros f. rewrite elem_of_cons, elem_of_app, list_elem_of_singleton. tauto.
    + unfold passed in Hp. apply orb_false_iff in Hp as [Hp _]. apply orb_false_iff in Hp as [_ Hp].
      destruct parents as [ps|]; simpl in *; [by apply mem_false|apply not_elem_of_nil].
  - exists n, (p2, d2). split; [done|]. simpl. by apply service_parents in Hr.
Qed.

(** Files that are loaded outside of services are ranked: they require each other in no circle. *)
Notation leads := (leads mods broker_services).
Context (main : nat) (rank : nat → nat)
  (Hrank : ∀ m c, rtc leads main m → nm m = false → service_of m = None → c ∈ children (mods m) → nm c = false → service_of c = None → rank c < rank m).

(** A module that is entered ends if the modules below do. *)
Lemma service_file_ends m parents d s : file_of m ∈ files → service_of m = Some s → ∃ n r, process n None m (parents, d) = Some r.
Proof.
  intros Hm Hs. destruct (each_ends (Some s) (children (mods m)) (Some (default [] parents ++ [file_of m]), entered mods broker_services None parents m d)
    (λ _, True)) as (n & q & Hq); [|done|].
  - intros c [p d2] Hc _. destruct (service_ends s (S (missing (default [] p))) c p d2) as (n & r & Hr); [by eapply Hfiles|lia|by exists n, r].
  - exists (S n). apply process_intro. right. exists q. rewrite Hs. exact Hq.
Qed.

Lemma file_ends u (P : nat → Prop) m parents d :
  (∀ c p d, P c → missing (cache d) < u → ∃ n r, process n None c (p, d) = Some r) →
  (∀ c, c ∈ children (mods m) → P c) → service_of m = None → missing (cache (entered mods broker_services None parents m d)) < u →
  ∃ n r, process n None m (parents, d) = Some r.
Proof.
  intros HP Hch Hs Hu. destruct (each_ends None (children (mods m))
    (if isMoleculerConfig (file_of m) then Some [] else (λ ps, ps ++ [file_of m]) <$> parents, entered mods broker_services None parents m d)
    (λ a, missing (cache a.2) < u)) as (n & q & Hq); [|done|exists (S n); apply process_intro; right; exists q; rewrite Hs; exact Hq].
  intros c [p d2] Hc Ha. destruct (HP c p d2 (Hch c Hc) Ha) as (n & r & Hr). exists n, r. split; [done|].
  eapply Nat.le_lt_trans; [|exact Ha]. apply missing_le. apply (process_grows _ _ _ _ _ _ _ _ Hr).
Qed.

Lemma main_ends u : ∀ k m parents d, rtc leads main m → file_of m ∈ files → missing (cache d) < u → (nm m = true ∨ service_of m ≠ None ∨ rank m < k) →
  ∃ n r, process n None m (parents, d) = Some r.
Proof.
  induction u as [|u IHu]; [lia|]. induction k as [k IHk] using lt_wf_ind. intros m parents d Hl Hf Hu Hm.
  destruct (passed mods hotReloadModules None parents m d) eqn:Hp; [exists 1; apply process_intro; by left|].
  destruct (service_of m) as [s|] eqn:Hs; [by eapply service_file_ends|].
  assert (∀ c, c ∈ children (mods m) → rtc leads main c ∧ file_of c ∈ files) as Hch by (intros c Hc; split; [by eapply rtc_r|by eapply Hfiles]).
  destruct (nm m) eqn:Hn.
  - apply (file_ends u (λ c, rtc leads main c ∧ file_of c ∈ files)); [|done|done|].
    + intros c p d2 [Hcl Hc] Hd. apply (IHu (S (rank c))); [done..|]. right. right. lia.
    + rewrite entered_cache, Hn. apply Nat.lt_le_trans with (missing (cache d)); [|lia]. apply missing_lt; [done|].
      unfold passed in Hp. apply orb_false_iff in Hp as [_ Hp]. rewrite Hn in Hp. by apply mem_false.
  - destruct Hm as [?|[?|Hm]]; [done|done|].
    apply (file_ends (S u) (λ c, (rtc leads main c ∧ file_of c ∈ files) ∧ (nm c = true ∨ service_of c ≠ None ∨ rank c < rank m))); [|intros c Hc|done|by rewrite entered_cache, Hn].
    + intros c p d2 [[Hcl Hcf] Hc] Hd. by apply (IHk (rank m)).
    + split; [by apply Hch|]. destruct (nm c) eqn:Hnc; [by left|right]. destruct (service_of c) as [s|] eqn:Hsc; [by left|right]. by apply Hrank.
Qed.

End ends.

(** ** Who is noted *)

Section sound.
Context (mods : nat → module_) (broker_services : list svc).

Notation file_of m := (filename (mods m)).
Notation nm m := (isNodeModule (filename (mods m))).
Notation service_of m := (service_at broker_services (filename (mods m))).
Notation process := (processModule mods broker_services []).
Notation loads := (loads mods broker_services).
Notation leads := (leads mods broker_services).
Notation requires := (requires mods).

(** Files of services are files of the project. *)
Context (Hproject : ∀ m s, service_of m = Some s → nm m = false).

Definition belongs (m : nat) (f n : string) : Prop :=
  ∃ y s x, rtc leads m y ∧ service_of y = Some s ∧ n = fullName s ∧ rtc requires y x ∧ file_of x = f.

Lemma walk_sound fuel m ps d p' d' : process fuel None m (ps, d) = Some (p', d') →
  ∀ f n, n ∈ services_of f d' → n ∈ services_of f d ∨ belongs m f n.
Proof.
  revert m ps d p' d'. induction fuel as [|fuel IH]; intros m ps d p' d' Hr; [done|].
  destruct (service_of m) as [s|] eqn:Hs.
  { destruct (own_walk mods broker_services (S fuel) s m ps d p' d' Hs (Hproject m s Hs) Hr) as [_ [Hn _]]. intros f n Hin.
    apply Hn in Hin as [?|[En Hp]]; [by left|right]. subst n. apply simple_path_sound in Hp as (_ & x & Hx & Hf). by exists m, s, x. }
  apply process_inv in Hr as [(_ & _ & ->)|(_ & Hr)]; [by left|]. rewrite Hs in Hr.
  assert (∃ p0 q, each (process fuel None) (children (mods m)) (p0, entered mods broker_services None ps m d) = Some (q, d')) as (p0 & q & He).
  { destruct (isMoleculerConfig _); [destruct Hr as (_ & q & ?)|destruct Hr as (? & _ & ?)]; eauto. }
  clear Hr. set (P := λ a : option (list string) * state, ∀ f n, n ∈ services_of f a.2 → n ∈ services_of f d ∨ belongs m f n).
  apply (each_invariant P (process fuel None) (children (mods m)) (p0, entered mods broker_services None ps m d) (q, d')); [| |exact He].
  - intros c [p1 d1] [p2 d2] Hc Ha Hp f n Hn. unfold P in *. simpl in *. destruct (IH _ _ _ _ _ Hp f n Hn) as [?|(y & s & x & Hy & ?)]; [by apply Ha|].
    right. exists y, s, x. split; [|done]. by apply rtc_l with c.
  - intros f n Hn. left. simpl in Hn. apply entered_services in Hn as [?|(s & Hs' & _)]; [done|]. simpl in Hs'. congruence.
Qed.

(** Configurations load no services. *)
Context (Hplain : ∀ c y, service_of c = None → isMoleculerConfig (file_of c) = true → rtc leads c y → service_of y = None).

Lemma leads_loads m y s : rtc leads m y → service_of y = Some s → rtc loads m y.
Proof.
  intros Hy Hs. induction Hy as [m|m c y [Hm Hc] Hy IH]; [done|].
  destruct (isMoleculerConfig (file_of m)) eqn:Hcf.
  - rewrite (Hplain m y) in Hs; [done|done|done|]. by apply rtc_l with c.
  - apply rtc_l with c; [done|by apply IH].
Qed.

(** One module is loaded for each file. *)
Context (Hinj : ∀ a b, file_of a = file_of b → a = b).

(** A loaded service needs a file. *)
Definition needs (main : nat) (s : svc) (f : string) : Prop :=
  ∃ y x, rtc loads main y ∧ service_of y = Some s ∧ rtc requires y x ∧ file_of x = f.

Lemma walk_exact fuel main p' d' f n : process fuel None main (None, State [] []) = Some (p', d') →
  n ∈ services_of f d' ↔ ∃ s, fullName s = n ∧ needs main s f.
Proof.
  intros Hr. split.
  - intros Hn. destruct (walk_sound _ _ _ _ _ _ Hr f n Hn) as [Hnil|(y & s & x & Hy & Hs & -> & Hx)]; [by apply elem_of_nil in Hnil|].
    exists s. split; [done|]. exists y, x. split; [by eapply leads_loads|done].
  - intros (s & <- & y & x & Hy & Hs & Hx & Hf). pose proof (loaded_handled mods broker_services Hinj (State [] []) p' d' fuel main y eq_refl Hr Hy) as Hh.
    pose proof (Hproject _ _ Hs) as Hny.
    destruct Hh as [y Hn _|y s' _ Hs' Hp|y _ Hs' _ _|y _ Hs' _ _]; [congruence| |congruence..].
    assert (s' = s) as -> by congruence. apply Hp. rewrite <- Hf. by apply simple_path_complete.
Qed.

(** The files that restart the broker: configurations, and what they load outside of services *)
Definition under (main m : nat) : Prop :=
  ∃ c, rtc leads main c ∧ service_of c = None ∧ isMoleculerConfig (file_of c) = true ∧ rtc leads c m.
Definition configured (main : nat) (f : string) : Prop := ∃ y, under main y ∧ service_of y = None ∧ file_of y = f.

Lemma service_restart fuel s m a r f : process fuel (Some s) m a = Some r → restart_of f r.2 = true → restart_of f a.2 = true.
Proof.
  revert m a r. induction fuel as [|fuel IH]; intros m [ps d] [p' d'] Hr; [done|].
  apply process_inv in Hr as [(_ & _ & ->)|(_ & _ & q & Hr)]; [done|]. simpl. intros Hf.
  assert (restart_of f (entered mods broker_services (Some s) ps m d) = true) as [?|(? & _)]%entered_restart; [|done..].
  refine (each_invariant (λ a, restart_of f a.2 = true → restart_of f (entered mods broker_services (Some s) ps m d) = true) _ _ _ _ _ _ Hr Hf); [|done].
  intros c a a' _ Ha Hp Hf'. by eapply Ha, IH.
Qed.

Lemma walk_restarts main fuel m ps d p' d' : rtc leads main m → (is_Some ps → under main m) → process fuel None m (ps, d) = Some (p', d') →
  (is_Some p' → is_Some ps) ∧ ∀ f, restart_of f d' = true → restart_of f d = true ∨ configured main f.
Proof.
  revert m ps d p' d'. induction fuel as [|fuel IH]; intros m ps d p' d' Hm Hps Hr; [done|].
  apply process_inv in Hr as [(_ & -> & ->)|(_ & Hr)]; [by auto|].
  assert (∀ f, restart_of f (entered mods broker_services None ps m d) = true → restart_of f d = true ∨ configured main f) as He.
  { intros f [?|(Hs & -> & Hc)]%entered_restart; [by left|right]. exists m. split_and!; [|done|done].
    destruct Hc as [Hc|?]; [by exists m|by apply Hps]. }
  destruct (service_of m) as [s|] eqn:Hs.
  { destruct Hr as (-> & q & Hr). split; [done|]. intros f Hf. apply He. 
    refine (each_invariant (λ a, restart_of f a.2 = true → restart_of f (entered mods broker_services None ps m d) = true) _ _ _ _ _ _ Hr Hf); [|done].
    intros c a a' _ Ha Hp Hf'. by eapply Ha, service_restart. }
  assert (∀ p0 q, (is_Some p0 → under main m) → each (process fuel None) (children (mods m)) (p0, entered mods broker_services None ps m d) = Some (q, d') →
    (is_Some q → is_Some p0) ∧ ∀ f, restart_of f d' = true → restart_of f d = true ∨ configured main f) as Hch.
  { intros p0 q Hp0 Hq. apply (each_invariant (λ a, (is_Some a.1 → is_Some p0) ∧ ∀ f, restart_of f a.2 = true → restart_of f d = true ∨ configured main f)) in Hq;
      [done| |done]. intros c [p1 d1] [p2 d2] Hc [H1 H2] Hp. apply IH in Hp as [H3 H4]; simpl in *; [|by eapply rtc_r|].
    - split; [auto|]. intros f Hf. destruct (H4 f Hf); auto.
    - intros Hp1. destruct Hp0 as (k & ? & ? & ? & ?); [auto|]. exists k. split_and!; [done..|]. by eapply rtc_r. }
  destruct (isMoleculerConfig (file_of m)) eqn:Hc.
  - destruct Hr as (-> & q & Hr). apply Hch in Hr as [_ ?]; [done|]. intros _. by exists m.
  - destruct Hr as (p0 & Hp0 & Hr). apply Hch in Hr as [H1 ?]; [|by rewrite Hp0]. split; [|done]. intros ?. by apply Hp0, H1.
Qed.

Lemma loaded_config fuel main p' d' c : process fuel None main (None, State [] []) = Some (p', d') → rtc loads main c →
  nm c = false → service_of c = None → isMoleculerConfig (file_of c) = true → restart_of (file_of c) d' = true.
Proof.
  intros Hr Hc Hn Hs Hcf. pose proof (loaded_handled mods broker_services Hinj (State [] []) p' d' fuel main c eq_refl Hr Hc) as Hh.
  destruct Hh as [c Hn' _|c s' _ Hs' _|c _ _ _ Hr'|c _ _ Hcf' _]; congruence.
Qed.

(** No file makes all services reload, except for extra files. *)
Definition no_all (d : state) : Prop := ∀ f i, OMap.get f (projectFiles d) = Some i → allServices i = false.

Lemma no_all_upd g h d : (∀ i, allServices (h i) = allServices i) → no_all d → no_all (upd_item g h d).
Proof.
  intros Hh Hd f i. unfold upd_item. simpl. destruct (decide (g = f)) as [->|Hne].
  - rewrite OMap.get_set_eq. intros [= <-]. rewrite Hh. destruct (OMap.get f (projectFiles d)) eqn:E; [by eapply Hd|done].
  - rewrite OMap.get_set_ne by done. apply Hd.
Qed.

Lemma no_all_walk fuel service m a r : process fuel service m a = Some r → no_all a.2 → no_all r.2.
Proof.
  revert service m a r. induction fuel as [|fuel IH]; intros service m [ps d] [p' d'] Hr Hd; [done|].
  assert (no_all (entered mods broker_services service ps m d)) as He.
  { unfold entered. assert (no_all (if nm m then State (projectFiles d) (file_of m :: cache d) else d)) as Hd1 by by destruct (nm m).
    destruct (match service with Some s => _ | None => _ end); simpl; [by apply no_all_upd|].
    destruct (isMoleculerConfig _); [by apply no_all_upd|]. destruct ps; [by apply no_all_upd|done]. }
  assert (∀ service' cs p d1 q d2, no_all d1 → each (process fuel service') cs (p, d1) = Some (q, d2) → no_all d2) as Heach.
  { intros service' cs p d1 q d2 H1 Hq. apply (each_invariant (λ a, no_all a.2)) in Hq; [done| |done]. intros c a a' _ Ha Hp. by eapply IH. }
  apply process_inv in Hr as [(_ & _ & ->)|(_ & Hr)]; [done|].
  destruct (match service with Some s => _ | None => _ end); [destruct Hr as (_ & q & Hr)|destruct (isMoleculerConfig _); [destruct Hr as (_ & q & Hr)|destruct Hr as (p0 & _ & Hr)]];
    by apply Heach in Hr.
Qed.

End sound.

(** ** What a change reloads *)

Lemma get_filter_keys {V} (p : string → bool) (m : OMap.t V) f :
  OMap.get f (Arr.filter (λ '(k, _), p k) m) = if p f then OMap.get f m else None.
Proof.
  induction m as [|[k v] m IH]; simpl; [by destruct (p f)|].
  destruct (String.eqb_spec f k) as [->|Hne].
  - destruct (p k) eqn:E; simpl; [by rewrite String.eqb_refl|done].
  - destruct (p k); simpl; [|done]. by apply String.eqb_neq in Hne as ->.
Qed.

(** The items that extra files add *)
Definition names_of (e : restart) : list string := match e with OneService n => [n] | SomeServices ns => ns | _ => [] end.

Definition item_of (f : string) (d : state) : watch_item := default new_item (OMap.get f (projectFiles d)).

Lemma extra_item extra d f :
  (brokerRestart (item_of f (foldl extra_file d extra)) = true ↔ brokerRestart (item_of f d) = true ∨ (f, RestartTheBroker) ∈ extra) ∧
  (allServices (item_of f (foldl extra_file d extra)) = true ↔ allServices (item_of f d) = true ∨ (f, AllServices) ∈ extra) ∧
  ∀ n, n ∈ services (item_of f (foldl extra_file d extra)) ↔ n ∈ services (item_of f d) ∨ ∃ e, (f, e) ∈ extra ∧ n ∈ names_of e.
Proof.
  revert d. induction extra as [|[g e] extra IH]; intros d; simpl.
  - setoid_rewrite elem_of_nil. split_and!; naive_solver.
  - destruct (IH (extra_file d (g, e))) as (H1 & H2 & H3). setoid_rewrite elem_of_cons. rewrite H1, H2. setoid_rewrite H3. clear IH H1 H2 H3.
    destruct (decide (g = f)) as [->|Hne].
    + assert (item_of f (extra_file d (f, e)) = match e with
        | RestartTheBroker => WatchItem (services (item_of f d)) (allServices (item_of f d)) true (others (item_of f d))
        | AllServices => WatchItem (services (item_of f d)) true (brokerRestart (item_of f d)) (others (item_of f d))
        | OneService name => WatchItem (services (item_of f d) ++ [name]) (allServices (item_of f d)) (brokerRestart (item_of f d)) (others (item_of f d))
        | SomeServices names => WatchItem (services (item_of f d) ++ names) (allServices (item_of f d)) (brokerRestart (item_of f d)) (others (item_of f d))
        | NoRestart => item_of f d
        end) as -> by (unfold item_of at 1, extra_file, upd_item; simpl; by rewrite OMap.get_set_eq).
      assert (∀ n, (∃ e0, ((f, e0) = (f, e) ∨ (f, e0) ∈ extra) ∧ n ∈ names_of e0) ↔ n ∈ names_of e ∨ ∃ e0, (f, e0) ∈ extra ∧ n ∈ names_of e0) as Hx
        by naive_solver.
      setoid_rewrite Hx. clear Hx. split_and!; [destruct e; naive_solver|destruct e; naive_solver|]. intros n.
      destruct e; simpl; rewrite ?elem_of_app, ?elem_of_nil, ?or_assoc; try done; naive_solver.
    + assert (item_of f (extra_file d (g, e)) = item_of f d) as -> by (unfold item_of, extra_file, upd_item; simpl; by rewrite OMap.get_set_ne).
      split_and!; naive_solver.
Qed.

Lemma add_entry_elem l x y : y ∈ add_entry l x ↔ y ∈ l ∨ y = x.
Proof. unfold add_entry. case_decide; [naive_solver|]. by rewrite elem_of_app, list_elem_of_singleton. Qed.

Lemma collected (p : svc → bool) bs l x :
  x ∈ foldl (λ l s, if p s then add_entry l (Loaded s) else l) l bs ↔ x ∈ l ∨ ∃ s, s ∈ bs ∧ p s = true ∧ x = Loaded s.
Proof.
  revert l. induction bs as [|s bs IH]; intros l; simpl; [split; [by left|intros [?|(? & ?%elem_of_nil & _)]; done]|].
  rewrite IH. setoid_rewrite elem_of_cons. destruct (p s) eqn:E; [rewrite add_entry_elem|]; naive_solver congruence.
Qed.

(** The services to be reloaded after a reaction *)
Definition reloaded (r : option (list string * reaction)) (needToReload : list entry) : list entry :=
  match r with Some (_, Reload l) => l | _ => needToReload end.

Lemma changed_spec bs hasRunner relPath files f l :
  let i := default new_item (OMap.get f files) in
  let r := changed bs hasRunner relPath files f l in
  ((∃ c, r = Some (c, RestartBroker)) ↔ brokerRestart i = true ∧ hasRunner = true) ∧
  ((¬ ∃ c, r = Some (c, RestartBroker)) → ∀ s, s ∈ bs →
    (Loaded s ∈ reloaded r l ↔ Loaded s ∈ l ∨ if allServices i then is_Some (file s) else fullName s ∈ services i)).
Proof.
  unfold changed. destruct (OMap.get f files) as [i|] eqn:E; simpl.
  2: { split; [naive_solver|]. intros _ s _. rewrite elem_of_nil. naive_solver. }
  destruct (brokerRestart i && hasRunner) eqn:Hb.
  { apply andb_true_iff in Hb as [-> ->]. split; [naive_solver|]. intros []. eauto. }
  split. { split; [|intros [E1 E2]; by rewrite E1, E2 in Hb]. intros [c Hc]. repeat case_match; simplify_eq. }
  intros _ s Hs. destruct (allServices i); simpl.
  { assert (∀ bs l, foldl (λ l s, match file s with Some _ => add_entry l (Loaded s) | None => l end) l bs =
      foldl (λ l s, if match file s with Some _ => true | None => false end then add_entry l (Loaded s) else l) l bs) as ->.
    { clear. intros bs. induction bs as [|s bs IH]; intros l; simpl; [done|]. rewrite IH. by destruct (file s). }
    rewrite (collected (λ s, match file s with Some _ => true | None => false end)). split.
    - intros [?|(s' & _ & Hf & [= ->])]; [by left|right]. destruct (file s'); [by eexists|done].
    - intros [?|[x Hx]]; [by left|right; exists s; by rewrite Hx]. }
  destruct (services i) as [|n ns] eqn:Hn; simpl; [rewrite elem_of_nil; naive_solver|].
  assert (Loaded s ∈ foldl (λ l s, if mem (fullName s) (n :: ns) then add_entry l (Loaded s) else l) l bs ↔ Loaded s ∈ l ∨ fullName s ∈ n :: ns) as Hc.
  { rewrite (collected (λ s, mem (fullName s) (n :: ns))). split.
    - intros [?|(s' & _ & Hm & [= ->])]; [by left|right; by apply mem_spec].
    - intros [?|Hm]; [by left|right; exists s; split_and!; [done|by apply mem_spec|done]]. }
  rewrite <- Hc. set (l' := foldl _ l bs). destruct l' as [|e l'']; simpl; [|done].
  rewrite list_elem_of_singleton, elem_of_nil. naive_solver.
Qed.

(** The walk ends when the files that are loaded outside of services require each other in no circle. *)
Theorem walk_ends mods broker_services hotReloadModules (files : list string) rank main :
  filename (mods main) ∈ files → (∀ m c, filename (mods m) ∈ files → c ∈ children (mods m) → filename (mods c) ∈ files) →
  (∀ m c, rtc (leads mods broker_services) main m → isNodeModule (filename (mods m)) = false → service_at broker_services (filename (mods m)) = None → c ∈ children (mods m) →
     isNodeModule (filename (mods c)) = false → service_at broker_services (filename (mods c)) = None → rank c < rank m) →
  ∃ fuel r, processModule mods broker_services hotReloadModules fuel None main (None, State [] []) = Some r.
Proof.
  intros Hmain Hfiles Hrank. eapply (main_ends _ _ _ files Hfiles main rank Hrank _ (S (rank main))); [done|done|apply Nat.lt_succ_diag_r|]. right. right. lia.
Qed.

Section exact.
Context (mods : nat → module_) (broker_services : list svc) (main : nat).

Notation file_of m := (filename (mods m)).
Notation nm m := (isNodeModule (filename (mods m))).
Notation service_of m := (service_at broker_services (filename (mods m))).
Notation loads := (loads mods broker_services).
Notation leads := (leads mods broker_services).

(** There are finitely many files, and those that are loaded outside of services require each
    other in no circle. *)
Definition no_circle : Prop := ∃ (files : list string) (rank : nat → nat),
  file_of main ∈ files ∧ (∀ m c, file_of m ∈ files → c ∈ children (mods m) → file_of c ∈ files) ∧
  ∀ m c, rtc leads main m → nm m = false → service_of m = None → c ∈ children (mods m) →
    nm c = false → service_of c = None → rank c < rank m.

(** What a file restarts by its place: below a configuration outside of services; for
    sure if it is a configuration that the program loads *)
Definition config_loaded (f : string) : Prop :=
  ∃ c, rtc loads main c ∧ nm c = false ∧ service_of c = None ∧ isMoleculerConfig (file_of c) = true ∧ file_of c = f.

(** The services that a file reloads: if it is extra, by what is said of it *)
Definition concerns (extraFiles : list (string * restart)) (f : string) (s : svc) : Prop :=
  ((f, AllServices) ∈ extraFiles ∧ is_Some (file s)) ∨
  ((f, AllServices) ∉ extraFiles ∧
    ((∃ s', fullName s' = fullName s ∧ needs mods broker_services main s' f) ∨ ∃ e, (f, e) ∈ extraFiles ∧ fullName s ∈ names_of e)).

(** C26. Without packages to be reloaded, and with modules of which each has a file of its own,
    service files that are files of the project, and configurations that load no services: the walk
    over the modules ends unless files outside of services require each other in a
    circle, and whenever it ends, a change of a watched file has this effect.  The broker is
    restarted, if there is a runner that can, for extra files of which the options say so and for
    configurations of the project that are loaded outside of services and other configurations, and
    for no other files than these and what configurations load; else exactly the
    services that load the file, directly or through other files of the project in
    whatever circles, and those that the options name for it are collected to be reloaded. *)
Theorem hot_reload_exact extraFiles exists_ hasRunner relPath :
  (∀ a b, file_of a = file_of b → a = b) →
  (∀ m s, service_of m = Some s → nm m = false) →
  (∀ c y, service_of c = None → isMoleculerConfig (file_of c) = true → rtc leads c y → service_of y = None) →
  (no_circle → ∃ fuel files, watchProjectFiles mods broker_services [] fuel main extraFiles exists_ = Some files) ∧
  ∀ fuel files f needToReload,
    watchProjectFiles mods broker_services [] fuel main extraFiles exists_ = Some files → exists_ f = true →
    let r := changed broker_services hasRunner relPath files f needToReload in
    let restarted := ∃ c, r = Some (c, RestartBroker) in
    (restarted → hasRunner = true ∧ ((f, RestartTheBroker) ∈ extraFiles ∨ configured mods broker_services main f)) ∧
    (hasRunner = true → (f, RestartTheBroker) ∈ extraFiles ∨ config_loaded f → restarted) ∧
    (¬ restarted → ∀ s, s ∈ broker_services →
      (Loaded s ∈ reloaded r needToReload ↔ Loaded s ∈ needToReload ∨ concerns extraFiles f s)).
Proof.
  intros Hinj Hproject Hplain. split.
  { intros (fs & rank & Hmain & Hfiles & Hrank). unfold watchProjectFiles.
    destruct (walk_ends mods broker_services [] fs rank main Hmain Hfiles Hrank) as (fuel & r & Hr). exists fuel. rewrite Hr. destruct r as [p d]. by eexists. }
  intros fuel files f needToReload Hw Hf. unfold watchProjectFiles in Hw.
  destruct (processModule _ _ _ _ _ _ _) as [[p d]|] eqn:Hr; simpl in Hw; [|done]. injection Hw as <-.
  destruct (changed_spec broker_services hasRunner relPath (Arr.filter (λ '(fName, _), exists_ fName) (projectFiles (foldl extra_file d extraFiles))) f needToReload)
    as [H1 H2]. rewrite get_filter_keys, Hf in H1, H2. fold (item_of f (foldl extra_file d extraFiles)) in H1, H2.
  destruct (extra_item extraFiles d f) as (E1 & E2 & E3).
  destruct (walk_restarts mods broker_services main fuel main None (State [] []) p d (rtc_refl _ main)) as [_ Hrs];
    [intros H; by apply is_Some_None in H|exact Hr|].
  set (r := changed _ _ _ _ _ _) in *. cbv zeta. split_and!.
  - intros [[?|?]%E1 ->]%H1; (split; [done|]); [right|by left]. by destruct (Hrs f).
  - intros -> Hx. apply H1. split; [|done]. apply E1. destruct Hx as [?|(c & Hc & Hn & Hs & Hcf & <-)]; [by right|left].
    by apply (loaded_config mods broker_services Hinj fuel main p d).
  - intros Hnr s Hs. rewrite (H2 Hnr s Hs). unfold concerns.
    rewrite <- (walk_exact mods broker_services Hproject Hplain Hinj fuel main p d f (fullName s) Hr). fold (item_of f d) in *.
    assert (allServices (item_of f d) ≠ true) as Hno.
    { unfold item_of. destruct (OMap.get f (projectFiles d)) as [i|] eqn:Ei; [|done]. simpl.
      assert (allServices i = false) as ->; [|done]. revert Ei. by apply (no_all_walk _ _ _ _ _ _ _ Hr). }
    unfold services_of. fold (item_of f d). destruct (decide ((f, AllServices) ∈ extraFiles)) as [Ha|Ha].
    + rewrite (proj2 E2) by auto. naive_solver.
    + destruct (allServices (item_of f (foldl extra_file d extraFiles))); [naive_solver|]. rewrite E3. naive_solver.
Qed.

End exact.

(** A file is reloaded once, however many entries name it. *)
Lemma reload_once l : NoDup (map entry_file (dedup l)) ∧ (∀ f, f ∈ map entry_file (dedup l) ↔ f ∈ map entry_file l) ∧ ∀ e, e ∈ dedup l → e ∈ l.
Proof.
  unfold dedup. induction l as [|e l (H1 & H2 & H3)] using rev_ind; [split_and!; [constructor|done|done]|]. rewrite foldl_snoc.
  set (acc := foldl _ [] l) in *. destruct (existsb (λ e', bool_decide (entry_file e' = entry_file e)) acc) eqn:Hex.
  - apply existsb_exists in Hex as (e' & He' & Heq). apply bool_decide_eq_true in Heq. apply list_elem_of_In in He'.
    split_and!; [done| |intros x Hx; apply elem_of_app; left; auto]. intros f. rewrite map_app, elem_of_app, <- H2. cbn [map]. rewrite list_elem_of_singleton.
    split; [by left|]. intros [?| ->]; [done|]. rewrite <- Heq. by apply list_elem_of_fmap_2.
  - split_and!.
    + rewrite map_app. apply list.NoDup_app. split_and!; [done| |apply NoDup_singleton].
      intros f (e' & -> & He')%list_elem_of_fmap Hf%list_elem_of_singleton. apply not_true_iff_false in Hex. apply Hex.
      apply existsb_exists. exists e'. split; [by apply list_elem_of_In|by apply bool_decide_eq_true].
    + intros f. by rewrite !map_app, !elem_of_app, H2.
    + intros x [Hx|Hx]%elem_of_app; apply elem_of_app; [left; auto|by right].
Qed.

(** ** A sample project *)

Section sample.

Fixpoint unnamed (n : nat) : string := match n with 0 => "" | S n => String "x" (unnamed n) end.

(** The runner loads a configuration and two services; these share a library of two files
    that require each other. *)
Definition sample_mods (n : nat) : module_ :=
  match n with
  | 0 => Module_ "/app/node_modules/moleculer/bin/runner.js" [1; 2; 3]
  | 1 => Module_ "/app/moleculer.config.js" []
  | 2 => Module_ "/app/posts.service.js" [4]
  | 3 => Module_ "/app/users.service.js" [5]
  | 4 => Module_ "/app/db.js" [5]
  | 5 => Module_ "/app/log.js" [4]
  | n => Module_ (unnamed n) []
  end.

Definition posts : svc := Svc "posts" (Some "/app/posts.service.js"%string).
Definition users : svc := Svc "v2.users" (Some "/app/users.service.js"%string).
Definition sample_services : list svc := [posts; users; Svc "$node" None].

Definition sample_files : OMap.t watch_item :=
  default [] (watchProjectFiles sample_mods sample_services [] 10 0 [] (λ _, true)).

End sample.

Lemma unnamed_inj a b : unnamed a = unnamed b → a = b.
Proof. revert b. induction a as [|a IH]; intros [|b]; simpl; [done..|]. intros [= Hb]. by rewrite (IH b). Qed.

Lemma sample_inj a b : filename (sample_mods a) = filename (sample_mods b) → a = b.
Proof.
  do 6 (destruct a as [|a]; [do 6 (destruct b as [|b]; [done|]); done|]).
  do 6 (destruct b as [|b]; [done|]). cbn [sample_mods filename]. apply unnamed_inj.
Qed.

Lemma sample_unnamed n s : service_at sample_services (unnamed n) = Some s → False.
Proof. unfold service_at. destruct n; simpl; done. Qed.

(** Outside of the services only the runner and the configuration are loaded. *)
Lemma sample_leads m : rtc (leads sample_mods sample_services) 0 m → m ≤ 3.
Proof.
  intros Hm. apply (rtc_ind_r (λ m, m ≤ 3)) in Hm; [done|lia|]. intros y z _ [Hs Hz] Hy.
  destruct y as [|[|[|[|y]]]]; try (vm_compute in Hs; done); [| |lia].
  - repeat (apply elem_of_cons in Hz as [->|Hz]; [lia|]). by apply elem_of_nil in Hz.
  - by apply elem_of_nil in Hz.
Qed.

Lemma sample_acyclic :
  let files := map (λ n, filename (sample_mods n)) (seq 0 6) in
  filename (sample_mods 0) ∈ files ∧ (∀ m c, filename (sample_mods m) ∈ files → c ∈ children (sample_mods m) → filename (sample_mods c) ∈ files) ∧
  ∀ m c, rtc (leads sample_mods sample_services) 0 m → isNodeModule (filename (sample_mods m)) = false → service_at sample_services (filename (sample_mods m)) = None →
    c ∈ children (sample_mods m) → isNodeModule (filename (sample_mods c)) = false → service_at sample_services (filename (sample_mods c)) = None → 0 < 0.
Proof.
  intros files. split_and!; [left| |].
  - intros m c. do 6 (destruct m as [|m]; [intros _ Hc; simpl in Hc; repeat (apply elem_of_cons in Hc as [->|Hc]; [repeat constructor|]); by apply elem_of_nil in Hc|]).
    intros _ Hc. by apply elem_of_nil in Hc.
  - intros m c Hm%sample_leads. destruct m as [|[|[|[|m]]]]; try (vm_compute; discriminate); [|lia].
    intros _ _ Hc _ _. by apply elem_of_nil in Hc.
Qed.

Lemma hot_reload_exact_witness :
  let extra := [("/app/data.json", SomeServices ["posts"])]%string in
  let files := default [] (watchProjectFiles sample_mods sample_services [] 10 0 extra (λ _, true)) in
  let r f := changed sample_services true id files f [] in
  r "/app/db.js"%string = Some (["/app/db.js"; "/app/posts.service.js"; "/app/users.service.js"; "/app/log.js"]%string, Reload [Loaded posts; Loaded users]) ∧
  r "/app/data.json"%string = Some (["/app/data.json"]%string, Reload [Loaded posts]) ∧
  (∃ fuel files, watchProjectFiles sample_mods sample_services [] fuel 0 extra (λ _, true) = Some files) ∧
  (Loaded users ∈ reloaded (r "/app/db.js"%string) [] ↔ Loaded users ∈ [] ∨ concerns sample_mods sample_services 0 extra "/app/db.js" users) ∧
  ∃ c, r "/app/moleculer.config.js"%string = Some (c, RestartBroker).
Proof.
  intros extra files r. split; [vm_compute; reflexivity|]. split; [vm_compute; reflexivity|].
  destruct (hot_reload_exact sample_mods sample_services 0 extra (λ _, true) true id sample_inj) as [Hends Hexact].
  - intros m s. do 6 (destruct m as [|m]; [vm_compute; congruence|]). intros []%sample_unnamed.
  - intros c y. destruct c as [|[|[|[|[|[|c]]]]]]; try (vm_compute; discriminate).
    + intros H1 _ [<-|(z & [_ Hz%elem_of_nil] & _)]%rtc_inv; [done|destruct Hz].
    + intros H1 _ [<-|(z & [_ Hz%elem_of_nil] & _)]%rtc_inv; [done|destruct Hz].
  - assert (watchProjectFiles sample_mods sample_services [] 10 0 extra (λ _, true) = Some files) as Hw by (vm_compute; reflexivity).
    split; [|split].
    + apply Hends. exists (map (λ n, filename (sample_mods n)) (seq 0 6)), (λ _, 0). exact sample_acyclic.
    + destruct (Hexact 10 files "/app/db.js"%string [] Hw eq_refl) as (_ & _ & H). apply H; [|right; left]. intros [c Hc]. vm_compute in Hc. discriminate.
    + destruct (Hexact 10 files "/app/moleculer.config.js"%string [] Hw eq_refl) as (_ & H & _). apply H; [done|]. right. exists 1.
      split; [|by vm_compute]. apply rtc_once. split; [by vm_compute|]. split; [by vm_compute|left].
Defined.

(** ** Where it goes wrong *)

(** An entry file that is no service and a file that require each other: the walk does not end
    (the program overflows its stack). *)
Definition circular_mods (n : nat) : module_ :=
  match n with 0 => Module_ "/app/index.js" [1] | _ => Module_ "/app/broker.js" [0] end.

Lemma circular_overflow fuel : ∀ m d, m ≤ 1 → processModule circular_mods [] [] fuel None m (None, d) = None.
Proof.
  induction fuel as [|fuel IH]; intros m d Hm; [done|].
  destruct m as [|[|m]]; [| |lia]; simpl; rewrite IH; done || lia.
Qed.

(** A package that is to be reloaded belongs to the first service alone of those that load it. *)
Lemma shared_package_first_only :
  let mods n := match n with
    | 0 => Module_ "/app/node_modules/moleculer/bin/runner.js" [1; 2]
    | 1 => Module_ "/app/posts.service.js" [3]
    | 2 => Module_ "/app/users.service.js" [3]
    | _ => Module_ "/app/node_modules/shared/index.js" []
    end in
  services_of "/app/node_modules/shared/index.js"
    (default (None, State [] []) (processModule mods sample_services ["/node_modules/shared/"%string] 5 None 0 (None, State [] []))).2 =
  ["posts"%string].
Proof. vm_compute. reflexivity. Qed.

(** A service that failed to load is not loaded again while another one waits to be reloaded. *)
Lemma crashed_service_forgotten :
  reloaded (changed [users] true id sample_files "/app/posts.service.js" [Loaded users]) [] = [Loaded users].
Proof. vm_compute. reflexivity. Qed.

(** If it is a library of such a service that changes, the library is loaded as a service. *)
Lemma library_loaded_as_service :
  reloadServices (λ _, true) (reloaded (changed [] true id sample_files "/app/db.js" []) []) = [LoadService "/app/db.js"].
Proof. vm_compute. reflexivity. Qed.
