(* ===== verification/Tcp.v ===== *)
(** * The TCP transporter's wire format and socket tables

    Models [src/packets.js] (packet types), [src/transporters/tcp/constants.js]
    (packet ids), [src/transporters/tcp/parser.js] (the stream parser),
    the framing and the socket table of [src/transporters/tcp/tcp-writer.js] and
    the socket list of [src/transporters/tcp/tcp-reader.js].  Bytes are
    [Byte.byte]; the length field is the signed 32-bit big-endian integer
    Node's [readInt32BE]/[writeInt32BE] read and write. *)

From Stdlib Require Import ZArith Lia Bool.
From Stdlib Require Strings.Byte.
From Equations Require Import Equations.
From stdpp Require Import base tactics list strings option sorting.
From S2P Require Import Prelude.

Local Open Scope Z_scope.

(** ** Packet types and ids *)

Module Packets.

Inductive packet_type :=
| PACKET_UNKNOWN | PACKET_EVENT | PACKET_REQUEST | PACKET_RESPONSE
| PACKET_DISCOVER | PACKET_INFO | PACKET_DISCONNECT | PACKET_HEARTBEAT
| PACKET_PING | PACKET_PONG
| PACKET_GOSSIP_REQ | PACKET_GOSSIP_RES | PACKET_GOSSIP_HELLO.

#[export] Instance packet_type_eq_dec : EqDecision packet_type.
Proof. solve_decision. Defined.

Definition PACKET_EVENT_ID := 1.
Definition PACKET_REQUEST_ID := 2.
Definition PACKET_RESPONSE_ID := 3.
Definition PACKET_PING_ID := 4.
Definition PACKET_PONG_ID := 5.
Definition PACKET_GOSSIP_REQ_ID := 6.
Definition PACKET_GOSSIP_RES_ID := 7.
Definition PACKET_GOSSIP_HELLO_ID := 8.

(** [None] is the thrown "Unsupported packet type". *)
Definition resolvePacketID (ty : packet_type) : option Z :=
  match ty with
  | PACKET_EVENT => Some PACKET_EVENT_ID
  | PACKET_REQUEST => Some PACKET_REQUEST_ID
  | PACKET_RESPONSE => Some PACKET_RESPONSE_ID
  | PACKET_PING => Some PACKET_PING_ID
  | PACKET_PONG => Some PACKET_PONG_ID
  | PACKET_GOSSIP_REQ => Some PACKET_GOSSIP_REQ_ID
  | PACKET_GOSSIP_RES => Some PACKET_GOSSIP_RES_ID
  | PACKET_GOSSIP_HELLO => Some PACKET_GOSSIP_HELLO_ID
  | _ => None
  end.

(** [None] is the thrown "Unsupported packet ID". *)
Definition resolvePacketType (id : Z) : option packet_type :=
  if id =? PACKET_EVENT_ID then Some PACKET_EVENT
  else if id =? PACKET_REQUEST_ID then Some PACKET_REQUEST
  else if id =? PACKET_RESPONSE_ID then Some PACKET_RESPONSE
  else if id =? PACKET_PING_ID then Some PACKET_PING
  else if id =? PACKET_PONG_ID then Some PACKET_PONG
  else if id =? PACKET_GOSSIP_REQ_ID then Some PACKET_GOSSIP_REQ
  else if id =? PACKET_GOSSIP_RES_ID then Some PACKET_GOSSIP_RES
  else if id =? PACKET_GOSSIP_HELLO_ID then Some PACKET_GOSSIP_HELLO
  else None.

Lemma resolve_type_id ty id : resolvePacketID ty = Some id → resolvePacketType id = Some ty.
Proof. destruct ty; intros; simplify_eq/=; done. Qed.

Lemma resolve_id_type ty id : resolvePacketType id = Some ty → resolvePacketID ty = Some id.
Proof.
  unfold resolvePacketType. intros H.
  repeat (split_match_in H; [to_prop; simplify_eq/=; done|]). done.
Qed.

Lemma resolve_id_range ty id : resolvePacketID ty = Some id → 1 ≤ id ≤ 8.
Proof. destruct ty; intros; simplify_eq/=; unfold PACKET_EVENT_ID, PACKET_REQUEST_ID,
  PACKET_RESPONSE_ID, PACKET_PING_ID, PACKET_PONG_ID, PACKET_GOSSIP_REQ_ID,
  PACKET_GOSSIP_RES_ID, PACKET_GOSSIP_HELLO_ID; lia. Qed.

End Packets.

Import Packets.

(** ** Node buffers *)

Module Buf.

Notation byte := Byte.byte.

(** [buf[i]] of a byte in range, as a number *)
Definition value (b : byte) : Z := Z.of_N (Byte.to_N b).

(** A number stored into a byte: [ToUint8]. *)
Definition of_Z (z : Z) : byte :=
  match Byte.of_N (Z.to_N (z mod 256)) with
  | Some b => b
  | None => Byte.x00
  end.

Definition at_ (buf : list byte) (i : nat) : Z := value (nth i buf Byte.x00).

(** [buf.readInt32BE(1)] *)
Definition readInt32BE (b1 b2 b3 b4 : Z) : Z :=
  let u := b1 * 2^24 + b2 * 2^16 + b3 * 2^8 + b4 in
  if 2^31 <=? u then u - 2^32 else u.

(** [buf.writeInt32BE(v, off)]: the four bytes, or the [RangeError]. *)
Definition writeInt32BE (v : Z) : option (list byte) :=
  if (- 2^31 <=? v) && (v <=? 2^31 - 1) then
    Some [of_Z (Z.shiftr v 24); of_Z (Z.shiftr v 16); of_Z (Z.shiftr v 8); of_Z v]
  else None.

(** [buf.writeInt8(v, off)] *)
Definition writeInt8 (v : Z) : option byte :=
  if (- 2^7 <=? v) && (v <=? 2^7 - 1) then Some (of_Z v) else None.

Lemma value_range b : 0 ≤ value b < 256.
Proof.
  unfold value. pose proof (Byte.to_N_bounded b). lia.
Qed.

Lemma value_of_Z z : value (of_Z z) = z mod 256.
Proof.
  unfold value, of_Z. pose proof (Z.mod_pos_bound z 256 ltac:(lia)).
  destruct (Byte.of_N (Z.to_N (z mod 256))) as [b|] eqn:E.
  - apply Byte.to_of_N in E. rewrite E. lia.
  - apply Byte.of_N_None_iff in E. lia.
Qed.

Lemma value_inj a b : value a = value b → a = b.
Proof.
  unfold value. intros H. apply N2Z.inj in H.
  pose proof (Byte.of_to_N a) as Ha. pose proof (Byte.of_to_N b) as Hb.
  rewrite H in Ha. congruence.
Qed.

Lemma of_Z_value b : of_Z (value b) = b.
Proof. apply value_inj. rewrite value_of_Z. apply Z.mod_small, value_range. Qed.

(** Reading back the four bytes of a 32-bit integer. *)
Lemma read_write v : - 2^31 ≤ v ≤ 2^31 - 1 →
  readInt32BE (value (of_Z (Z.shiftr v 24))) (value (of_Z (Z.shiftr v 16)))
    (value (of_Z (Z.shiftr v 8))) (value (of_Z v)) = v.
Proof.
  intros Hv. rewrite !value_of_Z, !Z.shiftr_div_pow2 by lia. unfold readInt32BE.
  change (2^8) with 256. change (2^16) with 65536. change (2^24) with 16777216.
  change (2^31) with 2147483648 in *. change (2^32) with 4294967296.
  pose proof (Z.div_mod v 256 ltac:(lia)). pose proof (Z.mod_pos_bound v 256 ltac:(lia)).
  pose proof (Z.div_mod (v/256) 256 ltac:(lia)). pose proof (Z.mod_pos_bound (v/256) 256 ltac:(lia)).
  pose proof (Z.div_mod (v/65536) 256 ltac:(lia)). pose proof (Z.mod_pos_bound (v/65536) 256 ltac:(lia)).
  pose proof (Z.div_mod (v/16777216) 256 ltac:(lia)).
  pose proof (Z.mod_pos_bound (v/16777216) 256 ltac:(lia)).
  replace (v / 65536) with (v / 256 / 256) in * by (rewrite Z.div_div; done || lia).
  replace (v / 16777216) with (v / 256 / 256 / 256) in * by (rewrite !Z.div_div; done || lia).
  case Z.leb_spec; lia.
Qed.

(** Writing what was read: the encoding of the length field is canonical. *)
Lemma write_read b1 b2 b3 b4 :
  let v := readInt32BE (value b1) (value b2) (value b3) (value b4) in
  writeInt32BE v = Some [b1; b2; b3; b4].
Proof.
  intros v. pose proof (value_range b1). pose proof (value_range b2).
  pose proof (value_range b3). pose proof (value_range b4).
  assert (- 2^31 ≤ v ≤ 2^31 - 1) as Hv.
  { unfold v, readInt32BE. case Z.leb_spec; lia. }
  unfold writeInt32BE. replace (_ && _) with true by (symmetry; rewrite andb_true_iff; lia).
  repeat f_equal; apply value_inj; rewrite value_of_Z, ?Z.shiftr_div_pow2 by lia;
    unfold v, readInt32BE; clear v Hv;
    change (2^8) with 256; change (2^16) with 65536; change (2^24) with 16777216;
    change (2^31) with 2147483648; change (2^32) with 4294967296;
    case Z.leb_spec; intros; Z.div_mod_to_equations; lia.
Qed.

End Buf.

Import Buf.

(** ** The stream parser *)

Module Parser.

Definition HEADER_SIZE : Z := 6.

(** What [_write] ends with: [cb()], [cb(err)], or an exception of
    [resolvePacketType] that leaves the method. *)
Inductive parse_error :=
| PacketTooLarge (len max : Z)
| InvalidCRC (crc : Z)
| InvalidLength (len : Z).

Inductive outcome :=
| CbOk
| CbErr (e : parse_error)
| Thrown (id : Z).

Notation message := (packet_type * list byte)%type.

(** The parser object: its limit ([0] and absent are both falsy) and the bytes
    kept from the previous chunk. *)
Record parser := Parser { maxPacketSize : option Z; buf : option (list byte) }.

Definition exceeds (max : option Z) (len : Z) : bool :=
  match max with
  | Some m => negb (m =? 0) && (m <? len)
  | None => false
  end.

Definition max_of (max : option Z) : Z := default 0 max.

Definition crc_of (packet : list byte) : Z :=
  Z.lxor (Z.lxor (Z.lxor (Z.lxor (at_ packet 1) (at_ packet 2)) (at_ packet 3)) (at_ packet 4))
    (at_ packet 5).

Definition length_of (packet : list byte) : Z :=
  readInt32BE (at_ packet 1) (at_ packet 2) (at_ packet 3) (at_ packet 4).

(** The result of the [while] loop: the emitted messages, the new value of
    [this.buf] ([None]: not assigned) and how the method ended. *)
Record result := Result { emitted : list message; kept : option (list byte); out : outcome }.

Definition emit (m : message) (r : result) : result :=
  Result (m :: emitted r) (kept r) (out r).

(** One turn of the loop on a non-empty packet: stop with a result, or emit a
    message and go on with the rest of the packet. *)
Definition turn (max : option Z) (packet : list byte) : result + message * list byte :=
  let len := Z.of_nat (length packet) in
  if len <? HEADER_SIZE then inl (Result [] (Some packet) CbOk)
  else if exceeds max len then inl (Result [] None (CbErr (PacketTooLarge len (max_of max))))
  else if negb (crc_of packet =? at_ packet 0) then
    inl (Result [] None (CbErr (InvalidCRC (crc_of packet))))
  else if length_of packet <? HEADER_SIZE then
    inl (Result [] None (CbErr (InvalidLength (length_of packet))))
  else if length_of packet <=? len then
    let msg := drop 6 (take (Z.to_nat (length_of packet)) packet) in
    match resolvePacketType (at_ packet 5) with
    | Some ty => inr ((ty, msg), drop (Z.to_nat (length_of packet)) packet)
    | None => inl (Result [] None (Thrown (at_ packet 5)))
    end
  else inl (Result [] (Some packet) CbOk).

Lemma turn_decreases max packet m rest :
  turn max packet = inr (m, rest) → (length rest < length packet)%nat.
Proof.
  unfold turn, HEADER_SIZE. intros H. repeat split_match_in H; simplify_eq; to_prop.
  rewrite length_drop. lia.
Qed.

(** A value together with the equation that names it. *)
Definition inspect {A} (a : A) : {b | a = b} := exist _ a eq_refl.

(** The loop [while (packet.length > 0)]. *)
Equations? parse_loop (lim : option Z) (packet : list byte) : result
  by wf (length packet) lt :=
  parse_loop lim [] := Result [] None CbOk;
  parse_loop lim (b :: p) with inspect (turn lim (b :: p)) => {
    | exist _ (inl r) H := r;
    | exist _ (inr (m, rest)) H := emit m (parse_loop lim rest) }.
Proof. by apply turn_decreases in H. Qed.

(** [_write(chunk, encoding, cb)] *)
Definition write (p : parser) (chunk : list byte) : parser * list message * outcome :=
  let '(packet, b) :=
    match buf p with
    | Some (x :: l) => ((x :: l) ++ chunk, None)
    | b => (chunk, b)
    end in
  let r := parse_loop (maxPacketSize p) packet in
  (Parser (maxPacketSize p) (match kept r with Some k => Some k | None => b end),
   emitted r, out r).

(** A sequence of chunks, as the socket is piped into the parser; a stream
    that failed is not written to again. *)
Fixpoint feed (p : parser) (chunks : list (list byte)) : parser * list message * outcome :=
  match chunks with
  | [] => (p, [], CbOk)
  | c :: cs =>
      match write p c with
      | (p', ms, CbOk) => let '(p'', ms', o) := feed p' cs in (p'', ms ++ ms', o)
      | r => r
      end
  end.

Lemma parse_loop_turn lim p : p ≠ [] →
  parse_loop lim p =
  match turn lim p with inl r => r | inr (m, rest) => emit m (parse_loop lim rest) end.
Proof.
  destruct p as [|b p]; [done|]. intros _. simp parse_loop. unfold inspect. simpl.
  destruct (turn lim (b :: p)) as [r|[m rest]]; done.
Qed.

Lemma exceeds_mono lim m n : m ≤ n → exceeds lim n = false → exceeds lim m = false.
Proof.
  unfold exceeds. destruct lim as [k|]; [|done]. destruct (k =? 0); simpl; [done|].
  intros ? H. to_prop. apply Z.ltb_ge. lia.
Qed.

End Parser.

(** ** The writer's framing *)

Module Frame.

Import Parser.

(** The header and payload [TcpWriter.send] writes for a packet id; [None] is
    the [RangeError] of [writeInt32BE] or [writeInt8]. *)
Definition frame (id : Z) (data : list byte) : option (list byte) :=
  match writeInt32BE (Z.of_nat (length data) + HEADER_SIZE), writeInt8 id with
  | Some l4, Some t =>
      let header := Byte.x00 :: l4 ++ [t] in
      let crc := crc_of header in
      Some ((of_Z crc :: l4 ++ [t]) ++ data)
  | _, _ => None
  end.

(** [f] is the frame of message [m]. *)
Definition framed (m : message) (f : list byte) : Prop :=
  ∃ id, resolvePacketID m.1 = Some id ∧ frame id m.2 = Some f.

Lemma lxor_byte a b : 0 ≤ a < 256 → 0 ≤ b < 256 → 0 ≤ Z.lxor a b < 256.
Proof.
  intros Ha Hb.
  assert (0 ≤ Z.lxor a b) by (apply Z.lxor_nonneg; lia).
  split; [done|]. destruct (decide (Z.lxor a b = 0)) as [->|Hne]; [lia|].
  change 256 with (2^8). apply Z.log2_lt_pow2; [lia|].
  pose proof (Z.log2_lxor a b ltac:(lia) ltac:(lia)).
  assert (∀ c, 0 ≤ c < 256 → Z.log2 c ≤ 7) as Hlog.
  { intros c Hc. apply Z.lt_succ_r. destruct (decide (c = 0)) as [->|]; [done|].
    apply Z.log2_lt_pow2; simpl; lia. }
  pose proof (Hlog a Ha). pose proof (Hlog b Hb). lia.
Qed.

#[local] Hint Resolve value_range lxor_byte : moleculer.

(** The six header bytes of a frame, and what the parser reads in them. *)
Lemma frame_shape id data f : frame id data = Some f → 1 ≤ id ≤ 8 →
  ∃ c b1 b2 b3 b4 t,
    let v := Z.of_nat (length data) + HEADER_SIZE in
    f = c :: b1 :: b2 :: b3 :: b4 :: t :: data ∧ value t = id ∧
    value c = Z.lxor (Z.lxor (Z.lxor (Z.lxor (value b1) (value b2)) (value b3)) (value b4))
                (value t) ∧
    readInt32BE (value b1) (value b2) (value b3) (value b4) = v ∧ v ≤ 2^31 - 1.
Proof.
  unfold frame, writeInt32BE, writeInt8. intros H Hid. repeat split_match_in H; simplify_eq.
  to_prop. eexists _, _, _, _, _, _. split_and!; [reflexivity| | |by apply read_write|done].
  - rewrite value_of_Z. apply Z.mod_small; lia.
  - rewrite value_of_Z. apply Z.mod_small. unfold crc_of, at_. simpl nth.
    eauto 10 with moleculer.
Qed.

(** The header of a packet that starts with the six header bytes of a frame. *)
Lemma header_fields c b1 b2 b3 b4 t tail :
  let p := c :: b1 :: b2 :: b3 :: b4 :: t :: tail in
  crc_of p = Z.lxor (Z.lxor (Z.lxor (Z.lxor (value b1) (value b2)) (value b3)) (value b4))
               (value t) ∧
  length_of p = readInt32BE (value b1) (value b2) (value b3) (value b4) ∧
  at_ p 0 = value c ∧ at_ p 5 = value t ∧ Z.of_nat (length p) = Z.of_nat (length tail) + 6.
Proof. split_and!; try done. simpl length. lia. Qed.

(** A whole frame at the head of the packet is parsed as its message. *)
Lemma turn_frame lim m f rest :
  framed m f → exceeds lim (Z.of_nat (length (f ++ rest))) = false →
  turn lim (f ++ rest) = inr (m, rest).
Proof.
  intros (id & Hid & Hf) Hlim. destruct m as [ty data]; simpl in *.
  pose proof (resolve_id_range _ _ Hid).
  destruct (frame_shape _ _ _ Hf) as (c & b1 & b2 & b3 & b4 & t & -> & Ht & Hc & Hlen & Hmax);
    [done|]. unfold turn. rewrite Hlim. simpl app.
  destruct (header_fields c b1 b2 b3 b4 t (data ++ rest)) as (-> & -> & -> & -> & ->).
  rewrite Hc, Z.eqb_refl, Hlen, Ht, (resolve_type_id _ _ Hid). unfold HEADER_SIZE. simpl negb.
  rewrite length_app, (proj2 (Z.ltb_ge _ _)), (proj2 (Z.ltb_ge (Z.of_nat _ + 6) 6)),
    (proj2 (Z.leb_le _ _)) by lia.
  replace (Z.to_nat (Z.of_nat (length data) + 6)) with (6 + length data)%nat by lia.
  simpl. by rewrite take_app_length, drop_app_length.
Qed.

(** A proper prefix of a frame is kept for the next chunk. *)
Lemma turn_partial lim m f p rest :
  framed m f → f = p ++ rest → rest ≠ [] → exceeds lim (Z.of_nat (length p)) = false →
  turn lim p = inl (Result [] (Some p) CbOk).
Proof.
  intros (id & Hid & Hf) Heq Hrest Hlim. destruct m as [ty data]; simpl in *.
  pose proof (resolve_id_range _ _ Hid).
  destruct (frame_shape _ _ _ Hf) as (c & b1 & b2 & b3 & b4 & t & -> & Ht & Hc & Hlen & Hmax);
    [done|]. unfold turn. rewrite Hlim.
  destruct p as [|c' [|b1' [|b2' [|b3' [|b4' [|t' tail]]]]]]; try done.
  simpl in Heq; simplify_eq. destruct (header_fields c' b1' b2' b3' b4' t' tail) as (-> & -> & -> & -> & ->).
  rewrite Hc, Z.eqb_refl, Hlen. unfold HEADER_SIZE. simpl negb. rewrite length_app.
  assert (0 < length rest)%nat by (destruct rest; [done | simpl; lia]).
  rewrite (proj2 (Z.ltb_ge _ _)), (proj2 (Z.ltb_ge (Z.of_nat _ + 6) 6)),
    (proj2 (Z.leb_gt _ _)) by lia. done.
Qed.

(** What the loop emits from a packet was framed in it. *)
Lemma turn_sound lim p m rest :
  turn lim p = inr (m, rest) → ∃ f, framed m f ∧ p = f ++ rest.
Proof.
  unfold turn. intros H. repeat split_match_in H; simplify_eq. to_prop.
  destruct p as [|c [|b1 [|b2 [|b3 [|b4 [|t tail]]]]]]; try done.
  destruct (header_fields c b1 b2 b3 b4 t tail) as (Ecrc & Elen & E0 & E5 & El).
  rewrite Ecrc, Elen, E0, E5, El in *. unfold HEADER_SIZE in *.
  set (v := readInt32BE _ _ _ _) in *.
  replace (Z.to_nat v) with (6 + Z.to_nat (v - 6))%nat by lia. simpl drop. simpl take.
  exists (c :: b1 :: b2 :: b3 :: b4 :: t :: take (Z.to_nat (v - 6)) tail). split.
  - exists (value t). simpl. split; [by apply resolve_id_type|].
    rewrite drop_0. unfold frame, HEADER_SIZE. rewrite length_take.
    replace (Z.of_nat _ + 6) with v by lia. unfold v. rewrite write_read.
    apply resolve_id_type, resolve_id_range in Heqo. unfold writeInt8.
    rewrite (proj2 (andb_true_iff _ _)) by (split; lia). rewrite of_Z_value.
    simpl app. do 2 f_equal. apply value_inj. rewrite value_of_Z. unfold crc_of, at_. simpl nth.
    rewrite Z.mod_small by eauto 10 with moleculer. congruence.
  - simpl. by rewrite take_drop.
Qed.

(** The frames of a sequence of messages, in order. *)
Notation frames := (Forall2 framed).

Lemma framed_nonempty m f : framed m f → f ≠ [].
Proof.
  intros (id & Hid & Hf). apply resolve_id_range in Hid.
  destruct (frame_shape _ _ _ Hf) as (?&?&?&?&?&?&->&_); done.
Qed.

(** The loop on a prefix of a well-framed stream: it emits the messages whose
    frames are complete and keeps the beginning of the next one. *)
Lemma loop_prefix lim ms fs p rest :
  frames ms fs → concat fs = p ++ rest → exceeds lim (Z.of_nat (length p)) = false →
  ∃ ms1 ms2 fs1 fs2 r,
    ms = ms1 ++ ms2 ∧ frames ms2 fs2 ∧ p = concat fs1 ++ r ∧ concat fs2 = r ++ rest ∧
    (rest = [] → ms2 = []) ∧
    parse_loop lim p = Result ms1 (match r with [] => None | _ => Some r end) CbOk.
Proof.
  intros Hfs. revert p. induction Hfs as [|m f ms fs Hm Hms IH]; intros p Heq Hlim.
  - symmetry in Heq. apply app_nil in Heq as [-> ->]. by exists [], [], [], [], [].
  - destruct (decide (p = [])) as [->|Hp].
    { exists [], (m :: ms), [], (f :: fs), []. split_and!; try done; [by constructor|].
      intros ->. apply app_nil in Heq as [? _]. by apply framed_nonempty in Hm. }
    simpl in Heq. rewrite parse_loop_turn by done.
    destruct (decide (length f ≤ length p)%nat) as [Hle|Hgt].
    + assert (∃ p', p = f ++ p') as [p' ->].
      { exists (drop (length f) p). rewrite <- (take_drop (length f) p) at 1. f_equal.
        rewrite <- (take_app_le p rest) by lia. by rewrite <- Heq, take_app_length. }
      rewrite <- app_assoc in Heq. simplify_list_eq.
      rewrite (turn_frame _ m f p') by done.
      destruct (IH p' Heq) as (ms1 & ms2 & fs1 & fs2 & r & -> & H2 & -> & Hc & Hn & Hl).
      { eapply exceeds_mono; [|done]. rewrite length_app. lia. }
      exists (m :: ms1), ms2, (f :: fs1), fs2, r. rewrite Hl. split_and!; try done.
      simpl. by rewrite app_assoc.
    + assert (∃ q, f = p ++ q ∧ q ≠ []) as (q & -> & Hq).
      { exists (drop (length p) f). split.
        - rewrite <- (take_drop (length p) f) at 1. f_equal.
          rewrite <- (take_app_le f (concat fs)) by lia. by rewrite Heq, take_app_length.
        - intros Hnil. apply (f_equal length) in Hnil. rewrite length_drop in Hnil. simpl in *. lia. }
      rewrite (turn_partial _ m (p ++ q) p q) by done.
      exists [], (m :: ms), [], ((p ++ q) :: fs), p. split_and!; try done.
      * by constructor.
      * simpl in Heq. rewrite <- app_assoc in Heq. simplify_list_eq. intros Hnil.
        by apply app_nil in Hnil as [? _].
      * by destruct p.
Qed.

(** What the loop emitted was framed at the beginning of the packet. *)
Lemma loop_sound lim p : let r := parse_loop lim p in
  ∃ fs rest, frames (emitted r) fs ∧ p = concat fs ++ rest ∧
    (out r = CbOk → rest = default [] (kept r)).
Proof.
  simpl. remember (length p) as n eqn:Hn. revert p Hn.
  induction (lt_wf n) as [n _ IH]. intros p ->.
  destruct (decide (p = [])) as [->|Hp].
  { exists [], []. simp parse_loop. done. }
  rewrite parse_loop_turn by done. destruct (turn lim p) as [r|[m rest]] eqn:Et.
  - exists [], p. unfold turn in Et. repeat split_match_in Et; simplify_eq/=; done.
  - pose proof (turn_decreases _ _ _ _ Et). apply turn_sound in Et as (f & Hf & ->).
    destruct (IH _ H rest eq_refl) as (fs & tl & Hfs & Heq & Hok).
    exists (f :: fs), tl. split_and!; [by constructor| |done].
    rewrite Heq at 1. simpl. by rewrite app_assoc.
Qed.

End Frame.

(** ** The writer's socket table *)

Module Writer.

Record socket := Socket { lastUsed : Z; destroyed : bool }.

(** [this.sockets] *)
Notation sockets := (OMap.t socket).

Definition addSocket (nodeID : string) (s : socket) (force : bool) (m : sockets) : sockets :=
  match OMap.get nodeID m with
  | Some s' => if negb force && negb (destroyed s') then m else OMap.set nodeID s m
  | None => OMap.set nodeID s m
  end.

(** Closing the socket object itself has no effect on the table. *)
Definition removeSocket (nodeID : string) (m : sockets) : sockets := OMap.delete nodeID m.

(** The sockets [manageConnections] selects, oldest first. *)
Definition removable (maxConnections : Z) (m : sockets) : list (string * Z) :=
  let count := Z.of_nat (length m) - maxConnections in
  if count <=? 0 then []
  else
    let l := Sort.sort snd (map (λ '(nodeID, s), (nodeID, lastUsed s)) m) in
    let count := Z.min count (Z.of_nat (length l) - 1) in
    take (Z.to_nat count) l.

Definition manageConnections (maxConnections : Z) (m : sockets) : sockets :=
  foldl (λ m '(nodeID, _), removeSocket nodeID m) m (removable maxConnections m).

Lemma manage_delete_all maxc m :
  manageConnections maxc m = OMap.delete_all (map fst (removable maxc m)) m.
Proof.
  unfold manageConnections, OMap.delete_all. generalize (removable maxc m) as l.
  intros l. revert m. induction l as [|[k u] l IH]; intros m; simpl; [done|]. apply IH.
Qed.

Definition ages (m : sockets) : list (string * Z) := map (λ '(nodeID, s), (nodeID, lastUsed s)) m.

Lemma ages_keys m : map fst (ages m) = OMap.keys m.
Proof. unfold ages, OMap.keys. rewrite map_map. by apply map_ext; intros [? ?]. Qed.

(** The evicted sockets and the kept ones partition the table. *)
Lemma removable_split maxc m :
  ∃ kept, removable maxc m ++ kept ≡ₚ ages m ∧
    (∀ x y, x ∈ removable maxc m → y ∈ kept → x.2 ≤ y.2).
Proof.
  unfold removable. fold (ages m). destruct (_ <=? 0) eqn:E.
  - exists (ages m). split; [done|]. intros x y Hx. by apply not_elem_of_nil in Hx.
  - set (n := Z.to_nat _). exists (drop n (Sort.sort snd (ages m))). split.
    + rewrite take_drop. apply Sort.sort_perm.
    + apply Sort.sorted_app_le. rewrite take_drop. apply Sort.sort_sorted.
Qed.

Lemma removable_length maxc m :
  Z.of_nat (length (removable maxc m)) =
  Z.max 0 (Z.min (Z.of_nat (length m) - maxc) (Z.of_nat (length m) - 1)).
Proof.
  unfold removable. fold (ages m). destruct (_ <=? 0) eqn:E; to_prop; [simpl; lia|].
  rewrite length_take, (Permutation_length (Sort.sort_perm snd (ages m))).
  unfold ages. rewrite length_map. lia.
Qed.

End Writer.

(** ** The reader's socket list *)

Module Reader.

(** Live sockets, by identity. *)
Notation sockets := (list positive).

(** [arr.splice(arr.indexOf(x), 1)]: a negative start counts from the end. *)
Definition splice_indexOf (x : positive) (l : sockets) : sockets :=
  match Arr.findIndex (Pos.eqb x) l with
  | Some i => Arr.splice1 i l
  | None => Arr.splice1 (length l - 1) l
  end.

Lemma splice_hit x l k :
  (∀ y, y ∈ l → Pos.eqb x y = false) → splice_indexOf x (l ++ x :: k) = l ++ k.
Proof.
  intros Hl. unfold splice_indexOf. rewrite Arr.findIndex_app; [|done|apply Pos.eqb_refl].
  apply Arr.splice1_app.
Qed.

(** An absent socket costs the last one. *)
Lemma splice_miss x l y :
  (∀ z, z ∈ l ++ [y] → Pos.eqb x z = false) → splice_indexOf x (l ++ [y]) = l.
Proof.
  intros Hl. unfold splice_indexOf. rewrite Arr.findIndex_None by done. rewrite length_app. simpl.
  replace (length l + 1 - 1)%nat with (length l) by lia. rewrite Arr.splice1_app. apply app_nil_r.
Qed.

Definition onTcpClientConnected (s : positive) (l : sockets) : sockets := l ++ [s].

Definition closeSocket (s : positive) (l : sockets) : sockets := splice_indexOf s l.

End Reader.

(** ** Theorems *)

Section theorems.

Import Parser Frame.

(** The bytes the parser holds for the next chunk. *)
Definition pending (p : parser) : list byte := default [] (buf p).

Lemma write_pending p c : let r := parse_loop (maxPacketSize p) (pending p ++ c) in
  ∃ p', write p c = (p', emitted r, out r) ∧ maxPacketSize p' = maxPacketSize p ∧
    pending p' = default [] (kept r).
Proof.
  unfold write, pending. destruct p as [lim [[|x l]|]]; simpl;
    (eexists; split; [reflexivity|]; split; [done|]; simpl);
    by destruct (kept (parse_loop lim _)).
Qed.

Lemma feed_frames p ms fs chunks :
  frames ms fs → pending p ++ concat chunks = concat fs →
  exceeds (maxPacketSize p) (Z.of_nat (length (concat fs))) = false →
  (chunks = [] → ms = []) →
  ∃ p', feed p chunks = (p', ms, CbOk) ∧ pending p' = [].
Proof.
  revert p ms fs. induction chunks as [|c cs IH]; intros p ms fs Hfs Heq Hlim Hnil; simpl.
  - rewrite (Hnil eq_refl) in *. inversion Hfs; subst. exists p. split; [done|].
    simpl in Heq. by apply app_nil in Heq as [? _].
  - destruct (write_pending p c) as (p' & -> & Hmax & Hpend). simpl in Heq. rewrite app_assoc in Heq.
    destruct (loop_prefix (maxPacketSize p) ms fs (pending p ++ c) (concat cs)) as
      (ms1 & ms2 & fs1 & fs2 & r & -> & H2 & Hp & Hc & Hend & Hl); [done..| |].
    { eapply exceeds_mono; [|done]. rewrite <- Heq, (length_app (pending p ++ c)). lia. }
    rewrite Hl in *. simpl in *.
    assert (pending p' = r) as Hr by (rewrite Hpend; by destruct r).
    destruct (IH p' ms2 fs2) as (p'' & -> & Hp''); [done| | | |by exists p''].
    + rewrite Hr, Hc. done.
    + rewrite Hmax. eapply exceeds_mono; [|done]. rewrite Hc, <- Heq, Hp, !length_app. lia.
    + intros ->. by apply Hend.
Qed.

Lemma feed_sound p chunks p' ms o :
  feed p chunks = (p', ms, o) →
  ∃ fs rest, frames ms fs ∧ pending p ++ concat chunks = concat fs ++ rest ∧
    (o = CbOk → rest = pending p').
Proof.
  revert p p' ms. induction chunks as [|c cs IH]; intros p p' ms H; simpl in *.
  - simplify_eq. exists [], (pending p'). rewrite app_nil_r. split_and!; done || constructor.
  - destruct (write_pending p c) as (p1 & Hw & Hmax & Hpend). rewrite Hw in H.
    destruct (loop_sound (maxPacketSize p) (pending p ++ c)) as (fs & rest & Hfs & Heq & Hok).
    rewrite app_assoc, Heq, <- app_assoc.
    destruct (out _) eqn:Ho; [|simplify_eq; by exists fs, (rest ++ concat cs)..].
    destruct (feed p1 cs) as [[p2 ms2] o2] eqn:Hf. simplify_eq.
    destruct (IH _ _ _ Hf) as (fs2 & rest2 & Hfs2 & Heq2 & Hok2).
    exists (fs ++ fs2), rest2. split_and!; [by apply Forall2_app| |done].
    rewrite concat_app, <- app_assoc, <- Heq2, Hpend, Hok by done. done.
Qed.

End theorems.

(** Two frames: a PING with one byte of payload and an empty PONG. *)
Definition sample_messages : list Parser.message :=
  [(PACKET_PING, [Byte.x2a]); (PACKET_PONG, [])].
Definition sample_frames : list (list byte) :=
  [[Byte.x03; Byte.x00; Byte.x00; Byte.x00; Byte.x07; Byte.x04; Byte.x2a];
   [Byte.x03; Byte.x00; Byte.x00; Byte.x00; Byte.x06; Byte.x05]].

Lemma sample_framed : Forall2 Frame.framed sample_messages sample_frames.
Proof. repeat constructor; eexists; split; reflexivity. Qed.

(** C4. The wire format round-trips under every segmentation: the frames the
    writer produces for a list of messages, cut into chunks at arbitrary places
    and written to a fresh parser whose limit the stream does not exceed, are
    parsed back into exactly those messages, without an error and with no byte
    left over. *)
Theorem tcp_roundtrip lim ms fs chunks :
  Forall2 Frame.framed ms fs → concat chunks = concat fs →
  Parser.exceeds lim (Z.of_nat (length (concat fs))) = false →
  ∃ p, Parser.feed (Parser.Parser lim None) chunks = (p, ms, Parser.CbOk) ∧ pending p = [].
Proof.
  intros Hfs Heq Hlim. apply (feed_frames _ ms fs); [done..|]. intros ->. simpl in Heq.
  destruct Hfs as [|m f ms fs Hm _]; [done|]. symmetry in Heq. apply app_nil in Heq as [? _].
  by apply Frame.framed_nonempty in Hm.
Qed.

(** The two sample frames cut in the middle of both. *)
Lemma tcp_roundtrip_witness :
  let chunks := [[Byte.x03; Byte.x00; Byte.x00];
                 [Byte.x00; Byte.x07; Byte.x04; Byte.x2a; Byte.x03; Byte.x00];
                 [Byte.x00; Byte.x00; Byte.x06; Byte.x05]] in
  ∃ p, Parser.feed (Parser.Parser (Some 1024) None) chunks = (p, sample_messages, Parser.CbOk) ∧
    pending p = [].
Proof.
  apply (tcp_roundtrip (Some 1024) sample_messages sample_frames);
    [exact sample_framed | reflexivity | reflexivity].
Defined.

(** The parser invents nothing: whatever bytes arrive, and however the
    stream ends, the emitted messages are the messages whose frames the input
    starts with; while no error occurred the rest of the input is the bytes
    kept for the next chunk. *)
Theorem tcp_parser_sound lim chunks p ms o :
  Parser.feed (Parser.Parser lim None) chunks = (p, ms, o) →
  ∃ fs rest, Forall2 Frame.framed ms fs ∧ concat chunks = concat fs ++ rest ∧
    (o = Parser.CbOk → rest = pending p).
Proof. intros H. by apply feed_sound in H. Qed.

Lemma tcp_parser_sound_witness :
  ∃ fs rest, Forall2 Frame.framed [(PACKET_PING, [Byte.x2a])] fs ∧
    concat [nth 0 sample_frames [] ++ [Byte.xff]] = concat fs ++ rest ∧
    (Parser.CbOk = Parser.CbOk → rest = pending (Parser.Parser None (Some [Byte.xff]))).
Proof. apply (tcp_parser_sound None). vm_compute. reflexivity. Defined.

(** [maxPacketSize] bounds the buffered bytes, not a packet: complete
    frames that arrive in one chunk are all refused, without a message emitted,
    as soon as their total length is over the limit, even when each of them
    respects it. *)
Theorem tcp_limit_counts_buffer lim ms fs :
  0 < lim → Forall2 Frame.framed ms fs → Forall (λ f, Z.of_nat (length f) ≤ lim) fs →
  lim < Z.of_nat (length (concat fs)) →
  ∃ p, Parser.write (Parser.Parser (Some lim) None) (concat fs) =
    (p, [], Parser.CbErr (Parser.PacketTooLarge (Z.of_nat (length (concat fs))) lim)).
Proof.
  intros Hlim Hfs Hle Hgt. unfold Parser.write. simpl.
  destruct Hfs as [|m f ms fs Hm _]; [simpl in Hgt; lia|].
  assert (concat (f :: fs) ≠ []) as Hne.
  { intros Hnil. apply app_nil in Hnil as [? _]. by apply Frame.framed_nonempty in Hm. }
  rewrite Parser.parse_loop_turn by done. unfold Parser.turn, Parser.exceeds.
  rewrite (proj2 (Z.eqb_neq lim 0)), (proj2 (Z.ltb_lt lim _)) by lia. simpl negb. simpl andb.
  destruct Hm as (id & Hid & Hf). apply resolve_id_range in Hid.
  destruct (Frame.frame_shape _ _ _ Hf) as (c & b1 & b2 & b3 & b4 & t & -> & _); [done|].
  destruct (Z.ltb_spec (Z.of_nat (length (concat ((c :: b1 :: b2 :: b3 :: b4 :: t :: m.2) :: fs))))
    Parser.HEADER_SIZE) as [Hs|_]; [|by eexists].
  unfold Parser.HEADER_SIZE in Hs. simpl in Hs. lia.
Qed.

(** Frames of 7 and 6 bytes against a limit of 10. *)
Lemma tcp_limit_counts_buffer_witness :
  ∃ p, Parser.write (Parser.Parser (Some 10) None) (concat sample_frames) =
    (p, [], Parser.CbErr (Parser.PacketTooLarge (Z.of_nat (length (concat sample_frames))) 10)).
Proof.
  apply (tcp_limit_counts_buffer 10 sample_messages); [lia | exact sample_framed | |].
  - repeat constructor; vm_compute; discriminate.
  - vm_compute. reflexivity.
Defined.

(** [manageConnections] is a least-recently-used eviction: it leaves at
    most [maxConnections] sockets (but never closes the last one), it removes
    none when the table is within the limit, and no socket it closes was used
    after one it keeps. *)
Theorem tcp_manage_connections maxc m :
  OMap.wf m →
  let m' := Writer.manageConnections maxc m in
  Z.of_nat (length m') = Z.min (Z.of_nat (length m)) (Z.max 1 maxc) ∧
  (∀ id s, (id, s) ∈ m' → (id, s) ∈ m) ∧
  (∀ id s id' s', (id, s) ∈ m → (id, s) ∉ m' → (id', s') ∈ m' →
     Writer.lastUsed s ≤ Writer.lastUsed s').
Proof.
  intros Hwf m'. unfold m'. rewrite Writer.manage_delete_all.
  set (rm := Writer.removable maxc m).
  destruct (Writer.removable_split maxc m) as (kept & Hperm & Hord). fold rm in Hperm, Hord.
  assert (NoDup (map fst (rm ++ kept))) as Hnd.
  { rewrite Hperm, Writer.ages_keys. done. }
  rewrite map_app in Hnd. apply NoDup_app in Hnd as (Hnd & Hdis & _).
  assert (∀ x, x ∈ rm ++ kept ↔ ∃ s, (x.1, s) ∈ m ∧ x.2 = Writer.lastUsed s) as Hages.
  { intros [k u]. rewrite Hperm. unfold Writer.ages. rewrite list_elem_of_fmap. split.
    - intros ([k' s] & ? & ?); simplify_eq; eauto.
    - intros (s & ? & ?); simpl in *; subst. by exists (k, s). }
  split_and!.
  - pose proof (Writer.removable_length maxc m) as Hl. fold rm in Hl.
    pose proof (OMap.length_delete_all (map fst rm) m Hwf Hnd) as Hd. rewrite length_map in Hd.
    assert (length (OMap.delete_all (map fst rm) m) + length rm = length m)%nat; [|lia].
    apply Hd. intros k Hk. apply list_elem_of_fmap in Hk as ([k' u] & -> & Hin).
    destruct (proj1 (Hages (k', u))) as (s & Hs & _); [apply elem_of_app; by left|].
    apply list_elem_of_fmap. by exists (k', s).
  - intros id s Hin. by apply OMap.delete_all_elem in Hin as [? _].
  - intros id s id' s' Hin Hout Hin'. rewrite OMap.delete_all_elem in Hout, Hin' by done.
    destruct Hin' as [Hin' Hk'].
    assert (id ∈ map fst rm) as Hid by (destruct (decide (id ∈ map fst rm)); [done|naive_solver]).
    apply list_elem_of_fmap in Hid as ([k u] & -> & Hrm). simpl in *.
    destruct (proj1 (Hages (k, u))) as (s1 & Hs1 & Hu); [apply elem_of_app; by left|].
    simpl in Hs1, Hu. subst u.
    assert (s1 = s) as -> by (apply (OMap.elem_get _ _ _ Hwf) in Hs1, Hin; congruence).
    apply (Hord (k, Writer.lastUsed s) (id', Writer.lastUsed s')); [done|].
    assert ((id', Writer.lastUsed s') ∈ rm ++ kept) as [Hr|?]%elem_of_app; [|destruct Hk'|done].
    + apply Hages. eauto.
    + apply list_elem_of_fmap. by exists (id', Writer.lastUsed s').
Qed.

Definition sample_sockets : OMap.t Writer.socket :=
  [("a"%string, Writer.Socket 5 false); ("b"%string, Writer.Socket 3 false);
   ("c"%string, Writer.Socket 9 false)].

Lemma tcp_manage_connections_witness :
  Z.of_nat (length (Writer.manageConnections 2 sample_sockets)) = 2 ∧
  Writer.manageConnections 2 sample_sockets =
    [("a"%string, Writer.Socket 5 false); ("c"%string, Writer.Socket 9 false)].
Proof.
  split; [|reflexivity].
  refine (eq_trans (proj1 (tcp_manage_connections 2 sample_sockets _)) _); [|reflexivity].
  unfold OMap.wf. apply (bool_decide_unpack _). vm_compute. exact I.
Defined.

(** Closing a socket that was already closed (a parser error is followed by
    the socket's own close event) removes the most recently connected socket
    from the reader's list, although that one is still open. *)
Theorem tcp_reader_double_close s l last :
  NoDup (l ++ [last]) → s ∈ l →
  Reader.closeSocket s (Reader.closeSocket s (l ++ [last])) =
  Arr.remove (Pos.eqb s) l.
Proof.
  intros Hnd Hs. apply list_elem_of_split in Hs as (l1 & l2 & ->).
  apply NoDup_app in Hnd as (Hnd & Hlast & _).
  apply NoDup_app in Hnd as (_ & H12 & Hnd). apply NoDup_cons in Hnd as [Hs2 _].
  assert (∀ y, y ∈ l1 → Pos.eqb s y = false) as H1.
  { intros y Hy. apply Pos.eqb_neq. intros ->. apply (H12 y Hy). left. }
  assert (∀ y, y ∈ l2 → Pos.eqb s y = false) as H2.
  { intros y Hy. apply Pos.eqb_neq. by intros ->. }
  assert (Pos.eqb s last = false) as Hsl.
  { apply Pos.eqb_neq. intros ->. apply (Hlast last); [|left]. apply elem_of_app. right; left. }
  unfold Reader.closeSocket. rewrite <- app_assoc. simpl. rewrite Reader.splice_hit.
  - rewrite app_assoc, Reader.splice_miss, Arr.remove_app_mid; auto using Pos.eqb_refl.
    intros y Hy. apply elem_of_app in Hy as [Hy|Hy%list_elem_of_singleton]; [|by subst].
    apply elem_of_app in Hy as [?|?]; auto.
  - done.
Qed.

Lemma tcp_reader_double_close_witness :
  (Reader.closeSocket 1 (Reader.closeSocket 1 ([1; 2] ++ [3])) = Arr.remove (Pos.eqb 1) [1; 2])%positive.
Proof.
  apply tcp_reader_double_close; [|left].
  apply (bool_decide_unpack _). vm_compute. exact I.
Defined.
