(* ===== verification/Strategies.v ===== *)
(** * Load-balancing strategies

    Models [src/strategies/]: [base.js], [round-robin.js], [random.js],
    [cpu-usage.js], [latency.js] and [shard.js].  A strategy is a state with a
    [select] operation; [Strategy] is the interface the endpoint list relies on
    and [StrategyLaws] the promise its clients are verified against.  lodash's
    [random], the MD5 digest, lodash's [get] and the [lru-cache] package are
    parameters. *)

From Stdlib Require Import ZArith Lia Bool QArith Ascii.
From stdpp Require Import base tactics list strings option.
From S2P Require Import Prelude.

Local Open Scope Z_scope.

(** What a strategy reads of an endpoint: its identity, its node id, and the
    load figures of its node. *)
Record ep_view := EpView {
  v_ref : positive;
  v_id : string;
  v_cpu : option Z;
  v_hostname : string
}.

(** What a strategy reads of the calling context. *)
Record call_ctx := CallCtx { c_params : json; c_meta : json }.

(** lodash's [random(lower, upper)]: the [k]-th draw of a call. *)
Notation random_source := (nat → Z → Z → Z).

Definition random_ok (random : random_source) : Prop :=
  ∀ k lo hi, lo ≤ hi → lo ≤ random k lo hi ≤ hi.

(** [list[i]] with an integer index *)
Definition at_index {A} (l : list A) (i : Z) : option A :=
  if i <? 0 then None else l !! Z.to_nat i.

Lemma at_index_in_range {A} (l : list A) i :
  0 ≤ i < Z.of_nat (length l) → ∃ x, at_index l i = Some x ∧ x ∈ l.
Proof.
  intros Hi. unfold at_index. rewrite (proj2 (Z.ltb_ge i 0)) by lia.
  destruct (lookup_lt_is_Some_2 l (Z.to_nat i)) as [x Hx]; [lia|].
  exists x. split; [done|]. apply list_elem_of_lookup. eauto.
Qed.

(** ** The interface *)

(** [BaseStrategy]: [select] on the available endpoints; [None] is an
    undefined result. *)
Class Strategy (S : Type) := {
  strategy_select : random_source → S → option call_ctx → list ep_view → option ep_view * S
}.

(** What [EndpointList] needs: on a non-empty list [select] answers one of its
    endpoints. *)
Class StrategyLaws (S : Type) `{Strategy S} := {
  select_member random s ctx l : random_ok random → l ≠ [] →
    ∃ ep, (strategy_select random s ctx l).1 = Some ep ∧ ep ∈ l
}.

(** Strategies some of which may answer nothing, and then never an endpoint that is not in the list *)
Class StrategySound (S : Type) `{Strategy S} := {
  lawful : S → bool;
  lawful_kept random s ctx l : lawful (strategy_select random s ctx l).2 = lawful s;
  select_sound random s ctx l : random_ok random → l ≠ [] →
    match (strategy_select random s ctx l).1 with Some ep => ep ∈ l | None => lawful s = false end
}.

#[export] Instance laws_sound {S} `{StrategyLaws S} : StrategySound S.
Proof.
  refine {| lawful _ := true |}; [done|]. intros random s ctx l Hr Hl.
  by destruct (select_member random s ctx l Hr Hl) as (ep & -> & ?).
Defined.

(** ** Round robin *)

Module RoundRobin.

Record t := RoundRobin { counter : nat }.

Definition init : t := RoundRobin 0.

Definition select (s : t) (l : list ep_view) : option ep_view * t :=
  let c := if (length l <=? counter s)%nat then 0%nat else counter s in
  (l !! c, RoundRobin (S c)).

(** The endpoints of [n] successive calls on the same list. *)
Fixpoint select_n (n : nat) (s : t) (l : list ep_view) : list (option ep_view) * t :=
  match n with
  | O => ([], s)
  | S n => let '(r, s') := select s l in let '(rs, s'') := select_n n s' l in (r :: rs, s'')
  end.

End RoundRobin.

#[export] Instance round_robin : Strategy RoundRobin.t :=
  {| strategy_select _ s _ l := RoundRobin.select s l |}.

#[export] Instance round_robin_laws : StrategyLaws RoundRobin.t.
Proof.
  constructor. intros random s ctx l _ Hl. simpl.
  set (c := if (length l <=? RoundRobin.counter s)%nat then 0%nat else _).
  assert (c < length l)%nat as Hc.
  { unfold c. destruct l; [done|]. destruct (Nat.leb_spec (length (e :: l)) (RoundRobin.counter s));
      simpl in *; lia. }
  destruct (lookup_lt_is_Some_2 l c Hc) as [x Hx]. exists x. split; [done|].
  apply list_elem_of_lookup. eauto.
Qed.

(** ** Random *)

Module Random.

Record t := Random {}.

Definition select (random : random_source) (l : list ep_view) : option ep_view :=
  at_index l (random 0%nat 0 (Z.of_nat (length l) - 1)).

End Random.

#[export] Instance random_strategy : Strategy Random.t :=
  {| strategy_select random s _ l := (Random.select random l, s) |}.

(** A draw over the indices of a non-empty list hits one of its elements. *)
Lemma random_index random k (l : list ep_view) :
  random_ok random → l ≠ [] →
  ∃ ep, at_index l (random k 0 (Z.of_nat (length l) - 1)) = Some ep ∧ ep ∈ l.
Proof.
  intros Hr Hl. apply at_index_in_range. assert (0 < length l)%nat by (destruct l; simpl; [done|lia]).
  pose proof (Hr k 0 (Z.of_nat (length l) - 1)). lia.
Qed.

#[export] Instance random_laws : StrategyLaws Random.t.
Proof. constructor. intros random s ctx l Hr Hl. by apply random_index. Qed.

(** ** Sampling strategies

    [cpu-usage.js] and [latency.js] share their scan of the list: [count]
    samples (the list itself in order when [count] is its length, random draws
    otherwise), each with a figure or none; the first figure under the threshold
    wins, else the smallest one seen, else a random endpoint. *)

Definition sample_count (sampleCount : Z) (l : list ep_view) : nat :=
  if (sampleCount <=? 0) || (Z.of_nat (length l) <? sampleCount) then length l
  else Z.to_nat sampleCount.

(** The endpoint the loop looks at in turn [i]. *)
Definition sample (random : random_source) (count : nat) (l : list ep_view) (i : nat)
    : option ep_view :=
  if (count =? length l)%nat then l !! i
  else at_index l (random i 0 (Z.of_nat (length l) - 1)).

Section scan.
Context {F : Type} (figure : ep_view → option F) (low : F → bool) (better : F → F → bool).

(** The loop from turn [i] on, [n] turns left, with the best endpoint so far;
    [inl] is an early return.  (A sample out of range would be a [TypeError];
    [sample_member] excludes it.) *)
Fixpoint scan (pick : nat → option ep_view) (n i : nat) (best : option (ep_view * F))
    : option ep_view + option (ep_view * F) :=
  match n with
  | O => inr best
  | S n =>
      match pick i with
      | None => inl None
      | Some ep =>
          match figure ep with
          | None => scan pick n (S i) best
          | Some f =>
              if low f then inl (Some ep)
              else
                let take := match best with None => true | Some (_, g) => better f g end in
                scan pick n (S i) (if take then Some (ep, f) else best)
          end
      end
  end.

Definition scan_select (sampleCount : Z) (random : random_source) (l : list ep_view)
    : option ep_view :=
  let count := sample_count sampleCount l in
  match scan (sample random count l) count 0 None with
  | inl r => r
  | inr (Some (m, _)) => Some m
  | inr None => at_index l (random count 0 (Z.of_nat (length l) - 1))
  end.

Lemma sample_count_le c l : (sample_count c l ≤ length l)%nat.
Proof. unfold sample_count. destruct (_ || _) eqn:E; [lia|]. to_prop. lia. Qed.

Lemma sample_member random count l i :
  random_ok random → l ≠ [] → (i < count)%nat → (count ≤ length l)%nat →
  ∃ ep, sample random count l i = Some ep ∧ ep ∈ l.
Proof.
  intros Hr Hl Hi Hc. unfold sample. destruct (count =? length l)%nat eqn:E; to_prop.
  - destruct (lookup_lt_is_Some_2 l i) as [x Hx]; [lia|]. exists x.
    split; [done|]. apply list_elem_of_lookup. eauto.
  - by apply random_index.
Qed.

(** What the loop can end with. *)
Lemma scan_result pick n i best :
  (∀ k, (i ≤ k < i + n)%nat → is_Some (pick k)) →
  match scan pick n i best with
  | inl r => ∃ ep f k, r = Some ep ∧ pick k = Some ep ∧ (i ≤ k < i + n)%nat ∧
               figure ep = Some f ∧ low f = true
  | inr b => ∀ k ep, (i ≤ k < i + n)%nat → pick k = Some ep →
               match figure ep with Some f => low f = false ∧ is_Some b | None => True end
  end ∧
  match scan pick n i best with
  | inr (Some (ep, f)) => best = Some (ep, f) ∨
      ∃ k, pick k = Some ep ∧ (i ≤ k < i + n)%nat ∧ figure ep = Some f
  | inr None => best = None
  | _ => True
  end.
Proof.
  revert i best. induction n as [|n IH]; intros i best Hp; simpl.
  - split; [intros; lia|]. destruct best as [[? ?]|]; auto.
  - destruct (Hp i) as [ep Hep]; [lia|]. rewrite Hep.
    assert (∀ k, (S i ≤ k < S i + n)%nat → is_Some (pick k)) as Hp' by (intros; apply Hp; lia).
    destruct (figure ep) as [f|] eqn:Hf.
    + destruct (low f) eqn:Hlow; [split; [|done]; exists ep, f, i; split_and!; done || lia|].
      set (b' := if _ : bool then _ else _).
      assert (is_Some b') as Hb' by (unfold b'; destruct best as [[? g]|]; [destruct (better f g)|]; by eexists).
      destruct (IH (S i) b' Hp') as [H1 H2].
      destruct (scan pick n (S i) b') as [r|[[m g]|]] eqn:Hs.
      * split; [|done]. destruct H1 as (e & g & k & ? & ? & ? & ? & ?). exists e, g, k. split_and!; done || lia.
      * split.
        -- intros k e Hk Hpk. destruct (decide (k = i)) as [->|]; [|apply (H1 k); [lia|done]].
           rewrite Hep in Hpk. simplify_eq. rewrite Hf. eauto.
        -- destruct H2 as [H2|(k & ? & ? & ?)]; [|right; exists k; split_and!; done || lia].
           assert (best = Some (m, g) ∨ (m = ep ∧ g = f)) as [->|[-> ->]]; [|by left|].
           { unfold b' in H2. destruct best as [[m' g']|]; [destruct (better f g')|];
               simplify_eq; auto. }
           right. exists i. split_and!; done || lia.
      * rewrite H2 in Hb'. by destruct Hb'.
    + destruct (IH (S i) best Hp') as [H1 H2].
      destruct (scan pick n (S i) best) as [r|[[m g]|]] eqn:Hs; (split;
        [| try (destruct H2 as [H2|(k & ? & ? & ?)]; [by left | right; exists k; split_and!; done || lia]);
           done]).
      * destruct H1 as (e & g & k & ? & ? & ? & ? & ?). exists e, g, k. split_and!; done || lia.
      * intros k e Hk Hpk. destruct (decide (k = i)) as [->|]; [|apply (H1 k); [lia|done]].
        rewrite Hep in Hpk. simplify_eq. by rewrite Hf.
      * intros k e Hk Hpk. destruct (decide (k = i)) as [->|]; [|apply (H1 k); [lia|done]].
        rewrite Hep in Hpk. simplify_eq. by rewrite Hf.
Qed.

Lemma scan_select_member sampleCount random l :
  random_ok random → l ≠ [] → ∃ ep, scan_select sampleCount random l = Some ep ∧ ep ∈ l.
Proof.
  intros Hr Hl. unfold scan_select. set (count := sample_count sampleCount l).
  assert (∀ k ep, (0 ≤ k < 0 + count)%nat → sample random count l k = Some ep → ep ∈ l) as Hin.
  { intros k ep Hk Hs. destruct (sample_member random count l k) as (x & Hx & ?);
      [done|done|lia|apply sample_count_le|]. congruence. }
  destruct (scan_result (sample random count l) count 0 None) as [H1 H2].
  { intros k Hk. destruct (sample_member random count l k) as (x & Hx & ?);
      [done|done|lia|apply sample_count_le|]. eauto. }
  destruct (scan _ count 0 None) as [r|[[m f]|]].
  - destruct H1 as (ep & f & k & -> & ? & ? & ?). eauto.
  - destruct H2 as [?|(k & ? & ? & ?)]; [done|]. eauto.
  - by apply random_index.
Qed.

(** When [better] is the strict part of an order on the figures that are not
    [low], the loop ends with a smallest figure. *)
Section order.
Context (le : F → F → Prop) `{!PreOrder le}.
Context (better_true : ∀ f g, low f = false → low g = false → better f g = true → le f g).
Context (better_false : ∀ f g, low f = false → low g = false → better f g = false → le g f).

Lemma scan_min pick n i best m f :
  match best with Some (_, g) => low g = false | None => True end →
  scan pick n i best = inr (Some (m, f)) →
  low f = false ∧
  (match best with Some (_, g) => le f g | None => True end) ∧
  (∀ k ep g, (i ≤ k < i + n)%nat → pick k = Some ep → figure ep = Some g → le f g).
Proof.
  revert i best. induction n as [|n IH]; intros i best Hbest Hs; simpl in Hs.
  - simplify_eq. split_and!; [done|reflexivity|intros; lia].
  - destruct (pick i) as [ep|] eqn:Hep; [|done]. destruct (figure ep) as [h|] eqn:Hf.
    + destruct (low h) eqn:Hlow; [done|].
      set (b' := if _ : bool then _ else _) in Hs.
      destruct (IH (S i) b') as (Hm & Hb & Hall); [|done|].
      { unfold b'. destruct best as [[? g]|]; [destruct (better h g)|]; done. }
      assert (le f h ∧ match best with Some (_, g) => le f g | None => True end) as [Hh Hg].
      { unfold b' in Hb. destruct best as [[? g]|]; [destruct (better h g) eqn:Eb|]; split; try done.
        - etransitivity; [done|]. by apply better_true.
        - etransitivity; [done|]. by apply better_false. }
      split_and!; [done|done|]. intros k e g Hk Hpk Hfe. destruct (decide (k = i)) as [->|].
      * congruence.
      * apply (Hall k e); [lia|done..].
    + destruct (IH (S i) best) as (Hm & Hb & Hall); [done|done|]. split_and!; [done|done|].
      intros k e g Hk Hpk Hfe. destruct (decide (k = i)) as [->|]; [congruence|].
      apply (Hall k e); [lia|done..].
Qed.

(** A complete scan answers a [low] endpoint, or one with a smallest figure of
    the list, or (no figure known) any of its endpoints. *)
Lemma scan_select_best sampleCount random l :
  random_ok random → l ≠ [] → sampleCount ≤ 0 ∨ Z.of_nat (length l) ≤ sampleCount →
  ∃ ep, scan_select sampleCount random l = Some ep ∧ ep ∈ l ∧
    ∀ x g, x ∈ l → figure x = Some g →
      ∃ f, figure ep = Some f ∧ (low f = true ∨ le f g).
Proof.
  intros Hr Hl Hc. destruct (scan_select_member sampleCount random l Hr Hl) as (ep & Hep & Hin).
  exists ep. split_and!; [done|done|]. intros x g Hx Hg.
  assert (sample_count sampleCount l = length l) as Hcount.
  { unfold sample_count. destruct (_ || _) eqn:E; [done|]. to_prop. lia. }
  unfold scan_select in Hep. rewrite Hcount in Hep.
  assert (∀ k, sample random (length l) l k = l !! k) as Hsample.
  { intros k. unfold sample. by rewrite Nat.eqb_refl. }
  apply list_elem_of_lookup in Hx as [k Hk]. pose proof (lookup_lt_Some _ _ _ Hk).
  destruct (scan_result (sample random (length l) l) (length l) 0 None) as [H1 H2].
  { intros j Hj. rewrite Hsample. apply lookup_lt_is_Some_2. lia. }
  destruct (scan _ (length l) 0 None) as [r|[[m f]|]] eqn:Hs.
  - destruct H1 as (e & f & j & -> & _ & _ & Hf & Hlow). simplify_eq. eauto.
  - simplify_eq. destruct H2 as [?|(j & _ & _ & Hf)]; [done|]. exists f. split; [done|]. right.
    apply (scan_min (sample random (length l) l) (length l) 0 None ep f) with (k := k) (ep := x);
      rewrite ?Hsample; done || lia.
  - specialize (H1 k x). rewrite Hsample, Hg in H1. destruct H1 as [_ [? ?]]; done || lia.
Qed.

End order.

End scan.

(** ** Lowest CPU usage *)

Module CpuUsage.

Record opts := Opts { sampleCount : Z; lowCpuUsage : Z }.

Definition default_opts : opts := Opts 3 10.

(** [cpu < lowCpuUsage] returns at once; [cpu < minEp.node.cpu] replaces [minEp]. *)
Definition select (o : opts) (random : random_source) (l : list ep_view) : option ep_view :=
  scan_select v_cpu (λ cpu, cpu <? lowCpuUsage o) (λ cpu min, cpu <? min) (sampleCount o) random l.

End CpuUsage.

#[export] Instance cpu_usage : Strategy CpuUsage.opts :=
  {| strategy_select random o _ l := (CpuUsage.select o random l, o) |}.

#[export] Instance cpu_usage_laws : StrategyLaws CpuUsage.opts.
Proof. constructor. intros random o ctx l Hr Hl. by apply scan_select_member. Qed.

(** ** Lowest latency

    One master instance per broker measures; every instance (the master too)
    listens to ["$node.latencySlave"] and keeps the averages it selects by. *)

Module Latency.

Record opts := Opts { sampleCount : Z; lowLatency : Z; collectCount : Z }.

Definition default_opts : opts := Opts 5 10 5.

Record host_info := HostInfo { historicLatency : list Z; nodeList : list string }.

(** What the constructor made of the instance: without a transit it registers no
    listener; the first other instance claims the master role. *)
Inductive role := NoTransit | Master | Slave.

Record t := Latency {
  l_opts : opts;
  l_role : role;
  hostMap : OMap.t host_info;
  hostAvgLatency : OMap.t Q
}.

Definition create (o : opts) (transit : bool) (masterListeners : nat) : t :=
  Latency o (if transit then if (masterListeners =? 0)%nat then Master else Slave else NoTransit)
    [] [].

(** [this.broker.localBus.emit(...)] of the master *)
Inductive bus_event :=
| LatencySlave (hostname : string) (avgLatency : Q)
| RemoveHost (hostname : string).

(** [getHostLatency(node)]: the entry of the node's host, created when missing. *)
Definition getHostLatency (hostname id : string) (m : OMap.t host_info)
    : host_info * OMap.t host_info :=
  match OMap.get hostname m with
  | Some info => (info, m)
  | None => let info := HostInfo [] [id] in (info, OMap.set hostname info m)
  end.

Definition sum (l : list Z) : Z := foldr Z.add 0 l.

Definition average (l : list Z) : Q := Qmake (sum l) (Pos.of_nat (length l)).

(** [processPong] of a known node, after the sample [elapsedTime] arrived. *)
Definition processPong (hostname id : string) (elapsedTime : Z) (s : t) : t * bus_event :=
  let '(info, m) := getHostLatency hostname id (hostMap s) in
  let old :=
    if collectCount (l_opts s) - 1 <? Z.of_nat (length (historicLatency info))
    then tail (historicLatency info) else historicLatency info in
  let historic := old ++ [elapsedTime] in
  (Latency (l_opts s) (l_role s) (OMap.set hostname (HostInfo historic (nodeList info)) m)
     (hostAvgLatency s),
   LatencySlave hostname (average historic)).

(** [addNode] on ["$node.connected"] *)
Definition addNode (hostname id : string) (s : t) : t :=
  let '(info, m) := getHostLatency hostname id (hostMap s) in
  let ids := if bool_decide (id ∈ nodeList info) then nodeList info else nodeList info ++ [id] in
  Latency (l_opts s) (l_role s) (OMap.set hostname (HostInfo (historicLatency info) ids) m)
    (hostAvgLatency s).

(** [removeHostMap] on ["$node.disconnected"] *)
Definition removeHostMap (hostname id : string) (s : t) : t * list bus_event :=
  match OMap.get hostname (hostMap s) with
  | None => (s, [])
  | Some info =>
      let ids := Arr.filter (λ x, negb (String.eqb x id)) (nodeList info) in
      if (length ids =? 0)%nat then
        (Latency (l_opts s) (l_role s) (OMap.delete hostname (hostMap s)) (hostAvgLatency s),
         [RemoveHost hostname])
      else
        (Latency (l_opts s) (l_role s)
           (OMap.set hostname (HostInfo (historicLatency info) ids) (hostMap s))
           (hostAvgLatency s), [])
  end.

(** The listeners the constructor registers: [updateLatency] on every instance,
    [removeHostLatency] on the slaves only. *)
Definition receive (e : bus_event) (s : t) : t :=
  match e with
  | LatencySlave h avg =>
      match l_role s with
      | NoTransit => s
      | _ => Latency (l_opts s) (l_role s) (hostMap s) (OMap.set h avg (hostAvgLatency s))
      end
  | RemoveHost h =>
      match l_role s with
      | Slave => Latency (l_opts s) (l_role s) (hostMap s) (OMap.delete h (hostAvgLatency s))
      | _ => s
      end
  end.

Definition Qltb (a b : Q) : bool := negb (Qle_bool b a).

(** [epLatency < lowLatency] returns at once; [!minLatency || epLatency < minLatency]
    replaces the best. *)
Definition select (s : t) (random : random_source) (l : list ep_view) : option ep_view :=
  scan_select (λ ep, OMap.get (v_hostname ep) (hostAvgLatency s))
    (λ lat, Qltb lat (inject_Z (lowLatency (l_opts s))))
    (λ lat min, Qeq_bool min 0 || Qltb lat min) (sampleCount (l_opts s)) random l.

End Latency.

#[export] Instance latency : Strategy Latency.t :=
  {| strategy_select random s _ l := (Latency.select s random l, s) |}.

#[export] Instance latency_laws : StrategyLaws Latency.t.
Proof. constructor. intros random s ctx l Hr Hl. by apply scan_select_member. Qed.

(** ** Sharding by consistent hashing *)

Module Shard.

(** The [lru-cache] package, as far as the strategy relies on it: an entry found
    after [set] is the one set or an older one; [clear] forgets all. *)
Class LruCache (C : Type) := {
  cache_get : string → C → option string;
  cache_set : string → string → C → C;
  cache_clear : C → C
}.

Class LruCacheLaws (C : Type) `{LruCache C} := {
  cache_get_set k v c k' w :
    cache_get k' (cache_set k v c) = Some w → (k' = k ∧ w = v) ∨ cache_get k' c = Some w;
  cache_get_clear k c : cache_get k (cache_clear c) = None
}.

Inductive shard_key :=
| NoKey
| KeyFn (f : call_ctx → json)
| KeyPath (path : string).

Record opts := Opts { shardKey : shard_key; vnodes : nat; ringSize : option Z }.

Section shard.
Context {C : Type} `{LruCache C}.
(** lodash's [get], the first 32 bits of the MD5 digest, and [toString]. *)
Context (lodash_get : json → string → json) (md5_32 : string → Z) (to_string : json → string).

Record t := Shard {
  s_opts : opts;
  cache : C;
  needRebuild : bool;
  ring : list (Z * string)
}.

(** [broker.localBus.on("$node.**", ...)] *)
Definition nodeEvent (s : t) : t := Shard (s_opts s) (cache s) true (ring s).

Definition getKeyFromContext (s : t) (ctx : call_ctx) : json :=
  match shardKey (s_opts s) with
  | NoKey => JNull
  | KeyFn f => f ctx
  | KeyPath p =>
      match p with
      | EmptyString => JNull
      | String c rest =>
          if Ascii.eqb c "#"%char then lodash_get (c_meta ctx) rest else lodash_get (c_params ctx) p
      end
  end.

(** The ring size in use: unset and [0] are falsy. *)
Definition sized (o : opts) : option Z :=
  match ringSize o with Some r => if r =? 0 then None else Some r | None => None end.

Definition getHash (s : t) (key : string) : Z :=
  match sized (s_opts s) with
  | Some r => Z.rem (md5_32 key) r
  | None => md5_32 key
  end.

(** The first ring entry whose key is not below the hash. *)
Definition ring_lookup (hash : Z) (r : list (Z * string)) : option string :=
  snd <$> Arr.find (λ e, hash <=? e.1) r.

(** Look the key up in the cache, then in the ring; a hit in the ring is cached. *)
Definition getNodeIDByKey (s : t) (key : string) : option string * t :=
  match (c ← cache_get key (cache s); if String.eqb c "" then None else Some c) with
  | Some cached => (Some cached, s)
  | None =>
      match ring_lookup (getHash s key) (ring s) with
      | Some id => (Some id, Shard (s_opts s) (cache_set key id (cache s)) (needRebuild s) (ring s))
      | None => (None, s)
      end
  end.

(** [Array.prototype.sort] on strings *)
Fixpoint insert_string (x : string) (l : list string) : list string :=
  match l with
  | [] => [x]
  | y :: l => if String.leb x y then x :: y :: l else y :: insert_string x l
  end.

Definition sort_strings (l : list string) : list string := foldr insert_string [] l.

(** The ring of the sorted ids: [vnodes] rounds over them, the [k]-th entry at
    the end of the [k]-th slice.  (The slice is an exact fraction here.) *)
Definition build_ring (o : opts) (ids : list string) : list (Z * string) :=
  let arr := sort_strings ids in
  let total := Z.of_nat (length arr * vnodes o) in
  let size := default (2^32) (sized o) in
  let r := imap (λ k id, (size * (Z.of_nat k + 1) / total, id))
             (concat (replicate (vnodes o) arr)) in
  (* Set the latest value to the last slice. *)
  match list.last r with
  | Some (_, id) => take (length r - 1) r ++ [(size, id)]
  | None => r
  end.

(** [rebuild(list)]; [None] is the [TypeError] on an empty ring. *)
Definition rebuild (l : list ep_view) (s : t) : option t :=
  let r := build_ring (s_opts s) (map v_id l) in
  match r with
  | [] => None
  | _ => Some (Shard (s_opts s) (cache_clear (cache s)) false r)
  end.

Definition select (random : random_source) (s : t) (ctx : call_ctx) (l : list ep_view)
    : option ep_view * t :=
  let pick_random s := (at_index l (random 0%nat 0 (Z.of_nat (length l) - 1)), s) in
  let key := getKeyFromContext s ctx in
  if is_null key then pick_random s
  else
    match (if needRebuild s then rebuild l s else Some s) with
    | None => (None, s)
    | Some s =>
        match getNodeIDByKey s (to_string key) with
        | (Some nodeID, s) =>
            if String.eqb nodeID "" then pick_random s
            else (Arr.find (λ ep, String.eqb (v_id ep) nodeID) l, s)
        | (None, s) => pick_random s
        end
    end.

(** *** The ring covers the hash space *)

Lemma insert_string_elem x y l : y ∈ insert_string x l ↔ y = x ∨ y ∈ l.
Proof.
  induction l as [|z l IH]; simpl; [by rewrite elem_of_cons|].
  destruct (String.leb x z); rewrite !elem_of_cons, ?IH, ?elem_of_cons; tauto.
Qed.

Lemma sort_strings_elem x l : x ∈ sort_strings l ↔ x ∈ l.
Proof.
  induction l as [|y l IH]; simpl; [done|]. rewrite insert_string_elem, elem_of_cons, IH. done.
Qed.

Lemma sort_strings_nil l : sort_strings l = [] → l = [].
Proof. destruct l as [|x l]; [done|]. simpl. destruct (sort_strings l); simpl; [done|].
  destruct (String.leb x s); done. Qed.

(** An entry of the ring carries one of the ids; the last one is at the size. *)
Lemma build_ring_spec o ids :
  ids ≠ [] → (0 < vnodes o)%nat →
  ∃ r id, build_ring o ids = r ++ [(default (2^32) (sized o), id)] ∧
    ∀ e, e ∈ build_ring o ids → e.2 ∈ ids.
Proof.
  intros Hids Hv. unfold build_ring. set (arr := sort_strings ids).
  set (r0 := imap _ _).
  assert (∀ e, e ∈ r0 → e.2 ∈ ids) as Hin.
  { intros [k id] He. unfold r0 in He. apply elem_of_lookup_imap in He as (i & id' & Heq & Hlk).
    simplify_eq. simpl. apply list_elem_of_lookup_2 in Hlk. apply list_elem_of_In, in_concat in Hlk as (l & Hl & Hid).
    apply list_elem_of_In, elem_of_replicate in Hl as [-> _].
    by rewrite <- sort_strings_elem, list_elem_of_In. }
  destruct (list.last r0) as [[k id]|] eqn:Hlast.
  - exists (take (length r0 - 1) r0), id. split; [done|]. intros e He.
    apply elem_of_app in He as [He|He%list_elem_of_singleton].
    + apply elem_of_take in He as (i & Hi & _). by eapply Hin, list_elem_of_lookup_2.
    + subst e. apply last_Some_elem_of in Hlast. by apply Hin in Hlast.
  - apply last_None in Hlast. exfalso. apply (f_equal length) in Hlast.
    unfold r0 in Hlast. rewrite length_imap in Hlast.
    destruct arr as [|a arr'] eqn:Ea; [by apply sort_strings_nil in Ea|].
    destruct (vnodes o); [lia|]. done.
Qed.

Lemma find_last {A} (p : A → bool) l x : p x = true → is_Some (Arr.find p (l ++ [x])).
Proof.
  intros Hx. apply Arr.find_is_Some. exists x. split; [|done]. apply elem_of_app. right. left.
Qed.

Lemma ring_lookup_total o ids hash :
  ids ≠ [] → (0 < vnodes o)%nat → hash ≤ default (2^32) (sized o) →
  ∃ id, ring_lookup hash (build_ring o ids) = Some id ∧ id ∈ ids.
Proof.
  intros Hids Hv Hh. destruct (build_ring_spec o ids Hids Hv) as (r & id & Heq & Hin).
  unfold ring_lookup. destruct (Arr.find _ (build_ring o ids)) as [e|] eqn:Hf.
  - exists e.2. split; [done|]. apply Arr.find_Some in Hf as [He _]. by apply Hin.
  - destruct (find_last (λ e, hash <=? e.1) r (default (2^32) (sized o), id)) as [e He].
    { simpl. by apply Z.leb_le. }
    rewrite Heq in Hf. congruence.
Qed.

(** The strategy's state serves the ring of [ids] and its cache agrees with it. *)
Definition serves (ids : list string) (s : t) : Prop :=
  needRebuild s = false ∧ ring s = build_ring (s_opts s) ids ∧
  ∀ k id, cache_get k (cache s) = Some id → ring_lookup (getHash s k) (ring s) = Some id.

(** The node that owns a key in the ring of [ids]. *)
Definition owner (s : t) (ids : list string) (key : string) : option string :=
  ring_lookup (getHash s key) (build_ring (s_opts s) ids).

Lemma getHash_le s key : (∀ k, 0 ≤ md5_32 k < 2^32) →
  (∀ r, ringSize (s_opts s) = Some r → 0 ≤ r) →
  getHash s key ≤ default (2^32) (sized (s_opts s)).
Proof.
  intros Hmd5 Hr. unfold getHash, sized. specialize (Hmd5 key).
  destruct (ringSize (s_opts s)) as [r|] eqn:Er; simpl; [|lia].
  destruct (r =? 0) eqn:E; to_prop; simpl; [lia|].
  specialize (Hr r eq_refl). pose proof (Z.rem_bound_pos (md5_32 key) r). lia.
Qed.

Context `{!LruCacheLaws C}.

(** Looking a key up answers its owner and keeps the state serving. *)
Lemma getNodeIDByKey_serves ids s key :
  serves ids s → "" ∉ ids → ids ≠ [] → (0 < vnodes (s_opts s))%nat →
  getHash s key ≤ default (2^32) (sized (s_opts s)) →
  (getNodeIDByKey s key).1 = owner s ids key ∧ serves ids (getNodeIDByKey s key).2 ∧
  s_opts (getNodeIDByKey s key).2 = s_opts s.
Proof.
  intros (Hn & Hring & Hcache) Hempty Hids Hv Hh. unfold getNodeIDByKey, owner.
  destruct (ring_lookup_total (s_opts s) ids (getHash s key) Hids Hv Hh) as (id & Hid & Hin).
  destruct (cache_get key (cache s)) as [c|] eqn:Hc; simpl.
  - apply Hcache in Hc as Hlk. rewrite Hring in Hlk.
    destruct (String.eqb c "") eqn:E; to_prop; [|by rewrite Hlk; repeat split].
    congruence.
  - rewrite Hring, Hid. unfold serves. simpl. split_and!; try done. intros k id' Hk.
    apply cache_get_set in Hk as [[-> ->]|Hk]; [done|]. apply Hcache in Hk. by rewrite Hring in Hk.
Qed.

Lemma rebuild_serves l s :
  l ≠ [] → (0 < vnodes (s_opts s))%nat →
  ∃ s', rebuild l s = Some s' ∧ serves (map v_id l) s' ∧ s_opts s' = s_opts s.
Proof.
  intros Hl Hv. unfold rebuild.
  destruct (build_ring_spec (s_opts s) (map v_id l)) as (r & id & Heq & _); [by destruct l|done|].
  destruct (build_ring _ _) as [|e r'] eqn:Er; [by destruct r|].
  eexists. split; [done|]. split; [|done]. split_and!; [done|simpl; congruence|].
  intros k id' Hk. simpl in Hk. by rewrite cache_get_clear in Hk.
Qed.

End shard.

Arguments t : clear implicits.
Arguments Shard {C}.
Arguments s_opts {C}.
Arguments cache {C}.
Arguments needRebuild {C}.
Arguments ring {C}.

End Shard.

(** ** Theorems *)

Section round_robin_fairness.

(** Calls that do not pass the end of the list walk it in order. *)
Lemma select_n_walk k c l : (c + k ≤ length l)%nat →
  RoundRobin.select_n k (RoundRobin.RoundRobin c) l =
  (map Some (take k (drop c l)), RoundRobin.RoundRobin (c + k)).
Proof.
  revert c. induction k as [|k IH]; intros c Hk; simpl; [by rewrite Nat.add_0_r|].
  unfold RoundRobin.select. simpl. rewrite (proj2 (Nat.leb_gt _ _)) by lia.
  rewrite IH by lia. destruct (lookup_lt_is_Some_2 l c) as [x Hx]; [lia|]. rewrite Hx.
  rewrite (drop_S l x c) by done. simpl. repeat f_equal. lia.
Qed.

Lemma select_n_app m n s l :
  RoundRobin.select_n (m + n) s l =
  let '(r1, s1) := RoundRobin.select_n m s l in
  let '(r2, s2) := RoundRobin.select_n n s1 l in (r1 ++ r2, s2).
Proof.
  revert s. induction m as [|m IH]; intros s; simpl.
  - by destruct (RoundRobin.select_n n s l).
  - rewrite IH. destruct (RoundRobin.select_n m _ l) as [r1 s1].
    by destruct (RoundRobin.select_n n s1 l).
Qed.

(** A counter past the end behaves as [0]. *)
Lemma select_n_reset n c l : (length l ≤ c)%nat → (0 < n)%nat →
  RoundRobin.select_n n (RoundRobin.RoundRobin c) l =
  RoundRobin.select_n n (RoundRobin.RoundRobin 0) l.
Proof.
  intros Hc Hn. destruct n; [lia|]. simpl. unfold RoundRobin.select. simpl.
  rewrite (proj2 (Nat.leb_le _ _)) by lia. by destruct l.
Qed.

End round_robin_fairness.

(** Round robin is fair: whatever the counter, as many successive calls as
    the list has endpoints answer every endpoint exactly once. *)
Theorem round_robin_fair s l :
  (RoundRobin.select_n (length l) s l).1 ≡ₚ map Some l.
Proof.
  destruct s as [c]. destruct (decide (length l = 0)%nat) as [H0|H0].
  { destruct l; [done | simpl in H0; lia]. }
  destruct (decide (c < length l)%nat) as [Hc|Hc].
  - replace (length l) with ((length l - c) + c)%nat at 1 by lia.
    rewrite select_n_app, select_n_walk by lia.
    replace (c + (length l - c))%nat with (length l) by lia.
    destruct (decide (c = 0)%nat) as [->|Hc0].
    { simpl. rewrite app_nil_r, drop_0, take_ge by lia. done. }
    rewrite select_n_reset, select_n_walk by lia. simpl. rewrite drop_0.
    rewrite (take_ge (drop c l)) by (rewrite length_drop; lia).
    rewrite <- map_app. apply Permutation_map. rewrite Permutation_app_comm. by rewrite take_drop.
  - rewrite select_n_reset, select_n_walk by lia. simpl. by rewrite drop_0, take_ge by lia.
Qed.

(** The CPU strategy, when it looks at the whole list, answers an endpoint
    of it whose node is under [lowCpuUsage] or has the smallest CPU usage of all
    nodes that reported one. *)
Theorem cpu_usage_best o random l :
  random_ok random → l ≠ [] →
  CpuUsage.sampleCount o ≤ 0 ∨ Z.of_nat (length l) ≤ CpuUsage.sampleCount o →
  ∃ ep, CpuUsage.select o random l = Some ep ∧ ep ∈ l ∧
    ∀ x c, x ∈ l → v_cpu x = Some c →
      ∃ c', v_cpu ep = Some c' ∧ (c' < CpuUsage.lowCpuUsage o ∨ c' ≤ c).
Proof.
  intros Hr Hl Hc.
  destruct (scan_select_best v_cpu (λ cpu, cpu <? CpuUsage.lowCpuUsage o) (λ cpu min, cpu <? min)
    Z.le) with (sampleCount := CpuUsage.sampleCount o) (random := random) (l := l)
    as (ep & Hep & Hin & Hmin); [intros; lia..|done|done|done|].
  exists ep. split_and!; [done|done|]. intros x c Hx Hcx.
  destruct (Hmin x c Hx Hcx) as (c' & Hc' & Ho). exists c'. split; [done|].
  rewrite Z.ltb_lt in Ho. done.
Qed.

(** [random] as a constant draw of the lower bound, for concrete runs. *)
Definition draw_low : random_source := λ _ lo _, lo.

Lemma draw_low_ok : random_ok draw_low.
Proof. unfold random_ok, draw_low. intros; lia. Qed.

Lemma cpu_usage_best_witness :
  let l := [EpView 1 "a" (Some 40) "h"; EpView 2 "b" None "h"; EpView 3 "c" (Some 25) "h"] in
  ∃ ep, CpuUsage.select CpuUsage.default_opts draw_low l = Some ep ∧ ep ∈ l ∧
    ∀ x c, x ∈ l → v_cpu x = Some c →
      ∃ c', v_cpu ep = Some c' ∧ (c' < CpuUsage.lowCpuUsage CpuUsage.default_opts ∨ c' ≤ c).
Proof.
  apply cpu_usage_best; [exact draw_low_ok | discriminate | right; vm_compute; discriminate].
Defined.

Lemma getHostLatency_length hostname id m n :
  0 ≤ n →
  (∀ info, OMap.get hostname m = Some info →
     Z.of_nat (length (Latency.historicLatency info)) ≤ n) →
  Z.of_nat (length (Latency.historicLatency (Latency.getHostLatency hostname id m).1)) ≤ n.
Proof.
  intros Hn Hb. unfold Latency.getHostLatency.
  destruct (OMap.get hostname m) as [i|]; simpl; [by apply Hb|lia].
Qed.

(** The latency master averages a bounded window: after any sample the
    host's history is non-empty and at most [collectCount] long (at most one for
    a limit below one) provided it was before, it ends with the new sample, and
    the average every listening instance stores is the mean of that history. *)
Theorem latency_window hostname id elapsed s s' e :
  (∀ info, OMap.get hostname (Latency.hostMap s) = Some info →
     Z.of_nat (length (Latency.historicLatency info)) ≤
       Z.max 1 (Latency.collectCount (Latency.l_opts s))) →
  Latency.processPong hostname id elapsed s = (s', e) →
  ∃ info old, OMap.get hostname (Latency.hostMap s') = Some info ∧
    Latency.historicLatency info = old ++ [elapsed] ∧
    Z.of_nat (length (Latency.historicLatency info)) ≤
      Z.max 1 (Latency.collectCount (Latency.l_opts s)) ∧
    ∀ r, Latency.l_role r ≠ Latency.NoTransit →
      OMap.get hostname (Latency.hostAvgLatency (Latency.receive e r)) =
      Some (Qmake (Latency.sum (Latency.historicLatency info))
              (Pos.of_nat (length (Latency.historicLatency info)))).
Proof.
  intros Hb Hp. unfold Latency.processPong in Hp.
  pose proof (getHostLatency_length hostname id (Latency.hostMap s) _
    (Z.le_trans 0 1 _ ltac:(done) (Z.le_max_l 1 _)) Hb) as Hlen.
  destruct (Latency.getHostLatency hostname id (Latency.hostMap s)) as [info m]. simpl in Hlen.
  simplify_eq.
  set (old := if _ : bool then _ else _).
  exists (Latency.HostInfo (old ++ [elapsed]) (Latency.nodeList info)), old. simpl.
  split_and!; [apply OMap.get_set_eq|done| |].
  - rewrite length_app. simpl. unfold old. destruct (_ <? _) eqn:E; to_prop; [|lia].
    destruct (Latency.historicLatency info); simpl in *; lia.
  - intros r Hr. destruct (Latency.l_role r); simpl; [done|apply OMap.get_set_eq..].
Qed.

Lemma latency_window_witness :
  let s := Latency.Latency (Latency.Opts 5 10 2) Latency.Master
             [("h", Latency.HostInfo [7; 9] ["a"])]%string [] in
  ∃ info old, OMap.get "h" (Latency.hostMap (Latency.processPong "h" "a" 4 s).1) = Some info ∧
    Latency.historicLatency info = old ++ [4] ∧
    Z.of_nat (length (Latency.historicLatency info)) ≤ Z.max 1 2 ∧
    ∀ r, Latency.l_role r ≠ Latency.NoTransit →
      OMap.get "h" (Latency.hostAvgLatency (Latency.receive (Latency.processPong "h" "a" 4 s).2 r)) =
      Some (Qmake (Latency.sum (Latency.historicLatency info))
              (Pos.of_nat (length (Latency.historicLatency info)))).
Proof.
  intros s. apply (latency_window "h" "a" 4 s); [|apply surjective_pairing].
  intros info Hi. injection Hi as <-. vm_compute. discriminate.
Defined.

(** The instance that claimed the master role keeps a vanished host's
    average: when the last node of a host disconnects, every slave forgets the
    host but the master's own selections still use its old latency. *)
Theorem latency_master_keeps_host hostname id s info avg :
  Latency.l_role s = Latency.Master →
  OMap.get hostname (Latency.hostMap s) = Some info → Latency.nodeList info = [id] →
  OMap.get hostname (Latency.hostAvgLatency s) = Some avg →
  let '(s', es) := Latency.removeHostMap hostname id s in
  es = [Latency.RemoveHost hostname] ∧
  OMap.get hostname (Latency.hostAvgLatency (foldr Latency.receive s' es)) = Some avg ∧
  (∀ r, Latency.l_role r = Latency.Slave → OMap.wf (Latency.hostAvgLatency r) →
     OMap.get hostname (Latency.hostAvgLatency (foldr Latency.receive r es)) = None).
Proof.
  intros Hm Hinfo Hids Havg. unfold Latency.removeHostMap. rewrite Hinfo, Hids. simpl.
  rewrite String.eqb_refl. simpl. split_and!; [done|by rewrite Hm|].
  intros r Hr Hwf. rewrite Hr. simpl. by apply OMap.get_delete_eq.
Qed.

Lemma latency_master_keeps_host_witness :
  let s := Latency.Latency Latency.default_opts Latency.Master
             [("h", Latency.HostInfo [7] ["a"])]%string [("h", 7 # 1)%Q]%string in
  let '(s', es) := Latency.removeHostMap "h" "a" s in
  es = [Latency.RemoveHost "h"] ∧
  OMap.get "h" (Latency.hostAvgLatency (foldr Latency.receive s' es)) = Some (7 # 1)%Q ∧
  (∀ r, Latency.l_role r = Latency.Slave → OMap.wf (Latency.hostAvgLatency r) →
     OMap.get "h" (Latency.hostAvgLatency (foldr Latency.receive r es)) = None).
Proof.
  apply (latency_master_keeps_host "h" "a" _ (Latency.HostInfo [7] ["a"]%string)); reflexivity.
Defined.

Section shard_theorems.
Context {C : Type} `{Shard.LruCacheLaws C}.
Context (lodash_get : json → string → json) (md5_32 : string → Z) (to_string : json → string).
Context (md5_range : ∀ k, 0 ≤ md5_32 k < 2^32).

#[local] Abbreviation select := (Shard.select lodash_get md5_32 to_string).
#[local] Abbreviation key_of := (Shard.getKeyFromContext lodash_get).

(** With a key, [select] routes by the ring it serves after the possible rebuild. *)
Lemma select_serving random s ctx l ids :
  is_null (key_of s ctx) = false → Shard.serves md5_32 ids s → "" ∉ ids → ids ≠ [] → (0 < Shard.vnodes (Shard.s_opts s))%nat →
  (∀ r, Shard.ringSize (Shard.s_opts s) = Some r → 0 ≤ r) →
  ∃ id, Shard.owner md5_32 s ids (to_string (key_of s ctx)) = Some id ∧ id ∈ ids ∧
    (select random s ctx l).1 = Arr.find (λ ep, String.eqb (v_id ep) id) l ∧
    Shard.serves md5_32 ids (select random s ctx l).2 ∧
    Shard.s_opts (select random s ctx l).2 = Shard.s_opts s.
Proof.
  intros Hkey Hs Hempty Hids Hv Hr. unfold Shard.select.
  rewrite Hkey, (proj1 Hs).
  set (key := to_string _).
  pose proof (Shard.getHash_le md5_32 s key md5_range Hr) as Hh.
  destruct (Shard.getNodeIDByKey_serves md5_32 ids s key) as (Hid & Hs' & Ho); [done..|].
  destruct (Shard.ring_lookup_total md5_32 (Shard.s_opts s) ids _ Hids Hv Hh) as (id & Hlk & Hin).
  exists id. unfold Shard.owner in *. rewrite Hlk in *.
  destruct (Shard.getNodeIDByKey md5_32 s key) as [o s']. simpl in *. subst o.
  destruct (String.eqb id "") eqn:E; to_prop; [congruence|]. done.
Qed.

(** [list.find(ep => ep.id == id)] succeeds when some endpoint has the id. *)
Lemma find_by_id id (l : list ep_view) e : e ∈ l → v_id e = id →
  ∃ ep, Arr.find (λ ep, String.eqb (v_id ep) id) l = Some ep ∧ ep ∈ l ∧ v_id ep = id.
Proof.
  intros He Hid. destruct (proj2 (Arr.find_is_Some (λ ep, String.eqb (v_id ep) id) l)) as [ep Hep].
  { exists e. split; [done|]. by apply String.eqb_eq. }
  exists ep. apply Arr.find_Some in Hep as ?. destruct_and!. to_prop. done.
Qed.

End shard_theorems.

(** Consistent hashing is total and stable: on a non-empty list whose node
    ids are non-empty, the first call with a key after a node event rebuilds the
    ring and answers the list's endpoint on the node that owns the key; the ring
    keeps serving, so every later call with that key and a list that still has
    that node answers an endpoint on the same node. *)
Theorem shard_select_owner {C} `{Shard.LruCacheLaws C} lodash_get md5_32 to_string
    (md5_range : ∀ k, 0 ≤ md5_32 k < 2^32) random s ctx l :
  let key := Shard.getKeyFromContext lodash_get s ctx in
  let sel := Shard.select lodash_get md5_32 to_string random in
  is_null key = false → Shard.needRebuild s = true → l ≠ [] → "" ∉ map v_id l →
  (0 < Shard.vnodes (Shard.s_opts s))%nat →
  (∀ r, Shard.ringSize (Shard.s_opts s) = Some r → 0 ≤ r) →
  ∃ ep, (sel s ctx l).1 = Some ep ∧ ep ∈ l ∧
    Shard.owner md5_32 s (map v_id l) (to_string key) = Some (v_id ep) ∧
    ∀ l' ep', ep' ∈ l' → v_id ep' = v_id ep →
      ∃ ep'', (sel (sel s ctx l).2 ctx l').1 = Some ep'' ∧ v_id ep'' = v_id ep.
Proof.
  intros key sel Hkey Hn Hl Hempty Hv Hr.
  destruct (Shard.rebuild_serves md5_32 l s Hl Hv) as (s0 & Hrb & Hs0 & Ho0).
  assert (map v_id l ≠ []) as Hids by (by destruct l).
  assert (Shard.getKeyFromContext lodash_get s0 ctx = key) as Hk0.
  { unfold key, Shard.getKeyFromContext. by rewrite Ho0. }
  assert (sel s ctx l = sel s0 ctx l) as Heq.
  { unfold sel, Shard.select. rewrite Hk0. fold key. by rewrite Hkey, Hn, Hrb, (proj1 Hs0). }
  destruct (select_serving lodash_get md5_32 to_string md5_range random s0 ctx l (map v_id l))
    as (id & Hown & Hin & Hsel & Hs1 & Ho1); rewrite ?Hk0, ?Ho0; try done.
  fold sel in Hsel, Hs1, Ho1. unfold Shard.owner, Shard.getHash in Hown. rewrite Hk0, Ho0 in Hown.
  apply list_elem_of_fmap in Hin as (e0 & -> & He0).
  destruct (find_by_id (v_id e0) l e0) as (ep & Hf & Hep & Heid); [done..|].
  exists ep. rewrite Heq, Hsel, Heid. split_and!; [done|done|done|].
  intros l' ep' Hin' Hid'.
  destruct (select_serving lodash_get md5_32 to_string md5_range random (sel s0 ctx l).2 ctx l'
    (map v_id l)) as (id2 & Hown2 & _ & Hsel2 & _); rewrite ?Ho1, ?Ho0; try done.
  { unfold Shard.getKeyFromContext in *. by rewrite Ho1, Hk0. }
  fold sel in Hsel2. unfold Shard.owner, Shard.getHash in Hown2.
  replace (Shard.getKeyFromContext lodash_get (sel s0 ctx l).2 ctx) with key in Hown2.
  2:{ rewrite <- Hk0. unfold Shard.getKeyFromContext. by rewrite Ho1. }
  rewrite Ho1, Ho0, Hown in Hown2. simplify_eq. rewrite Hsel2.
  destruct (find_by_id (v_id e0) l' ep') as (ep2 & -> & _ & ?); [done..|]. eauto.
Qed.

(** A cache of unbounded size, as a concrete [lru-cache]. *)
#[export] Instance omap_cache : Shard.LruCache (OMap.t string) :=
  {| Shard.cache_get := OMap.get; Shard.cache_set := OMap.set; Shard.cache_clear := λ _, [] |}.

#[export] Instance omap_cache_laws : Shard.LruCacheLaws (OMap.t string).
Proof.
  constructor; [|done]. intros k v c k' w Hg. simpl in *. destruct (decide (k = k')) as [->|Hne].
  - rewrite OMap.get_set_eq in Hg. simplify_eq. by left.
  - rewrite OMap.get_set_ne in Hg by done. by right.
Qed.

Section shard_examples.

(** Concrete parameters: the string length as a hash, constant lookups. *)
Definition toy_get (v : json) (_ : string) : json := v.
Definition toy_hash (k : string) : Z := Z.of_nat (String.length k) mod 2^32.
Definition toy_string (v : json) : string := match v with JStr s => s | _ => "" end.

Definition toy_opts : Shard.opts := Shard.Opts (Shard.KeyPath "id") 2 (Some 8).
Definition toy_state : Shard.t (OMap.t string) := Shard.Shard toy_opts [] true [].
Definition toy_list : list ep_view := [EpView 1 "a" None "h"; EpView 2 "b" None "h"].
Definition toy_ctx : call_ctx := CallCtx (JStr "xyz") JNull.

Lemma toy_hash_range k : 0 ≤ toy_hash k < 2^32.
Proof. apply Z.mod_pos_bound. done. Qed.

End shard_examples.

Lemma shard_select_owner_witness :
  let sel := Shard.select toy_get toy_hash toy_string draw_low in
  ∃ ep, (sel toy_state toy_ctx toy_list).1 = Some ep ∧ ep ∈ toy_list ∧
    Shard.owner toy_hash toy_state (map v_id toy_list) "xyz" = Some (v_id ep) ∧
    ∀ l' ep', ep' ∈ l' → v_id ep' = v_id ep →
      ∃ ep'', (sel (sel toy_state toy_ctx toy_list).2 toy_ctx l').1 = Some ep'' ∧
        v_id ep'' = v_id ep.
Proof.
  apply (shard_select_owner toy_get toy_hash toy_string toy_hash_range draw_low toy_state toy_ctx
    toy_list).
  - reflexivity.
  - reflexivity.
  - discriminate.
  - apply (bool_decide_unpack _). vm_compute. exact I.
  - vm_compute. lia.
  - intros r Hr. injection Hr as <-. lia.
Defined.

(** The ring outlives the availability of its nodes: while no node event
    forces a rebuild, a key owned by a node none of whose endpoints is in the
    list (its circuit breaker is open, say) gets no endpoint at all, although
    the list has other endpoints. *)
Theorem shard_stale_owner {C} `{Shard.LruCacheLaws C} lodash_get md5_32 to_string
    (md5_range : ∀ k, 0 ≤ md5_32 k < 2^32) random s ctx l ids id :
  let key := Shard.getKeyFromContext lodash_get s ctx in
  is_null key = false → Shard.serves md5_32 ids s → "" ∉ ids → ids ≠ [] →
  (0 < Shard.vnodes (Shard.s_opts s))%nat →
  (∀ r, Shard.ringSize (Shard.s_opts s) = Some r → 0 ≤ r) →
  Shard.owner md5_32 s ids (to_string key) = Some id → id ∉ map v_id l →
  (Shard.select lodash_get md5_32 to_string random s ctx l).1 = None.
Proof.
  intros key Hkey Hs Hempty Hids Hv Hr Hown Hout.
  destruct (select_serving lodash_get md5_32 to_string md5_range random s ctx l ids)
    as (id' & Hown' & _ & Hsel & _); try done.
  fold key in Hown'. rewrite Hown in Hown'. simplify_eq. rewrite Hsel.
  apply Arr.find_None. intros x Hx. apply String.eqb_neq. intros <-. apply Hout.
  apply list_elem_of_fmap. eauto.
Qed.

(** After one call over both nodes, the owner of the key drops out of the list. *)
Lemma shard_stale_owner_witness :
  let s := (Shard.select toy_get toy_hash toy_string draw_low toy_state toy_ctx toy_list).2 in
  (Shard.select toy_get toy_hash toy_string draw_low s toy_ctx [EpView 1 "a" None "h"]).1 = None.
Proof.
  intros s.
  apply (shard_stale_owner toy_get toy_hash toy_string toy_hash_range draw_low s toy_ctx
    [EpView 1 "a" None "h"] ["a"; "b"]%string "b").
  - reflexivity.
  - split_and!; [reflexivity..|]. intros k id Hk. simpl in Hk.
    destruct (String.eqb k "xyz") eqn:E; [|done]. apply String.eqb_eq in E as ->.
    vm_compute in Hk |- *. done.
  - apply (bool_decide_unpack _). vm_compute. exact I.
  - discriminate.
  - vm_compute. lia.
  - intros r Hr. injection Hr as <-. lia.
  - vm_compute. reflexivity.
  - apply (bool_decide_unpack _). vm_compute. exact I.
Defined.
