(* ===== verification/Balancing.v ===== *)
(** * Any strategy

    The strategies of [src/strategies/] as one type: what a list is balanced by when actions choose
    their own.  All but the shard strategy always answer an endpoint of the list. *)

From Stdlib Require Import ZArith Lia Bool Ascii.
From stdpp Require Import base tactics list strings option gmap.
From S2P Require Import Prelude Strategies.

Module Balancing.

Section any.
Context {C : Type} `{Shard.LruCache C}.
(** As for [Shard]: lodash's [get], 32 bits of MD5, [toString] *)
Context (lodash_get : json → string → json) (md5_32 : string → Z) (to_string : json → string).

Inductive strategy :=
| ARoundRobin (s : RoundRobin.t)
| ARandom (s : Random.t)
| ACpuUsage (o : CpuUsage.opts)
| ALatency (s : Latency.t)
| AShard (s : @Shard.t C).

(** The context of a shard strategy without one *)
Definition no_context : call_ctx := CallCtx JUndef JUndef.

(** [select(list, ctx)]; calls of actions always give a context. *)
Definition select (random : random_source) (s : strategy) (ctx : option call_ctx) (l : list ep_view) : option ep_view * strategy :=
  match s with
  | ARoundRobin s => let '(r, s) := strategy_select random s ctx l in (r, ARoundRobin s)
  | ARandom s => let '(r, s) := strategy_select random s ctx l in (r, ARandom s)
  | ACpuUsage s => let '(r, s) := strategy_select random s ctx l in (r, ACpuUsage s)
  | ALatency s => let '(r, s) := strategy_select random s ctx l in (r, ALatency s)
  | AShard s => let '(r, s) := Shard.select lodash_get md5_32 to_string random s (default no_context ctx) l in (r, AShard s)
  end.

Definition is_shard (s : strategy) : bool := match s with AShard _ => true | _ => false end.

Definition any_strategy : Strategy strategy := {| strategy_select := select |}.
#[local] Existing Instance any_strategy.

(** The shard strategy answers an endpoint of the list or nothing. *)
Lemma shard_member random s ctx l ep :
  random_ok random → l ≠ [] → (Shard.select lodash_get md5_32 to_string random s ctx l).1 = Some ep → ep ∈ l.
Proof.
  intros Hr Hl. destruct (random_index random 0 l Hr Hl) as (x & Hx & Hin).
  assert (∀ s' : @Shard.t C, (at_index l (random 0%nat 0%Z (Z.of_nat (length l) - 1)%Z), s').1 = Some ep → ep ∈ l) as Hpick
    by (intros s'; rewrite Hx; cbn [fst]; intros [= <-]; done).
  unfold Shard.select. destruct (is_null _); [apply Hpick|]. destruct (if Shard.needRebuild s then _ else _) as [s1|]; [|done].
  destruct (Shard.getNodeIDByKey _ _ _) as [[id|] s2]; [|apply Hpick]. destruct (String.eqb id ""); [apply Hpick|].
  simpl. intros Hf. by apply Arr.find_Some in Hf as [? _].
Qed.

#[export] Instance any_sound : StrategySound strategy.
Proof.
  refine {| lawful s := negb (is_shard s) |}.
  - intros random [s|s|s|s|s] ctx l; simpl; [done..|]. by destruct (Shard.select _ _ _ _ _ _ _).
  - assert (∀ (S : Type) (HS : Strategy S) (HL : StrategyLaws S) random (s : S) ctx l (wrap : S → strategy), random_ok random → l ≠ [] →
      match (let '(r, s) := strategy_select random s ctx l in (r, wrap s)).1 with Some ep => ep ∈ l | None => False end) as Hl.
    { intros S HS HL random s ctx l wrap Hr Hl. destruct (select_member random s ctx l Hr Hl) as (ep & E & Hin).
      destruct (strategy_select random s ctx l). simpl in *. by subst. }
    intros random [s|s|s|s|s] ctx l Hr Hne.
    + pose proof (Hl _ _ _ random s ctx l ARoundRobin Hr Hne) as Hs. cbn [strategy_select any_strategy select] in *. by destruct (_.1).
    + pose proof (Hl _ _ _ random s ctx l ARandom Hr Hne) as Hs. cbn [strategy_select any_strategy select] in *. by destruct (_.1).
    + pose proof (Hl _ _ _ random s ctx l ACpuUsage Hr Hne) as Hs. cbn [strategy_select any_strategy select] in *. by destruct (_.1).
    + pose proof (Hl _ _ _ random s ctx l ALatency Hr Hne) as Hs. cbn [strategy_select any_strategy select] in *. by destruct (_.1).
    + pose proof (shard_member random s (default no_context ctx) l) as Hs. simpl. destruct (Shard.select _ _ _ _ _ _ _) as [[ep|] s']; simpl in *; auto.
Defined.

End any.
End Balancing.
