(* ===== verification/RegistryData.v ===== *)
(** * The objects of the service registry

    Models [src/registry/node.js], [service-item.js], [endpoint.js],
    [endpoint-action.js] and [endpoint-event.js].  Nodes, services and endpoints
    are mutable objects that several tables share, so they live in a [store] and
    the tables hold references; JavaScript's [==] on objects is equality of
    references. *)

From Stdlib Require Import ZArith Lia Bool.
From stdpp Require Import base tactics list strings option gmap.
From S2P Require Import Prelude.

Local Open Scope Z_scope.

(** A reference to an object of the store. *)
Notation ref := positive.

(** ** Action and event definitions *)

Inductive visibility := Published | Public | Protected | Private | OtherVisibility.

(** A handler: none, a function of the service, [transit.request], or one of
    those wrapped by the middlewares for a hook. *)
Inductive handler :=
| HNone
| HUser (id : positive)
| HRequest
| HWrapped (hook : string) (h : handler).

Record action := Action {
  a_name : string;
  a_visibility : option visibility;
  a_protected : bool;
  a_strategy : option string;
  a_handler : handler;
  a_remoteHandler : option handler
}.

Record event := Event {
  ev_name : string;
  ev_group : option string;
  ev_strategy : option string;
  ev_handler : handler
}.

(** A service as announced in an INFO packet or registered locally. *)
Record svc_schema := SvcSchema {
  sv_name : string;
  sv_fullName : option string;
  sv_version : json;
  sv_settings : json;
  sv_metadata : json;
  sv_actions : option (OMap.t action);
  sv_events : option (OMap.t event)
}.

(** The payload of an INFO packet. *)
Record node_info := NodeInfo {
  i_sender : string;
  i_instanceID : json;
  i_seq : option Z;
  i_metadata : json;
  i_ipList : list string;
  i_hostname : option string;
  i_port : option Z;
  i_client : json;
  i_config : json;
  i_services : option (list svc_schema)
}.

(** ** Nodes *)

Module Node.

(** The [services] array: the announced definitions of a remote node, the
    registered items of the local one. *)
Inductive services_of :=
| Announced (l : option (list svc_schema))
| Items (l : list ref).

Record t := Node {
  id : string;
  instanceID : json;
  available : bool;
  local : bool;
  lastHeartbeatTime : Z;
  config : json;
  client : json;
  metadata : json;
  ipList : list string;
  port : option Z;
  hostname : option string;
  udpAddress : option string;
  rawInfo : option node_info;
  services : services_of;
  cpu : option Z;
  cpuSeq : option Z;
  seq : Z;
  offlineSince : option Z
}.

(** [new Node(id)] at uptime [now] *)
Definition create (id : string) (now : Z) : t :=
  Node id JNull true false now (JObj []) (JObj []) JNull [] None None None None (Items []) None None
    0 None.

Definition set_seq (s : Z) (n : t) : t :=
  Node (id n) (instanceID n) (available n) (local n) (lastHeartbeatTime n) (config n) (client n)
    (metadata n) (ipList n) (port n) (hostname n) (udpAddress n) (rawInfo n) (services n) (cpu n)
    (cpuSeq n) s (offlineSince n).

Definition set_services (sv : services_of) (n : t) : t :=
  Node (id n) (instanceID n) (available n) (local n) (lastHeartbeatTime n) (config n) (client n)
    (metadata n) (ipList n) (port n) (hostname n) (udpAddress n) (rawInfo n) sv (cpu n)
    (cpuSeq n) (seq n) (offlineSince n).

Definition set_rawInfo (i : node_info) (n : t) : t :=
  Node (id n) (instanceID n) (available n) (local n) (lastHeartbeatTime n) (config n) (client n)
    (metadata n) (ipList n) (port n) (hostname n) (udpAddress n) (Some i) (services n) (cpu n)
    (cpuSeq n) (seq n) (offlineSince n).

Definition set_udpAddress (a : option string) (n : t) : t :=
  Node (id n) (instanceID n) (available n) (local n) (lastHeartbeatTime n) (config n) (client n)
    (metadata n) (ipList n) (port n) (hostname n) a (rawInfo n) (services n) (cpu n)
    (cpuSeq n) (seq n) (offlineSince n).

(** Whether two instance ids are the same ([===] on strings and [null]). *)
Definition same_instance (a b : json) : bool :=
  match a, b with
  | JStr x, JStr y => String.eqb x y
  | JNull, JNull | JUndef, JUndef => true
  | _, _ => false
  end.

(** [update(payload, isReconnected)]: the node and whether it must be registered. *)
Definition update (p : node_info) (isReconnected : bool) (n : t) : t * bool :=
  let newSeq := num_or (i_seq p) 1 in
  let needed := (seq n <? newSeq) || isReconnected || negb (same_instance (i_instanceID p) (instanceID n)) in
  (Node (id n) (if needed then i_instanceID p else instanceID n) (available n) (local n)
     (lastHeartbeatTime n) (js_or (i_config p) (JObj [])) (js_or (i_client p) (JObj [])) (i_metadata p)
     (i_ipList p) (i_port p) (i_hostname p) (udpAddress n) (Some p) (Announced (i_services p)) (cpu n)
     (cpuSeq n) (if needed then newSeq else seq n) (offlineSince n),
   needed).

(** [updateLocalInfo] once the CPU usage was measured; a null counter is [0]. *)
Definition updateLocalInfo (newVal : Z) (n : t) : t :=
  if bool_decide (cpu n = Some newVal) then n
  else
    Node (id n) (instanceID n) (available n) (local n) (lastHeartbeatTime n) (config n) (client n)
      (metadata n) (ipList n) (port n) (hostname n) (udpAddress n) (rawInfo n) (services n)
      (Some newVal) (Some (default 0 (cpuSeq n) + 1)) (seq n) (offlineSince n).

(** [heartbeat(payload)] *)
Definition heartbeat (cpu' cpuSeq' : option Z) (now : Z) (n : t) : t :=
  Node (id n) (instanceID n) true (local n) now (config n) (client n)
    (metadata n) (ipList n) (port n) (hostname n) (udpAddress n) (rawInfo n) (services n)
    (match cpu' with Some c => Some c | None => cpu n end)
    (match cpu' with Some _ => Some (num_or cpuSeq' 1) | None => cpuSeq n end)
    (seq n) (if available n then offlineSince n else None).

(** [disconnected()] *)
Definition disconnected (now : Z) (n : t) : t :=
  Node (id n) (instanceID n) false (local n) (lastHeartbeatTime n) (config n) (client n)
    (metadata n) (ipList n) (port n) (hostname n) (udpAddress n) (rawInfo n) (services n) (cpu n)
    (cpuSeq n) (if available n then seq n + 1 else seq n)
    (if available n then Some now else offlineSince n).

(** What [processNodeInfo] does to a known node that is offline. *)
Definition reconnect (now : Z) (n : t) : t :=
  Node (id n) (instanceID n) true (local n) now (config n) (client n)
    (metadata n) (ipList n) (port n) (hostname n) (udpAddress n) (rawInfo n) (services n) (cpu n)
    (cpuSeq n) (seq n) None.

End Node.

(** ** Services *)

Module ServiceItem.

Record t := ServiceItem {
  node : ref;
  name : string;
  fullName : string;
  version : json;
  settings : json;
  metadata : json;
  local : bool;
  actions : OMap.t action;
  events : OMap.t event
}.

(** [new ServiceItem(node, service, local)] *)
Definition create (n : ref) (s : svc_schema) (fullName : string) (local : bool) : t :=
  ServiceItem n (sv_name s) fullName (sv_version s) (sv_settings s)
    (js_or (sv_metadata s) (JObj [])) local [] [].

(** [equals(fullName, nodeID)]; [nodeid] gives the id of a node object. *)
Definition equals (nodeid : ref → string) (fn : string) (nodeID : option string) (s : t) : bool :=
  String.eqb (fullName s) fn &&
  match nodeID with None => true | Some i => String.eqb (nodeid (node s)) i end.

Definition update (v : svc_schema) (fn : string) (s : t) : t :=
  ServiceItem (node s) (name s) fn (sv_version v) (sv_settings v) (js_or (sv_metadata v) (JObj []))
    (local s) (actions s) (events s).

Definition addAction (a : action) (s : t) : t :=
  ServiceItem (node s) (name s) (fullName s) (version s) (settings s) (metadata s) (local s)
    (OMap.set (a_name a) a (actions s)) (events s).

Definition addEvent (e : event) (s : t) : t :=
  ServiceItem (node s) (name s) (fullName s) (version s) (settings s) (metadata s) (local s)
    (actions s) (OMap.set (ev_name e) e (events s)).

End ServiceItem.

(** ** Endpoints *)

Module Endpoint.

(** What an endpoint invokes: [ActionEndpoint.action] or [EventEndpoint.event]. *)
Inductive payload :=
| EpAction (a : action)
| EpEvent (e : event).

Record t := Endpoint {
  id : string;
  node : ref;
  local : bool;
  state : bool;
  service : ref;
  data : payload
}.

(** [new EndPointFactory(registry, broker, node, service, data)] *)
Definition create (brokerID nodeID : string) (n s : ref) (d : payload) : t :=
  Endpoint nodeID n (String.eqb nodeID brokerID) true s d.

Definition isAvailable (e : t) : bool := state e.

Definition update (d : payload) (e : t) : t :=
  Endpoint (id e) (node e) (local e) (state e) (service e) d.

(** The circuit breaker assigns [ep.state]. *)
Definition set_state (b : bool) (e : t) : t :=
  Endpoint (id e) (node e) (local e) b (service e) (data e).

(** [ActionEndpoint.name] *)
Definition name (e : t) : string :=
  String.append (id e) (String.append ":"
    (match data e with EpAction a => a_name a | EpEvent ev => ev_name ev end)).

End Endpoint.

#[export] Instance node_inhabited : Inhabited Node.t := populate (Node.create "" 0).
#[export] Instance service_inhabited : Inhabited ServiceItem.t :=
  populate (ServiceItem.ServiceItem 1 "" "" JUndef JUndef JUndef false [] []).
#[export] Instance endpoint_inhabited : Inhabited Endpoint.t :=
  populate (Endpoint.Endpoint "" 1 false false 1 (Endpoint.EpEvent (Event "" None None HNone))).

(** ** The store *)

Record store := Store {
  st_nodes : gmap ref Node.t;
  st_services : gmap ref ServiceItem.t;
  st_endpoints : gmap ref Endpoint.t
}.

Definition empty_store : store := Store ∅ ∅ ∅.

(** Reading through a reference. *)
Definition node_of (st : store) (r : ref) : Node.t := st_nodes st !!! r.
Definition svc_of (st : store) (r : ref) : ServiceItem.t := st_services st !!! r.
Definition ep_of (st : store) (r : ref) : Endpoint.t := st_endpoints st !!! r.

(** Assigning to a field of the referenced object. *)
Definition upd_node (f : Node.t → Node.t) (r : ref) (st : store) : store :=
  Store (alter f r (st_nodes st)) (st_services st) (st_endpoints st).
Definition upd_svc (f : ServiceItem.t → ServiceItem.t) (r : ref) (st : store) : store :=
  Store (st_nodes st) (alter f r (st_services st)) (st_endpoints st).
Definition upd_ep (f : Endpoint.t → Endpoint.t) (r : ref) (st : store) : store :=
  Store (st_nodes st) (st_services st) (alter f r (st_endpoints st)).

(** [new]: a reference no object has, and the store with the object. *)
Definition new_node (n : Node.t) (st : store) : ref * store :=
  let r := fresh (dom (st_nodes st)) in
  (r, Store (<[r := n]> (st_nodes st)) (st_services st) (st_endpoints st)).
Definition new_svc (s : ServiceItem.t) (st : store) : ref * store :=
  let r := fresh (dom (st_services st)) in
  (r, Store (st_nodes st) (<[r := s]> (st_services st)) (st_endpoints st)).
Definition new_ep (e : Endpoint.t) (st : store) : ref * store :=
  let r := fresh (dom (st_endpoints st)) in
  (r, Store (st_nodes st) (st_services st) (<[r := e]> (st_endpoints st))).

(** *** Reads after writes *)

Lemma ep_of_upd_eq f r st : is_Some (st_endpoints st !! r) → ep_of (upd_ep f r st) r = f (ep_of st r).
Proof.
  intros [e He]. unfold ep_of, upd_ep. simpl. rewrite !lookup_total_alt, lookup_alter_eq, He. done.
Qed.

Lemma ep_of_upd_ne f r r' st : r ≠ r' → ep_of (upd_ep f r st) r' = ep_of st r'.
Proof. intros H. unfold ep_of, upd_ep. simpl. by rewrite !lookup_total_alt, lookup_alter_ne. Qed.

(** A projection the update keeps is kept everywhere. *)
Lemma ep_of_upd_proj {A} (p : Endpoint.t → A) f r r' st :
  (∀ e, p (f e) = p e) → p (ep_of (upd_ep f r st) r') = p (ep_of st r').
Proof.
  intros Hp. unfold ep_of, upd_ep. simpl. rewrite !lookup_total_alt, lookup_alter.
  case_decide as Hr; [|done]. subst r'.
  destruct (st_endpoints st !! r); simpl; [apply Hp | done].
Qed.

Lemma svc_of_upd_proj {A} (p : ServiceItem.t → A) f r r' st :
  (∀ e, p (f e) = p e) → p (svc_of (upd_svc f r st) r') = p (svc_of st r').
Proof.
  intros Hp. unfold svc_of, upd_svc. simpl. rewrite !lookup_total_alt, lookup_alter.
  case_decide as Hr; [|done]. subst r'.
  destruct (st_services st !! r); simpl; [apply Hp | done].
Qed.

Lemma node_of_upd_proj {A} (p : Node.t → A) f r r' st :
  (∀ e, p (f e) = p e) → p (node_of (upd_node f r st) r') = p (node_of st r').
Proof.
  intros Hp. unfold node_of, upd_node. simpl. rewrite !lookup_total_alt, lookup_alter.
  case_decide as Hr; [|done]. subst r'.
  destruct (st_nodes st !! r); simpl; [apply Hp | done].
Qed.

Lemma svc_of_upd_eq f r st : is_Some (st_services st !! r) → svc_of (upd_svc f r st) r = f (svc_of st r).
Proof.
  intros [e He]. unfold svc_of, upd_svc. simpl. rewrite !lookup_total_alt, lookup_alter_eq, He. done.
Qed.

Lemma svc_of_upd_ne f r r' st : r ≠ r' → svc_of (upd_svc f r st) r' = svc_of st r'.
Proof. intros H. unfold svc_of, upd_svc. simpl. by rewrite !lookup_total_alt, lookup_alter_ne. Qed.

Lemma node_of_upd_eq f r st : is_Some (st_nodes st !! r) → node_of (upd_node f r st) r = f (node_of st r).
Proof.
  intros [e He]. unfold node_of, upd_node. simpl. rewrite !lookup_total_alt, lookup_alter_eq, He. done.
Qed.

Lemma node_of_upd_ne f r r' st : r ≠ r' → node_of (upd_node f r st) r' = node_of st r'.
Proof. intros H. unfold node_of, upd_node. simpl. by rewrite !lookup_total_alt, lookup_alter_ne. Qed.

Lemma new_ep_fresh e st : st_endpoints st !! (new_ep e st).1 = None.
Proof. simpl. apply not_elem_of_dom. apply is_fresh. Qed.

Lemma new_svc_fresh s st : st_services st !! (new_svc s st).1 = None.
Proof. simpl. apply not_elem_of_dom. apply is_fresh. Qed.

Lemma new_node_fresh n st : st_nodes st !! (new_node n st).1 = None.
Proof. simpl. apply not_elem_of_dom. apply is_fresh. Qed.

Lemma ep_of_new e st r st' : new_ep e st = (r, st') →
  ep_of st' r = e ∧ ∀ r', is_Some (st_endpoints st !! r') → ep_of st' r' = ep_of st r'.
Proof.
  intros H. pose proof (new_ep_fresh e st) as Hf. rewrite H in Hf. unfold new_ep in H. simplify_eq.
  unfold ep_of. simpl in *. split; [by rewrite lookup_total_insert_eq|].
  intros r' [x Hx]. rewrite lookup_total_insert_ne; [done|]. intros <-. congruence.
Qed.

Lemma svc_of_new s st r st' : new_svc s st = (r, st') →
  svc_of st' r = s ∧ ∀ r', is_Some (st_services st !! r') → svc_of st' r' = svc_of st r'.
Proof.
  intros H. pose proof (new_svc_fresh s st) as Hf. rewrite H in Hf. unfold new_svc in H. simplify_eq.
  unfold svc_of. simpl in *. split; [by rewrite lookup_total_insert_eq|].
  intros r' [x Hx]. rewrite lookup_total_insert_ne; [done|]. intros <-. congruence.
Qed.

Lemma node_of_new n st r st' : new_node n st = (r, st') →
  node_of st' r = n ∧ ∀ r', is_Some (st_nodes st !! r') → node_of st' r' = node_of st r'.
Proof.
  intros H. pose proof (new_node_fresh n st) as Hf. rewrite H in Hf. unfold new_node in H. simplify_eq.
  unfold node_of. simpl in *. split; [by rewrite lookup_total_insert_eq|].
  intros r' [x Hx]. rewrite lookup_total_insert_ne; [done|]. intros <-. congruence.
Qed.
