(* ===== verification/EndpointList.v ===== *)
(** * Endpoint lists

    Models [src/registry/endpoint-list.js]: the endpoints of one action, or of
    one event and group, with the strategy that balances them.  The list is
    verified against the [Strategy] interface, so the theorems hold for every
    strategy that keeps its promise. *)

From Stdlib Require Import ZArith Lia Bool Ascii.
From stdpp Require Import base tactics list strings option gmap.
From S2P Require Import Prelude Strategies RegistryData.

Local Open Scope Z_scope.

Module EndpointList.

Record t (S : Type) := EndpointList {
  strategy : S;
  name : string;
  group : option string;
  internal : bool;
  endpoints : list ref;
  localEndpoints : list ref
}.
Arguments EndpointList {S}.
Arguments strategy {S}.
Arguments name {S}.
Arguments group {S}.
Arguments internal {S}.
Arguments endpoints {S}.
Arguments localEndpoints {S}.

(** [name.startsWith("$")] *)
Definition is_internal (n : string) : bool :=
  match n with String c _ => Ascii.eqb c "$"%char | EmptyString => false end.

(** What [next] and [nextLocal] end with: [null], an endpoint, or the thrown
    "Strategy returned an invalid endpoint". *)
Inductive next_result :=
| NextNull
| NextEp (r : ref)
| NextThrow.

Section endpoint_list.
Context {S : Type} `{Strategy S}.

Definition create (s : S) (n : string) (g : option string) : t S :=
  EndpointList s n g (is_internal n) [] [].

Definition with_endpoints (es : list ref) (l : t S) : t S :=
  EndpointList (strategy l) (name l) (group l) (internal l) es (localEndpoints l).

(** [setLocalEndpoints()] *)
Definition setLocalEndpoints (st : store) (l : t S) : t S :=
  EndpointList (strategy l) (name l) (group l) (internal l) (endpoints l)
    (Arr.filter (λ r, Endpoint.local (ep_of st r)) (endpoints l)).

(** [ep.node == node && ep.service.name == service.name] *)
Definition same_slot (st : store) (n s : ref) (r : ref) : bool :=
  Pos.eqb (Endpoint.node (ep_of st r)) n &&
  String.eqb (ServiceItem.name (svc_of st (Endpoint.service (ep_of st r)))) (ServiceItem.name (svc_of st s)).

(** [add(node, service, data)] on a broker named [brokerID] *)
Definition add (brokerID : string) (n s : ref) (d : Endpoint.payload) (st : store) (l : t S)
    : store * t S :=
  match Arr.find (same_slot st n s) (endpoints l) with
  | Some found => (upd_ep (Endpoint.update d) found st, l)
  | None =>
      let '(r, st) := new_ep (Endpoint.create brokerID (Node.id (node_of st n)) n s d) st in
      (st, setLocalEndpoints st (with_endpoints (endpoints l ++ [r]) l))
  end.

Definition getFirst (l : t S) : option ref := head (endpoints l).

Definition available (st : store) (r : ref) : bool := Endpoint.isAvailable (ep_of st r).

(** What the strategy sees of an endpoint. *)
Definition view (st : store) (r : ref) : ep_view :=
  let e := ep_of st r in
  EpView r (Endpoint.id e) (Node.cpu (node_of st (Endpoint.node e)))
    (default "" (Node.hostname (node_of st (Endpoint.node e)))).

(** [select(list, ctx)] *)
Definition select (random : random_source) (st : store) (ctx : option call_ctx) (es : list ref) (l : t S)
    : next_result * t S :=
  let '(r, s) := strategy_select random (strategy l) ctx (map (view st) es) in
  let l := EndpointList s (name l) (group l) (internal l) (endpoints l) (localEndpoints l) in
  match r with
  | Some v => (NextEp (v_ref v), l)
  | None => (NextThrow, l)
  end.

Definition hasLocal (l : t S) : bool := (0 <? length (localEndpoints l))%nat.

Definition hasAvailable (st : store) (l : t S) : bool :=
  match Arr.find (available st) (endpoints l) with Some _ => true | None => false end.

Definition count (l : t S) : nat := length (endpoints l).

(** [nextLocal(ctx)] *)
Definition nextLocal (random : random_source) (st : store) (ctx : option call_ctx) (l : t S)
    : next_result * t S :=
  match localEndpoints l with
  | [] => (NextNull, l)
  | [item] => (if available st item then NextEp item else NextNull, l)
  | es =>
      match Arr.filter (available st) es with
      | [] => (NextNull, l)
      | es => select random st ctx es l
      end
  end.

(** [next(ctx)]; a thrown error leaves the method in every branch. *)
Definition next (preferLocal : bool) (random : random_source) (st : store) (ctx : option call_ctx) (l : t S)
    : next_result * t S :=
  match endpoints l with
  | [] => (NextNull, l)
  | es =>
      if internal l && hasLocal l then nextLocal random st ctx l
      else
        match es with
        | [item] => (if available st item then NextEp item else NextNull, l)
        | _ =>
            let '(r, l) :=
              if preferLocal && hasLocal l then nextLocal random st ctx l else (NextNull, l) in
            let balance l :=
              match Arr.filter (available st) es with
              | [] => (NextNull, l)
              | es => select random st ctx es l
              end in
            match r with
            | NextThrow => (NextThrow, l)
            | NextEp e => if available st e then (NextEp e, l) else balance l
            | NextNull => balance l
            end
        end
  end.

(** [getEndpointByNodeID(nodeID)] *)
Definition getEndpointByNodeID (st : store) (nodeID : string) (l : t S) : option ref :=
  match Arr.find (λ r, String.eqb (Endpoint.id (ep_of st r)) nodeID) (endpoints l) with
  | Some r => if available st r then Some r else None
  | None => None
  end.

Definition hasNodeID (st : store) (nodeID : string) (l : t S) : bool :=
  match Arr.find (λ r, String.eqb (Endpoint.id (ep_of st r)) nodeID) (endpoints l) with
  | Some _ => true
  | None => false
  end.

(** [removeByService(service)] *)
Definition removeByService (s : ref) (st : store) (l : t S) : t S :=
  setLocalEndpoints st
    (with_endpoints (Arr.remove (λ r, Pos.eqb (Endpoint.service (ep_of st r)) s) (endpoints l)) l).

(** [removeByNodeID(nodeID)] *)
Definition removeByNodeID (nodeID : string) (st : store) (l : t S) : t S :=
  setLocalEndpoints st
    (with_endpoints (Arr.remove (λ r, String.eqb (Endpoint.id (ep_of st r)) nodeID) (endpoints l)) l).

(** ** Well-formed lists

    The endpoints exist, each once and at most one per node and service name,
    and [localEndpoints] is their local part. *)
Record wf (st : store) (l : t S) : Prop := {
  wf_alloc r : r ∈ endpoints l → is_Some (st_endpoints st !! r);
  wf_nodup : NoDup (endpoints l);
  wf_slots r r' : r ∈ endpoints l → r' ∈ endpoints l →
    Endpoint.node (ep_of st r) = Endpoint.node (ep_of st r') →
    ServiceItem.name (svc_of st (Endpoint.service (ep_of st r))) =
      ServiceItem.name (svc_of st (Endpoint.service (ep_of st r'))) → r = r';
  wf_local : localEndpoints l = Arr.filter (λ r, Endpoint.local (ep_of st r)) (endpoints l)
}.

Lemma wf_create st s n g : wf st (create s n g).
Proof.
  constructor; simpl; try done; [|constructor|]; intros; by match goal with H : _ ∈ [] |- _ =>
    apply not_elem_of_nil in H end.
Qed.

(** Keeping a part of the endpoints, as the two removals do. *)
Lemma wf_filter (p : ref → bool) st l :
  wf st l → wf st (setLocalEndpoints st (with_endpoints (Arr.filter p (endpoints l)) l)).
Proof.
  intros [Ha Hn Hs _]. constructor; simpl; try done.
  - intros r Hr. apply Arr.elem_of_filter in Hr as [? _]. auto.
  - by apply Arr.NoDup_filter.
  - intros r r' Hr Hr'. apply Arr.elem_of_filter in Hr as [? _].
    apply Arr.elem_of_filter in Hr' as [? _]. auto.
Qed.

Lemma wf_removeByService s st l : wf st l → wf st (removeByService s st l).
Proof. apply wf_filter. Qed.

Lemma wf_removeByNodeID nodeID st l : wf st l → wf st (removeByNodeID nodeID st l).
Proof. apply wf_filter. Qed.

(** Well-formedness only looks at the listed endpoints' fixed fields and the
    names of their services. *)
Lemma wf_store_ext st st' l :
  (∀ r, r ∈ endpoints l → is_Some (st_endpoints st !! r) →
     is_Some (st_endpoints st' !! r) ∧
     Endpoint.node (ep_of st' r) = Endpoint.node (ep_of st r) ∧
     Endpoint.local (ep_of st' r) = Endpoint.local (ep_of st r) ∧
     ServiceItem.name (svc_of st' (Endpoint.service (ep_of st' r))) =
       ServiceItem.name (svc_of st (Endpoint.service (ep_of st r)))) →
  wf st l → wf st' l.
Proof.
  intros Hext [Ha Hn Hs Hl]. constructor; [| done | |].
  - intros r Hr. apply Hext; auto.
  - intros r r' Hr Hr'. destruct (Hext r Hr) as (_ & -> & _ & ->); [auto|].
    destruct (Hext r' Hr') as (_ & -> & _ & ->); auto.
  - rewrite Hl. apply Arr.filter_ext. intros r Hr.
    destruct (Hext r Hr) as (_ & _ & -> & _); auto.
Qed.

Lemma wf_add brokerID n s d st l st' l' :
  wf st l → add brokerID n s d st l = (st', l') → wf st' l'.
Proof.
  intros Hwf. unfold add. destruct (Arr.find _ _) as [found|] eqn:Hf; intros Heq; simplify_eq.
  - eapply wf_store_ext; [|done]. intros r Hr [e He]. split.
    + unfold upd_ep. simpl. rewrite lookup_alter. case_decide; [subst; rewrite He|]; eauto.
    + rewrite !(ep_of_upd_proj _ (Endpoint.update d)) by done. done.
  - destruct (new_ep _ st) as [r0 st0] eqn:Hnew. simplify_eq. destruct Hwf as [Ha Hn Hs _].
    destruct (ep_of_new _ _ _ _ Hnew) as [Hr0 Hold].
    pose proof (new_ep_fresh (Endpoint.create brokerID (Node.id (node_of st n)) n s d) st) as Hfr.
    rewrite Hnew in Hfr. simpl in Hfr. unfold new_ep in Hnew. simplify_eq.
    set (r0 := fresh (dom (st_endpoints st))) in *.
    set (st0 := Store _ _ (<[r0 := _]> _)) in *.
    assert (r0 ∉ endpoints l) as Hnin by (intros Hin; destruct (Ha _ Hin); congruence).
    assert (∀ x, svc_of st0 x = svc_of st x) as Hsvc by done.
    assert (∀ r, r ∈ endpoints l → same_slot st n s r = false) as Hnone.
    { by apply Arr.find_None. }
    constructor; simpl.
    + intros r Hr. apply elem_of_app in Hr as [Hr|Hr%list_elem_of_singleton].
      * rewrite lookup_insert. case_decide; eauto.
      * subst r. rewrite lookup_insert_eq. eauto.
    + apply NoDup_app. split_and!; [done| |apply NoDup_singleton].
      intros x Hx Hx'%list_elem_of_singleton. by subst.
    + intros r r' Hr Hr'. apply elem_of_app in Hr as [Hr|Hr%list_elem_of_singleton];
        apply elem_of_app in Hr' as [Hr'|Hr'%list_elem_of_singleton]; subst; try done.
      * rewrite !Hold, !Hsvc by auto. by apply Hs.
      * rewrite Hold, Hr0, !Hsvc by auto. simpl. intros Hnode Hname. exfalso.
        specialize (Hnone r Hr). unfold same_slot in Hnone.
        rewrite Hnode, Hname, Pos.eqb_refl, String.eqb_refl in Hnone. done.
      * rewrite (Hold r'), Hr0, !Hsvc by auto. simpl. intros Hnode Hname. exfalso.
        specialize (Hnone r' Hr'). unfold same_slot in Hnone.
        rewrite <- Hnode, <- Hname, Pos.eqb_refl, String.eqb_refl in Hnone. done.
    + done.
Qed.

(** *** Selection *)

(** The outcome of a choice among [es]: an available one, [null] when there is none, or the
    error of a strategy that may fail. *)
Definition chooses (mayfail : Prop) (st : store) (es : list ref) (r : next_result) : Prop :=
  match r with
  | NextEp e => e ∈ es ∧ available st e = true
  | NextNull => ∀ e, e ∈ es → available st e = false
  | NextThrow => mayfail
  end.

(** A choice changes nothing of a list but the state of its strategy. *)
Definition rebalanced (l l' : t S) : Prop :=
  name l' = name l ∧ group l' = group l ∧ internal l' = internal l ∧
  endpoints l' = endpoints l ∧ localEndpoints l' = localEndpoints l.

#[export] Instance rebalanced_preorder : PreOrder rebalanced.
Proof. unfold rebalanced. split; [done|]. intros l1 l2 l3 ? ?. naive_solver congruence. Qed.

Lemma select_rebalanced random st ctx es l : rebalanced l (select random st ctx es l).2.
Proof. unfold select. by destruct (strategy_select _ _ _ _) as [[v|] s]. Qed.

Lemma nextLocal_rebalanced random st ctx l : rebalanced l (nextLocal random st ctx l).2.
Proof.
  unfold nextLocal. destruct (localEndpoints l) as [|x [|y es]]; [done..|].
  destruct (Arr.filter _ _); [done|]. apply select_rebalanced.
Qed.

Lemma next_rebalanced preferLocal random st ctx l : rebalanced l (next preferLocal random st ctx l).2.
Proof.
  unfold next. destruct (endpoints l) as [|x es]; [done|].
  pose proof (nextLocal_rebalanced random st ctx l) as Hnl.
  destruct (internal l && hasLocal l); [done|]. destruct es as [|y es]; [done|].
  assert (∀ l', rebalanced l l' → rebalanced l
    (match Arr.filter (available st) (x :: y :: es) with
     | [] => (NextNull, l') | fs => select random st ctx fs l' end).2) as Hb.
  { intros l' Hl. destruct (Arr.filter _ _); [done|]. etransitivity; [done|]. apply select_rebalanced. }
  destruct (preferLocal && hasLocal l); [|by apply Hb].
  destruct (nextLocal random st ctx l) as [[|e|] l']; simpl in Hnl; [by apply Hb| |done].
  destruct (available st e); [done|by apply Hb].
Qed.

Lemma wf_rebalanced st l l' : rebalanced l l' → wf st l → wf st l'.
Proof.
  intros (_ & _ & _ & He & Hl) [H1 H2 H3 H4]. constructor; rewrite ?He, ?Hl; done.
Qed.

Context `{!StrategySound S}.

#[local] Abbreviation fails l := (lawful (strategy l) = false).

Lemma balance_chooses random st ctx es l :
  random_ok random →
  chooses (fails l) st es
    (match Arr.filter (available st) es with [] => (NextNull, l) | fs => select random st ctx fs l end).1.
Proof.
  intros Hr. destruct (Arr.filter (available st) es) as [|f fs] eqn:Hf.
  - simpl. by apply Arr.filter_nil_inv.
  - rewrite <- Hf. unfold select.
    pose proof (select_sound random (strategy l) ctx (map (view st) (Arr.filter (available st) es)) Hr) as Hin.
    destruct (strategy_select _ _ _ _) as [[v|] s]; simpl in *; [|apply Hin; by rewrite Hf].
    specialize (Hin ltac:(by rewrite Hf)).
    apply list_elem_of_fmap in Hin as (r & -> & Hin). simpl. by apply Arr.elem_of_filter.
Qed.

Lemma single_chooses P st item :
  chooses P st [item] (if available st item then NextEp item else NextNull).
Proof.
  destruct (available st item) eqn:E; simpl; [split; [left|done]|].
  intros e He%list_elem_of_singleton. by subst.
Qed.

Lemma nextLocal_chooses random st ctx l :
  random_ok random → chooses (fails l) st (localEndpoints l) (nextLocal random st ctx l).1.
Proof.
  intros Hr. unfold nextLocal. destruct (localEndpoints l) as [|e [|e' es]].
  - simpl. intros e He. by apply not_elem_of_nil in He.
  - apply single_chooses.
  - by apply balance_chooses.
Qed.

Lemma nextLocal_lawful random st ctx l :
  lawful (strategy (nextLocal random st ctx l).2) = lawful (strategy l).
Proof.
  unfold nextLocal. destruct (localEndpoints l) as [|x [|y es]]; [done..|]. destruct (Arr.filter _ _) as [|f fs]; [done|]. unfold select.
  pose proof (lawful_kept random (strategy l) ctx (map (view st) (f :: fs))) as Hk. by destruct (strategy_select _ _ _ _) as [[v|] s].
Qed.

Lemma hasLocal_false l : hasLocal l = false → localEndpoints l = [].
Proof. unfold hasLocal. intros E. to_prop. by apply length_zero_iff_nil; lia. Qed.

(** [next] chooses among the local endpoints for an internal service, among all
    otherwise, and with [preferLocal] an available local endpoint comes first. *)
Lemma next_chooses preferLocal random st ctx l :
  random_ok random → wf st l →
  let pool := if internal l && hasLocal l then localEndpoints l else endpoints l in
  let r := (next preferLocal random st ctx l).1 in
  chooses (fails l) st pool r ∧
  (preferLocal = true → (∃ e, e ∈ localEndpoints l ∧ available st e = true) →
   (∃ e, r = NextEp e ∧ e ∈ localEndpoints l) ∨ r = NextThrow ∧ fails l).
Proof.
  intros Hr Hwf pool r. pose proof (wf_local _ _ Hwf) as Hloc.
  unfold r, next, pool. clear r pool. destruct (endpoints l) as [|e0 es0] eqn:Hes.
  { rewrite Hloc. unfold hasLocal. rewrite Hloc. simpl. rewrite andb_false_r. simpl.
    split; [intros e He; by apply not_elem_of_nil in He|].
    intros _ (e & He & _). by apply not_elem_of_nil in He. }
  rewrite <- Hes.
  assert (∀ e, e ∈ localEndpoints l → e ∈ endpoints l) as Hsub.
  { intros e He. rewrite Hes, Hloc in *. by apply Arr.elem_of_filter in He as [? _]. }
  pose proof (nextLocal_chooses random st ctx l Hr) as Hnl.
  destruct (internal l && hasLocal l) eqn:Hint.
  - split; [done|]. intros _ (e & He & Hav). destruct (nextLocal random st ctx l).1; simpl in Hnl.
    + specialize (Hnl e He). congruence.
    + left. exists r. naive_solver.
    + by right.
  - destruct es0 as [|e1 es1].
    + rewrite Hes. split; [apply single_chooses|]. intros _ (e & He & Hav).
      assert (e = e0) as -> by (apply Hsub in He; rewrite Hes in He; by apply list_elem_of_singleton in He).
      rewrite Hav. left. eauto.
    + destruct (preferLocal && hasLocal l) eqn:Hpl.
      * destruct (nextLocal random st ctx l) as [r l'] eqn:Enl. simpl in Hnl.
        pose proof (nextLocal_lawful random st ctx l) as Hk. rewrite Enl in Hk. simpl in Hk.
        destruct r as [|e|]; simpl in Hnl; [| |split; [done|auto]].
        -- rewrite <- Hk. split; [by apply balance_chooses|]. intros _ (e & He & Hav). specialize (Hnl e He). congruence.
        -- destruct Hnl as [He Hav]. rewrite Hav. simpl. split; [auto|]. intros _ _. left. eauto.
      * split; [by apply balance_chooses|]. intros -> (e & He & _).
        simpl in Hpl. apply hasLocal_false in Hpl. rewrite Hpl in He. by apply not_elem_of_nil in He.
Qed.

End endpoint_list.

End EndpointList.

(** ** Theorems *)

(** Whatever strategy that keeps its promise balances the list, [next] never
    fails with an invalid endpoint, an endpoint it answers belongs to the list
    and is available, and it answers [null] exactly when no endpoint of its pool
    is available: the local endpoints for an internal action that has some, all
    endpoints otherwise.  With [preferLocal] an available local endpoint always
    wins over remote ones. *)
Theorem endpoint_list_next {S} `{StrategyLaws S} preferLocal random st ctx (l : EndpointList.t S) :
  random_ok random → EndpointList.wf st l →
  let pool := if EndpointList.internal l && EndpointList.hasLocal l
              then EndpointList.localEndpoints l else EndpointList.endpoints l in
  let r := (EndpointList.next preferLocal random st ctx l).1 in
  r ≠ EndpointList.NextThrow ∧
  (∀ e, r = EndpointList.NextEp e → e ∈ EndpointList.endpoints l ∧ EndpointList.available st e = true) ∧
  (r = EndpointList.NextNull ↔ ∀ e, e ∈ pool → EndpointList.available st e = false) ∧
  (preferLocal = true →
   (∃ e, e ∈ EndpointList.endpoints l ∧ Endpoint.local (ep_of st e) = true ∧
         EndpointList.available st e = true) →
   ∃ e, r = EndpointList.NextEp e ∧ Endpoint.local (ep_of st e) = true).
Proof.
  intros Hr Hwf pool r. pose proof (EndpointList.wf_local _ _ Hwf) as Hloc.
  destruct (EndpointList.next_chooses preferLocal random st ctx l Hr Hwf) as [Hc Hp].
  fold pool r in Hc, Hp.
  assert (∀ e, e ∈ pool → e ∈ EndpointList.endpoints l) as Hsub.
  { intros e He. unfold pool in He. destruct (_ && _); [|done].
    rewrite Hloc in He. by apply Arr.elem_of_filter in He as [? _]. }
  split_and!.
  - by destruct r.
  - intros e ->. destruct Hc. auto.
  - destruct r as [|e|]; simpl in Hc; [done| |done]. split; [done|].
    intros Hall. destruct Hc as [He Hav]. rewrite (Hall e He) in Hav. done.
  - intros Hpl (e & He & Hl & Hav). destruct Hp as [(e' & Hr' & He')|[_ Hf]]; [done| | |done].
    + exists e. rewrite Hloc, Arr.elem_of_filter. done.
    + exists e'. rewrite Hloc, Arr.elem_of_filter in He'. naive_solver.
Qed.

Section example.

(** Two nodes, the second one with an open circuit. *)
Definition sample_store : store :=
  let n1 := Node.create "node-1" 0 in
  let n2 := Node.create "node-2" 0 in
  let s := ServiceItem.ServiceItem 1 "posts" "posts" JUndef JUndef JUndef false [] [] in
  let a := Endpoint.EpAction (Action "posts.find" None false None HNone None) in
  Store {[1%positive := n1; 2%positive := n2]} {[1%positive := s]}
    {[1%positive := Endpoint.Endpoint "node-1" 1 true true 1 a;
      2%positive := Endpoint.Endpoint "node-2" 2 false false 1 a]}.

Definition sample_list : EndpointList.t RoundRobin.t :=
  EndpointList.EndpointList RoundRobin.init "posts.find" None false [1%positive; 2%positive] [1%positive].

Lemma sample_list_wf : EndpointList.wf sample_store sample_list.
Proof.
  assert (∀ r, r ∈ [1; 2]%positive → r = 1%positive ∨ r = 2%positive) as Hcases.
  { intros r Hr. rewrite !elem_of_cons in Hr. destruct Hr as [?|[?|Hr]]; auto.
    by apply not_elem_of_nil in Hr. }
  constructor.
  - intros r [-> | ->]%Hcases; vm_compute; eauto.
  - apply (bool_decide_unpack _). vm_compute. exact I.
  - intros r r' [-> | ->]%Hcases [-> | ->]%Hcases; vm_compute; congruence.
  - reflexivity.
Qed.

End example.

Lemma endpoint_list_next_witness :
  let r := (EndpointList.next true draw_low sample_store (Some (CallCtx JNull JNull)) sample_list).1 in
  r ≠ EndpointList.NextThrow ∧ r = EndpointList.NextEp 1.
Proof.
  split; [|reflexivity].
  apply (endpoint_list_next true draw_low sample_store (Some (CallCtx JNull JNull)) sample_list draw_low_ok
    sample_list_wf).
Defined.
