(* ===== verification/Registry.v ===== *)
(** * The service registry

    Models [src/registry/registry.js] with its catalogs: [node-catalog.js],
    [service-catalog.js], [action-catalog.js] and [event-catalog.js], over the
    object store of [RegistryData].  Calls to the broker (local broadcasts,
    change notifications, metrics, the transit) are recorded in order as
    [effect]s; logging is left out. *)

From Stdlib Require Import ZArith Lia Bool.
From stdpp Require Import base tactics list strings option gmap pretty.
From S2P Require Import Prelude Strategies RegistryData EndpointList.

Local Open Scope Z_scope.

(** ** What the registry tells the broker *)

Inductive effect :=
| NodeConnected (nodeID : string) (reconnected : bool)
| NodeUpdated (nodeID : string)
| NodeDisconnected (nodeID : string) (unexpected : bool)
| ServicesChanged (localService : bool)
| UpdateMetrics
| RemovePendingByNodeID (nodeID : string)
| DiscoverNode (nodeID : string).

(** [localNodeInfoInvalidated]: [false], [true] or ["seq"] *)
Inductive invalidation := NotInvalidated | Invalidated | InvalidatedSeq.

(** The broker's configuration as far as the registry reads it. *)
Record broker_cfg := BrokerCfg {
  nodeID : string;
  preferLocal : bool;
  disableBalancer : bool;
  hasTransit : bool;
  started : bool
}.

(** [Service.getVersionedFullName(name, version)] *)
Definition getVersionedFullName (name : string) (version : json) : string :=
  match version with
  | JUndef | JNull => name
  | JNum n => String.append (String.append "v" (pretty n)) (String.append "." name)
  | JStr v => String.append v (String.append "." name)
  | _ => String.append "." name
  end.

Record registry (S : Type) := Registry {
  cfg : broker_cfg;
  st : store;
  nodes : OMap.t ref;
  localNode : ref;
  services : list ref;
  actions : OMap.t (EndpointList.t S);
  events : list (EndpointList.t S);
  invalidated : invalidation;
  out : list effect
}.
Arguments Registry {S}.
Arguments cfg {S}.
Arguments st {S}.
Arguments nodes {S}.
Arguments localNode {S}.
Arguments services {S}.
Arguments actions {S}.
Arguments events {S}.
Arguments invalidated {S}.
Arguments out {S}.

Section registry.
Context {S : Type} `{Strategy S}.

(** [new (Strategies.resolve(strategy) || this.StrategyFactory)(...)] *)
Context (new_strategy : option string → S).

Notation reg := (registry S).

(** Assigning to one field of the registry. *)
Definition set_st (x : store) (r : reg) : reg :=
  Registry (cfg r) x (nodes r) (localNode r) (services r) (actions r) (events r) (invalidated r) (out r).
Definition set_nodes (x : OMap.t ref) (r : reg) : reg :=
  Registry (cfg r) (st r) x (localNode r) (services r) (actions r) (events r) (invalidated r) (out r).
Definition set_services (x : list ref) (r : reg) : reg :=
  Registry (cfg r) (st r) (nodes r) (localNode r) x (actions r) (events r) (invalidated r) (out r).
Definition set_actions (x : OMap.t (EndpointList.t S)) (r : reg) : reg :=
  Registry (cfg r) (st r) (nodes r) (localNode r) (services r) x (events r) (invalidated r) (out r).
Definition set_events (x : list (EndpointList.t S)) (r : reg) : reg :=
  Registry (cfg r) (st r) (nodes r) (localNode r) (services r) (actions r) x (invalidated r) (out r).
Definition set_invalidated (x : invalidation) (r : reg) : reg :=
  Registry (cfg r) (st r) (nodes r) (localNode r) (services r) (actions r) (events r) x (out r).
Definition tell (e : effect) (r : reg) : reg :=
  Registry (cfg r) (st r) (nodes r) (localNode r) (services r) (actions r) (events r) (invalidated r)
    (out r ++ [e]).

Definition node_id (r : reg) (n : ref) : string := Node.id (node_of (st r) n).

(** ** Action catalog *)

(** [ActionCatalog.add(node, service, action)] *)
Definition actions_add (n s : ref) (a : action) (r : reg) : reg :=
  let l := match OMap.get (a_name a) (actions r) with
           | Some l => l
           | None => EndpointList.create (new_strategy (a_strategy a)) (a_name a) None
           end in
  let '(st', l') := EndpointList.add (nodeID (cfg r)) n s (Endpoint.EpAction a) (st r) l in
  set_actions (OMap.set (a_name a) l' (actions r)) (set_st st' r).

Definition actions_isAvailable (name : string) (r : reg) : bool :=
  match OMap.get name (actions r) with
  | Some l => EndpointList.hasAvailable (st r) l
  | None => false
  end.

Definition actions_removeByService (s : ref) (r : reg) : reg :=
  set_actions (map (λ '(k, l), (k, EndpointList.removeByService s (st r) l)) (actions r)) r.

(** [ActionCatalog.remove(actionName, nodeID)] *)
Definition actions_remove (name id : string) (r : reg) : reg :=
  match OMap.get name (actions r) with
  | Some l => set_actions (OMap.set name (EndpointList.removeByNodeID id (st r) l) (actions r)) r
  | None => r
  end.

(** ** Event catalog *)

Definition same_event (name : string) (group : option string) (l : EndpointList.t S) : bool :=
  String.eqb (EndpointList.name l) name &&
  match EndpointList.group l, group with
  | Some g, Some g' => String.eqb g g'
  | None, None => true
  | _, _ => false
  end.

(** [EventCatalog.get(eventName, groupName)] *)
Definition events_get (name : string) (group : option string) (r : reg) : option (EndpointList.t S) :=
  Arr.find (same_event name group) (events r).

(** Replace the first list of that event and group. *)
Fixpoint put_event (l' : EndpointList.t S) (name : string) (group : option string)
    (ls : list (EndpointList.t S)) : list (EndpointList.t S) :=
  match ls with
  | [] => [l']
  | l :: ls => if same_event name group l then l' :: ls else l :: put_event l' name group ls
  end.

(** [event.group || service.name] *)
Definition group_of (e : event) (serviceName : string) : string :=
  match ev_group e with
  | Some g => if String.eqb g "" then serviceName else g
  | None => serviceName
  end.

(** [EventCatalog.add(node, service, event)] *)
Definition events_add (n s : ref) (e : event) (r : reg) : reg :=
  let group := Some (group_of e (ServiceItem.name (svc_of (st r) s))) in
  let l := match events_get (ev_name e) group r with
           | Some l => l
           | None => EndpointList.create (new_strategy (ev_strategy e)) (ev_name e) group
           end in
  let '(st', l') := EndpointList.add (nodeID (cfg r)) n s (Endpoint.EpEvent e) (st r) l in
  set_events (put_event l' (ev_name e) group (events r)) (set_st st' r).

Definition events_removeByService (s : ref) (r : reg) : reg :=
  set_events (map (EndpointList.removeByService s (st r)) (events r)) r.

(** [EventCatalog.remove(eventName, nodeID)] *)
Definition events_remove (name id : string) (r : reg) : reg :=
  set_events (map (λ l, if String.eqb (EndpointList.name l) name
                        then EndpointList.removeByNodeID id (st r) l else l) (events r)) r.

(** ** Service catalog *)

(** [ServiceCatalog.get(fullName, nodeID)] *)
Definition services_get (fullName : string) (id : option string) (r : reg) : option ref :=
  Arr.find (λ s, ServiceItem.equals (node_id r) fullName id (svc_of (st r) s)) (services r).

Definition services_has (fullName : string) (id : option string) (r : reg) : bool :=
  match services_get fullName id r with Some _ => true | None => false end.

(** [ServiceCatalog.add(node, service, local)] *)
Definition services_add (n : ref) (v : svc_schema) (fullName : string) (local : bool) (r : reg)
    : ref * reg :=
  let '(s, st') := new_svc (ServiceItem.create n v fullName local) (st r) in
  (s, set_services (services r ++ [s]) (set_st st' r)).

(** The endpoints of a service leave both catalogs. *)
Definition remove_endpoints (s : ref) (r : reg) : reg :=
  events_removeByService s (actions_removeByService s r).

(** [ServiceCatalog.removeAllByNodeID(nodeID)]: the predicate of [_.remove] runs
    over the services in order. *)
Definition services_removeAllByNodeID (id : string) (r : reg) : reg :=
  let gone s := String.eqb (node_id r (ServiceItem.node (svc_of (st r) s))) id in
  let r' := foldl (λ r s, if gone s then remove_endpoints s r else r) r (services r) in
  set_services (Arr.remove gone (services r)) r'.

(** [ServiceCatalog.remove(fullName, nodeID)] with [removeFromArray] *)
Definition services_remove (fullName : string) (id : option string) (r : reg) : reg :=
  match services_get fullName id r with
  | Some s =>
      let r := remove_endpoints s r in
      set_services
        (match Arr.findIndex (Pos.eqb s) (services r) with
         | Some i => Arr.splice1 i (services r)
         | None => services r
         end) r
  | None => r
  end.

(** ** Registration *)

(** [checkActionVisibility(action, node)] *)
Definition checkActionVisibility (a : action) (n : Node.t) : bool :=
  match a_visibility a with
  | None | Some Published | Some Public => true
  | Some Protected => Node.local n
  | _ => false
  end.

(** The independent copy [registerActions] puts into the catalogs. *)
Definition service_action (c : broker_cfg) (n : Node.t) (a : action) : action :=
  Action (a_name a) (a_visibility a) (a_protected a) (a_strategy a)
    (if Node.local n then HWrapped "localAction" (a_handler a)
     else if hasTransit c then HWrapped "remoteAction" HRequest
     else a_handler a)
    (if disableBalancer c && hasTransit c then Some (HWrapped "remoteAction" HRequest)
     else a_remoteHandler a).

(** [registerActions(node, service, actions)] *)
Definition registerActions (n s : ref) (acts : OMap.t action) (r : reg) : reg :=
  foldl (λ r '(_, a),
    if checkActionVisibility a (node_of (st r) n) then
      let a' := service_action (cfg r) (node_of (st r) n) a in
      let r := actions_add n s a' r in
      set_st (upd_svc (ServiceItem.addAction a') s (st r)) r
    else r) r acts.

Definition service_event (n : Node.t) (e : event) : event :=
  Event (ev_name e) (ev_group e) (ev_strategy e)
    (if Node.local n then HWrapped "localEvent" (ev_handler e) else ev_handler e).

(** [registerEvents(node, service, events)] *)
Definition registerEvents (n s : ref) (evs : OMap.t event) (r : reg) : reg :=
  foldl (λ r '(_, e),
    let e' := service_event (node_of (st r) n) e in
    let r := events_add n s e' r in
    set_st (upd_svc (ServiceItem.addEvent e') s (st r)) r) r evs.

(** [unregisterService(fullName, nodeID)] *)
Definition unregisterService (fullName : string) (id : option string) (r : reg) : reg :=
  let id := match id with
            | Some i => if String.eqb i "" then nodeID (cfg r) else i
            | None => nodeID (cfg r)
            end in
  let r := services_remove fullName (Some id) r in
  if String.eqb id (nodeID (cfg r)) then
    let r :=
      match Node.services (node_of (st r) (localNode r)) with
      | Node.Items l =>
          match Arr.findIndex (λ s, String.eqb (ServiceItem.fullName (svc_of (st r) s)) fullName) l with
          | Some i =>
              set_st (upd_node (Node.set_services (Node.Items (Arr.splice1 i l))) (localNode r) (st r)) r
          | None => r
          end
      | Node.Announced _ => r
      end in
    set_invalidated InvalidatedSeq r
  else r.

Definition unregisterServicesByNode (id : string) (r : reg) : reg := services_removeAllByNodeID id r.

Definition unregisterAction (n : ref) (name : string) (r : reg) : reg :=
  actions_remove name (node_id r n) r.

Definition unregisterEvent (n : ref) (name : string) (r : reg) : reg :=
  events_remove name (node_id r n) r.

(** [registerLocalService(svc)]; a local service always has its full name. *)
Definition registerLocalService (v : svc_schema) (r : reg) : reg :=
  let fn := default "" (sv_fullName v) in
  if services_has fn (Some (nodeID (cfg r))) r then r
  else
    let '(s, r) := services_add (localNode r) v fn true r in
    let r := match sv_actions v with Some a => registerActions (localNode r) s a r | None => r end in
    let r := match sv_events v with Some e => registerEvents (localNode r) s e r | None => r end in
    let r :=
      match Node.services (node_of (st r) (localNode r)) with
      | Node.Items l =>
          set_st (upd_node (Node.set_services (Node.Items (l ++ [s]))) (localNode r) (st r)) r
      | Node.Announced _ => r
      end in
    tell UpdateMetrics (tell (ServicesChanged true) (set_invalidated InvalidatedSeq r)).

(** The full name [registerServices] gives an announced service. *)
Definition full_name (v : svc_schema) : string :=
  match sv_fullName v with
  | Some fn => if String.eqb fn "" then getVersionedFullName (sv_name v) (sv_version v) else fn
  | None => getVersionedFullName (sv_name v) (sv_version v)
  end.

Definition has_key {V} (o : option (OMap.t V)) (k : string) : bool :=
  match o with Some m => OMap.has k m | None => false end.

(** One turn of the first loop of [registerServices]. *)
Definition registerService (n : ref) (r : reg) (v : svc_schema) : reg :=
  let '(s, prev, r) :=
    match services_get (full_name v) (Some (node_id r n)) r with
    | None => let '(s, r) := services_add n v (full_name v) false r in (s, None, r)
    | Some s =>
        (s, Some (ServiceItem.actions (svc_of (st r) s), ServiceItem.events (svc_of (st r) s)),
         set_st (upd_svc (ServiceItem.update v (full_name v)) s (st r)) r)
    end in
  (* Register actions, then remove the old ones that are gone *)
  let r := match sv_actions v with Some a => registerActions n s a r | None => r end in
  let r := match prev with
           | Some (pa, _) =>
               foldl (λ r '(name, _),
                 if has_key (sv_actions v) name then r else unregisterAction n name r) r pa
           | None => r
           end in
  (* The same for events *)
  let r := match sv_events v with Some e => registerEvents n s e r | None => r end in
  match prev with
  | Some (_, pe) =>
      foldl (λ r '(name, _),
        if has_key (sv_events v) name then r else unregisterEvent n name r) r pe
  | None => r
  end.

(** [registerServices(node, serviceList)] *)
Definition registerServices (n : ref) (serviceList : list svc_schema) (r : reg) : reg :=
  let r := foldl (registerService n) r serviceList in
  (* remove old services which do not exist in the new list *)
  let r := foldl (λ r s,
    let svc := svc_of (st r) s in
    if Pos.eqb (ServiceItem.node svc) n then
      if existsb (λ v, ServiceItem.equals (node_id r) (full_name v) None svc) serviceList then r
      else unregisterService (ServiceItem.fullName svc) (Some (node_id r n)) r
    else r) r (services r) in
  tell UpdateMetrics (tell (ServicesChanged false) r).

(** ** Node catalog *)

(** [new NodeCatalog(...)] with [createLocalNode()], in a new registry *)
Definition create (c : broker_cfg) (instanceID : string) (hostname : string) (ips : list string)
    (client metadata : json) (now : Z) : reg :=
  let n := Node.Node (nodeID c) (JStr instanceID) true true now (JObj []) client metadata ips None
             (Some hostname) None None (Node.Items []) None None 1 None in
  let '(ln, st0) := new_node n empty_store in
  Registry c st0 (OMap.set (nodeID c) ln []) ln [] [] [] Invalidated [UpdateMetrics].

Definition onlineCount (r : reg) : nat :=
  length (Arr.filter (λ n, Node.available (node_of (st r) n)) (OMap.values (nodes r))).

(** The announced definitions with the full names [registerServices] filled in. *)
Definition named (v : svc_schema) : svc_schema :=
  SvcSchema (sv_name v) (Some (full_name v)) (sv_version v) (sv_settings v) (sv_metadata v)
    (sv_actions v) (sv_events v).

(** [NodeCatalog.processNodeInfo(payload)] *)
Definition processNodeInfo (p : node_info) (now : Z) (r : reg) : reg :=
  let id := i_sender p in
  let '(n, isNew, isReconnected, r) :=
    match OMap.get id (nodes r) with
    | None =>
        let '(n, st') := new_node (Node.create id now) (st r) in
        (n, true, false, set_nodes (OMap.set id n (nodes r)) (set_st st' r))
    | Some n =>
        if Node.available (node_of (st r) n) then (n, false, false, r)
        else (n, false, true, set_st (upd_node (Node.reconnect now) n (st r)) r)
    end in
  let '(node', needRegister) := Node.update p isReconnected (node_of (st r) n) in
  let r := set_st (upd_node (λ _, node') n (st r)) r in
  let r :=
    match i_services p with
    | Some l =>
        if needRegister then
          (* the objects of the list are shared with the node, which sees the full names *)
          let r := set_st (upd_node (Node.set_services (Node.Announced (Some (map named l)))) n (st r)) r in
          registerServices n l r
        else r
    | None => r
    end in
  if isNew then tell UpdateMetrics (tell (NodeConnected id false) r)
  else if isReconnected then tell UpdateMetrics (tell (NodeConnected id true) r)
  else tell (NodeUpdated id) r.

(** [NodeCatalog.disconnected(nodeID, isUnexpected)] *)
Definition disconnected (id : string) (isUnexpected : bool) (now : Z) (r : reg) : reg :=
  match OMap.get id (nodes r) with
  | Some n =>
      if Node.available (node_of (st r) n) then
        let r := set_st (upd_node (Node.disconnected now) n (st r)) r in
        let r := unregisterServicesByNode (node_id r n) r in
        let r := tell UpdateMetrics (tell (ServicesChanged false)
                   (tell (NodeDisconnected (node_id r n) isUnexpected) r)) in
        if hasTransit (cfg r) then tell (RemovePendingByNodeID id) r else r
      else r
  | None => r
  end.

(** [NodeCatalog.delete(id)], which the discoverer calls for long-gone nodes *)
Definition nodes_delete (id : string) (r : reg) : reg := set_nodes (OMap.delete id (nodes r)) r.

End registry.
