(* ===== verification/LocalInfo.v ===== *)
(** * The information a node gives about itself

    Models [regenerateLocalRawInfo], [getLocalNodeInfo] and [getNodeInfo] of
    [src/registry/registry.js] and [getLocalNodeServices] of
    [src/registry/service-catalog.js].  The raw info is the payload of INFO packets
    and of gossip responses; it has no sender until it is received.
    [utils.safetyObject] makes a deep copy of it, which a value does not need. *)

From Stdlib Require Import ZArith Lia Bool.
From stdpp Require Import base tactics list strings option gmap.
From S2P Require Import Prelude Strategies RegistryData EndpointList Registry.

Local Open Scope Z_scope.

Module LocalInfo.

(** [_.omit(action, ["handler", "remoteHandler", "service"])] *)
Definition omit_action (a : action) : action :=
  Action (a_name a) (a_visibility a) (a_protected a) (a_strategy a) HNone None.
Definition omit_event (e : event) : event := Event (ev_name e) (ev_group e) (ev_strategy e) HNone.

(** One item of [getLocalNodeServices()] *)
Definition local_item (s : ServiceItem.t) : svc_schema :=
  SvcSchema (ServiceItem.name s) (Some (ServiceItem.fullName s)) (ServiceItem.version s)
    (ServiceItem.settings s) (ServiceItem.metadata s)
    (Some (foldl (λ m '(_, a), if a_protected a then m else OMap.set (a_name a) (omit_action a) m) []
             (ServiceItem.actions s)))
    (Some (foldl (λ m '(_, e), OMap.set (ev_name e) (omit_event e) m) [] (ServiceItem.events s))).

Section info.
Context {S : Type} `{Strategy S}.

Notation reg := (registry S).

(** [getLocalNodeServices()] *)
Definition getLocalNodeServices (r : reg) : list svc_schema :=
  map (λ s, local_item (svc_of (st r) s))
    (Arr.filter (λ s, ServiceItem.local (svc_of (st r) s)) (services r)).

(** [_.pick(node, [...])] with the services *)
Definition raw_info (n : Node.t) (svcs : list svc_schema) : node_info :=
  NodeInfo "" (Node.instanceID n) (Some (Node.seq n)) (Node.metadata n) (Node.ipList n) (Node.hostname n)
    (Node.port n) (Node.client n) (Node.config n) (Some svcs).

(** [regenerateLocalRawInfo(incSeq, isStopping)] *)
Definition regenerateLocalRawInfo (incSeq isStopping : bool) (r : reg) : node_info * reg :=
  let n := localNode r in
  let r := if incSeq
           then set_st (upd_node (λ x, Node.set_seq (Node.seq x + 1) x) n (st r)) r
           else r in
  let svcs := if negb isStopping && (started (cfg r) || incSeq) then getLocalNodeServices r else [] in
  let info := raw_info (node_of (st r) n) svcs in
  (info, set_st (upd_node (Node.set_rawInfo info) n (st r)) r).

(** [getLocalNodeInfo(force)] *)
Definition getLocalNodeInfo (force : bool) (r : reg) : node_info * reg :=
  match force, Node.rawInfo (node_of (st r) (localNode r)), invalidated r with
  | false, Some info, NotInvalidated => (info, r)
  | _, _, i =>
      let '(info, r) := regenerateLocalRawInfo (match i with InvalidatedSeq => true | _ => false end) false r in
      (info, set_invalidated NotInvalidated r)
  end.

(** [getNodeInfo(nodeID)]; [None] is [null] or the [null] raw info of a node that sent none. *)
Definition getNodeInfo (id : string) (r : reg) : option node_info * reg :=
  match OMap.get id (nodes r) with
  | None => (None, r)
  | Some n =>
      if Node.local (node_of (st r) n) then
        let '(info, r) := getLocalNodeInfo false r in (Some info, r)
      else (Node.rawInfo (node_of (st r) n), r)
  end.

(** [info.sender = nodeID], as a receiver sees the info *)
Definition with_sender (id : string) (i : node_info) : node_info :=
  NodeInfo id (i_instanceID i) (i_seq i) (i_metadata i) (i_ipList i) (i_hostname i) (i_port i) (i_client i)
    (i_config i) (i_services i).

End info.
End LocalInfo.
