(* ===== verification/Gossip.v ===== *)
(** * Gossip of the TCP transporter

    Models the gossip protocol of [src/transporters/tcp.js]: periodic requests that tell
    another node the sequence numbers of all known nodes, the response with what is
    newer, the hello message, nodes learnt from UDP discovery, and what broken
    connections do.  Objects of a message are ordered maps by node ID; an absent
    [online] or [offline] object is an empty one. *)

From Stdlib Require Import ZArith Lia Bool QArith.
From stdpp Require Import base tactics list strings option gmap.
From S2P Require Import Prelude Strategies RegistryData EndpointList Registry LocalInfo.

Local Open Scope Z_scope.

Module Gossip.

(** [online: { nodeID: [seq, cpuSeq, cpu] }], [offline: { nodeID: seq }] *)
Record request := Request {
  q_sender : string;
  q_online : OMap.t (Z * Z * Z);
  q_offline : OMap.t Z
}.

(** A row of [online] in a response: [[info]], [[cpuSeq, cpu]] or [[info, cpuSeq, cpu]] *)
Inductive row :=
| RowInfo (info : option node_info)
| RowCpu (cpuSeq cpu : Z)
| RowFull (info : option node_info) (cpuSeq cpu : Z).

Record response := Response {
  s_sender : string;
  s_online : OMap.t row;
  s_offline : OMap.t Z
}.

Section gossip.
Context {S : Type} `{Strategy S} (new_strategy : option string → S).

Notation reg := (registry S).

Definition toArray (r : reg) : list ref := OMap.values (nodes r).

Definition upd (f : Node.t → Node.t) (n : ref) (r : reg) : reg := set_st (upd_node f n (st r)) r.

(** [node.cpuSeq || 0] and [node.cpu || 0] *)
Definition cpuSeq_of (n : Node.t) : Z := default 0 (Node.cpuSeq n).
Definition cpu_of (n : Node.t) : Z := default 0 (Node.cpu n).

(** ** Unknown nodes *)

Definition offline_node (id address : string) (port : option Z) (now : Z) : Node.t :=
  let n := Node.create id now in
  Node.Node id (Node.instanceID n) false false (Node.lastHeartbeatTime n) (Node.config n) (Node.client n)
    (Node.metadata n) [address] port (Some address) None None (Node.services n) None None 0 (Some now).

(** [addOfflineNode(id, address, port)] *)
Definition addOfflineNode (id address : string) (port : option Z) (now : Z) (r : reg) : ref * reg :=
  let '(n, st') := new_node (offline_node id address port now) (st r) in
  (n, set_nodes (OMap.set id n (nodes r)) (set_st st' r)).

Definition set_address (address : string) (port : option Z) (x : Node.t) : Node.t :=
  Node.Node (Node.id x) (Node.instanceID x) (Node.available x) (Node.local x) (Node.lastHeartbeatTime x)
    (Node.config x) (Node.client x) (Node.metadata x)
    (if existsb (String.eqb address) (Node.ipList x) then Node.ipList x else address :: Node.ipList x)
    port (Some address) (Node.udpAddress x) (Node.rawInfo x) (Node.services x) (Node.cpu x)
    (Node.cpuSeq x) (Node.seq x) (Node.offlineSince x).

(** The [message] handler of the UDP server *)
Definition onUdpMessage (id address : string) (port : option Z) (now : Z) (r : reg) : reg :=
  if String.eqb id "" || String.eqb id (nodeID (cfg r)) then r
  else
    let '(n, r) :=
      match OMap.get id (nodes r) with
      | None => addOfflineNode id address port now r
      | Some n => (n, if Node.available (node_of (st r) n) then r else upd (set_address address port) n r)
      end in
    upd (Node.set_udpAddress (Some address)) n r.

(** [processGossipHello(msg, socket)] *)
Definition processGossipHello (sender host : string) (port : option Z) (remoteAddress : string) (now : Z)
    (r : reg) : reg :=
  let '(n, r) :=
    match OMap.get sender (nodes r) with
    | None => addOfflineNode sender host port now r
    | Some n => (n, r)
    end in
  match Node.udpAddress (node_of (st r) n) with
  | None => upd (Node.set_udpAddress (Some remoteAddress)) n r
  | Some a => if String.eqb a "" then upd (Node.set_udpAddress (Some remoteAddress)) n r else r
  end.

(** ** Requests *)

(** One turn of the loop of [sendGossipRequest] *)
Definition tell_node (r : reg) (p : request) (n : ref) : request :=
  let x := node_of (st r) n in
  if Node.available x
  then Request (q_sender p) (OMap.set (Node.id x) (Node.seq x, cpuSeq_of x, cpu_of x) (q_online p)) (q_offline p)
  else if 0 <? Node.seq x then Request (q_sender p) (q_online p) (OMap.set (Node.id x) (Node.seq x) (q_offline p))
  else p.

Definition request_of (r : reg) : request :=
  foldl (tell_node r) (Request (nodeID (cfg r)) [] []) (toArray r).

Definition onlineList (r : reg) : list ref :=
  Arr.filter (λ n, Node.available (node_of (st r) n) && negb (Node.local (node_of (st r) n))) (toArray r).
Definition offlineList (r : reg) : list ref :=
  Arr.filter (λ n, negb (Node.available (node_of (st r) n))) (toArray r).

(** [sendGossipToRandomEndpoint(data, endpoints)]: the receiver; [draw k] is
    [Math.floor(Math.random() * k)] *)
Definition random_endpoint (draw : nat → nat) (eps : list ref) (r : reg) : option string :=
  match eps with
  | [] => None
  | [e] => Some (node_id r e)
  | _ => option_map (node_id r) (eps !! draw (length eps))
  end.

(** [sendGossipRequest()]: the receivers and what each is sent; [coin] is the number drawn
    for the offline nodes. *)
Definition sendGossipRequest (draw1 draw2 : nat → nat) (coin : Q) (r : reg) : list (string * request) :=
  if (length (toArray r) <=? 1)%nat then []
  else
    let to e := match e with Some id => [(id, request_of r)] | None => [] end in
    let on := onlineList r in
    let off := offlineList r in
    let ratio := (Z.of_nat (length off) # Pos.of_succ_nat (length on))%Q in
    to (random_endpoint draw1 on r) ++
    (if (0 <? length off)%nat && (Qle_bool 1 ratio || negb (Qle_bool ratio coin))
     then to (random_endpoint draw2 off r) else []).

(** ** Processing a request *)

Definition put_online (id : string) (x : row) (s : response) : response :=
  Response (s_sender s) (OMap.set id x (s_online s)) (s_offline s).
Definition put_offline (id : string) (x : Z) (s : response) : response :=
  Response (s_sender s) (s_online s) (OMap.set id x (s_offline s)).

(** The row about a node that is online here *)
Definition newer_row (n : ref) (acc : reg * response) : reg * response :=
  let '(r, s) := acc in
  let '(info, r) := LocalInfo.getNodeInfo (node_id r n) r in
  let x := node_of (st r) n in
  (r, put_online (Node.id x) (RowFull info (cpuSeq_of x) (cpu_of x)) s).

(** One turn of the loop of [processGossipRequest] *)
Definition answer_node (p : request) (now : Z) (acc : reg * response) (n : ref) : reg * response :=
  let '(r, s) := acc in
  let x := node_of (st r) n in
  let online := OMap.get (Node.id x) (q_online p) in
  let offline := match OMap.get (Node.id x) (q_offline p) with
                 | Some q => if q =? 0 then None else Some q
                 | None => None
                 end in
  let seq := match offline, online with
             | Some q, _ => q
             | None, Some (q, _, _) => q
             | None, None => 0
             end in
  if (seq =? 0) || (seq <? Node.seq x) then
    (* We have newer info or requester doesn't know it *)
    if Node.available x then newer_row n (r, s)
    else (r, put_offline (Node.id x) (Node.seq x) s)
  else
    match offline, online with
    | Some q, _ =>
        (* Requester said it is OFFLINE *)
        if negb (Node.available x) then
          (if Node.seq x <? q then upd (Node.set_seq q) n r else r, s)
        else if negb (Node.local x) then
          (upd (Node.set_seq q) n (disconnected (Node.id x) false now r), s)
        else
          let r := upd (Node.set_seq (q + 1)) n r in
          let '(info, r) := LocalInfo.getLocalNodeInfo true r in
          let x := node_of (st r) n in
          (r, put_online (Node.id x) (RowFull (Some info) (cpuSeq_of x) (cpu_of x)) s)
    | None, Some (_, cpuSeq, cpu) =>
        (* Requester said it is ONLINE *)
        if Node.available x then
          if cpuSeq_of x <? cpuSeq then (upd (Node.heartbeat (Some cpu) (Some cpuSeq) now) n r, s)
          else if cpuSeq <? cpuSeq_of x then (r, put_online (Node.id x) (RowCpu (cpuSeq_of x) (cpu_of x)) s)
          else (r, s)
        else (r, s)
    | None, None => (r, s)
    end.

(** [processGossipRequest(msg)]: the registry, and the receiver and content of the response;
    to a sender that is not known nothing is sent, since reading its ID throws. *)
Definition processGossipRequest (p : request) (now : Z) (r : reg) : reg * option (string * response) :=
  let '(r, s) := foldl (answer_node p now) (r, Response (nodeID (cfg r)) [] []) (toArray r) in
  (r, match s_online s, s_offline s with
      | [], [] => None
      | _, _ => option_map (λ n, (node_id r n, s)) (OMap.get (q_sender p) (nodes r))
      end).

(** ** Processing a response *)

(** [node.seq < info.seq]; comparing with an undefined number is false. *)
Definition is_newer (r : reg) (node : option ref) (info : node_info) : bool :=
  match node with
  | None => true
  | Some n => match i_seq info with Some q => Node.seq (node_of (st r) n) <? q | None => false end
  end.

(** One turn of the loop over [payload.online] *)
Definition learn_online (now : Z) (r : reg) (e : string * row) : reg :=
  let '(id, rw) := e in
  if String.eqb id (nodeID (cfg r)) then r
  else
    let info := match rw with RowInfo i | RowFull i _ _ => i | RowCpu _ _ => None end in
    let cpus := match rw with RowCpu q c | RowFull _ q c => Some (q, c) | RowInfo _ => None end in
    let r :=
      match info with
      | Some i =>
          if is_newer r (OMap.get id (nodes r)) i
          then processNodeInfo new_strategy (LocalInfo.with_sender id i) now r
          else r
      | None => r
      end in
    match OMap.get id (nodes r), cpus with
    | Some n, Some (q, c) =>
        if negb (q =? 0) && (cpuSeq_of (node_of (st r) n) <? q)
        then upd (Node.heartbeat (Some c) (Some q) now) n r else r
    | _, _ => r
    end.

(** One turn of the loop over [payload.offline] *)
Definition learn_offline (now : Z) (r : reg) (e : string * Z) : reg :=
  let '(id, q) := e in
  if String.eqb id (nodeID (cfg r)) then r
  else
    match OMap.get id (nodes r) with
    | None => r
    | Some n =>
        if Node.seq (node_of (st r) n) <? q then
          let r := if Node.available (node_of (st r) n)
                   then disconnected (node_id r n) false now r else r in
          upd (Node.set_seq q) n r
        else r
    end.

(** [processGossipResponse(msg)] *)
Definition processGossipResponse (p : response) (now : Z) (r : reg) : reg :=
  foldl (learn_offline now) (foldl (learn_online now) r (s_online p)) (s_offline p).

(** ** Connections *)

(** The [error] and [end] handlers of the writer, and the [catch] of [send] *)
Definition connectionLost (id : string) (now : Z) (r : reg) : reg := disconnected id false now r.
Definition sendFailed (id : string) (now : Z) (r : reg) : reg := disconnected id true now r.

(** The gossip timer: [updateLocalInfo] with the measured CPU usage, then a request *)
Definition onGossipTimer (cpu : Z) (draw1 draw2 : nat → nat) (coin : Q) (r : reg) : list (string * request) * reg :=
  let r := upd (Node.updateLocalInfo cpu) (localNode r) r in
  (sendGossipRequest draw1 draw2 coin r, r).

End gossip.
End Gossip.
