(* ===== verification/Discoverer.v ===== *)
(** * The discoverer

    Models the state-changing part of [src/registry/discoverers/base.js] and
    [local.js]: received heartbeats, the two periodic checks over the node
    catalog and the removal of a remote node.  Times are whole seconds
    ([Math.round(process.uptime())]) and come in as arguments. *)

From Stdlib Require Import ZArith Lia Bool.
From stdpp Require Import base tactics list strings option gmap.
From S2P Require Import Prelude Strategies RegistryData EndpointList Registry.

Local Open Scope Z_scope.

Module Discoverer.

Record opts := Opts {
  heartbeatTimeout : Z;
  disableHeartbeatChecks : bool;
  disableOfflineNodeRemoving : bool;
  cleanOfflineNodesTimeout : Z
}.

(** The payload of a heartbeat packet. *)
Record heartbeat := Heartbeat {
  hb_cpu : option Z;
  hb_cpuSeq : option Z;
  hb_seq : option Z;
  hb_instanceID : option string
}.

Section discoverer.
Context {S : Type} `{Strategy S}.

Notation reg := (registry S).

(** [LocalDiscoverer.discoverNode(nodeID)] *)
Definition discoverNode (id : string) (r : reg) : reg :=
  if hasTransit (cfg r) then tell (DiscoverNode id) r else r.

(** [heartbeatReceived(nodeID, payload)] of a discoverer whose [discoverNode] is [discover];
    [None] is the TypeError of calling [startsWith] on an instance ID that is not a string. *)
Definition heartbeatReceived_by (discover : string → reg → reg) (id : string) (p : heartbeat) (now : Z) (r : reg)
    : option reg :=
  match OMap.get id (nodes r) with
  | None => Some (discover id r)
  | Some n =>
      let node := node_of (st r) n in
      let beat := set_st (upd_node (Node.heartbeat (hb_cpu p) (hb_cpuSeq p) now) n (st r)) r in
      if negb (Node.available node) then Some (discover id r)
      else if (match hb_seq p with Some q => negb (Z.eqb (Node.seq node) q) | None => false end)
      then Some (discover id r)
      else
        match hb_instanceID p, Node.instanceID node with
        | None, _ => Some beat
        | Some i, JStr j => if String.prefix i j then Some beat else Some (discover id r)
        | Some _, _ => None
        end
  end.

Definition heartbeatReceived : string → heartbeat → Z → reg → option reg := heartbeatReceived_by discoverNode.

Definition stamp (now : Z) (n : Node.t) : Node.t :=
  Node.Node (Node.id n) (Node.instanceID n) (Node.available n) (Node.local n) now (Node.config n)
    (Node.client n) (Node.metadata n) (Node.ipList n) (Node.port n) (Node.hostname n)
    (Node.udpAddress n) (Node.rawInfo n) (Node.services n) (Node.cpu n) (Node.cpuSeq n)
    (Node.seq n) (Node.offlineSince n).

(** One turn of the loop of [checkRemoteNodes]. *)
Definition checkRemoteNode (o : opts) (now : Z) (r : reg) (n : ref) : reg :=
  let node := node_of (st r) n in
  if Node.local node || negb (Node.available node) then r
  else if Z.eqb (Node.lastHeartbeatTime node) 0 then set_st (upd_node (stamp now) n (st r)) r
  else if heartbeatTimeout o <? now - Node.lastHeartbeatTime node
  then disconnected (Node.id node) true now r
  else r.

(** [checkRemoteNodes()]: over a copy of the nodes *)
Definition checkRemoteNodes (o : opts) (now : Z) (r : reg) : reg :=
  if disableHeartbeatChecks o then r
  else foldl (checkRemoteNode o now) r (OMap.values (nodes r)).

(** One turn of the loop of [checkOfflineNodes]. *)
Definition checkOfflineNode (o : opts) (now : Z) (r : reg) (n : ref) : reg :=
  let node := node_of (st r) n in
  if Node.local node || Node.available node then r
  else if Z.eqb (Node.lastHeartbeatTime node) 0 then set_st (upd_node (stamp now) n (st r)) r
  else if cleanOfflineNodesTimeout o <? now - Node.lastHeartbeatTime node
  then nodes_delete (Node.id node) r
  else r.

(** [checkOfflineNodes()] *)
Definition checkOfflineNodes (o : opts) (now : Z) (r : reg) : reg :=
  if disableOfflineNodeRemoving o || Z.eqb (cleanOfflineNodesTimeout o) 0 then r
  else foldl (checkOfflineNode o now) r (OMap.values (nodes r)).

(** [remoteNodeDisconnected(nodeID, isUnexpected)] *)
Definition remoteNodeDisconnected (id : string) (isUnexpected : bool) (now : Z) (r : reg) : reg :=
  disconnected id isUnexpected now r.

(** [beat()] up to the heartbeat it sends: the local CPU usage was measured. *)
Definition beat (cpu : Z) (r : reg) : reg :=
  set_st (upd_node (Node.updateLocalInfo cpu) (localNode r) (st r)) r.

End discoverer.
End Discoverer.
