(* ===== verification/Routing.v ===== *)
(** * Routing calls and events

    Models how [src/service-broker.js] and [src/registry/event-catalog.js] choose
    endpoints: [findNextActionEndpoint], [callWithoutBalancer] and
    [_getLocalActionEndpoint] for actions, [getBalancedEndpoints],
    [getAllEndpoints], [getGroups] and [emitLocalServices] for events, and
    what [emit], [broadcast] and [broadcastLocal] hand to local handlers and
    to the transit.  The contexts that wrap a call are represented by the
    endpoint and groups they carry. *)

From Stdlib Require Import ZArith Lia Bool Ascii.
From stdpp Require Import base tactics list strings option gmap.
From S2P Require Import Prelude Utils Strategies RegistryData EndpointList Registry.

Local Open Scope Z_scope.

Module Routing.

(** What a lookup of an action's endpoint answers. *)
Inductive route :=
| Routed (ep : ref)
| ServiceNotFound (action : string) (nodeID : option string)
| ServiceNotAvailable (action : string) (nodeID : option string)
| InvalidEndpoint.

(** A delivery of an event: a local handler is called, or a packet is sent to the
    node of an endpoint (to the whole group when there is none). *)
Inductive delivery :=
| CallHandler (ep : ref)
| SendEvent (nodeID : option string) (groups : option (list string))
| LocalBus (event : string).

(** [_.uniqBy(list, key)] *)
Fixpoint uniq_by {A} (key : A → string) (seen : list string) (l : list A) : list A :=
  match l with
  | [] => []
  | x :: l =>
      if existsb (String.eqb (key x)) seen then uniq_by key seen l
      else x :: uniq_by key (key x :: seen) l
  end.

Section routing.
Context {S : Type} `{Strategy S}.

(** The random source of the strategies and the language's regular expressions. *)
Context (random : random_source) (regexp : list ascii → list ascii → bool).

Notation reg := (registry S).

(** [utils.match(eventName, list.name)] *)
Definition event_matches (eventName pattern : string) : bool :=
  Match.match_ regexp (String.list_ascii_of_string eventName) (String.list_ascii_of_string pattern).

(** ** Actions *)

(** [getActionEndpointByNodeId(actionName, nodeID)] *)
Definition getActionEndpointByNodeId (name id : string) (r : reg) : option ref :=
  match OMap.get name (actions r) with
  | Some l => EndpointList.getEndpointByNodeID (st r) id l
  | None => None
  end.

(** [opts.nodeID] when it is truthy *)
Definition direct (id : option string) : option string :=
  match id with Some i => if String.eqb i "" then None else Some i | None => None end.

(** [findNextActionEndpoint(actionName, opts, ctx)] *)
Definition findNextActionEndpoint (name : string) (id : option string) (ctx : option call_ctx) (r : reg)
    : route * reg :=
  match direct id with
  | Some i =>
      match getActionEndpointByNodeId name i r with
      | Some ep => (Routed ep, r)
      | None => (ServiceNotFound name (Some i), r)
      end
  | None =>
      match OMap.get name (actions r) with
      | None => (ServiceNotFound name None, r)
      | Some l =>
          let '(res, l') := EndpointList.next (preferLocal (cfg r)) random (st r) ctx l in
          (match res with
           | EndpointList.NextEp ep => Routed ep
           | EndpointList.NextNull => ServiceNotAvailable name None
           | EndpointList.NextThrow => InvalidEndpoint
           end,
           set_actions (OMap.set name l' (actions r)) r)
      end
  end.

(** The endpoint [callWithoutBalancer] uses, and the node it sends to. *)
Definition callWithoutBalancer (name : string) (id : option string) (r : reg) : route * option string :=
  match direct id with
  | Some i =>
      match getActionEndpointByNodeId name i r with
      | Some ep => (Routed ep, Some i)
      | None => (ServiceNotFound name (Some i), None)
      end
  | None =>
      match OMap.get name (actions r) with
      | None => (ServiceNotFound name None, None)
      | Some l =>
          match EndpointList.getFirst l with
          | Some ep => (Routed ep, None)
          | None => (ServiceNotAvailable name None, None)
          end
      end
  end.

(** [_getLocalActionEndpoint(actionName, ctx)] *)
Definition getLocalActionEndpoint (name : string) (ctx : option call_ctx) (r : reg) : route * reg :=
  match OMap.get name (actions r) with
  | None => (ServiceNotFound name (Some (nodeID (cfg r))), r)
  | Some l =>
      if negb (EndpointList.hasLocal l) then (ServiceNotFound name (Some (nodeID (cfg r))), r)
      else
        let '(res, l') := EndpointList.nextLocal random (st r) ctx l in
        (match res with
         | EndpointList.NextEp ep => Routed ep
         | EndpointList.NextNull => ServiceNotAvailable name (Some (nodeID (cfg r)))
         | EndpointList.NextThrow => InvalidEndpoint
         end,
         set_actions (OMap.set name l' (actions r)) r)
  end.

(** ** Events *)

Definition group_name (l : EndpointList.t S) : string := default "" (EndpointList.group l).

(** The lists an event is for: the name matches and the group is asked for. *)
Definition concerns (eventName : string) (groups : option (list string)) (l : EndpointList.t S) : bool :=
  event_matches eventName (EndpointList.name l) &&
  match groups with
  | None | Some [] => true
  | Some gs => existsb (String.eqb (group_name l)) gs
  end.

(** [getBalancedEndpoints(eventName, groups, ctx)]: the chosen endpoints with their
    groups, and the lists after the choice; [None] when a strategy fails. *)
Fixpoint balance (st0 : store) (local : bool) (eventName : string) (groups : option (list string))
    (ctx : option call_ctx) (ls : list (EndpointList.t S))
    : option (list (ref * string)) * list (EndpointList.t S) :=
  match ls with
  | [] => (Some [], [])
  | l :: ls =>
      if concerns eventName groups l then
        let '(res, l') := EndpointList.next local random st0 ctx l in
        match res with
        | EndpointList.NextThrow => (None, l' :: ls)
        | EndpointList.NextNull =>
            let '(eps, ls') := balance st0 local eventName groups ctx ls in (eps, l' :: ls')
        | EndpointList.NextEp ep =>
            let '(eps, ls') := balance st0 local eventName groups ctx ls in
            (if EndpointList.available st0 ep
             then option_map (cons (ep, group_name l)) eps else eps, l' :: ls')
        end
      else let '(eps, ls') := balance st0 local eventName groups ctx ls in (eps, l :: ls')
  end.

Definition getBalancedEndpoints (eventName : string) (groups : option (list string))
    (ctx : option call_ctx) (r : reg) : option (list (ref * string)) * reg :=
  let '(eps, ls) := balance (st r) (preferLocal (cfg r)) eventName groups ctx (events r) in
  (eps, set_events ls r).

(** [utils.uniq] *)
Definition uniq (l : list string) : list string := uniq_by id [] l.

(** [getGroups(eventName)] *)
Definition getGroups (eventName : string) (r : reg) : list string :=
  uniq (map group_name (Arr.filter (λ l, event_matches eventName (EndpointList.name l)) (events r))).

(** [getAllEndpoints(eventName, groupNames)] *)
Definition getAllEndpoints (eventName : string) (groups : option (list string)) (r : reg) : list ref :=
  uniq_by (λ ep, Endpoint.id (ep_of (st r) ep)) []
    (concat (map (λ l, Arr.filter (EndpointList.available (st r)) (EndpointList.endpoints l))
      (Arr.filter (concerns eventName groups) (events r)))).

Definition has_handler (st0 : store) (ep : ref) : bool :=
  match Endpoint.data (ep_of st0 ep) with
  | Endpoint.EpEvent e => match ev_handler e with HNone => false | _ => true end
  | Endpoint.EpAction _ => false
  end.

(** [emitLocalServices(ctx)]: the handlers called, or [None] when a strategy fails;
    [nextLocal] is called without a context. *)
Fixpoint local_handlers (st0 : store) (isBroadcast : bool) (eventName : string)
    (groups : option (list string)) (ls : list (EndpointList.t S))
    : option (list ref) * list (EndpointList.t S) :=
  match ls with
  | [] => (Some [], [])
  | l :: ls =>
      if concerns eventName groups l then
        if isBroadcast then
          let '(eps, ls') := local_handlers st0 isBroadcast eventName groups ls in
          (option_map (app (Arr.filter (λ ep, Endpoint.local (ep_of st0 ep) && has_handler st0 ep)
             (EndpointList.endpoints l))) eps, l :: ls')
        else
          let '(res, l') := EndpointList.nextLocal random st0 None l in
          match res with
          | EndpointList.NextThrow => (None, l' :: ls)
          | EndpointList.NextNull =>
              let '(eps, ls') := local_handlers st0 isBroadcast eventName groups ls in (eps, l' :: ls')
          | EndpointList.NextEp ep =>
              let '(eps, ls') := local_handlers st0 isBroadcast eventName groups ls in
              (if has_handler st0 ep then option_map (cons ep) eps else eps, l' :: ls')
          end
      else let '(eps, ls') := local_handlers st0 isBroadcast eventName groups ls in (eps, l :: ls')
  end.

Definition emitLocalServices (isBroadcast : bool) (eventName : string) (groups : option (list string))
    (r : reg) : option (list ref) * reg :=
  let '(eps, ls) := local_handlers (st r) isBroadcast eventName groups (events r) in
  (eps, set_events ls r).

(** Internal events go to the local bus too. *)
Definition internal_bus (eventName : string) : list delivery :=
  match eventName with
  | String c _ => if Ascii.eqb c "$" then [LocalBus eventName] else []
  | EmptyString => []
  end.

(** One turn of the grouping loop of [emit]: local endpoints are called at once,
    remote ones are collected by node. *)
Definition group_endpoint (st0 : store) (brokerID : string)
    (acc : list delivery * OMap.t (list string)) (eg : ref * string) : list delivery * OMap.t (list string) :=
  let '(calls, grouped) := acc in
  let '(ep, group) := eg in
  let id := Endpoint.id (ep_of st0 ep) in
  if String.eqb id brokerID then (calls ++ [CallHandler ep], grouped)
  else
    match OMap.get id grouped with
    | Some gs => (calls, OMap.set id (gs ++ [group]) grouped)
    | None => (calls, OMap.set id [group] grouped)
    end.

(** [emit(eventName, payload, opts)]; [None] when a strategy fails. *)
Definition emit (eventName : string) (groups : option (list string)) (ctx : option call_ctx) (r : reg)
    : option (list delivery) * reg :=
  let c := cfg r in
  if negb (disableBalancer c) then
    let '(eps, r) := getBalancedEndpoints eventName groups ctx r in
    (option_map (λ eps,
       let '(calls, grouped) := foldl (group_endpoint (st r) (nodeID c)) ([], []) eps in
       internal_bus eventName ++ calls ++
       if hasTransit c then map (λ '(id, gs), SendEvent (Some id) (Some gs)) grouped else []) eps, r)
  else if hasTransit c then
    let gs := match groups with
              | None | Some [] => getGroups eventName r
              | Some gs => gs
              end in
    match gs with
    | [] => (Some (internal_bus eventName), r)
    | gs => (Some (internal_bus eventName ++ [SendEvent None (Some gs)]), r)
    end
  else (Some (internal_bus eventName), r).

(** [broadcastLocal(eventName, payload, opts)] *)
Definition broadcastLocal (eventName : string) (groups : option (list string)) (r : reg) : list delivery * reg :=
  let '(eps, r) := emitLocalServices true eventName groups r in
  (internal_bus eventName ++ map CallHandler (default [] eps), r).

(** [broadcast(eventName, payload, opts)] *)
Definition broadcast (eventName : string) (groups : option (list string)) (r : reg) : list delivery * reg :=
  let c := cfg r in
  let id_of ep := Endpoint.id (ep_of (st r) ep) in
  if disableBalancer c then
    if hasTransit c then
      let gs := match groups with
                | None | Some [] => getGroups eventName r
                | Some gs => gs
                end in
      match gs with
      | [] => ([], r)
      | gs => (map (λ ep, SendEvent (Some (id_of ep)) (Some gs)) (getAllEndpoints eventName (Some gs) r), r)
      end
    else ([], r)
  else
    let remote :=
      if hasTransit c then
        map (λ ep, SendEvent (Some (id_of ep)) groups)
          (Arr.filter (λ ep, negb (String.eqb (id_of ep) (nodeID c))) (getAllEndpoints eventName groups r))
      else [] in
    let '(local, r) := broadcastLocal eventName groups r in
    (remote ++ local, r).

End routing.
End Routing.
