(* ===== verification/RegistryInv.v ===== *)
(** * The registry's invariant

    Every list of endpoints the registry holds is well formed, and every endpoint
    belongs to a registered service of its own node.  All operations of
    [Registry] preserve this, whatever packets and registrations arrive in
    whatever order. *)

From Stdlib Require Import ZArith Lia Bool.
From stdpp Require Import base tactics list strings option gmap.
From S2P Require Import Prelude Strategies RegistryData EndpointList Registry.

Local Open Scope Z_scope.

(** ** Stores only grow, and objects keep their identity *)

Record store_le (st st' : store) : Prop := {
  le_ep r : is_Some (st_endpoints st !! r) →
    is_Some (st_endpoints st' !! r) ∧ Endpoint.id (ep_of st' r) = Endpoint.id (ep_of st r) ∧
    Endpoint.node (ep_of st' r) = Endpoint.node (ep_of st r) ∧
    Endpoint.local (ep_of st' r) = Endpoint.local (ep_of st r) ∧
    Endpoint.service (ep_of st' r) = Endpoint.service (ep_of st r);
  le_svc s : is_Some (st_services st !! s) →
    is_Some (st_services st' !! s) ∧
    ServiceItem.node (svc_of st' s) = ServiceItem.node (svc_of st s) ∧
    ServiceItem.name (svc_of st' s) = ServiceItem.name (svc_of st s) ∧
    ServiceItem.fullName (svc_of st' s) = ServiceItem.fullName (svc_of st s);
  le_node n : is_Some (st_nodes st !! n) →
    is_Some (st_nodes st' !! n) ∧ Node.id (node_of st' n) = Node.id (node_of st n) ∧
    Node.local (node_of st' n) = Node.local (node_of st n)
}.

#[export] Instance store_le_preorder : PreOrder store_le.
Proof.
  split.
  - intros st. constructor; naive_solver.
  - intros st1 st2 st3 [E1 S1 N1] [E2 S2 N2]. constructor.
    + intros r Hr. destruct (E1 r Hr) as (Hr2 & <- & <- & <- & <-). by apply E2.
    + intros r Hr. destruct (S1 r Hr) as (Hr2 & <- & <- & <-). by apply S2.
    + intros r Hr. destruct (N1 r Hr) as (Hr2 & <- & <-). by apply N2.
Qed.

Lemma store_le_upd_ep f r st :
  (∀ e, Endpoint.id (f e) = Endpoint.id e ∧ Endpoint.node (f e) = Endpoint.node e ∧
        Endpoint.local (f e) = Endpoint.local e ∧ Endpoint.service (f e) = Endpoint.service e) →
  store_le st (upd_ep f r st).
Proof.
  intros Hf. constructor; [|naive_solver..]. intros r' [e He].
  rewrite !(ep_of_upd_proj _ f) by (intros; apply Hf). split; [|done].
  simpl. rewrite lookup_alter. case_decide; [subst; rewrite He|]; eauto.
Qed.

Lemma store_le_upd_svc f s st :
  let x := svc_of st s in
  (ServiceItem.node (f x) = ServiceItem.node x ∧ ServiceItem.name (f x) = ServiceItem.name x ∧
   ServiceItem.fullName (f x) = ServiceItem.fullName x) →
  store_le st (upd_svc f s st).
Proof.
  intros x Hf. constructor; [naive_solver| |naive_solver]. intros s' Hs'. split.
  - destruct Hs' as [e He]. simpl. rewrite lookup_alter. case_decide; [subst; rewrite He|]; eauto.
  - destruct (decide (s = s')) as [->|Hne].
    + by rewrite svc_of_upd_eq.
    + by rewrite svc_of_upd_ne.
Qed.

Lemma store_le_upd_node f n st :
  (Node.id (f (node_of st n)) = Node.id (node_of st n) ∧
   Node.local (f (node_of st n)) = Node.local (node_of st n)) →
  store_le st (upd_node f n st).
Proof.
  intros Hf. constructor; [naive_solver..|]. intros n' Hn'. split.
  - destruct Hn' as [e He]. simpl. rewrite lookup_alter. case_decide; [subst; rewrite He|]; eauto.
  - destruct (decide (n = n')) as [->|Hne].
    + by rewrite node_of_upd_eq.
    + by rewrite node_of_upd_ne.
Qed.

Lemma store_le_new_ep e st r st' : new_ep e st = (r, st') → store_le st st'.
Proof.
  intros Hn. destruct (ep_of_new _ _ _ _ Hn) as [_ Hold].
  assert (∀ x, is_Some (st_endpoints st !! x) → is_Some (st_endpoints st' !! x)) as Hs.
  { intros x Hx. unfold new_ep in Hn. simplify_eq. simpl. rewrite lookup_insert. case_decide; eauto. }
  unfold new_ep in Hn. simplify_eq. constructor; [|naive_solver..].
  intros x Hx. rewrite Hold by done. auto.
Qed.

Lemma store_le_new_svc e st r st' : new_svc e st = (r, st') → store_le st st'.
Proof.
  intros Hn. destruct (svc_of_new _ _ _ _ Hn) as [_ Hold].
  assert (∀ x, is_Some (st_services st !! x) → is_Some (st_services st' !! x)) as Hs.
  { intros x Hx. unfold new_svc in Hn. simplify_eq. simpl. rewrite lookup_insert. case_decide; eauto. }
  unfold new_svc in Hn. simplify_eq. constructor; [naive_solver| |naive_solver].
  intros x Hx. rewrite Hold by done. auto.
Qed.

Lemma store_le_new_node e st r st' : new_node e st = (r, st') → store_le st st'.
Proof.
  intros Hn. destruct (node_of_new _ _ _ _ Hn) as [_ Hold].
  assert (∀ x, is_Some (st_nodes st !! x) → is_Some (st_nodes st' !! x)) as Hs.
  { intros x Hx. unfold new_node in Hn. simplify_eq. simpl. rewrite lookup_insert. case_decide; eauto. }
  unfold new_node in Hn. simplify_eq. constructor; [naive_solver..|].
  intros x Hx. rewrite Hold by done. auto.
Qed.

(** No node goes offline. *)
Definition avail_le (st st' : store) : Prop :=
  ∀ n, is_Some (st_nodes st !! n) → Node.available (node_of st n) = true →
       Node.available (node_of st' n) = true.

#[export] Instance avail_le_refl : Reflexive avail_le.
Proof. by intros st n. Qed.

Lemma avail_le_trans st1 st2 st3 :
  store_le st1 st2 → avail_le st1 st2 → avail_le st2 st3 → avail_le st1 st3.
Proof. intros Hle H1 H2 n Hn Ha. apply H2; [by apply (le_node _ _ Hle)|by apply H1]. Qed.

Lemma avail_le_nodes st st' : st_nodes st' = st_nodes st → avail_le st st'.
Proof. intros Heq n _. unfold node_of. by rewrite Heq. Qed.

Lemma avail_le_upd_node f n st :
  (Node.available (node_of st n) = true → Node.available (f (node_of st n)) = true) →
  avail_le st (upd_node f n st).
Proof.
  intros Hf n' Hn' Ha. destruct (decide (n = n')) as [->|Hne].
  - rewrite node_of_upd_eq by done. auto.
  - by rewrite node_of_upd_ne.
Qed.

(** ** The invariant *)

(** A registered service: it and its node exist. *)
Definition svc_ok (st : store) (s : ref) : Prop :=
  is_Some (st_services st !! s) ∧ is_Some (st_nodes st !! ServiceItem.node (svc_of st s)).

(** An endpoint of a registered service, on the node of that service. *)
Definition ep_ok (brokerID : string) (st : store) (svcs : list ref) (r : ref) : Prop :=
  let e := ep_of st r in
  Endpoint.service e ∈ svcs ∧
  ServiceItem.node (svc_of st (Endpoint.service e)) = Endpoint.node e ∧
  Endpoint.id e = Node.id (node_of st (Endpoint.node e)) ∧
  Endpoint.local e = String.eqb (Endpoint.id e) brokerID.

Section invariant.
Context {S : Type} `{Strategy S} (new_strategy : option string → S).

Definition list_ok (brokerID : string) (st : store) (svcs : list ref) (l : EndpointList.t S) : Prop :=
  EndpointList.wf st l ∧ ∀ r, r ∈ EndpointList.endpoints l → ep_ok brokerID st svcs r.

(** All endpoint lists of the registry. *)
Definition all_lists (r : registry S) : list (EndpointList.t S) :=
  OMap.values (actions r) ++ events r.

Record inv (r : registry S) : Prop := {
  inv_lists l : l ∈ all_lists r → list_ok (nodeID (cfg r)) (st r) (services r) l;
  inv_names k l : (k, l) ∈ actions r → EndpointList.name l = k;
  inv_keys : OMap.wf (actions r);
  inv_svcs s : s ∈ services r → svc_ok (st r) s;
  inv_nodup : NoDup (services r);
  inv_nodes id n : (id, n) ∈ nodes r →
    is_Some (st_nodes (st r) !! n) ∧ Node.id (node_of (st r) n) = id;
  inv_nodes_wf : OMap.wf (nodes r);
  inv_local : is_Some (st_nodes (st r) !! localNode r) ∧
    Node.id (node_of (st r) (localNode r)) = nodeID (cfg r)
}.

(** What registering endpoints may change: stores grow, the tables of nodes and
    services stay. *)
Record ext (r r' : registry S) : Prop := {
  ext_store : store_le (st r) (st r');
  ext_avail : avail_le (st r) (st r');
  ext_cfg : cfg r' = cfg r;
  ext_nodes : nodes r' = nodes r;
  ext_localNode : localNode r' = localNode r;
  ext_services : services r' = services r
}.

#[export] Instance ext_preorder : PreOrder ext.
Proof.
  split.
  - intros r. by constructor.
  - intros r1 r2 r3 [A1 F1 B1 C1 D1 E1] [A2 F2 B2 C2 D2 E2].
    constructor; [by etransitivity | by eapply avail_le_trans | congruence..].
Qed.

(** *** Growing the store *)

Lemma svc_ok_le st st' s : store_le st st' → svc_ok st s → svc_ok st' s.
Proof.
  intros Hle [Hs Hn]. destruct (le_svc _ _ Hle s Hs) as (Hs' & Hnode & _). split; [done|].
  rewrite Hnode. by apply (le_node _ _ Hle).
Qed.

Lemma list_ok_le b st st' svcs svcs' l :
  store_le st st' → (∀ s, s ∈ svcs → svc_ok st s) → (∀ s, s ∈ svcs → s ∈ svcs') →
  list_ok b st svcs l → list_ok b st' svcs' l.
Proof.
  intros Hle Hsv Hsub [Hwf Hok].
  assert (∀ r, r ∈ EndpointList.endpoints l → is_Some (st_endpoints st !! r)) as Ha.
  { apply (EndpointList.wf_alloc _ _ Hwf). }
  split.
  - eapply EndpointList.wf_store_ext; [|done]. intros r Hr Hs.
    destruct (Hok r Hr) as (Hin & _). destruct (le_ep _ _ Hle r Hs) as (? & _ & -> & -> & ->).
    destruct (Hsv _ Hin) as [Hal _]. destruct (le_svc _ _ Hle _ Hal) as (_ & _ & -> & _). done.
  - intros r Hr. destruct (Hok r Hr) as (Hin & Hnode & Hid & Hloc).
    destruct (le_ep _ _ Hle r (Ha r Hr)) as (_ & Ei & En & El & Es).
    destruct (Hsv _ Hin) as [Hal Hnal]. destruct (le_svc _ _ Hle _ Hal) as (_ & Esn & _).
    unfold ep_ok. rewrite Ei, En, El, Es, Esn. split_and!; [auto|done| |done].
    rewrite Hid. rewrite Hnode in Hnal. by destruct (le_node _ _ Hle _ Hnal) as (_ & -> & _).
Qed.

(** Changing objects of the store behind unchanged tables. *)
Lemma inv_set_st st' r : inv r → store_le (st r) st' → inv (set_st st' r).
Proof.
  intros [Hl Hn Hk Hs Hd Hnd Hnw [Hla Hli]] Hle. constructor; simpl; try done.
  - intros l Hin. eapply list_ok_le; [done|done|done|]. by apply Hl.
  - intros s Hin. eapply svc_ok_le; [done|]. by apply Hs.
  - intros id n Hin. destruct (Hnd _ _ Hin) as [Ha <-].
    destruct (le_node _ _ Hle n Ha) as (? & -> & _). done.
  - destruct (le_node _ _ Hle _ Hla) as (? & -> & _). done.
Qed.

Lemma ext_set_st st' r : store_le (st r) st' → avail_le (st r) st' → ext r (set_st st' r).
Proof. by constructor. Qed.

(** *** Adding an endpoint to a list *)

Lemma add_store_le b n s d st0 (l : EndpointList.t S) st1 l1 :
  EndpointList.add b n s d st0 l = (st1, l1) → store_le st0 st1.
Proof.
  unfold EndpointList.add. intros Hadd. destruct (Arr.find _ _).
  - simplify_eq. by apply store_le_upd_ep.
  - destruct (new_ep _ _) eqn:Hn. simplify_eq. by eapply store_le_new_ep.
Qed.

Lemma add_avail b n s d st0 (l : EndpointList.t S) st1 l1 :
  EndpointList.add b n s d st0 l = (st1, l1) → avail_le st0 st1.
Proof.
  unfold EndpointList.add. intros Hadd. apply avail_le_nodes. destruct (Arr.find _ _); [by simplify_eq|].
  destruct (new_ep _ _) eqn:Hn. unfold new_ep in Hn. by simplify_eq.
Qed.

Lemma add_name b n s d st0 (l : EndpointList.t S) st1 l1 :
  EndpointList.add b n s d st0 l = (st1, l1) →
  EndpointList.name l1 = EndpointList.name l ∧ EndpointList.group l1 = EndpointList.group l.
Proof.
  unfold EndpointList.add. intros Hadd. destruct (Arr.find _ _); [by simplify_eq|].
  destruct (new_ep _ _). by simplify_eq.
Qed.

Lemma add_list_ok b n s d st0 svcs (l : EndpointList.t S) st1 l1 :
  EndpointList.add b n s d st0 l = (st1, l1) → (∀ s, s ∈ svcs → svc_ok st0 s) →
  list_ok b st0 svcs l → s ∈ svcs → ServiceItem.node (svc_of st0 s) = n →
  list_ok b st1 svcs l1.
Proof.
  intros Hadd Hsv Hl Hs Hn. pose proof (add_store_le _ _ _ _ _ _ _ _ Hadd) as Hle.
  pose proof (list_ok_le _ _ _ svcs svcs _ Hle Hsv (λ _ h, h) Hl) as [_ Hok'].
  split; [eapply EndpointList.wf_add; [apply Hl|done]|].
  unfold EndpointList.add in Hadd. destruct (Arr.find _ _); [by simplify_eq|].
  destruct (new_ep _ st0) as [r0 st2] eqn:Hnew. simplify_eq. simpl.
  intros r Hr. apply elem_of_app in Hr as [Hr|Hr%list_elem_of_singleton]; [auto|]. subst r.
  destruct (ep_of_new _ _ _ _ Hnew) as [Hr0 _]. destruct (Hsv s Hs) as [Hal Hnal].
  destruct (le_svc _ _ Hle s Hal) as (_ & Esn & _). destruct (le_node _ _ Hle _ Hnal) as (_ & Eid & _).
  unfold ep_ok. rewrite Hr0. simpl. rewrite Esn, Eid. done.
Qed.

Lemma create_list_ok b st0 svcs s n g : list_ok b st0 svcs (EndpointList.create (S := S) s n g).
Proof. split; [apply EndpointList.wf_create|]. intros r Hr. by apply not_elem_of_nil in Hr. Qed.

(** *** Registering endpoints *)

Lemma elem_of_values {V} (v : V) (m : OMap.t V) : v ∈ OMap.values m ↔ ∃ k, (k, v) ∈ m.
Proof.
  unfold OMap.values. rewrite list_elem_of_fmap. split.
  - intros ([k v'] & -> & Hin). eauto.
  - intros [k Hin]. by exists (k, v).
Qed.

Lemma elem_of_all_lists l r :
  l ∈ all_lists r ↔ (∃ k, (k, l) ∈ actions r) ∨ l ∈ events r.
Proof. unfold all_lists. by rewrite elem_of_app, elem_of_values. Qed.

(** A registered service on its node: what the registering loops are called with. *)
Definition registered (n s : ref) (r : registry S) : Prop :=
  s ∈ services r ∧ ServiceItem.node (svc_of (st r) s) = n.

Lemma registered_ext n s r r' : inv r → ext r r' → registered n s r → registered n s r'.
Proof.
  intros Hi He [Hin Hn]. split; [by rewrite (ext_services _ _ He)|].
  destruct (inv_svcs _ Hi s Hin) as [Ha _]. by destruct (le_svc _ _ (ext_store _ _ He) s Ha) as (_ & -> & _).
Qed.

Lemma actions_add_inv n s a r :
  inv r → registered n s r → inv (actions_add new_strategy n s a r) ∧ ext r (actions_add new_strategy n s a r).
Proof.
  intros Hi [Hs Hn]. unfold actions_add.
  set (l := match OMap.get _ _ with Some _ => _ | None => _ end).
  assert (list_ok (nodeID (cfg r)) (st r) (services r) l ∧ EndpointList.name l = a_name a) as [Hl Hname].
  { unfold l. destruct (OMap.get (a_name a) (actions r)) as [l0|] eqn:Hg.
    - apply OMap.get_Some_elem in Hg. split; [|by eapply inv_names].
      eapply inv_lists; [done|]. apply elem_of_all_lists. eauto.
    - split; [apply create_list_ok|done]. }
  destruct (EndpointList.add _ _ _ _ _ l) as [st1 l1] eqn:Hadd.
  pose proof (add_store_le _ _ _ _ _ _ _ _ Hadd) as Hle.
  pose proof (add_list_ok _ _ _ _ _ _ _ _ _ Hadd (inv_svcs _ Hi) Hl Hs Hn) as Hl1.
  pose proof (add_avail _ _ _ _ _ _ _ _ Hadd) as Hav.
  apply add_name in Hadd as [Hname1 _]. pose proof (inv_set_st _ _ Hi Hle) as Hi1.
  split; [|by constructor]. destruct Hi1 as [H1 H2 H3 H4 H5 H6 H7 H8].
  constructor; simpl in *; try done.
  - intros x Hx. apply elem_of_all_lists in Hx as [[k Hx]|Hx]; simpl in *.
    + apply OMap.set_elem in Hx as [[_ ->]|Hx]; [done|]. apply H1, elem_of_all_lists. simpl. eauto.
    + apply H1, elem_of_all_lists. simpl. eauto.
  - intros k x Hx. apply OMap.set_elem in Hx as [[-> ->]|Hx]; [congruence|eauto].
  - by apply OMap.wf_set.
Qed.

Lemma put_event_elem (x l' : EndpointList.t S) nm g ls :
  x ∈ put_event l' nm g ls → x = l' ∨ x ∈ ls.
Proof.
  induction ls as [|y ls IH]; simpl; intros Hx; [by apply list_elem_of_singleton in Hx as ->; left|].
  destruct (same_event nm g y); apply elem_of_cons in Hx as [->|Hx].
  - by left.
  - right; by right.
  - right; left.
  - apply IH in Hx as [?|?]; [by left | right; by right].
Qed.

Lemma events_add_inv n s e r :
  inv r → registered n s r → inv (events_add new_strategy n s e r) ∧ ext r (events_add new_strategy n s e r).
Proof.
  intros Hi [Hs Hn]. unfold events_add.
  set (g := Some _). set (l := match events_get _ _ _ with Some _ => _ | None => _ end).
  assert (list_ok (nodeID (cfg r)) (st r) (services r) l) as Hl.
  { unfold l. destruct (events_get (ev_name e) g r) as [l0|] eqn:Hg; [|apply create_list_ok].
    apply Arr.find_Some in Hg as [Hg _]. eapply inv_lists; [done|]. apply elem_of_all_lists. by right. }
  destruct (EndpointList.add _ _ _ _ _ l) as [st1 l1] eqn:Hadd.
  pose proof (add_store_le _ _ _ _ _ _ _ _ Hadd) as Hle.
  pose proof (add_list_ok _ _ _ _ _ _ _ _ _ Hadd (inv_svcs _ Hi) Hl Hs Hn) as Hl1.
  pose proof (add_avail _ _ _ _ _ _ _ _ Hadd) as Hav.
  pose proof (inv_set_st _ _ Hi Hle) as Hi1.
  split; [|by constructor]. destruct Hi1 as [H1 H2 H3 H4 H5 H6 H7 H8].
  constructor; simpl in *; try done.
  intros x Hx. apply elem_of_all_lists in Hx as [Hx|Hx]; simpl in *.
  - apply H1, elem_of_all_lists. eauto.
  - apply put_event_elem in Hx as [->|Hx]; [done|]. apply H1, elem_of_all_lists. eauto.
Qed.

(** Both parts of an operation's correctness, to chain over loops. *)
Definition good (r r' : registry S) : Prop := inv r' ∧ ext r r'.

Lemma good_trans r1 r2 r3 : good r1 r2 → (inv r2 → good r2 r3) → good r1 r3.
Proof. intros [Hi He] Hg. destruct (Hg Hi) as [Hi' He']. split; [done|]. by etransitivity. Qed.

Lemma good_set_st st' r : inv r → store_le (st r) st' → avail_le (st r) st' → good r (set_st st' r).
Proof. intros Hi Hle Ha. split; [by apply inv_set_st | by apply ext_set_st]. Qed.

Lemma registerActions_good n s acts r :
  inv r → registered n s r → good r (registerActions new_strategy n s acts r).
Proof.
  intros Hi Hreg. unfold registerActions. apply (foldl_invariant (good r)); [by split|].
  intros r' [k a] _ [Hi' He']. destruct (checkActionVisibility _ _); [|by split].
  pose proof (registered_ext _ _ _ _ Hi He' Hreg) as Hreg'.
  set (a' := service_action _ _ _).
  destruct (actions_add_inv n s a' r' Hi' Hreg') as [Hi1 He1].
  eapply good_trans; [split; [done|by etransitivity]|]. intros _.
  apply good_set_st; [done|by apply store_le_upd_svc|by apply avail_le_nodes].
Qed.

Lemma registerEvents_good n s evs r :
  inv r → registered n s r → good r (registerEvents new_strategy n s evs r).
Proof.
  intros Hi Hreg. unfold registerEvents. apply (foldl_invariant (good r)); [by split|].
  intros r' [k e] _ [Hi' He']. pose proof (registered_ext _ _ _ _ Hi He' Hreg) as Hreg'.
  set (e' := service_event _ _).
  destruct (events_add_inv n s e' r' Hi' Hreg') as [Hi1 He1].
  eapply good_trans; [split; [done|by etransitivity]|]. intros _.
  apply good_set_st; [done|by apply store_le_upd_svc|by apply avail_le_nodes].
Qed.

(** *** Removing endpoints *)

(** Lists change by a function that keeps them well formed for the services left. *)
Lemma inv_map_lists (f : EndpointList.t S → EndpointList.t S) svcs (r r' : registry S) :
  inv r →
  actions r' = map (λ '(k, l), (k, f l)) (actions r) → events r' = map f (events r) →
  cfg r' = cfg r → st r' = st r → nodes r' = nodes r → localNode r' = localNode r →
  services r' = svcs → (∀ s, s ∈ svcs → s ∈ services r) → NoDup svcs →
  (∀ l, l ∈ all_lists r → EndpointList.name (f l) = EndpointList.name l ∧
     list_ok (nodeID (cfg r)) (st r) svcs (f l)) →
  inv r'.
Proof.
  intros Hi Ha He Hc Hst Hn Hln Hsv Hsub Hnd Hf. destruct Hi as [H1 H2 H3 H4 H5 H6 H7 H8].
  constructor; rewrite ?Hc, ?Hst, ?Hn, ?Hln, ?Hsv; try done.
  - intros l Hl. apply elem_of_all_lists in Hl as [[k Hl]|Hl].
    + rewrite Ha in Hl. apply list_elem_of_fmap in Hl as ([k' l'] & Heq & Hl). simplify_eq.
      apply Hf, elem_of_all_lists. eauto.
    + rewrite He in Hl. apply list_elem_of_fmap in Hl as (l' & -> & Hl).
      apply Hf, elem_of_all_lists. eauto.
  - intros k l Hl. rewrite Ha in Hl. apply list_elem_of_fmap in Hl as ([k' l'] & Heq & Hl). simplify_eq.
    destruct (Hf l') as [-> _]; [apply elem_of_all_lists; eauto|]. by apply H2.
  - unfold OMap.wf, OMap.keys. rewrite Ha, map_map.
    replace (map _ (actions r)) with (OMap.keys (actions r)); [done|].
    apply map_ext. by intros [? ?].
  - auto.
Qed.

(** Dropping the endpoints [gone] selects keeps a list fine for the services of
    the endpoints that stay. *)
Lemma list_ok_filter b st0 svcs svcs' (p : ref → bool) (l : EndpointList.t S) :
  list_ok b st0 svcs l →
  (∀ r, r ∈ EndpointList.endpoints l → p r = true → Endpoint.service (ep_of st0 r) ∈ svcs') →
  list_ok b st0 svcs'
    (EndpointList.setLocalEndpoints st0
       (EndpointList.with_endpoints (Arr.filter p (EndpointList.endpoints l)) l)).
Proof.
  intros [Hwf Hok] Hp. split; [by apply EndpointList.wf_filter|]. simpl.
  intros r Hr. apply Arr.elem_of_filter in Hr as [Hr Hpr].
  destruct (Hok r Hr) as (_ & ? & ? & ?). split_and!; auto.
Qed.

(** Lists change by dropping endpoints: the tables of nodes and services stay. *)
Lemma good_filter (p : EndpointList.t S → ref → bool) (r r' : registry S) :
  let f l := EndpointList.setLocalEndpoints (st r)
    (EndpointList.with_endpoints (Arr.filter (p l) (EndpointList.endpoints l)) l) in
  inv r →
  actions r' = map (λ '(k, l), (k, f l)) (actions r) → events r' = map f (events r) →
  cfg r' = cfg r → st r' = st r → nodes r' = nodes r → localNode r' = localNode r →
  services r' = services r → good r r'.
Proof.
  intros f Hi Ha He Hc Hst Hn Hln Hsv. split; [|constructor; try done; rewrite Hst; reflexivity].
  eapply (inv_map_lists f (services r) r r'); try done; [by apply inv_nodup|].
  intros l Hl. split; [done|]. pose proof (inv_lists _ Hi l Hl) as Hok.
  apply list_ok_filter with (svcs := services r); [done|].
  intros e He' _. apply Hok in He' as [? _]. done.
Qed.

Lemma remove_endpoints_good s r : inv r → good r (remove_endpoints s r).
Proof.
  intros Hi. eapply (good_filter (λ l x, negb (Pos.eqb (Endpoint.service (ep_of (st r) x)) s))); done.
Qed.

(** The endpoints of all lists satisfy [P]. *)
Definition all_eps (P : Endpoint.t → Prop) (r : registry S) : Prop :=
  ∀ l e, l ∈ all_lists r → e ∈ EndpointList.endpoints l → P (ep_of (st r) e).

Lemma remove_endpoints_lists s r l :
  l ∈ all_lists (remove_endpoints s r) →
  ∃ l', l' ∈ all_lists r ∧ l = EndpointList.removeByService s (st r) l'.
Proof.
  intros Hl. apply elem_of_all_lists in Hl as [[k Hl]|Hl]; simpl in Hl.
  - apply list_elem_of_fmap in Hl as ([k' l'] & Heq & Hl). simplify_eq. exists l'. split; [|done].
    apply elem_of_all_lists. eauto.
  - apply list_elem_of_fmap in Hl as (l' & -> & Hl). exists l'. split; [|done].
    apply elem_of_all_lists. eauto.
Qed.

Lemma remove_endpoints_eps P s r :
  all_eps P r → all_eps (λ e, P e ∧ Endpoint.service e ≠ s) (remove_endpoints s r).
Proof.
  intros HP l e Hl He. apply remove_endpoints_lists in Hl as (l' & Hl & ->). simpl in *.
  apply Arr.elem_of_remove in He as [He Hs]. split; [by eapply HP|]. by to_prop.
Qed.

Lemma inv_set_services svcs r :
  inv r → (∀ s, s ∈ svcs → s ∈ services r) → NoDup svcs →
  all_eps (λ e, Endpoint.service e ∈ svcs) r → inv (set_services svcs r).
Proof.
  intros [H1 H2 H3 H4 H5 H6 H7 H8] Hsub Hnd Heps. constructor; simpl; auto.
  intros l Hl. destruct (H1 l Hl) as [Hwf Hok]. split; [done|]. intros e He.
  destruct (Hok e He) as (_ & ? & ? & ?). split_and!; try done. by eapply Heps.
Qed.

Lemma inv_all_eps r : inv r → all_eps (λ e, Endpoint.service e ∈ services r) r.
Proof. intros Hi l e Hl He. by destruct (proj2 (inv_lists _ Hi l Hl) e He). Qed.

(** The loop of [removeAllByNodeID]. *)
Lemma remove_loop_good (gone : ref → bool) todo P r :
  inv r → all_eps P r →
  let r' := foldl (λ r s, if gone s then remove_endpoints s r else r) r todo in
  good r r' ∧ st r' = st r ∧
  all_eps (λ e, P e ∧ (Endpoint.service e ∈ todo → gone (Endpoint.service e) = false)) r'.
Proof.
  revert r P. induction todo as [|s todo IH]; intros r P Hi HP; simpl.
  - split_and!; [by split|done|]. intros l e Hl He. split; [by eapply HP|].
    intros Hin. by apply not_elem_of_nil in Hin.
  - set (r1 := if gone s then remove_endpoints s r else r).
    assert (good r r1 ∧ st r1 = st r ∧
      all_eps (λ e, P e ∧ (Endpoint.service e = s → gone s = false)) r1) as (Hg1 & Hst1 & Hs1).
    { unfold r1. destruct (gone s) eqn:Hgs; [|split_and!; [by split|done|]].
      - split_and!; [by apply remove_endpoints_good|done|]. intros l e Hl He.
        destruct (remove_endpoints_eps P s r HP l e Hl He). done.
      - intros l e Hl He. split; [by eapply HP|done]. }
    destruct (IH r1 _ (proj1 Hg1) Hs1) as (Hg2 & Hst2 & Hs2).
    split_and!; [by eapply good_trans|congruence|].
    intros l e Hl He. destruct (Hs2 l e Hl He) as [[HPe Hse] Htodo]. split; [done|].
    intros Hc. apply elem_of_cons in Hc as [Heq|Hc]; [|auto]. rewrite Heq. auto.
Qed.

(** What every operation of the registry preserves besides the invariant. *)
Record same_broker (r r' : registry S) : Prop := {
  sb_store : store_le (st r) (st r');
  sb_avail : avail_le (st r) (st r');
  sb_cfg : cfg r' = cfg r;
  sb_localNode : localNode r' = localNode r
}.

Lemma ext_same_broker r r' : ext r r' → same_broker r r'.
Proof. intros []. by constructor. Qed.

#[export] Instance same_broker_preorder : PreOrder same_broker.
Proof.
  split.
  - intros r. by constructor.
  - intros r1 r2 r3 [A1 D1 B1 C1] [A2 D2 B2 C2].
    constructor; [by etransitivity | by eapply avail_le_trans | congruence..].
Qed.

Lemma services_removeAll_spec id r :
  inv r →
  let r' := services_removeAllByNodeID id r in
  inv r' ∧ same_broker r r' ∧ st r' = st r ∧ nodes r' = nodes r ∧
  (∀ s, s ∈ services r' ↔ s ∈ services r ∧ node_id r (ServiceItem.node (svc_of (st r) s)) ≠ id) ∧
  all_eps (λ e, Endpoint.id e ≠ id) r'.
Proof.
  intros Hi. unfold services_removeAllByNodeID.
  set (gone := λ s, String.eqb (node_id r (ServiceItem.node (svc_of (st r) s))) id).
  destruct (remove_loop_good gone (services r) _ r Hi (inv_all_eps r Hi)) as ([Hi1 He1] & Hst1 & Heps).
  set (r1 := foldl _ r (services r)) in *.
  assert (all_eps (λ e, Endpoint.service e ∈ Arr.remove gone (services r)) r1) as Hkeep.
  { intros l e Hl He. destruct (Heps l e Hl He) as [Hin Hg]. apply Arr.elem_of_remove. auto. }
  assert (inv (set_services (Arr.remove gone (services r)) r1)) as Hi2.
  { apply inv_set_services; [done| | |done].
    - intros s Hs. rewrite (ext_services _ _ He1). by apply Arr.elem_of_remove in Hs as [? _].
    - apply Arr.NoDup_filter, inv_nodup, Hi. }
  split_and!; [done| |done|by apply He1| |].
  - etransitivity; [by apply ext_same_broker|]. by constructor.
  - intros s. simpl. rewrite Arr.elem_of_remove. unfold gone. by rewrite String.eqb_neq.
  - intros l e Hl He. pose proof (Hkeep l e Hl He) as Hs.
    destruct (proj2 (inv_lists _ Hi2 l Hl) e He) as (_ & Hn & Hid & _). simpl in *.
    apply Arr.elem_of_remove in Hs as [_ Hs]. unfold gone in Hs. to_prop. unfold node_id in Hs.
    rewrite Hst1 in *. rewrite Hid, <- Hn. done.
Qed.

Lemma splice_found (s : ref) l : s ∈ l → NoDup l →
  match Arr.findIndex (Pos.eqb s) l with Some i => Arr.splice1 i l | None => l end =
  Arr.remove (Pos.eqb s) l.
Proof.
  intros Hs Hnd. apply list_elem_of_split in Hs as (l1 & l2 & ->).
  apply NoDup_app in Hnd as (_ & H12 & Hnd). apply NoDup_cons in Hnd as [Hs2 _].
  assert (∀ y, y ∈ l1 → Pos.eqb s y = false) as H1.
  { intros y Hy. apply Pos.eqb_neq. intros ->. apply (H12 y Hy). left. }
  rewrite Arr.findIndex_app, Arr.splice1_app, Arr.remove_app_mid; auto using Pos.eqb_refl.
  intros y Hy. apply Pos.eqb_neq. by intros ->.
Qed.

Lemma services_remove_spec fn id r :
  inv r →
  let r' := services_remove fn id r in
  inv r' ∧ same_broker r r' ∧ st r' = st r ∧ nodes r' = nodes r ∧
  services r' = match services_get fn id r with
                | Some s => Arr.remove (Pos.eqb s) (services r)
                | None => services r
                end.
Proof.
  intros Hi. unfold services_remove. destruct (services_get fn id r) as [s|] eqn:Hg; [|by split_and!].
  apply Arr.find_Some in Hg as [Hs _]. destruct (remove_endpoints_good s r Hi) as [Hi1 He1].
  simpl services in *. rewrite splice_found by (done || by apply inv_nodup).
  split_and!; try done; try by constructor.
  apply inv_set_services; [done| | |].
  - intros x Hx. by apply Arr.elem_of_remove in Hx as [? _].
  - by apply Arr.NoDup_filter, inv_nodup.
  - intros l e Hl He. destruct (remove_endpoints_eps _ s r (inv_all_eps r Hi) l e Hl He) as [Hin Hne].
    apply Arr.elem_of_remove. split; [done|]. apply Pos.eqb_neq. congruence.
Qed.

(** *** The operations of the registry *)

Lemma inv_tell e r : inv r → inv (tell e r).
Proof. intros []. by constructor. Qed.

Lemma inv_set_invalidated x r : inv r → inv (set_invalidated x r).
Proof. intros []. by constructor. Qed.

Lemma good_upd_node f n r :
  (Node.id (f (node_of (st r) n)) = Node.id (node_of (st r) n) ∧
   Node.local (f (node_of (st r) n)) = Node.local (node_of (st r) n)) →
  (Node.available (node_of (st r) n) = true → Node.available (f (node_of (st r) n)) = true) →
  inv r → good r (set_st (upd_node f n (st r)) r).
Proof.
  intros Hf Ha Hi. apply good_set_st; [done|by apply store_le_upd_node|by apply avail_le_upd_node].
Qed.

(** The node [unregisterService] removes from: [nodeID || broker.nodeID]. *)
Definition target_id (id : option string) (r : registry S) : string :=
  match id with
  | Some i => if String.eqb i "" then nodeID (cfg r) else i
  | None => nodeID (cfg r)
  end.

Lemma unregisterService_spec fn id r :
  inv r → let r' := unregisterService fn id r in
  inv r' ∧ same_broker r r' ∧ nodes r' = nodes r ∧
  services r' = match services_get fn (Some (target_id id r)) r with
                | Some s => Arr.remove (Pos.eqb s) (services r)
                | None => services r
                end.
Proof.
  intros Hi. unfold unregisterService. fold (target_id id r). set (i := target_id id r).
  destruct (services_remove_spec fn (Some i) r Hi) as (Hi1 & Hsb1 & Hst1 & Hn1 & Hsv1).
  set (r1 := services_remove fn (Some i) r) in *.
  destruct (String.eqb i (nodeID (cfg r1))); [|by split_and!].
  set (r2 := match Node.services _ with Node.Items _ => _ | Node.Announced _ => _ end).
  assert (good r1 r2) as [Hi2 He2].
  { unfold r2. destruct (Node.services _); [by split|].
    destruct (Arr.findIndex _ _); [|by split]. by apply good_upd_node. }
  split_and!.
  - by apply inv_set_invalidated.
  - etransitivity; [done|]. etransitivity; [by apply ext_same_broker|]. by constructor.
  - simpl. by rewrite (ext_nodes _ _ He2).
  - simpl. by rewrite (ext_services _ _ He2).
Qed.

Lemma services_add_spec n v fn loc r s r' :
  inv r → is_Some (st_nodes (st r) !! n) → services_add n v fn loc r = (s, r') →
  inv r' ∧ same_broker r r' ∧ nodes r' = nodes r ∧ services r' = services r ++ [s] ∧
  registered n s r' ∧ s ∉ services r ∧ svc_of (st r') s = ServiceItem.create n v fn loc.
Proof.
  intros Hi Hn. unfold services_add. destruct (new_svc _ (st r)) as [s0 st1] eqn:Hnew.
  intros Heq. simplify_eq. pose proof (store_le_new_svc _ _ _ _ Hnew) as Hle.
  destruct (svc_of_new _ _ _ _ Hnew) as [Hs0 _].
  pose proof (new_svc_fresh (ServiceItem.create n v fn loc) (st r)) as Hfr. rewrite Hnew in Hfr.
  pose proof (inv_set_st _ _ Hi Hle) as Hi1.
  assert (s ∉ services r) as Hnin.
  { intros Hin. destruct (inv_svcs _ Hi s Hin) as [[x Hx] _]. simpl in Hfr. congruence. }
  assert (svc_ok st1 s) as Hok.
  { split.
    - unfold new_svc in Hnew. simplify_eq. simpl. rewrite lookup_insert_eq. eauto.
    - rewrite Hs0. simpl. by apply (le_node _ _ Hle). }
  split_and!; try done.
  2: { constructor; try done. apply avail_le_nodes. unfold new_svc in Hnew. by simplify_eq. }
  - destruct Hi1 as [H1 H2 H3 H4 H5 H6 H7 H8]. constructor; simpl in *; try done.
    + intros l Hl. apply (list_ok_le _ st1 st1 (services r)); [done|done| |by apply H1].
      intros x Hx. apply elem_of_app. by left.
    + intros x Hx. apply elem_of_app in Hx as [Hx|Hx%list_elem_of_singleton]; [auto|by subst].
    + apply NoDup_app. split_and!; [done| |apply NoDup_singleton].
      intros x Hx Hx'%list_elem_of_singleton. by subst.
  - split; simpl; [apply elem_of_app; right; left|]. by rewrite Hs0.
Qed.

Lemma actions_remove_good nm id r : inv r → good r (actions_remove nm id r).
Proof.
  intros Hi. unfold actions_remove. destruct (OMap.get nm (actions r)) as [l|] eqn:Hg; [|by split].
  assert (l ∈ all_lists r) as Hl by (apply elem_of_all_lists; apply OMap.get_Some_elem in Hg; eauto).
  split; [|by constructor]. destruct Hi as [H1 H2 H3 H4 H5 H6 H7 H8]. constructor; simpl; try done.
  - intros x Hx. apply elem_of_all_lists in Hx as [[k Hx]|Hx]; simpl in *.
    + apply OMap.set_elem in Hx as [[_ ->]|Hx]; [|apply H1, elem_of_all_lists; eauto].
      apply list_ok_filter with (svcs := services r); [by apply H1|].
      intros e He _. by destruct (proj2 (H1 l Hl) e He).
    + apply H1, elem_of_all_lists. eauto.
  - intros k x Hx. apply OMap.set_elem in Hx as [[-> ->]|Hx]; [|eauto]. simpl.
    apply H2. by apply OMap.get_Some_elem.
  - by apply OMap.wf_set.
Qed.

Lemma events_remove_good nm id r : inv r → good r (events_remove nm id r).
Proof.
  intros Hi. split; [|by constructor]. destruct Hi as [H1 H2 H3 H4 H5 H6 H7 H8].
  constructor; simpl; try done.
  intros x Hx. apply elem_of_all_lists in Hx as [Hx|Hx]; simpl in *; [apply H1, elem_of_all_lists; eauto|].
  apply list_elem_of_fmap in Hx as (l & -> & Hl).
  assert (l ∈ all_lists r) as Hin by (apply elem_of_all_lists; by right).
  destruct (String.eqb _ _); [|by apply H1].
  apply list_ok_filter with (svcs := services r); [by apply H1|].
  intros e He _. by destruct (proj2 (H1 l Hin) e He).
Qed.

Lemma unregister_loop_good {V} (keep : string → bool) (f : string → registry S → registry S)
    (m : OMap.t V) r :
  (∀ k r, inv r → good r (f k r)) → inv r →
  good r (foldl (λ r '(k, _), if keep k then r else f k r) r m).
Proof.
  intros Hf Hi. apply (foldl_invariant (good r)); [by split|].
  intros r' [k v] _ [Hi' He']. destruct (keep k); [by split|].
  eapply good_trans; [by split|]. auto.
Qed.

(** An operation that may add and remove services. *)
Record kept (r r' : registry S) : Prop := {
  kept_inv : inv r';
  kept_sb : same_broker r r';
  kept_nodes : nodes r' = nodes r
}.

Lemma kept_refl r : inv r → kept r r.
Proof. by constructor. Qed.

Lemma kept_trans r1 r2 r3 : kept r1 r2 → (inv r2 → kept r2 r3) → kept r1 r3.
Proof.
  intros [Hi Hs Hn] Hk. destruct (Hk Hi) as [Hi' Hs' Hn'].
  constructor; [done|by etransitivity|congruence].
Qed.

Lemma good_kept r r' : good r r' → kept r r'.
Proof. intros [Hi He]. constructor; [done|by apply ext_same_broker|by apply He]. Qed.

Lemma kept_tell e r : inv r → kept r (tell e r).
Proof. intros Hi. constructor; [by apply inv_tell|by constructor|done]. Qed.

Lemma kept_node r r' n : kept r r' → is_Some (st_nodes (st r) !! n) →
  is_Some (st_nodes (st r') !! n) ∧ node_id r' n = node_id r n.
Proof.
  intros [_ Hs _] Hn. destruct (le_node _ _ (sb_store _ _ Hs) n Hn) as (? & ? & _). done.
Qed.

Lemma unregisterService_kept fn id r : inv r → kept r (unregisterService fn id r).
Proof. intros Hi. destruct (unregisterService_spec fn id r Hi) as (? & ? & ? & _). by constructor. Qed.

(** The service [ServiceCatalog.get] finds. *)
Lemma services_get_Some fn id (r : registry S) s :
  services_get fn (Some id) r = Some s →
  s ∈ services r ∧ ServiceItem.fullName (svc_of (st r) s) = fn ∧
  node_id r (ServiceItem.node (svc_of (st r) s)) = id.
Proof.
  intros Hg. apply Arr.find_Some in Hg as [Hs He]. unfold ServiceItem.equals in He.
  apply andb_prop in He as [? ?]. by to_prop.
Qed.

Lemma services_get_None fn id (r : registry S) s :
  services_get fn (Some id) r = None → s ∈ services r →
  ServiceItem.fullName (svc_of (st r) s) = fn →
  node_id r (ServiceItem.node (svc_of (st r) s)) ≠ id.
Proof.
  intros Hg Hs Hf. eapply Arr.find_None in Hg; [|done]. unfold ServiceItem.equals in Hg.
  rewrite Hf, String.eqb_refl in Hg. by apply String.eqb_neq.
Qed.

End invariant.
