(* ===== verification/RegistrySpec.v ===== *)
(** * The registry's operations keep its promises

    The second half of the registry's invariant: the services of the catalog
    live on known nodes that are online, one per full name and node, and the local
    node is always among them.  Every operation a broker performs on the registry
    preserves both halves, so they hold in every reachable state. *)

From Stdlib Require Import ZArith Lia Bool.
From stdpp Require Import base tactics list strings option gmap.
From S2P Require Import Prelude Strategies RegistryData EndpointList Registry Discoverer Routing RegistryInv.

Local Open Scope Z_scope.

Section spec.
Context {S : Type} `{Strategy S} (new_strategy : option string → S).

(** The node is the one the catalog has under its ID, and it is online. *)
Definition live_node (r : registry S) (n : ref) : Prop :=
  OMap.get (node_id r n) (nodes r) = Some n ∧ Node.available (node_of (st r) n) = true.

Definition svc_node (r : registry S) (s : ref) : ref := ServiceItem.node (svc_of (st r) s).
Definition svc_name (r : registry S) (s : ref) : string := ServiceItem.fullName (svc_of (st r) s).

Record live (r : registry S) : Prop := {
  live_svcs s : s ∈ services r → live_node r (svc_node r s);
  live_local : live_node r (localNode r);
  live_is_local id n : (id, n) ∈ nodes r → Node.local (node_of (st r) n) = true ↔ n = localNode r;
  live_unique s s' : s ∈ services r → s' ∈ services r →
    svc_name r s = svc_name r s' → svc_node r s = svc_node r s' → s = s'
}.

(** Both halves. *)
Definition ok (r : registry S) : Prop := inv r ∧ live r.

Lemma live_node_alloc r n : inv r → live_node r n → is_Some (st_nodes (st r) !! n).
Proof. intros Hi [Hg _]. apply OMap.get_Some_elem in Hg. by apply (inv_nodes _ Hi) in Hg as [? _]. Qed.

Lemma live_node_kept r r' n : inv r → kept r r' → live_node r n → live_node r' n.
Proof.
  intros Hi Hk Hl. pose proof (live_node_alloc _ _ Hi Hl) as Ha. destruct Hl as [Hg Hav].
  destruct (kept_node _ _ _ Hk Ha) as [_ Hid]. split.
  - by rewrite Hid, (kept_nodes _ _ Hk).
  - by apply (sb_avail _ _ (kept_sb _ _ Hk)).
Qed.

(** A live node is found by its ID. *)
Lemma live_node_inj r n n' : live_node r n → live_node r n' → node_id r n = node_id r n' → n = n'.
Proof. intros [H1 _] [H2 _] Heq. congruence. Qed.

Lemma kept_svc r r' s : inv r → kept r r' → s ∈ services r →
  svc_node r' s = svc_node r s ∧ svc_name r' s = svc_name r s.
Proof.
  intros Hi Hk Hs. destruct (inv_svcs _ Hi s Hs) as [Ha _].
  unfold svc_node, svc_name.
  by destruct (le_svc _ _ (sb_store _ _ (kept_sb _ _ Hk)) s Ha) as (_ & -> & _ & ->).
Qed.

(** Operations that add no service keep the second half. *)
Lemma live_kept r r' : ok r → kept r r' → (∀ s, s ∈ services r' → s ∈ services r) → live r'.
Proof.
  intros [Hi [Hs Hl Hil Hu]] Hk Hsub.
  assert (∀ s, s ∈ services r' → svc_node r' s = svc_node r s ∧ svc_name r' s = svc_name r s) as Hsv.
  { intros s Hin. apply kept_svc; auto. }
  constructor.
  - intros s Hin. destruct (Hsv s Hin) as [-> _]. apply (live_node_kept r); auto.
  - rewrite (sb_localNode _ _ (kept_sb _ _ Hk)). by apply (live_node_kept r).
  - intros id n Hin. rewrite (kept_nodes _ _ Hk) in Hin. destruct (inv_nodes _ Hi _ _ Hin) as [Ha _].
    destruct (le_node _ _ (sb_store _ _ (kept_sb _ _ Hk)) n Ha) as (_ & _ & ->).
    rewrite (sb_localNode _ _ (kept_sb _ _ Hk)). by eapply Hil.
  - intros s s' Hin Hin'. destruct (Hsv s Hin) as [-> ->], (Hsv s' Hin') as [-> ->]. auto.
Qed.

(** The state after an operation that adds no service. *)
Lemma ok_kept r r' : ok r → kept r r' → (∀ s, s ∈ services r' → s ∈ services r) → ok r'.
Proof. intros Hok Hk Hsub. split; [by apply Hk|by eapply live_kept]. Qed.

Lemma ok_good r r' : ok r → good r r' → ok r'.
Proof.
  intros Hok Hg. eapply ok_kept; [done|by apply good_kept|].
  destruct Hg as [_ He]. by rewrite (ext_services _ _ He).
Qed.

Lemma ok_tell e r : ok r → ok (tell e r).
Proof. intros Hok. eapply ok_kept; [done|by apply kept_tell; apply Hok|done]. Qed.

(** *** Adding a service *)

Lemma ok_services_add n v fn loc r s r' :
  ok r → live_node r n → services_get fn (Some (node_id r n)) r = None →
  services_add n v fn loc r = (s, r') →
  ok r' ∧ kept r r' ∧ services r' = services r ++ [s] ∧ svc_node r' s = n ∧ svc_name r' s = fn.
Proof.
  intros [Hi Hl] Hn Hnone Hadd. pose proof (live_node_alloc _ _ Hi Hn) as Ha.
  destruct (services_add_spec _ _ _ _ _ _ _ Hi Ha Hadd) as (Hi' & Hsb & Hnd & Hsv & [_ Hreg] & Hnin & Hs).
  assert (kept r r') as Hk by by constructor.
  assert (svc_name r' s = fn) as Hfn by (unfold svc_name; by rewrite Hs).
  split_and!; try done. split; [done|].
  assert (∀ x, x ∈ services r' → x = s ∨ x ∈ services r ∧ svc_node r' x = svc_node r x ∧
    svc_name r' x = svc_name r x) as Hcase.
  { intros x Hx. rewrite Hsv in Hx. apply elem_of_app in Hx as [Hx|Hx%list_elem_of_singleton]; [|by left].
    right. split; [done|]. by apply kept_svc. }
  assert (∀ x, x ∈ services r → svc_name r x = fn → svc_node r x ≠ n) as Hnew.
  { intros x Hx Hnm Heq. apply (services_get_None _ _ _ x Hnone Hx Hnm). unfold svc_node in Heq. by rewrite Heq. }
  destruct Hl as [Hls Hll Hil Hu]. constructor.
  - intros x Hx. destruct (Hcase x Hx) as [->|(Hx' & -> & _)]; [|apply (live_node_kept r); auto].
    unfold svc_node. rewrite Hreg. by apply (live_node_kept r).
  - rewrite (sb_localNode _ _ Hsb). by apply (live_node_kept r).
  - intros id m Hin. rewrite Hnd in Hin. destruct (inv_nodes _ Hi _ _ Hin) as [Hma _].
    destruct (le_node _ _ (sb_store _ _ Hsb) m Hma) as (_ & _ & ->).
    rewrite (sb_localNode _ _ Hsb). by eapply Hil.
  - intros x y Hx Hy. destruct (Hcase x Hx) as [->|(Hx' & -> & ->)], (Hcase y Hy) as [->|(Hy' & -> & ->)];
      auto; unfold svc_node at 1 2; rewrite ?Hreg, ?Hfn; intros Hnm Hnode; exfalso.
    + by eapply Hnew.
    + by eapply Hnew.
Qed.

(** *** Registering the services a node announces *)

(** Finding or adding the service. *)
Definition enter (n : ref) (v : svc_schema) (r : registry S) :=
  match services_get (full_name v) (Some (node_id r n)) r with
  | None => let '(s, r) := services_add n v (full_name v) false r in (s, None, r)
  | Some s =>
      (s, Some (ServiceItem.actions (svc_of (st r) s), ServiceItem.events (svc_of (st r) s)),
       set_st (upd_svc (ServiceItem.update v (full_name v)) s (st r)) r)
  end.

Lemma enter_spec n v r s prev r' :
  ok r → live_node r n → enter n v r = (s, prev, r') →
  ok r' ∧ kept r r' ∧ s ∈ services r' ∧ svc_node r' s = n ∧ svc_name r' s = full_name v ∧
  (services r' = services r ∨ services r' = services r ++ [s]).
Proof.
  intros Hok Hn. unfold enter.
  destruct (services_get _ _ r) as [s0|] eqn:Hg; [|destruct (services_add _ _ _ _ r) as [s0 r0] eqn:Hadd];
    intros Heq; simplify_eq.
  - apply services_get_Some in Hg as (Hs & Hfn & Hid). pose proof (proj1 Hok) as Hi.
    assert (good r (set_st (upd_svc (ServiceItem.update v (full_name v)) s (st r)) r)) as Hgood.
    { apply good_set_st; [done| |by apply avail_le_nodes]. by apply store_le_upd_svc. }
    pose proof (good_kept _ _ Hgood) as Hk. destruct (kept_svc _ _ _ Hi Hk Hs) as [-> ->].
    split_and!; [by eapply ok_good|done|done| |done|by left].
    eapply live_node_inj; [|done|done]. by apply Hok.
  - destruct (ok_services_add _ _ _ _ _ _ _ Hok Hn Hg Hadd) as (? & ? & Hsv & ? & ?).
    split_and!; try done; [|by right]. rewrite Hsv. apply elem_of_app. right. left.
Qed.

(** Registering the endpoints and dropping the old ones. *)
Definition put_actions (n : ref) (v : svc_schema) (s : ref) (r : registry S) : registry S :=
  match sv_actions v with Some a => registerActions new_strategy n s a r | None => r end.

Definition put_events (n : ref) (v : svc_schema) (s : ref) (r : registry S) : registry S :=
  match sv_events v with Some e => registerEvents new_strategy n s e r | None => r end.

Definition drop_actions (n : ref) (v : svc_schema) (old : OMap.t action) (r : registry S) : registry S :=
  foldl (λ r '(name, _), if has_key (sv_actions v) name then r else unregisterAction n name r) r old.

Definition drop_events (n : ref) (v : svc_schema) (old : OMap.t event) (r : registry S) : registry S :=
  foldl (λ r '(name, _), if has_key (sv_events v) name then r else unregisterEvent n name r) r old.

Definition refresh (n : ref) (v : svc_schema) (s : ref)
    (prev : option (OMap.t action * OMap.t event)) (r : registry S) : registry S :=
  match prev with
  | Some (pa, pe) => drop_events n v pe (put_events n v s (drop_actions n v pa (put_actions n v s r)))
  | None => put_events n v s (put_actions n v s r)
  end.

Lemma registerService_eq n r v :
  registerService new_strategy n r v = let '(s, prev, r') := enter n v r in refresh n v s prev r'.
Proof.
  unfold registerService. fold (enter n v r). by destruct (enter n v r) as [[s [[pa pe]|]] r'].
Qed.

Lemma put_actions_good n v s r : inv r → registered n s r → good r (put_actions n v s r).
Proof. intros. unfold put_actions. destruct (sv_actions v); [by apply registerActions_good|by split]. Qed.

Lemma put_events_good n v s r : inv r → registered n s r → good r (put_events n v s r).
Proof. intros. unfold put_events. destruct (sv_events v); [by apply registerEvents_good|by split]. Qed.

Lemma drop_actions_good n v old r : inv r → good r (drop_actions n v old r).
Proof.
  apply (unregister_loop_good (has_key (sv_actions v)) (unregisterAction n)).
  intros. by apply actions_remove_good.
Qed.

Lemma drop_events_good n v old r : inv r → good r (drop_events n v old r).
Proof.
  apply (unregister_loop_good (has_key (sv_events v)) (unregisterEvent n)).
  intros. by apply events_remove_good.
Qed.

Lemma refresh_good n v s prev r : inv r → registered n s r → good r (refresh n v s prev r).
Proof.
  intros Hi Hreg. pose proof (put_actions_good n v s r Hi Hreg) as H1.
  assert (∀ r', good r r' → good r (put_events n v s r')) as Hev.
  { intros r' Hg. eapply good_trans; [done|]. intros Hi'. apply put_events_good; [done|].
    apply (registered_ext _ _ r); [done|apply Hg|done]. }
  destruct prev as [[pa pe]|]; [|by apply Hev]. unfold refresh.
  eapply good_trans; [|by apply drop_events_good]. apply Hev.
  eapply good_trans; [done|]. by apply drop_actions_good.
Qed.

(** The catalog has the service of that full name on that node. *)
Definition provides (r : registry S) (n : ref) (fn : string) : Prop :=
  ∃ s, s ∈ services r ∧ svc_node r s = n ∧ svc_name r s = fn.

Lemma provides_kept r r' n fn : inv r → kept r r' → (∀ s, s ∈ services r → s ∈ services r') →
  provides r n fn → provides r' n fn.
Proof.
  intros Hi Hk Hsub (s & Hs & <- & <-). exists s. destruct (kept_svc _ _ _ Hi Hk Hs) as [-> ->]. auto.
Qed.

(** What one turn of the first loop does to the table of services. *)
Lemma registerService_spec n v r :
  ok r → live_node r n →
  let r' := registerService new_strategy n r v in
  ok r' ∧ kept r r' ∧ (∀ s, s ∈ services r → s ∈ services r') ∧ provides r' n (full_name v) ∧
  (∀ s, s ∈ services r' → s ∈ services r ∨ svc_node r' s = n ∧ svc_name r' s = full_name v).
Proof.
  intros Hok Hn. rewrite registerService_eq. destruct (enter n v r) as [[s prev] r1] eqn:He.
  destruct (enter_spec _ _ _ _ _ _ Hok Hn He) as (Hok1 & Hk1 & Hs1 & Hnode & Hname & Hsv).
  pose proof (refresh_good n v s prev r1 (proj1 Hok1)) as Hg. simpl.
  destruct Hg as [Hi2 He2]; [by split|]. set (r2 := refresh n v s prev r1) in *.
  pose proof (good_kept _ _ (conj Hi2 He2)) as Hk2. pose proof (ext_services _ _ He2) as Hs2.
  destruct (kept_svc _ _ _ (proj1 Hok1) Hk2 Hs1) as [Hnode2 Hname2].
  split_and!.
  - by eapply ok_good; [|split].
  - by eapply kept_trans; [|intros _].
  - intros x Hx. rewrite Hs2. destruct Hsv as [->| ->]; [done|]. apply elem_of_app. by left.
  - exists s. rewrite Hs2, Hnode2, Hname2. done.
  - intros x Hx. rewrite Hs2 in Hx. destruct Hsv as [Hsv|Hsv]; rewrite Hsv in Hx; [by left|].
    apply elem_of_app in Hx as [Hx|Hx%list_elem_of_singleton]; [by left|subst x]. right.
    by rewrite Hnode2, Hname2.
Qed.

(** The first loop of [registerServices]. *)
Lemma register_loop_spec n l r :
  ok r → live_node r n →
  let r' := foldl (registerService new_strategy n) r l in
  ok r' ∧ kept r r' ∧ (∀ s, s ∈ services r → s ∈ services r') ∧
  (∀ v, v ∈ l → provides r' n (full_name v)) ∧
  (∀ s, s ∈ services r' → svc_node r' s ≠ n → s ∈ services r).
Proof.
  revert r. induction l as [|v l IH]; intros r Hok Hn; simpl.
  - split_and!; [done|by apply kept_refl, Hok|done| |done]. intros v Hv. by apply not_elem_of_nil in Hv.
  - destruct (registerService_spec n v r Hok Hn) as (Hok1 & Hk1 & Hsub1 & Hp1 & Hnew1). simpl in *.
    set (r1 := registerService new_strategy n r v) in *.
    destruct (IH r1 Hok1) as (Hok2 & Hk2 & Hsub2 & Hp2 & Hnew2); [by apply (live_node_kept r); [apply Hok|..]|].
    set (r2 := foldl _ r1 l) in *. split_and!; [done|by eapply kept_trans|by auto| |].
    + intros w Hw. apply elem_of_cons in Hw as [->|Hw]; [|auto].
      apply (provides_kept r1); [apply Hok1|done..].
    + intros s Hs Hne. specialize (Hnew2 s Hs Hne). destruct (Hnew1 s Hnew2) as [?|[Heq _]]; [done|].
      destruct (kept_svc r1 r2 s (proj1 Hok1) Hk2 Hnew2) as [Hx _]. congruence.
Qed.

(** Removing a service by its full name and node removes just that one. *)
Lemma unregisterService_exact s r :
  ok r → s ∈ services r → node_id r (svc_node r s) ≠ ""%string →
  let r' := unregisterService (svc_name r s) (Some (node_id r (svc_node r s))) r in
  ok r' ∧ kept r r' ∧ services r' = Arr.remove (Pos.eqb s) (services r).
Proof.
  intros [Hi Hl] Hs Hne. destruct (unregisterService_spec (svc_name r s)
    (Some (node_id r (svc_node r s))) r Hi) as (Hi1 & Hsb & Hnd & Hsv).
  unfold target_id in Hsv. apply String.eqb_neq in Hne. rewrite Hne in Hsv.
  set (r1 := unregisterService _ _ r) in *.
  assert (services r1 = Arr.remove (Pos.eqb s) (services r)) as Hsv'.
  { destruct (services_get _ _ r) as [s'|] eqn:Hg.
    - apply services_get_Some in Hg as (Hs' & Hfn & Hid).
      assert (s = s') as ->; [|done]. apply (live_unique _ Hl); try done.
      symmetry. eapply live_node_inj; [by apply Hl|by apply Hl|done].
    - by destruct (services_get_None _ _ _ _ Hg Hs eq_refl). }
  assert (kept r r1) as Hk by done. split_and!; [|done|done].
  apply (ok_kept r); [by split|done|]. intros x. rewrite Hsv', Arr.elem_of_remove. by intros [? _].
Qed.

(** The second loop: services of the node that are announced no more. *)
Definition obsolete (n : ref) (l : list svc_schema) (r : registry S) (s : ref) : Prop :=
  svc_node r s = n ∧ svc_name r s ∉ map full_name l.

Definition sweep (n : ref) (l : list svc_schema) (r : registry S) (s : ref) : registry S :=
  let svc := svc_of (st r) s in
  if Pos.eqb (ServiceItem.node svc) n then
    if existsb (λ v, ServiceItem.equals (node_id r) (full_name v) None svc) l then r
    else unregisterService (ServiceItem.fullName svc) (Some (node_id r n)) r
  else r.

Lemma announced_spec l r s :
  existsb (λ v, ServiceItem.equals (node_id r) (full_name v) None (svc_of (st r) s)) l = true ↔
  svc_name r s ∈ map full_name l.
Proof.
  rewrite existsb_exists, list_elem_of_fmap. unfold ServiceItem.equals, svc_name.
  split; intros (v & H1 & H2).
  - exists v. rewrite list_elem_of_In. apply andb_prop in H1 as [? _] || apply andb_prop in H2 as [? _].
    by to_prop.
  - exists v. rewrite <- list_elem_of_In, H1, String.eqb_refl. done.
Qed.

Lemma sweep_spec n l r s :
  ok r → live_node r n → node_id r n ≠ ""%string → s ∈ services r →
  let r' := sweep n l r s in
  ok r' ∧ kept r r' ∧
  (∀ x, x ∈ services r' ↔ x ∈ services r ∧ (x = s → ~ obsolete n l r s)).
Proof.
  intros Hok Hn Hne Hs. unfold sweep. fold (svc_node r s) (svc_name r s).
  pose proof (kept_refl _ (proj1 Hok)) as Hk.
  destruct (Pos.eqb_spec (svc_node r s) n) as [<-|Hnode].
  - destruct (existsb _ l) eqn:He.
    + apply announced_spec in He. split_and!; [done..|]. unfold obsolete. naive_solver.
    + destruct (unregisterService_exact s r Hok Hs Hne) as (? & ? & Hsv). split_and!; [done..|].
      intros x. rewrite Hsv, Arr.elem_of_remove, Pos.eqb_neq.
      assert (obsolete (svc_node r s) l r s); [|naive_solver].
      split; [done|]. rewrite <- announced_spec. by rewrite He.
  - split_and!; [done..|]. unfold obsolete. naive_solver.
Qed.

Lemma sweep_loop_spec n l todo r :
  ok r → live_node r n → node_id r n ≠ ""%string → NoDup todo → (∀ s, s ∈ todo → s ∈ services r) →
  let r' := foldl (sweep n l) r todo in
  ok r' ∧ kept r r' ∧ (∀ x, x ∈ services r' ↔ x ∈ services r ∧ (x ∈ todo → ~ obsolete n l r x)).
Proof.
  revert r. induction todo as [|s todo IH]; intros r Hok Hn Hne Hnd Hsub; simpl.
  - split_and!; [done|by apply kept_refl, Hok|]. intros x. rewrite elem_of_nil. naive_solver.
  - apply NoDup_cons in Hnd as [Hnin Hnd]. pose proof (proj1 Hok) as Hi.
    destruct (sweep_spec n l r s Hok Hn Hne (Hsub s ltac:(left))) as (Hok1 & Hk1 & Hs1). simpl in *.
    set (r1 := sweep n l r s) in *.
    destruct (kept_node _ _ n Hk1 (live_node_alloc _ _ Hi Hn)) as [_ Hid].
    destruct (IH r1) as (Hok2 & Hk2 & Hs2); try done.
    { by apply (live_node_kept r). }
    { congruence. }
    { intros x Hx. apply Hs1. split; [apply Hsub; by right|]. by intros ->. }
    split_and!; [done|by eapply kept_trans|]. intros x. rewrite Hs2, Hs1, elem_of_cons.
    split.
    + intros [[Hx H1] H2]. split; [done|]. intros [->|Hin]; [auto|].
      unfold obsolete in *. destruct (kept_svc _ _ x Hi Hk1 Hx) as [<- <-]. auto.
    + intros [Hx Ho]. split; [split; [done|]|]; [intros ->; auto|].
      intros Hin. unfold obsolete. destruct (kept_svc _ _ x Hi Hk1 Hx) as [-> ->]. by apply Ho; right.
Qed.

(** After a node announced its services the catalog has exactly these of it, and
    the services of other nodes are untouched. *)
Lemma registerServices_spec n l r :
  ok r → live_node r n → node_id r n ≠ ""%string →
  let r' := registerServices new_strategy n l r in
  ok r' ∧ kept r r' ∧ (∀ fn, provides r' n fn ↔ fn ∈ map full_name l) ∧
  (∀ s, svc_node r' s ≠ n → s ∈ services r' ↔ s ∈ services r).
Proof.
  intros Hok Hn Hne. destruct (register_loop_spec n l r Hok Hn) as (Hok1 & Hk1 & Hsub1 & Hp1 & Hnew1).
  unfold registerServices. set (r1 := foldl (registerService new_strategy n) r l) in *.
  pose proof (proj1 Hok) as Hi. pose proof (proj1 Hok1) as Hi1. pose proof (live_node_kept _ _ _ Hi Hk1 Hn) as Hn1.
  destruct (kept_node _ _ n Hk1 (live_node_alloc _ _ Hi Hn)) as [_ Hid].
  destruct (sweep_loop_spec n l (services r1) r1 Hok1 Hn1) as (Hok2 & Hk2 & Hs2);
    [congruence|apply inv_nodup, Hi1|done|]. simpl.
  change (foldl _ r1 (services r1)) with (foldl (sweep n l) r1 (services r1)).
  set (r2 := foldl (sweep n l) r1 (services r1)) in *. set (r3 := tell _ (tell _ r2)).
  assert (kept r r3) as Hk3.
  { eapply kept_trans; [done|]. intros _. eapply kept_trans; [done|]. intros Hi2.
    eapply kept_trans; [by apply kept_tell|]. intros. by apply kept_tell. }
  split_and!; [by do 2 apply ok_tell|done| |].
  - intros fn. split.
    + intros (s & Hs & Hnode & Hname). apply Hs2 in Hs as [Hs Ho].
      destruct (kept_svc _ _ s Hi1 Hk2 Hs) as [Hx Hy]. change (svc_node r2 s = n) in Hnode.
      change (svc_name r2 s = fn) in Hname. destruct (decide (fn ∈ map full_name l)) as [|Hnin]; [done|].
      destruct (Ho Hs). split; congruence.
    + intros Hin. apply list_elem_of_fmap in Hin as (v & -> & Hv).
      destruct (Hp1 v Hv) as (s & Hs & Hnode & Hname). exists s.
      destruct (kept_svc _ _ s Hi1 Hk2 Hs) as [Hx Hy].
      split_and!; [|by rewrite <- Hnode|by rewrite <- Hname]. apply Hs2. split; [done|].
      intros _ [_ Hob]. apply Hob. rewrite Hname. apply list_elem_of_fmap. eauto.
  - intros s Hns. change (svc_node r2 s ≠ n) in Hns. change (s ∈ services r2 ↔ s ∈ services r). split.
    + intros Hs. apply Hs2 in Hs as [Hs _]. destruct (kept_svc _ _ s Hi1 Hk2 Hs) as [Hx _].
      apply Hnew1; [done|congruence].
    + intros Hs. pose proof (Hsub1 s Hs) as Hs1. apply Hs2. split; [done|]. intros _ [Heq _].
      destruct (kept_svc _ _ s Hi1 Hk2 Hs1) as [Hx _]. congruence.
Qed.

(** *** INFO packets *)

(** Looking up or creating the node of an INFO packet. *)
Definition greet (id : string) (now : Z) (r : registry S) : ref * bool * bool * registry S :=
  match OMap.get id (nodes r) with
  | None =>
      let '(n, st') := new_node (Node.create id now) (st r) in
      (n, true, false, set_nodes (OMap.set id n (nodes r)) (set_st st' r))
  | Some n =>
      if Node.available (node_of (st r) n) then (n, false, false, r)
      else (n, false, true, set_st (upd_node (Node.reconnect now) n (st r)) r)
  end.

Definition known_ref (r : registry S) (n : ref) : Prop := is_Some (st_nodes (st r) !! n).

(** A new node joins the catalog. *)
Lemma ok_join n0 id r n st' :
  ok r → OMap.get id (nodes r) = None → new_node n0 (st r) = (n, st') →
  Node.id n0 = id → Node.local n0 = false →
  let r' := set_nodes (OMap.set id n (nodes r)) (set_st st' r) in
  ok r' ∧ same_broker r r' ∧ node_of st' n = n0 ∧ (∀ m, known_ref r m → node_of st' m = node_of (st r) m ∧ m ≠ n).
Proof.
  intros [Hi Hl] Hnone Hnew Hid0 Hloc0. pose proof (store_le_new_node _ _ _ _ Hnew) as Hle.
  destruct (node_of_new _ _ _ _ Hnew) as [Hn Hold].
  pose proof (inv_set_st _ _ Hi Hle) as [H1 H2 H3 H4 H5 H6 H7 H8]. simpl.
  set (r' := set_nodes _ _). simpl in *.
  assert (is_Some (st_nodes st' !! n)) as Hal.
  { clear -Hnew. unfold new_node in Hnew. injection Hnew as <- <-. simpl. rewrite lookup_insert_eq. eauto. }
  assert (∀ m, live_node r m → live_node r' m ∧ m ≠ n) as Hlive.
  { intros m Hm. pose proof (live_node_alloc _ _ Hi Hm) as Ha. destruct Hm as [Hg Hav].
    pose proof (new_node_fresh n0 (st r)) as Hfr. rewrite Hnew in Hfr.
    split; [|intros ->; destruct Ha; simpl in Hfr; congruence]. unfold live_node, node_id. simpl.
    rewrite Hold by done. split; [|done]. rewrite OMap.get_set_ne; [done|]. intros Heq. unfold node_id in Hg. congruence. }
  assert (∀ x, x ∈ services r → svc_of st' x = svc_of (st r) x) as Hsv.
  { intros x _. clear -Hnew. unfold new_node in Hnew. by injection Hnew as <- <-. }
  split_and!; [split| |done|].
  - constructor; simpl; try done; [|by apply OMap.wf_set].
    intros j m Hin. apply OMap.set_elem in Hin as [[-> ->]|Hin]; [|auto]. by rewrite Hn.
  - destruct Hl as [Hls Hll Hil Hu]. constructor; unfold svc_node, svc_name; simpl.
    + intros s Hs. rewrite Hsv by done. apply Hlive. by apply Hls.
    + by apply Hlive.
    + intros j m Hin. apply OMap.set_elem in Hin as [[-> ->]|Hin].
      * rewrite Hn, Hloc0. split; [done|]. intros ->. by destruct (Hlive _ Hll).
      * destruct (inv_nodes _ Hi _ _ Hin) as [Ha _]. rewrite Hold by done. by eapply Hil.
    + intros s s' Hs Hs'. rewrite !Hsv by done. by apply Hu.
  - constructor; simpl; try done. intros m Hm Hav. by rewrite Hold.
  - intros m Hm. pose proof (new_node_fresh n0 (st r)) as Hfr. rewrite Hnew in Hfr. simpl in Hfr.
    split; [by apply Hold|]. intros ->. destruct Hm as [? Hm]. congruence.
Qed.

Lemma ok_new_node id now r n st' :
  ok r → OMap.get id (nodes r) = None → new_node (Node.create id now) (st r) = (n, st') →
  let r' := set_nodes (OMap.set id n (nodes r)) (set_st st' r) in
  ok r' ∧ live_node r' n ∧ same_broker r r'.
Proof.
  intros Hok Hnone Hnew. destruct (ok_join _ id r n st' Hok Hnone Hnew) as (? & ? & Hn & _); [done..|].
  split_and!; try done. unfold live_node, node_id. simpl. rewrite Hn. simpl. by rewrite OMap.get_set_eq.
Qed.

Lemma greet_spec id now r n isNew isRec r' :
  ok r → greet id now r = (n, isNew, isRec, r') →
  ok r' ∧ live_node r' n ∧ node_id r' n = id ∧ same_broker r r' ∧ services r' = services r.
Proof.
  intros Hok. unfold greet. destruct (OMap.get id (nodes r)) as [m|] eqn:Hg.
  - pose proof (OMap.get_Some_elem _ _ _ Hg) as Hin. pose proof (proj1 Hok) as Hi.
    destruct (inv_nodes _ Hi _ _ Hin) as [Ha Hid].
    destruct (Node.available _) eqn:Hav; intros Heq; simplify_eq.
    + by split_and!.
    + assert (good r (set_st (upd_node (Node.reconnect now) n (st r)) r)) as Hgd by by apply good_upd_node.
      split_and!; [by eapply ok_good| | |by apply ext_same_broker, Hgd|done].
      * unfold live_node, node_id. simpl. by rewrite node_of_upd_eq.
      * unfold node_id. simpl. by rewrite node_of_upd_eq.
  - destruct (new_node _ (st r)) as [m st'] eqn:Hnew. intros Heq. simplify_eq.
    destruct (ok_new_node _ _ _ _ _ Hok Hg Hnew) as (? & ? & ?). split_and!; try done.
    unfold node_id. simpl. by destruct (node_of_new _ _ _ _ Hnew) as [-> _].
Qed.

(** Whether an INFO packet brings news of the node's services. *)
Definition is_news (p : node_info) (r : registry S) : bool :=
  match OMap.get (i_sender p) (nodes r) with
  | Some n => (Node.update p (negb (Node.available (node_of (st r) n))) (node_of (st r) n)).2
  | None => (Node.update p false (Node.create (i_sender p) 0)).2
  end.

Lemma greet_news p now r n isNew isRec r' :
  ok r → greet (i_sender p) now r = (n, isNew, isRec, r') →
  (Node.update p isRec (node_of (st r') n)).2 = is_news p r.
Proof.
  intros [Hi _]. unfold greet, is_news. destruct (OMap.get _ _) as [m|] eqn:Hg.
  - apply OMap.get_Some_elem, (inv_nodes _ Hi) in Hg as [Ha _].
    destruct (Node.available _) eqn:Hav; intros Heq; simplify_eq; simpl; [done|].
    by rewrite node_of_upd_eq.
  - destruct (new_node _ (st r)) as [m st'] eqn:Hnew. intros Heq. simplify_eq. simpl.
    by destruct (node_of_new _ _ _ _ Hnew) as [-> _].
Qed.

(** The notification that ends [processNodeInfo]. *)
Definition notify (id : string) (isNew isRec : bool) (r : registry S) : registry S :=
  if isNew then tell UpdateMetrics (tell (NodeConnected id false) r)
  else if isRec then tell UpdateMetrics (tell (NodeConnected id true) r)
  else tell (NodeUpdated id) r.

Lemma notify_same id a b r : inv r →
  kept r (notify id a b r) ∧ services (notify id a b r) = services r ∧ st (notify id a b r) = st r.
Proof.
  intros Hi. split; [|by destruct a, b].
  assert (∀ e (r : registry S), inv r → kept r (tell e r)) as Ht by (intros; by apply kept_tell).
  destruct a, b; simpl; repeat first [by apply Ht | eapply kept_trans; [by apply Ht|intros]].
Qed.

(** The node of a packet, online under its ID. *)
Definition at_node (id : string) (n : ref) (r r' : registry S) : Prop :=
  ok r' ∧ live_node r' n ∧ node_id r' n = id ∧ same_broker r r'.

Lemma at_node_kept id n r r1 r2 : at_node id n r r1 → ok r2 → kept r1 r2 → at_node id n r r2.
Proof.
  intros (Hok1 & Hn1 & Hid & Hsb) Hok2 Hk. pose proof (proj1 Hok1) as Hi.
  destruct (kept_node _ _ n Hk (live_node_alloc _ _ Hi Hn1)) as [_ Hid'].
  split_and!; [done|by apply (live_node_kept r1)|congruence|]. etransitivity; [done|]. apply Hk.
Qed.

Lemma at_node_good id n r r1 r2 : at_node id n r r1 → good r1 r2 → at_node id n r r2.
Proof.
  intros Hat Hg. eapply at_node_kept; [done| |by apply good_kept]. by eapply ok_good; [apply Hat|].
Qed.

Lemma at_node_notify id n r r' a b : at_node id n r r' → at_node id n r (notify id a b r').
Proof.
  intros Hat. destruct (notify_same id a b r' (proj1 (proj1 Hat))) as (Hk & Hs & _).
  eapply at_node_kept; [done| |done]. eapply ok_kept; [apply Hat|done|]. by rewrite Hs.
Qed.

Lemma processNodeInfo_eq p now r :
  processNodeInfo new_strategy p now r =
  let '(n, isNew, isRec, r1) := greet (i_sender p) now r in
  let '(node', need) := Node.update p isRec (node_of (st r1) n) in
  let r2 := set_st (upd_node (λ _, node') n (st r1)) r1 in
  notify (i_sender p) isNew isRec
    match i_services p with
    | Some l =>
        if need then
          registerServices new_strategy n l
            (set_st (upd_node (Node.set_services (Node.Announced (Some (map named l)))) n (st r2)) r2)
        else r2
    | None => r2
    end.
Proof. unfold processNodeInfo. fold (greet (i_sender p) now r). by destruct (greet _ _ r) as [[[n a] b] r1]. Qed.

(** What a packet does to the table of services: news replaces the services of the
    node by the announced ones, anything else leaves all services as they are. *)
Definition news_effect (p : node_info) (n : ref) (r r' : registry S) : Prop :=
  match i_services p with
  | Some l =>
      if is_news p r then
        (∀ fn, provides r' n fn ↔ fn ∈ map full_name l) ∧
        (∀ s, svc_node r' s ≠ n → s ∈ services r' ↔ s ∈ services r)
      else services r' = services r
  | None => services r' = services r
  end.

(** An INFO packet of a remote node. *)
Lemma processNodeInfo_spec p now r :
  ok r → i_sender p ≠ ""%string →
  let r' := processNodeInfo new_strategy p now r in
  ok r' ∧ same_broker r r' ∧
  ∃ n, OMap.get (i_sender p) (nodes r') = Some n ∧ Node.available (node_of (st r') n) = true ∧
  news_effect p n r r'.
Proof.
  intros Hok Hne. rewrite processNodeInfo_eq.
  destruct (greet _ _ r) as [[[n isNew] isRec] r1] eqn:Hgr.
  pose proof (greet_news _ _ _ _ _ _ _ Hok Hgr) as Hnews.
  destruct (greet_spec _ _ _ _ _ _ _ Hok Hgr) as (Hok1 & Hn1 & Hid1 & Hsb1 & Hsv1).
  destruct (Node.update _ _ _) as [node' need] eqn:Hup. simpl in Hnews. subst need.
  assert (good r1 (set_st (upd_node (λ _, node') n (st r1)) r1)) as Hg2.
  { apply good_upd_node; [..|apply Hok1]; unfold Node.update in Hup; by simplify_eq. }
  simpl. set (r2 := set_st (upd_node (λ _, node') n (st r1)) r1) in *.
  assert (at_node (i_sender p) n r r1) as Hat1 by done.
  pose proof (at_node_good _ _ _ _ _ Hat1 Hg2) as Hat2.
  assert (services r2 = services r) as Hsv2 by done.
  match goal with |- context [notify _ _ _ ?m] => set (r4 := m) end.
  assert (at_node (i_sender p) n r r4 ∧ news_effect p n r r4) as [Hat4 Heff].
  { subst r4. unfold news_effect. destruct (i_services p) as [l|]; [|done].
    destruct (is_news p r); [|done].
    set (r3 := set_st (upd_node (Node.set_services _) n _) r2).
    assert (good r2 r3) as Hg3 by (apply good_upd_node; [done|done|apply Hg2]).
    destruct (at_node_good _ _ _ _ _ Hat2 Hg3) as (Hok3 & Hn3 & Hid3 & Hsb3).
    destruct (registerServices_spec n l r3 Hok3 Hn3) as (Hok4 & Hk4 & Hex & Hoth); [congruence|].
    split; [by apply (at_node_kept _ _ _ r3)|]. split; [done|]. intros s Hs. rewrite <- Hsv2. by apply Hoth. }
  destruct (notify_same (i_sender p) isNew isRec r4 (proj1 (proj1 Hat4))) as (_ & Hs & Hst).
  apply (at_node_notify _ _ _ _ isNew isRec) in Hat4 as (? & [Hget ?] & Hid & ?).
  split_and!; try done. exists n. split_and!; [congruence|done|].
  revert Heff. unfold news_effect, provides, svc_node, svc_name. by rewrite Hs, Hst.
Qed.

(** *** Nodes that leave *)

Definition tells (es : list effect) (r : registry S) : registry S := foldl (λ r e, tell e r) r es.

(** The tail of [NodeCatalog.disconnected] only notifies. *)
Lemma disconnected_eq id u now r n :
  OMap.get id (nodes r) = Some n → Node.available (node_of (st r) n) = true →
  ∃ es, disconnected id u now r =
    tells es
      (services_removeAllByNodeID (node_id r n) (set_st (upd_node (Node.disconnected now) n (st r)) r)).
Proof.
  intros Hg Hav. unfold disconnected. rewrite Hg, Hav.
  assert (node_id (set_st (upd_node (Node.disconnected now) n (st r)) r) n = node_id r n) as ->.
  { unfold node_id. simpl. by rewrite (node_of_upd_proj Node.id). }
  unfold unregisterServicesByNode. set (r2 := services_removeAllByNodeID _ _).
  set (i := node_id r2 n). destruct (hasTransit _).
  - by exists [NodeDisconnected i u; ServicesChanged false; UpdateMetrics; RemovePendingByNodeID id].
  - by exists [NodeDisconnected i u; ServicesChanged false; UpdateMetrics].
Qed.

Lemma tells_kept es r : inv r → let r' := tells es r in
  kept r r' ∧ services r' = services r ∧ st r' = st r ∧ all_lists r' = all_lists r.
Proof.
  revert r. induction es as [|e es IH]; intros r Hi; simpl.
  - split; [by apply kept_refl|done].
  - destruct (IH (tell e r)) as (Hk & -> & -> & ->); [by apply inv_tell|]. split; [|done].
    eapply kept_trans; [by apply kept_tell|done].
Qed.

(** Taking a node out of service together with its services. *)
Lemma live_without n r r' :
  live r → n ≠ localNode r → nodes r' = nodes r → localNode r' = localNode r →
  (∀ m, node_id r' m = node_id r m ∧ Node.local (node_of (st r') m) = Node.local (node_of (st r) m)) →
  (∀ m, m ≠ n → node_of (st r') m = node_of (st r) m) →
  (∀ s, svc_of (st r') s = svc_of (st r) s) →
  (∀ s, s ∈ services r' → s ∈ services r ∧ svc_node r s ≠ n) → live r'.
Proof.
  intros [Hls Hll Hil Hu] Hnl Hn Hln Hids Hnode Hsvc Hss.
  assert (∀ m, m ≠ n → live_node r m → live_node r' m) as Hlive.
  { intros m Hm [H1 H2]. destruct (Hids m) as [Hid _]. split; [by rewrite Hid, Hn|by rewrite Hnode]. }
  assert (∀ s, svc_node r' s = svc_node r s ∧ svc_name r' s = svc_name r s) as Hsn.
  { intros s. unfold svc_node, svc_name. by rewrite Hsvc. }
  constructor.
  - intros s Hs. apply Hss in Hs as [Hs Hne]. destruct (Hsn s) as [-> _]. apply Hlive; [done|by apply Hls].
  - rewrite Hln. by apply Hlive.
  - intros j m Hjm. rewrite Hn in Hjm. destruct (Hids m) as [_ ->]. rewrite Hln. by eapply Hil.
  - intros s s' Hs Hs'. apply Hss in Hs as [Hs _], Hs' as [Hs' _].
    destruct (Hsn s) as [-> ->], (Hsn s') as [-> ->]. auto.
Qed.

Lemma disconnected_spec id u now r n :
  ok r → id ≠ nodeID (cfg r) → OMap.get id (nodes r) = Some n →
  Node.available (node_of (st r) n) = true →
  let r' := disconnected id u now r in
  ok r' ∧ all_eps (λ e, Endpoint.id e ≠ id) r' ∧
  (∀ s, s ∈ services r' ↔ s ∈ services r ∧ svc_node r s ≠ n) ∧
  nodes r' = nodes r ∧ Node.available (node_of (st r') n) = false ∧
  (∀ m, m ≠ n → node_of (st r') m = node_of (st r) m) ∧ cfg r' = cfg r.
Proof.
  intros [Hi Hl] Hid Hg Hav.
  pose proof (OMap.get_Some_elem _ _ _ Hg) as Hin. destruct (inv_nodes _ Hi _ _ Hin) as [Ha Hnid].
  destruct (disconnected_eq id u now r n Hg Hav) as [es ->]. simpl.
  assert (node_id r n = id) as Hnid' by done. rewrite Hnid'.
  set (r1 := set_st (upd_node (Node.disconnected now) n (st r)) r).
  assert (inv r1) as Hi1 by (apply inv_set_st, store_le_upd_node; done).
  destruct (services_removeAll_spec id r1 Hi1) as (Hi2 & Hsb2 & Hst2 & Hn2 & Hs2 & He2).
  set (r2 := services_removeAllByNodeID id r1) in *.
  destruct (tells_kept es r2 Hi2) as (Hk3 & Hs3 & Hst3 & Hal3). set (r3 := tells es r2) in *.
  assert (∀ m, m ≠ n → node_of (st r2) m = node_of (st r) m) as Hnode.
  { intros m Hm. rewrite Hst2. simpl. by rewrite node_of_upd_ne. }
  assert (∀ m, node_id r1 m = node_id r m) as Hids.
  { intros m. unfold node_id, r1. simpl. by rewrite (node_of_upd_proj Node.id). }
  assert (∀ s, s ∈ services r2 ↔ s ∈ services r ∧ svc_node r s ≠ n) as Hss.
  { intros s. rewrite Hs2, Hids. change (services r1) with (services r).
    change (svc_of (st r1) s) with (svc_of (st r) s). fold (svc_node r s).
    split; intros [Hs Hne]; split; try done; intros Heq; apply Hne; [congruence|].
    apply (live_node_inj r); [by apply Hl|split; [by rewrite Hnid'|done]|congruence]. }
  assert (ok r2) as Hok2.
  { split; [done|]. apply (live_without n r); try done.
    - intros ->. destruct (inv_local _ Hi) as [_ Hloc]. congruence.
    - by rewrite (sb_localNode _ _ Hsb2).
    - intros m. unfold node_id. rewrite Hst2. simpl. by rewrite !(node_of_upd_proj _ (Node.disconnected now)).
    - by rewrite Hst2.
    - apply Hss. }
  split_and!.
  - eapply ok_kept; [done|done|]. by rewrite Hs3.
  - intros l e. rewrite Hal3, Hst3. apply He2.
  - by rewrite Hs3.
  - by rewrite (kept_nodes _ _ Hk3), Hn2.
  - rewrite Hst3, Hst2. simpl. by rewrite node_of_upd_eq.
  - by rewrite Hst3.
  - rewrite (sb_cfg _ _ (kept_sb _ _ Hk3)), (sb_cfg _ _ Hsb2). done.
Qed.

(** *** The periodic checks of the discoverer *)

Definition known (r : registry S) (n : ref) : Prop := OMap.get (node_id r n) (nodes r) = Some n.

Lemma known_alloc r n : inv r → known r n → is_Some (st_nodes (st r) !! n).
Proof. intros Hi Hk. apply OMap.get_Some_elem in Hk. by apply (inv_nodes _ Hi) in Hk as [? _]. Qed.

Lemma known_values r n : inv r → n ∈ OMap.values (nodes r) → known r n.
Proof.
  intros Hi Hn. apply elem_of_values in Hn as [id Hn]. destruct (inv_nodes _ Hi _ _ Hn) as [_ Hid].
  unfold known, node_id. rewrite Hid. apply OMap.elem_get; [apply Hi|done].
Qed.

Lemma values_nodup (r : registry S) : inv r → NoDup (OMap.values (nodes r)).
Proof.
  intros Hi. apply (NoDup_fmap_1 (node_id r)).
  replace (node_id r <$> OMap.values (nodes r)) with (OMap.keys (nodes r)); [apply Hi|].
  unfold OMap.keys, OMap.values. change (map fst (nodes r) = map (node_id r) (map snd (nodes r))).
  rewrite map_map. apply map_ext_in. intros [id n] Hin. apply list_elem_of_In in Hin. simpl.
  by destruct (inv_nodes _ Hi _ _ Hin) as [_ <-].
Qed.

(** A remote node has another ID than the broker. *)
Lemma remote_id r n : ok r → known r n → Node.local (node_of (st r) n) = false → node_id r n ≠ nodeID (cfg r).
Proof.
  intros [Hi Hl] Hk Hloc Heq. destruct (live_local _ Hl) as [Hg _]. destruct (inv_local _ Hi) as [_ Hid].
  unfold known in Hk. rewrite Heq, <- Hid in Hk. unfold node_id in Hg.
  assert (n = localNode r) as -> by congruence.
  apply OMap.get_Some_elem, (live_is_local _ Hl) in Hg as [_ Hg]. rewrite Hg in Hloc; done.
Qed.

(** A loop over the known nodes whose turns may only forget their own node. *)
Lemma node_loop (f : registry S → ref → registry S) r :
  (∀ r n, ok r → known r n → ok (f r n) ∧ ∀ m, m ≠ n → known r m → known (f r n) m) →
  ok r → ok (foldl f r (OMap.values (nodes r))).
Proof.
  intros Hf Hok. pose proof (proj1 Hok) as Hi.
  assert (∀ m, m ∈ OMap.values (nodes r) → known r m) as Hk by (intros; by apply known_values).
  pose proof (values_nodup r Hi) as Hnd. revert Hk Hnd. generalize (OMap.values (nodes r)) as todo. clear Hi.
  intros todo. revert r Hok. induction todo as [|n todo IH]; intros r Hok Hk Hnd; [done|]. simpl.
  apply NoDup_cons in Hnd as [Hnin Hnd]. destruct (Hf r n Hok) as [Hok' Hkn]; [apply Hk; left|].
  apply IH; [done| |done]. intros m Hm. apply Hkn; [by intros ->|]. apply Hk. by right.
Qed.

Lemma good_known r r' m : inv r → good r r' → known r m → known r' m.
Proof.
  intros Hi Hg Hm. pose proof (known_alloc _ _ Hi Hm) as Ha. pose proof (good_kept _ _ Hg) as Hk.
  destruct (kept_node _ _ m Hk Ha) as [_ Hid]. unfold known. by rewrite Hid, (kept_nodes _ _ Hk).
Qed.

Lemma stamp_good now n (r : registry S) : inv r → good r (set_st (upd_node (Discoverer.stamp now) n (st r)) r).
Proof. intros Hi. by apply good_upd_node. Qed.

Lemma ok_checkRemoteNodes o now r : ok r → ok (Discoverer.checkRemoteNodes o now r).
Proof.
  intros Hok. unfold Discoverer.checkRemoteNodes. destruct (Discoverer.disableHeartbeatChecks o); [done|].
  apply node_loop; [|done]. clear r Hok. intros r n Hok Hk. pose proof (proj1 Hok) as Hi.
  unfold Discoverer.checkRemoteNode.
  destruct (Node.local _) eqn:Hloc; [done|]. destruct (Node.available _) eqn:Hav; [|done]. simpl.
  destruct (_ =? 0).
  - pose proof (stamp_good now n r Hi) as Hg. split; [by eapply ok_good|].
    intros m _ Hm. by apply (good_known r).
  - destruct (_ <? _); [|done]. fold (node_id r n).
    destruct (disconnected_spec (node_id r n) true now r n Hok) as (Hok' & _ & _ & Hn & _ & Hnode & _);
      [by apply remote_id|done|done|]. split; [done|].
    intros m Hm Hkm. unfold known, node_id in *. by rewrite Hnode, Hn.
Qed.

(** Forgetting a node that is offline. *)
Lemma ok_nodes_delete n r :
  ok r → known r n → Node.local (node_of (st r) n) = false →
  Node.available (node_of (st r) n) = false → ok (nodes_delete (node_id r n) r).
Proof.
  intros Hok Hk Hloc Hav. pose proof (remote_id r n Hok Hk Hloc) as Hrem.
  destruct Hok as [Hi [Hls Hll Hil Hu]].
  assert (∀ m, live_node r m → live_node (nodes_delete (node_id r n) r) m) as Hlive.
  { intros m [Hg Ham]. split; [|done]. simpl. rewrite OMap.get_delete_ne; [done|].
    unfold known in Hk. intros Heq. change (node_id r n = node_id r m) in Heq. rewrite Heq in Hk. congruence. }
  split.
  - destruct Hi as [H1 H2 H3 H4 H5 H6 H7 H8]. constructor; simpl; try done; [|by apply OMap.wf_delete].
    intros id m Hin. apply OMap.delete_elem in Hin as [Hin _]; [|done]. auto.
  - constructor; simpl.
    + intros s Hs. by apply Hlive, Hls.
    + by apply Hlive.
    + intros id m Hin. apply OMap.delete_elem in Hin as [Hin _]; [|apply Hi]. by eapply Hil.
    + done.
Qed.

Lemma ok_checkOfflineNodes o now r : ok r → ok (Discoverer.checkOfflineNodes o now r).
Proof.
  intros Hok. unfold Discoverer.checkOfflineNodes. destruct (_ || _); [done|].
  apply node_loop; [|done]. clear r Hok. intros r n Hok Hk. pose proof (proj1 Hok) as Hi.
  unfold Discoverer.checkOfflineNode.
  destruct (Node.local _) eqn:Hloc; [done|]. destruct (Node.available _) eqn:Hav; [done|]. simpl.
  destruct (_ =? 0).
  - pose proof (stamp_good now n r Hi) as Hg. split; [by eapply ok_good|].
    intros m _ Hm. by apply (good_known r).
  - destruct (_ <? _); [|done]. fold (node_id r n). split; [by apply ok_nodes_delete|].
    intros m Hm Hkm. unfold known, nodes_delete in *. simpl. rewrite OMap.get_delete_ne; [done|].
    intros Heq. change (node_id r n = node_id r m) in Heq. rewrite Heq in Hk. congruence.
Qed.

Lemma ok_discoverNode id r : ok r → ok (Discoverer.discoverNode id r).
Proof. intros Hok. unfold Discoverer.discoverNode. destruct (hasTransit _); [by apply ok_tell|done]. Qed.

Lemma ok_heartbeatReceived id p now r r' :
  ok r → Discoverer.heartbeatReceived id p now r = Some r' → ok r'.
Proof.
  intros Hok. unfold Discoverer.heartbeatReceived, Discoverer.heartbeatReceived_by.
  destruct (OMap.get id (nodes r)) as [n|]; [|intros [= <-]; by apply ok_discoverNode].
  assert (ok (set_st (upd_node (Node.heartbeat (Discoverer.hb_cpu p) (Discoverer.hb_cpuSeq p) now) n (st r)) r)).
  { eapply ok_good; [done|]. apply good_upd_node; [done|done|apply Hok]. }
  pose proof (ok_discoverNode id r Hok). repeat (split_match; try (intros; simplify_eq; done)).
Qed.

(** *** Local services *)

Lemma good_invalidate x (r : registry S) : inv r → good r (set_invalidated x r).
Proof. intros Hi. split; [by apply inv_set_invalidated|by constructor]. Qed.

(** [registerLocalService] behind its guard: the endpoints of the new service, then
    the node's own list of services. *)
Definition local_tail (v : svc_schema) (s : ref) (r : registry S) : registry S :=
  let r := put_actions (localNode r) v s r in
  let r := put_events (localNode r) v s r in
  match Node.services (node_of (st r) (localNode r)) with
  | Node.Items l => set_st (upd_node (Node.set_services (Node.Items (l ++ [s]))) (localNode r) (st r)) r
  | Node.Announced _ => r
  end.

Lemma registerLocalService_eq v r :
  registerLocalService new_strategy v r =
  let fn := default ""%string (sv_fullName v) in
  if services_has fn (Some (nodeID (cfg r))) r then r
  else
    let '(s, r) := services_add (localNode r) v fn true r in
    tell UpdateMetrics (tell (ServicesChanged true) (set_invalidated InvalidatedSeq (local_tail v s r))).
Proof. done. Qed.

Lemma local_tail_good v s r : inv r → registered (localNode r) s r → good r (local_tail v s r).
Proof.
  intros Hi Hreg. unfold local_tail. pose proof (put_actions_good _ v s r Hi Hreg) as H1.
  set (r1 := put_actions _ v s r) in *.
  assert (localNode r1 = localNode r) as Hln by apply H1.
  assert (good r (put_events (localNode r1) v s r1)) as H2.
  { eapply good_trans; [done|]. intros Hi1. apply put_events_good; [done|]. rewrite Hln.
    apply (registered_ext _ _ r); [done|apply H1|done]. }
  set (r2 := put_events _ v s r1) in *. destruct (Node.services _); [done|].
  eapply good_trans; [done|]. intros Hi2. by apply good_upd_node.
Qed.

Lemma ok_registerLocalService v r : ok r → ok (registerLocalService new_strategy v r).
Proof.
  intros Hok. rewrite registerLocalService_eq. cbv zeta. unfold services_has.
  destruct (services_get _ _ r) as [s|] eqn:Hg; [done|].
  destruct (services_add _ _ _ _ r) as [s r1] eqn:Hadd.
  pose proof (live_local _ (proj2 Hok)) as Hl. destruct (inv_local _ (proj1 Hok)) as [_ Hid].
  destruct (ok_services_add (localNode r) v (default ""%string (sv_fullName v)) true r s r1 Hok Hl)
    as (Hok1 & Hk1 & Hsv1 & Hn1 & _); [unfold node_id; by rewrite Hid|done|].
  assert (localNode r1 = localNode r) as Hln by apply (sb_localNode _ _ (kept_sb _ _ Hk1)).
  assert (good r1 (local_tail v s r1)) as Hg1.
  { apply local_tail_good; [apply Hok1|]. split; [|by rewrite Hln].
    rewrite Hsv1. apply elem_of_app. right. left. }
  do 2 apply ok_tell. eapply ok_good; [by eapply ok_good|]. apply good_invalidate, Hg1.
Qed.

Lemma ok_unregisterService fn id r : ok r → ok (unregisterService fn id r).
Proof.
  intros Hok. pose proof (proj1 Hok) as Hi.
  destruct (unregisterService_spec fn id r Hi) as (_ & _ & _ & Hsv).
  eapply ok_kept; [done|by apply unregisterService_kept|]. intros s. rewrite Hsv.
  destruct (services_get _ _ r); [|done]. rewrite Arr.elem_of_remove. by intros [? _].
Qed.

(** *** Routing *)

(** Choosing endpoints changes nothing but the strategies' states. *)
Record rerouted (r r' : registry S) : Prop := {
  rr_cfg : cfg r' = cfg r;
  rr_st : st r' = st r;
  rr_nodes : nodes r' = nodes r;
  rr_local : localNode r' = localNode r;
  rr_services : services r' = services r;
  rr_keys : OMap.keys (actions r') = OMap.keys (actions r);
  rr_actions k l' : (k, l') ∈ actions r' → ∃ l, (k, l) ∈ actions r ∧ EndpointList.rebalanced l l';
  rr_events : Forall2 EndpointList.rebalanced (events r) (events r')
}.

Lemma list_ok_rebalanced b st0 svcs (l l' : EndpointList.t S) :
  EndpointList.rebalanced l l' → list_ok b st0 svcs l → list_ok b st0 svcs l'.
Proof.
  intros Hr [Hwf Hok]. split; [by eapply EndpointList.wf_rebalanced|].
  destruct Hr as (_ & _ & _ & He & _). by rewrite He.
Qed.

Lemma rerouted_good r r' : inv r → rerouted r r' → good r r'.
Proof.
  intros Hi [Hc Hst Hn Hln Hs Hk Ha He]. split; [|by constructor; rewrite ?Hst].
  pose proof Hi as [H1 H2 H3 H4 H5 H6 H7 H8].
  constructor; rewrite ?Hc, ?Hst, ?Hn, ?Hln, ?Hs; try done.
  - intros l' Hl'. apply elem_of_all_lists in Hl' as [[k Hl']|Hl'].
    + apply Ha in Hl' as (l & Hl & Hr). eapply list_ok_rebalanced; [done|].
      apply (inv_lists _ Hi), elem_of_all_lists. eauto.
    + apply list_elem_of_lookup in Hl' as [j Hj].
      destruct (Forall2_lookup_r _ _ _ _ _ He Hj) as (l & Hl & Hr).
      eapply list_ok_rebalanced; [done|]. apply (inv_lists _ Hi), elem_of_all_lists. right.
      by eapply list_elem_of_lookup_2.
  - intros k l' Hl'. apply Ha in Hl' as (l & Hl & Hr). destruct Hr as (-> & _). by apply (inv_names _ Hi).
  - unfold OMap.wf. rewrite Hk. apply Hi.
Qed.

Lemma rerouted_refl r : rerouted r r.
Proof.
  constructor; try done; [|by apply Forall2_same_length_lookup_2; [done|]; intros; simplify_eq].
  intros k l Hl. by exists l.
Qed.

Lemma rerouted_action k l l' r :
  OMap.get k (actions r) = Some l → EndpointList.rebalanced l l' →
  rerouted r (set_actions (OMap.set k l' (actions r)) r).
Proof.
  intros Hg Hr. destruct (rerouted_refl r) as [_ _ _ _ _ _ Ha He]. constructor; simpl; try done.
  - apply OMap.keys_set_in. apply OMap.get_Some_elem in Hg. apply list_elem_of_fmap. by exists (k, l).
  - intros j x Hx. apply OMap.set_elem in Hx as [[-> ->]|Hx]; [|eauto].
    exists l. split; [by apply OMap.get_Some_elem|done].
Qed.

Lemma rerouted_events ls r :
  Forall2 EndpointList.rebalanced (events r) ls → rerouted r (set_events ls r).
Proof. intros He. destruct (rerouted_refl r) as [_ _ _ _ _ _ Ha _]. by constructor. Qed.

End spec.
