(* ===== verification/GossipInv.v ===== *)
(** * What gossip does to the registry

    Gossip messages carry entries by node ID, and every entry acts on the node of its
    ID alone.  [view] is what a registry knows of an ID; for each message there is a
    pure function on views, and the loops over the registry compute it pointwise. *)

From Stdlib Require Import ZArith Lia Bool.
From stdpp Require Import base tactics list strings option gmap.
From S2P Require Import Prelude Strategies RegistryData EndpointList Registry LocalInfo Gossip Discoverer Routing RegistryInv RegistrySpec.

Local Open Scope Z_scope.

(** What the registry knows of a node ID. *)
Definition view {S} (r : registry S) (id : string) : option Node.t :=
  option_map (node_of (st r)) (OMap.get id (nodes r)).

(** ** The effect of the messages on one node *)

Definition claim_offline (p : Gossip.request) (id : string) : option Z :=
  match OMap.get id (Gossip.q_offline p) with
  | Some q => if q =? 0 then None else Some q
  | None => None
  end.

(** The sequence number a request claims for a node; [0] is none. *)
Definition claim (p : Gossip.request) (id : string) : Z :=
  match claim_offline p id, OMap.get id (Gossip.q_online p) with
  | Some q, _ => q
  | None, Some (q, _, _) => q
  | None, None => 0
  end.

(** What a request makes of a remote node, and the entry of the response. *)
Definition answer (p : Gossip.request) (now : Z) (x : Node.t) : Node.t * option (Gossip.row + Z) :=
  let id := Node.id x in
  if (claim p id =? 0) || (claim p id <? Node.seq x) then
    (x, Some (if Node.available x
              then inl (Gossip.RowFull (Node.rawInfo x) (Gossip.cpuSeq_of x) (Gossip.cpu_of x))
              else inr (Node.seq x)))
  else
    match claim_offline p id, OMap.get id (Gossip.q_online p) with
    | Some q, _ => (Node.set_seq q (if Node.available x then Node.disconnected now x else x), None)
    | None, Some (_, cpuSeq, cpu) =>
        if negb (Node.available x) then (x, None)
        else if Gossip.cpuSeq_of x <? cpuSeq then (Node.heartbeat (Some cpu) (Some cpuSeq) now x, None)
        else if cpuSeq <? Gossip.cpuSeq_of x
        then (x, Some (inl (Gossip.RowCpu (Gossip.cpuSeq_of x) (Gossip.cpu_of x))))
        else (x, None)
    | None, None => (x, None)
    end.

Definition put_entry (id : string) (e : option (Gossip.row + Z)) (s : Gossip.response) : Gossip.response :=
  match e with
  | Some (inl x) => Gossip.put_online id x s
  | Some (inr q) => Gossip.put_offline id q s
  | None => s
  end.

(** What an INFO makes of the node of its sender. *)
Definition told (p : node_info) (now : Z) (v : option Node.t) : Node.t :=
  let '(x, isReconnected) :=
    match v with
    | None => (Node.create (i_sender p) now, false)
    | Some x => if Node.available x then (x, false) else (Node.reconnect now x, true)
    end in
  let '(x', need) := Node.update p isReconnected x in
  match i_services p with
  | Some l => if need then Node.set_services (Node.Announced (Some (map named l))) x' else x'
  | None => x'
  end.

Definition row_info (rw : Gossip.row) : option node_info :=
  match rw with Gossip.RowInfo i | Gossip.RowFull i _ _ => i | Gossip.RowCpu _ _ => None end.
Definition row_cpu (rw : Gossip.row) : option (Z * Z) :=
  match rw with Gossip.RowCpu q c | Gossip.RowFull _ q c => Some (q, c) | Gossip.RowInfo _ => None end.

(** An online entry of a response *)
Definition learn_row (id : string) (rw : Gossip.row) (now : Z) (v : option Node.t) : option Node.t :=
  let v :=
    match row_info rw with
    | Some i =>
        if match v, i_seq i with
           | None, _ => true
           | Some x, Some q => Node.seq x <? q
           | Some _, None => false
           end
        then Some (told (LocalInfo.with_sender id i) now v) else v
    | None => v
    end in
  match v, row_cpu rw with
  | Some x, Some (q, c) =>
      if negb (q =? 0) && (Gossip.cpuSeq_of x <? q) then Some (Node.heartbeat (Some c) (Some q) now x) else v
  | _, _ => v
  end.

(** An offline entry of a response *)
Definition learn_gone (q now : Z) (v : option Node.t) : option Node.t :=
  match v with
  | Some x =>
      if Node.seq x <? q
      then Some (Node.set_seq q (if Node.available x then Node.disconnected now x else x)) else v
  | None => None
  end.

(** A whole response, at one ID *)
Definition learn (p : Gossip.response) (now : Z) (id : string) (v : option Node.t) : option Node.t :=
  let v := match OMap.get id (Gossip.s_online p) with Some rw => learn_row id rw now v | None => v end in
  match OMap.get id (Gossip.s_offline p) with Some q => learn_gone q now v | None => v end.

(** Nothing but the node of one ID changes. *)
Record spares {S} (id : string) (r r' : registry S) : Prop := {
  sp_view j : j ≠ id → view r' j = view r j;
  sp_cfg : cfg r' = cfg r;
  sp_local : localNode r' = localNode r
}.

#[export] Instance spares_preorder {S} id : PreOrder (spares (S := S) id).
Proof.
  split; [by constructor|]. intros r1 r2 r3 [H1 H2 H3] [H4 H5 H6].
  constructor; [|congruence..]. intros j Hj. by rewrite H4, H1.
Qed.

(** ** The registry functions leave other nodes alone *)

Section frames.
Context {S : Type} `{Strategy S} (new_strategy : option string → S).

Notation reg := (registry S).

Record same_nodes (r r' : reg) : Prop := {
  sn_st : st_nodes (st r') = st_nodes (st r);
  sn_nodes : nodes r' = nodes r;
  sn_cfg : cfg r' = cfg r;
  sn_local : localNode r' = localNode r
}.

#[export] Instance same_nodes_preorder : PreOrder same_nodes.
Proof. split; [by constructor|]. intros r1 r2 r3 [] []. constructor; congruence. Qed.

Lemma same_nodes_view r r' id : same_nodes r r' → view r' id = view r id.
Proof. intros [Hs Hn _ _]. unfold view, node_of. by rewrite Hs, Hn. Qed.

Lemma same_nodes_id r r' n : same_nodes r r' → node_id r' n = node_id r n.
Proof. intros [Hs _ _ _]. unfold node_id, node_of. by rewrite Hs. Qed.

Lemma same_nodes_loop {B} (f : reg → B → reg) l r :
  (∀ r' b, same_nodes r r' → same_nodes r' (f r' b)) → same_nodes r (foldl f r l).
Proof. intros Hf. apply foldl_invariant; [done|]. intros r' b _ Hr. etransitivity; [done|]. by apply Hf. Qed.

Lemma list_add_nodes b n s d st0 (l : EndpointList.t S) :
  st_nodes (EndpointList.add b n s d st0 l).1 = st_nodes st0.
Proof. unfold EndpointList.add. destruct (Arr.find _ _); [done|]. by destruct (new_ep _ _) eqn:Hn; unfold new_ep in Hn; simplify_eq. Qed.

Lemma actions_add_nodes n s a r : same_nodes r (actions_add new_strategy n s a r).
Proof.
  unfold actions_add. set (l := match OMap.get _ _ with Some _ => _ | None => _ end).
  pose proof (list_add_nodes (nodeID (cfg r)) n s (Endpoint.EpAction a) (st r) l) as Hl.
  destruct (EndpointList.add _ _ _ _ _ _). by constructor.
Qed.

Lemma events_add_nodes n s e r : same_nodes r (events_add new_strategy n s e r).
Proof.
  unfold events_add. set (g := Some (group_of _ _)). set (l := match events_get _ _ _ with Some _ => _ | None => _ end).
  pose proof (list_add_nodes (nodeID (cfg r)) n s (Endpoint.EpEvent e) (st r) l) as Hl.
  destruct (EndpointList.add _ _ _ _ _ _). by constructor.
Qed.

Lemma registerActions_nodes n s acts r : same_nodes r (registerActions new_strategy n s acts r).
Proof.
  apply same_nodes_loop. intros r' [k a] _. destruct (checkActionVisibility _ _); [|done].
  etransitivity; [apply actions_add_nodes|]. by constructor.
Qed.

Lemma registerEvents_nodes n s evs r : same_nodes r (registerEvents new_strategy n s evs r).
Proof.
  apply same_nodes_loop. intros r' [k a] _. etransitivity; [apply events_add_nodes|]. by constructor.
Qed.

Lemma services_add_nodes n v fn loc r : same_nodes r (services_add n v fn loc r).2.
Proof. unfold services_add. destruct (new_svc _ _) eqn:Hn. unfold new_svc in Hn. simplify_eq. by constructor. Qed.

Lemma unregisterAction_nodes n k r : same_nodes r (unregisterAction n k r).
Proof. unfold unregisterAction, actions_remove. by destruct (OMap.get k _). Qed.

Lemma unregisterEvent_nodes n k r : same_nodes r (unregisterEvent n k r).
Proof. by constructor. Qed.

Lemma registerService_nodes n r v : same_nodes r (registerService new_strategy n r v).
Proof.
  rewrite registerService_eq. assert (same_nodes r (enter n v r).2) as He.
  { unfold enter. destruct (services_get _ _ r); [done|].
    pose proof (services_add_nodes n v (full_name v) false r). by destruct (services_add _ _ _ _ r). }
  destruct (enter n v r) as [[s prev] r1]. simpl in He. etransitivity; [exact He|]. clear r He.
  assert (∀ r, same_nodes r (put_actions new_strategy n v s r)) as Ha.
  { intros r. unfold put_actions. destruct (sv_actions v); [apply registerActions_nodes|done]. }
  assert (∀ r, same_nodes r (put_events new_strategy n v s r)) as Hv.
  { intros r. unfold put_events. destruct (sv_events v); [apply registerEvents_nodes|done]. }
  unfold refresh. destruct prev as [[pa pe]|]; [|etransitivity; [apply Ha|apply Hv]].
  unfold drop_events, drop_actions.
  etransitivity; [apply Ha|]. etransitivity; [|etransitivity; [apply Hv|apply same_nodes_loop]].
  2: { intros r' [k a] _. destruct (has_key _ _); [done|apply unregisterEvent_nodes]. }
  apply same_nodes_loop. intros r' [k a] _. destruct (has_key _ _); [done|apply unregisterAction_nodes].
Qed.

Lemma services_remove_nodes fn id r : same_nodes r (services_remove fn id r).
Proof. unfold services_remove. by destruct (services_get _ _ r). Qed.

Lemma registerServices_nodes n l r :
  node_id r n ≠ nodeID (cfg r) → node_id r n ≠ ""%string → same_nodes r (registerServices new_strategy n l r).
Proof.
  intros Hid Hne. unfold registerServices. set (r1 := foldl (registerService new_strategy n) r l).
  assert (same_nodes r r1) as H1 by (apply same_nodes_loop; intros; apply registerService_nodes).
  etransitivity; [exact H1|]. match goal with |- same_nodes _ (tell _ (tell _ ?x)) => enough (same_nodes r1 x) as Hx by (etransitivity; [exact Hx|]; by constructor) end.
  apply same_nodes_loop. intros r' s Hr'. destruct (Pos.eqb _ _); [|done]. destruct (existsb _ _); [done|].
  assert (same_nodes r r') as Hr by by etransitivity.
  unfold unregisterService. rewrite (same_nodes_id _ _ n Hr).
  apply String.eqb_neq in Hne. rewrite Hne.
  set (r2 := services_remove _ _ _). assert (same_nodes r' r2) as H2 by apply services_remove_nodes.
  rewrite (sn_cfg _ _ H2), (sn_cfg _ _ Hr). apply String.eqb_neq in Hid. by rewrite Hid.
Qed.

(** *** Assigning to a node *)

Lemma view_upd_eq f n id (r : reg) :
  inv r → OMap.get id (nodes r) = Some n → view (Gossip.upd f n r) id = Some (f (node_of (st r) n)).
Proof.
  intros Hi Hg. unfold view, Gossip.upd. simpl. rewrite Hg. simpl.
  apply OMap.get_Some_elem, (inv_nodes _ Hi) in Hg as [Ha _]. by rewrite node_of_upd_eq.
Qed.

Lemma get_inj (r : reg) id j n : inv r → OMap.get id (nodes r) = Some n → OMap.get j (nodes r) = Some n → j = id.
Proof. intros Hi H1 H2. apply OMap.get_Some_elem, (inv_nodes _ Hi) in H1 as [_ <-], H2 as [_ <-]. done. Qed.

Lemma spares_upd f n id (r : reg) :
  inv r → OMap.get id (nodes r) = Some n → spares id r (Gossip.upd f n r).
Proof.
  intros Hi Hg. constructor; [|done..]. intros j Hj. unfold view. simpl.
  destruct (OMap.get j (nodes r)) as [m|] eqn:Hm; [|done]. simpl. rewrite node_of_upd_ne; [done|].
  intros ->. apply Hj. by eapply get_inj.
Qed.

Lemma upd_good f n (r : reg) :
  (Node.id (f (node_of (st r) n)) = Node.id (node_of (st r) n) ∧
   Node.local (f (node_of (st r) n)) = Node.local (node_of (st r) n)) →
  (Node.available (node_of (st r) n) = true → Node.available (f (node_of (st r) n)) = true) →
  ok r → ok (Gossip.upd f n r).
Proof. intros Hf Ha Hok. eapply ok_good; [done|]. apply good_upd_node; [done|done|apply Hok]. Qed.

Lemma view_known (r : reg) n : known r n → view r (node_id r n) = Some (node_of (st r) n).
Proof. intros Hk. unfold view. by rewrite Hk. Qed.

Lemma spares_known id (r r' : reg) m : spares id r r' → nodes r' = nodes r → inv r → known r m → node_id r m ≠ id →
  known r' m ∧ node_of (st r') m = node_of (st r) m.
Proof.
  intros Hs Hn Hi Hk Hid. pose proof (sp_view _ _ _ Hs _ Hid) as Hv. rewrite view_known in Hv by done.
  unfold view in Hv. rewrite Hn, Hk in Hv. simpl in Hv. injection Hv as Hv.
  split; [|done]. unfold known, node_id. by rewrite Hv, Hn.
Qed.

(** *** Disconnecting *)

Lemma disconnected_nodes id u now (r : reg) n :
  inv r → OMap.get id (nodes r) = Some n → Node.available (node_of (st r) n) = true →
  same_nodes (Gossip.upd (Node.disconnected now) n r) (disconnected id u now r).
Proof.
  intros Hi Hg Hav. destruct (disconnected_eq id u now r n Hg Hav) as [es ->].
  fold (Gossip.upd (Node.disconnected now) n r). set (r1 := Gossip.upd _ n r).
  assert (inv r1) as Hi1.
  { apply inv_set_st; [done|]. by apply store_le_upd_node. }
  destruct (services_removeAll_spec (node_id r n) r1 Hi1) as (Hi2 & Hsb & Hst & Hn & _).
  destruct (tells_kept es _ Hi2) as (Hk & _ & Hst' & _).
  constructor; [by rewrite Hst', Hst|by rewrite (kept_nodes _ _ Hk), Hn| |].
  - by rewrite (sb_cfg _ _ (kept_sb _ _ Hk)), (sb_cfg _ _ Hsb).
  - by rewrite (sb_localNode _ _ (kept_sb _ _ Hk)), (sb_localNode _ _ Hsb).
Qed.

(** Taking a remote node offline, if it is not, and setting its sequence number. *)
Definition take_off (id : string) (n : ref) (q now : Z) (r : reg) : reg :=
  Gossip.upd (Node.set_seq q) n (if Node.available (node_of (st r) n) then disconnected id false now r else r).

Lemma take_off_spec id n q now (r : reg) :
  ok r → OMap.get id (nodes r) = Some n → id ≠ nodeID (cfg r) →
  let r' := take_off id n q now r in
  ok r' ∧ nodes r' = nodes r ∧ spares id r r' ∧
  view r' id = Some (Node.set_seq q (if Node.available (node_of (st r) n)
                                     then Node.disconnected now (node_of (st r) n) else node_of (st r) n)).
Proof.
  intros Hok Hg Hid. pose proof (proj1 Hok) as Hi. unfold take_off.
  destruct (Node.available (node_of (st r) n)) eqn:Hav; simpl.
  - destruct (disconnected_spec id false now r n Hok Hid Hg Hav) as (Hok1 & _).
    pose proof (disconnected_nodes id false now r n Hi Hg Hav) as Hsn. set (r1 := disconnected _ _ _ r) in *.
    pose proof (view_upd_eq (Node.disconnected now) n id r Hi Hg) as Hv.
    rewrite <- (same_nodes_view _ _ id Hsn) in Hv.
    assert (OMap.get id (nodes r1) = Some n) as Hg1 by by rewrite (sn_nodes _ _ Hsn).
    assert (node_of (st r1) n = Node.disconnected now (node_of (st r) n)) as Hn1.
    { unfold view in Hv. rewrite Hg1 in Hv. simpl in Hv. congruence. }
    split_and!; [by apply upd_good|apply Hsn| |].
    + etransitivity; [by apply (spares_upd (Node.disconnected now) n)|].
      etransitivity; [|by apply (spares_upd (Node.set_seq q) n); [apply Hok1|]].
      constructor; [|apply Hsn..]. intros j _. by apply same_nodes_view.
    + rewrite view_upd_eq; [by rewrite Hn1|apply Hok1|done].
  - split_and!; [by apply upd_good|done|by apply spares_upd|by rewrite view_upd_eq].
Qed.

(** *** INFO packets *)

Lemma greet_view id now (r : reg) n isNew isRec r' :
  ok r → greet id now r = (n, isNew, isRec, r') →
  spares id r r' ∧
  (node_of (st r') n, isRec) =
    match view r id with
    | None => (Node.create id now, false)
    | Some x => if Node.available x then (x, false) else (Node.reconnect now x, true)
    end.
Proof.
  intros Hok. pose proof (proj1 Hok) as Hi. unfold greet, view.
  destruct (OMap.get id (nodes r)) as [m|] eqn:Hg.
  - simpl. destruct (Node.available _) eqn:Hav; intros Heq; simplify_eq; [done|].
    split; [by apply (spares_upd (Node.reconnect now) n)|]. simpl.
    apply OMap.get_Some_elem, (inv_nodes _ Hi) in Hg as [Ha _]. by rewrite node_of_upd_eq.
  - destruct (new_node (Node.create id now) (st r)) as [m st'] eqn:Hnew. intros Heq. injection Heq as <- <- <- <-.
    destruct (ok_join (Node.create id now) id r _ st' Hok Hg Hnew eq_refl eq_refl) as (_ & Hsb & Hn & Hold).
    split; [|by simpl; rewrite Hn]. constructor; [|done..]. intros j Hj. unfold view. simpl.
    rewrite OMap.get_set_ne by done. destruct (OMap.get j (nodes r)) as [k|] eqn:Hgj; [|done]. simpl.
    f_equal. apply Hold. by apply OMap.get_Some_elem, (inv_nodes _ Hi) in Hgj as [? _].
Qed.

Lemma notify_nodes id a b r : same_nodes r (notify id a b r).
Proof. by destruct a, b. Qed.

(** An INFO packet changes the node of its sender only, as [told] says. *)
Lemma processNodeInfo_view p now (r : reg) :
  ok r → i_sender p ≠ ""%string → i_sender p ≠ nodeID (cfg r) →
  let r' := processNodeInfo new_strategy p now r in
  spares (i_sender p) r r' ∧ view r' (i_sender p) = Some (told p now (view r (i_sender p))).
Proof.
  intros Hok Hne Hid. rewrite processNodeInfo_eq.
  destruct (greet _ _ r) as [[[n isNew] isRec] r1] eqn:Hgr.
  destruct (greet_view _ _ _ _ _ _ _ Hok Hgr) as [Hsp1 Hv1].
  destruct (greet_spec _ _ _ _ _ _ _ Hok Hgr) as (Hok1 & [Hg1 Hav1] & Hid1 & _ & _). rewrite Hid1 in Hg1.
  pose proof (proj1 Hok1) as Hi1.
  unfold told. rewrite <- Hv1. destruct (Node.update _ _ _) as [x' need] eqn:Hup.
  assert (Node.id x' = i_sender p) as Hx'.
  { unfold Node.update in Hup. injection Hup as <- _. exact Hid1. }
  assert (Node.local x' = Node.local (node_of (st r1) n)) as Hlx by (unfold Node.update in Hup; by injection Hup as <- _).
  fold (Gossip.upd (λ _, x') n r1). set (r2 := Gossip.upd (λ _, x') n r1).
  assert (spares (i_sender p) r r2) as Hsp2 by (etransitivity; [exact Hsp1|by apply spares_upd]).
  assert (view r2 (i_sender p) = Some x') as Hv2 by by apply (view_upd_eq (λ _, x') n).
  assert (∀ r3, same_nodes r2 r3 → ∀ b c y, y = x' → spares (i_sender p) r (notify (i_sender p) b c r3) ∧
    view (notify (i_sender p) b c r3) (i_sender p) = Some y) as Hend.
  { intros r3 H3 b c y ->. assert (same_nodes r2 (notify (i_sender p) b c r3)) as H4
      by (etransitivity; [exact H3|apply notify_nodes]). split; [|by rewrite (same_nodes_view _ _ _ H4)].
    etransitivity; [exact Hsp2|]. constructor; [|apply H4..]. intros j _. by apply same_nodes_view. }
  cbv zeta. fold r2. destruct (i_services p) as [l|]; [|by apply Hend]. destruct need; [|by apply Hend].
  clear Hend. assert (inv r2) as Hi2 by (apply inv_set_st, store_le_upd_node; [done|]; by rewrite Hx', Hlx).
  set (f := Node.set_services (Node.Announced (Some (map named l)))). fold (Gossip.upd f n r2).
  set (r3 := Gossip.upd f n r2). assert (OMap.get (i_sender p) (nodes r2) = Some n) as Hg2 by done.
  assert (view r3 (i_sender p) = Some (f x')) as Hv3.
  { unfold r3. rewrite view_upd_eq by done. unfold view in Hv2. rewrite Hg2 in Hv2. injection Hv2 as Hv2. do 2 f_equal. exact Hv2. }
  assert (node_id r3 n = i_sender p) as Hid3.
  { unfold view in Hv3. change (nodes r3) with (nodes r1) in Hv3. rewrite Hg1 in Hv3. simpl in Hv3.
    injection Hv3 as Hv3. etransitivity; [exact (f_equal Node.id Hv3)|exact Hx']. }
  assert (same_nodes r3 (notify (i_sender p) isNew isRec (registerServices new_strategy n l r3))) as H4.
  { etransitivity; [|apply notify_nodes]. apply registerServices_nodes; rewrite Hid3; [|done].
    change (cfg r3) with (cfg r1). by rewrite (sp_cfg _ _ _ Hsp1). }
  split; [|by rewrite (same_nodes_view _ _ _ H4)].
  etransitivity; [exact Hsp2|]. etransitivity; [by apply (spares_upd f n)|].
  constructor; [|apply H4..]. intros j _. by apply same_nodes_view.
Qed.

End frames.

(** ** Requests *)

Section requests.
Context {S : Type} `{Strategy S}.

Notation reg := (registry S).

Lemma local_get (r : reg) : ok r → OMap.get (nodeID (cfg r)) (nodes r) = Some (localNode r).
Proof.
  intros [Hi Hl]. destruct (inv_local _ Hi) as [_ Hid]. destruct (live_local _ Hl) as [Hg _].
  unfold node_id in Hg. by rewrite Hid in Hg.
Qed.

(** One ID was worked on; its node kept its identity and its sequence number did not fall. *)
Record worked (id : string) (r r' : reg) : Prop := {
  wk_ok : ok r';
  wk_nodes : nodes r' = nodes r;
  wk_spares : spares id r r';
  wk_seq x : view r id = Some x → ∃ x', view r' id = Some x' ∧ Node.id x' = Node.id x ∧ Node.seq x ≤ Node.seq x'
}.

Lemma worked_refl id (r : reg) : ok r → worked id r r.
Proof. intros Hok. constructor; try done. intros x Hx. exists x. by split_and!. Qed.

Lemma worked_trans id (r1 r2 r3 : reg) : worked id r1 r2 → (ok r2 → worked id r2 r3) → worked id r1 r3.
Proof.
  intros [Hok Hn Hs Hq] Hw. destruct (Hw Hok) as [Hok' Hn' Hs' Hq'].
  constructor; [done|congruence|by etransitivity|].
  intros x Hx. destruct (Hq x Hx) as (y & Hy & Hyi & Hyq). destruct (Hq' y Hy) as (z & Hz & Hzi & Hzq).
  exists z. split_and!; [done|congruence|lia].
Qed.

Lemma worked_upd f n id (r : reg) :
  ok r → OMap.get id (nodes r) = Some n →
  (∀ x, Node.id (f x) = Node.id x ∧ Node.local (f x) = Node.local x ∧
        (Node.available x = true → Node.available (f x) = true)) →
  Node.seq (node_of (st r) n) ≤ Node.seq (f (node_of (st r) n)) → worked id r (Gossip.upd f n r).
Proof.
  intros Hok Hg Hf Hq. pose proof (proj1 Hok) as Hi.
  constructor; [|done|by apply spares_upd|].
  - apply upd_good; [|apply Hf|done]. split; apply Hf.
  - intros x Hx. rewrite (view_upd_eq f n id r Hi Hg). eexists. split_and!; [done| |].
    + unfold view in Hx. rewrite Hg in Hx. simpl in Hx. injection Hx as <-. apply Hf.
    + unfold view in Hx. rewrite Hg in Hx. simpl in Hx. by injection Hx as <-.
Qed.

Lemma worked_invalidated id x (r : reg) : ok r → worked id r (set_invalidated x r).
Proof.
  intros Hok. destruct (worked_refl id r Hok) as [_ H2 [H3 H4 H5] H6]. constructor; try done.
  eapply ok_good; [done|]. apply good_invalidate, Hok.
Qed.

(** Regenerating the info of the local node works on the local node only. *)
Lemma getLocalNodeInfo_worked force (r : reg) : ok r → worked (nodeID (cfg r)) r (LocalInfo.getLocalNodeInfo force r).2.
Proof.
  intros Hok. pose proof (local_get r Hok) as Hg.
  assert (∀ b i, worked (nodeID (cfg r)) r (set_invalidated i (LocalInfo.regenerateLocalRawInfo b false r).2)) as Hr.
  { intros b i. unfold LocalInfo.regenerateLocalRawInfo. simpl.
    set (r1 := if b then _ else _). eapply (worked_trans _ _ r1).
    - unfold r1. destruct b; [|by apply worked_refl]. apply worked_upd; [done..|]. simpl. lia.
    - intros Hok1. set (info := LocalInfo.raw_info _ _).
      eapply worked_trans; [apply (worked_upd (Node.set_rawInfo info) (localNode r)); [done| |done|simpl; reflexivity]|
        intros; by apply worked_invalidated]. unfold r1. by destruct b. }
  unfold LocalInfo.getLocalNodeInfo.
  repeat split_match; simpl; try (by apply worked_refl);
    match goal with Hx : LocalInfo.regenerateLocalRawInfo ?b _ _ = _ |- _ => specialize (Hr b); rewrite Hx in Hr end;
    apply Hr.
Qed.

(** The entries of a response about one ID *)
Definition entries (s : Gossip.response) (id : string) : option Gossip.row * option Z :=
  (OMap.get id (Gossip.s_online s), OMap.get id (Gossip.s_offline s)).

Lemma entries_put_ne id e s j : j ≠ id → entries (put_entry id e s) j = entries s j.
Proof. intros Hj. destruct e as [[x|q]|]; unfold entries; simpl; [by rewrite OMap.get_set_ne..|done]. Qed.

Lemma entries_put_eq id e s :
  entries s id = (None, None) →
  entries (put_entry id e s) id =
    match e with Some (inl x) => (Some x, None) | Some (inr q) => (None, Some q) | None => (None, None) end.
Proof.
  unfold entries. intros [= H1 H2]. destruct e as [[x|q]|]; simpl; rewrite ?OMap.get_set_eq, ?H1, ?H2; done.
Qed.

(** A response has entries for known nodes only. *)
Definition well_formed (ids : string → Prop) (s : Gossip.response) : Prop :=
  OMap.wf (Gossip.s_online s) ∧ OMap.wf (Gossip.s_offline s) ∧
  (∀ j, j ∈ OMap.keys (Gossip.s_online s) → ids j) ∧ (∀ j, j ∈ OMap.keys (Gossip.s_offline s) → ids j).

Lemma keys_set_sub {V} (k j : string) (v : V) m : j ∈ OMap.keys (OMap.set k v m) → j = k ∨ j ∈ OMap.keys m.
Proof.
  intros Hj. destruct (decide (k ∈ OMap.keys m)) as [Hk|Hk].
  - rewrite OMap.keys_set_in in Hj; auto.
  - rewrite OMap.keys_set_notin in Hj by done. apply elem_of_app in Hj as [?|?%list_elem_of_singleton]; auto.
Qed.

Lemma well_formed_put (ids : string → Prop) id e s : ids id → well_formed ids s → well_formed ids (put_entry id e s).
Proof.
  intros Hid (H1 & H2 & H3 & H4). destruct e as [[x|q]|]; [| |done]; (split_and!; simpl; [..|]); try done.
  - by apply OMap.wf_set.
  - intros j [->|Hj]%keys_set_sub; auto.
  - by apply OMap.wf_set.
  - intros j [->|Hj]%keys_set_sub; auto.
Qed.

Lemma well_formed_weaken (p q : string → Prop) s : (∀ j, p j → q j) → well_formed p s → well_formed q s.
Proof. intros Hpq (H1 & H2 & H3 & H4). split_and!; auto. Qed.

(** The turn of a remote node computes [answer]. *)
Lemma answer_remote p now (r : reg) s n :
  ok r → known r n → Node.local (node_of (st r) n) = false →
  let '(r', s') := Gossip.answer_node p now (r, s) n in
  worked (node_id r n) r r' ∧ view r' (node_id r n) = Some (answer p now (node_of (st r) n)).1 ∧
  s' = put_entry (node_id r n) (answer p now (node_of (st r) n)).2 s.
Proof.
  intros Hok Hk Hloc. pose proof (proj1 Hok) as Hi. pose proof (remote_id r n Hok Hk Hloc) as Hrem.
  pose proof (view_known r n Hk) as Hv. unfold Gossip.answer_node, answer, claim, claim_offline.
  fold (node_id r n). set (x := node_of (st r) n) in *. set (id := node_id r n) in *.
  assert (worked id r r) as Hw by by apply worked_refl.
  assert (Node.id x = id) as Hxid by done.
  set (off := match OMap.get id (Gossip.q_offline p) with Some _ => _ | None => _ end).
  set (on := OMap.get id (Gossip.q_online p)).
  set (sq := match off with Some q => q | None => _ end).
  destruct ((sq =? 0) || (sq <? Node.seq x)) eqn:Hnew.
  { destruct (Node.available x) eqn:Hav; [|by split_and!]. unfold Gossip.newer_row, LocalInfo.getNodeInfo.
    unfold known in Hk. fold id in Hk. fold id. rewrite Hk. fold x. rewrite Hloc. by split_and!. }
  apply orb_false_iff in Hnew as [_ Hnew%Z.ltb_ge].
  destruct off as [q|].
  - rewrite Hloc. simpl. assert (Node.seq x ≤ q) as Hq by exact Hnew.
    assert (∀ r', ok r' → nodes r' = nodes r → spares id r r' →
      view r' id = Some (Node.set_seq q (if Node.available x then Node.disconnected now x else x)) →
      worked id r r') as Hwk.
    { intros r' ? ? ? Hv'. constructor; try done. intros y Hy. rewrite Hv in Hy. injection Hy as <-.
      eexists. split_and!; [done| |done]. by destruct (Node.available x). }
    destruct (take_off_spec id n q now r Hok Hk Hrem) as (H1 & H2 & H3 & H4).
    unfold take_off in *. fold x in H1, H2, H3, H4. specialize (Hwk _ H1 H2 H3 H4).
    destruct (Node.available x) eqn:Hav; simpl; [done|].
    destruct (Node.seq x <? q) eqn:Hlt; [done|]. split_and!; [done| |done].
    rewrite Hv. f_equal. apply Z.ltb_ge in Hlt. assert (q = Node.seq x) as -> by lia. by destruct x.
  - destruct on as [[[q cs] c]|]; [|by split_and!].
    destruct (Node.available x) eqn:Hav; [|by split_and!]. simpl.
    destruct (_ <? cs); [|destruct (cs <? _); by split_and!].
    split_and!; [|by apply view_upd_eq|done]. apply worked_upd; [done..|]. simpl. done.
Qed.

(** The turn of the local node may refresh its info and raise its sequence number. *)
Lemma answer_local p now (r : reg) s n :
  ok r → known r n → Node.local (node_of (st r) n) = true →
  let '(r', s') := Gossip.answer_node p now (r, s) n in
  worked (node_id r n) r r' ∧ ∃ e, s' = put_entry (node_id r n) e s.
Proof.
  intros Hok Hk Hloc. pose proof (proj1 Hok) as Hi.
  assert (n = localNode r) as Hn.
  { unfold known in Hk. apply OMap.get_Some_elem in Hk. by eapply (live_is_local _ (proj2 Hok)). }
  assert (node_id r n = nodeID (cfg r)) as Hid by (rewrite Hn; apply (inv_local _ Hi)).
  assert (Node.available (node_of (st r) n) = true) as Hav by (rewrite Hn; apply (live_local _ (proj2 Hok))).
  unfold Gossip.answer_node. fold (node_id r n). rewrite Hav, Hloc. cbn [negb].
  set (id := node_id r n) in *.
  set (off := match OMap.get id (Gossip.q_offline p) with Some _ => _ | None => _ end).
  set (on := OMap.get id (Gossip.q_online p)).
  set (sq := match off with Some q => q | None => _ end).
  assert (∀ r1, worked id r r1 → ∀ y, ∃ e, Gossip.put_online (Node.id (node_of (st r1) n)) y s = put_entry id e s) as Hput.
  { intros r1 [_ Hn1 _ Hq] y. pose proof Hk as Hk'. unfold known in Hk'. fold id in Hk'. destruct (Hq _ (view_known r n Hk)) as (x' & Hx' & Hxi & _).
    unfold view in Hx'. rewrite Hn1, Hk' in Hx'. injection Hx' as Hx'. rewrite Hx', Hxi. by exists (Some (inl y)). }
  destruct ((sq =? 0) || (sq <? _)) eqn:Hnew.
  - unfold Gossip.newer_row, LocalInfo.getNodeInfo. fold id. unfold known in Hk. fold id in Hk. rewrite Hk, Hloc.
    pose proof (getLocalNodeInfo_worked false r Hok) as Hw. rewrite <- Hid in Hw.
    destruct (LocalInfo.getLocalNodeInfo false r) as [info r1]. cbn [snd] in Hw. split; [done|]. by apply Hput.
  - apply orb_false_iff in Hnew as [_ Hnew%Z.ltb_ge]. destruct off as [q|].
    + set (r1 := Gossip.upd (Node.set_seq (q + 1)) n r).
      assert (worked id r r1) as Hw1.
      { apply worked_upd; [done..|]. simpl. unfold sq in Hnew. lia. }
      assert (nodeID (cfg r1) = id) as Hid1 by by rewrite (sp_cfg _ _ _ (wk_spares _ _ _ Hw1)).
      pose proof (getLocalNodeInfo_worked true r1 (wk_ok _ _ _ Hw1)) as Hw2. rewrite Hid1 in Hw2.
      destruct (LocalInfo.getLocalNodeInfo true r1) as [info r2]. cbn [snd] in Hw2.
      assert (worked id r r2) as Hw by exact (worked_trans _ _ _ _ Hw1 (λ _, Hw2)). split; [done|]. by apply Hput.
    + assert (∃ e, s = put_entry id e s) as He by by exists None.
      destruct on as [[[q cs] c]|]; [|split; [by apply worked_refl|done]].
      destruct (_ <? cs); [|destruct (cs <? _)].
      * split; [|done]. apply worked_upd; [done..|]. simpl. done.
      * split; [by apply worked_refl|]. by exists (Some (inl (Gossip.RowCpu (Gossip.cpuSeq_of (node_of (st r) n)) (Gossip.cpu_of (node_of (st r) n))))).
      * split; [by apply worked_refl|done].
Qed.

(** The turn of any node *)
Lemma answer_turn p now (r : reg) s n :
  ok r → known r n →
  let '(r', s') := Gossip.answer_node p now (r, s) n in
  worked (node_id r n) r r' ∧ (∃ e, s' = put_entry (node_id r n) e s) ∧
  (Node.local (node_of (st r) n) = false →
     view r' (node_id r n) = Some (answer p now (node_of (st r) n)).1 ∧
     s' = put_entry (node_id r n) (answer p now (node_of (st r) n)).2 s).
Proof.
  intros Hok Hk. destruct (Node.local (node_of (st r) n)) eqn:Hloc.
  - pose proof (answer_local p now r s n Hok Hk Hloc) as Ha.
    destruct (Gossip.answer_node p now (r, s) n) as [r' s']. destruct Ha as (Hw & e & ->).
    split_and!; [done|by exists e|done].
  - pose proof (answer_remote p now r s n Hok Hk Hloc) as Ha.
    destruct (Gossip.answer_node p now (r, s) n) as [r' s']. destruct Ha as (Hw & Hv & ->).
    split_and!; [done|by eexists|done].
Qed.

Lemma worked_view_some id (r r' : reg) j x : worked id r r' → view r j = Some x →
  ∃ x', view r' j = Some x' ∧ Node.id x' = Node.id x ∧ Node.seq x ≤ Node.seq x'.
Proof.
  intros Hw Hx. destruct (decide (j = id)) as [->|Hj]; [by eapply wk_seq|].
  exists x. rewrite (sp_view _ _ _ (wk_spares _ _ _ Hw)) by done. by split_and!.
Qed.

(** What the loop over the nodes did to the IDs in [todo]. *)
Record answered (p : Gossip.request) (now : Z) (todo : list ref) (r r' : reg) (s s' : Gossip.response) : Prop := {
  an_ok : ok r';
  an_nodes : nodes r' = nodes r;
  an_cfg : cfg r' = cfg r;
  an_wf : well_formed (λ j, is_Some (view r j)) s → well_formed (λ j, is_Some (view r j)) s';
  an_seq j x : view r j = Some x → ∃ x', view r' j = Some x' ∧ Node.id x' = Node.id x ∧ Node.seq x ≤ Node.seq x';
  an_other j : (∀ n, n ∈ todo → node_id r n ≠ j) → view r' j = view r j ∧ entries s' j = entries s j;
  an_done n : n ∈ todo → Node.local (node_of (st r) n) = false →
    view r' (node_id r n) = Some (answer p now (node_of (st r) n)).1 ∧
    (entries s (node_id r n) = (None, None) →
     entries s' (node_id r n) =
       match (answer p now (node_of (st r) n)).2 with
       | Some (inl x) => (Some x, None) | Some (inr q) => (None, Some q) | None => (None, None)
       end)
}.

Lemma answer_loop p now todo (r : reg) s :
  ok r → (∀ n, n ∈ todo → known r n) → NoDup todo →
  let '(r', s') := foldl (Gossip.answer_node p now) (r, s) todo in answered p now todo r r' s s'.
Proof.
  revert r s. induction todo as [|n todo IH]; intros r s Hok Hk Hnd; cbn [foldl].
  { constructor; try done; [intros j x Hx; exists x; by split_and!|by intros ? ?%not_elem_of_nil]. }
  apply NoDup_cons in Hnd as [Hnin Hnd]. pose proof (Hk n ltac:(left)) as Hkn.
  pose proof (answer_turn p now r s n Hok Hkn) as Ht.
  destruct (Gossip.answer_node p now (r, s) n) as [r1 s1]. destruct Ht as (Hw & [e He] & Hrem).
  pose proof Hw as [Hok1 Hn1 Hsp1 _].
  assert (∀ m, m ∈ todo → node_id r m ≠ node_id r n) as Hne.
  { intros m Hm Heq. assert (m = n) as ->; [|done]. pose proof (Hk m ltac:(by right)) as Hkm.
    unfold known in Hkm, Hkn. rewrite Heq in Hkm. congruence. }
  assert (∀ m, m ∈ todo → known r1 m ∧ node_of (st r1) m = node_of (st r) m) as Hm1.
  { intros m Hm. eapply spares_known; [done|done|apply Hok|apply Hk; by right|by apply Hne]. }
  assert (∀ m, m ∈ todo → node_id r1 m = node_id r m) as Hid1.
  { intros m Hm. unfold node_id. by destruct (Hm1 m Hm) as [_ ->]. }
  specialize (IH r1 s1 Hok1 (λ m Hm, proj1 (Hm1 m Hm)) Hnd).
  destruct (foldl _ (r1, s1) todo) as [r2 s2]. destruct IH as [H1 H2 H3 H4 H5 H6 H7].
  constructor; [done|congruence| | | | |].
  - rewrite H3. apply Hsp1.
  - intros Hwf. assert (∀ j, is_Some (view r1 j) ↔ is_Some (view r j)) as Hv.
    { intros j. unfold view. rewrite Hn1. by destruct (OMap.get j (nodes r)). }
    eapply well_formed_weaken; [apply Hv|apply H4]. eapply well_formed_weaken; [apply Hv|]. rewrite He.
    apply well_formed_put; [|done]. by rewrite view_known.
  - intros j x Hx. destruct (worked_view_some _ _ _ _ _ Hw Hx) as (y & Hy & ? & ?).
    destruct (H5 j y Hy) as (z & ? & ? & ?). exists z. split_and!; [done|congruence|lia].
  - intros j Hj. destruct (H6 j) as [-> ->].
    { intros m Hm. rewrite Hid1 by done. apply Hj. by right. }
    assert (j ≠ node_id r n) as Hjn by (intros ->; by eapply Hj; [left|]).
    split; [by apply Hsp1|]. rewrite He. by apply entries_put_ne.
  - intros m Hm Hloc. apply elem_of_cons in Hm as [->|Hm].
    + destruct (Hrem Hloc) as [Hv He']. destruct (H6 (node_id r n)) as [-> Hent].
      { intros m Hm. rewrite Hid1 by done. by apply Hne. }
      split; [done|]. rewrite Hent, He'. apply entries_put_eq.
    + destruct (Hm1 m Hm) as [_ Heq]. specialize (H7 m Hm). rewrite Heq, Hid1 in H7 by done.
      destruct (H7 Hloc) as [Hv Hent]. split; [done|]. intros Hs. apply Hent. rewrite He, entries_put_ne; [done|by apply Hne].
Qed.

(** A gossip request works on every known node as [answer] says. *)
Lemma processGossipRequest_spec p now (r : reg) :
  ok r → let '(r', sent) := Gossip.processGossipRequest p now r in
  ok r' ∧ nodes r' = nodes r ∧ cfg r' = cfg r ∧
  (∀ j x, view r j = Some x → ∃ x', view r' j = Some x' ∧ Node.seq x ≤ Node.seq x') ∧
  (∀ to s, sent = Some (to, s) →
     to = Gossip.q_sender p ∧ well_formed (λ j, is_Some (view r j)) s) ∧
  (∀ j x, view r j = Some x → Node.local x = false →
     view r' j = Some (answer p now x).1 ∧
     ∀ to s, sent = Some (to, s) →
       entries s j =
         match (answer p now x).2 with
         | Some (inl row) => (Some row, None) | Some (inr q) => (None, Some q) | None => (None, None)
         end).
Proof.
  intros Hok. pose proof (proj1 Hok) as Hi. unfold Gossip.processGossipRequest, Gossip.toArray.
  pose proof (answer_loop p now (OMap.values (nodes r)) r (Gossip.Response (nodeID (cfg r)) [] []) Hok
    (λ n, known_values r n Hi) (values_nodup r Hi)) as Ha.
  destruct (foldl _ _ _) as [r' s]. destruct Ha as [H1 H2 H3 H4 H5 H6 H7].
  match goal with |- context [?x = Some (_, _)] =>
    assert (∀ to s', x = Some (to, s') → s' = s ∧ to = Gossip.q_sender p) as Hsent end.
  { intros to s' Hs. destruct (OMap.get (Gossip.q_sender p) (nodes r')) as [m|] eqn:Hm;
      [|by destruct (Gossip.s_online s), (Gossip.s_offline s)].
    assert (node_id r' m = Gossip.q_sender p) as Hmid.
    { by apply OMap.get_Some_elem, (inv_nodes _ (proj1 H1)) in Hm as [_ Hm]. }
    destruct (Gossip.s_online s), (Gossip.s_offline s); simpl in Hs; try done; injection Hs as <- <-; done. }
  split_and!; [done..| | |].
  - intros j x Hx. destruct (H5 j x Hx) as (x' & ? & _ & ?). by exists x'.
  - intros to s' Hs. destruct (Hsent _ _ Hs) as [-> ->]. split; [done|]. apply H4.
    split_and!; try done; [constructor..| |]; simpl; intros j Hj; by apply not_elem_of_nil in Hj.
  - intros j x Hx Hloc. unfold view in Hx. destruct (OMap.get j (nodes r)) as [n|] eqn:Hg; [|done].
    injection Hx as Hx. pose proof Hg as Hin. apply OMap.get_Some_elem in Hin.
    destruct (inv_nodes _ Hi _ _ Hin) as [_ Hid]. fold (node_id r n) in Hid. subst x.
    assert (n ∈ OMap.values (nodes r)) as Hn by (apply elem_of_values; by exists j).
    destruct (H7 n Hn Hloc) as [Hv He]. rewrite Hid in Hv, He. split; [done|].
    intros to s' Hs. destruct (Hsent _ _ Hs) as [-> _]. by apply He.
Qed.

Lemma ok_processGossipRequest p now (r : reg) : ok r → ok (Gossip.processGossipRequest p now r).1.
Proof.
  intros Hok. pose proof (processGossipRequest_spec p now r Hok) as Hs.
  destruct (Gossip.processGossipRequest p now r). apply Hs.
Qed.

Lemma ok_getLocalNodeInfo force (r : reg) : ok r → ok (LocalInfo.getLocalNodeInfo force r).2.
Proof. intros Hok. apply (wk_ok _ _ _ (getLocalNodeInfo_worked force r Hok)). Qed.

End requests.

(** ** Responses and unknown nodes *)

Section responses.
Context {S : Type} `{Strategy S} (new_strategy : option string → S).

Notation reg := (registry S).

(** Two views of an ID before and after an entry was read *)
Record learnt (id : string) (v' : option Node.t) (r r' : reg) : Prop := {
  ln_ok : ok r';
  ln_spares : spares id r r';
  ln_view : view r' id = v'
}.

Lemma learnt_refl id (r : reg) : ok r → learnt id (view r id) r r.
Proof. by constructor. Qed.

Lemma learnt_trans id v1 v2 (r1 r2 r3 : reg) : learnt id v1 r1 r2 → learnt id v2 r2 r3 → learnt id v2 r1 r3.
Proof. intros [] []. constructor; [done|by etransitivity|done]. Qed.

Lemma learn_online_view now (r : reg) id rw :
  ok r → id ≠ nodeID (cfg r) → id ≠ ""%string →
  learnt id (learn_row id rw now (view r id)) r (Gossip.learn_online new_strategy now r (id, rw)).
Proof.
  intros Hok Hid Hne. unfold Gossip.learn_online, learn_row. apply String.eqb_neq in Hid as Hid'. rewrite Hid'.
  fold (row_info rw) (row_cpu rw).
  match goal with |- learnt _ (match ?v with _ => _ end) _ ?g => set (v1 := v) end.
  match goal with |- learnt _ _ _ (match OMap.get id (nodes ?a) with _ => _ end) => set (r1 := a) end.
  assert (learnt id v1 r r1) as H1.
  { unfold v1, r1. destruct (row_info rw) as [i|]; [|by apply learnt_refl].
    assert (Gossip.is_newer r (OMap.get id (nodes r)) i =
      match view r id, i_seq i with None, _ => true | Some x, Some q => Node.seq x <? q | Some _, None => false end) as ->.
    { unfold Gossip.is_newer, view. by destruct (OMap.get id (nodes r)). }
    destruct (match view r id with None => _ | Some _ => _ end); [|by apply learnt_refl].
    destruct (processNodeInfo_spec new_strategy (LocalInfo.with_sender id i) now r Hok Hne) as (Hok1 & _).
    destruct (processNodeInfo_view new_strategy (LocalInfo.with_sender id i) now r Hok Hne Hid). by constructor. }
  clearbody v1 r1. destruct H1 as [Hok1 Hsp1 Hv1]. subst v1. pose proof (learnt_refl id r1 Hok1) as Hrefl.
  assert (∀ r2 v, learnt id v r1 r2 → learnt id v r r2) as Hstep.
  { intros r2 v [? ? ?]. constructor; [done|by etransitivity|done]. }
  unfold view. destruct (OMap.get id (nodes r1)) as [n|] eqn:Hg; simpl.
  - pose proof Hrefl as Hn. unfold view in Hn. rewrite Hg in Hn. simpl in Hn. apply Hstep.
    destruct (row_cpu rw) as [[q c]|]; [|done]. destruct (negb _ && _); [|done].
    constructor; [by apply upd_good|by apply spares_upd; [apply Hok1|]|by apply view_upd_eq; [apply Hok1|]].
  - apply Hstep. unfold view in Hrefl. rewrite Hg in Hrefl. done.
Qed.

Lemma learn_offline_view now (r : reg) id q :
  ok r → id ≠ nodeID (cfg r) →
  learnt id (learn_gone q now (view r id)) r (Gossip.learn_offline now r (id, q)).
Proof.
  intros Hok Hid. unfold Gossip.learn_offline, learn_gone. apply String.eqb_neq in Hid as Hid'. rewrite Hid'.
  unfold view at 1. destruct (OMap.get id (nodes r)) as [n|] eqn:Hg; simpl.
  2: { constructor; [done..|]. unfold view. by rewrite Hg. }
  destruct (_ <? q); [|constructor; [done..|]; unfold view; by rewrite Hg].
  destruct (take_off_spec id n q now r Hok Hg Hid) as (H1 & _ & H3 & H4). unfold take_off in *.
  assert (node_id r n = id) as -> by by apply OMap.get_Some_elem, (inv_nodes _ (proj1 Hok)) in Hg as [_ Hg].
  by constructor.
Qed.

(** A loop over the entries of an object, each of which works on its own ID. *)
Lemma learn_loop {V} (f : reg → string * V → reg) (g : string → V → option Node.t → option Node.t)
    (l : OMap.t V) (r : reg) :
  (∀ r e, e.1 = nodeID (cfg r) → f r e = r) →
  (∀ r id e, ok r → id ≠ nodeID (cfg r) → id ≠ ""%string → learnt id (g id e (view r id)) r (f r (id, e))) →
  ok r → OMap.wf l → ""%string ∉ OMap.keys l →
  let r' := foldl f r l in
  ok r' ∧ cfg r' = cfg r ∧ localNode r' = localNode r ∧
  ∀ j, view r' j = match OMap.get j l with
                   | Some e => if String.eqb j (nodeID (cfg r)) then view r j else g j e (view r j)
                   | None => view r j
                   end.
Proof.
  intros Hself Hf. revert r. induction l as [|[id e] l IH]; intros r Hok Hwf Hne; [done|].
  unfold OMap.wf in Hwf. simpl in Hwf, Hne |- *. apply NoDup_cons in Hwf as [Hnin Hwf].
  apply not_elem_of_cons in Hne as [Hid Hne].
  assert (ok (f r (id, e)) ∧ spares id r (f r (id, e)) ∧
    view (f r (id, e)) id = if String.eqb id (nodeID (cfg r)) then view r id else g id e (view r id))
    as (Hok1 & [Hsp1 Hcfg1 Hloc1] & Hv1).
  { destruct (String.eqb_spec id (nodeID (cfg r))) as [Heq|Hneq]; [by rewrite Hself|].
    destruct (Hf r id e Hok Hneq) as [? ? ?]; [congruence|done]. }
  destruct (IH _ Hok1 Hwf Hne) as (Hok2 & Hcfg2 & Hloc2 & Hv2).
  split_and!; [done|congruence..|]. intros j. rewrite Hv2, Hcfg1.
  destruct (String.eqb_spec j id) as [->|Hj].
  - replace (OMap.get id l) with (@None V); [done|]. symmetry. by apply OMap.get_None_keys.
  - by rewrite Hsp1 by done.
Qed.

(** A gossip response works on every ID but the broker's own as [learn] says. *)
Lemma processGossipResponse_spec p now (r : reg) :
  ok r → OMap.wf (Gossip.s_online p) → OMap.wf (Gossip.s_offline p) →
  ""%string ∉ OMap.keys (Gossip.s_online p) → ""%string ∉ OMap.keys (Gossip.s_offline p) →
  let r' := Gossip.processGossipResponse new_strategy p now r in
  ok r' ∧ cfg r' = cfg r ∧
  ∀ j, view r' j = if String.eqb j (nodeID (cfg r)) then view r j else learn p now j (view r j).
Proof.
  intros Hok Hw1 Hw2 He1 He2. unfold Gossip.processGossipResponse.
  assert (∀ (r : reg) e, e.1 = nodeID (cfg r) → Gossip.learn_online new_strategy now r e = r) as Hs1.
  { intros r0 [id e] Heq. simpl in *. rewrite Heq, String.eqb_refl. done. }
  assert (∀ (r : reg) e, e.1 = nodeID (cfg r) → Gossip.learn_offline now r e = r) as Hs2.
  { intros r0 [id e] Heq. simpl in *. rewrite Heq, String.eqb_refl. done. }
  destruct (learn_loop (Gossip.learn_online new_strategy now) (λ id rw v, learn_row id rw now v) (Gossip.s_online p) r Hs1)
    as (Hok1 & Hcfg1 & _ & Hv1); [intros; by apply learn_online_view|done..|].
  set (r1 := foldl _ r _) in *.
  destruct (learn_loop (Gossip.learn_offline now) (λ _ q v, learn_gone q now v) (Gossip.s_offline p) r1 Hs2)
    as (Hok2 & Hcfg2 & _ & Hv2); [intros; by apply learn_offline_view|done..|].
  split_and!; [done|congruence|]. intros j. rewrite Hv2, Hv1, Hcfg1. unfold learn.
  destruct (String.eqb j _); destruct (OMap.get j (Gossip.s_online p)), (OMap.get j (Gossip.s_offline p)); done.
Qed.

Lemma ok_addOfflineNode id address port now (r : reg) :
  ok r → OMap.get id (nodes r) = None → ok (Gossip.addOfflineNode id address port now r).2.
Proof.
  intros Hok Hg. unfold Gossip.addOfflineNode. set (x := Gossip.offline_node _ _ _ _).
  destruct (new_node x (st r)) as [n st'] eqn:Hnew. by apply (ok_join x id r n st' Hok Hg Hnew).
Qed.

Lemma ok_onUdpMessage id address port now (r : reg) : ok r → ok (Gossip.onUdpMessage id address port now r).
Proof.
  intros Hok. unfold Gossip.onUdpMessage. destruct (_ || _); [done|].
  destruct (OMap.get id (nodes r)) as [n|] eqn:Hg.
  - apply upd_good; [done|done|]. destruct (Node.available _); [done|]. by apply upd_good.
  - pose proof (ok_addOfflineNode id address port now r Hok Hg).
    destruct (Gossip.addOfflineNode _ _ _ _ _). by apply upd_good.
Qed.

Lemma ok_processGossipHello sender host port remote now (r : reg) :
  ok r → ok (Gossip.processGossipHello sender host port remote now r).
Proof.
  intros Hok. unfold Gossip.processGossipHello.
  assert (∀ n (r : reg), ok r → ok (match Node.udpAddress (node_of (st r) n) with
    | None => Gossip.upd (Node.set_udpAddress (Some remote)) n r
    | Some a => if String.eqb a "" then Gossip.upd (Node.set_udpAddress (Some remote)) n r else r end)) as Ht.
  { intros n r0 H0. pose proof (upd_good (Node.set_udpAddress (Some remote)) n r0 ltac:(done) ltac:(done) H0).
    destruct (Node.udpAddress _) as [a|]; [by destruct (String.eqb a "")|done]. }
  destruct (OMap.get sender (nodes r)) as [n|] eqn:Hg; [by apply Ht|].
  pose proof (ok_addOfflineNode sender host port now r Hok Hg).
  destruct (Gossip.addOfflineNode _ _ _ _ _). by apply Ht.
Qed.

End responses.
