(* ===== verification/RegistryTheorems.v ===== *)
(** * What the registry and the routing guarantee

    The operations of a broker on its registry as a step relation, the invariant
    in every reachable state, and what follows for registration, disconnection
    and the routing of calls and events. *)

From Stdlib Require Import ZArith Lia Bool Ascii.
From stdpp Require Import base tactics list strings option gmap.
From S2P Require Import Prelude Utils Strategies Balancing RegistryData EndpointList Registry LocalInfo Gossip Discoverer Routing RegistryInv RegistrySpec GossipInv.

Local Open Scope Z_scope.

Section routing.
Context {S : Type} `{Strategy S}.
Context (random : random_source) (regexp : list ascii → list ascii → bool).

(** *** Routing leaves the registry as it is *)

Lemma findNextActionEndpoint_rerouted name id ctx (r : registry S) :
  rerouted r (Routing.findNextActionEndpoint random name id ctx r).2.
Proof.
  unfold Routing.findNextActionEndpoint. destruct (Routing.direct id).
  - destruct (Routing.getActionEndpointByNodeId _ _ r); apply rerouted_refl.
  - destruct (OMap.get name (actions r)) as [l|] eqn:Hg; [|apply rerouted_refl].
    pose proof (EndpointList.next_rebalanced (preferLocal (cfg r)) random (st r) ctx l) as Hr.
    destruct (EndpointList.next _ _ _ _ l) as [res l']. by eapply rerouted_action.
Qed.

Lemma getLocalActionEndpoint_rerouted name ctx (r : registry S) :
  rerouted r (Routing.getLocalActionEndpoint random name ctx r).2.
Proof.
  unfold Routing.getLocalActionEndpoint.
  destruct (OMap.get name (actions r)) as [l|] eqn:Hg; [|apply rerouted_refl].
  destruct (negb _); [apply rerouted_refl|].
  pose proof (EndpointList.nextLocal_rebalanced random (st r) ctx l) as Hr.
  destruct (EndpointList.nextLocal _ _ _ l) as [res l']. by eapply rerouted_action.
Qed.

Lemma rebalanced_all (ls : list (EndpointList.t S)) : Forall2 EndpointList.rebalanced ls ls.
Proof. induction ls; constructor; done. Qed.

Lemma balance_rebalanced st0 local eventName groups ctx (ls : list (EndpointList.t S)) :
  Forall2 EndpointList.rebalanced ls (Routing.balance random regexp st0 local eventName groups ctx ls).2.
Proof.
  induction ls as [|l ls IH]; simpl; [constructor|].
  destruct (Routing.balance _ _ _ _ _ _ _ ls) as [eps ls']. simpl in IH.
  destruct (Routing.concerns _ _ _ l); [|by constructor].
  pose proof (EndpointList.next_rebalanced local random st0 ctx l) as Hr.
  destruct (EndpointList.next _ _ _ _ l) as [[|ep|] l']; constructor; try done. apply rebalanced_all.
Qed.

Lemma local_handlers_rebalanced st0 b eventName groups (ls : list (EndpointList.t S)) :
  Forall2 EndpointList.rebalanced ls (Routing.local_handlers random regexp st0 b eventName groups ls).2.
Proof.
  induction ls as [|l ls IH]; simpl; [constructor|].
  destruct (Routing.local_handlers _ _ _ _ _ _ ls) as [eps ls']. simpl in IH.
  destruct (Routing.concerns _ _ _ l); [|by constructor]. destruct b; [by constructor|].
  pose proof (EndpointList.nextLocal_rebalanced random st0 None l) as Hr.
  destruct (EndpointList.nextLocal _ _ _ l) as [[|ep|] l']; constructor; try done. apply rebalanced_all.
Qed.

Lemma getBalancedEndpoints_rerouted eventName groups ctx (r : registry S) :
  rerouted r (Routing.getBalancedEndpoints random regexp eventName groups ctx r).2.
Proof.
  unfold Routing.getBalancedEndpoints.
  pose proof (balance_rebalanced (st r) (preferLocal (cfg r)) eventName groups ctx (events r)) as Hb.
  destruct (Routing.balance _ _ _ _ _ _ _ _) as [eps ls]. by apply rerouted_events.
Qed.

Lemma emit_rerouted eventName groups ctx (r : registry S) :
  rerouted r (Routing.emit random regexp eventName groups ctx r).2.
Proof.
  unfold Routing.emit. destruct (negb _).
  - pose proof (getBalancedEndpoints_rerouted eventName groups ctx r) as Hr.
    by destruct (Routing.getBalancedEndpoints _ _ _ _ _ r) as [eps r'].
  - destruct (hasTransit _); [|apply rerouted_refl].
    destruct (match groups with None | Some [] => _ | Some gs => gs end); apply rerouted_refl.
Qed.

Lemma emitLocalServices_rerouted b eventName groups (r : registry S) :
  rerouted r (Routing.emitLocalServices random regexp b eventName groups r).2.
Proof.
  unfold Routing.emitLocalServices.
  pose proof (local_handlers_rebalanced (st r) b eventName groups (events r)) as Hb.
  destruct (Routing.local_handlers _ _ _ _ _ _ _) as [eps ls]. by apply rerouted_events.
Qed.

Lemma broadcast_rerouted eventName groups (r : registry S) :
  rerouted r (Routing.broadcast random regexp eventName groups r).2.
Proof.
  unfold Routing.broadcast, Routing.broadcastLocal. destruct (disableBalancer _).
  - destruct (hasTransit _); [|apply rerouted_refl].
    destruct (match groups with None | Some [] => _ | Some gs => gs end); apply rerouted_refl.
  - pose proof (emitLocalServices_rerouted true eventName groups r) as Hr.
    by destruct (Routing.emitLocalServices _ _ _ _ _ r) as [eps r'].
Qed.

(** *** The operations of a broker *)

Context (new_strategy : option string → S).

(** One operation on the registry.  Packets of the broker itself never reach the
    registry; the circuit breaker opens and closes endpoints. *)
Inductive step : registry S → registry S → Prop :=
| step_info p now r :
    i_sender p ≠ nodeID (cfg r) → i_sender p ≠ ""%string → step r (processNodeInfo new_strategy p now r)
| step_disconnected id u now r :
    id ≠ nodeID (cfg r) → step r (Discoverer.remoteNodeDisconnected id u now r)
| step_heartbeat id p now r r' : Discoverer.heartbeatReceived id p now r = Some r' → step r r'
| step_checkRemote o now r : step r (Discoverer.checkRemoteNodes o now r)
| step_checkOffline o now r : step r (Discoverer.checkOfflineNodes o now r)
| step_beat cpu r : step r (Discoverer.beat cpu r)
| step_register v r : step r (registerLocalService new_strategy v r)
| step_unregister fn id r : step r (unregisterService fn id r)
| step_call name id ctx r : step r (Routing.findNextActionEndpoint random name id ctx r).2
| step_request name ctx r : step r (Routing.getLocalActionEndpoint random name ctx r).2
| step_emit ev groups ctx r : step r (Routing.emit random regexp ev groups ctx r).2
| step_broadcast ev groups r : step r (Routing.broadcast random regexp ev groups r).2
| step_event b ev groups r : step r (Routing.emitLocalServices random regexp b ev groups r).2
| step_local_info force r : step r (LocalInfo.getLocalNodeInfo force r).2
| step_udp id address port now r : step r (Gossip.onUdpMessage id address port now r)
| step_hello sender host port remote now r : step r (Gossip.processGossipHello sender host port remote now r)
| step_gossip_request p now r : step r (Gossip.processGossipRequest p now r).1
| step_gossip_response p now r :
    OMap.wf (Gossip.s_online p) → OMap.wf (Gossip.s_offline p) →
    ""%string ∉ OMap.keys (Gossip.s_online p) → ""%string ∉ OMap.keys (Gossip.s_offline p) →
    step r (Gossip.processGossipResponse new_strategy p now r)
| step_circuit ep b r : step r (set_st (upd_ep (Endpoint.set_state b) ep (st r)) r).

Inductive reachable (r0 : registry S) : registry S → Prop :=
| reach_init : reachable r0 r0
| reach_step r r' : reachable r0 r → step r r' → reachable r0 r'.

Lemma ok_create c i h ips cl md now : ok (create (S := S) c i h ips cl md now).
Proof.
  split; constructor; simpl; try done.
  all: try (intros; match goal with H : _ ∈ [] |- _ => by apply not_elem_of_nil in H end).
  - intros l Hl. by apply not_elem_of_nil in Hl.
  - constructor.
  - constructor.
  - intros id n Hn. apply list_elem_of_singleton in Hn. simplify_eq. unfold node_of. simpl.
    rewrite lookup_total_insert_eq. rewrite lookup_insert_eq. eauto.
  - apply NoDup_singleton.
  - unfold live_node, node_id, node_of. simpl. rewrite lookup_total_insert_eq. simpl.
    by rewrite String.eqb_refl.
  - intros id n Hn. apply list_elem_of_singleton in Hn. simplify_eq. unfold node_of. simpl.
    by rewrite lookup_total_insert_eq.
Qed.

Lemma ok_step r r' : ok r → step r r' → ok r'.
Proof.
  intros Hok Hs. pose proof (proj1 Hok) as Hi.
  assert (∀ r', rerouted r r' → ok r') as Hrr by (intros ? ?; eapply ok_good; [done|by apply rerouted_good]).
  destruct Hs.
  - by apply processNodeInfo_spec.
  - unfold Discoverer.remoteNodeDisconnected.
    destruct (OMap.get id (nodes r)) as [n|] eqn:Hg; [|unfold disconnected; by rewrite Hg].
    destruct (Node.available (node_of (st r) n)) eqn:Hav; [|unfold disconnected; by rewrite Hg, Hav].
    by apply (disconnected_spec id u now r n).
  - by eapply ok_heartbeatReceived.
  - by apply ok_checkRemoteNodes.
  - by apply ok_checkOfflineNodes.
  - eapply ok_good; [done|]. apply good_upd_node; try done; unfold Node.updateLocalInfo; by case_bool_decide.
  - by apply ok_registerLocalService.
  - by apply ok_unregisterService.
  - apply Hrr, findNextActionEndpoint_rerouted.
  - apply Hrr, getLocalActionEndpoint_rerouted.
  - apply Hrr, emit_rerouted.
  - apply Hrr, broadcast_rerouted.
  - apply Hrr, emitLocalServices_rerouted.
  - by apply ok_getLocalNodeInfo.
  - by apply ok_onUdpMessage.
  - by apply ok_processGossipHello.
  - by apply ok_processGossipRequest.
  - by apply processGossipResponse_spec.
  - eapply ok_good; [done|]. apply good_set_st; [done|by apply store_le_upd_ep|by apply avail_le_nodes].
Qed.

Lemma ok_reachable r0 r : ok r0 → reachable r0 r → ok r.
Proof. intros Hok. induction 1; [done|]. by eapply ok_step. Qed.

End routing.

(** ** The invariant of every reachable state *)

(** What an endpoint of the registry promises to the broker that routes to it. *)
Record endpoint_sound {S} (r : registry S) (e : Endpoint.t) : Prop := {
  es_service : Endpoint.service e ∈ services r;
  es_node : svc_node r (Endpoint.service e) = Endpoint.node e;
  es_known : OMap.get (Endpoint.id e) (nodes r) = Some (Endpoint.node e);
  es_online : Node.available (node_of (st r) (Endpoint.node e)) = true;
  es_local : Endpoint.local e = String.eqb (Endpoint.id e) (nodeID (cfg r))
}.

Lemma ok_endpoint {S} `{Strategy S} (r : registry S) l ep :
  ok r → l ∈ all_lists r → ep ∈ EndpointList.endpoints l → endpoint_sound r (ep_of (st r) ep).
Proof.
  intros [Hi Hl] Hin Hep. destruct (inv_lists _ Hi l Hin) as [_ Hok].
  destruct (Hok ep Hep) as (Hs & Hn & Hid & Hloc).
  destruct (live_svcs _ Hl _ Hs) as [Hg Hav]. unfold svc_node in *. rewrite Hn in *.
  constructor; try done. by rewrite Hid.
Qed.

(** C1. In every state a broker's registry can reach, by INFO, DISCONNECT and
    HEARTBEAT packets, by gossip, by the periodic node checks, by registering and
    removing local services, by calls, events and circuit breakers in any order: each
    endpoint of an action or event belongs to a service of the catalog, on a node
    the catalog knows under the endpoint's ID and that is online; a list has at
    most one endpoint per node and service name, and its local part is exactly its
    endpoints on this broker; a service is registered at most once per node; and
    the local node is in the catalog and online. *)
Theorem registry_invariant {S} `{Strategy S} random regexp new_strategy c i h ips cl md now (r : registry S) :
  reachable random regexp new_strategy (create c i h ips cl md now) r →
  (∀ l ep, l ∈ all_lists r → ep ∈ EndpointList.endpoints l → endpoint_sound r (ep_of (st r) ep)) ∧
  (∀ l, l ∈ all_lists r →
     (∀ ep ep', ep ∈ EndpointList.endpoints l → ep' ∈ EndpointList.endpoints l →
        Endpoint.node (ep_of (st r) ep) = Endpoint.node (ep_of (st r) ep') →
        ServiceItem.name (svc_of (st r) (Endpoint.service (ep_of (st r) ep))) =
          ServiceItem.name (svc_of (st r) (Endpoint.service (ep_of (st r) ep'))) → ep = ep') ∧
     EndpointList.localEndpoints l =
       Arr.filter (λ ep, Endpoint.local (ep_of (st r) ep)) (EndpointList.endpoints l)) ∧
  (∀ s s', s ∈ services r → s' ∈ services r →
     svc_name r s = svc_name r s' → svc_node r s = svc_node r s' → s = s') ∧
  live_node r (localNode r).
Proof.
  intros Hr. assert (ok r) as [Hi Hl] by (eapply ok_reachable; [apply ok_create|done]).
  split_and!.
  - intros l ep. by apply ok_endpoint.
  - intros l Hin. destruct (inv_lists _ Hi l Hin) as [[_ _ Hs Hloc] _]. done.
  - apply Hl.
  - apply Hl.
Qed.

(** ** Registration *)

(** C15. An INFO packet of a remote node with news (the node is new or was offline, its
    sequence number grew or its instance changed) leaves the node online and in the
    catalog exactly the services it announces, under their versioned full names;
    services of other nodes stay.  Any other INFO packet changes no registration. *)
Theorem node_info_exact {S} `{Strategy S} random regexp new_strategy c i h ips cl md now (r : registry S) p l t :
  reachable random regexp new_strategy (create c i h ips cl md now) r →
  i_sender p ≠ ""%string → i_services p = Some l →
  let r' := processNodeInfo new_strategy p t r in
  ∃ n, OMap.get (i_sender p) (nodes r') = Some n ∧ Node.available (node_of (st r') n) = true ∧
  if is_news p r then
    (∀ fn, (∃ s, s ∈ services r' ∧ svc_node r' s = n ∧ svc_name r' s = fn) ↔ fn ∈ map full_name l) ∧
    (∀ s, svc_node r' s ≠ n → s ∈ services r' ↔ s ∈ services r)
  else services r' = services r.
Proof.
  intros Hr Hne Hl. assert (ok r) as Hok by (eapply ok_reachable; [apply ok_create|done]).
  destruct (processNodeInfo_spec new_strategy p t r Hok Hne) as (_ & _ & n & Hg & Hav & Heff).
  exists n. split_and!; [done..|]. unfold news_effect in Heff. by rewrite Hl in Heff.
Qed.

(** C27. When a remote node that is online disconnects, it stays known but offline, no
    endpoint of any action or event leads to it and none of its services is
    registered any more, so nothing is routed to it; all other services stay
    registered. *)
Theorem node_disconnect_cleans {S} `{Strategy S} random regexp new_strategy c i h ips cl md now (r : registry S) id u t n :
  reachable random regexp new_strategy (create c i h ips cl md now) r →
  id ≠ nodeID (cfg r) → OMap.get id (nodes r) = Some n → Node.available (node_of (st r) n) = true →
  let r' := Discoverer.remoteNodeDisconnected id u t r in
  (∀ l ep, l ∈ all_lists r' → ep ∈ EndpointList.endpoints l → Endpoint.id (ep_of (st r') ep) ≠ id) ∧
  (∀ s, s ∈ services r' ↔ s ∈ services r ∧ svc_node r s ≠ n) ∧
  OMap.get id (nodes r') = Some n ∧ Node.available (node_of (st r') n) = false.
Proof.
  intros Hr Hid Hg Hav. assert (ok r) as Hok by (eapply ok_reachable; [apply ok_create|done]).
  destruct (disconnected_spec id u t r n Hok Hid Hg Hav) as (_ & He & Hs & Hn & Ho & _).
  unfold Discoverer.remoteNodeDisconnected. split_and!; try done. by rewrite Hn.
Qed.

(** ** Routing *)

(** The endpoint a list answers, by the outcome of [next]. *)
Lemma next_ep {S} `{StrategySound S} random preferLocal st0 ctx (l : EndpointList.t S) :
  random_ok random → EndpointList.wf st0 l →
  match (EndpointList.next preferLocal random st0 ctx l).1 with
  | EndpointList.NextEp ep => ep ∈ EndpointList.endpoints l ∧ EndpointList.available st0 ep = true
  | EndpointList.NextNull =>
      ∀ ep, ep ∈ (if EndpointList.internal l && EndpointList.hasLocal l
                  then EndpointList.localEndpoints l else EndpointList.endpoints l) →
            EndpointList.available st0 ep = false
  | EndpointList.NextThrow => lawful (EndpointList.strategy l) = false
  end.
Proof.
  intros Hr Hwf. destruct (EndpointList.next_chooses preferLocal random st0 ctx l Hr Hwf) as [Hc _].
  destruct (EndpointList.next _ _ _ _ l).1 as [|ep|]; simpl in Hc; try done.
  destruct Hc as [Hin Hav]. split; [|done]. destruct (_ && _); [|done].
  rewrite (EndpointList.wf_local _ _ Hwf) in Hin. by apply Arr.elem_of_filter in Hin as [? _].
Qed.

Section routed.
Context {S : Type} `{StrategySound S}.
Context (random : random_source) (regexp : list ascii → list ascii → bool).

(** The endpoints an event goes to, one per concerned list that can answer. *)
Inductive answers (st0 : store) (ev : string) (groups : option (list string)) :
    list (EndpointList.t S) → list (ref * string) → Prop :=
| answers_nil : answers st0 ev groups [] []
| answers_skip l ls eps :
    Routing.concerns regexp ev groups l = false → answers st0 ev groups ls eps →
    answers st0 ev groups (l :: ls) eps
| answers_none l ls eps :
    Routing.concerns regexp ev groups l = true →
    (∀ ep, ep ∈ (if EndpointList.internal l && EndpointList.hasLocal l
                 then EndpointList.localEndpoints l else EndpointList.endpoints l) →
           EndpointList.available st0 ep = false) →
    answers st0 ev groups ls eps → answers st0 ev groups (l :: ls) eps
| answers_one l ls ep eps :
    Routing.concerns regexp ev groups l = true →
    ep ∈ EndpointList.endpoints l → EndpointList.available st0 ep = true →
    answers st0 ev groups ls eps →
    answers st0 ev groups (l :: ls) ((ep, Routing.group_name l) :: eps).

Lemma balance_answers st0 local ev groups ctx ls :
  random_ok random → (∀ l, l ∈ ls → EndpointList.wf st0 l) →
  match (Routing.balance random regexp st0 local ev groups ctx ls).1 with
  | Some eps => answers st0 ev groups ls eps
  | None => ∃ l, l ∈ ls ∧ Routing.concerns regexp ev groups l = true ∧ lawful (EndpointList.strategy l) = false
  end.
Proof.
  intros Hr. induction ls as [|l ls IH]; intros Hwf; simpl; [constructor|].
  assert (∀ l', l' ∈ ls → EndpointList.wf st0 l') as Hwf' by (intros; apply Hwf; by right). specialize (IH Hwf').
  pose proof (next_ep random local st0 ctx l Hr (Hwf l ltac:(left))) as Hn.
  destruct (Routing.balance _ _ _ _ _ _ _ ls) as [o ls'], (Routing.concerns regexp ev groups l) eqn:Hc; simpl in *.
  - destruct (EndpointList.next _ _ _ _ l) as [[|ep|] l']; simpl in *; [| |exists l; split_and!; [by left|done..]].
    + destruct o as [eps|]; [by apply answers_none|]. destruct IH as (l0 & ? & ?). exists l0. split; [by right|done].
    + destruct Hn as [Hin Hav]. rewrite Hav. destruct o as [eps|]; simpl; [by apply answers_one|].
      destruct IH as (l0 & ? & ?). exists l0. split; [by right|done].
  - destruct o as [eps|]; [by apply answers_skip|]. destruct IH as (l0 & ? & ?). exists l0. split; [by right|done].
Qed.

(** What [emit] does with the endpoints that were chosen: the handlers it calls, and the groups
    it sends to a node, one for each choice *)
Definition handled (st0 : store) (b : string) (eps : list (ref * string)) : list ref :=
  map fst (Arr.filter (λ '(ep, _), String.eqb (Endpoint.id (ep_of st0 ep)) b) eps).
Definition groups_to (st0 : store) (eps : list (ref * string)) (id : string) : list string :=
  map snd (Arr.filter (λ '(ep, _), String.eqb (Endpoint.id (ep_of st0 ep)) id) eps).
(** The nodes of other brokers among them *)
Definition other_nodes (st0 : store) (b : string) (eps : list (ref * string)) (ids : list string) : Prop :=
  NoDup ids ∧ ∀ id, id ∈ ids ↔ id ≠ b ∧ ∃ ep g, (ep, g) ∈ eps ∧ Endpoint.id (ep_of st0 ep) = id.

Lemma get_map_keys {A} (f : string → A) ids id :
  OMap.get id (map (λ id, (id, f id)) ids) = if bool_decide (id ∈ ids) then Some (f id) else None.
Proof.
  induction ids as [|i ids IH]; simpl; [done|]. destruct (String.eqb_spec id i) as [->|Hne].
  - rewrite bool_decide_true by left. done.
  - rewrite IH. apply (f_equal (λ b : bool, if b then _ else _)), bool_decide_ext. rewrite elem_of_cons. naive_solver.
Qed.

Lemma set_map_keys {A} (f g : string → A) ids id v : NoDup ids → g id = v → (∀ i, i ≠ id → g i = f i) →
  OMap.set id v (map (λ id, (id, f id)) ids) = map (λ id, (id, g id)) (if bool_decide (id ∈ ids) then ids else ids ++ [id]).
Proof.
  intros Hnd Hv Hg. induction Hnd as [|i ids Hi Hnd IH]; simpl; [by rewrite Hv|]. destruct (String.eqb_spec id i) as [->|Hne].
  - rewrite bool_decide_true by left. simpl. rewrite Hv. f_equal. apply map_ext_in. intros j Hj%list_elem_of_In. rewrite Hg; [done|]. by intros ->.
  - rewrite IH. assert (bool_decide (id ∈ i :: ids) = bool_decide (id ∈ ids)) as ->
      by (apply bool_decide_ext; rewrite elem_of_cons; naive_solver). destruct (bool_decide _); simpl; by rewrite Hg by congruence.
Qed.

(** The grouping loop: every choice is taken to exactly one place. *)
Lemma group_loop st0 b eps : ∃ ids, other_nodes st0 b eps ids ∧
  foldl (Routing.group_endpoint st0 b) ([], []) eps =
  (map Routing.CallHandler (handled st0 b eps), map (λ id, (id, groups_to st0 eps id)) ids).
Proof.
  induction eps as [|[ep g] eps IH] using rev_ind.
  - exists []. split; [|done]. split; [constructor|]. intros id. split; [by intros ?%elem_of_nil|]. by intros (_ & ep & g & ?%elem_of_nil & _).
  - destruct IH as (ids & [Hnd Hids] & E). rewrite foldl_app, E. unfold handled, groups_to, Routing.group_endpoint. cbn [foldl].
    rewrite !Arr.filter_app. cbn [Arr.filter]. destruct (String.eqb_spec (Endpoint.id (ep_of st0 ep)) b) as [Hb|Hb].
    + exists ids. split.
      * split; [done|]. intros id. rewrite Hids. setoid_rewrite elem_of_app. setoid_rewrite list_elem_of_singleton. naive_solver.
      * rewrite !map_app. f_equal. apply map_ext_in. intros id Hid%list_elem_of_In. apply Hids in Hid as [Hid _].
        rewrite Arr.filter_app. cbn [Arr.filter]. destruct (String.eqb_spec (Endpoint.id (ep_of st0 ep)) id); [congruence|]. by rewrite app_nil_r.
    + rewrite app_nil_r. set (id0 := Endpoint.id (ep_of st0 ep)) in *.
      exists (if bool_decide (id0 ∈ ids) then ids else ids ++ [id0]). split.
      * split; [case_bool_decide; [done|]; apply NoDup_app; split_and!; [done| |apply NoDup_singleton]; intros x Hx ->%list_elem_of_singleton; done|].
        intros id. setoid_rewrite elem_of_app. setoid_rewrite list_elem_of_singleton. case_bool_decide as Hin; rewrite ?elem_of_app, ?list_elem_of_singleton, Hids; [apply Hids in Hin|]; naive_solver.
      * rewrite get_map_keys. assert (∀ x, groups_to st0 (eps ++ [(ep, g)]) x = groups_to st0 eps x ++ (if String.eqb id0 x then [g] else [])) as Hg.
        { intros x. unfold groups_to. rewrite Arr.filter_app, map_app. cbn [Arr.filter]. fold id0. by destruct (String.eqb id0 x). }
        case_bool_decide as Hin; cbn [fst snd]; f_equal; rewrite (set_map_keys _ (groups_to st0 (eps ++ [(ep, g)]))); try done.
        -- by rewrite bool_decide_true.
        -- by rewrite Hg, String.eqb_refl.
        -- intros i Hi. rewrite Hg. destruct (String.eqb_spec id0 i); [congruence|]. by rewrite app_nil_r.
        -- by rewrite bool_decide_false.
        -- rewrite Hg, String.eqb_refl. enough (groups_to st0 eps id0 = []) as -> by done.
           unfold groups_to. rewrite Arr.filter_none; [done|]. intros [ep' g'] Hep. apply String.eqb_neq. intros E'. apply Hin, Hids. naive_solver.
        -- intros i Hi. rewrite Hg. destruct (String.eqb_spec id0 i); [congruence|]. by rewrite app_nil_r.
Qed.

(** The same for [_.uniqBy]. *)
Lemma uniq_by_elem {A} (key : A → string) seen l x : x ∈ Routing.uniq_by key seen l → x ∈ l.
Proof.
  revert seen. induction l as [|y l IH]; intros seen; simpl; [done|].
  destruct (existsb _ _); rewrite !elem_of_cons; naive_solver.
Qed.

Lemma uniq_by_keys {A} (key : A → string) seen l x :
  x ∈ l → key x ∉ seen → ∃ y, y ∈ Routing.uniq_by key seen l ∧ key y = key x.
Proof.
  revert seen. induction l as [|y l IH]; intros seen Hx Hs; simpl; [by apply not_elem_of_nil in Hx|].
  destruct (existsb (String.eqb (key y)) seen) eqn:He.
  - apply elem_of_cons in Hx as [->|Hx]; [|by apply IH]. exfalso. apply Hs.
    apply existsb_exists in He as (k & Hk & ->%String.eqb_eq). by apply list_elem_of_In.
  - destruct (decide (key x = key y)) as [Heq|Hne]; [exists y; split; [left|done]|].
    apply elem_of_cons in Hx as [->|Hx]; [done|].
    destruct (IH (key y :: seen) Hx) as (z & Hz & Hkz); [rewrite elem_of_cons; naive_solver|].
    exists z. split; [by right|done].
Qed.

Lemma uniq_by_nodup {A} (key : A → string) seen l :
  NoDup (map key (Routing.uniq_by key seen l)) ∧
  ∀ x, x ∈ Routing.uniq_by key seen l → key x ∉ seen.
Proof.
  revert seen. induction l as [|y l IH]; intros seen; simpl.
  - split; [constructor|]. intros x Hx. by apply not_elem_of_nil in Hx.
  - destruct (existsb (String.eqb (key y)) seen) eqn:He; [apply IH|].
    destruct (IH (key y :: seen)) as [Hnd Hns].
    assert (key y ∉ seen) as Hy.
    { intros Hin. apply list_elem_of_In in Hin. apply not_true_iff_false in He. apply He.
      apply existsb_exists. exists (key y). by rewrite String.eqb_refl. }
    simpl. split.
    + constructor; [|done]. intros Hin. apply list_elem_of_fmap in Hin as (z & Heq & Hz).
      apply Hns in Hz. apply Hz. rewrite <- Heq. left.
    + intros x Hx. apply elem_of_cons in Hx as [->|Hx]; [done|]. apply Hns in Hx. intros Hin. apply Hx. by right.
Qed.

Lemma getAllEndpoints_elem ev groups (r : registry S) ep :
  ep ∈ Routing.getAllEndpoints regexp ev groups r →
  ∃ l, l ∈ events r ∧ Routing.concerns regexp ev groups l = true ∧ ep ∈ EndpointList.endpoints l ∧
       EndpointList.available (st r) ep = true.
Proof.
  intros Hin%uniq_by_elem. apply list_elem_of_In, in_concat in Hin as (x & Hx & Hin).
  apply list_elem_of_In, list_elem_of_fmap in Hx as (l & -> & Hl). apply Arr.elem_of_filter in Hl as [Hl Hc].
  apply list_elem_of_In, Arr.elem_of_filter in Hin as [Hin Hav]. eauto.
Qed.

Lemma getAllEndpoints_all ev groups (r : registry S) l ep :
  l ∈ events r → Routing.concerns regexp ev groups l = true → ep ∈ EndpointList.endpoints l →
  EndpointList.available (st r) ep = true →
  ∃ ep', ep' ∈ Routing.getAllEndpoints regexp ev groups r ∧
         Endpoint.id (ep_of (st r) ep') = Endpoint.id (ep_of (st r) ep).
Proof.
  intros Hl Hc Hin Hav.
  apply (uniq_by_keys (λ ep, Endpoint.id (ep_of (st r) ep))); [|by apply not_elem_of_nil].
  apply list_elem_of_In, in_concat. eexists. split; [|apply list_elem_of_In, Arr.elem_of_filter; done].
  apply list_elem_of_In, list_elem_of_fmap. exists l. split; [done|]. by apply Arr.elem_of_filter.
Qed.

Lemma internal_bus_elem ev d : d ∈ Routing.internal_bus ev → d = Routing.LocalBus ev.
Proof.
  unfold Routing.internal_bus. destruct ev; [intros Hd; by apply not_elem_of_nil in Hd|].
  destruct (Ascii.eqb _ _); intros Hd; [by apply list_elem_of_singleton in Hd|by apply not_elem_of_nil in Hd].
Qed.

(** The handlers a broadcast calls. *)
Lemma broadcast_handlers st0 ev groups (ls : list (EndpointList.t S)) :
  ∃ eps, (Routing.local_handlers random regexp st0 true ev groups ls).1 = Some eps ∧
  ∀ ep, ep ∈ eps ↔ ∃ l, l ∈ ls ∧ Routing.concerns regexp ev groups l = true ∧
    ep ∈ EndpointList.endpoints l ∧ Endpoint.local (ep_of st0 ep) = true ∧ Routing.has_handler st0 ep = true.
Proof.
  induction ls as [|l ls (eps & Heq & Hin)]; simpl.
  - exists []. split; [done|]. intros ep. rewrite elem_of_nil. split; [done|].
    intros (l & Hl & _). by apply not_elem_of_nil in Hl.
  - destruct (Routing.local_handlers _ _ _ _ _ _ ls) as [o ls']. simpl in Heq. subst o.
    destruct (Routing.concerns regexp ev groups l) eqn:Hc; eexists; (split; [reflexivity|]); intros ep.
    + rewrite elem_of_app, Arr.elem_of_filter, andb_true_iff, Hin. setoid_rewrite elem_of_cons. naive_solver.
    + rewrite Hin. setoid_rewrite elem_of_cons. split.
      * intros (l0 & Hl0 & Hrest). exists l0. split; [by right|done].
      * intros (l0 & [->|Hl0] & Hc0 & Hrest); [congruence|]. exists l0. done.
Qed.

End routed.

Section any_strategy.
Context {C : Type} `{Shard.LruCache C}.
Context (lodash_get : json → string → json) (md5_32 : string → Z) (to_string : json → string).
#[local] Abbreviation strategy := (Balancing.strategy (C := C)).
#[local] Instance by_any : Strategy strategy := Balancing.any_strategy lodash_get md5_32 to_string.
#[local] Instance by_any_sound : StrategySound strategy := Balancing.any_sound lodash_get md5_32 to_string.

(** C29. What a call is routed to, by any of the five strategies.  A call to a node gets the first
    endpoint of the action there, if it is available; otherwise the action is not found.  Any
    other call does not find the action exactly when the catalog has no list for it;
    else it gets an available endpoint of that list, or the service is not available, and then
    no endpoint that it may use is, or the endpoint is invalid, which only the shard strategy
    can make it.  An endpoint that is answered belongs to a registered service of an
    online node. *)
Theorem call_routing random regexp new_strategy c i h ips cl md now (r : registry strategy) name id ctx :
  random_ok random →
  reachable random regexp new_strategy (create c i h ips cl md now) r →
  match (Routing.findNextActionEndpoint random name id ctx r).1, Routing.direct id with
  | Routing.Routed ep, target =>
      ∃ l, OMap.get name (actions r) = Some l ∧ ep ∈ EndpointList.endpoints l ∧
           EndpointList.available (st r) ep = true ∧ endpoint_sound r (ep_of (st r) ep) ∧
           ∀ n, target = Some n → Endpoint.id (ep_of (st r) ep) = n
  | Routing.ServiceNotFound a (Some n), Some target =>
      a = name ∧ n = target ∧
      ∀ l, OMap.get name (actions r) = Some l →
        match Arr.find (λ ep, String.eqb (Endpoint.id (ep_of (st r) ep)) target) (EndpointList.endpoints l) with
        | Some ep => EndpointList.available (st r) ep = false
        | None => True
        end
  | Routing.ServiceNotFound a None, None => a = name ∧ OMap.get name (actions r) = None
  | Routing.ServiceNotAvailable a None, None =>
      a = name ∧ ∃ l, OMap.get name (actions r) = Some l ∧
      ∀ ep, ep ∈ (if EndpointList.internal l && EndpointList.hasLocal l
                  then EndpointList.localEndpoints l else EndpointList.endpoints l) →
            EndpointList.available (st r) ep = false
  | Routing.InvalidEndpoint, None =>
      ∃ l, OMap.get name (actions r) = Some l ∧ Balancing.is_shard (EndpointList.strategy l) = true
  | _, _ => False
  end.
Proof.
  intros Hrand Hr. assert (ok r) as Hok by (eapply ok_reachable; [apply ok_create|done]).
  assert (∀ l, OMap.get name (actions r) = Some l → l ∈ all_lists r) as Hin
    by (intros l Hg; apply elem_of_all_lists; left; eexists; by apply OMap.get_Some_elem).
  unfold Routing.findNextActionEndpoint. destruct (Routing.direct id) as [n|].
  - unfold Routing.getActionEndpointByNodeId. destruct (OMap.get name (actions r)) as [l|]; [|done].
    unfold EndpointList.getEndpointByNodeID. destruct (Arr.find _ _) as [ep|] eqn:Hf.
    + apply Arr.find_Some in Hf as Hf'. destruct Hf' as [Hep Hid%String.eqb_eq]. destruct (EndpointList.available (st r) ep) eqn:Hav; simpl.
      * exists l. split_and!; try done; [apply (ok_endpoint r l); auto|]. by intros m [= <-].
      * split_and!; [done..|]. intros l' [= <-]. by rewrite Hf.
    + split_and!; [done..|]. intros l' [= <-]. by rewrite Hf.
  - destruct (OMap.get name (actions r)) as [l|] eqn:Hg; [|done].
    destruct (inv_lists _ (proj1 Hok) l (Hin l eq_refl)) as [Hwf _].
    pose proof (next_ep random (preferLocal (cfg r)) (st r) ctx l Hrand Hwf) as Hn.
    destruct (EndpointList.next _ _ _ _ l) as [[|ep|] l']; simpl in *; [eauto| |].
    + destruct Hn as [He Hav]. exists l. split_and!; try done. apply (ok_endpoint r l); auto.
    + exists l. split; [done|]. by apply negb_false_iff.
Qed.

(** C36. [emit] reaches each subscription once, with any of the five strategies, while the balancer
    of the broker is in use.  Among the event lists, one for each pattern and group,
    that the event concerns, each one with an endpoint that it may use contributes exactly
    one available endpoint ([answers]).  The deliveries are, each exactly once: a call of the
    handler for each chosen endpoint of this broker; and with a transit one packet for each
    other node with a chosen endpoint, with one group for each endpoint chosen there.
    Internal events also go to the local bus.  It throws only for a list with the
    shard strategy, whose choice may be an endpoint that is not there. *)
Theorem emit_once_per_group random regexp new_strategy c i h ips cl md now (r : registry strategy) ev groups ctx :
  random_ok random →
  reachable random regexp new_strategy (create c i h ips cl md now) r →
  disableBalancer (cfg r) = false →
  match (Routing.emit random regexp ev groups ctx r).1 with
  | Some ds =>
      ∃ eps ids, answers regexp (st r) ev groups (events r) eps ∧ other_nodes (st r) (nodeID (cfg r)) eps ids ∧
      ds = Routing.internal_bus ev ++
        map Routing.CallHandler (handled (st r) (nodeID (cfg r)) eps) ++
        if hasTransit (cfg r) then map (λ id, Routing.SendEvent (Some id) (Some (groups_to (st r) eps id))) ids else []
  | None => ∃ l, l ∈ events r ∧ Routing.concerns regexp ev groups l = true ∧ Balancing.is_shard (EndpointList.strategy l) = true
  end.
Proof.
  intros Hrand Hr Hbal. assert (ok r) as Hok by (eapply ok_reachable; [apply ok_create|done]).
  unfold Routing.emit. rewrite Hbal. simpl. unfold Routing.getBalancedEndpoints.
  assert (∀ l, l ∈ events r → EndpointList.wf (st r) l) as Hwf
    by (intros l Hl; apply (inv_lists _ (proj1 Hok)), elem_of_all_lists; by right).
  pose proof (balance_answers random regexp (st r) (preferLocal (cfg r)) ev groups ctx (events r) Hrand Hwf) as Ha.
  destruct (Routing.balance _ _ _ _ _ _ _ _) as [[eps|] ls]; simpl in *.
  2: { destruct Ha as (l & ? & ? & Hl). exists l. split_and!; [done..|]. by apply negb_false_iff. }
  destruct (group_loop (st r) (nodeID (cfg r)) eps) as (ids & Hids & E). exists eps, ids. split_and!; [done..|].
  rewrite E. do 2 f_equal. destruct (hasTransit (cfg r)); [|done]. by rewrite map_map.
Qed.

End any_strategy.

(** [broadcast] reaches every node with an available subscriber once: it sends one
    event packet to each remote node that has an available endpoint in a concerned
    list and calls exactly the handlers of the local endpoints of the concerned
    lists. *)
Theorem broadcast_all {S} `{StrategyLaws S} random regexp ev groups (r : registry S) :
  disableBalancer (cfg r) = false → hasTransit (cfg r) = true →
  let ds := (Routing.broadcast random regexp ev groups r).1 in
  let subscribed ep := ∃ l, l ∈ events r ∧ Routing.concerns regexp ev groups l = true ∧
                            ep ∈ EndpointList.endpoints l in
  (∀ id gs, Routing.SendEvent id gs ∈ ds ↔
     gs = groups ∧ ∃ ep, subscribed ep ∧ EndpointList.available (st r) ep = true ∧
       id = Some (Endpoint.id (ep_of (st r) ep)) ∧ Endpoint.id (ep_of (st r) ep) ≠ nodeID (cfg r)) ∧
  (∀ ep, Routing.CallHandler ep ∈ ds ↔
     subscribed ep ∧ Endpoint.local (ep_of (st r) ep) = true ∧ Routing.has_handler (st r) ep = true) ∧
  (∃ remote local, ds = remote ++ local ∧ NoDup remote ∧ ∀ d, d ∈ local → ∀ id gs, d ≠ Routing.SendEvent id gs).
Proof.
  intros Hbal Htr ds subscribed. unfold ds, Routing.broadcast, Routing.broadcastLocal, Routing.emitLocalServices.
  rewrite Hbal, Htr. destruct (broadcast_handlers random regexp (st r) ev groups (events r)) as (eps & Heq & Hin).
  destruct (Routing.local_handlers _ _ _ _ _ _ _) as [o ls]. simpl in Heq. subst o. simpl.
  set (others := Arr.filter _ _). set (remote := map _ others).
  set (local := Routing.internal_bus ev ++ map Routing.CallHandler eps).
  assert (∀ d, d ∈ remote → ∃ id, d = Routing.SendEvent (Some id) groups) as Hrem.
  { intros d Hd. apply list_elem_of_fmap in Hd as (ep & -> & _). eauto. }
  assert (∀ d, d ∈ local → ∀ id gs, d ≠ Routing.SendEvent id gs) as Hloc.
  { intros d Hd id gs ->. apply elem_of_app in Hd as [Hd|Hd].
    - by apply internal_bus_elem in Hd.
    - by apply list_elem_of_fmap in Hd as (ep & ? & _). }
  split_and!.
  - intros id gs. rewrite elem_of_app. split.
    + intros [Hd|Hd]; [|by destruct (Hloc _ Hd id gs)]. apply list_elem_of_fmap in Hd as (ep & Hd & Hep). simplify_eq.
      apply Arr.elem_of_filter in Hep as [Hep Hne]. apply negb_true_iff, String.eqb_neq in Hne.
      apply getAllEndpoints_elem in Hep as (l & ? & ? & ? & ?). split; [done|]. exists ep. unfold subscribed. eauto 10.
    + intros (-> & ep & (l & Hl & Hc & Hep) & Hav & -> & Hne). left.
      destruct (getAllEndpoints_all regexp ev groups r l ep Hl Hc Hep Hav) as (ep' & Hep' & Hid).
      apply list_elem_of_fmap. exists ep'. rewrite Hid. split; [done|]. apply Arr.elem_of_filter. split; [done|].
      by rewrite Hid, negb_true_iff, String.eqb_neq.
  - intros ep. unfold local. rewrite !elem_of_app, list_elem_of_fmap. split.
    + intros [Hd|[Hd|(ep' & [= ->] & Hep)]]; [by apply Hrem in Hd as (? & ?)| |].
      * by apply internal_bus_elem in Hd.
      * apply Hin in Hep as (l & ? & ? & ? & ? & ?). unfold subscribed. eauto 10.
    + intros ((l & Hl & Hc & Hep) & Hlo & Hh). right. right. exists ep. split; [done|]. apply Hin. eauto 10.
  - exists remote, local. split_and!; try done. unfold remote, others.
    destruct (uniq_by_nodup (λ ep, Endpoint.id (ep_of (st r) ep)) []
      (concat (map (λ l, Arr.filter (EndpointList.available (st r)) (EndpointList.endpoints l))
        (Arr.filter (Routing.concerns regexp ev groups) (events r))))) as [Hnd _].
    fold (Routing.getAllEndpoints regexp ev groups r) in Hnd.
    apply (NoDup_fmap_1 (λ d, match d with Routing.SendEvent (Some id) _ => id | _ => ""%string end)).
    rewrite <- list_fmap_compose. eapply sublist_NoDup; [exact Hnd|].
    apply (fmap_sublist (λ ep, Endpoint.id (ep_of (st r) ep))), Arr.sublist_filter.
Qed.

(** ** A sample cluster *)

Section sample.

Definition sample_cfg : broker_cfg := BrokerCfg "node-1" true false true true.

Definition rr (_ : option string) : RoundRobin.t := RoundRobin.init.

Definition no_regexp (_ _ : list ascii) : bool := false.

(** The events a sample service subscribes to. *)
Definition sample_events (names : list string) : OMap.t event :=
  map (λ n, (n, Event n None None (HUser 1))) names.

Definition sample_service (name : string) (evs : list string) : svc_schema :=
  SvcSchema name None JUndef JUndef JUndef
    (Some [((name ++ ".list")%string, Action (name ++ ".list") None false None (HUser 2) None)])
    (Some (sample_events evs)).

Definition sample_info (seq : Z) (svcs : list svc_schema) : node_info :=
  NodeInfo "node-2" (JStr "i1") (Some seq) JNull [] None None JUndef JUndef (Some svcs).

Definition sample_0 : registry RoundRobin.t :=
  create sample_cfg "i0" "host" [] JUndef JUndef 0.

(** [node-2] announces a mailer and a shop, which both listen to [user.created]. *)
Definition sample_1 : registry RoundRobin.t :=
  processNodeInfo rr
    (sample_info 1 [sample_service "mailer" ["user.created"]; sample_service "shop" ["user.created"]]) 5 sample_0.

Lemma sample_reachable : reachable draw_low no_regexp rr sample_0 sample_1.
Proof. eapply reach_step; [apply reach_init|]. by apply step_info. Qed.

End sample.

Lemma registry_invariant_witness :
  live_node sample_1 (localNode sample_1) ∧ length (all_lists sample_1) = 4%nat.
Proof.
  split; [|vm_compute; reflexivity].
  apply (registry_invariant draw_low no_regexp rr sample_cfg "i0" "host" [] JUndef JUndef 0 sample_1 sample_reachable).
Defined.

(** [node-2] announces the shop only. *)
Lemma node_info_exact_witness :
  let p := sample_info 2 [sample_service "shop" []] in
  let r' := processNodeInfo rr p 6 sample_1 in
  is_news p sample_1 = true ∧
  ∃ n, OMap.get "node-2" (nodes r') = Some n ∧ Node.available (node_of (st r') n) = true ∧
  if is_news p sample_1 then
    (∀ fn, (∃ s, s ∈ services r' ∧ svc_node r' s = n ∧ svc_name r' s = fn) ↔ fn ∈ ["shop"%string]) ∧
    (∀ s, svc_node r' s ≠ n → s ∈ services r' ↔ s ∈ services sample_1)
  else services r' = services sample_1.
Proof.
  split; [vm_compute; reflexivity|].
  apply (node_info_exact draw_low no_regexp rr sample_cfg "i0" "host" [] JUndef JUndef 0 sample_1
    (sample_info 2 [sample_service "shop" []]) [sample_service "shop" []] 6 sample_reachable
    ltac:(discriminate) eq_refl).
Defined.

Lemma node_disconnect_cleans_witness :
  let r' := Discoverer.remoteNodeDisconnected "node-2" true 9 sample_1 in
  (∀ l ep, l ∈ all_lists r' → ep ∈ EndpointList.endpoints l → Endpoint.id (ep_of (st r') ep) ≠ "node-2"%string) ∧
  length (services sample_1) = 2%nat.
Proof.
  assert ("node-2"%string ≠ nodeID (cfg sample_1)) as Hne by (vm_compute; discriminate).
  assert (OMap.get "node-2" (nodes sample_1) = Some 2%positive) as Hg by (vm_compute; reflexivity).
  assert (Node.available (node_of (st sample_1) 2) = true) as Hav by (vm_compute; reflexivity).
  destruct (node_disconnect_cleans draw_low no_regexp rr sample_cfg "i0" "host" [] JUndef JUndef 0 sample_1
    "node-2" true 9 2 sample_reachable Hne Hg Hav) as [He _].
  split; [exact He|vm_compute; reflexivity].
Defined.

(** The same cluster, where each action may choose its strategy, and one for [shop.list] *)
#[local] Abbreviation any := (Balancing.strategy (C := OMap.t string)).
Definition arr (_ : option string) : any := Balancing.ARoundRobin RoundRobin.init.
Definition sample_any : registry any :=
  processNodeInfo arr (sample_info 1 [sample_service "shop" []]) 5 (create sample_cfg "i0" "host" [] JUndef JUndef 0).
Definition no_get (_ : json) (_ : string) : json := JUndef.
Definition no_md5 (_ : string) : Z := 0.
Definition no_text (_ : json) : string := "".
#[local] Instance sample_strategy : Strategy any := by_any no_get no_md5 no_text.

Lemma call_routing_witness :
  Routing.findNextActionEndpoint draw_low "shop.list" (Some "node-3"%string) None sample_any =
    (Routing.ServiceNotFound "shop.list" (Some "node-3"%string), sample_any) ∧
  match (Routing.findNextActionEndpoint draw_low "shop.list" (Some "node-2"%string) None sample_any).1 with
  | Routing.Routed ep => endpoint_sound sample_any (ep_of (st sample_any) ep)
  | _ => False
  end.
Proof.
  split; [vm_compute; reflexivity|].
  assert (reachable draw_low no_regexp arr (create sample_cfg "i0" "host" [] JUndef JUndef 0) sample_any) as Hsr
    by (eapply reach_step; [apply reach_init|]; by apply step_info).
  pose proof (call_routing no_get no_md5 no_text draw_low no_regexp arr sample_cfg "i0" "host" [] JUndef JUndef 0 sample_any
    "shop.list" (Some "node-2"%string) None draw_low_ok Hsr) as Hr.
  destruct (Routing.findNextActionEndpoint _ _ _ _ _).1 as [ep|a [n|]|a [n|]|] eqn:He;
    [destruct Hr as (l & _ & _ & _ & Hs & _); exact Hs|vm_compute in He; discriminate He..].
Defined.

(** Here two services of [node-2] subscribe. *)
Definition sample_subscribed : registry any :=
  processNodeInfo arr
    (sample_info 1 [sample_service "mailer" ["user.created"]; sample_service "shop" ["user.created"]]) 5
    (create sample_cfg "i0" "host" [] JUndef JUndef 0).

Lemma emit_once_per_group_witness :
  ∃ eps ids, answers no_regexp (st sample_subscribed) "user.created" None (events sample_subscribed) eps ∧
  other_nodes (st sample_subscribed) (nodeID (cfg sample_subscribed)) eps ids ∧
  [Routing.SendEvent (Some "node-2"%string) (Some ["mailer"%string; "shop"%string])] =
  map Routing.CallHandler (handled (st sample_subscribed) (nodeID (cfg sample_subscribed)) eps) ++
  map (λ id, Routing.SendEvent (Some id) (Some (groups_to (st sample_subscribed) eps id))) ids.
Proof.
  assert (reachable draw_low no_regexp arr (create sample_cfg "i0" "host" [] JUndef JUndef 0) sample_subscribed) as Hsr
    by (eapply reach_step; [apply reach_init|]; by apply step_info).
  pose proof (emit_once_per_group no_get no_md5 no_text draw_low no_regexp arr sample_cfg "i0" "host" [] JUndef JUndef 0 sample_subscribed
    "user.created" None None draw_low_ok Hsr eq_refl) as H.
  destruct (Routing.emit _ _ _ _ _ _).1 as [ds|] eqn:E; vm_compute in E; [|discriminate]. injection E as <-.
  destruct H as (eps & ids & Ha & Hi & He). exists eps, ids. split; [exact Ha|]. split; [exact Hi|exact He].
Defined.

Lemma broadcast_all_witness :
  let ds := (Routing.broadcast draw_low no_regexp "user.created" None sample_1).1 in
  ds = [Routing.SendEvent (Some "node-2"%string) None] ∧
  ∃ remote local, ds = remote ++ local ∧ NoDup remote ∧ ∀ d, d ∈ local → ∀ id gs, d ≠ Routing.SendEvent id gs.
Proof.
  split; [vm_compute; reflexivity|].
  apply (broadcast_all draw_low no_regexp "user.created" None sample_1); reflexivity.
Defined.

(** ** A lost subscription *)

(** A remote node that drops an event subscription of one service loses the same
    subscription of its other services: [unregisterEvent] removes every endpoint
    of that node and event, whatever the service.  The mailer still announces
    [user.created], yet after the shop stopped listening no endpoint is left and
    an emitted [user.created] is delivered to nobody, also after later
    announcements of the same services. *)
Theorem event_subscription_lost :
  let announced := [sample_service "mailer" ["user.created"]; sample_service "shop" []] in
  let r2 := processNodeInfo rr (sample_info 2 announced) 6 sample_1 in
  let r3 := processNodeInfo rr (sample_info 3 announced) 7 r2 in
  (Routing.emit draw_low no_regexp "user.created" None None sample_1).1 =
    Some [Routing.SendEvent (Some "node-2"%string) (Some ["mailer"%string; "shop"%string])] ∧
  (Routing.emit draw_low no_regexp "user.created" None None r2).1 = Some [] ∧
  (Routing.emit draw_low no_regexp "user.created" None None r3).1 = Some [].
Proof. vm_compute. done. Qed.
