(* ===== verification/Listing.v ===== *)
(** * Listing the registry

    The lists of [src/registry/node-catalog.js], [service-catalog.js], [action-catalog.js] and
    [event-catalog.js], as [registry.js] and the internal service [$node]
    ([src/internals.js]) hand them out.  A service is listed for each node, or once with the
    nodes that have it ([services_grouped]); an action or event once with its
    endpoints, and nothing is listed of nodes that are gone ([listed_endpoints]). *)

From stdpp Require Import base tactics list strings option gmap.
From Stdlib Require Import ZArith Lia Bool.
From S2P Require Import Prelude Strategies RegistryData EndpointList Registry LocalInfo Gossip Discoverer Routing RegistryInv RegistrySpec RegistryTheorems.

Module Listing.

(** ** Services *)

Record service_options := ServiceOptions {
  onlyLocal : bool;
  onlyAvailable : bool;
  skipInternal : bool;
  withActions : bool;
  withEvents : bool;
  grouping : bool
}.

(** Where a listed service runs: on one node, or on the nodes of its group *)
Inductive place := NodeID (id : string) | Nodes (ids : list string).

Record service_item := ServiceEntry {
  s_name : string;
  s_version : json;
  s_fullName : string;
  s_settings : json;
  s_metadata : json;
  s_local : bool;
  s_available : bool;
  s_place : place;
  s_actions : option (OMap.t action);
  s_events : option (OMap.t event)
}.

Section services.
Context {S : Type} `{Strategy S}.
Notation reg := (registry S).

Definition node_available (r : reg) (n : ref) : bool := Node.available (node_of (st r) n).

(** [item.actions[action.name] = _.omit(action, ...)] of an action that is not listed yet *)
Definition merge_actions (acts : OMap.t action) (m : OMap.t action) : OMap.t action :=
  foldl (λ m '(_, a), if a_protected a || OMap.has (a_name a) m then m else OMap.set (a_name a) (LocalInfo.omit_action a) m) m acts.
Definition merge_events (evs : OMap.t event) (m : OMap.t event) : OMap.t event :=
  foldl (λ m '(_, e), if EndpointList.is_internal (ev_name e) || OMap.has (ev_name e) m then m
                      else OMap.set (ev_name e) (LocalInfo.omit_event e) m) m evs.

(** A new entry sets all of them. *)
Definition new_actions (acts : OMap.t action) : OMap.t action :=
  foldl (λ m '(_, a), if a_protected a then m else OMap.set (a_name a) (LocalInfo.omit_action a) m) [] acts.
Definition new_events (evs : OMap.t event) : OMap.t event :=
  foldl (λ m '(_, e), if EndpointList.is_internal (ev_name e) then m else OMap.set (ev_name e) (LocalInfo.omit_event e) m) [] evs.

Definition new_entry (o : service_options) (r : reg) (s : ServiceItem.t) : service_item :=
  let id := node_id r (ServiceItem.node s) in
  ServiceEntry (ServiceItem.name s) (ServiceItem.version s) (ServiceItem.fullName s) (ServiceItem.settings s) (ServiceItem.metadata s)
    (ServiceItem.local s) (node_available r (ServiceItem.node s)) (if grouping o then Nodes [id] else NodeID id)
    (if withActions o then Some (new_actions (ServiceItem.actions s)) else None)
    (if withEvents o then Some (new_events (ServiceItem.events s)) else None).

(** [item.nodes.push(id)] unless it is there *)
Definition add_node (id : string) (p : place) : place :=
  match p with
  | Nodes ids => if existsb (String.eqb id) ids then p else Nodes (ids ++ [id])
  | NodeID _ => p
  end.

Definition merge_entry (r : reg) (s : ServiceItem.t) (e : service_item) : service_item :=
  ServiceEntry (s_name e) (s_version e) (s_fullName e) (s_settings e) (s_metadata e) (s_local e) (s_available e)
    (add_node (node_id r (ServiceItem.node s)) (s_place e))
    (merge_actions (ServiceItem.actions s) <$> s_actions e) (merge_events (ServiceItem.events s) <$> s_events e).

(** The services that are not skipped *)
Definition admitted (o : service_options) (r : reg) (s : ServiceItem.t) : bool :=
  negb (skipInternal o && EndpointList.is_internal (ServiceItem.name s)) &&
  negb (onlyLocal o && negb (ServiceItem.local s)) &&
  negb (onlyAvailable o && negb (node_available r (ServiceItem.node s))).

(** The first entry of that name is changed. *)
Fixpoint merge_into (r : reg) (s : ServiceItem.t) (res : list service_item) : option (list service_item) :=
  match res with
  | [] => None
  | e :: res =>
      if String.eqb (s_fullName e) (ServiceItem.fullName s) then Some (merge_entry r s e :: res)
      else res ← merge_into r s res; Some (e :: res)
  end.

Definition list_service (o : service_options) (r : reg) (res : list service_item) (s : ref) : list service_item :=
  let s := svc_of (st r) s in
  if admitted o r s then
    match (if grouping o then merge_into r s res else None) with
    | Some res => res
    | None => res ++ [new_entry o r s]
    end
  else res.

(** [services.list(opts)], [getServiceList(opts)] *)
Definition getServiceList (o : service_options) (r : reg) : list service_item := foldl (list_service o r) [] (services r).

(** ** Nodes *)

(** [nodes.list({ onlyAvailable, withServices })]: the nodes, without [rawInfo] and perhaps
    without [services] *)
Definition getNodeList (onlyAvailable withServices : bool) (r : reg) : list (Node.t * option Node.services_of) :=
  map (λ n, let n := node_of (st r) n in (n, if withServices then Some (Node.services n) else None))
    (Arr.filter (λ n, negb (onlyAvailable && negb (node_available r n))) (OMap.values (nodes r))).

(** ** Actions and events *)

Record endpoint_options := EndpointOptions {
  e_onlyLocal : bool;
  e_onlyAvailable : bool;
  e_skipInternal : bool;
  withEndpoints : bool
}.

Record endpoint_item := EndpointEntry { ep_nodeID : string; ep_state : bool; ep_available : bool }.

Record list_item := ListItem {
  l_name : string;
  l_group : option string; (* entries of events only *)
  l_count : nat;
  l_hasLocal : bool;
  l_available : bool;
  l_data : option Endpoint.payload;
  l_endpoints : option (list endpoint_item)
}.

(** [_.omit(ep.action, ["handler", "remoteHandler", "service"])] *)
Definition omit_payload (d : Endpoint.payload) : Endpoint.payload :=
  match d with
  | Endpoint.EpAction a => Endpoint.EpAction (LocalInfo.omit_action a)
  | Endpoint.EpEvent e => Endpoint.EpEvent (LocalInfo.omit_event e)
  end.

Definition endpoint_entry (r : reg) (e : ref) : endpoint_item :=
  let e := ep_of (st r) e in EndpointEntry (node_id r (Endpoint.node e)) (Endpoint.state e) (node_available r (Endpoint.node e)).

(** The entry of a list with the name [key] *)
Definition entry (o : endpoint_options) (r : reg) (key : string) (l : EndpointList.t S) : list_item :=
  ListItem key (EndpointList.group l) (EndpointList.count l) (EndpointList.hasLocal l) (EndpointList.hasAvailable (st r) l)
    (match EndpointList.endpoints l with e :: _ => Some (omit_payload (Endpoint.data (ep_of (st r) e))) | [] => None end)
    (if withEndpoints o && (0 <? EndpointList.count l)%nat then Some (map (endpoint_entry r) (EndpointList.endpoints l)) else None).

Definition list_admitted (o : endpoint_options) (r : reg) (key : string) (l : EndpointList.t S) : bool :=
  negb (e_skipInternal o && EndpointList.is_internal key) && negb (e_onlyLocal o && negb (EndpointList.hasLocal l)) &&
  negb (e_onlyAvailable o && negb (EndpointList.hasAvailable (st r) l)).

Definition is_protected (i : list_item) : bool :=
  match l_data i with Some (Endpoint.EpAction a) => a_protected a | _ => false end.

(** [actions.list(opts)], [getActionList(opts)] *)
Definition getActionList (o : endpoint_options) (r : reg) : list list_item :=
  omap (λ '(key, l), if list_admitted o r key l then
                       let i := entry o r key l in if is_protected i then None else Some i
                     else None) (actions r).

(** [events.list(opts)], [getEventList(opts)] *)
Definition getEventList (o : endpoint_options) (r : reg) : list list_item :=
  omap (λ l, if list_admitted o r (EndpointList.name l) l then Some (entry o r (EndpointList.name l) l) else None) (events r).

End services.

End Listing.

Import Listing.

(** ** Grouped services *)

Section grouped.
Context {S : Type} `{Strategy S} (o : service_options) (r : registry S).

(** A name is an action that a service shows. *)
Definition shows (s : ServiceItem.t) (name : string) : Prop :=
  ∃ k a, (k, a) ∈ ServiceItem.actions s ∧ a_protected a = false ∧ a_name a = name.
(** A name is an event that a service shows. *)
Definition handles (s : ServiceItem.t) (name : string) : Prop :=
  ∃ k e, (k, e) ∈ ServiceItem.events s ∧ EndpointList.is_internal (ev_name e) = false ∧ ev_name e = name.

(** What an entry says of the services [l] *)
Record describes (l : list ServiceItem.t) (e : service_item) : Prop := {
  de_nodes : ∃ ids, s_place e = Nodes ids ∧ NoDup ids ∧
    ∀ id, id ∈ ids ↔ ∃ s, s ∈ l ∧ ServiceItem.fullName s = s_fullName e ∧ node_id r (ServiceItem.node s) = id;
  de_actions : if withActions o then ∃ m, s_actions e = Some m ∧
      ∀ name, name ∈ OMap.keys m ↔ ∃ s, s ∈ l ∧ ServiceItem.fullName s = s_fullName e ∧ shows s name
    else s_actions e = None;
  de_events : if withEvents o then ∃ m, s_events e = Some m ∧
      ∀ name, name ∈ OMap.keys m ↔ ∃ s, s ∈ l ∧ ServiceItem.fullName s = s_fullName e ∧ handles s name
    else s_events e = None
}.

Lemma keys_set {V} k (v : V) m j : j ∈ OMap.keys (OMap.set k v m) ↔ j = k ∨ j ∈ OMap.keys m.
Proof.
  destruct (decide (k ∈ OMap.keys m)) as [Hk|Hk].
  - rewrite OMap.keys_set_in by done. split; [auto|]. by intros [->|?].
  - rewrite OMap.keys_set_notin, elem_of_app, list_elem_of_singleton by done. tauto.
Qed.

(** Adding definitions that are not skipped to what is there *)
Lemma keys_added {A} (skip : A → bool) (name : A → string) (omit : A → A) (l : list (string * A)) (m : OMap.t A) j :
  j ∈ OMap.keys (foldl (λ m '(_, a), if skip a || OMap.has (name a) m then m else OMap.set (name a) (omit a) m) m l) ↔
  j ∈ OMap.keys m ∨ ∃ k a, (k, a) ∈ l ∧ skip a = false ∧ name a = j.
Proof.
  revert m. induction l as [|[k a] l IH]; intros m; simpl; [split; [by left|intros [?|(? & ? & ?%elem_of_nil & _)]; done]|].
  rewrite IH. destruct (skip a) eqn:Hs; simpl.
  - split; [intros [?|(k' & a' & ? & ?)]; [by left|right; exists k', a'; split; [by right|done]]|].
    intros [?|(k' & a' & [[= -> ->]|?]%elem_of_cons & ? & ?)]; [by left|congruence|right; eauto].
  - assert ((j ∈ OMap.keys (if OMap.has (name a) m then m else OMap.set (name a) (omit a) m)) ↔ j ∈ OMap.keys m ∨ name a = j) as ->.
    { unfold OMap.has. destruct (OMap.get (name a) m) eqn:Hg; [|rewrite keys_set; naive_solver].
      split; [by left|]. intros [?| <-]; [done|]. apply OMap.get_Some_elem in Hg. apply list_elem_of_fmap. by eexists (_, _). }
    split.
    + intros [[?|?]|(k' & a' & ? & ?)]; [by left|right; exists k, a; split; [by left|done]|right; exists k', a'; split; [by right|done]].
    + intros [?|(k' & a' & [[= -> ->]|?]%elem_of_cons & ? & ?)]; [by left; left|by left; right|right; eauto].
Qed.

(** The same for a new entry, where later definitions replace earlier ones *)
Lemma keys_new {A} (skip : A → bool) (name : A → string) (omit : A → A) (l : list (string * A)) (m : OMap.t A) j :
  j ∈ OMap.keys (foldl (λ m '(_, a), if skip a then m else OMap.set (name a) (omit a) m) m l) ↔
  j ∈ OMap.keys m ∨ ∃ k a, (k, a) ∈ l ∧ skip a = false ∧ name a = j.
Proof.
  revert m. induction l as [|[k a] l IH]; intros m; simpl; [split; [by left|intros [?|(? & ? & ?%elem_of_nil & _)]; done]|].
  rewrite IH. destruct (skip a) eqn:Hs.
  - split; [intros [?|(k' & a' & ? & ?)]; [by left|right; exists k', a'; split; [by right|done]]|].
    intros [?|(k' & a' & [[= -> ->]|?]%elem_of_cons & ? & ?)]; [by left|congruence|right; eauto].
  - rewrite keys_set. split.
    + intros [[->|?]|(k' & a' & ? & ?)]; [right; exists k, a; split; [by left|done]|by left|right; exists k', a'; split; [by right|done]].
    + intros [?|(k' & a' & [[= -> ->]|?]%elem_of_cons & ? & ?)]; [by left; right|left; by left|right; eauto].
Qed.

(** A list with one entry for each name, that describes the services *)
Record summary (l : list ServiceItem.t) (res : list service_item) : Prop := {
  su_names : NoDup (map s_fullName res);
  su_all n : n ∈ map s_fullName res ↔ n ∈ map ServiceItem.fullName l;
  su_entries e : e ∈ res → describes l e
}.

Lemma describes_other l s e : describes l e → ServiceItem.fullName s ≠ s_fullName e → describes (l ++ [s]) e.
Proof.
  intros [(ids & H1 & H2 & H3) Ha He] Hs.
  assert (∀ P : ServiceItem.t → Prop, (∃ s', s' ∈ l ∧ ServiceItem.fullName s' = s_fullName e ∧ P s') ↔
    (∃ s', s' ∈ l ++ [s] ∧ ServiceItem.fullName s' = s_fullName e ∧ P s')) as Hl.
  { intros P. split; intros (s' & Hin & E & HP); exists s'; [split; [apply elem_of_app; by left|done]|].
    apply elem_of_app in Hin as [?| ->%list_elem_of_singleton]; [done|congruence]. }
  constructor.
  - exists ids. split_and!; [done|done|]. intros id. by rewrite H3, Hl.
  - destruct (withActions o); [|done]. destruct Ha as (m & Hm & Hk). exists m. split; [done|]. intros name. by rewrite Hk, Hl.
  - destruct (withEvents o); [|done]. destruct He as (m & Hm & Hk). exists m. split; [done|]. intros name. by rewrite Hk, Hl.
Qed.

Lemma snoc_exists (l : list ServiceItem.t) s n (P : ServiceItem.t → Prop) : ServiceItem.fullName s = n →
  (∃ s', s' ∈ l ++ [s] ∧ ServiceItem.fullName s' = n ∧ P s') ↔ (∃ s', s' ∈ l ∧ ServiceItem.fullName s' = n ∧ P s') ∨ P s.
Proof.
  intros Hn. split.
  - intros (s' & [Hin| ->%list_elem_of_singleton]%elem_of_app & E & HP); [left; eauto|by right].
  - intros [(s' & ? & ? & ?)|HP]; [exists s'|exists s]; rewrite elem_of_app, list_elem_of_singleton; auto.
Qed.

Lemma describes_merged l s e : describes l e → ServiceItem.fullName s = s_fullName e → describes (l ++ [s]) (merge_entry r s e).
Proof.
  intros [(ids & H1 & H2 & H3) Ha He] Hs. constructor; simpl.
  - rewrite H1. simpl. set (id0 := node_id r (ServiceItem.node s)). destruct (existsb (String.eqb id0) ids) eqn:Hex.
    + apply existsb_exists in Hex as (i & Hi & E). apply String.eqb_eq in E as <-. apply list_elem_of_In in Hi.
      exists ids. split_and!; [done|done|]. intros id. rewrite snoc_exists, H3 by done. split; [by left|].
      intros [?|E]; [done|]. apply H3. subst id. done.
    + exists (ids ++ [id0]). split_and!; [done| |].
      * apply list.NoDup_app. split_and!; [done| |apply NoDup_singleton]. intros i Hi ->%list_elem_of_singleton.
        apply not_true_iff_false in Hex. apply Hex, existsb_exists. exists id0. split; [by apply list_elem_of_In|apply String.eqb_refl].
      * intros id. rewrite snoc_exists, elem_of_app, H3, list_elem_of_singleton by done. split; (intros [?|E]; [by left|by right]).
  - destruct (withActions o); [|by rewrite Ha]. destruct Ha as (m & -> & Hk). eexists. split; [done|]. intros name.
    unfold merge_actions. rewrite (keys_added a_protected a_name), Hk, snoc_exists by done. done.
  - destruct (withEvents o); [|by rewrite He]. destruct He as (m & -> & Hk). eexists. split; [done|]. intros name.
    unfold merge_events. rewrite (keys_added (λ e, EndpointList.is_internal (ev_name e)) ev_name), Hk, snoc_exists by done. done.
Qed.

Lemma describes_new l s : grouping o = true → (∀ s', s' ∈ l → ServiceItem.fullName s' ≠ ServiceItem.fullName s) →
  describes (l ++ [s]) (new_entry o r s).
Proof.
  intros Hg Hl. assert (∀ P, ¬ ∃ s', s' ∈ l ∧ ServiceItem.fullName s' = ServiceItem.fullName s ∧ P s') as Hno.
  { intros P (s' & Hin & E & _). by apply (Hl s'). }
  constructor; simpl.
  - rewrite Hg. eexists. split_and!; [done|apply NoDup_singleton|]. intros id. rewrite snoc_exists, list_elem_of_singleton by done.
    split; [intros ->; by right|]. intros [Hs| <-]; [by destruct (Hno _ Hs)|done].
  - destruct (withActions o); [|done]. eexists. split; [done|]. intros name. unfold new_actions.
    rewrite (keys_new a_protected a_name), snoc_exists by done. rewrite elem_of_nil. split; [intros [[]|Hs]; by right|].
    intros [Hs|Hs]; [by destruct (Hno _ Hs)|by right].
  - destruct (withEvents o); [|done]. eexists. split; [done|]. intros name. unfold new_events.
    rewrite (keys_new (λ e, EndpointList.is_internal (ev_name e)) ev_name), snoc_exists by done. rewrite elem_of_nil. split; [intros [[]|Hs]; by right|].
    intros [Hs|Hs]; [by destruct (Hno _ Hs)|by right].
Qed.

Lemma merge_into_spec s res :
  match merge_into r s res with
  | Some res' => ∃ l1 e l2, res = l1 ++ e :: l2 ∧ s_fullName e = ServiceItem.fullName s ∧ res' = l1 ++ merge_entry r s e :: l2
  | None => ServiceItem.fullName s ∉ map s_fullName res
  end.
Proof.
  induction res as [|e res IH]; simpl; [apply not_elem_of_nil|].
  destruct (String.eqb_spec (s_fullName e) (ServiceItem.fullName s)) as [E|E]; [by exists [], e, res|].
  destruct (merge_into r s res) as [res'|]; simpl.
  - destruct IH as (l1 & e' & l2 & -> & E' & ->). by exists (e :: l1), e', l2.
  - rewrite not_elem_of_cons. split; [congruence|done].
Qed.

Lemma summary_step l res s : grouping o = true → summary l res →
  summary (l ++ [s]) (match merge_into r s res with Some res => res | None => res ++ [new_entry o r s] end).
Proof.
  intros Hg [H1 H2 H3]. pose proof (merge_into_spec s res) as Hm. destruct (merge_into r s res) as [res'|].
  - destruct Hm as (l1 & e & l2 & -> & E & ->).
    assert (map s_fullName (l1 ++ merge_entry r s e :: l2) = map s_fullName (l1 ++ e :: l2)) as Hmap by (rewrite !map_app; done).
    constructor.
    + by rewrite Hmap.
    + intros n. rewrite Hmap, H2, map_app, elem_of_app. split; [by left|]. intros [?|Hn]; [done|].
      apply list_elem_of_singleton in Hn as ->. apply H2. rewrite <- E, map_app, elem_of_app. right. by left.
    + rewrite map_app in H1. simpl in H1. apply list.NoDup_app in H1 as (N1 & N2 & N3). apply list.NoDup_cons in N3 as [N3 _].
      intros x Hx. apply elem_of_app in Hx as [Hx|[->|Hx]%elem_of_cons].
      * apply describes_other; [apply H3, elem_of_app; by left|]. intros Ex. apply (N2 (s_fullName x)); [by apply list_elem_of_fmap_2|].
        rewrite <- Ex, <- E. by left.
      * apply describes_merged; [apply H3, elem_of_app; right; by left|done].
      * apply describes_other; [apply H3, elem_of_app; right; by right|]. intros Ex. apply N3. rewrite E, Ex. by apply list_elem_of_fmap_2.
  - assert (∀ s', s' ∈ l → ServiceItem.fullName s' ≠ ServiceItem.fullName s) as Hnew.
    { intros s' Hs' E. apply Hm, H2. rewrite <- E. by apply list_elem_of_fmap_2. }
    constructor.
    + rewrite map_app. apply list.NoDup_app. split_and!; [done| |apply NoDup_singleton]. intros n Hn ->%list_elem_of_singleton. done.
    + intros n. by rewrite !map_app, !elem_of_app, H2.
    + intros x [Hx| ->%list_elem_of_singleton]%elem_of_app; [|by apply describes_new].
      apply describes_other; [by apply H3|]. intros Ex. apply Hm. rewrite Ex. by apply list_elem_of_fmap_2.
Qed.

Lemma list_summary (l : list ref) : grouping o = true →
  summary (Arr.filter (admitted o r) (map (svc_of (st r)) l)) (foldl (list_service o r) [] l).
Proof.
  intros Hg. induction l as [|s l IH] using rev_ind.
  - constructor; simpl; [constructor|done|]. intros e He. by apply elem_of_nil in He.
  - rewrite foldl_snoc, map_app, Arr.filter_app. unfold list_service at 1. simpl.
    destruct (admitted o r (svc_of (st r) s)); [|by rewrite app_nil_r].
    rewrite Hg. by apply summary_step.
Qed.

End grouped.

(** C25. With [grouping], the list of services, which the API gateway builds its routes
    from, has one entry for each full name among the services that the options admit; an
    entry names each node that has the service once and no other node, and shows the
    union of their actions and events, less protected actions and internal events. *)
Theorem services_grouped {S} `{Strategy S} (o : service_options) (r : registry S) :
  grouping o = true →
  let l := Arr.filter (admitted o r) (map (svc_of (st r)) (services r)) in
  let res := getServiceList o r in
  NoDup (map s_fullName res) ∧
  (∀ n, n ∈ map s_fullName res ↔ n ∈ map ServiceItem.fullName l) ∧
  (∀ e, e ∈ res → describes o r l e).
Proof. intros Hg l res. by destruct (list_summary o r (services r) Hg). Qed.

(** Without, each service has an entry of its own, in the order of registration. *)
Theorem services_ungrouped {S} `{Strategy S} (o : service_options) (r : registry S) : grouping o = false →
  getServiceList o r = map (new_entry o r) (Arr.filter (admitted o r) (map (svc_of (st r)) (services r))).
Proof.
  intros Hg. unfold getServiceList. generalize (services r) as l. induction l as [|s l IH] using rev_ind; [done|].
  rewrite foldl_snoc, map_app, Arr.filter_app, map_app, IH. unfold list_service. simpl. rewrite Hg.
  destruct (admitted o r _); simpl; [done|]. by rewrite app_nil_r.
Qed.

(** ** Endpoints *)

(** What an entry shows of a list of endpoints *)
Definition shows_live {S} (r : registry S) (i : list_item) : Prop :=
  ∀ es, l_endpoints i = Some es →
    length es = l_count i ∧ l_available i = existsb ep_state es ∧
    ∀ e, e ∈ es → ep_available e = true ∧ is_Some (OMap.get (ep_nodeID e) (nodes r)).

Lemma entry_live {S} `{Strategy S} o (r : registry S) key l : ok r → l ∈ all_lists r → shows_live r (entry o r key l).
Proof.
  intros Hok Hl es. unfold entry. cbn [l_endpoints l_count l_available]. destruct (withEndpoints o && _); [|done]. intros [= <-].
  split_and!.
  - by rewrite length_map.
  - unfold EndpointList.hasAvailable. clear Hl. induction (EndpointList.endpoints l) as [|e es IH]; [done|]. simpl.
    unfold EndpointList.available at 1, Endpoint.isAvailable. destruct (Endpoint.state (ep_of (st r) e)); [done|]. exact IH.
  - intros e (ep & -> & Hep)%list_elem_of_fmap. destruct (ok_endpoint r l ep Hok Hl Hep) as [_ _ Hk Ho _].
    unfold endpoint_entry. cbn [ep_available ep_nodeID]. split; [done|].
    destruct (inv_lists _ (proj1 Hok) l Hl) as [_ Hin]. destruct (Hin ep Hep) as (_ & _ & Hid & _).
    unfold node_id. rewrite <- Hid, Hk. eauto.
Qed.

(** In every state that the registry can reach, the lists of actions and events count the
    endpoints they show, call an action available when one of them is up, and
    show no endpoint of a node that is unknown or offline. *)
Theorem listed_endpoints {S} `{Strategy S} random regexp new_strategy c i h ips cl md now (r : registry S) o x :
  reachable random regexp new_strategy (create c i h ips cl md now) r →
  x ∈ getActionList o r ++ getEventList o r → shows_live r x.
Proof.
  intros Hr. assert (ok r) as Hok by (eapply ok_reachable; [apply ok_create|done]).
  intros [Hx|Hx]%elem_of_app.
  - unfold getActionList in Hx. apply list_elem_of_omap in Hx as ([k l] & Hin & Hx).
    destruct (list_admitted o r k l); [|done]. destruct (is_protected _); [done|]. injection Hx as <-.
    apply entry_live; [done|]. apply elem_of_app. left. apply elem_of_values. by exists k.
  - unfold getEventList in Hx. apply list_elem_of_omap in Hx as (l & Hin & Hx).
    destruct (list_admitted o r _ l); [|done]. injection Hx as <-. apply entry_live; [done|]. apply elem_of_app. by right.
Qed.

(** ** Witnesses *)

Section sample.

Definition grouped_options : service_options := ServiceOptions false true true true true true.

(** A second node announces the shop, with another event. *)
Definition sample_two : registry RoundRobin.t :=
  processNodeInfo rr (NodeInfo "node-3" (JStr "i3") (Some 1%Z) JNull [] None None JUndef JUndef
    (Some [sample_service "shop" ["user.removed"; "$internal"]])) 6 sample_1.

End sample.

Lemma services_grouped_witness :
  let res := getServiceList grouped_options sample_two in
  NoDup (map s_fullName res) ∧
  map (λ e, (s_fullName e, s_place e, OMap.keys <$> s_events e)) res =
    [("mailer"%string, Nodes ["node-2"%string], Some ["user.created"%string]);
     ("shop"%string, Nodes ["node-2"%string; "node-3"%string], Some ["user.created"%string; "user.removed"%string])].
Proof.
  split; [exact (proj1 (services_grouped grouped_options sample_two eq_refl))|]. vm_compute. reflexivity.
Defined.

Lemma services_ungrouped_witness :
  let o := ServiceOptions false true true true true false in
  length (getServiceList o sample_two) = 3%nat ∧
  getServiceList o sample_two = map (new_entry o sample_two) (Arr.filter (admitted o sample_two) (map (svc_of (st sample_two)) (services sample_two))).
Proof. split; [vm_compute; reflexivity|]. exact (services_ungrouped (ServiceOptions false true true true true false) sample_two eq_refl). Defined.

Lemma listed_endpoints_witness :
  let o := EndpointOptions false false true true in
  map (λ i, (l_name i, l_count i)) (getActionList o sample_1) = [("mailer.list"%string, 1%nat); ("shop.list"%string, 1%nat)] ∧
  ∀ x, x ∈ getActionList o sample_1 ++ getEventList o sample_1 → shows_live sample_1 x.
Proof.
  split; [vm_compute; reflexivity|]. intros x.
  exact (listed_endpoints draw_low no_regexp rr sample_cfg "i0" "host" [] JUndef JUndef 0 sample_1 (EndpointOptions false false true true) x sample_reachable).
Defined.
