(* ===== verification/GossipTheorems.v ===== *)
(** * What gossip guarantees

    Two brokers that exchange a gossip request and its response agree on what they
    know of every third node, sequence numbers never fall, and the information a
    node gives about itself reaches another node whole. *)

From Stdlib Require Import ZArith Lia Bool Ascii.
From stdpp Require Import base tactics list strings option gmap.
From S2P Require Import Prelude Utils Strategies RegistryData EndpointList Registry LocalInfo Gossip Discoverer Routing RegistryInv RegistrySpec GossipInv RegistryTheorems.

Local Open Scope Z_scope.

Section exchange.
Context {S : Type} `{Strategy S}.

Notation reg := (registry S).

(** ** The request *)

Definition online_claim (v : option Node.t) : option (Z * Z * Z) :=
  match v with
  | Some x => if Node.available x then Some (Node.seq x, Gossip.cpuSeq_of x, Gossip.cpu_of x) else None
  | None => None
  end.

Definition offline_claim (v : option Node.t) : option Z :=
  match v with
  | Some x => if negb (Node.available x) && (0 <? Node.seq x) then Some (Node.seq x) else None
  | None => None
  end.

Lemma tell_loop (r : reg) todo p j :
  (∀ n, n ∈ todo → node_id r n ≠ j) →
  let p' := foldl (Gossip.tell_node r) p todo in
  OMap.get j (Gossip.q_online p') = OMap.get j (Gossip.q_online p) ∧
  OMap.get j (Gossip.q_offline p') = OMap.get j (Gossip.q_offline p).
Proof.
  intros Hj. simpl. apply (foldl_invariant (λ p', OMap.get j (Gossip.q_online p') = OMap.get j (Gossip.q_online p) ∧
    OMap.get j (Gossip.q_offline p') = OMap.get j (Gossip.q_offline p))); [done|].
  intros p' n Hn [<- <-]. specialize (Hj n Hn). unfold node_id in Hj. unfold Gossip.tell_node.
  destruct (Node.available _); [|destruct (0 <? _)]; simpl; by rewrite ?OMap.get_set_ne.
Qed.

(** A request claims of each known node what the registry knows of it. *)
Lemma request_of_spec (r : reg) j : ok r →
  OMap.get j (Gossip.q_online (Gossip.request_of r)) = online_claim (view r j) ∧
  OMap.get j (Gossip.q_offline (Gossip.request_of r)) = offline_claim (view r j).
Proof.
  intros [Hi Hl]. unfold Gossip.request_of, Gossip.toArray, view.
  set (p0 := Gossip.Request _ [] []). destruct (OMap.get j (nodes r)) as [n|] eqn:Hg; simpl.
  - assert (n ∈ OMap.values (nodes r)) as Hn by (apply elem_of_values; exists j; by apply OMap.get_Some_elem).
    pose proof (values_nodup r Hi) as Hnd.
    assert (∀ m, m ∈ OMap.values (nodes r) → m ≠ n → node_id r m ≠ j) as Hne.
    { intros m Hm Hmn Heq. apply (known_values _ _ Hi) in Hm. unfold known in Hm. rewrite Heq in Hm. congruence. }
    assert (node_id r n = j) as Hid by by apply OMap.get_Some_elem, (inv_nodes _ Hi) in Hg as [_ Hg].
    apply list_elem_of_split in Hn as (l1 & l2 & Hl12). rewrite Hl12 in *.
    apply NoDup_app in Hnd as (_ & Hd & Hnd). apply NoDup_cons in Hnd as [Hn2 _].
    rewrite foldl_app. cbn [foldl]. set (p1 := foldl _ p0 l1).
    destruct (tell_loop r l1 p0 j) as [H1 H2].
    { intros m Hm. apply Hne; [set_solver|]. intros ->. apply (Hd n Hm). left. }
    destruct (tell_loop r l2 (Gossip.tell_node r p1 n) j) as [-> ->].
    { intros m Hm. apply Hne; [set_solver|]. by intros ->. }
    unfold Gossip.tell_node. unfold node_id in Hid. rewrite Hid. fold p1 in H1, H2.
    destruct (Node.available _); [|destruct (0 <? _)]; simpl; rewrite ?OMap.get_set_eq, ?H1, ?H2; done.
  - destruct (tell_loop r (OMap.values (nodes r)) p0 j) as [-> ->]; [|done].
    intros n Hn Heq. apply (known_values _ _ Hi) in Hn. unfold known in Hn. congruence.
Qed.


(** The claim of a request, in the terms of what its sender knows *)
Definition claim_of (v : option Node.t) : Z :=
  match v with
  | Some x => if Node.available x then Node.seq x else if 0 <? Node.seq x then Node.seq x else 0
  | None => 0
  end.

Lemma claim_request (r : reg) j : ok r →
  claim (Gossip.request_of r) j = claim_of (view r j) ∧
  claim_offline (Gossip.request_of r) j = offline_claim (view r j).
Proof.
  intros Hok. destruct (request_of_spec r j Hok) as [H1 H2].
  assert (claim_offline (Gossip.request_of r) j = offline_claim (view r j)) as Hoff.
  { unfold claim_offline. rewrite H2. unfold offline_claim. destruct (view r j) as [x|]; [|done].
    destruct (_ && _) eqn:Hb; [|done]. apply andb_prop in Hb as [_ Hb%Z.ltb_lt].
    destruct (Z.eqb_spec (Node.seq x) 0); [lia|done]. }
  split; [|done]. unfold claim. rewrite Hoff, H1. unfold claim_of, offline_claim, online_claim.
  destruct (view r j) as [x|]; [|done]. destruct (Node.available x); simpl; [done|]. by destruct (0 <? Node.seq x).
Qed.

(** ** Sequence numbers *)

Lemma told_seq id i now x q :
  i_seq i = Some q → Node.seq x < q → Node.seq x ≤ Node.seq (told (LocalInfo.with_sender id i) now (Some x)).
Proof.
  intros Hq Hlt. unfold told, Node.update. simpl. rewrite Hq. unfold num_or.
  destruct (Node.available x); simpl; repeat (split_match; simpl); try lia;
    repeat match goal with H : (_, _) = (_, _) |- _ => injection H as <- <- end; simpl; repeat split_match; lia.
Qed.

Lemma learn_seq p now id x : ∃ x', learn p now id (Some x) = Some x' ∧ Node.seq x ≤ Node.seq x'.
Proof.
  assert (∀ rw x, ∃ x', learn_row id rw now (Some x) = Some x' ∧ Node.seq x ≤ Node.seq x') as Hrow.
  { intros rw y. unfold learn_row.
    match goal with |- context [match ?v with Some _ => match row_cpu rw with _ => _ end | None => _ end] => set (v1 := v) end.
    assert (∃ z, v1 = Some z ∧ Node.seq y ≤ Node.seq z) as (z & -> & Hz).
    { unfold v1. destruct (row_info rw) as [i|]; [|by exists y].
      destruct (i_seq i) as [q|] eqn:Hq; [|by exists y]. destruct (Z.ltb_spec (Node.seq y) q); [|by exists y].
      eexists. split; [done|]. by eapply told_seq. }
    destruct (row_cpu rw) as [[q c]|]; [|by exists z]. destruct (_ && _); [|by exists z].
    by eexists. }
  assert (∀ q x, ∃ x', learn_gone q now (Some x) = Some x' ∧ Node.seq x ≤ Node.seq x') as Hgone.
  { intros q y. unfold learn_gone. destruct (Z.ltb_spec (Node.seq y) q); [|by exists y].
    eexists. split; [done|]. simpl. lia. }
  unfold learn. destruct (OMap.get id (Gossip.s_online p)) as [rw|].
  - destruct (Hrow rw x) as (y & -> & Hy). destruct (OMap.get id (Gossip.s_offline p)) as [q|]; [|by exists y].
    destruct (Hgone q y) as (z & -> & Hz). exists z. split; [done|lia].
  - destruct (OMap.get id (Gossip.s_offline p)) as [q|]; [apply Hgone|by exists x].
Qed.

(** The node keeps the INFO it was told, and is online. *)
Lemma told_info p now v :
  Node.available (told p now v) = true ∧ Node.rawInfo (told p now v) = Some p.
Proof.
  unfold told. destruct v as [x|]; [destruct (Node.available x) eqn:Hav|];
    match goal with |- context [Node.update ?p ?b ?y] => destruct (Node.update p b y) as [x' need] eqn:Hup end;
    unfold Node.update in Hup; injection Hup as <- _; destruct (i_services p), need; simpl; done.
Qed.

End exchange.

(** Gossip acts pointwise: what a request makes of a remote node, and what the
    response says about it, depends only on what was known of that node and on the
    claims about it; what a response makes of a node depends only on its entries for
    it, and the broker's own node is never touched by a response. *)
Theorem gossip_pointwise {S} `{Strategy S} random regexp new_strategy c i h ips cl md now0 (r : registry S) now :
  reachable random regexp new_strategy (create c i h ips cl md now0) r →
  (∀ p j x, view r j = Some x → Node.local x = false →
     let '(r', sent) := Gossip.processGossipRequest p now r in
     view r' j = Some (answer p now x).1 ∧
     ∀ to s, sent = Some (to, s) → to = Gossip.q_sender p ∧
       (OMap.get j (Gossip.s_online s), OMap.get j (Gossip.s_offline s)) =
       match (answer p now x).2 with
       | Some (inl row) => (Some row, None) | Some (inr q) => (None, Some q) | None => (None, None)
       end) ∧
  (∀ p j, OMap.wf (Gossip.s_online p) → OMap.wf (Gossip.s_offline p) →
     ""%string ∉ OMap.keys (Gossip.s_online p) → ""%string ∉ OMap.keys (Gossip.s_offline p) →
     view (Gossip.processGossipResponse new_strategy p now r) j =
       if String.eqb j (nodeID (cfg r)) then view r j else learn p now j (view r j)).
Proof.
  intros Hr. assert (ok r) as Hok by (eapply ok_reachable; [apply ok_create|done]). split.
  - intros p j x Hx Hloc. pose proof (processGossipRequest_spec p now r Hok) as Hs.
    destruct (Gossip.processGossipRequest p now r) as [r' sent]. destruct Hs as (_ & _ & _ & _ & Hto & Hs).
    destruct (Hs j x Hx Hloc) as [Hv He]. split; [done|]. intros to s Heq.
    destruct (Hto to s Heq) as [-> _]. split; [done|]. by apply (He (Gossip.q_sender p)).
  - intros p j Hw1 Hw2 He1 He2. by apply processGossipResponse_spec.
Qed.

(** Gossip never forgets a node and never lowers its sequence number, whatever the
    messages claim. *)
Theorem gossip_seq_monotone {S} `{Strategy S} random regexp new_strategy c i h ips cl md now0 (r : registry S) now j x :
  reachable random regexp new_strategy (create c i h ips cl md now0) r →
  view r j = Some x →
  (∀ p, ∃ x', view (Gossip.processGossipRequest p now r).1 j = Some x' ∧ Node.seq x ≤ Node.seq x') ∧
  (∀ p, OMap.wf (Gossip.s_online p) → OMap.wf (Gossip.s_offline p) →
     ""%string ∉ OMap.keys (Gossip.s_online p) → ""%string ∉ OMap.keys (Gossip.s_offline p) →
     ∃ x', view (Gossip.processGossipResponse new_strategy p now r) j = Some x' ∧ Node.seq x ≤ Node.seq x').
Proof.
  intros Hr Hx. assert (ok r) as Hok by (eapply ok_reachable; [apply ok_create|done]). split.
  - intros p. pose proof (processGossipRequest_spec p now r Hok) as Hs.
    destruct (Gossip.processGossipRequest p now r). destruct Hs as (_ & _ & _ & Hs & _). by apply Hs.
  - intros p Hw1 Hw2 He1 He2.
    destruct (processGossipResponse_spec new_strategy p now r Hok Hw1 Hw2 He1 He2) as (_ & _ & Hv).
    rewrite Hv, Hx. destruct (String.eqb _ _); [by exists x|]. apply learn_seq.
Qed.

(** What the two sides of an exchange make of a third node [j], as functions of what
    they knew of it *)
Lemma exchange_views {S} `{Strategy S} random regexp ns ca ia ha ipa cla mda ta cb ib hb ipb clb mdb tb
    (a b : registry S) now now' j xb to s b' :
  reachable random regexp ns (create ca ia ha ipa cla mda ta) a →
  reachable random regexp ns (create cb ib hb ipb clb mdb tb) b →
  view b j = Some xb → Node.local xb = false → view b "" = None → j ≠ nodeID (cfg a) →
  Gossip.processGossipRequest (Gossip.request_of a) now b = (b', Some (to, s)) →
  let p := Gossip.request_of a in let a' := Gossip.processGossipResponse ns s now' a in
  to = nodeID (cfg a) ∧ Node.id xb = j ∧
  view a' j = learn s now' j (view a j) ∧ view b' j = Some (answer p now xb).1 ∧
  (OMap.get j (Gossip.s_online s), OMap.get j (Gossip.s_offline s)) =
    match (answer p now xb).2 with Some (inl row) => (Some row, None) | Some (inr q) => (None, Some q) | None => (None, None) end ∧
  claim p j = claim_of (view a j) ∧ claim_offline p j = offline_claim (view a j) ∧ OMap.get j (Gossip.q_online p) = online_claim (view a j).
Proof.
  intros Hra Hrb Hxb Hloc Hemp Hj Hreq. cbv zeta. set (a' := Gossip.processGossipResponse ns s now' a).
  assert (ok a) as Hoka by (eapply ok_reachable; [apply ok_create|done]).
  assert (ok b) as Hokb by (eapply ok_reachable; [apply ok_create|done]).
  pose proof (processGossipRequest_spec (Gossip.request_of a) now b Hokb) as Hs. rewrite Hreq in Hs.
  destruct Hs as (_ & _ & _ & _ & Hto & Hs).
  destruct (Hto to s eq_refl) as [-> (Hw1 & Hw2 & Hk1 & Hk2)]. destruct (Hs j xb Hxb Hloc) as [Hb' He].
  specialize (He _ s eq_refl). clear Hs Hto Hreq.
  assert (∀ ks : list string, (∀ k, k ∈ ks → is_Some (view b k)) → ""%string ∉ ks) as Hne.
  { intros ks Hk Hin. apply Hk in Hin. rewrite Hemp in Hin. by destruct Hin. }
  destruct (processGossipResponse_spec ns s now' a Hoka Hw1 Hw2 (Hne _ Hk1) (Hne _ Hk2)) as (_ & _ & Hv).
  assert (view a' j = learn s now' j (view a j)) as Ha'.
  { unfold a'. rewrite Hv. apply String.eqb_neq in Hj. by rewrite Hj. }
  assert (Gossip.q_sender (Gossip.request_of a) = nodeID (cfg a)) as Hsender.
  { unfold Gossip.request_of. apply (foldl_invariant (λ p, Gossip.q_sender p = nodeID (cfg a))); [done|].
    intros p n _ <-. unfold Gossip.tell_node. by repeat split_match. }
  assert (Node.id xb = j) as Hidb.
  { unfold view in Hxb. destruct (OMap.get j (nodes b)) as [n|] eqn:Hg; [|done]. injection Hxb as <-.
    by apply OMap.get_Some_elem, (inv_nodes _ (proj1 Hokb)) in Hg as [_ Hg]. }
  destruct (claim_request a j Hoka) as [Hc Hco]. destruct (request_of_spec a j Hoka) as [Hon _].
  by split_and!.
Qed.

(** C6. One exchange settles what two brokers know of a third node.  [a] sends [b] its
    request and processes the response, which [b] sends if it knows [a].  Where [b]
    knows a newer sequence number: a node [b] knows as offline is offline at [a] with
    that number, and a node [b] knows as online, with an INFO newer than [a]'s
    knowledge, is online at [a] with this INFO.  Where [a] knows the node offline
    with a number that is not older, it is offline at [b] with that number.  An
    exchange in which [a] knows at least as much changes no number at [a]. *)
Theorem gossip_exchange {S} `{Strategy S} random regexp ns ca ia ha ipa cla mda ta cb ib hb ipb clb mdb tb
    (a b : registry S) now now' j xb to s b' :
  reachable random regexp ns (create ca ia ha ipa cla mda ta) a →
  reachable random regexp ns (create cb ib hb ipb clb mdb tb) b →
  view b j = Some xb → Node.local xb = false → view b "" = None → j ≠ nodeID (cfg a) →
  Gossip.processGossipRequest (Gossip.request_of a) now b = (b', Some (to, s)) →
  let a' := Gossip.processGossipResponse ns s now' a in
  to = nodeID (cfg a) ∧
  (∀ xa, view a j = Some xa → Node.seq xa < Node.seq xb → Node.available xb = false →
     ∃ x, view a' j = Some x ∧ Node.available x = false ∧ Node.seq x = Node.seq xb) ∧
  (∀ i q, Node.available xb = true → Node.rawInfo xb = Some i → i_seq i = Some q →
     match view a j with Some xa => Node.seq xa < Node.seq xb ∧ Node.seq xa < q | None => True end →
     ∃ x, view a' j = Some x ∧ Node.available x = true ∧ Node.rawInfo x = Some (LocalInfo.with_sender j i)) ∧
  (∀ xa, view a j = Some xa → Node.available xa = false → 0 < Node.seq xa → Node.seq xb ≤ Node.seq xa →
     ∃ x, view b' j = Some x ∧ Node.available x = false ∧ Node.seq x = Node.seq xa) ∧
  (∀ xa, view a j = Some xa → 0 < Node.seq xa → Node.seq xb ≤ Node.seq xa →
     ∃ x, view a' j = Some x ∧ Node.seq x = Node.seq xa).
Proof.
  intros Hra Hrb Hxb Hloc Hemp Hj Hreq a'.
  destruct (exchange_views _ _ _ _ _ _ _ _ _ _ _ _ _ _ _ _ _ a b now now' j xb to s b' Hra Hrb Hxb Hloc Hemp Hj Hreq)
    as (Hsender & Hidb & Ha' & Hb' & He & Hc & Hco & Hon). fold a' in Ha'.
  unfold answer in Hb', He. rewrite Hidb, Hc, Hco, Hon in Hb', He. rewrite Ha'. unfold learn.
  split_and!; [done|..].
  - intros xa Hxa Hlt Hav. rewrite Hxa, Hav in He. rewrite Hxa.
    assert ((claim_of (Some xa) =? 0) || (claim_of (Some xa) <? Node.seq xb) = true) as Hnew.
    { unfold claim_of. destruct (Node.available xa); [|destruct (0 <? Node.seq xa)]; try done; apply orb_true_iff; right; by apply Z.ltb_lt. }
    rewrite Hnew in He. simpl in He. injection He as -> ->. unfold learn_gone. apply Z.ltb_lt in Hlt. rewrite Hlt.
    eexists. split; [done|]. simpl. by destruct (Node.available xa) eqn:?.
  - intros i q Hav Hraw Hq Hnewer. rewrite Hav, Hraw in He.
    assert ((claim_of (view a j) =? 0) || (claim_of (view a j) <? Node.seq xb) = true) as Hnew.
    { unfold claim_of. destruct (view a j) as [xa|]; [|done]. destruct Hnewer as [Hlt _].
      destruct (Node.available xa); [|destruct (0 <? Node.seq xa)]; try done; apply orb_true_iff; right; by apply Z.ltb_lt. }
    rewrite Hnew in He. simpl in He. injection He as -> ->. unfold learn_row. simpl. rewrite Hq.
    assert (match view a j with Some x => Node.seq x <? q | None => true end = true) as ->.
    { destruct (view a j); [|done]. apply Z.ltb_lt, Hnewer. }
    pose proof (told_info (LocalInfo.with_sender j i) now' (view a j)) as [Ht1 Ht2].
    destruct (_ && _); eexists; split_and!; try done.
  - intros xa Hxa Hav Hpos Hle. rewrite Hxa in Hb'. unfold claim_of, offline_claim in Hb'. rewrite Hav in Hb'.
    apply Z.ltb_lt in Hpos as Hpos'. rewrite Hpos' in Hb'. simpl in Hb'.
    rewrite (proj2 (Z.eqb_neq (Node.seq xa) 0)), (proj2 (Z.ltb_ge (Node.seq xa) (Node.seq xb))) in Hb' by lia. simpl in Hb'.
    eexists. split; [exact Hb'|]. by destruct (Node.available xb) eqn:?.
  - intros xa Hxa Hpos Hle. rewrite Hxa in He |- *.
    assert (claim_of (Some xa) = Node.seq xa) as Hca.
    { unfold claim_of. apply Z.ltb_lt in Hpos. rewrite Hpos. by destruct (Node.available xa). }
    rewrite Hca in He. rewrite (proj2 (Z.eqb_neq (Node.seq xa) 0)), (proj2 (Z.ltb_ge (Node.seq xa) (Node.seq xb))) in He by lia. cbn [orb] in He.
    destruct (offline_claim (Some xa)) as [q|]; [injection He as -> ->; by exists xa|].
    destruct (online_claim (Some xa)) as [[[q cs] cp]|]; [|injection He as -> ->; by exists xa].
    destruct (Node.available xb); [|injection He as -> ->; by exists xa]. simpl in He.
    destruct (_ <? cs); [injection He as -> ->; by exists xa|].
    destruct (cs <? _); injection He as -> ->; [|by exists xa]. unfold learn_row. simpl.
    destruct (_ && _); by eexists.
Qed.

(** A CPU entry of a gossip response brings an offline node back online without any
    of its services: unlike a heartbeat packet, which of an offline node only asks for
    its INFO, the entry is applied to whatever is known under the ID.  The node then
    counts as online, nothing of it is registered, and no INFO of the same instance
    registers anything before the node's own sequence number has grown past the one
    the disconnection counted up. *)
Theorem gossip_revives_without_services {S} `{Strategy S} random regexp new_strategy c i h ips cl md now0
    (r : registry S) now now' j x sender q cpu p uid :
  reachable random regexp new_strategy (create c i h ips cl md now0) r →
  j ≠ nodeID (cfg r) → j ≠ ""%string → view r j = Some x → Node.available x = false → Gossip.cpuSeq_of x < q → q ≠ 0 →
  i_sender p = j → Node.instanceID x = JStr uid → i_instanceID p = JStr uid →
  (match i_seq p with Some q' => 0 < q' ≤ Node.seq x | None => False end) →
  let r1 := Gossip.processGossipResponse new_strategy (Gossip.Response sender [(j, Gossip.RowCpu q cpu)] []) now r in
  let r2 := processNodeInfo new_strategy p now' r1 in
  (∃ x1, view r1 j = Some x1 ∧ Node.available x1 = true) ∧
  (∀ s, s ∈ services r1 → node_id r1 (svc_node r1 s) ≠ j) ∧ services r2 = services r1.
Proof.
  intros Hr Hj Hne Hx Hav Hq Hq0 Hsender Hu Hui Hseq r1 r2.
  assert (ok r) as Hok by (eapply ok_reachable; [apply ok_create|done]). pose proof (proj1 Hok) as Hi.
  unfold view in Hx. destruct (OMap.get j (nodes r)) as [n|] eqn:Hg; [|done]. injection Hx as Hx.
  assert (r1 = Gossip.upd (Node.heartbeat (Some cpu) (Some q) now) n r) as Hr1.
  { unfold r1, Gossip.processGossipResponse. cbn [foldl Gossip.s_online Gossip.s_offline]. unfold Gossip.learn_online.
    apply String.eqb_neq in Hj. rewrite Hj, Hg, Hx. apply Z.ltb_lt in Hq. rewrite Hq.
    by rewrite (proj2 (Z.eqb_neq q 0)). }
  assert (node_id r n = j) as Hid by by apply OMap.get_Some_elem, (inv_nodes _ Hi) in Hg as [_ Hid].
  assert (ok r1) as Hok1 by (rewrite Hr1; by apply upd_good).
  assert (view r1 j = Some (Node.heartbeat (Some cpu) (Some q) now x)) as Hv1.
  { rewrite Hr1, <- Hx. by apply view_upd_eq. }
  split_and!; [by eexists| |].
  - intros s Hs Heq. rewrite Hr1 in Hs, Heq. unfold node_id, Gossip.upd in Heq. simpl in Heq.
    rewrite (node_of_upd_proj Node.id) in Heq by done. change (node_id r (svc_node r s) = j) in Heq.
    destruct (live_svcs _ (proj2 Hok) s Hs) as [Hgs Hal]. rewrite Heq, Hg in Hgs. injection Hgs as Hgs.
    rewrite <- Hgs, Hx in Hal. congruence.
  - destruct (processNodeInfo_spec new_strategy p now' r1 Hok1) as (_ & _ & m & _ & _ & Heff); [congruence|].
    fold r2 in Heff. unfold news_effect in Heff. destruct (i_services p); [|done].
    assert (is_news p r1 = false) as Hn; [|by rewrite Hn in Heff].
    unfold is_news. rewrite Hsender. unfold view in Hv1.
    destruct (OMap.get j (nodes r1)) as [m'|]; [|done]. injection Hv1 as ->. simpl. rewrite Hui, Hu.
    unfold num_or. destruct (i_seq p) as [q'|]; [|done]. rewrite (proj2 (Z.eqb_neq q' 0)) by lia.
    rewrite (proj2 (Z.ltb_ge (Node.seq x) q')) by lia. simpl. by rewrite String.eqb_refl.
Qed.

(** ** What a node says about itself *)

Lemma full_name_local s : ServiceItem.fullName s ≠ ""%string → full_name (LocalInfo.local_item s) = ServiceItem.fullName s.
Proof. intros Hne. unfold full_name. simpl. apply String.eqb_neq in Hne. by rewrite Hne. Qed.

(** The info a started broker gives about itself arrives whole: a broker that takes
    it as news has of the announcing node exactly the announcer's local services,
    under their full names, and the node online under the announcer's ID. *)
Theorem local_info_round_trip {S} `{Strategy S} random regexp ns cb ib hb ipb clb mdb tb (a b : registry S) t :
  reachable random regexp ns (create cb ib hb ipb clb mdb tb) b →
  started (cfg a) = true → nodeID (cfg a) ≠ ""%string →
  (∀ s, s ∈ services a → svc_name a s ≠ ""%string) →
  let '(info, a') := LocalInfo.getLocalNodeInfo true a in
  let p := LocalInfo.with_sender (nodeID (cfg a)) info in
  let b' := processNodeInfo ns p t b in
  is_news p b = true →
  ∃ n, OMap.get (nodeID (cfg a)) (nodes b') = Some n ∧ Node.available (node_of (st b') n) = true ∧
  ∀ fn, (∃ s, s ∈ services b' ∧ svc_node b' s = n ∧ svc_name b' s = fn) ↔
        (∃ s, s ∈ services a ∧ ServiceItem.local (svc_of (st a) s) = true ∧ svc_name a s = fn).
Proof.
  intros Hr Hst Hne Hnames. assert (ok b) as Hok by (eapply ok_reachable; [apply ok_create|done]).
  destruct (LocalInfo.getLocalNodeInfo true a) as [info a'] eqn:Hinfo.
  assert (i_services info = Some (LocalInfo.getLocalNodeServices a)) as Hsv.
  { unfold LocalInfo.getLocalNodeInfo, LocalInfo.regenerateLocalRawInfo in Hinfo. simpl in Hinfo.
    destruct (invalidated a); simpl in Hinfo; rewrite Hst in Hinfo; simpl in Hinfo; by injection Hinfo as <- _. }
  intros p b' Hnews. destruct (processNodeInfo_spec ns p t b Hok Hne) as (_ & _ & n & Hg & Hav & Heff).
  fold b' in Hg, Hav, Heff. exists n. split_and!; [done..|]. intros fn. unfold news_effect in Heff.
  unfold p in Heff. simpl in Heff. rewrite Hsv in Heff. fold p in Heff. rewrite Hnews in Heff.
  destruct Heff as [Heff _]. unfold provides in Heff. rewrite Heff. clear Heff.
  unfold LocalInfo.getLocalNodeServices. rewrite map_map. unfold svc_name in *. rewrite list_elem_of_fmap. split.
  - intros (s & -> & Hs). apply Arr.elem_of_filter in Hs as [Hs Hl]. exists s. split_and!; [done..|].
    symmetry. apply full_name_local. by apply Hnames.
  - intros (s & Hs & Hl & <-). exists s. split; [|by apply Arr.elem_of_filter].
    symmetry. apply full_name_local. by apply Hnames.
Qed.

(** ** Samples *)

(** [node-2] goes away, which [node-1] notices. *)
Definition sample_gone : registry RoundRobin.t := Discoverer.remoteNodeDisconnected "node-2" true 9 sample_1.

Lemma sample_gone_reachable : reachable draw_low no_regexp rr sample_0 sample_gone.
Proof.
  refine (reach_step _ _ _ _ _ _ sample_reachable (step_disconnected _ _ _ "node-2"%string true 9 sample_1 _)).
  vm_compute. discriminate.
Qed.

(** Another broker, [node-3], which knows [node-1] and an older state of [node-2]. *)
Definition other_0 : registry RoundRobin.t :=
  create (BrokerCfg "node-3" true false true true) "i3" "host3" [] JUndef JUndef 0.
Definition other_1 : registry RoundRobin.t :=
  Gossip.onUdpMessage "node-1" "10.0.0.1" None 1
    (processNodeInfo rr (sample_info 1 [sample_service "mailer" []]) 5 other_0).

Lemma other_reachable : reachable draw_low no_regexp rr other_0 other_1.
Proof.
  refine (reach_step _ _ _ _ _ _ (reach_step _ _ _ _ _ _ (reach_init _ _ _ _) _) (step_udp _ _ _ _ _ _ _ _)).
  by apply step_info.
Qed.

Lemma gossip_pointwise_witness :
  let p := Gossip.request_of other_1 in
  let '(r', sent) := Gossip.processGossipRequest p 7 sample_gone in
  ∃ x, view sample_gone "node-2" = Some x ∧ view r' "node-2" = Some (answer p 7 x).1.
Proof.
  pose proof (gossip_pointwise draw_low no_regexp rr sample_cfg "i0" "host" [] JUndef JUndef 0 sample_gone 7
    sample_gone_reachable) as [Hp _].
  destruct (view sample_gone "node-2") as [x|] eqn:Hx; [|vm_compute in Hx; discriminate].
  assert (Node.local x = false) as Hl by (vm_compute in Hx; by injection Hx as <-).
  specialize (Hp (Gossip.request_of other_1) "node-2"%string x Hx Hl).
  cbv zeta. destruct (Gossip.processGossipRequest _ _ _) as [r' sent].
  exists x. split; [reflexivity|]. apply Hp.
Defined.

Lemma gossip_seq_monotone_witness :
  ∃ x x', view sample_gone "node-2" = Some x ∧
    view (Gossip.processGossipRequest (Gossip.request_of other_1) 7 sample_gone).1 "node-2" = Some x' ∧
    Node.seq x ≤ Node.seq x'.
Proof.
  destruct (view sample_gone "node-2") as [x|] eqn:Hx; [|vm_compute in Hx; discriminate].
  destruct (gossip_seq_monotone draw_low no_regexp rr sample_cfg "i0" "host" [] JUndef JUndef 0 sample_gone 7
    "node-2"%string x sample_gone_reachable Hx) as [Hp _].
  destruct (Hp (Gossip.request_of other_1)) as (x' & Hx' & Hle). exists x, x'. split; [reflexivity|]. by split.
Defined.

(** [node-3] learns from [node-1] that [node-2] went away. *)
Lemma gossip_exchange_witness :
  ∃ x, view (Gossip.processGossipRequest (Gossip.request_of sample_gone) 7 other_1).1 "node-2" = Some x ∧
       Node.available x = false ∧ Node.seq x = 2.
Proof.
  destruct (view other_1 "node-2") as [xb|] eqn:Hxb; [|vm_compute in Hxb; discriminate].
  destruct (view sample_gone "node-2") as [xa|] eqn:Hxa; [|vm_compute in Hxa; discriminate].
  destruct (Gossip.processGossipRequest (Gossip.request_of sample_gone) 7 other_1) as [b' sent] eqn:Hp.
  destruct sent as [[to s]|]; [|vm_compute in Hp; discriminate].
  assert (Node.local xb = false ∧ Node.seq xb = 1) as [Hl Hsb] by (vm_compute in Hxb; injection Hxb as <-; split; reflexivity).
  assert (Node.available xa = false ∧ Node.seq xa = 2) as [Hav Hsa] by (vm_compute in Hxa; injection Hxa as <-; split; reflexivity).
  assert (view other_1 "" = None) as He by (vm_compute; reflexivity).
  assert ("node-2"%string ≠ nodeID (cfg sample_gone)) as Hj by (vm_compute; discriminate).
  destruct (gossip_exchange draw_low no_regexp rr sample_cfg "i0" "host" [] JUndef JUndef 0
    (BrokerCfg "node-3" true false true true) "i3" "host3" [] JUndef JUndef 0
    sample_gone other_1 7 8 "node-2"%string xb to s b' sample_gone_reachable other_reachable Hxb Hl He Hj Hp)
    as (_ & _ & _ & Hoff & _).
  destruct (Hoff xa Hxa Hav) as (x & H1 & H2 & H3); [lia|lia|].
  exists x. split; [exact H1|]. split; [exact H2|lia].
Defined.

(** A late CPU entry about [node-2], which [node-1] lost. *)
Lemma gossip_revives_without_services_witness :
  let r1 := Gossip.processGossipResponse rr
              (Gossip.Response "node-3" [("node-2"%string, Gossip.RowCpu 4 50)] []) 10 sample_gone in
  (∃ x1, view r1 "node-2" = Some x1 ∧ Node.available x1 = true) ∧
  services (processNodeInfo rr (sample_info 2 [sample_service "mailer" []]) 11 r1) = [].
Proof.
  destruct (view sample_gone "node-2") as [x|] eqn:Hx; [|vm_compute in Hx; discriminate].
  assert (Node.available x = false ∧ Gossip.cpuSeq_of x = 0 ∧ Node.instanceID x = JStr "i1" ∧ Node.seq x = 2)
    as (Hav & Hq' & Hu & Hs') by (vm_compute in Hx; injection Hx as <-; repeat split).
  assert (Gossip.cpuSeq_of x < 4) as Hq by lia. assert (0 < 2 ≤ Node.seq x) as Hs by lia.
  assert ("node-2"%string ≠ nodeID (cfg sample_gone)) as Hj by (vm_compute; discriminate).
  destruct (gossip_revives_without_services draw_low no_regexp rr sample_cfg "i0" "host" [] JUndef JUndef 0 sample_gone
    10 11 "node-2"%string x "node-3"%string 4 50 (sample_info 2 [sample_service "mailer" []]) "i1"%string
    sample_gone_reachable Hj ltac:(discriminate) Hx Hav Hq ltac:(discriminate) eq_refl Hu eq_refl Hs) as (H1 & _ & H3).
  split; [exact H1|]. cbv zeta in H3. rewrite H3. vm_compute. reflexivity.
Defined.

(** [node-2] registers a service and announces itself to [node-1]. *)
Definition announcer : registry RoundRobin.t :=
  registerLocalService rr
    (SvcSchema "mailer" (Some "v2.mailer"%string) (JNum 2) JUndef JUndef None None)
    (create (BrokerCfg "node-2" true false true true) "i2" "host2" [] JUndef JUndef 0).

Lemma local_info_round_trip_witness :
  let p := LocalInfo.with_sender "node-2" (LocalInfo.getLocalNodeInfo true announcer).1 in
  ∃ n, Node.available (node_of (st (processNodeInfo rr p 3 sample_0)) n) = true ∧
  ∀ fn, (∃ s, s ∈ services (processNodeInfo rr p 3 sample_0) ∧ svc_node (processNodeInfo rr p 3 sample_0) s = n ∧
              svc_name (processNodeInfo rr p 3 sample_0) s = fn) ↔
        (∃ s, s ∈ services announcer ∧ ServiceItem.local (svc_of (st announcer) s) = true ∧ svc_name announcer s = fn).
Proof.
  assert (∀ s, s ∈ services announcer → svc_name announcer s ≠ ""%string) as Hn.
  { intros s Hs. vm_compute in Hs. apply list_elem_of_singleton in Hs as ->. vm_compute. discriminate. }
  pose proof (local_info_round_trip draw_low no_regexp rr sample_cfg "i0" "host" [] JUndef JUndef 0 announcer sample_0 3
    (reach_init _ _ _ _) eq_refl ltac:(vm_compute; discriminate) Hn) as Hr.
  cbv zeta. destruct (LocalInfo.getLocalNodeInfo true announcer) as [info a'] eqn:Hi. cbv zeta in Hr.
  assert (is_news (LocalInfo.with_sender (nodeID (cfg announcer)) info) sample_0 = true) as Hnews.
  { assert (info = (LocalInfo.getLocalNodeInfo true announcer).1) as -> by by rewrite Hi. vm_compute. reflexivity. }
  destruct (Hr Hnews) as (n & _ & Hav & Hfn). exists n. split; [exact Hav|exact Hfn].
Defined.
