(* ===== verification/CircuitBreaker.v ===== *)
(** * The circuit breaker middleware

    Models [src/middlewares/circuit-breaker.js].  The items of the store are
    objects that timers and callbacks keep alive after [resetStore] dropped
    them, so they live in a table of their own and the store maps endpoint names
    to their references; the state the breaker assigns to endpoint objects and the
    pending timers are tables too.  The failure rate is an exact fraction. *)

From Stdlib Require Import ZArith Lia Bool QArith.
From stdpp Require Import base tactics list strings option gmap.
From S2P Require Import Prelude.

Local Open Scope Z_scope.

Module CircuitBreaker.

Inductive circuit := CIRCUIT_CLOSE | CIRCUIT_HALF_OPEN | CIRCUIT_HALF_OPEN_WAIT | CIRCUIT_OPEN.

#[export] Instance circuit_eq_dec : EqDecision circuit.
Proof. solve_decision. Defined.

Notation ref := positive.

(** The merged options of an action. *)
Record opts := Opts {
  threshold : Q;
  minRequestCount : Z;
  halfOpenTime : Z
}.

Record item := Item {
  ep : ref;
  i_opts : opts;
  count : Z;
  failures : Z;
  state : circuit;
  cbTimer : option ref
}.

(** Events and metrics the breaker publishes, by endpoint. *)
Inductive effect :=
| Opened (ep : ref) (failures count : Z)
| HalfOpened (ep : ref)
| Closed (ep : ref)
| SetOpenedActive (ep : ref) (v : Z)
| SetHalfOpenedActive (ep : ref) (v : Z)
| IncOpenedTotal (ep : ref).

Record world := World {
  store : OMap.t ref;
  items : gmap ref item;
  ep_state : gmap ref bool;
  timers : gmap ref (ref * Z);
  out : list effect
}.

Definition init : world := World [] ∅ ∅ ∅ [].

(** ** Assignments *)

Definition set_store (s : OMap.t ref) (w : world) : world :=
  World s (items w) (ep_state w) (timers w) (out w).
Definition put (i : ref) (x : item) (w : world) : world :=
  World (store w) (<[i := x]> (items w)) (ep_state w) (timers w) (out w).
Definition set_ep (e : ref) (b : bool) (w : world) : world :=
  World (store w) (items w) (<[e := b]> (ep_state w)) (timers w) (out w).
Definition tell (es : list effect) (w : world) : world :=
  World (store w) (items w) (ep_state w) (timers w) (out w ++ es).

Definition with_counts (c f : Z) (x : item) : item := Item (ep x) (i_opts x) c f (state x) (cbTimer x).
Definition with_state (s : circuit) (x : item) : item :=
  Item (ep x) (i_opts x) (count x) (failures x) s (cbTimer x).
Definition with_timer (t : option ref) (x : item) : item :=
  Item (ep x) (i_opts x) (count x) (failures x) (state x) t.

(** [if (item.cbTimer) { clearTimeout(item.cbTimer); item.cbTimer = null; }] *)
Definition clear_timer (i : ref) (x : item) (w : world) : item * world :=
  match cbTimer x with
  | Some t =>
      let x := with_timer None x in
      (x, put i x (World (store w) (items w) (ep_state w) (delete t (timers w)) (out w)))
  | None => (x, w)
  end.

(** [item.cbTimer = setTimeout(() => halfOpen(item, ctx), item.opts.halfOpenTime)] *)
Definition start_timer (i : ref) (x : item) (w : world) : world :=
  let t := fresh (dom (timers w)) in
  put i (with_timer (Some t) x)
    (World (store w) (items w) (ep_state w) (<[t := (i, halfOpenTime (i_opts x))]> (timers w)) (out w)).

(** ** The functions of the middleware *)

(** [resetStore()]: counters of used items are cleared, unused items leave the store. *)
Definition resetStore (w : world) : world :=
  foldl (λ w '(key, i),
    match items w !! i with
    | Some x =>
        if count x =? 0 then set_store (OMap.delete key (store w)) w
        else put i (with_counts 0 0 x) w
    | None => w
    end) w (store w).

(** [getEpState(ep, service, opts)] *)
Definition getEpState (name : string) (e : ref) (o : opts) (w : world) : ref * world :=
  match OMap.get name (store w) with
  | Some i => (i, w)
  | None =>
      let i := fresh (dom (items w)) in
      (i, put i (Item e o 0 0 CIRCUIT_CLOSE None) (set_store (OMap.set name i (store w)) w))
  end.

(** [trip(item, ctx)] *)
Definition trip (i : ref) (x : item) (w : world) : world :=
  if bool_decide (state x = CIRCUIT_OPEN) then w
  else
    let x := with_state CIRCUIT_OPEN x in
    let w := set_ep (ep x) false (put i x w) in
    let '(x, w) := clear_timer i x w in
    tell [Opened (ep x) (failures x) (count x); SetOpenedActive (ep x) 1; IncOpenedTotal (ep x)]
      (start_timer i x w).

(** [halfOpen(item, ctx)] *)
Definition halfOpen (i : ref) (x : item) (w : world) : world :=
  let x := with_state CIRCUIT_HALF_OPEN x in
  let w := set_ep (ep x) true (put i x w) in
  (clear_timer i x
     (tell [HalfOpened (ep x); SetOpenedActive (ep x) 0; SetHalfOpenedActive (ep x) 1] w)).2.

(** [halfOpenWait(item, ctx)] *)
Definition halfOpenWait (i : ref) (x : item) (w : world) : world :=
  let x := with_state CIRCUIT_HALF_OPEN_WAIT x in
  start_timer i x (set_ep (ep x) false (put i x w)).

(** [circuitClose(item, ctx)] *)
Definition circuitClose (i : ref) (x : item) (w : world) : world :=
  let x := with_counts 0 0 (with_state CIRCUIT_CLOSE x) in
  let w := set_ep (ep x) true (put i x w) in
  (clear_timer i x
     (tell [Closed (ep x); SetOpenedActive (ep x) 0; SetHalfOpenedActive (ep x) 0] w)).2.

(** The failure rate reached the threshold. *)
Definition exceeded (x : item) : bool :=
  (minRequestCount (i_opts x) <=? count x) &&
  Qle_bool (threshold (i_opts x)) (failures x # Z.to_pos (count x)).

(** [checkThreshold(item, ctx)] *)
Definition checkThreshold (i : ref) (x : item) (w : world) : world :=
  if exceeded x then trip i x w else w.

(** [failure(item, err, ctx)] *)
Definition failure (i : ref) (x : item) (w : world) : world :=
  let x := with_counts (count x + 1) (failures x + 1) x in
  checkThreshold i x (put i x w).

(** [success(item, ctx)] *)
Definition success (i : ref) (x : item) (w : world) : world :=
  let x := with_counts (count x + 1) (failures x) x in
  let w := put i x w in
  if bool_decide (state x = CIRCUIT_HALF_OPEN_WAIT) then circuitClose i x w
  else checkThreshold i x w.

(** *** The wrapped handler, cut at the points where it waits *)

(** Before the handler is called. *)
Definition request (name : string) (e : ref) (o : opts) (w : world) : world :=
  let '(i, w) := getEpState name e o w in
  match items w !! i with
  | Some x => if bool_decide (state x = CIRCUIT_HALF_OPEN) then halfOpenWait i x w else w
  | None => w
  end.

(** The handler's promise is resolved. *)
Definition resolved (name : string) (e : ref) (o : opts) (w : world) : world :=
  let '(i, w) := getEpState name e o w in
  match items w !! i with Some x => success i x w | None => w end.

(** It is rejected; [counted] when [opts.check] accepts the error and it was created
    on the called node. *)
Definition rejected (name : string) (e : ref) (o : opts) (counted : bool) (w : world) : world :=
  if counted then
    let '(i, w) := getEpState name e o w in
    match items w !! i with Some x => failure i x w | None => w end
  else w.

(** A timer of [setTimeout] fires. *)
Definition fire (t : ref) (w : world) : world :=
  match timers w !! t with
  | Some (i, _) => match items w !! i with Some x => halfOpen i x w | None => w end
  | None => w
  end.

(** Firing removes the timer from the pending ones in any case. *)
Definition tick (t : ref) (w : world) : world :=
  let w := fire t w in World (store w) (items w) (ep_state w) (delete t (timers w)) (out w).

(** ** Runs *)

Inductive step : world → world → Prop :=
| step_request name e o w : step w (request name e o w)
| step_resolved name e o w : step w (resolved name e o w)
| step_rejected name e o c w : step w (rejected name e o c w)
| step_timer t w : is_Some (timers w !! t) → step w (tick t w)
| step_window w : step w (resetStore w).

Inductive reachable : world → Prop :=
| reach_init : reachable init
| reach_step w w' : reachable w → step w w' → reachable w'.

(** ** The invariant *)

(** A circuit that keeps requests away waits for a timer, and only such a one does. *)
Definition waits (s : circuit) : bool :=
  match s with CIRCUIT_OPEN | CIRCUIT_HALF_OPEN_WAIT => true | _ => false end.

Record item_ok (w : world) (i : ref) (x : item) : Prop := {
  ok_timer : if waits (state x) then ∃ t d, cbTimer x = Some t ∧ timers w !! t = Some (i, d)
             else cbTimer x = None;
  ok_counts : 0 <= failures x <= count x
}.

Record inv (w : world) : Prop := {
  inv_items i x : items w !! i = Some x → item_ok w i x;
  inv_store k i : (k, i) ∈ store w → is_Some (items w !! i);
  inv_timers t i d : timers w !! t = Some (i, d) →
    ∃ x, items w !! i = Some x ∧ cbTimer x = Some t ∧ d = halfOpenTime (i_opts x);
  (* an endpoint that is kept from requests has a timer that brings it back *)
  inv_eps e : ep_state w !! e = Some false →
    ∃ i x, items w !! i = Some x ∧ ep x = e ∧ waits (state x) = true
}.

(** The pending timers without the one of an item. *)
Definition without_timer (x : item) (w : world) : gmap ref (ref * Z) :=
  match cbTimer x with Some t => delete t (timers w) | None => timers w end.

(** No timer of another item is lost. *)
Lemma without_timer_other w i j x y t d :
  inv w → items w !! i = Some x → items w !! j = Some y → j ≠ i →
  timers w !! t = Some (j, d) → without_timer x w !! t = Some (j, d).
Proof.
  intros Hinv Hi Hj Hne Ht. unfold without_timer. destruct (cbTimer x) as [t0|] eqn:Hc; [|done].
  rewrite lookup_delete_ne; [done|]. intros ->.
  destruct (inv_timers _ Hinv _ _ _ Ht) as (y' & Hy' & Hcy & _). simplify_eq.
  pose proof (ok_timer _ _ _ (inv_items _ Hinv i x Hi)) as Hx.
  destruct (waits (state x)); [|congruence]. destruct Hx as (t1 & d1 & Hc1 & Ht1). congruence.
Qed.

Lemma without_timer_inv w i x t j d :
  inv w → items w !! i = Some x → without_timer x w !! t = Some (j, d) →
  j ≠ i ∧ timers w !! t = Some (j, d).
Proof.
  intros Hinv Hi Ht. unfold without_timer in Ht.
  assert (timers w !! t = Some (j, d) ∧ cbTimer x ≠ Some t) as [Ht' Hne].
  { destruct (cbTimer x) as [t0|]; [|done]. apply lookup_delete_Some in Ht as [? ?]. split; congruence. }
  split; [|done]. intros ->. destruct (inv_timers _ Hinv _ _ _ Ht') as (y & Hy & Hc & _). simplify_eq.
Qed.

(** The world after item [i] became [x'] and [ep_state] and the timers changed to fit. *)
Lemma inv_item_change w w' i x x' :
  inv w → items w !! i = Some x → items w' = <[i := x']> (items w) →
  store w' = store w → ep x' = ep x → 0 <= failures x' <= count x' →
  ep_state w' = <[ep x := negb (waits (state x'))]> (ep_state w) →
  (if waits (state x')
   then ∃ t, cbTimer x' = Some t ∧ without_timer x w !! t = None ∧
        timers w' = <[t := (i, halfOpenTime (i_opts x'))]> (without_timer x w)
   else cbTimer x' = None ∧ timers w' = without_timer x w) →
  inv w'.
Proof.
  intros Hinv Hi Hit Hst Hep Hc Hes Htm.
  assert (∀ j y t d, items w !! j = Some y → j ≠ i → timers w !! t = Some (j, d) →
    timers w' !! t = Some (j, d)) as Hkeep.
  { intros j y t d Hj Hne Ht. pose proof (without_timer_other w i j x y t d Hinv Hi Hj Hne Ht) as Hw.
    destruct (waits (state x')); [destruct Htm as (t' & _ & Hf & ->)|destruct Htm as [_ ->]; done].
    rewrite lookup_insert_ne; [done|]. intros ->. congruence. }
  constructor.
  - intros j y Hj. rewrite Hit in Hj. apply lookup_insert_Some in Hj as [[-> ->]|[Hne Hj]].
    + constructor; [|done]. destruct (waits (state y)); [|by destruct Htm].
      destruct Htm as (t & Ht & _ & ->). exists t, (halfOpenTime (i_opts y)). by rewrite lookup_insert_eq.
    + destruct (inv_items _ Hinv j y Hj) as [Ht Hcs]. constructor; [|done].
      destruct (waits (state y)); [|done]. destruct Ht as (t & d & Hcb & Ht). exists t, d. eauto.
  - intros k j Hk. rewrite Hst in Hk. rewrite Hit. apply lookup_insert_is_Some.
    destruct (decide (i = j)); [by left|right; split; [done|]]. by eapply inv_store.
  - intros t j d Ht.
    assert ((j = i ∧ cbTimer x' = Some t ∧ d = halfOpenTime (i_opts x')) ∨ without_timer x w !! t = Some (j, d)) as [(-> & Hcb & ->)|Hw].
    { destruct (waits (state x')); [destruct Htm as (t' & Hcb & _ & Heq)|destruct Htm as [_ Heq]];
        rewrite Heq in Ht; [|by right].
      apply lookup_insert_Some in Ht as [[-> [= <- <-]]|[_ Ht]]; [by left|by right]. }
    + exists x'. by rewrite Hit, lookup_insert_eq.
    + destruct (without_timer_inv _ _ _ _ _ _ Hinv Hi Hw) as [Hne Ht'].
      destruct (inv_timers _ Hinv _ _ _ Ht') as (y & Hy & Hcb). exists y. by rewrite Hit, lookup_insert_ne.
  - intros e He. rewrite Hes in He. rewrite Hit.
    apply lookup_insert_Some in He as [[<- He]|[Hne He]].
    + exists i, x'. rewrite lookup_insert_eq. split_and!; [done|done|]. by destruct (waits (state x')).
    + destruct (inv_eps _ Hinv e He) as (j & y & Hy & Hye & Hw). exists j, y. split; [|done].
      rewrite lookup_insert_ne; [done|]. intros <-. congruence.
Qed.

(** Only the counters of an item changed. *)
Lemma inv_counts w i x c f :
  inv w → items w !! i = Some x → 0 <= f <= c → inv (put i (with_counts c f x) w).
Proof.
  intros Hinv Hi Hc. assert (∀ j y, items (put i (with_counts c f x) w) !! j = Some y →
    ∃ y0, items w !! j = Some y0 ∧ ep y = ep y0 ∧ state y = state y0 ∧ cbTimer y = cbTimer y0 ∧
    0 <= failures y <= count y) as Hj.
  { intros j y Hy. simpl in Hy. apply lookup_insert_Some in Hy as [[<- <-]|[_ Hy]]; [by exists x|].
    exists y. split_and!; try done; by apply (inv_items _ Hinv j y Hy). }
  assert (∀ j y, items w !! j = Some y → ∃ y', items (put i (with_counts c f x) w) !! j = Some y' ∧
    ep y' = ep y ∧ state y' = state y ∧ cbTimer y' = cbTimer y ∧ i_opts y' = i_opts y) as Hj'.
  { intros j y Hy. simpl. destruct (decide (i = j)) as [->|Hne].
    - exists (with_counts c f x). rewrite lookup_insert_eq. split_and!; [done|..]; simpl; congruence.
    - exists y. by rewrite lookup_insert_ne. }
  constructor.
  - intros j y Hy. destruct (Hj j y Hy) as (y0 & Hy0 & _ & Hs & Hcb & Hcs). constructor; [|done].
    rewrite Hs, Hcb. by apply (inv_items _ Hinv j y0 Hy0).
  - intros k j Hk. destruct (inv_store _ Hinv k j Hk) as [y Hy]. destruct (Hj' j y Hy) as (y' & -> & _). eauto.
  - intros t j d Ht. destruct (inv_timers _ Hinv t j d Ht) as (y & Hy & Hcb & ->).
    destruct (Hj' j y Hy) as (y' & Hy' & _ & _ & Hcb' & Ho). exists y'. split_and!; congruence.
  - intros e He. destruct (inv_eps _ Hinv e He) as (j & y & Hy & Hye & Hw).
    destruct (Hj' j y Hy) as (y' & Hy' & Hye' & Hs & _). exists j, y'. split_and!; [done|congruence..].
Qed.

Lemma inv_effects es w : inv w → inv (tell es w).
Proof. intros [Hi ? ? ?]. constructor; [|done..]. intros i x Hx. by destruct (Hi i x Hx). Qed.

Lemma fresh_timer (tm : gmap ref (ref * Z)) : tm !! fresh (dom tm) = None.
Proof. apply not_elem_of_dom, is_fresh. Qed.

(** *** Each function keeps the invariant *)

Section functions.
Context (w : world) (i : ref) (x : item).
Context (Hinv : inv w) (Hi : items w !! i = Some x).

Lemma inv_trip : inv (trip i x w).
Proof.
  unfold trip. case_bool_decide as Hs; [done|]. pose proof (ok_counts _ _ _ (inv_items _ Hinv i x Hi)).
  unfold clear_timer. destruct (cbTimer (with_state CIRCUIT_OPEN x)) as [t|] eqn:Hc; simpl in Hc;
    apply inv_effects; (eapply (inv_item_change w); [done|done|simpl; rewrite ?insert_insert_eq; reflexivity|done|done|done|done|]).
  all: simpl; unfold without_timer; rewrite Hc; eexists; split; [reflexivity|]; split; [apply fresh_timer|reflexivity].
Qed.

Lemma inv_halfOpen : inv (halfOpen i x w) ∧ timers (halfOpen i x w) = without_timer x w.
Proof.
  pose proof (ok_counts _ _ _ (inv_items _ Hinv i x Hi)).
  unfold halfOpen, clear_timer, without_timer.
  destruct (cbTimer (with_state CIRCUIT_HALF_OPEN x)) as [t|] eqn:Hc; simpl in Hc; rewrite Hc; (split; [|done]);
    (eapply (inv_item_change w); [done|done|simpl; rewrite ?insert_insert_eq; reflexivity|done|done|done|done|]).
  all: simpl; unfold without_timer; rewrite Hc; done.
Qed.

Lemma inv_circuitClose : inv (circuitClose i x w).
Proof.
  unfold circuitClose, clear_timer.
  destruct (cbTimer (with_counts 0 0 (with_state CIRCUIT_CLOSE x))) as [t|] eqn:Hc; simpl in Hc;
    (eapply (inv_item_change w); [done|done|simpl; rewrite ?insert_insert_eq; reflexivity|done|done|done|done|]).
  all: simpl; unfold without_timer; rewrite Hc; done.
Qed.

Lemma inv_halfOpenWait : state x = CIRCUIT_HALF_OPEN → inv (halfOpenWait i x w).
Proof.
  intros Hs. destruct (inv_items _ Hinv i x Hi) as [Ht Hc]. rewrite Hs in Ht. simpl in Ht.
  unfold halfOpenWait, start_timer.
  eapply (inv_item_change w); [done|done|simpl; rewrite ?insert_insert_eq; reflexivity|done|done|done|done|].
  simpl. unfold without_timer. rewrite Ht. eexists. split; [reflexivity|]. split; [apply fresh_timer|reflexivity].
Qed.

End functions.

Lemma put_counts w i x c f : items w !! i = Some x →
  items (put i (with_counts c f x) w) !! i = Some (with_counts c f x).
Proof. intros _. simpl. by rewrite lookup_insert_eq. Qed.

Lemma inv_success w i x : inv w → items w !! i = Some x → inv (success i x w).
Proof.
  intros Hinv Hi. pose proof (ok_counts _ _ _ (inv_items _ Hinv i x Hi)) as Hc.
  assert (inv (put i (with_counts (count x + 1) (failures x) x) w)) as H1 by (apply inv_counts; [done..|lia]).
  pose proof (put_counts w i x (count x + 1) (failures x) Hi) as H2. unfold success, checkThreshold.
  case_bool_decide; [by apply inv_circuitClose|]. destruct (exceeded _); [by apply inv_trip|done].
Qed.

Lemma inv_failure w i x : inv w → items w !! i = Some x → inv (failure i x w).
Proof.
  intros Hinv Hi. pose proof (ok_counts _ _ _ (inv_items _ Hinv i x Hi)) as Hc.
  assert (inv (put i (with_counts (count x + 1) (failures x + 1) x) w)) as H1 by (apply inv_counts; [done..|lia]).
  pose proof (put_counts w i x (count x + 1) (failures x + 1) Hi) as H2. unfold failure, checkThreshold.
  destruct (exceeded _); [by apply inv_trip|done].
Qed.

Lemma inv_getEpState name e o w i w' :
  inv w → getEpState name e o w = (i, w') →
  inv w' ∧ ∃ x, items w' !! i = Some x ∧ timers w' = timers w ∧ ep_state w' = ep_state w.
Proof.
  intros Hinv. unfold getEpState. destruct (OMap.get name (store w)) as [i0|] eqn:Hg; intros Heq; simplify_eq.
  - split; [done|]. destruct (inv_store _ Hinv name i) as [x Hx]; [by apply OMap.get_Some_elem|]. by exists x.
  - set (i := fresh (dom (items w))).
    assert (items w !! i = None) as Hf by apply not_elem_of_dom, is_fresh.
    split; [|eexists; simpl; by rewrite lookup_insert_eq].
    assert (∀ j y, items w !! j = Some y → j ≠ i) as Hne by (intros j y Hy ->; congruence).
    constructor; simpl.
    + intros j y Hy. apply lookup_insert_Some in Hy as [[<- <-]|[_ Hy]]; [by constructor|].
      by destruct (inv_items _ Hinv j y Hy).
    + intros k j Hk. apply lookup_insert_is_Some'. apply OMap.set_elem in Hk as [[_ ->]|Hk]; [by left|right].
      by eapply inv_store.
    + intros t j d Ht. destruct (inv_timers _ Hinv t j d Ht) as (y & Hy & Hcb). exists y.
      rewrite lookup_insert_ne; [done|]. intros <-. by apply (Hne i y).
    + intros e0 He. destruct (inv_eps _ Hinv e0 He) as (j & y & Hy & Hrest). exists j, y.
      rewrite lookup_insert_ne; [done|]. intros <-. by apply (Hne i y).
Qed.

Lemma inv_set_store s w : inv w → (∀ k i, (k, i) ∈ s → (k, i) ∈ store w) → inv (set_store s w).
Proof.
  intros [Hi Hs ? ?] Hsub. constructor; [| |done..]; simpl; [|eauto].
  intros i x Hx. by destruct (Hi i x Hx).
Qed.

Lemma inv_resetStore w : inv w → inv (resetStore w).
Proof.
  intros Hinv. unfold resetStore. apply foldl_invariant; [done|].
  intros w' [key i] _ Hw'. destruct (items w' !! i) as [x|] eqn:Hi; [|done].
  destruct (count x =? 0); [|by apply inv_counts].
  apply inv_set_store; [done|]. intros k j Hk.
  by eapply OMap.delete_sub.
Qed.

Lemma inv_tick t w : inv w → is_Some (timers w !! t) → inv (tick t w).
Proof.
  intros Hinv [[i d] Ht]. unfold tick, fire. rewrite Ht.
  destruct (inv_timers _ Hinv t i d Ht) as (x & Hi & Hcb & _). rewrite Hi.
  destruct (inv_halfOpen w i x Hinv Hi) as [Hh Htm]. set (w1 := halfOpen i x w) in *.
  assert (delete t (timers w1) = timers w1) as ->; [|by destruct w1].
  rewrite Htm. unfold without_timer. rewrite Hcb. apply delete_id, lookup_delete_eq.
Qed.

Lemma inv_step w w' : inv w → step w w' → inv w'.
Proof.
  intros Hinv Hs. destruct Hs as [name e o w|name e o w|name e o c w|t w Ht|w].
  - unfold request. destruct (getEpState name e o w) as [i w1] eqn:Hg.
    destruct (inv_getEpState _ _ _ _ _ _ Hinv Hg) as (H1 & x & Hi & _). rewrite Hi.
    case_bool_decide; [by apply inv_halfOpenWait|done].
  - unfold resolved. destruct (getEpState name e o w) as [i w1] eqn:Hg.
    destruct (inv_getEpState _ _ _ _ _ _ Hinv Hg) as (H1 & x & Hi & _). rewrite Hi. by apply inv_success.
  - unfold rejected. destruct c; [|done]. destruct (getEpState name e o w) as [i w1] eqn:Hg.
    destruct (inv_getEpState _ _ _ _ _ _ Hinv Hg) as (H1 & x & Hi & _). rewrite Hi. by apply inv_failure.
  - by apply inv_tick.
  - by apply inv_resetStore.
Qed.

Lemma inv_reachable w : reachable w → inv w.
Proof.
  induction 1 as [|w w' _ IH Hs]; [|by eapply inv_step].
  constructor; simpl; try done. intros k i Hk. by apply not_elem_of_nil in Hk.
Qed.

(** *** How an item's state changes *)

(** The item after [clear_timer] and [start_timer]. *)
Lemma trip_item i x w : items w !! i = Some x →
  ∃ x', items (trip i x w) !! i = Some x' ∧ state x' = CIRCUIT_OPEN ∧
        count x' = count x ∧ failures x' = failures x ∧ i_opts x' = i_opts x.
Proof.
  intros Hi. unfold trip. case_bool_decide as Hs; [by exists x|].
  unfold clear_timer. destruct (cbTimer _); simpl; rewrite ?insert_insert_eq, lookup_insert_eq;
    eexists; (split; [reflexivity|done]).
Qed.

Lemma halfOpen_item i x w : items w !! i = Some x →
  ∃ x', items (halfOpen i x w) !! i = Some x' ∧ state x' = CIRCUIT_HALF_OPEN.
Proof.
  intros Hi. unfold halfOpen, clear_timer. destruct (cbTimer _); simpl;
    rewrite ?insert_insert_eq, lookup_insert_eq; eexists; (split; [reflexivity|done]).
Qed.

Lemma circuitClose_item i x w : items w !! i = Some x →
  ∃ x', items (circuitClose i x w) !! i = Some x' ∧ state x' = CIRCUIT_CLOSE ∧ count x' = 0 ∧ failures x' = 0.
Proof.
  intros Hi. unfold circuitClose, clear_timer. destruct (cbTimer _); simpl;
    rewrite ?insert_insert_eq, lookup_insert_eq; eexists; (split; [reflexivity|done]).
Qed.

(** The functions touch no other item. *)
Lemma clear_timer_other i j x w : i ≠ j → items (clear_timer i x w).2 !! j = items w !! j.
Proof. intros Hne. unfold clear_timer. destruct (cbTimer x); simpl; by rewrite ?lookup_insert_ne. Qed.

Lemma trip_other i j x w : i ≠ j → items (trip i x w) !! j = items w !! j.
Proof.
  intros Hne. unfold trip. case_bool_decide; [done|].
  unfold clear_timer. destruct (cbTimer _); simpl; by rewrite !lookup_insert_ne.
Qed.

Lemma halfOpen_other i j x w : i ≠ j → items (halfOpen i x w) !! j = items w !! j.
Proof. intros Hne. unfold halfOpen. rewrite clear_timer_other by done. simpl. by rewrite lookup_insert_ne. Qed.

Lemma circuitClose_other i j x w : i ≠ j → items (circuitClose i x w) !! j = items w !! j.
Proof. intros Hne. unfold circuitClose. rewrite clear_timer_other by done. simpl. by rewrite lookup_insert_ne. Qed.

Lemma getEpState_items name e o w i w' j y :
  getEpState name e o w = (i, w') → items w !! j = Some y → items w' !! j = Some y.
Proof.
  unfold getEpState. intros Hg Hj. destruct (OMap.get name (store w)); simplify_eq; [done|]. simpl.
  rewrite lookup_insert_ne; [done|]. intros <-.
  assert (items w !! fresh (dom (items w)) = None) by apply not_elem_of_dom, is_fresh. congruence.
Qed.

(** The state changes the breaker may make, and what has to happen for them. *)
Definition allowed (w w' : world) (x x' : item) : Prop :=
  match state x, state x' with
  | _, CIRCUIT_OPEN => exceeded x' = true
  | CIRCUIT_OPEN, CIRCUIT_HALF_OPEN | CIRCUIT_HALF_OPEN_WAIT, CIRCUIT_HALF_OPEN =>
      ∃ t, cbTimer x = Some t ∧ w' = tick t w
  | CIRCUIT_HALF_OPEN, CIRCUIT_HALF_OPEN_WAIT => ∃ name e o, w' = request name e o w
  | CIRCUIT_HALF_OPEN_WAIT, CIRCUIT_CLOSE =>
      (∃ name e o, w' = resolved name e o w) ∧ count x' = 0 ∧ failures x' = 0
  | _, _ => False
  end.

Lemma checkThreshold_change i j x w x' :
  items w !! i = Some x → items (checkThreshold i x w) !! j = Some x' → items w !! j ≠ Some x' →
  j = i ∧ state x' = CIRCUIT_OPEN ∧ exceeded x' = true.
Proof.
  intros Hi Hj Hne. unfold checkThreshold in Hj. destruct (exceeded x) eqn:He; [|done].
  destruct (decide (i = j)) as [<-|Hij]; [|by rewrite trip_other in Hj].
  destruct (trip_item i x w Hi) as (y & Hy & Hs & Hc & Hf & Ho). split; [done|].
  assert (y = x') as -> by congruence. split; [done|]. unfold exceeded in *. by rewrite Hc, Hf, Ho.
Qed.

Lemma halfOpenWait_item i x w :
  ∃ x', items (halfOpenWait i x w) !! i = Some x' ∧ state x' = CIRCUIT_HALF_OPEN_WAIT.
Proof. unfold halfOpenWait, start_timer. simpl. rewrite lookup_insert_eq. eexists. split; [reflexivity|done]. Qed.

Lemma halfOpenWait_other i j x w : i ≠ j → items (halfOpenWait i x w) !! j = items w !! j.
Proof. intros Hne. unfold halfOpenWait, start_timer. simpl. by rewrite !lookup_insert_ne. Qed.

Lemma resetStore_states w j y' :
  items (resetStore w) !! j = Some y' → ∃ y, items w !! j = Some y ∧ state y = state y'.
Proof.
  unfold resetStore. revert y'. apply (foldl_invariant (λ w', ∀ y', items w' !! j = Some y' →
    ∃ y, items w !! j = Some y ∧ state y = state y')); [eauto|].
  intros w' [key i] _ IH y' Hj. destruct (items w' !! i) as [x|] eqn:Hi; [|auto].
  destruct (count x =? 0); [auto|]. simpl in Hj. apply lookup_insert_Some in Hj as [[<- <-]|[_ Hj]]; [|auto].
  by destruct (IH x Hi) as (y & Hy & Hs); exists y.
Qed.

(** A completed request changes the state of its own item only, to open when the
    threshold is reached, or to closed after a probe succeeded. *)
Lemma completion_change i j x w c f x0 x' :
  items w !! i = Some x → items w !! j = Some x0 →
  items (checkThreshold i (with_counts c f x) (put i (with_counts c f x) w)) !! j = Some x' →
  state x0 ≠ state x' → state x' = CIRCUIT_OPEN ∧ exceeded x' = true.
Proof.
  intros Hi Hj Hj' Hne. pose proof (put_counts w i x c f Hi) as Hp.
  destruct (checkThreshold_change _ j _ _ x' Hp Hj') as (_ & ? & ?); [|done].
  intros Heq. apply Hne. simpl in Heq. apply lookup_insert_Some in Heq as [[<- <-]|[_ Heq]]; simpl; congruence.
Qed.

Lemma allowed_open w w' x x' : state x' = CIRCUIT_OPEN → exceeded x' = true → allowed w w' x x'.
Proof. unfold allowed. intros -> He. by destruct (state x). Qed.

Lemma transition_request name e o w j x x' :
  inv w → items w !! j = Some x → items (request name e o w) !! j = Some x' → state x ≠ state x' →
  allowed w (request name e o w) x x'.
Proof.
  intros Hinv Hj Hj' Hne. unfold request in Hj'. destruct (getEpState name e o w) as [i w1] eqn:Hg.
  pose proof (getEpState_items _ _ _ _ _ _ _ _ Hg Hj) as Hj1.
  destruct (items w1 !! i) as [y|] eqn:Hi; [|congruence]. case_bool_decide as Hs; [|congruence].
  destruct (decide (i = j)) as [<-|Hij]; [|rewrite halfOpenWait_other in Hj' by done; congruence].
  destruct (halfOpenWait_item i y w1) as (z & Hz & Hsz). assert (z = x') as -> by congruence.
  assert (y = x) as -> by congruence. unfold allowed. rewrite Hs, Hsz. by exists name, e, o.
Qed.

Lemma transition_resolved name e o w j x x' :
  inv w → items w !! j = Some x → items (resolved name e o w) !! j = Some x' → state x ≠ state x' →
  allowed w (resolved name e o w) x x'.
Proof.
  intros Hinv Hj Hj' Hne. unfold resolved in Hj'. destruct (getEpState name e o w) as [i w1] eqn:Hg.
  pose proof (getEpState_items _ _ _ _ _ _ _ _ Hg Hj) as Hj1.
  destruct (items w1 !! i) as [y|] eqn:Hi; [|congruence]. unfold success in Hj'.
  case_bool_decide as Hs; [|destruct (completion_change i j y w1 _ _ x x' Hi Hj1 Hj' Hne); by apply allowed_open].
  pose proof (put_counts w1 i y (count y + 1) (failures y) Hi) as Hp. simpl in Hs.
  destruct (decide (i = j)) as [<-|Hij].
  - destruct (circuitClose_item i _ _ Hp) as (z & Hz & Hsz & Hc & Hf). assert (z = x') as -> by congruence.
    assert (y = x) as -> by congruence. unfold allowed. rewrite Hs, Hsz. split; [by exists name, e, o|done].
  - rewrite circuitClose_other in Hj' by done. simpl in Hj'. rewrite lookup_insert_ne in Hj' by done. congruence.
Qed.

Lemma transition_rejected name e o c w j x x' :
  inv w → items w !! j = Some x → items (rejected name e o c w) !! j = Some x' → state x ≠ state x' →
  allowed w (rejected name e o c w) x x'.
Proof.
  intros Hinv Hj Hj' Hne. unfold rejected in Hj'. destruct c; [|congruence].
  destruct (getEpState name e o w) as [i w1] eqn:Hg.
  pose proof (getEpState_items _ _ _ _ _ _ _ _ Hg Hj) as Hj1.
  destruct (items w1 !! i) as [y|] eqn:Hi; [|congruence].
  destruct (completion_change i j y w1 _ _ x x' Hi Hj1 Hj' Hne). by apply allowed_open.
Qed.

Lemma transition_tick t w j x x' :
  inv w → is_Some (timers w !! t) → items w !! j = Some x → items (tick t w) !! j = Some x' →
  state x ≠ state x' → allowed w (tick t w) x x'.
Proof.
  intros Hinv [[i d] Ht] Hj Hj' Hne. destruct (inv_timers _ Hinv t i d Ht) as (y & Hi & Hcb & _).
  unfold tick, fire in Hj'. rewrite Ht, Hi in Hj'. simpl in Hj'.
  destruct (decide (i = j)) as [<-|Hij]; [|rewrite halfOpen_other in Hj' by done; congruence].
  assert (y = x) as -> by congruence. destruct (halfOpen_item i x w Hi) as (z & Hz & Hs).
  assert (z = x') as -> by congruence. pose proof (ok_timer _ _ _ (inv_items _ Hinv i x Hj)) as Hok.
  unfold allowed. rewrite Hs. destruct (state x); simpl in Hok; try (by exists t); congruence.
Qed.

End CircuitBreaker.

(** ** Theorems *)

(** C37. No endpoint is kept from requests for good: in every reachable state of the
    breaker, whatever requests completed in whatever order and whenever the window
    was reset, an endpoint the breaker made unavailable has a pending timer, set to
    the half-open time of its circuit, that makes it available again. *)
Theorem cb_never_stuck w e :
  CircuitBreaker.reachable w → CircuitBreaker.ep_state w !! e = Some false →
  ∃ t i x, CircuitBreaker.timers w !! t = Some (i, CircuitBreaker.halfOpenTime (CircuitBreaker.i_opts x)) ∧
    CircuitBreaker.items w !! i = Some x ∧ CircuitBreaker.ep x = e ∧
    CircuitBreaker.ep_state (CircuitBreaker.tick t w) !! e = Some true.
Proof.
  intros Hr He. pose proof (CircuitBreaker.inv_reachable w Hr) as Hinv.
  destruct (CircuitBreaker.inv_eps _ Hinv e He) as (i & x & Hi & Hep & Hw).
  pose proof (CircuitBreaker.ok_timer _ _ _ (CircuitBreaker.inv_items _ Hinv i x Hi)) as Ht. rewrite Hw in Ht.
  destruct Ht as (t & d & Hcb & Ht). destruct (CircuitBreaker.inv_timers _ Hinv t i d Ht) as (y & Hy & _ & Hd).
  simplify_eq. eexists t, i, _. split_and!; try done. unfold CircuitBreaker.tick, CircuitBreaker.fire. rewrite Ht, Hi.
  unfold CircuitBreaker.halfOpen, CircuitBreaker.clear_timer. destruct (CircuitBreaker.cbTimer _); simpl; by rewrite lookup_insert_eq.
Qed.

(** C38. The state machine of a circuit: in every reachable state and for every step, a
    circuit opens only with enough requests counted and the failure rate at its
    threshold, becomes half-open only from a state that waits, when its own timer
    fires, lets one request through and then waits, and closes only when a request
    succeeds while it waits, which clears its counters; no other change happens. *)
Theorem cb_transitions w w' i x x' :
  CircuitBreaker.reachable w → CircuitBreaker.step w w' →
  CircuitBreaker.items w !! i = Some x → CircuitBreaker.items w' !! i = Some x' →
  CircuitBreaker.state x ≠ CircuitBreaker.state x' → CircuitBreaker.allowed w w' x x'.
Proof.
  intros Hr Hs Hi Hi' Hne. pose proof (CircuitBreaker.inv_reachable w Hr) as Hinv. destruct Hs.
  - by eapply CircuitBreaker.transition_request.
  - by eapply CircuitBreaker.transition_resolved.
  - by eapply CircuitBreaker.transition_rejected.
  - by eapply CircuitBreaker.transition_tick.
  - destruct (CircuitBreaker.resetStore_states w i x' Hi') as (y & Hy & Hsy). congruence.
Qed.

Section example.
Import CircuitBreaker.

(** Two failures open the circuit. *)
Definition sample_opts : opts := Opts (1 # 2) 2 10000.

Definition open_world : world :=
  rejected "node:posts.find" 1 sample_opts true (rejected "node:posts.find" 1 sample_opts true init).

Lemma open_reachable : reachable open_world.
Proof.
  eapply reach_step; [eapply reach_step; [apply reach_init|]|].
  - apply (step_rejected "node:posts.find" 1 sample_opts true).
  - apply step_rejected.
Qed.

End example.

Lemma cb_never_stuck_witness :
  ∃ t, CircuitBreaker.ep_state (CircuitBreaker.tick t open_world) !! 1%positive = Some true.
Proof.
  destruct (cb_never_stuck open_world 1 open_reachable) as (t & i & x & _ & _ & _ & He);
    [vm_compute; reflexivity|]. exists t. exact He.
Defined.

Lemma cb_transitions_witness :
  ∃ x x', CircuitBreaker.state x = CircuitBreaker.CIRCUIT_OPEN ∧
  CircuitBreaker.state x' = CircuitBreaker.CIRCUIT_HALF_OPEN ∧
  CircuitBreaker.allowed open_world (CircuitBreaker.tick 1 open_world) x x'.
Proof.
  pose (i := 1%positive). pose (w' := CircuitBreaker.tick 1 open_world).
  destruct (CircuitBreaker.items open_world !! i) as [x|] eqn:Hx; [|vm_compute in Hx; discriminate].
  destruct (CircuitBreaker.items w' !! i) as [x'|] eqn:Hx'; [|vm_compute in Hx'; discriminate].
  assert (CircuitBreaker.state x = CircuitBreaker.CIRCUIT_OPEN) as H1 by (vm_compute in Hx; injection Hx as <-; reflexivity).
  assert (CircuitBreaker.state x' = CircuitBreaker.CIRCUIT_HALF_OPEN) as H2 by (vm_compute in Hx'; injection Hx' as <-; reflexivity).
  exists x, x'. split; [exact H1|]. split; [exact H2|].
  apply (cb_transitions open_world w' i x x' open_reachable); [|exact Hx|exact Hx'|congruence].
  apply CircuitBreaker.step_timer. vm_compute. eauto.
Defined.

(** A late success can open a circuit again: the counters are not cleared when a
    circuit becomes half-open, so the success of a request that was sent before
    it opened passes the threshold check with the old failures and opens it for
    another half-open period. *)
Theorem cb_late_success_reopens :
  let half := CircuitBreaker.tick 1 open_world in
  let late := CircuitBreaker.resolved "node:posts.find" 1 sample_opts half in
  CircuitBreaker.ep_state half !! 1%positive = Some true ∧
  CircuitBreaker.ep_state late !! 1%positive = Some false.
Proof. vm_compute. done. Qed.
