(* ===== verification/Bulkhead.v ===== *)
(** * The bulkhead middleware

    Models [src/middlewares/bulkhead.js]: the wrapped handler of an action or event
    with its queue and its count of requests in flight, cut at the points where
    it waits for the inner handler, which returns a promise, as the handlers of
    services do; a middleware below it that throws at once is not modelled.  The two wrappers differ only in the
    metrics they set and the error they report. *)

From Stdlib Require Import ZArith Lia Bool.
From stdpp Require Import base tactics list strings option.
From S2P Require Import Prelude.

Local Open Scope Z_scope.

Module Bulkhead.

Inductive kind := ActionBulkhead | EventBulkhead.

(** A [maxQueueSize] of [null] or [0] is no limit. *)
Record opts := Opts { concurrency : Z; maxQueueSize : option Z }.

(** A request, by number. *)
Notation ctx := nat.

Inductive effect :=
| CallHandler (c : ctx)
| SetInFlight (k : kind) (n : Z)
| SetQueueSize (k : kind) (n : Z)
| QueueIsFull (k : kind) (c : ctx)
| Settle (c : ctx) (ok : bool).

Record t := Bulkhead { queue : list ctx; currentInFlight : Z }.

Definition init : t := Bulkhead [] 0.

Section bulkhead.
Context (k : kind) (o : opts).

Definition gauges (s : t) : list effect :=
  [SetInFlight k (currentInFlight s); SetQueueSize k (Z.of_nat (length (queue s)))].

(** [callNext()] *)
Definition callNext (s : t) : t * list effect :=
  match queue s with
  | [] => (s, [])
  | item :: rest =>
      if concurrency o <=? currentInFlight s then (s, [])
      else
        let s := Bulkhead rest (currentInFlight s + 1) in
        (s, gauges s ++ [CallHandler item])
  end.

Definition has_limit : bool :=
  match maxQueueSize o with Some m => negb (m =? 0) | None => false end.

Definition full (s : t) : bool :=
  match maxQueueSize o with Some m => negb (m =? 0) && (m <=? Z.of_nat (length (queue s))) | None => false end.

(** [bulkheadMiddleware(ctx)] up to the handler's promise *)
Definition call (c : ctx) (s : t) : t * list effect :=
  if currentInFlight s <? concurrency o then
    let s := Bulkhead (queue s) (currentInFlight s + 1) in
    (s, gauges s ++ [CallHandler c])
  else if full s then (s, [QueueIsFull k c])
  else
    let s := Bulkhead (queue s ++ [c]) (currentInFlight s) in
    (s, [SetQueueSize k (Z.of_nat (length (queue s)))]).

(** The promise of the handler settles: of a request called at once, which starts the
    next one before its own result goes on, or of a queued one. *)
Definition settled (direct : bool) (c : ctx) (ok : bool) (s : t) : t * list effect :=
  let s := Bulkhead (queue s) (currentInFlight s - 1) in
  let '(s', next) := callNext s in
  (s', gauges s ++ (if direct then next ++ [Settle c ok] else Settle c ok :: next)).

End bulkhead.

(** [wrapActionBulkheadMiddleware] and [wrapEventBulkheadMiddleware] *)
Definition wrapActionBulkhead := call ActionBulkhead.
Definition wrapEventBulkhead := call EventBulkhead.

(** ** Runs

    The requests whose handler runs are remembered with the way they were started. *)
Record world := World {
  state : t;
  running : list (ctx * bool);
  accepted : list ctx;
  started : list ctx;
  out : list effect
}.

Section runs.
Context (k : kind) (o : opts).

Definition initial : world := World init [] [] [] [].

(** The handlers a step called. *)
Fixpoint calls (es : list effect) : list ctx :=
  match es with
  | [] => []
  | CallHandler c :: es => c :: calls es
  | _ :: es => calls es
  end.

Definition is_full (es : list effect) : bool :=
  match es with QueueIsFull _ _ :: _ => true | _ => false end.

Definition arrive (c : ctx) (w : world) : world :=
  let '(s, es) := call k o c (state w) in
  World s (running w ++ map (λ x, (x, true)) (calls es))
    (if is_full es then accepted w else accepted w ++ [c]) (started w ++ calls es) (out w ++ es).

(** The [i]-th running handler settles. *)
Definition finish (i : nat) (ok : bool) (w : world) : world :=
  match running w !! i with
  | Some (c, direct) =>
      let '(s, es) := settled k o direct c ok (state w) in
      World s (delete i (running w) ++ map (λ x, (x, false)) (calls es)) (accepted w)
        (started w ++ calls es) (out w ++ es)
  | None => w
  end.

Inductive step : world → world → Prop :=
| step_arrive c w : step w (arrive c w)
| step_finish i ok w : step w (finish i ok w).

Inductive reachable : world → Prop :=
| reach_init : reachable initial
| reach_step w w' : reachable w → step w w' → reachable w'.

(** The values last shown by the two gauges. *)
Definition shown_inflight (es : list effect) : Z :=
  foldl (λ z e, match e with SetInFlight _ n => n | _ => z end) 0 es.
Definition shown_queue (es : list effect) : Z :=
  foldl (λ z e, match e with SetQueueSize _ n => n | _ => z end) 0 es.

Record inv (w : world) : Prop := {
  inv_running : currentInFlight (state w) = Z.of_nat (length (running w));
  inv_limit : currentInFlight (state w) <= Z.max 0 (concurrency o);
  inv_busy : queue (state w) ≠ [] → concurrency o <= currentInFlight (state w);
  inv_size m : maxQueueSize o = Some m → 0 < m → Z.of_nat (length (queue (state w))) <= m;
  inv_fifo : started w ++ queue (state w) = accepted w;
  inv_gauges : shown_inflight (out w) = currentInFlight (state w) ∧
               shown_queue (out w) = Z.of_nat (length (queue (state w)))
}.

Lemma shown_app es es' :
  shown_inflight (es ++ es') = foldl (λ z e, match e with SetInFlight _ n => n | _ => z end) (shown_inflight es) es' ∧
  shown_queue (es ++ es') = foldl (λ z e, match e with SetQueueSize _ n => n | _ => z end) (shown_queue es) es'.
Proof. unfold shown_inflight, shown_queue. by rewrite !foldl_app. Qed.

(** Read the gauges behind the effects of a step. *)
Ltac read_gauges :=
  match goal with |- context [shown_inflight (?a ++ ?b)] => destruct (shown_app a b) as [-> ->] end;
  simpl; rewrite ?length_app; try done.

Lemma inv_arrive c w : inv w → inv (arrive c w).
Proof.
  intros [Hr Hl Hb Hs Hf [Hg1 Hg2]]. unfold arrive, call. destruct (_ <? _) eqn:Hlt.
  - assert (queue (state w) = []) as Hq.
    { destruct (queue (state w)) eqn:Hq; [done|]. specialize (Hb ltac:(done)). to_prop. lia. }
    to_prop. constructor; simpl; rewrite ?length_app; simpl; try lia; try done.
    + rewrite <- Hf, Hq, !app_nil_r. done.
    + read_gauges.
  - destruct (full o (state w)) eqn:Hfu; simpl.
    + constructor; simpl; rewrite ?app_nil_r; try done.
      read_gauges.
    + to_prop. constructor; simpl; rewrite ?app_nil_r, ?length_app; simpl; try done.
      * intros m Hm Hpos. specialize (Hs m Hm Hpos). unfold full in Hfu. rewrite Hm in Hfu.
        apply andb_false_iff in Hfu as [Hfu|Hfu]; to_prop; lia.
      * by rewrite app_assoc, Hf.
      * read_gauges.
Qed.

Lemma length_delete_at {A} (l : list A) i x : l !! i = Some x → S (length (delete i l)) = length l.
Proof.
  intros Hi. apply lookup_lt_Some in Hi as Hlt. rewrite delete_take_drop, length_app, length_take, length_drop. lia.
Qed.

Lemma inv_finish i ok w : inv w → inv (finish i ok w).
Proof.
  intros [Hr Hl Hb Hs Hf [Hg1 Hg2]]. unfold finish. destruct (running w !! i) as [[c d]|] eqn:Hi; [|done].
  apply length_delete_at in Hi. unfold settled, callNext. simpl.
  destruct (queue (state w)) as [|q qs] eqn:Hq; simpl.
  - constructor; simpl; rewrite ?length_app; simpl; try done; try lia.
    + destruct d; simpl; rewrite ?length_map; simpl; lia.
    + rewrite <- Hf. by destruct d; simpl; rewrite !app_nil_r.
    + destruct d; read_gauges; by rewrite Hq.
  - specialize (Hb ltac:(done)). destruct (_ <=? _) eqn:Hle; to_prop; [lia|].
    constructor; simpl; rewrite ?length_app; simpl; try lia.
    + destruct d; simpl; rewrite ?length_map; simpl; lia.
    + intros m Hm Hpos. specialize (Hs m Hm Hpos). simpl in Hs. lia.
    + rewrite <- Hf. by destruct d; simpl; rewrite <- app_assoc.
    + destruct d; read_gauges.
Qed.

Lemma limits_reachable w : reachable w → inv w.
Proof.
  induction 1 as [|w w' _ IH Hs].
  - constructor; simpl; try done; lia.
  - destruct Hs; [by apply inv_arrive|by apply inv_finish].
Qed.

End runs.
End Bulkhead.

(** ** Theorems *)

(** C39. The bulkhead keeps its limits: in every reachable state the counter equals the
    number of running handlers and never exceeds [concurrency], the queue never
    exceeds [maxQueueSize], requests wait only while [concurrency] handlers run, and
    the two gauges show the counter and the queue length. *)
Theorem bulkhead_limits k o w :
  Bulkhead.reachable k o w → 0 <= Bulkhead.concurrency o →
  let s := Bulkhead.state w in
  Bulkhead.currentInFlight s = Z.of_nat (length (Bulkhead.running w)) ∧
  Bulkhead.currentInFlight s <= Bulkhead.concurrency o ∧
  (∀ m, Bulkhead.maxQueueSize o = Some m → 0 < m → Z.of_nat (length (Bulkhead.queue s)) <= m) ∧
  (Bulkhead.queue s ≠ [] → Z.of_nat (length (Bulkhead.running w)) = Bulkhead.concurrency o) ∧
  Bulkhead.shown_inflight (Bulkhead.out w) = Bulkhead.currentInFlight s ∧
  Bulkhead.shown_queue (Bulkhead.out w) = Z.of_nat (length (Bulkhead.queue s)).
Proof.
  intros Hr Hc s. destruct (Bulkhead.limits_reachable _ _ _ Hr) as [H1 H2 H3 H4 H5 [H6 H7]]. fold s in H1, H2, H3, H4.
  rewrite Z.max_r in H2 by done. split_and!; try done. intros Hq. specialize (H3 Hq). lia.
Qed.

Definition sample_limits : Bulkhead.opts := Bulkhead.Opts 1 (Some 2).

(** One request runs and two wait. *)
Definition sample_busy : Bulkhead.world :=
  let a := Bulkhead.arrive Bulkhead.ActionBulkhead sample_limits in a 2%nat (a 1%nat (a 0%nat Bulkhead.initial)).

Lemma sample_busy_reachable : Bulkhead.reachable Bulkhead.ActionBulkhead sample_limits sample_busy.
Proof. repeat (eapply Bulkhead.reach_step; [|apply Bulkhead.step_arrive]). apply Bulkhead.reach_init. Qed.

Lemma bulkhead_limits_witness :
  Bulkhead.queue (Bulkhead.state sample_busy) = [1; 2]%nat ∧
  Bulkhead.currentInFlight (Bulkhead.state sample_busy) <= 1.
Proof.
  split; [reflexivity|].
  apply (bulkhead_limits Bulkhead.ActionBulkhead sample_limits sample_busy sample_busy_reachable).
  simpl. lia.
Defined.

(** The bulkhead is fair and loses no request: handlers are called in the order
    their requests were accepted, exactly once, the accepted requests not called
    yet are the queue; and when a handler settles while requests wait, the
    first of them is called at once. *)
Theorem bulkhead_fifo k o w :
  Bulkhead.reachable k o w →
  Bulkhead.started w ++ Bulkhead.queue (Bulkhead.state w) = Bulkhead.accepted w ∧
  (∀ c rest i x ok, Bulkhead.queue (Bulkhead.state w) = c :: rest → Bulkhead.running w !! i = Some x →
     0 < Bulkhead.concurrency o →
     Bulkhead.started (Bulkhead.finish k o i ok w) = Bulkhead.started w ++ [c] ∧
     Bulkhead.queue (Bulkhead.state (Bulkhead.finish k o i ok w)) = rest).
Proof.
  intros Hr. destruct (Bulkhead.limits_reachable _ _ _ Hr) as [H1 H2 H3 H4 H5 _]. split; [done|].
  intros c rest i [x d] ok Hq Hi Hc. rewrite Z.max_r in H2 by lia.
  unfold Bulkhead.finish. rewrite Hi. unfold Bulkhead.settled, Bulkhead.callNext. simpl. rewrite Hq.
  destruct (_ <=? _) eqn:Hle; to_prop; [lia|]. by destruct d.
Qed.

Lemma bulkhead_fifo_witness :
  Bulkhead.started (Bulkhead.finish Bulkhead.ActionBulkhead sample_limits 0 true sample_busy) = [0; 1]%nat.
Proof.
  destruct (bulkhead_fifo Bulkhead.ActionBulkhead sample_limits sample_busy sample_busy_reachable) as [_ Hn].
  destruct (Hn 1%nat [2%nat] 0%nat (0%nat, true) true) as [Hs _]; [reflexivity|reflexivity|simpl; lia|].
  exact Hs.
Defined.
