(* ===== verification/JsonText.v ===== *)
(** * JSON texts: [JSON.stringify] and [JSON.parse]

    The two functions of the language that the serializers, the cache keys and the transporters
    use, on values of type [json]: numbers are integers, strings have 8-bit characters.
    Numbers with fractions or exponents are refused by the parser, since no value of [json]
    stands for them; escapes of characters above 255 likewise.  The parser has fuel; twice
    the length of the text is enough ([parse_print]). *)

From stdpp Require Import base list strings option pretty.
From Stdlib Require Import ZArith Lia Ascii.
From S2P Require Import Prelude.

Open Scope Z_scope.

(** ** Induction on values *)

Lemma json_rec (P : json → Prop) :
  P JUndef → P JNull → (∀ b, P (JBool b)) → (∀ n, P (JNum n)) → (∀ s, P (JStr s)) →
  (∀ l, Forall P l → P (JArr l)) → (∀ m, Forall (λ e, P e.2) m → P (JObj m)) → ∀ v, P v.
Proof.
  intros Hu Hn Hb Hz Hs Ha Ho. fix go 1. intros [| |b|n|s|l|m]; [done|done|apply Hb|apply Hz|apply Hs| |].
  - apply Ha. induction l as [|v l IH]; constructor; [apply go|exact IH].
  - apply Ho. induction m as [|[k v] m IH]; constructor; [apply go|exact IH].
Qed.

Module JSON.

(** ** [JSON.stringify] *)

Definition quotes : ascii := "034"%char.
Definition backslash : ascii := "092"%char.

Definition hex_digit (n : N) : ascii := ascii_of_N (if (n <? 10)%N then 48 + n else 87 + n)%N.

(** A character of a string *)
Definition escape (c : ascii) : string :=
  let n := N_of_ascii c in
  if Ascii.eqb c quotes || Ascii.eqb c backslash then String backslash (String c EmptyString)
  else if (n =? 8)%N then String backslash "b"
  else if (n =? 9)%N then String backslash "t"
  else if (n =? 10)%N then String backslash "n"
  else if (n =? 12)%N then String backslash "f"
  else if (n =? 13)%N then String backslash "r"
  else if (n <? 32)%N then
    String backslash (String "u" (String "0" (String "0" (String (hex_digit (n / 16)) (String (hex_digit (n mod 16)) EmptyString)))))
  else String c EmptyString.

Fixpoint escapes (s : string) : string :=
  match s with
  | EmptyString => EmptyString
  | String c s => escape c +:+ escapes s
  end.

Definition quote (s : string) : string := String quotes (escapes s +:+ String quotes EmptyString).

Fixpoint print (v : json) : string :=
  match v with
  | JUndef | JNull => "null"
  | JBool b => if b then "true" else "false"
  | JNum n => pretty n
  | JStr s => quote s
  | JArr l => "[" +:+ String.concat "," (map print l) +:+ "]"
  | JObj m =>
      "{" +:+ String.concat ","
        (flat_map (λ '(k, x), match x with JUndef => [] | _ => [quote k +:+ ":" +:+ print x] end) m) +:+ "}"
  end.

(** [JSON.stringify(v)] of [undefined] is [undefined]. *)
Definition stringify (v : json) : option string := match v with JUndef => None | _ => Some (print v) end.

(** ** [JSON.parse] *)

Definition is_space (c : ascii) : bool :=
  let n := N_of_ascii c in (n =? 32)%N || (n =? 9)%N || (n =? 10)%N || (n =? 13)%N.

Fixpoint skip (s : string) : string :=
  match s with
  | String c r => if is_space c then skip r else s
  | EmptyString => s
  end.

Definition hex_value (c : ascii) : option N :=
  let n := N_of_ascii c in
  if (48 <=? n)%N && (n <=? 57)%N then Some (n - 48)%N
  else if (97 <=? n)%N && (n <=? 102)%N then Some (n - 87)%N
  else if (65 <=? n)%N && (n <=? 70)%N then Some (n - 55)%N
  else None.

Definition unescape (c : ascii) : option ascii :=
  if Ascii.eqb c quotes || Ascii.eqb c backslash || Ascii.eqb c "/" then Some c
  else if Ascii.eqb c "b" then Some (ascii_of_N 8)
  else if Ascii.eqb c "t" then Some (ascii_of_N 9)
  else if Ascii.eqb c "n" then Some (ascii_of_N 10)
  else if Ascii.eqb c "f" then Some (ascii_of_N 12)
  else if Ascii.eqb c "r" then Some (ascii_of_N 13)
  else None.

(** The rest of a string after its opening quotes *)
Fixpoint parse_chars (s : string) : option (string * string) :=
  match s with
  | EmptyString => None
  | String c r =>
      if Ascii.eqb c quotes then Some (EmptyString, r)
      else if Ascii.eqb c backslash then
        match r with
        | EmptyString => None
        | String e r =>
            if Ascii.eqb e "u" then
              match r with
              | String a (String b (String c (String d r))) =>
                  a ← hex_value a; b ← hex_value b; c ← hex_value c; d ← hex_value d;
                  let n := (((a * 16 + b) * 16 + c) * 16 + d)%N in
                  if (n <? 256)%N then '(x, r) ← parse_chars r; Some (String (ascii_of_N n) x, r) else None
              | _ => None
              end
            else c ← unescape e; '(x, r) ← parse_chars r; Some (String c x, r)
        end
      else if (N_of_ascii c <? 32)%N then None
      else '(x, r) ← parse_chars r; Some (String c x, r)
  end.

Definition digit (c : ascii) : option N :=
  let n := N_of_ascii c in if (48 <=? n)%N && (n <=? 57)%N then Some (n - 48)%N else None.

(** All digits that follow *)
Fixpoint parse_digits (acc : N) (s : string) : N * string :=
  match s with
  | String c r => match digit c with Some d => parse_digits (acc * 10 + d)%N r | None => (acc, s) end
  | EmptyString => (acc, s)
  end.

(** A number without its sign; no digit may follow a leading zero. *)
Definition parse_natural (s : string) : option (N * string) :=
  match s with
  | String c r =>
      match digit c with
      | Some d =>
          let '(n, r) := if (d =? 0)%N then (0%N, r) else parse_digits d r in
          match r with
          | String c _ =>
              match digit c with
              | Some _ => None
              | None => if Ascii.eqb c "." || Ascii.eqb c "e" || Ascii.eqb c "E" then None else Some (n, r)
              end
          | EmptyString => Some (n, r)
          end
      | None => None
      end
  | EmptyString => None
  end.

Definition parse_number (s : string) : option (Z * string) :=
  match s with
  | String "-" r => '(n, r) ← parse_natural r; Some (- Z.of_N n, r)
  | _ => '(n, r) ← parse_natural s; Some (Z.of_N n, r)
  end.

(** [s] after the word [w] *)
Fixpoint expect (w s : string) : option string :=
  match w, s with
  | EmptyString, _ => Some s
  | String a w, String b s => if Ascii.eqb a b then expect w s else None
  | _, EmptyString => None
  end.

Fixpoint parse_value (fuel : nat) (s : string) : option (json * string) :=
  match fuel with
  | O => None
  | S fuel =>
      match skip s with
      | EmptyString => None
      | String c r =>
          if Ascii.eqb c quotes then '(x, r) ← parse_chars r; Some (JStr x, r)
          else if Ascii.eqb c "[" then
            match skip r with
            | String "]" r => Some (JArr [], r)
            | _ => '(l, r) ← parse_items fuel r; Some (JArr l, r)
            end
          else if Ascii.eqb c "{" then
            match skip r with
            | String "}" r => Some (JObj [], r)
            | _ => '(m, r) ← parse_members fuel [] r; Some (JObj m, r)
            end
          else if Ascii.eqb c "n" then r ← expect "ull" r; Some (JNull, r)
          else if Ascii.eqb c "t" then r ← expect "rue" r; Some (JBool true, r)
          else if Ascii.eqb c "f" then r ← expect "alse" r; Some (JBool false, r)
          else '(n, r) ← parse_number (String c r); Some (JNum n, r)
      end
  end
with parse_items (fuel : nat) (s : string) : option (list json * string) :=
  match fuel with
  | O => None
  | S fuel =>
      '(v, r) ← parse_value fuel s;
      match skip r with
      | String "," r => '(l, r) ← parse_items fuel r; Some (v :: l, r)
      | String "]" r => Some ([v], r)
      | _ => None
      end
  end
with parse_members (fuel : nat) (acc : OMap.t json) (s : string) : option (OMap.t json * string) :=
  match fuel with
  | O => None
  | S fuel =>
      match skip s with
      | String c r =>
          if Ascii.eqb c quotes then
            '(k, r) ← parse_chars r;
            match skip r with
            | String ":" r =>
                '(v, r) ← parse_value fuel r;
                let acc := OMap.set k v acc in
                match skip r with
                | String "," r => parse_members fuel acc r
                | String "}" r => Some (acc, r)
                | _ => None
                end
            | _ => None
            end
          else None
      | EmptyString => None
      end
  end.

(** [JSON.parse(text)]; [None] is a syntax error. *)
Definition parse (s : string) : option json :=
  '(v, r) ← parse_value (2 * String.length s + 2) s;
  match skip r with EmptyString => Some v | _ => None end.

End JSON.

(** ** Parsing what was printed *)

#[local] Arguments String.append !_ _ / : simpl nomatch.

Section theorems.
Import JSON.

(** Values that survive: without [undefined], and with each key of an object once *)
Fixpoint pure (v : json) : bool :=
  match v with
  | JUndef => false
  | JArr l => forallb pure l
  | JObj m => bool_decide (NoDup (OMap.keys m)) && forallb (λ '(k, x), pure x) m
  | _ => true
  end.

(** What may follow a number *)
Definition ends (rest : string) : Prop :=
  match rest with
  | EmptyString => True
  | String c _ => digit c = None ∧ Ascii.eqb c "." = false ∧ Ascii.eqb c "e" = false ∧ Ascii.eqb c "E" = false
  end.

(** *** Strings *)

Lemma parse_escape c r : parse_chars (escape c +:+ r) = ('(x, r) ← parse_chars r; Some (String c x, r)).
Proof. by destruct c as [[] [] [] [] [] [] [] []]. Qed.

Lemma parse_escapes s rest : parse_chars (escapes s +:+ String quotes rest) = Some (s, rest).
Proof. induction s as [|c s IH]; [done|]. cbn [escapes]. by rewrite append_assoc, parse_escape, IH. Qed.

(** *** Numbers *)

Lemma digit_char n : (n < 10)%N → digit (pretty_N_char n) = Some n.
Proof. intros Hn. destruct n as [|p]; [done|]. do 4 (destruct p as [p|p|]; try done); lia. Qed.

(** Division by ten, with what the printer of numbers needs of it *)
Lemma ten_cases x : (0 < x)%N → ((x < 10)%N ∧ (x / 10 = 0)%N ∧ (x mod 10 = x)%N) ∨ (0 < x / 10 < x)%N.
Proof.
  intros Hx. destruct (N.lt_ge_cases x 10) as [H|H].
  - left. split_and!; [done|by apply N.div_small|by apply N.mod_small].
  - right. pose proof (N.Div0.div_mod x 10) as H1. pose proof (N.mod_lt x 10 ltac:(lia)) as H2.
    generalize dependent (x / 10)%N. generalize dependent (x mod 10)%N. lia.
Qed.

Lemma parse_digits_go x s : (0 < x)%N → parse_digits 0 (pretty_N_go x s) = parse_digits x s.
Proof.
  revert s. induction (N.lt_wf_0 x) as [x _ IH]; intros s Hx. rewrite pretty_N_go_step by done.
  pose proof (N.mod_lt x 10 ltac:(lia)) as Hm.
  destruct (ten_cases x Hx) as [(H1 & -> & ->)|[H1 H2]].
  - rewrite pretty_N_go_0. simpl. rewrite digit_char by done. done.
  - rewrite IH by done. simpl. rewrite digit_char by done. f_equal. pose proof (N.Div0.div_mod x 10). lia.
Qed.

Lemma pretty_head x s : (0 < x)%N → ∃ d r, pretty_N_go x s = String (pretty_N_char d) r ∧ (0 < d < 10)%N.
Proof.
  revert s. induction (N.lt_wf_0 x) as [x _ IH]; intros s Hx. rewrite pretty_N_go_step by done.
  destruct (ten_cases x Hx) as [(H1 & -> & ->)|[H1 H2]]; [|by apply IH].
  rewrite pretty_N_go_0. by exists x, s.
Qed.

Lemma parse_digits_app x s rest : parse_digits x (s +:+ rest) =
  let '(n, r) := parse_digits x s in match r with EmptyString => parse_digits n rest | _ => (n, r +:+ rest) end.
Proof.
  revert x. induction s as [|c s IH]; intros x; [done|]. simpl. destruct (digit c); [apply IH|done].
Qed.

Lemma parse_digits_ends x rest : ends rest → parse_digits x rest = (x, rest).
Proof. destruct rest as [|c rest]; simpl; [done|]. by intros [-> _]. Qed.

Lemma ends_tail rest (n : N) : ends rest →
  match rest with
  | String c _ =>
      match digit c with
      | Some _ => None
      | None => if Ascii.eqb c "." || Ascii.eqb c "e" || Ascii.eqb c "E" then None else Some (n, rest)
      end
  | EmptyString => Some (n, rest)
  end = Some (n, rest).
Proof. destruct rest as [|c rest]; simpl; [done|]. by intros (-> & -> & -> & ->). Qed.

Lemma parse_natural_pretty (n : N) rest : ends rest → parse_natural (pretty n +:+ rest) = Some (n, rest).
Proof.
  intros He. unfold pretty, pretty_N. destruct (decide (n = 0)%N) as [->|Hn]; [by apply (ends_tail rest 0%N)|].
  destruct (pretty_head n EmptyString ltac:(lia)) as (d & r & Hp & Hd).
  pose proof (parse_digits_go n EmptyString ltac:(lia)) as Hgo. rewrite Hp in Hgo |- *. simpl in Hgo |- *.
  rewrite digit_char in Hgo |- * by lia. rewrite N.add_0_l in Hgo.
  rewrite (proj2 (N.eqb_neq d 0)) by lia. rewrite parse_digits_app, Hgo. rewrite (parse_digits_ends n rest He).
  by apply ends_tail.
Qed.

Lemma parse_number_pretty (n : Z) rest : ends rest → parse_number (pretty n +:+ rest) = Some (n, rest).
Proof.
  intros He. destruct n as [|p|p].
  - pose proof (parse_natural_pretty 0 rest He) as H. simpl in *. unfold parse_number. simpl. by rewrite H.
  - pose proof (parse_natural_pretty (N.pos p) rest He) as H. change (pretty (Z.pos p)) with (pretty (N.pos p)) in *.
    destruct (pretty_head (N.pos p) EmptyString ltac:(lia)) as (d & r & Hp & Hd).
    assert (pretty (N.pos p) = String (pretty_N_char d) r) as Hq by done. rewrite Hq in *. simpl.
    assert (Ascii.eqb (pretty_N_char d) "-" = false) as Hdash.
    { destruct d as [|q]; [done|]. do 4 (destruct q as [q|q|]; try done). }
    unfold parse_number. simpl in H. destruct (pretty_N_char d) as [[] [] [] [] [] [] [] []]; try discriminate Hdash;
      by rewrite H.
  - pose proof (parse_natural_pretty (N.pos p) rest He) as H. change (pretty (Z.neg p)) with (String "-" (pretty (N.pos p))).
    simpl. by rewrite H.
Qed.

(** *** First characters *)

Lemma number_head (n : Z) : ∃ c r, pretty n = String c r ∧ (c = "-"%char ∨ digit c ≠ None).
Proof.
  destruct n as [|p|p].
  - by exists "0"%char, EmptyString; split; [done|right].
  - destruct (pretty_head (N.pos p) EmptyString ltac:(lia)) as (d & r & Hp & Hd). exists (pretty_N_char d), r.
    split; [exact Hp|right]. by rewrite digit_char by lia.
  - eexists _, _. split; [reflexivity|by left].
Qed.

Lemma head_tests c : c = "-"%char ∨ digit c ≠ None →
  is_space c = false ∧ Ascii.eqb c quotes = false ∧ Ascii.eqb c "[" = false ∧ Ascii.eqb c "{" = false ∧
  Ascii.eqb c "n" = false ∧ Ascii.eqb c "t" = false ∧ Ascii.eqb c "f" = false ∧ Ascii.eqb c "]" = false.
Proof. intros [->|H]; [done|]. by destruct c as [[] [] [] [] [] [] [] []]; try done; destruct H. Qed.

Lemma print_head v : ∃ c r, print v = String c r ∧ is_space c = false ∧ Ascii.eqb c "]" = false.
Proof.
  destruct v as [| |[]|n|s|l|m]; try (eexists _, _; split; [reflexivity|done]).
  destruct (number_head n) as (c & r & H & Hc). destruct (head_tests c Hc) as (H1 & _ & _ & _ & _ & _ & _ & H2). eauto.
Qed.

(** *** Fuel *)

Definition needs (need : json → nat) (l : list json) : nat := foldr (λ x n, S (Nat.max (need x) n)) O l.

Fixpoint need (v : json) : nat :=
  match v with
  | JArr l => S (foldr (λ x n, S (Nat.max (need x) n)) O l)
  | JObj m => S (foldr (λ '(k, x) n, S (Nat.max (need x) n)) O m)
  | _ => 1%nat
  end.

Lemma need_arr l : need (JArr l) = S (needs need l).
Proof. done. Qed.
Lemma need_obj m : need (JObj m) = S (needs need (map snd m)).
Proof. simpl. f_equal. induction m as [|[k x] m IH]; [done|]. simpl. by rewrite IH. Qed.

(** *** Arrays and objects *)

Lemma skip_not c r : is_space c = false → skip (String c r) = String c r.
Proof. intros H. simpl. by rewrite H. Qed.

Definition parses (v : json) : Prop := pure v = true → ∀ fuel rest, (need v ≤ fuel)%nat → ends rest →
  parse_value fuel (print v +:+ rest) = Some (v, rest).

Lemma parse_items_print l : Forall parses l → l ≠ [] → forallb pure l = true → ∀ fuel rest, (needs need l ≤ fuel)%nat →
  parse_items fuel (String.concat "," (map print l) +:+ String "]" rest) = Some (l, rest).
Proof.
  induction l as [|v l IH]; [done|]. intros Hl _ Hp fuel rest Hf. apply Forall_cons in Hl as [Hv Hl]. simpl in Hp.
  apply andb_true_iff in Hp as [Hpv Hp]. simpl in Hf. destruct fuel as [|fuel]; [lia|]. cbn [parse_items map].
  destruct l as [|v' l].
  - cbn [map String.concat]. rewrite (Hv Hpv) by (done || lia). done.
  - change (String.concat "," (print v :: map print (v' :: l))) with (print v +:+ ("," +:+ String.concat "," (map print (v' :: l)))).
    rewrite !append_assoc, (Hv Hpv) by (done || lia). simpl. simpl in IH, Hf. by rewrite IH by (done || lia).
Qed.

Definition member_text (e : string * json) : string := quote e.1 +:+ ":" +:+ print e.2.

Lemma print_obj m : forallb (λ '(k, x), pure x) m = true →
  print (JObj m) = "{" +:+ String.concat "," (map member_text m) +:+ "}".
Proof.
  intros Hp. cbn [print]. f_equal. f_equal. f_equal. induction m as [|[k x] m IH]; [done|]. simpl in *.
  apply andb_true_iff in Hp as [Hx Hp]. rewrite IH by done. by destruct x.
Qed.

Lemma parse_member fuel acc k v x : parse_value fuel (print v +:+ x) = Some (v, x) →
  parse_members (S fuel) acc (member_text (k, v) +:+ x) =
  match skip x with
  | String "," r => parse_members fuel (OMap.set k v acc) r
  | String "}" r => Some (OMap.set k v acc, r)
  | _ => None
  end.
Proof.
  intros Hv. assert (member_text (k, v) +:+ x = String quotes (escapes k +:+ String quotes (String ":" (print v +:+ x)))) as ->.
  { unfold member_text, quote. cbn [fst snd]. rewrite !append_assoc. simpl. by rewrite !append_assoc. }
  cbn [parse_members]. rewrite skip_not by done. rewrite Ascii.eqb_refl, parse_escapes.
  cbn [option_bind mbind]. rewrite (skip_not ":") by done. cbn iota. by rewrite Hv.
Qed.

Lemma set_fresh {V} k (v : V) m : k ∉ OMap.keys m → OMap.set k v m = m ++ [(k, v)].
Proof.
  induction m as [|[k' v'] m IH]; simpl; intros Hk; [done|]. rewrite not_elem_of_cons in Hk. destruct Hk as [H1 H2].
  apply String.eqb_neq in H1. rewrite H1. by rewrite IH.
Qed.

Lemma parse_members_print m : Forall (λ e, parses e.2) m → m ≠ [] → forallb (λ '(k, x), pure x) m = true →
  ∀ acc fuel rest, NoDup (OMap.keys acc ++ OMap.keys m) → (needs need (map snd m) ≤ fuel)%nat →
  parse_members fuel acc (String.concat "," (map member_text m) +:+ String "}" rest) = Some (acc ++ m, rest).
Proof.
  induction m as [|[k v] m IH]; [done|]. intros Hm _ Hp acc fuel rest Hnd Hf. apply Forall_cons in Hm as [Hv Hm]. simpl in Hp, Hv.
  apply andb_true_iff in Hp as [Hpv Hp]. simpl in Hf. destruct fuel as [|fuel]; [lia|]. cbn [map].
  assert (OMap.set k v acc = acc ++ [(k, v)]) as Hset.
  { apply set_fresh. intros Hk. apply NoDup_app in Hnd as (_ & Hd & _). apply (Hd k); [done|left]. }
  assert (NoDup (OMap.keys (acc ++ [(k, v)]) ++ OMap.keys m)) as Hnd'.
  { unfold OMap.keys in *. rewrite map_app. simpl. by rewrite <- app_assoc. }
  destruct m as [|e m].
  - cbn [map String.concat]. rewrite parse_member by (apply (Hv Hpv); [lia|done]). simpl. by rewrite Hset.
  - change (String.concat "," (member_text (k, v) :: map member_text (e :: m))) with
      (member_text (k, v) +:+ ("," +:+ String.concat "," (map member_text (e :: m)))).
    rewrite !append_assoc. rewrite parse_member by (apply (Hv Hpv); [lia|done]).
    change ("," +:+ ?x) with (String "," x). rewrite skip_not by done. rewrite Hset, IH by (done || lia). by rewrite <- app_assoc.
Qed.

Lemma parse_value_print v : parses v.
Proof.
  induction v as [| |b|n|s|l IH|m IH] using json_rec; intros Hp fuel rest Hf He; (destruct fuel as [|fuel]; [simpl in Hf; lia|]); try done.
  - by destruct b.
  - destruct (number_head n) as (c & r & H & Hc). destruct (head_tests c Hc) as (H1 & H2 & H3 & H4 & H5 & H6 & H7 & H8).
    pose proof (parse_number_pretty n rest He) as Hn. cbn [print]. rewrite H in *. simpl in *.
    rewrite H1, H2, H3, H4, H5, H6, H7, Hn. done.
  - cbn [print]. unfold quote. simpl. rewrite append_assoc. simpl. by rewrite parse_escapes.
  - cbn [print]. rewrite !append_assoc. simpl. destruct l as [|v l]; [done|].
    rewrite need_arr in Hf. pose proof (parse_items_print (v :: l) IH ltac:(done) Hp fuel rest ltac:(lia)) as Hi.
    destruct (print_head v) as (c & r & Hv & Hs & Hc).
    assert (∃ r', String.concat "," (map print (v :: l)) +:+ String "]" rest = String c r') as [r' Hr].
    { simpl. destruct (map print l); rewrite Hv; simpl; eauto. }
    rewrite Hr in Hi |- *. simpl. rewrite Hs. destruct c as [[] [] [] [] [] [] [] []]; try discriminate Hc; by rewrite Hi.
  - simpl in Hp. apply andb_true_iff in Hp as [Hnd Hp]. apply bool_decide_eq_true in Hnd. rewrite need_obj in Hf.
    rewrite print_obj by done. rewrite !append_assoc. simpl. destruct m as [|[k v] m]; [done|].
    pose proof (parse_members_print ((k, v) :: m) IH ltac:(done) Hp [] fuel rest Hnd ltac:(lia)) as Hi.
    assert (∃ r', String.concat "," (map member_text ((k, v) :: m)) +:+ String "}" rest = String quotes r') as [r' Hr].
    { simpl. destruct (map member_text m); unfold member_text, quote; simpl; eauto. }
    rewrite Hr in Hi |- *. simpl. by rewrite Hi.
Qed.

(** *** The fuel is enough *)

Lemma length_append (a b : string) : String.length (a +:+ b) = (String.length a + String.length b)%nat.
Proof. induction a as [|c a IH]; [done|]. simpl. by rewrite IH. Qed.

Lemma append_nil (a : string) : a +:+ EmptyString = a.
Proof. induction a as [|c a IH]; [done|]. simpl. by rewrite IH. Qed.

(** The texts of a list, each with the comma or bracket after it *)
Lemma length_concat l : l ≠ [] →
  S (String.length (String.concat "," l)) = foldr (λ x n, (String.length x + 1 + n)%nat) O l.
Proof.
  induction l as [|x l IH]; [done|]. intros _. destruct l as [|y l]; [simpl; lia|].
  change (String.concat "," (x :: y :: l)) with (x +:+ ("," +:+ String.concat "," (y :: l))).
  rewrite !length_append. cbn [foldr]. cbn [foldr] in IH. specialize (IH ltac:(done)).
  change (String.length ",") with 1%nat. lia.
Qed.

Lemma needs_le {A} (value : A → json) (shown : A → string) l :
  Forall (λ x, need (value x) ≤ 2 * String.length (shown x))%nat l →
  (needs need (map value l) ≤ 2 * foldr (λ x n, (String.length x + 1 + n)%nat) O (map shown l))%nat.
Proof. induction 1 as [|x l Hx Hl IH]; [done|]. unfold needs in *. cbn [map foldr]. lia. Qed.

Lemma need_le v : pure v = true → (need v ≤ 2 * String.length (print v))%nat.
Proof.
  induction v as [| |b|n|s|l IH|m IH] using json_rec; intros Hp; try (simpl; lia).
  - destruct b; simpl; lia.
  - destruct (number_head n) as (c & r & H & _). cbn [print need]. rewrite H. simpl. lia.
  - rewrite need_arr. cbn [print]. rewrite !length_append. destruct l as [|v l]; [simpl; lia|].
    assert (Forall (λ x, need x ≤ 2 * String.length (print x))%nat (v :: l)) as Hl.
    { simpl in Hp. change (forallb pure (v :: l) = true) in Hp. rewrite forallb_forall in Hp. rewrite Forall_forall in IH |- *.
      intros x Hx. apply IH; [done|]. apply Hp. by apply list_elem_of_In. }
    apply (needs_le (λ x, x)) in Hl. rewrite map_id in Hl.
    pose proof (length_concat (map print (v :: l)) ltac:(done)) as Hc. change (String.length "[") with 1%nat.
    change (String.length "]") with 1%nat. lia.
  - rewrite need_obj. simpl in Hp. apply andb_true_iff in Hp as [_ Hp].
    rewrite print_obj by done. rewrite !length_append. destruct m as [|e m]; [simpl; lia|].
    assert (Forall (λ e, need e.2 ≤ 2 * String.length (member_text e))%nat (e :: m)) as Hm.
    { rewrite forallb_forall in Hp. rewrite Forall_forall in IH |- *. intros [k x] Hx. specialize (IH _ Hx).
      apply list_elem_of_In in Hx. specialize (Hp _ Hx). specialize (IH Hp). simpl in *. unfold member_text.
      rewrite !length_append. simpl. lia. }
    apply (needs_le snd) in Hm.
    pose proof (length_concat (map member_text (e :: m)) ltac:(done)) as Hc. change (String.length "{") with 1%nat.
    change (String.length "}") with 1%nat. lia.
Qed.

(** What was printed is parsed. *)
Lemma parse_print v : pure v = true → parse (print v) = Some v.
Proof.
  intros Hp. unfold parse. pose proof (parse_value_print v Hp (2 * String.length (print v) + 2)%nat EmptyString) as H.
  rewrite append_nil in H. rewrite H; [done| |done]. pose proof (need_le v Hp). lia.
Qed.

(** ** Values with [undefined]

    A property that is [undefined] is not written and an [undefined] item becomes [null]:
    [clean v] is what is left of [v]. *)

Definition member_or_none (k : string) (v : json) : OMap.t json := match v with JUndef => [] | _ => [(k, v)] end.
Definition item_or_null (v : json) : json := match v with JUndef => JNull | _ => v end.

Fixpoint clean (v : json) : json :=
  match v with
  | JArr l => JArr (map (λ x, item_or_null (clean x)) l)
  | JObj m => JObj (flat_map (λ '(k, x), member_or_none k (clean x)) m)
  | _ => v
  end.
Definition clean_members (m : OMap.t json) : OMap.t json := flat_map (λ '(k, x), member_or_none k (clean x)) m.

(** Each key of an object is there once, as in every object of the language. *)
Fixpoint proper (v : json) : bool :=
  match v with
  | JArr l => forallb proper l
  | JObj m => bool_decide (NoDup (OMap.keys m)) && forallb (λ '(k, x), proper x) m
  | _ => true
  end.

Lemma clean_undef v : clean v = JUndef ↔ v = JUndef.
Proof. by destruct v. Qed.

Lemma print_clean v : print (clean v) = print v.
Proof.
  induction v as [| | | | |l IH|m IH] using json_rec; try done.
  - cbn [clean print]. rewrite map_map. do 3 f_equal. apply map_ext_Forall, list.Forall_impl with (1 := IH). intros x <-. by destruct (clean x).
  - cbn [clean print]. do 3 f_equal. induction IH as [|[k x] m Hx _ IH]; [done|]. cbn [flat_map snd] in *.
    rewrite flat_map_app, IH. f_equal. rewrite <- Hx. destruct x; cbn; by rewrite ?app_nil_r.
Qed.

Lemma clean_keys m : OMap.keys (clean_members m) `sublist_of` OMap.keys m.
Proof.
  induction m as [|[k x] m IH]; [done|]. cbn. destruct (clean x); cbn; try (by apply sublist_skip). by constructor.
Qed.

Lemma pure_clean v : proper v = true → v ≠ JUndef → pure (clean v) = true.
Proof.
  induction v as [| | | | |l IH|m IH] using json_rec; try done.
  - intros Hp _. cbn [clean pure proper] in *. rewrite forallb_forall in Hp |- *. intros y [x [<- Hx]]%in_map_iff.
    rewrite list.Forall_forall in IH. apply list_elem_of_In in Hx as Hin. specialize (IH x Hin (Hp x Hx)).
    destruct x; try done; by apply IH.
  - intros Hp _. cbn [clean pure proper] in *. apply andb_true_iff in Hp as [Hnd Hp]. apply andb_true_iff. split.
    + apply bool_decide_eq_true in Hnd. apply bool_decide_eq_true. eapply sublist_NoDup; [apply Hnd|]. apply clean_keys.
    + clear Hnd. induction IH as [|[k x] m Hx _ IH]; [done|]. simpl in Hp. apply andb_true_iff in Hp as [H1 H2].
      simpl. rewrite forallb_app. apply andb_true_iff. split; [|by apply IH]. simpl in Hx.
      assert (x ≠ JUndef → pure (clean x) = true) as Hx' by auto. clear Hx. unfold member_or_none.
      destruct (clean x) eqn:E; try done; cbn [forallb]; rewrite andb_true_r; apply Hx'; by intros ->.
Qed.

Lemma clean_pure v : pure v = true → clean v = v.
Proof.
  induction v as [| | | | |l IH|m IH] using json_rec; try done.
  - intros Hp. cbn [clean pure] in *. f_equal. induction IH as [|x l Hx _ IH]; [done|]. simpl in Hp. apply andb_true_iff in Hp as [H1 H2].
    simpl. rewrite Hx, IH by done. by destruct x.
  - intros Hp. cbn [clean pure] in *. apply andb_true_iff in Hp as [_ Hp]. f_equal. induction IH as [|[k x] m Hx _ IH]; [done|].
    simpl in Hp. apply andb_true_iff in Hp as [H1 H2]. simpl. rewrite IH by done. simpl in Hx. rewrite Hx by done. by destruct x.
Qed.

Lemma pure_proper v : pure v = true → proper v = true.
Proof.
  induction v as [| | | | |l IH|m IH] using json_rec; try done; cbn [pure proper].
  - induction IH as [|x l Hx _ IH]; [done|]. simpl. rewrite !andb_true_iff. naive_solver.
  - rewrite !andb_true_iff. intros [Hnd Hp]. split; [done|]. clear Hnd. induction IH as [|[k x] m Hx _ IH]; [done|].
    simpl in *. rewrite !andb_true_iff in *. naive_solver.
Qed.

Lemma parse_print_clean v : proper v = true → v ≠ JUndef → parse (print v) = Some (clean v).
Proof. intros Hp Hu. rewrite <- print_clean. apply parse_print. by apply pure_clean. Qed.

(** What reading a property of the arrived object gives *)
Lemma get_clean k m : NoDup (OMap.keys m) →
  OMap.get k (clean_members m) = match OMap.get k m with Some JUndef | None => None | Some v => Some (clean v) end.
Proof.
  induction m as [|[k' x] m IH]; [done|]. intros [Hk Hnd]%NoDup_cons. cbn [clean_members flat_map OMap.get].
  fold (clean_members m). destruct (String.eqb_spec k k') as [->|Hne].
  - assert (OMap.get k' (clean_members m) = None) as Hno.
    { apply OMap.get_None_keys. intros Hin. apply Hk. by apply (elem_of_sublist _ _ _ Hin), clean_keys. }
    destruct x; cbn; by rewrite ?String.eqb_refl.
  - apply String.eqb_neq in Hne. destruct x; cbn; rewrite ?Hne; by apply IH.
Qed.

End theorems.
