(* ===== verification/Serializers.v ===== *)
(** * Serializers: [serializers/json.js] and [serializers/json-extended.js]

    Module [JSONExt] is the extended serializer, which writes the types JSON does not have
    (big integers, dates, maps, sets, regular expressions, buffers and users' own types) as
    strings with a prefix, and escapes plain strings that look like one.  [replacer] and
    [reviver] are the functions handed to [JSON.stringify] and [JSON.parse]; [encode] and
    [revive] are the two functions' walks over a value.  [Base64] is what [Buffer] does. *)

From stdpp Require Import base list strings option pretty.
From Stdlib Require Import ZArith Lia Ascii.
From S2P Require Import Prelude JsonText.

Open Scope Z_scope.
#[local] Arguments String.append !_ _ / : simpl nomatch.

(** [s.slice(n)] and [s.slice(0, n)] *)
Fixpoint str_drop (n : nat) (s : string) : string :=
  match n, s with
  | S n, String _ s => str_drop n s
  | _, _ => s
  end.
Fixpoint str_take (n : nat) (s : string) : string :=
  match n, s with
  | S n, String c s => String c (str_take n s)
  | _, _ => EmptyString
  end.

(** [s.startsWith(p)] *)
Fixpoint starts_with (p s : string) : bool :=
  match p, s with
  | EmptyString, _ => true
  | String a p, String b s => Ascii.eqb a b && starts_with p s
  | _, _ => false
  end.

(** The text before the first [c] and the text after it *)
Fixpoint cut (c : ascii) (s : string) : string * option string :=
  match s with
  | EmptyString => (EmptyString, None)
  | String d s => if Ascii.eqb c d then (EmptyString, Some s) else let '(a, b) := cut c s in (String d a, b)
  end.

(** ** Base64 *)

Module Base64.

Definition char_of (n : N) : ascii :=
  ascii_of_N (if (n <? 26)%N then 65 + n else if (n <? 52)%N then 71 + n else if (n <? 62)%N then n - 4
              else if (n =? 62)%N then 43 else 47)%N.

(** Also the characters of the alphabet for addresses *)
Definition value_of (c : ascii) : option N :=
  let n := N_of_ascii c in
  if (65 <=? n)%N && (n <=? 90)%N then Some (n - 65)%N
  else if (97 <=? n)%N && (n <=? 122)%N then Some (n - 71)%N
  else if (48 <=? n)%N && (n <=? 57)%N then Some (n + 4)%N
  else if (n =? 43)%N || (n =? 45)%N then Some 62%N
  else if (n =? 47)%N || (n =? 95)%N then Some 63%N
  else None.

(** [buffer.toString('base64')] *)
Fixpoint encode (s : string) : string :=
  match s with
  | EmptyString => EmptyString
  | String a EmptyString =>
      let a := N_of_ascii a in
      String (char_of (a / 4)) (String (char_of (a mod 4 * 16)) "==")
  | String a (String b EmptyString) =>
      let a := N_of_ascii a in let b := N_of_ascii b in
      String (char_of (a / 4)) (String (char_of (a mod 4 * 16 + b / 16)) (String (char_of (b mod 16 * 4)) "="))
  | String a (String b (String c s)) =>
      let a := N_of_ascii a in let b := N_of_ascii b in let c := N_of_ascii c in
      String (char_of (a / 4)) (String (char_of (a mod 4 * 16 + b / 16))
        (String (char_of (b mod 16 * 4 + c / 64)) (String (char_of (c mod 64)) (encode s))))
  end.

(** The values of the characters before the first [=]; others are skipped. *)
Fixpoint values (s : string) : list N :=
  match s with
  | EmptyString => []
  | String c s => if Ascii.eqb c "=" then [] else match value_of c with Some v => v :: values s | None => values s end
  end.

Fixpoint bytes (l : list N) : string :=
  match l with
  | a :: b :: c :: d :: l =>
      String (ascii_of_N (a * 4 + b / 16)) (String (ascii_of_N (b mod 16 * 16 + c / 4))
        (String (ascii_of_N (c mod 4 * 64 + d)) (bytes l)))
  | [a; b; c] => String (ascii_of_N (a * 4 + b / 16)) (String (ascii_of_N (b mod 16 * 16 + c / 4)) EmptyString)
  | [a; b] => String (ascii_of_N (a * 4 + b / 16)) EmptyString
  | _ => EmptyString
  end.

(** [Buffer.from(s, 'base64')] *)
Definition decode (s : string) : string := bytes (values s).

Lemma char_value n : (n < 64)%N → value_of (char_of n) = Some n ∧ Ascii.eqb (char_of n) "=" = false.
Proof.
  intros Hn. assert (forallb (λ n, match value_of (char_of n) with Some m => (m =? n)%N | None => false end &&
    negb (Ascii.eqb (char_of n) "=")) (map N.of_nat (seq 0 64)) = true) as H by (vm_compute; reflexivity).
  rewrite forallb_forall in H. specialize (H n). rewrite andb_true_iff, negb_true_iff in H.
  destruct H as [H1 H2].
  - apply in_map_iff. exists (N.to_nat n). split; [lia|]. apply in_seq. lia.
  - destruct (value_of (char_of n)); [|done]. apply N.eqb_eq in H1. by subst.
Qed.

Lemma values_char n s : (n < 64)%N → values (String (char_of n) s) = n :: values s.
Proof. intros Hn. destruct (char_value n Hn) as [H1 H2]. simpl. by rewrite H2, H1. Qed.

Lemma byte_bound c : (N_of_ascii c < 256)%N.
Proof. apply N_ascii_bounded. Qed.

Lemma high a b : (a < 256 → b < 16 → a / 4 * 4 + (a mod 4 * 16 + b) / 16 = a)%N.
Proof.
  intros Ha Hb. rewrite N.div_add_l by done. rewrite (N.div_small b 16) by done. pose proof (N.Div0.div_mod a 4).
  generalize dependent (a / 4)%N. generalize dependent (a mod 4)%N. lia.
Qed.
Lemma middle a b c : (b < 256 → c < 4 → (a * 16 + b / 16) mod 16 * 16 + (b mod 16 * 4 + c) / 4 = b)%N.
Proof.
  intros Hb Hc. assert (b / 16 < 16)%N as H by (apply N.Div0.div_lt_upper_bound; lia).
  rewrite N.div_add_l by done. rewrite (N.div_small c 4) by done. rewrite (N.add_comm (a * 16)), N.Div0.mod_add.
  rewrite N.mod_small by done. pose proof (N.Div0.div_mod b 16).
  generalize dependent (b / 16)%N. generalize dependent (b mod 16)%N. lia.
Qed.
Lemma low b c : (c < 256 → (b * 4 + c / 64) mod 4 * 64 + c mod 64 = c)%N.
Proof.
  intros Hc. assert (c / 64 < 4)%N as H by (apply N.Div0.div_lt_upper_bound; lia).
  rewrite (N.add_comm (b * 4)), N.Div0.mod_add, N.mod_small by done. pose proof (N.Div0.div_mod c 64).
  generalize dependent (c / 64)%N. generalize dependent (c mod 64)%N. lia.
Qed.

Lemma round_trip s : decode (encode s) = s.
Proof.
  unfold decode.
  assert (∀ n s, (String.length s < n)%nat → bytes (values (encode s)) = s) as H; [|by apply (H (S (String.length s))); lia].
  clear s. induction n as [|n IH]; [lia|]. intros [|a [|b [|c s]]] Hs; [done| | |].
  - cbn [encode]. pose proof (byte_bound a).
    assert (N_of_ascii a / 4 < 64)%N by (apply N.Div0.div_lt_upper_bound; lia). pose proof (N.mod_lt (N_of_ascii a) 4 ltac:(lia)).
    rewrite !values_char by lia. cbn [values Ascii.eqb bytes]. change (values "==") with (@nil N). cbn [bytes].
    rewrite <- (N.add_0_r (_ mod 4 * 16)), high, ascii_N_embedding by lia. done.
  - cbn [encode]. pose proof (byte_bound a). pose proof (byte_bound b).
    assert (N_of_ascii a / 4 < 64)%N by (apply N.Div0.div_lt_upper_bound; lia). pose proof (N.mod_lt (N_of_ascii a) 4 ltac:(lia)).
    assert (N_of_ascii b / 16 < 16)%N by (apply N.Div0.div_lt_upper_bound; lia). pose proof (N.mod_lt (N_of_ascii b) 16 ltac:(lia)).
    rewrite !values_char by lia. change (values "=") with (@nil N). cbn [bytes].
    rewrite high, <- (N.add_0_r (_ mod 16 * 4)), middle, !ascii_N_embedding by lia. done.
  - cbn [encode]. pose proof (byte_bound a). pose proof (byte_bound b). pose proof (byte_bound c).
    assert (N_of_ascii a / 4 < 64)%N by (apply N.Div0.div_lt_upper_bound; lia). pose proof (N.mod_lt (N_of_ascii a) 4 ltac:(lia)).
    assert (N_of_ascii b / 16 < 16)%N by (apply N.Div0.div_lt_upper_bound; lia). pose proof (N.mod_lt (N_of_ascii b) 16 ltac:(lia)).
    assert (N_of_ascii c / 64 < 4)%N by (apply N.Div0.div_lt_upper_bound; lia). pose proof (N.mod_lt (N_of_ascii c) 64 ltac:(lia)).
    rewrite !values_char by lia. cbn [bytes]. rewrite high, middle, low, !ascii_N_embedding by lia. simpl in Hs.
    rewrite IH by lia. done.
Qed.

End Base64.

(** ** The JSON serializer *)

Module JSONSerializer.

(** [serialize(obj)]: what is not serializable throws *)
Definition serialize (v : json) : option string := JSON.stringify v.
(** [deserialize(buf)] *)
Definition deserialize (s : string) : option json := JSON.parse s.

End JSONSerializer.

(** ** The extended JSON serializer *)

Module JSONExt.

(** A key of a [Map] *)
Inductive key := KStr (s : string) | KNum (n : Z) | KBool (b : bool).

(** Values of the language.  A date holds its time, [None] for an invalid one; [VInst] is
    an instance of a users' class with its own properties. *)
Inductive value :=
| VUndef
| VNull
| VBool (b : bool)
| VNum (n : Z)
| VStr (s : string)
| VBigInt (n : Z)
| VDate (t : option Z)
| VMap (m : list (key * value))
| VSet (l : list value)
| VRegExp (flags source : string)
| VBuffer (bytes : string)
| VArr (l : list value)
| VObj (m : OMap.t value)
| VInst (class : string) (m : OMap.t value).

(** A type that [opts.customs] adds: the users' functions, of the value alone *)
Record custom := Custom {
  prefix : string;
  check : value → bool;
  serialize_ : value → string;
  deserialize_ : string → value
}.

Definition PREFIX_BIGINT : string := "[[BI]]".
Definition PREFIX_MAP : string := "[[MP]]".
Definition PREFIX_SET : string := "[[ST]]".
Definition PREFIX_DATE : string := "[[DT]]".
Definition PREFIX_BUFFER : string := "[[BF]]".
Definition PREFIX_REGEXP : string := "[[RE]]".
Definition PREFIX_ESCAPED_STRING : string := "[[ES]]".

Definition key_text (k : key) : string :=
  match k with KStr s => s | KNum n => pretty n | KBool b => if b then "true" else "false" end.
Definition key_value (k : key) : value :=
  match k with KStr s => VStr s | KNum n => VNum n | KBool b => VBool b end.

(** [BigInt(s)] and [Number(s)] of decimal notation; other notations are not modelled *)
Definition integer_of (s : string) : option Z :=
  match s with
  | EmptyString => Some 0
  | String c r =>
      let '(minus, r) := if Ascii.eqb c "-" then (true, r) else (false, s) in
      match r with
      | EmptyString => None
      | _ => match JSON.parse_digits 0 r with
             | (n, EmptyString) => Some (if minus then - Z.of_N n else Z.of_N n)
             | _ => None
             end
      end
  end.

(** The order of the properties of an object: those with array indices as keys come first, in the
    order of the indices, the others in the order in which they were added. *)
Definition rank (k : string) : Z :=
  match integer_of k with
  | Some n => if (0 <=? n) && (n <? 2^32 - 1) && String.eqb k (pretty n) then n else 2^32
  | None => 2^32
  end.
Fixpoint add_property {V} (k : string) (v : V) (m : OMap.t V) : OMap.t V :=
  match m with
  | [] => [(k, v)]
  | (k', v') :: m' => if rank k <=? rank k' then (k, v) :: m else (k', v') :: add_property k v m'
  end.
Definition in_order {V} (m : OMap.t V) : OMap.t V := foldr (λ '(k, v), add_property k v) [] m.

(** An object with the given properties: of equal keys the last value stays, at the first place *)
Definition of_list {V} (l : list (string * V)) : OMap.t V := in_order (foldl (λ m '(k, v), OMap.set k v m) [] l).

(** [Object.fromEntries(map)] *)
Definition fromEntries (m : list (key * value)) : OMap.t value := of_list (map (λ '(k, x), (key_text k, x)) m).

Section serializer.
Context (customs : list custom).
(** Whether [new RegExp(source, flags)] accepts its arguments *)
Context (valid_regexp : string → string → bool).

Definition tag (c : custom) : string := "[[" +:+ prefix c +:+ "]]".

(** The first custom type that takes the value *)
Definition custom_text (v : value) : option string :=
  match Arr.find (λ c, check c v) customs with
  | Some c => Some (tag c +:+ serialize_ c v)
  | None => None
  end.

Definition or_custom (v : value) (j : json) : json := match custom_text v with Some t => JStr t | None => j end.

Definition escape (s : string) : string := if starts_with "[[" s then PREFIX_ESCAPED_STRING +:+ s else s.

(** What [JSON.stringify] writes of a value with [replacer] *)
Fixpoint encode (v : value) : json :=
  match v with
  | VUndef => JUndef
  | VNull | VDate None => JNull
  | VBigInt n => JStr (PREFIX_BIGINT +:+ pretty n)
  | VDate (Some t) => JStr (PREFIX_DATE +:+ pretty t)
  | VMap m =>
      JStr (PREFIX_MAP +:+ JSON.print
        (or_custom (VObj (fromEntries m)) (JObj (of_list (map (λ '(k, x), (key_text k, encode x)) m)))))
  | VSet l => JStr (PREFIX_SET +:+ JSON.print (or_custom (VArr l) (JArr (map encode l))))
  | VRegExp flags source => JStr (PREFIX_REGEXP +:+ flags +:+ "|" +:+ source)
  | VBuffer b => JStr (PREFIX_BUFFER +:+ Base64.encode b)
  | VBool b => or_custom v (JBool b)
  | VNum n => or_custom v (JNum n)
  | VStr s => or_custom v (JStr (escape s))
  | VArr l => or_custom v (JArr (map encode l))
  | VObj m | VInst _ m => or_custom v (JObj (map (λ '(k, x), (k, encode x)) m))
  end.

(** [serialize(obj)] *)
Definition serialize (v : value) : option string := JSON.stringify (encode v).

Definition chars (s : string) : list value := map (λ c, VStr (String c EmptyString)) (String.list_ascii_of_string s).
Definition numbers (s : string) : list value := map (λ c, VNum (Z.of_N (N_of_ascii c))) (String.list_ascii_of_string s).
Definition indexed (l : list value) : list (key * value) := imap (λ i x, (KStr (pretty i), x)) l.

(** [Object.entries(v)]; it throws for [null] and [undefined]. *)
Definition entries (v : value) : option (list (key * value)) :=
  match v with
  | VUndef | VNull => None
  | VObj m | VInst _ m => Some (map (λ '(k, x), (KStr k, x)) m)
  | VArr l => Some (indexed l)
  | VStr s => Some (indexed (chars s))
  | VBuffer b => Some (indexed (numbers b))
  | _ => Some []
  end.

(** What a [Set] takes from its argument, which it must be able to iterate *)
Definition iterate (v : value) : option (list value) :=
  match v with
  | VUndef | VNull => Some []
  | VArr l | VSet l => Some l
  | VMap m => Some (map (λ '(k, x), VArr [key_value k; x]) m)
  | VStr s => Some (chars s)
  | VBuffer b => Some (numbers b)
  | _ => None
  end.

(** Equal primitive values; objects are only equal to themselves. *)
Definition same (v w : value) : bool :=
  match v, w with
  | VUndef, VUndef | VNull, VNull => true
  | VBool b, VBool c => Bool.eqb b c
  | VNum n, VNum m | VBigInt n, VBigInt m => n =? m
  | VStr s, VStr t => String.eqb s t
  | _, _ => false
  end.

(** [new Set(l)] of fresh values *)
Definition set_of (l : list value) : list value :=
  foldl (λ acc x, if existsb (same x) acc then acc else acc ++ [x]) [] l.

Section revive.
(** [this.deserialize] of a text inside a string *)
Context (nested : string → option value).

(** [reviver(key, value)] of a string *)
Definition reviver (s : string) : option value :=
  if starts_with "[[" s then
    let t := str_take 6 s in
    let rest := str_drop 6 s in
    if String.eqb t PREFIX_BIGINT then n ← integer_of rest; Some (VBigInt n)
    else if String.eqb t PREFIX_DATE then Some (VDate (integer_of rest))
    else if String.eqb t PREFIX_MAP then v ← nested rest; m ← entries v; Some (VMap m)
    else if String.eqb t PREFIX_SET then v ← nested rest; l ← iterate v; Some (VSet (set_of l))
    else if String.eqb t PREFIX_BUFFER then Some (VBuffer (Base64.decode rest))
    else if String.eqb t PREFIX_REGEXP then
      let '(flags, source) := cut "|" rest in
      let source := default EmptyString source in
      if valid_regexp flags source then
        Some (VRegExp flags (match source with EmptyString => "(?:)" | _ => source end))
      else None
    else if String.eqb t PREFIX_ESCAPED_STRING then Some (VStr rest)
    else match Arr.find (λ c, starts_with (tag c) s) customs with
         | Some c => Some (deserialize_ c (str_drop (String.length (prefix c) + 4) s))
         | None => Some (VStr s)
         end
  else Some (VStr s).

(** [JSON.parse] with [reviver]; a property revived to [undefined] is deleted. *)
Fixpoint revive (j : json) : option value :=
  match j with
  | JUndef => Some VUndef
  | JNull => Some VNull
  | JBool b => Some (VBool b)
  | JNum n => Some (VNum n)
  | JStr s => reviver s
  | JArr l =>
      l ← (fix go l := match l with [] => Some [] | x :: l => x ← revive x; l ← go l; Some (x :: l) end) l;
      Some (VArr l)
  | JObj m =>
      m ← (fix go m :=
             match m with
             | [] => Some []
             | (k, x) :: m => x ← revive x; m ← go m; Some (match x with VUndef => m | _ => (k, x) :: m end)
             end) m;
      Some (VObj m)
  end.

End revive.

(** [deserialize(buf)]; each text inside a string takes one unit of fuel. *)
Fixpoint deserialize_fuel (fuel : nat) (s : string) : option value :=
  match fuel with
  | O => None
  | S fuel => j ← JSON.parse s; revive (deserialize_fuel fuel) j
  end.
Definition deserialize (s : string) : option value := deserialize_fuel (S (String.length s)) s.

End serializer.
End JSONExt.
