(* ===== verification/SerializerTheorems.v ===== *)
(** * Theorems about the serializers

    What one broker serializes the other reads back as the same value: for JSON
    ([json_round_trip]), and for the extended serializer also the types JSON does not have,
    at any depth of nesting ([json_ext_round_trip]).  Lemmas state what is lost. *)

From stdpp Require Import base list strings option pretty sets.
From Stdlib Require Import ZArith Lia Ascii.
From S2P Require Import Prelude JsonText Serializers.

Open Scope Z_scope.
#[local] Arguments String.append !_ _ / : simpl nomatch.
Import JSONExt.

(** ** Induction on values *)

Lemma value_rec (P : value → Prop) :
  P VUndef → P VNull → (∀ b, P (VBool b)) → (∀ n, P (VNum n)) → (∀ s, P (VStr s)) → (∀ n, P (VBigInt n)) → (∀ t, P (VDate t)) →
  (∀ m, Forall (λ e, P e.2) m → P (VMap m)) → (∀ l, Forall P l → P (VSet l)) → (∀ f s, P (VRegExp f s)) →
  (∀ b, P (VBuffer b)) → (∀ l, Forall P l → P (VArr l)) → (∀ m, Forall (λ e, P e.2) m → P (VObj m)) →
  (∀ c m, Forall (λ e, P e.2) m → P (VInst c m)) → ∀ v, P v.
Proof.
  intros H1 H2 H3 H4 H5 H6 H7 Hm Hs H8 H9 Ha Ho Hi. fix go 1.
  intros [| |b|n|s|n|t|m|l|f s|b|l|m|c m].
  8: apply Hm. 9: apply Hs. 12: apply Ha. 13: apply Ho. 14: apply Hi.
  8, 13, 14: induction m as [|[k v] m IH]; constructor; [apply go|exact IH].
  8, 11: induction l as [|v l IH]; constructor; [apply go|exact IH].
  all: done || apply H3 || apply H4 || apply H5 || apply H6 || apply H7 || apply H8 || apply H9.
Qed.

(** ** Texts *)

Lemma str_drop_app (a b : string) : str_drop (String.length a) (a +:+ b) = b.
Proof. induction a as [|c a IH]; [done|exact IH]. Qed.
Lemma str_take_app (a b : string) : str_take (String.length a) (a +:+ b) = a.
Proof. induction a as [|c a IH]; [simpl; by destruct b|]. simpl. by rewrite IH. Qed.

Lemma length_escapes s : (String.length s ≤ String.length (JSON.escapes s))%nat.
Proof.
  induction s as [|c s IH]; [done|]. cbn [JSON.escapes]. rewrite length_append. simpl String.length at 1.
  assert (1 ≤ String.length (JSON.escape c))%nat; [|lia]. destruct c as [[] [] [] [] [] [] [] []]; vm_compute; lia.
Qed.

Lemma length_quote s : (String.length s + 2 ≤ String.length (JSON.quote s))%nat.
Proof. unfold JSON.quote. simpl. rewrite length_append. pose proof (length_escapes s). simpl. lia. Qed.

Lemma length_concat_in x l : x ∈ l → (String.length x ≤ String.length (String.concat "," l))%nat.
Proof.
  intros Hx. assert (l ≠ []) as Hl by (by intros ->; apply not_elem_of_nil in Hx). pose proof (length_concat l Hl) as Hc.
  enough (String.length x + 1 ≤ foldr (λ x n, String.length x + 1 + n) O l)%nat by lia. clear Hc Hl.
  induction Hx as [x l|x y l Hx IH]; simpl; lia.
Qed.

Lemma length_arr l x : x ∈ l → (String.length (JSON.print x) ≤ String.length (JSON.print (JArr l)))%nat.
Proof.
  intros Hx. cbn [JSON.print]. rewrite !length_append. pose proof (length_concat_in (JSON.print x) (map JSON.print l)).
  enough (JSON.print x ∈ map JSON.print l) by (specialize (H ltac:(done)); lia). apply list_elem_of_fmap. eauto.
Qed.

Lemma length_obj m k x : forallb (λ '(k, x), pure x) m = true → (k, x) ∈ m →
  (String.length (JSON.print x) ≤ String.length (JSON.print (JObj m)))%nat.
Proof.
  intros Hp Hx. rewrite print_obj by done. rewrite !length_append.
  pose proof (length_concat_in (member_text (k, x)) (map member_text m)) as H.
  assert (member_text (k, x) ∈ map member_text m) as Hin by (apply list_elem_of_fmap; eauto). specialize (H Hin).
  unfold member_text in H at 1. rewrite !length_append in H. simpl in H. lia.
Qed.

(** ** Numbers *)

Lemma integer_of_pretty n : integer_of (pretty n) = Some n.
Proof.
  assert (∀ p, ∃ c r, pretty (N.pos p) = String c r ∧ Ascii.eqb c "-" = false ∧ JSON.parse_digits 0 (String c r) = (N.pos p, EmptyString)) as Hp.
  { intros p. destruct (pretty_head (N.pos p) EmptyString ltac:(lia)) as (d & r & Hp & Hd). exists (pretty_N_char d), r.
    split; [exact Hp|]. split; [|by rewrite <- Hp, parse_digits_go by lia].
    destruct d as [|q]; [done|]. do 4 (destruct q as [q|q|]; try done). }
  destruct n as [|p|p]; [done| |]; destruct (Hp p) as (c & r & H & Hc & Hd).
  - change (pretty (Z.pos p)) with (pretty (N.pos p)). rewrite H. unfold integer_of. rewrite Hc, Hd. done.
  - change (pretty (Z.neg p)) with (String "-" (pretty (N.pos p))). rewrite H. unfold integer_of. cbn [Ascii.eqb Bool.eqb].
    by rewrite Hd.
Qed.

(** ** Objects *)

(** Keys in the order that objects have *)
Fixpoint ordered (ks : list string) : bool :=
  match ks with
  | k :: (k' :: _) as ks' => (rank k <=? rank k') && ordered ks'
  | _ => true
  end.

Lemma in_order_ordered {V} (m : OMap.t V) : ordered (map fst m) = true → in_order m = m.
Proof.
  induction m as [|[k v] [|[k' v'] m] IH]; intros Ho; [done..|]. cbn [map fst ordered] in Ho. apply andb_true_iff in Ho as [Hr Ho].
  change (in_order ((k, v) :: (k', v') :: m)) with (add_property k v (in_order ((k', v') :: m))).
  rewrite IH by exact Ho. simpl. by rewrite Hr.
Qed.

Lemma of_list_nodup {V} (l : list (string * V)) : NoDup (map fst l) → ordered (map fst l) = true → of_list l = l.
Proof.
  intros Hnd Ho. enough (foldl (λ m '(k, v), OMap.set k v m) [] l = l) as E by (unfold of_list; rewrite E; by apply in_order_ordered).
  clear Ho. revert Hnd. assert (∀ acc, NoDup (map fst acc ++ map fst l) → foldl (λ m '(k, v), OMap.set k v m) acc l = acc ++ l) as H;
    [|by intros Hl; apply (H [])].
  induction l as [|[k v] l IH]; intros acc Hnd; simpl; [by rewrite app_nil_r|]. rewrite set_fresh.
  - rewrite IH by (rewrite map_app; simpl; by rewrite <- app_assoc). by rewrite <- app_assoc.
  - intros Hk. apply NoDup_app in Hnd as (_ & Hd & _). apply (Hd k); [done|left].
Qed.

(** ** What survives *)

Section round_trip.
Context (customs : list custom) (valid_regexp : string → string → bool).

(** What users promise of their types: [deserialize] undoes [serialize], prefixes do not
    hide each other and are not those of the serializer. *)
Definition builtin : list string :=
  [PREFIX_BIGINT; PREFIX_DATE; PREFIX_MAP; PREFIX_SET; PREFIX_BUFFER; PREFIX_REGEXP; PREFIX_ESCAPED_STRING].
Definition proper_customs : Prop := ∀ c, c ∈ customs →
  (∀ v, check c v = true → deserialize_ c (serialize_ c v) = v) ∧
  (∀ s, Arr.find (λ c', starts_with (tag c') (tag c +:+ s)) customs = Some c ∧ str_take 6 (tag c +:+ s) ∉ builtin).

Definition has_custom (v : value) : bool := match custom_text customs v with Some _ => true | None => false end.

Fixpoint distinct (l : list value) : bool :=
  match l with
  | [] => true
  | x :: l => negb (existsb (same x) l) && distinct l
  end.

(** Values that survive: no [undefined] and no invalid date; keys of maps are strings, and those that
    are array indices come first, in their order (a list of properties stands for an object
    that has them in that order); each key is there once and each element of a set too;
    instances of classes have a custom type *)
Fixpoint kept (v : value) : bool :=
  match v with
  | VUndef | VDate None => false
  | VNull | VBool _ | VNum _ | VStr _ | VBigInt _ | VDate _ | VBuffer _ => true
  | VRegExp flags source =>
      valid_regexp flags source && negb (String.eqb source "") && match (cut "|" flags).2 with None => true | _ => false end
  | VMap m =>
      forallb (λ '(k, x), match k with KStr _ => kept x | _ => false end) m &&
      bool_decide (NoDup (map (λ e, key_text e.1) m)) && ordered (map (λ e, key_text e.1) m)
  | VSet l => distinct l && forallb kept l
  | VArr l => has_custom v || forallb kept l
  | VObj m => has_custom v || (bool_decide (NoDup (map fst m)) && forallb (λ '(_, x), kept x) m)
  | VInst _ _ => has_custom v
  end.

Notation encode := (encode customs).
Notation revive := (revive customs valid_regexp).
Notation deserialize_fuel := (deserialize_fuel customs valid_regexp).

(** [j] stands for [v] in a text. *)
Definition restored (j : json) (v : value) : Prop :=
  j ≠ JUndef ∧ pure j = true ∧
  ∀ fuel, (String.length (JSON.print j) ≤ fuel)%nat → revive (deserialize_fuel fuel) j = Some v.

Context (Hcustoms : proper_customs).

Lemma length_tag c : String.length (tag c) = (String.length (prefix c) + 4)%nat.
Proof. unfold tag. rewrite !length_append. simpl. lia. Qed.

Lemma restored_custom v j : v ≠ VUndef → (has_custom v = false → restored j v) → restored (or_custom customs v j) v.
Proof.
  unfold or_custom, has_custom, custom_text. intros Hv Hj. destruct (Arr.find _ customs) as [c|] eqn:Hc; [|by apply Hj].
  split_and!; [done..|]. intros fuel _.
  change (reviver customs valid_regexp (deserialize_fuel fuel) (tag c +:+ serialize_ c v) = Some v). unfold reviver.
  assert (c ∈ customs ∧ check c v = true) as [Hin Hcheck].
  { clear -Hc. induction customs as [|x l IH]; [done|]. simpl in Hc. destruct (check x v) eqn:E.
    - injection Hc as ->. split; [left|done].
    - destruct (IH Hc). split; [by right|done]. }
  destruct (Hcustoms c Hin) as [Hinv Hpre]. destruct (Hpre (serialize_ c v)) as [Hfind Htag]. unfold builtin in Htag.
  assert (starts_with "[[" (tag c +:+ serialize_ c v) = true) as -> by (unfold tag; done).
  rewrite !not_elem_of_cons in Htag. destruct Htag as (H1 & H2 & H3 & H4 & H5 & H6 & H7 & _).
  apply String.eqb_neq in H1 as ->, H2 as ->, H3 as ->, H4 as ->, H5 as ->, H6 as ->, H7 as ->.
  rewrite Hfind, <- length_tag, str_drop_app. f_equal. by apply Hinv.
Qed.

Lemma deserialize_nested j v fuel : restored j v → (String.length (JSON.print j) < fuel)%nat → deserialize_fuel fuel (JSON.print j) = Some v.
Proof.
  intros (_ & Hp & Hr) Hf. destruct fuel as [|fuel]; [lia|]. cbn [JSONExt.deserialize_fuel]. rewrite (parse_print _ Hp).
  cbn. apply Hr. lia.
Qed.

(** A text behind a prefix is shorter than the whole. *)
Lemma length_prefixed p s : String.length p = 6%nat → (String.length s < String.length (JSON.print (JStr (p +:+ s))))%nat.
Proof. intros Hp. cbn [JSON.print]. pose proof (length_quote (p +:+ s)) as H. rewrite length_append in H. lia. Qed.

(** The loops of [revive] over arrays and objects *)
Definition revive_list (nested : string → option value) : list json → option (list value) :=
  fix go l := match l with [] => Some [] | x :: l => x ← revive nested x; l ← go l; Some (x :: l) end.
Definition revive_members (nested : string → option value) : OMap.t json → option (OMap.t value) :=
  fix go m :=
    match m with
    | [] => Some []
    | (k, x) :: m => x ← revive nested x; m ← go m; Some (match x with VUndef => m | _ => (k, x) :: m end)
    end.

Lemma revive_arr nested l : revive nested (JArr l) = (l ← revive_list nested l; Some (VArr l)).
Proof. done. Qed.
Lemma revive_obj nested m : revive nested (JObj m) = (m ← revive_members nested m; Some (VObj m)).
Proof. done. Qed.

Lemma restored_arr l : Forall (λ x, restored (encode x) x) l → restored (JArr (map encode l)) (VArr l).
Proof.
  intros Hl. split_and!; [done| |].
  - simpl. induction Hl as [|x l (_ & Hx & _) _ IH]; [done|]. simpl. by rewrite Hx, IH.
  - intros fuel Hf. assert (∀ x, x ∈ l → revive (deserialize_fuel fuel) (encode x) = Some x) as Hr.
    { intros x Hx. rewrite Forall_forall in Hl. destruct (Hl x Hx) as (_ & _ & H). apply H. etrans; [|exact Hf].
      apply length_arr. apply list_elem_of_fmap. eauto. }
    rewrite revive_arr. clear Hf Hl. enough (revive_list (deserialize_fuel fuel) (map encode l) = Some l) as -> by done.
    induction l as [|x l IH]; [done|]. simpl. rewrite Hr by left. simpl. rewrite IH; [done|].
    intros y Hy. apply Hr. by right.
Qed.

Lemma restored_obj m : NoDup (map fst m) → Forall (λ e, e.2 ≠ VUndef ∧ restored (encode e.2) e.2) m →
  restored (JObj (map (λ '(k, x), (k, encode x)) m)) (VObj m).
Proof.
  intros Hnd Hm.
  assert (map fst (map (λ '(k, x), (k, encode x)) m) = map fst m) as Hkeys by (rewrite map_map; apply map_ext; by intros []).
  assert (forallb (λ '(k, x), pure x) (map (λ '(k, x), (k, encode x)) m) = true) as Hp.
  { clear Hnd Hkeys. induction Hm as [|[k x] m (_ & _ & Hx & _) _ IH]; [done|]. simpl in *. by rewrite Hx, IH. }
  split_and!; [done| |].
  - cbn [pure]. rewrite Hp, andb_true_r. apply bool_decide_eq_true. unfold OMap.keys. by rewrite Hkeys.
  - intros fuel Hf.
    assert (∀ k x, (k, x) ∈ m → x ≠ VUndef ∧ revive (deserialize_fuel fuel) (encode x) = Some x) as Hr.
    { intros k x Hx. rewrite Forall_forall in Hm. destruct (Hm _ Hx) as (Hu & _ & _ & H). split; [done|]. apply H. etrans; [|exact Hf].
      apply (length_obj _ k); [done|]. apply list_elem_of_fmap. by exists (k, x). }
    rewrite revive_obj. clear Hf Hm Hp Hnd Hkeys.
    enough (revive_members (deserialize_fuel fuel) (map (λ '(k, x), (k, encode x)) m) = Some m) as -> by done.
    induction m as [|[k x] m IH]; [done|]. simpl. destruct (Hr k x) as [Hu ->]; [left|]. simpl. rewrite IH; [by destruct x|].
    intros k' y Hy. apply (Hr k'). by right.
Qed.

Lemma same_sym v w : same v w = same w v.
Proof.
  destruct v, w; try done; simpl; [by destruct b, b0|by rewrite Z.eqb_sym|by rewrite String.eqb_sym|by rewrite Z.eqb_sym].
Qed.

Lemma set_of_distinct l : distinct l = true → set_of l = l.
Proof.
  unfold set_of. assert (∀ acc, distinct l = true → (∀ x y, x ∈ l → y ∈ acc → same x y = false) →
    foldl (λ acc x, if existsb (same x) acc then acc else acc ++ [x]) acc l = acc ++ l) as H.
  - induction l as [|x l IH]; intros acc Hl Hacc; simpl; [by rewrite app_nil_r|]. simpl in Hl.
    apply andb_true_iff in Hl as [Hx Hl]. apply negb_true_iff in Hx.
    assert (existsb (same x) acc = false) as ->.
    { apply not_true_iff_false. rewrite existsb_exists. intros (y & Hy & Hs). apply list_elem_of_In in Hy.
      rewrite (Hacc x y) in Hs; [done|left|done]. }
    rewrite IH; [by rewrite <- app_assoc|done|]. intros y z Hy Hz. apply elem_of_app in Hz as [Hz|Hz%list_elem_of_singleton].
    + apply Hacc; [by right|done].
    + subst z. rewrite same_sym. apply not_true_iff_false. intros Hs. apply not_true_iff_false in Hx. apply Hx.
      apply existsb_exists. exists y. split; [by apply list_elem_of_In|done].
  - intros Hl. apply (H []); [done|]. intros x y _ Hy. by apply not_elem_of_nil in Hy.
Qed.

Lemma cut_app c a b : (cut c a).2 = None → cut c (a +:+ String c b) = (a, Some b).
Proof.
  induction a as [|d a IH]; [intros _; simpl; by rewrite Ascii.eqb_refl|].
  change (String d a +:+ ?x) with (String d (a +:+ x)). cbn [cut].
  destruct (Ascii.eqb c d); [by intros [=]|]. destruct (cut c a) as [x y]. cbn [snd] in *. intros Hb. by rewrite (IH Hb).
Qed.

Lemma kept_defined v : kept v = true → v ≠ VUndef.
Proof. by destruct v. Qed.

Lemma Forall_kept (l : list value) : Forall (λ v, kept v = true → restored (encode v) v) l → forallb kept l = true →
  Forall (λ v, restored (encode v) v) l.
Proof. intros Hl Hk. rewrite forallb_forall in Hk. rewrite Forall_forall in Hl |- *. intros x Hx. apply Hl; [done|]. apply Hk. by apply list_elem_of_In. Qed.

(** Keys of maps that are strings are keys of an object. *)
Lemma string_keys m : forallb (λ '(k, x), match k with KStr _ => kept x | _ => false end) m = true →
  map (λ '(k, x), (KStr k, x)) (map (λ '(k, x), (key_text k, x)) m) = m ∧ forallb (λ e, kept e.2) m = true.
Proof.
  induction m as [|[k x] m IH]; [done|]. simpl. intros [Hx Hm]%andb_true_iff. destruct k as [k| |]; [|done..].
  destruct (IH Hm) as [-> ->]. by rewrite Hx.
Qed.

Lemma restored_encode v : kept v = true → restored (encode v) v.
Proof.
  induction v as [| |b|n|s|n|t|m IH|l IH|f s|b|l IH|m IH|c m IH] using value_rec; intros Hk; try done.
  - by apply restored_custom.
  - by apply restored_custom.
  - apply restored_custom; [done|]. intros _. split_and!; [done..|]. intros fuel _. unfold escape.
    destruct (starts_with "[[" s) eqn:E; [done|]. cbn. unfold reviver. by rewrite E.
  - split_and!; [done..|]. intros fuel _. change ((n ← integer_of (pretty n); Some (VBigInt n)) = Some (VBigInt n)).
    by rewrite integer_of_pretty.
  - destruct t as [t|]; [|done]. split_and!; [done..|]. intros fuel _.
    change (Some (VDate (integer_of (pretty t))) = Some (VDate (Some t))). by rewrite integer_of_pretty.
  - cbn [kept] in Hk. apply andb_true_iff in Hk as [Hk Hord]. apply andb_true_iff in Hk as [Hk Hnd]. apply bool_decide_eq_true in Hnd.
    destruct (string_keys m Hk) as [Hm Hkept]. set (m' := map (λ '(k, x), (key_text k, x)) m) in *.
    assert (map fst m' = map (λ e, key_text e.1) m) as Hfst by (unfold m'; rewrite map_map; apply map_ext; by intros []).
    assert (restored (or_custom customs (VObj (fromEntries m)) (JObj (of_list (map (λ '(k, x), (key_text k, encode x)) m)))) (VObj m')) as Hin.
    { assert (fromEntries m = m') as -> by (unfold fromEntries; fold m'; apply of_list_nodup; by rewrite ?Hfst).
      assert (map (λ '(k, x), (key_text k, encode x)) m = map (λ '(k, x), (k, encode x)) m') as ->
        by (unfold m'; rewrite map_map; apply map_ext; by intros []).
      rewrite of_list_nodup by (rewrite map_map, (map_ext _ fst) by (by intros []); by rewrite Hfst).
      apply restored_custom; [done|]. intros _. apply restored_obj; [by rewrite Hfst|]. unfold m'. clear -IH Hkept.
      induction IH as [|[k x] m Hx _ IH]; [constructor|]. simpl in *. apply andb_true_iff in Hkept as [H1 H2].
      constructor; [split; [by apply kept_defined|by apply Hx]|by apply IH]. }
    split_and!; [done..|]. intros fuel Hf. cbn [JSONExt.encode] in *. set (j := or_custom _ _ _) in *.
    change ((v ← deserialize_fuel fuel (JSON.print j); m ← entries v; Some (VMap m)) = Some (VMap m)).
    rewrite (deserialize_nested _ _ _ Hin).
    + cbn. by rewrite Hm.
    + pose proof (length_prefixed PREFIX_MAP (JSON.print j) ltac:(done)). lia.
  - cbn [kept] in Hk. apply andb_true_iff in Hk as [Hd Hk].
    assert (restored (or_custom customs (VArr l) (JArr (map encode l))) (VArr l)) as Hin.
    { apply restored_custom; [done|]. intros _. apply restored_arr. by apply Forall_kept. }
    split_and!; [done..|]. intros fuel Hf. cbn [JSONExt.encode] in *. set (j := or_custom _ _ _) in *.
    change ((v ← deserialize_fuel fuel (JSON.print j); l ← iterate v; Some (VSet (set_of l))) = Some (VSet l)).
    rewrite (deserialize_nested _ _ _ Hin).
    + cbn. by rewrite set_of_distinct.
    + pose proof (length_prefixed PREFIX_SET (JSON.print j) ltac:(done)). lia.
  - cbn [kept] in Hk. rewrite !andb_true_iff, negb_true_iff in Hk. destruct Hk as [[Hv Hs] Hc].
    split_and!; [done..|]. intros fuel _.
    change ((let '(flags, source) := cut "|" (f +:+ "|" +:+ s) in
      let source := default EmptyString source in
      if valid_regexp flags source then Some (VRegExp flags (match source with EmptyString => "(?:)" | _ => source end)) else None)
      = Some (VRegExp f s)).
    destruct (cut "|" f).2 eqn:E; [done|]. change ("|" +:+ s) with (String "|" s). rewrite cut_app by done. cbn. rewrite Hv. by destruct s.
  - split_and!; [done..|]. intros fuel _. change (Some (VBuffer (Base64.decode (Base64.encode b))) = Some (VBuffer b)).
    by rewrite Base64.round_trip.
  - cbn [kept JSONExt.encode] in *. apply restored_custom; [done|]. intros Hc. rewrite Hc in Hk. apply restored_arr. by apply Forall_kept.
  - cbn [kept JSONExt.encode] in *. apply restored_custom; [done|]. intros Hc. rewrite Hc in Hk. simpl in Hk.
    apply andb_true_iff in Hk as [Hnd Hk]. apply bool_decide_eq_true in Hnd. apply restored_obj; [done|]. clear -IH Hk.
    induction IH as [|[k x] m Hx _ IH]; [constructor|]. simpl in *. apply andb_true_iff in Hk as [H1 H2].
    constructor; [split; [by apply kept_defined|by apply Hx]|by apply IH].
  - cbn [kept JSONExt.encode] in *. apply restored_custom; [done|]. intros Hc. by rewrite Hc in Hk.
Qed.

End round_trip.

Lemma ext_round_trip customs valid_regexp v : proper_customs customs → kept customs valid_regexp v = true →
  ∃ s, serialize customs v = Some s ∧ deserialize customs valid_regexp s = Some v.
Proof.
  intros Hc Hk. pose proof (restored_encode customs valid_regexp Hc v Hk) as Hr. exists (JSON.print (encode customs v)). split.
  - destruct Hr as (Hu & _). unfold serialize. by destruct (encode customs v).
  - apply deserialize_nested; [done|lia].
Qed.

(** ** The theorems *)

(** What the JSON serializer writes it reads back, for every value without [undefined]: strings
    with any characters, numbers of any size, arrays and objects at any depth. *)
Theorem json_round_trip v : pure v = true →
  ∃ s, JSONSerializer.serialize v = Some s ∧ JSONSerializer.deserialize s = Some v.
Proof.
  intros Hv. exists (JSON.print v). split; [by destruct v|]. by apply parse_print.
Qed.

Lemma json_round_trip_witness :
  let v := JObj [("ver", JStr "5"); ("list", JArr [JNum (-20); JNull; JBool true; JStr (String JSON.quotes (String "010" "\"))])]%string in
  ∃ s, JSONSerializer.serialize v = Some s ∧ JSONSerializer.deserialize s = Some v.
Proof. intros v. apply json_round_trip. vm_compute. reflexivity. Defined.

(** C19. What the extended serializer writes it reads back, of every value that text can hold
    ([kept]): big integers, valid dates, sets, regular expressions, buffers, maps whose keys are
    strings in the order that objects keep them, users' types that undo themselves, and strings
    that look like one of the prefixes, among plain values with integers, at any depth; not
    maps with other keys, invalid dates and [undefined], which become something else. *)
Theorem json_ext_round_trip customs valid_regexp v :
  proper_customs customs → kept customs valid_regexp v = true →
  ∃ s, serialize customs v = Some s ∧ deserialize customs valid_regexp s = Some v.
Proof. apply ext_round_trip. Qed.

(** A users' class of points on a line, by their place *)
Definition point : custom :=
  Custom "Point" (λ v, match v with VInst "Point" [("x"%string, VNum _)] => true | _ => false end)
    (λ v, match v with VInst _ [(_, VNum n)] => pretty n | _ => EmptyString end)
    (λ s, VInst "Point" [("x"%string, VNum (default 0 (integer_of s)))]).

Lemma json_ext_round_trip_witness :
  let v := VObj [("when", VDate (Some 1700000000000)); ("at", VInst "Point" [("x", VNum (-3))]);
                 ("tags", VSet [VStr "[[MP]]{}"; VMap [(KStr "n", VBigInt 12345678901234567890); (KStr "b", VBuffer "data")]]);
                 ("re", VRegExp "gi" "a|b")]%string in
  ∃ s, serialize [point] v = Some s ∧ deserialize [point] (λ _ _, true) s = Some v.
Proof.
  intros v. apply (json_ext_round_trip [point] (λ _ _, true) v).
  - intros c Hc. apply list_elem_of_singleton in Hc as ->. split.
    + intros w Hw. simpl in Hw. repeat split_match_in Hw; simplify_eq. simpl. by rewrite integer_of_pretty.
    + intros s. split; [reflexivity|]. unfold builtin. simpl. rewrite !not_elem_of_cons. by repeat split; try apply not_elem_of_nil.
  - vm_compute. reflexivity.
Defined.

(** What is lost: keys of a map that are not strings become strings, and an invalid date becomes
    [null]. *)
Lemma map_keys_become_strings :
  let round v := s ← serialize [] v; deserialize [] (λ _ _, true) s in
  round (VMap [(KNum 1, VStr "a"); (KStr "1", VStr "b")]) = Some (VMap [(KStr "1", VStr "b")]) ∧
  round (VArr [VDate None]) = Some (VArr [VNull]).
Proof. split; vm_compute; reflexivity. Qed.
