(* ===== verification/Errors.v ===== *)
(** * Errors: [errors.js], the error classes and how errors cross the network

    An error is a value of type [Errors.t]: its class and the properties the framework reads
    and writes.  Module [Errors] has one constructor function per class; it answers [None]
    where the JavaScript constructor throws because it reads a property of [null] or
    [undefined].  Module [Regenerator] is the default regenerator: what of an error is put
    into a packet and how an error is made from it on the other side. *)

From stdpp Require Import base list strings option pretty sets.
From Stdlib Require Import ZArith Lia.
From S2P Require Import Prelude.

Open Scope Z_scope.

(** ** Values as JavaScript reads them *)

(** [String(v)], as in template literals *)
Fixpoint js_string (v : json) : string :=
  match v with
  | JUndef => "undefined"
  | JNull => "null"
  | JBool b => if b then "true" else "false"
  | JNum n => pretty n
  | JStr s => s
  | JArr l => String.concat "," (map (λ x, if is_null x then "" else js_string x) l)
  | JObj _ => "[object Object]"
  end.

(** [v.key]; reading a property of [null] or [undefined] throws. *)
Definition member (key : string) (v : json) : option json :=
  match v with
  | JUndef | JNull => None
  | JObj m => Some (default JUndef (OMap.get key m))
  | _ => Some JUndef
  end.

Definition text (l : list string) : json := JStr (String.concat "" l).

Module Errors.

Inductive class :=
| Error                       (* of the language *)
| ExtendableError
| TimeoutError
| MoleculerError
| MoleculerRetryableError
| BrokerDisconnectedError
| MoleculerServerError
| MoleculerClientError
| ServiceNotFoundError
| ServiceNotAvailableError
| RequestTimeoutError
| RequestSkippedError
| RequestRejectedError
| QueueIsFullError
| ValidationError
| MaxCallLevelError
| ServiceSchemaError
| BrokerOptionsError
| GracefulStopTimeoutError
| ProtocolVersionMismatchError
| InvalidPacketDataError
| Custom (name : string).     (* of users *)

(** [constructor.name] *)
Definition class_name (c : class) : string :=
  match c with
  | Error => "Error"
  | ExtendableError => "ExtendableError"
  | TimeoutError => "TimeoutError"
  | MoleculerError => "MoleculerError"
  | MoleculerRetryableError => "MoleculerRetryableError"
  | BrokerDisconnectedError => "BrokerDisconnectedError"
  | MoleculerServerError => "MoleculerServerError"
  | MoleculerClientError => "MoleculerClientError"
  | ServiceNotFoundError => "ServiceNotFoundError"
  | ServiceNotAvailableError => "ServiceNotAvailableError"
  | RequestTimeoutError => "RequestTimeoutError"
  | RequestSkippedError => "RequestSkippedError"
  | RequestRejectedError => "RequestRejectedError"
  | QueueIsFullError => "QueueIsFullError"
  | ValidationError => "ValidationError"
  | MaxCallLevelError => "MaxCallLevelError"
  | ServiceSchemaError => "ServiceSchemaError"
  | BrokerOptionsError => "BrokerOptionsError"
  | GracefulStopTimeoutError => "GracefulStopTimeoutError"
  | ProtocolVersionMismatchError => "ProtocolVersionMismatchError"
  | InvalidPacketDataError => "InvalidPacketDataError"
  | Custom name => name
  end.

(** An error; a property that is absent is [undefined]. *)
Record t := Err {
  e_class : class;
  e_name : json;
  e_message : json;
  e_nodeID : json;
  e_code : json;
  e_type : json;
  e_data : json;
  e_retryable : json;
  e_stack : json
}.

Section constructors.
(** The captured stack trace *)
Context (stack : json).

(** The constructor of [ExtendableError] run for the class [c] *)
Definition extendable (c : class) (message : json) : t :=
  Err c (JStr (class_name c)) (match message with JUndef => JStr "" | _ => message end) JUndef JUndef JUndef JUndef
    JUndef stack.

(** The constructors of [MoleculerError] and [MoleculerRetryableError] *)
Definition moleculer (c : class) (message code type data : json) : t :=
  let e := extendable c message in
  Err c (e_name e) (e_message e) JUndef (js_or code (JNum 500)) type data (JBool false) stack.

Definition set_retryable (r : json) (e : t) : t :=
  Err (e_class e) (e_name e) (e_message e) (e_nodeID e) (e_code e) (e_type e) (e_data e) r (e_stack e).
Definition set_stack (s : json) (e : t) : t :=
  Err (e_class e) (e_name e) (e_message e) (e_nodeID e) (e_code e) (e_type e) (e_data e) (e_retryable e) s.
Definition set_nodeID (n : json) (e : t) : t :=
  Err (e_class e) (e_name e) (e_message e) n (e_code e) (e_type e) (e_data e) (e_retryable e) (e_stack e).

Definition retryable (c : class) (message code type data : json) : t :=
  set_retryable (JBool true) (moleculer c message code type data).

(** [MoleculerClientError] and its subclass *)
Definition client (c : class) (message code type data : json) : t :=
  moleculer c message (js_or code (JNum 400)) type data.

Definition newBrokerDisconnectedError : t :=
  set_stack (JStr "") (retryable BrokerDisconnectedError
    (JStr "The broker's transporter has disconnected. Please try again when a connection is reestablished.")
    (JNum 502) (JStr "BAD_GATEWAY") JUndef).

Definition newServiceNotFoundError (data : json) : option t :=
  let data := match data with JUndef => JObj [] | _ => data end in
  nodeID ← member "nodeID" data;
  action ← member "action" data;
  service ← member "service" data;
  version ← member "version" data;
  let msg :=
    if truthy nodeID && truthy action then
      text ["Service '"; js_string action; "' is not found on '"; js_string nodeID; "' node."]%string
    else if truthy action then text ["Service '"; js_string action; "' is not found."]%string
    else JUndef in
  let msg :=
    if truthy service && truthy version then
      text ["Service '"; js_string version; "."; js_string service; "' not found."]%string
    else if truthy service then text ["Service '"; js_string service; "' not found."]%string
    else msg in
  Some (retryable ServiceNotFoundError msg (JNum 404) (JStr "SERVICE_NOT_FOUND") data).

Definition newServiceNotAvailableError (data : json) : option t :=
  nodeID ← member "nodeID" data;
  action ← member "action" data;
  let msg :=
    if truthy nodeID then
      text ["Service '"; js_string action; "' is not available on '"; js_string nodeID; "' node."]%string
    else text ["Service '"; js_string action; "' is not available."]%string in
  Some (retryable ServiceNotAvailableError msg (JNum 404) (JStr "SERVICE_NOT_AVAILABLE") data).

Definition newRequestTimeoutError (data : json) : option t :=
  action ← member "action" data;
  nodeID ← member "nodeID" data;
  Some (retryable RequestTimeoutError
    (text ["Request is timed out when call '"; js_string action; "' action on '"; js_string nodeID; "' node."]%string)
    (JNum 504) (JStr "REQUEST_TIMEOUT") data).

Definition newRequestSkippedError (data : json) : option t :=
  action ← member "action" data;
  nodeID ← member "nodeID" data;
  Some (set_retryable (JBool false) (moleculer RequestSkippedError
    (text ["Calling '"; js_string action; "' is skipped because timeout reached on '"; js_string nodeID; "' node."]%string)
    (JNum 514) (JStr "REQUEST_SKIPPED") data)).

Definition newRequestRejectedError (data : json) : option t :=
  action ← member "action" data;
  nodeID ← member "nodeID" data;
  Some (retryable RequestRejectedError
    (text ["Request is rejected when call '"; js_string action; "' action on '"; js_string nodeID; "' node."]%string)
    (JNum 503) (JStr "REQUEST_REJECTED") data).

Definition newQueueIsFullError (data : json) : option t :=
  action ← member "action" data;
  nodeID ← member "nodeID" data;
  Some (retryable QueueIsFullError
    (text ["Queue is full. Request '"; js_string action; "' action on '"; js_string nodeID; "' node is rejected."]%string)
    (JNum 429) (JStr "QUEUE_FULL") data).

Definition newValidationError (message type data : json) : t :=
  client ValidationError message (JNum 422) (js_or type (JStr "VALIDATION_ERROR")) data.

Definition newMaxCallLevelError (data : json) : option t :=
  level ← member "level" data;
  nodeID ← member "nodeID" data;
  Some (set_retryable (JBool false) (moleculer MaxCallLevelError
    (text ["Request level is reached the limit ("; js_string level; ") on '"; js_string nodeID; "' node."]%string)
    (JNum 500) (JStr "MAX_CALL_LEVEL") data)).

Definition newServiceSchemaError (msg data : json) : t :=
  moleculer ServiceSchemaError msg (JNum 500) (JStr "SERVICE_SCHEMA_ERROR") data.
Definition newBrokerOptionsError (msg data : json) : t :=
  moleculer BrokerOptionsError msg (JNum 500) (JStr "BROKER_OPTIONS_ERROR") data.

(** [new GracefulStopTimeoutError(data)] reads [data.service] only if [data] is truthy. *)
Definition newGracefulStopTimeoutError (data : json) : option t :=
  let service := if truthy data then default JUndef (member "service" data) else JUndef in
  if truthy service then
    name ← member "name" service;
    version ← member "version" service;
    Some (moleculer GracefulStopTimeoutError
      (text ["Unable to stop '"; js_string name; "' service gracefully."]%string) (JNum 500) (JStr "GRACEFUL_STOP_TIMEOUT")
      (JObj [("name", name); ("version", version)]%string))
  else
    Some (moleculer GracefulStopTimeoutError (JStr "Unable to stop ServiceBroker gracefully.") (JNum 500)
      (JStr "GRACEFUL_STOP_TIMEOUT") JUndef).

Definition newProtocolVersionMismatchError (data : json) : t :=
  moleculer ProtocolVersionMismatchError (JStr "Protocol version mismatch.") (JNum 500)
    (JStr "PROTOCOL_VERSION_MISMATCH") data.
Definition newInvalidPacketDataError (data : json) : t :=
  moleculer InvalidPacketDataError (JStr "Invalid packet data.") (JNum 500) (JStr "INVALID_PACKET_DATA") data.

End constructors.
End Errors.

(** ** The default regenerator *)

Module Regenerator.
Import Errors.

(** What a packet holds of an error *)
Record plain := Plain {
  p_name : json;
  p_message : json;
  p_nodeID : json;
  p_code : json;
  p_type : json;
  p_retryable : json;
  p_stack : json;
  p_data : json
}.

(** [extractPlainError(err)] at the node [nodeID] *)
Definition extractPlainError (nodeID : string) (e : t) : plain :=
  Plain (e_name e) (e_message e) (js_or (e_nodeID e) (JStr nodeID)) (e_code e) (e_type e) (e_retryable e) (e_stack e)
    (e_data e).

Inductive recreated :=
| Threw                 (* the constructor read a property of nothing *)
| Undefined
| Made (e : t).

Definition made (e : option t) : recreated := match e with Some e => Made e | None => Threw end.

Section restore.
(** The stack trace of an error made here *)
Context (stack : json).

(** [recreateError(err)] *)
Definition recreateError (p : plain) : recreated :=
  match p_name p with
  | JStr name =>
      let named := String.eqb name in
      if named "MoleculerError" then Made (moleculer stack MoleculerError (p_message p) (p_code p) (p_type p) (p_data p))
      else if named "MoleculerRetryableError" then
        Made (retryable stack MoleculerRetryableError (p_message p) (p_code p) (p_type p) (p_data p))
      else if named "MoleculerServerError" then
        Made (retryable stack MoleculerServerError (p_message p) (p_code p) (p_type p) (p_data p))
      else if named "MoleculerClientError" then
        Made (client stack MoleculerClientError (p_message p) (p_code p) (p_type p) (p_data p))
      else if named "ValidationError" then Made (newValidationError stack (p_message p) (p_type p) (p_data p))
      else if named "ServiceNotFoundError" then made (newServiceNotFoundError stack (p_data p))
      else if named "ServiceNotAvailableError" then made (newServiceNotAvailableError stack (p_data p))
      else if named "RequestTimeoutError" then made (newRequestTimeoutError stack (p_data p))
      else if named "RequestSkippedError" then made (newRequestSkippedError stack (p_data p))
      else if named "RequestRejectedError" then made (newRequestRejectedError stack (p_data p))
      else if named "QueueIsFullError" then made (newQueueIsFullError stack (p_data p))
      else if named "MaxCallLevelError" then made (newMaxCallLevelError stack (p_data p))
      else if named "GracefulStopTimeoutError" then made (newGracefulStopTimeoutError stack (p_data p))
      else if named "ProtocolVersionMismatchError" then Made (newProtocolVersionMismatchError stack (p_data p))
      else if named "InvalidPacketDataError" then Made (newInvalidPacketDataError stack (p_data p))
      else if named "ServiceSchemaError" then Made (newServiceSchemaError stack (p_message p) (p_data p))
      else if named "BrokerOptionsError" then Made (newBrokerOptionsError stack (p_message p) (p_data p))
      else Undefined
  | _ => Undefined
  end.

(** [_createDefaultError(plainError)] *)
Definition createDefaultError (p : plain) : t :=
  let e := Err Error (p_name p) (match p_message p with JUndef => JStr "" | m => JStr (js_string m) end) JUndef
    (p_code p) (p_type p) (p_data p) JUndef stack in
  if truthy (p_stack p) then set_stack (p_stack p) e else e.

(** [_restoreExternalFields(plainError, err, payload)] *)
Definition restoreExternalFields (p : plain) (sender : json) (e : t) : t :=
  set_nodeID (js_or (p_nodeID p) sender) (set_retryable (p_retryable p) e).

(** [_restoreStack(plainError, err)] *)
Definition restoreStack (p : plain) (e : t) : t := if truthy (p_stack p) then set_stack (p_stack p) e else e.

(** [restore(plainError, payload)]; [custom] is [restoreCustomError], which answers
    [undefined] unless it is overridden.  [None] is that it throws. *)
Definition restore (custom : plain → option t) (p : plain) (sender : json) : option t :=
  let e :=
    match custom p with
    | Some e => Made e
    | None => match recreateError p with Undefined => Made (createDefaultError p) | r => r end
    end in
  match e with
  | Made e => Some (restoreStack p (restoreExternalFields p sender e))
  | Threw | Undefined => None
  end.

End restore.

(** [restoreCustomError] of the class itself *)
Definition restoreCustomError (p : plain) : option t := None.

End Regenerator.

(** ** Errors of the framework

    [framework e]: [e] is made by the constructor of its class and may have got the ID of a
    node since; its stack trace is not empty. *)

Section theorems.
Import Errors Regenerator.

Inductive framework : t → Prop :=
| framework_message c f stack message code type data :
    (c, f) ∈ [(MoleculerError, moleculer stack MoleculerError); (MoleculerRetryableError, retryable stack MoleculerRetryableError);
              (MoleculerServerError, retryable stack MoleculerServerError);
              (MoleculerClientError, client stack MoleculerClientError)] →
    framework (f message code type data)
| framework_validation stack message type data : framework (newValidationError stack message type data)
| framework_data f stack data e :
    f ∈ [newServiceNotFoundError; newServiceNotAvailableError; newRequestTimeoutError; newRequestSkippedError;
         newRequestRejectedError; newQueueIsFullError; newMaxCallLevelError] →
    f stack data = Some e → framework e
| framework_packet f stack data :
    f ∈ [newProtocolVersionMismatchError; newInvalidPacketDataError] → framework (f stack data)
| framework_options f stack message data :
    f ∈ [newServiceSchemaError; newBrokerOptionsError] → framework (f stack message data)
| framework_stopped stack data e :
    newGracefulStopTimeoutError stack data = Some e → e_data e = JUndef → framework e
| framework_nodeID n e : framework e → framework (set_nodeID n e).

(** An error without the place where it was made *)
Definition anonymous (stack : json) (e : t) : t := set_stack stack (set_nodeID JUndef e).

Lemma js_or_idem v d : truthy d = true → js_or (js_or v d) d = js_or v d.
Proof. unfold js_or. intros Hd. destruct (truthy v) eqn:E; by rewrite ?E, ?Hd. Qed.
Lemma js_or_truthy v d : truthy d = true → truthy (js_or v d) = true.
Proof. unfold js_or. intros Hd. by destruct (truthy v) eqn:E. Qed.
Lemma js_or_left v d : truthy v = true → js_or v d = v.
Proof. unfold js_or. by intros ->. Qed.

Local Ltac remake message :=
  unfold recreateError, extractPlainError, anonymous, newValidationError, newServiceSchemaError, newBrokerOptionsError;
  unfold client, retryable, moleculer; destruct message; cbn -[js_or];
  repeat rewrite (js_or_left (js_or _ _)) by (by apply js_or_truthy).

Local Ltac remake_data data He :=
  unfold newServiceNotFoundError, newServiceNotAvailableError, newRequestTimeoutError, newRequestSkippedError,
    newRequestRejectedError, newQueueIsFullError, newMaxCallLevelError in He; destruct data; cbn in He; simplify_eq;
  cbn; repeat split_match.

(** The regenerator makes an error of the framework again. *)
Lemma recreate_framework stack n e : framework e → recreateError stack (extractPlainError n e) = Made (anonymous stack e).
Proof.
  induction 1 as [c f st message code type data Hin|st message type data|f st data e Hin He|f st data Hin|f st message data Hin|st data e He Hd|n' e He IH].
  - repeat (apply elem_of_cons in Hin as [[= -> ->]|Hin]; [by remake message|]). by apply not_elem_of_nil in Hin.
  - by remake message.
  - repeat (apply elem_of_cons in Hin as [->|Hin]; [by remake_data data He|]). by apply not_elem_of_nil in Hin.
  - repeat (apply elem_of_cons in Hin as [->|Hin]; [done|]). by apply not_elem_of_nil in Hin.
  - repeat (apply elem_of_cons in Hin as [->|Hin]; [by remake message|]). by apply not_elem_of_nil in Hin.
  - unfold newGracefulStopTimeoutError in He. destruct (truthy _); simplify_option_eq; done.
  - rewrite <- IH at 1. done.
Qed.

(** What the error is on the other side *)
Lemma restore_framework stack n sender e : framework e → truthy (e_stack e) = true → n ≠ ""%string →
  restore stack restoreCustomError (extractPlainError n e) sender = Some (set_nodeID (js_or (e_nodeID e) (JStr n)) e).
Proof.
  intros He Hs Hn. unfold restore. simpl. rewrite (recreate_framework stack n e He).
  unfold restoreStack, restoreExternalFields, anonymous. simpl. rewrite Hs.
  rewrite (js_or_left (js_or _ _)); [done|]. apply js_or_truthy. simpl. by apply negb_true_iff, String.eqb_neq.
Qed.

End theorems.

Import Errors Regenerator.

(** What is thrown at a node, packed there and made again at the next one *)
Definition hop (oe : option t) (h : string * json * json) : option t :=
  let '(n, stack, sender) := h in e ← oe; restore stack restoreCustomError (extractPlainError n e) sender.

(** Errors of the framework survive the network: however many nodes pass one on, the caller gets an
    error of the same class with the same message, code, type, data, retry flag and stack
    trace, and its node is the one that had it first, or the one the error named
    already. *)
Theorem error_crosses_nodes e hops :
  framework e → truthy (e_stack e) = true → Forall (λ h, h.1.1 ≠ ""%string) hops →
  foldl hop (Some e) hops =
  Some (match hops with [] => e | (n, _, _) :: _ => set_nodeID (js_or (e_nodeID e) (JStr n)) e end).
Proof.
  intros He Hs Hn. destruct hops as [|[[n stack] sender] hops]; [done|]. apply Forall_cons in Hn as [Hn1 Hn]. simpl in Hn1.
  simpl. rewrite restore_framework by done. set (e1 := set_nodeID _ e).
  assert (framework e1 ∧ truthy (e_stack e1) = true ∧ truthy (e_nodeID e1) = true) as (H1 & H2 & H3).
  { split_and!; [by apply framework_nodeID|done|]. apply js_or_truthy. simpl. by apply negb_true_iff, String.eqb_neq. }
  clearbody e1. clear Hs He e stack sender Hn1. induction hops as [|[[n' stack] sender] hops IH]; [done|].
  apply Forall_cons in Hn as [Hn1 Hn]. simpl in *. rewrite restore_framework by done. rewrite js_or_left by done.
  assert (set_nodeID (e_nodeID e1) e1 = e1) as -> by (by destruct e1). by apply IH.
Qed.

Lemma error_crosses_nodes_witness :
  let e := retryable (JStr "at f") MoleculerRetryableError (JStr "Busy") (JNum 0) (JStr "BUSY") (JObj [("id", JNum 5)]%string) in
  e_code e = JNum 500 ∧
  foldl hop (Some e) [("n1", JStr "at g", JStr "n1"); ("n2", JStr "at h", JStr "n2")]%string = Some (set_nodeID (JStr "n1") e).
Proof.
  intros e. split; [reflexivity|]. apply (error_crosses_nodes e).
  - apply (framework_message MoleculerRetryableError _ (JStr "at f")). set_solver.
  - reflexivity.
  - repeat constructor; done.
Defined.

(** The errors the regenerator makes from their data alone *)
Definition from_data : list string :=
  ["ServiceNotFoundError"; "ServiceNotAvailableError"; "RequestTimeoutError"; "RequestSkippedError"; "RequestRejectedError";
   "QueueIsFullError"; "MaxCallLevelError"]%string.

(** The names that [recreateError] looks for *)
Definition known : list string :=
  ["MoleculerError"%string; "MoleculerRetryableError"%string; "MoleculerServerError"%string; "MoleculerClientError"%string;
   "ValidationError"%string] ++ from_data ++
  ["GracefulStopTimeoutError"%string; "ProtocolVersionMismatchError"%string; "InvalidPacketDataError"%string;
   "ServiceSchemaError"%string; "BrokerOptionsError"%string].

Lemma graceful_made stack data : ∃ e, newGracefulStopTimeoutError stack data = Some e ∧ e_name e = JStr "GracefulStopTimeoutError".
Proof.
  unfold newGracefulStopTimeoutError. destruct (if truthy data then _ else _) as [| |b|n|x|l|m]; simpl;
    repeat split_match; eexists; split; reflexivity.
Qed.

Local Ltac recreate_case p :=
  lazymatch goal with
  | |- context [made (newGracefulStopTimeoutError ?st ?d)] =>
      destruct (graceful_made st d) as (e & -> & He); cbn [made]; eexists; (split; [reflexivity|]);
      (split; [unfold known, from_data; set_solver|exact He])
  | |- context [made ?c] => destruct c eqn:Hc; cbn [made];
      eexists; (split; [reflexivity|]); (split; [unfold known, from_data; set_solver|]);
      unfold newServiceNotFoundError, newServiceNotAvailableError, newRequestTimeoutError, newRequestSkippedError,
        newRequestRejectedError, newQueueIsFullError, newMaxCallLevelError in Hc;
      destruct (p_data p); cbn in Hc; repeat split_match_in Hc; simplify_eq; done
  | |- _ => eexists; (split; [reflexivity|]); (split; [unfold known, from_data; set_solver|reflexivity])
  end.

Local Ltac next_name s :=
  match goal with |- context [String.eqb s ?x] => destruct (String.eqb_spec s x) as [->|_] end.

(** What [recreateError] answers *)
Lemma recreate_cases stack p :
  match recreateError stack p with
  | Made e => ∃ s, p_name p = JStr s ∧ s ∈ known ∧ e_name e = JStr s
  | Threw => ∃ s, p_name p = JStr s ∧ s ∈ from_data ∧ is_null (p_data p) = true
  | Undefined => True
  end.
Proof.
  unfold recreateError. destruct (p_name p) as [| | | |s| |]; try done. cbv zeta.
  repeat (next_name s; [recreate_case p|]). done.
Qed.

(** An error under such a name without data; only the constructor of [ServiceNotFoundError] has
    a default for [undefined]. *)
Definition unmakeable (name data : json) : Prop :=
  ∃ s, name = JStr s ∧ s ∈ from_data ∧ (data = JNull ∨ data = JUndef ∧ s ≠ "ServiceNotFoundError"%string).

Lemma recreate_threw stack p : recreateError stack p = Threw ↔ unmakeable (p_name p) (p_data p).
Proof.
  unfold unmakeable. split.
  - pose proof (recreate_cases stack p) as Hc. intros E. rewrite E in Hc. destruct Hc as (s & Hs & Hin & Hnull). exists s. split_and!; [done..|].
    destruct (p_data p) eqn:Hd; try done; [|by left]. right. split; [done|]. intros ->. unfold recreateError in E. rewrite Hs, Hd in E. cbn in E. done.
  - intros (s & Hs & Hin & Hd). unfold from_data in Hin. rewrite !elem_of_cons, elem_of_nil in Hin. unfold recreateError. rewrite Hs.
    destruct_or! Hin; try done; subst s; destruct Hd as [-> |[-> Hd]]; cbn; done.
Qed.

(** C33. Whatever was thrown, by users or libraries: restoring it throws exactly if it has one of the
    names whose constructors read their data, and no data (for [ServiceNotFoundError]
    exactly if its data are [null]).  Otherwise the caller is told its name, its node and
    whether to retry, and gets its stack trace if it has one; and if the name is none of the
    framework's, an [Error] comes with its message, code, type and data. *)
Theorem any_error_restored n e stack sender :
  n ≠ ""%string → (∃ m, e_message e = JStr m) →
  (restore stack restoreCustomError (extractPlainError n e) sender = None ↔ unmakeable (e_name e) (e_data e)) ∧
  ∀ e', restore stack restoreCustomError (extractPlainError n e) sender = Some e' →
    e_name e' = e_name e ∧ e_nodeID e' = js_or (e_nodeID e) (JStr n) ∧ e_retryable e' = e_retryable e ∧
    (truthy (e_stack e) = true → e_stack e' = e_stack e) ∧
    ((∀ s, s ∈ known → e_name e ≠ JStr s) →
       e_class e' = Error ∧ e_message e' = e_message e ∧ e_code e' = e_code e ∧ e_type e' = e_type e ∧ e_data e' = e_data e).
Proof.
  intros Hn [m Hm]. set (p := extractPlainError n e). pose proof (recreate_cases stack p) as Hc.
  assert (truthy (p_nodeID p) = true) as Hid by (apply js_or_truthy; simpl; by apply negb_true_iff, String.eqb_neq).
  assert (∀ e' : t, restoreStack p (restoreExternalFields p sender e') =
    Err (e_class e') (e_name e') (e_message e') (js_or (e_nodeID e) (JStr n)) (e_code e') (e_type e') (e_data e') (e_retryable e)
      (if truthy (e_stack e) then e_stack e else e_stack e')) as Hr.
  { intros e'. unfold restoreStack, restoreExternalFields. rewrite (js_or_left _ _ Hid). simpl. by destruct (truthy (e_stack e)). }
  pose proof (recreate_threw stack p) as Ht. change (p_name p) with (e_name e) in Ht. change (p_data p) with (e_data e) in Ht.
  unfold restore. simpl. split.
  { rewrite <- Ht. by destruct (recreateError stack p). }
  intros x. destruct (recreateError stack p) as [| |e']; [done|intros [= <-]..].
  - rewrite Hr. simpl. unfold createDefaultError. destruct (truthy (p_stack p)); cbn [e_name e_message e_code e_type e_data e_class set_stack];
      (split_and!; [done..|by intros ->|]); intros _; (split_and!; [done| |done..]); cbn; by rewrite Hm.
  - rewrite Hr. destruct Hc as (s & Hs & Hk & Hname). simpl. rewrite Hname. cbn in Hs. split_and!; [done..|by intros ->|].
    intros Hno. by destruct (Hno s).
Qed.

Lemma any_error_restored_witness :
  let e := Err (Custom "PaymentError") (JStr "PaymentError") (JStr "Declined") JUndef (JStr "E_CARD") JUndef JNull JUndef (JStr "at f") in
  (∃ e', restore JNull restoreCustomError (extractPlainError "n1" e) (JStr "n1") = Some e' ∧ e_class e' = Error) ∧
  e_message e = JStr "Declined".
Proof.
  intros e. split; [|reflexivity].
  pose proof (any_error_restored "n1" e JNull (JStr "n1") ltac:(done) ltac:(by eexists)) as H.
  destruct H as [_ H]. eexists. split; [reflexivity|]. destruct (H _ eq_refl) as (_ & _ & _ & _ & H'). apply H'.
  unfold known, from_data. intros s Hs [= <-]. set_solver.
Defined.

(** A library's error that happens to have a name of the framework and no data cannot be restored:
    restoring throws. *)
Lemma restore_throws stack sender :
  let e := Err (Custom "RequestTimeoutError") (JStr "RequestTimeoutError") (JStr "slow") JUndef JUndef JUndef JUndef JUndef JNull in
  restore stack restoreCustomError (extractPlainError "n1" e) sender = None.
Proof. reflexivity. Qed.

(** An error that a service could not be stopped loses the name of the service and its data, and a
    [BrokerDisconnectedError] its class and its hidden stack trace. *)
Lemma stop_error_loses_service stack st sender :
  let data := JObj [("service", JObj [("name", JStr "posts"); ("version", JNum 1)])]%string in
  (λ e, (e_message e, e_data e)) <$> newGracefulStopTimeoutError st data =
    Some (JStr "Unable to stop 'posts' service gracefully.", JObj [("name", JStr "posts"); ("version", JNum 1)]%string) ∧
  (λ e, (e_message e, e_data e)) <$>
    (e ← newGracefulStopTimeoutError st data; restore stack restoreCustomError (extractPlainError "n1" e) sender) =
    Some (JStr "Unable to stop ServiceBroker gracefully.", JUndef) ∧
  (λ e, (e_class e, e_stack e)) <$> restore stack restoreCustomError (extractPlainError "n1" (newBrokerDisconnectedError st)) sender =
    Some (Error, stack).
Proof.
  intros data. split; [reflexivity|]. split; [|reflexivity]. simpl. unfold restore, restoreStack. simpl. by destruct (truthy st).
Qed.
