(* ===== verification/Transporter.v ===== *)
(** * Transporter: [transporters/base.js]

    The base class of all transporters: the names of topics, how a packet is published, which
    packets go to balanced queues, and what becomes of a received buffer.  The transporters
    themselves ([send], [subscribe]) are client libraries; what they are asked to do is a
    list of effects.  Brokers exchange buffers through the class [Serializer], the
    interface the serializers of the repository implement. *)

From stdpp Require Import base list strings option pretty sets.
From Stdlib Require Import ZArith Lia Ascii.
From S2P Require Import Prelude JsonText Serializers SerializerTheorems Errors.

Open Scope Z_scope.

(** ** The interface of serializers *)

(** [serialize] and [deserialize] of payloads; [None] is that they throw. *)
Class Serializer := {
  serialize : json → option string;
  deserialize : string → option json
}.

(** What brokers rely on: payloads of plain values arrive, without what is [undefined]. *)
Class SerializerLaws (S : Serializer) : Prop := {
  serialized_arrives v : proper v = true → v ≠ JUndef → ∃ s, serialize v = Some s ∧ deserialize s = Some (clean v)
}.

Lemma pure_arrives {S : Serializer} {L : SerializerLaws S} v : pure v = true → ∃ s, serialize v = Some s ∧ deserialize s = Some v.
Proof.
  intros Hv. destruct (serialized_arrives v) as (s & Hs & Hd); [by apply pure_proper|by intros ->|].
  exists s. split; [exact Hs|]. by rewrite Hd, clean_pure.
Qed.

Definition json_serializer : Serializer := {|
  serialize := JSONSerializer.serialize;
  deserialize := JSONSerializer.deserialize
|}.

(** Plain values among those of the extended serializer *)
Fixpoint of_json (v : json) : JSONExt.value :=
  match v with
  | JUndef => JSONExt.VUndef
  | JNull => JSONExt.VNull
  | JBool b => JSONExt.VBool b
  | JNum n => JSONExt.VNum n
  | JStr s => JSONExt.VStr s
  | JArr l => JSONExt.VArr (map of_json l)
  | JObj m => JSONExt.VObj (map (λ '(k, x), (k, of_json x)) m)
  end.
Fixpoint to_json (v : JSONExt.value) : option json :=
  match v with
  | JSONExt.VUndef => Some JUndef
  | JSONExt.VNull => Some JNull
  | JSONExt.VBool b => Some (JBool b)
  | JSONExt.VNum n => Some (JNum n)
  | JSONExt.VStr s => Some (JStr s)
  | JSONExt.VArr l =>
      l ← (fix go l := match l with [] => Some [] | x :: l => x ← to_json x; l ← go l; Some (x :: l) end) l; Some (JArr l)
  | JSONExt.VObj m =>
      m ← (fix go m := match m with [] => Some [] | (k, x) :: m => x ← to_json x; m ← go m; Some ((k, x) :: m) end) m;
      Some (JObj m)
  | _ => None
  end.

(** The extended serializer without users' types, on plain payloads *)
Definition json_ext_serializer : Serializer := {|
  serialize v := JSONExt.serialize [] (of_json v);
  deserialize s := v ← JSONExt.deserialize [] (λ _ _, true) s; to_json v
|}.

Module BaseTransporter.

(** A packet; its payload is an object. *)
Record packet := Packet {
  type : string;
  target : option string;
  payload : OMap.t json
}.

Definition PACKET_EVENT : string := "EVENT".
Definition PACKET_REQUEST : string := "REQ".
Definition PACKET_PING : string := "PING".

(** What a transporter does *)
Inductive effect :=
| Send (topic data : string) (balanced : bool)
| Unsubscribe                                     (* from balanced commands *)
| SubscribeRequest (action : string)
| SubscribeEvent (event group : string)
| Handle (cmd : string) (payload : json)          (* the message handler of the transit is called *)
| InvalidPacket (cmd : string).                   (* a warning is logged *)

(** How [prepublish] ends *)
Inductive outcome :=
| Done
| Disconnected     (* rejected with a BrokerDisconnectedError *)
| Thrown.          (* the payload cannot be serialized *)

Record t := Transporter {
  nodeID : string;
  prefix : string;
  connected : bool;
  hasBuiltInBalancer : bool
}.

(** [init(transit, ...)] at the broker with the ID and namespace *)
Definition init (nodeID : string) (namespace : option string) (balancer : bool) : t :=
  Transporter nodeID
    (match namespace with
     | Some n => if String.eqb n "" then "MOL" else "MOL-" +:+ n
     | None => "MOL"
     end) false balancer.

(** [onConnected()] *)
Definition onConnected (x : t) : t := Transporter (nodeID x) (prefix x) true (hasBuiltInBalancer x).

(** [getTopicName(cmd, nodeID)] *)
Definition getTopicName (x : t) (cmd : string) (target : option string) : string :=
  prefix x +:+ "." +:+ cmd +:+ match target with
                              | Some n => if String.eqb n "" then "" else "." +:+ n
                              | None => ""
                              end.

Section transporter.
Context {S : Serializer} (PROTOCOL_VERSION : string).

(** [serialize(packet)]: the payload with version and sender *)
Definition signed (x : t) (p : packet) : OMap.t json :=
  OMap.set "sender" (JStr (nodeID x)) (OMap.set "ver" (JStr PROTOCOL_VERSION) (payload p)).
Definition serialize_packet (x : t) (p : packet) : option string := serialize (JObj (signed x p)).

Definition send (topic : string) (data : option string) (balanced : bool) : list effect * outcome :=
  match data with
  | Some d => ([Send topic d balanced], Done)
  | None => ([], Thrown)
  end.

(** [publish(packet)] *)
Definition publish (x : t) (p : packet) : list effect * outcome :=
  send (getTopicName x (type p) (target p)) (serialize_packet x p) false.

Definition field (k : string) (p : packet) : string := js_string (default JUndef (OMap.get k (payload p))).

(** [publishBalancedEvent(packet, group)] *)
Definition event_topic (x : t) (group event : string) : string :=
  prefix x +:+ "." +:+ PACKET_EVENT +:+ "B." +:+ group +:+ "." +:+ event.
Definition publishBalancedEvent (x : t) (p : packet) (group : json) : list effect * outcome :=
  send (event_topic x (js_string group) (field "event" p)) (serialize_packet x p) true.

(** [publishBalancedRequest(packet)] *)
Definition request_topic (x : t) (action : string) : string := prefix x +:+ "." +:+ PACKET_REQUEST +:+ "B." +:+ action.
Definition publishBalancedRequest (x : t) (p : packet) : list effect * outcome :=
  send (request_topic x (field "action" p)) (serialize_packet x p) true.

(** [cloneDeep(packet)] with only one group *)
Definition with_group (p : packet) (group : json) : packet :=
  Packet (type p) (target p) (OMap.set "groups" (JArr [group]) (payload p)).

(** One packet per group; a payload that cannot be serialized ends the loop. *)
Fixpoint publish_groups (x : t) (p : packet) (groups : list json) : list effect * outcome :=
  match groups with
  | [] => ([], Done)
  | g :: groups =>
      match publishBalancedEvent x (with_group p g) g with
      | (es, Done) => let '(es', o) := publish_groups x p groups in (es ++ es', o)
      | r => r
      end
  end.

(** [prepublish(packet)]; the groups of an event are an array, if there are any. *)
Definition prepublish (x : t) (p : packet) : list effect * outcome :=
  if negb (connected x) then
    if existsb (String.eqb (type p)) [PACKET_REQUEST; PACKET_EVENT; PACKET_PING] then ([], Disconnected) else ([], Done)
  else
    match target p with
    | Some _ => publish x p
    | None =>
        if String.eqb (type p) PACKET_EVENT then
          match OMap.get "groups" (payload p) with
          | Some (JArr ((_ :: _) as groups)) => publish_groups x p groups
          | _ => publish x p
          end
        else if String.eqb (type p) PACKET_REQUEST then publishBalancedRequest x p
        else publish x p
    end.

(** [deserialize(type, buf)]: the payload of the new packet *)
Definition deserialize_packet (data : string) : option json := v ← deserialize data; Some (js_or v (JObj [])).

(** [incomingMessage(cmd, msg)], also [receive] *)
Definition incomingMessage (cmd : string) (msg : option string) : list effect :=
  match msg with
  | None => []
  | Some data =>
      match deserialize_packet data with
      | Some v => [Handle cmd v]
      | None => [InvalidPacket cmd]
      end
  end.

(** A local service: its name, actions, and events with their groups *)
Record service := Service {
  sv_name : string;
  sv_actions : list string;
  sv_events : OMap.t (option string)
}.

(** [makeBalancedSubscriptions()] *)
Definition group_of (s : service) (g : option string) : string :=
  match g with Some g => if String.eqb g "" then sv_name s else g | None => sv_name s end.
Definition makeBalancedSubscriptions (x : t) (services : list service) : list effect :=
  if hasBuiltInBalancer x then
    Unsubscribe ::
    flat_map (λ s, map SubscribeRequest (sv_actions s) ++ map (λ '(e, g), SubscribeEvent e (group_of s g)) (sv_events s)) services
  else [].

End transporter.
End BaseTransporter.

(** ** Serializers keep the laws *)

#[export] Instance json_serializer_laws : SerializerLaws json_serializer.
Proof. constructor. intros v Hv Hu. exists (JSON.print v). split; [by destruct v|by apply parse_print_clean]. Qed.

Lemma of_json_kept v : pure v = true → kept [] (λ _ _, true) (of_json v) = true.
Proof.
  induction v as [| |b|n|s|l IH|m IH] using json_rec; try done.
  - intros Hp. cbn [of_json kept]. change (has_custom [] _) with false. simpl in *.
    induction IH as [|x l Hx _ IH]; [done|]. simpl in *. apply andb_true_iff in Hp as [H1 H2]. rewrite Hx by done. by apply IH.
  - intros Hp. cbn [of_json kept]. change (has_custom [] _) with false. simpl in *. apply andb_true_iff in Hp as [Hnd Hp].
    apply andb_true_iff. split.
    + apply bool_decide_eq_true in Hnd. apply bool_decide_eq_true. rewrite map_map, (map_ext _ fst) by (by intros []). done.
    + clear Hnd. induction IH as [|[k x] m Hx _ IH]; [done|]. simpl in *. apply andb_true_iff in Hp as [H1 H2].
      rewrite Hx by done. by apply IH.
Qed.

Lemma to_of_json v : to_json (of_json v) = Some v.
Proof.
  induction v as [| |b|n|s|l IH|m IH] using json_rec; try done; cbn [of_json to_json].
  - enough ((fix go l := match l with [] => Some [] | x :: l => x ← to_json x; l ← go l; Some (x :: l) end) (map of_json l) = Some l) as ->
      by done.
    induction IH as [|x l Hx _ IH]; [done|]. simpl. rewrite Hx. simpl. by rewrite IH.
  - enough ((fix go m := match m with [] => Some [] | (k, x) :: m => x ← to_json x; m ← go m; Some ((k, x) :: m) end)
      (map (λ '(k, x), (k, of_json x)) m) = Some m) as -> by done.
    induction IH as [|[k x] m Hx _ IH]; [done|]. simpl. simpl in Hx. rewrite Hx. simpl. by rewrite IH.
Qed.

(** Writing cleans. *)
Lemma encode_clean v : JSONExt.encode [] (of_json (clean v)) = clean (JSONExt.encode [] (of_json v)).
Proof.
  induction v as [| | | | |l IH|m IH] using json_rec; try done; cbn [clean of_json JSONExt.encode]; unfold JSONExt.or_custom; cbn.
  - f_equal. rewrite !map_map. apply map_ext_Forall, list.Forall_impl with (1 := IH). intros x Hx. rewrite <- Hx.
    destruct x; done.
  - f_equal. induction IH as [|[k x] m Hx _ IH]; [done|]. cbn [flat_map map snd] in *. rewrite !map_app, IH, <- Hx. f_equal.
    by destruct x.
Qed.

#[export] Instance json_ext_serializer_laws : SerializerLaws json_ext_serializer.
Proof.
  constructor. intros v Hv Hu. destruct (ext_round_trip [] (λ _ _, true) (of_json (clean v))) as (s & H1 & H2).
  - intros c Hc. by apply not_elem_of_nil in Hc.
  - by apply of_json_kept, pure_clean.
  - exists s. split.
    + rewrite <- H1. change (JSON.stringify (JSONExt.encode [] (of_json v)) = JSON.stringify (JSONExt.encode [] (of_json (clean v)))).
      rewrite encode_clean. unfold JSON.stringify. rewrite print_clean. by destruct v.
    + change ((w ← JSONExt.deserialize [] (λ _ _, true) s; to_json w) = Some (clean v)). rewrite H2. apply to_of_json.
Qed.

(** ** Publishing *)

Section publishing.
Import BaseTransporter.
Context {S : Serializer} {L : SerializerLaws S} (ver : string).

(** What a buffer tells a receiver *)
Definition carries (m : OMap.t json) (data : string) : Prop :=
  ∀ cmd, incomingMessage cmd (Some data) = [Handle cmd (JObj (clean_members m))].

Lemma proper_set k v m : proper v = true → proper (JObj m) = true → proper (JObj (OMap.set k v m)) = true.
Proof.
  cbn [proper]. intros Hv [Hnd Hm]%andb_true_iff. apply bool_decide_eq_true in Hnd. apply andb_true_iff. split.
  - apply bool_decide_eq_true. by apply OMap.wf_set.
  - clear Hnd. induction m as [|[k' x] m IH]; simpl; [by rewrite Hv|]. simpl in Hm. apply andb_true_iff in Hm as [Hx Hm].
    destruct (String.eqb k k'); simpl; [by rewrite Hv, Hm|by rewrite Hx, IH].
Qed.

Lemma proper_signed x p : proper (JObj (payload p)) = true → proper (JObj (signed ver x p)) = true.
Proof. intros Hp. unfold signed. by repeat apply proper_set. Qed.

(** A payload is sent, and arrives. *)
Lemma send_packet x p topic b : proper (JObj (payload p)) = true →
  ∃ d, send topic (serialize_packet ver x p) b = ([Send topic d b], Done) ∧ carries (signed ver x p) d.
Proof.
  intros Hp. destruct (serialized_arrives _ (proper_signed x p Hp) ltac:(done)) as (d & Hs & Hd). exists d. unfold serialize_packet, send. rewrite Hs.
  split; [done|]. intros cmd. unfold incomingMessage, deserialize_packet. by rewrite Hd.
Qed.

(** The packets that [prepublish] hands to [send], as topics, payloads and whether they are
    balanced *)
Definition sent (es : list effect) (expected : list (string * OMap.t json * bool)) : Prop :=
  Forall2 (λ e '(topic, m, b), ∃ d, e = Send topic d b ∧ carries m d) es expected.

Lemma publish_groups_sent x p groups : proper (JObj (payload p)) = true → forallb proper groups = true →
  ∃ es, publish_groups ver x p groups = (es, Done) ∧
  sent es (map (λ g, (event_topic x (js_string g) (field "event" p), signed ver x (with_group p g), true)) groups).
Proof.
  intros Hp. induction groups as [|g groups IH]; intros Hg; [by exists []; split; [|constructor]|]. simpl in Hg.
  apply andb_true_iff in Hg as [Hg Hgs]. destruct (IH Hgs) as (es & He & Hes). simpl. unfold publishBalancedEvent.
  assert (field "event" (with_group p g) = field "event" p) as ->
    by (unfold field, with_group; cbn [payload]; by rewrite OMap.get_set_ne).
  destruct (send_packet x (with_group p g) (event_topic x (js_string g) (field "event" p)) true) as (d & -> & Hd).
  { unfold with_group. cbn [payload]. apply proper_set; [|done]. simpl. by rewrite Hg. }
  rewrite He. exists (Send (event_topic x (js_string g) (field "event" p)) d true :: es). split; [done|].
  constructor; [by exists d|done].
Qed.

End publishing.

Import BaseTransporter.

(** C20. Publishing hands each packet to the right topics, and whoever gets a buffer is called with
    what was sent.  Without a connection nothing is sent, and only packets that users wait for
    fail.  With one, a packet to a node goes to that node's topic of its type; an event to
    groups goes once to the balanced queue of each group, as an event to that group
    alone; a request to any node goes to the balanced queue of its action; everything else
    goes to all nodes.  The payloads arrive with the version and the ID of the sender and are
    otherwise unchanged, except that what is [undefined] is missing. *)
Theorem prepublish_delivers {S : Serializer} {L : SerializerLaws S} ver x p :
  proper (JObj (payload p)) = true →
  ∃ es o, prepublish ver x p = (es, o) ∧
  (connected x = false → es = [] ∧ (o = Disconnected ↔ type p ∈ [PACKET_REQUEST; PACKET_EVENT; PACKET_PING]) ∧ o ≠ Thrown) ∧
  (connected x = true → o = Done ∧
    (∀ n, target p = Some n → sent es [(getTopicName x (type p) (Some n), signed ver x p, false)]) ∧
    (target p = None → type p = PACKET_EVENT → ∀ g gs, OMap.get "groups" (payload p) = Some (JArr (g :: gs)) →
       sent es (map (λ g, (event_topic x (js_string g) (field "event" p), signed ver x (with_group p g), true)) (g :: gs))) ∧
    (target p = None → type p = PACKET_REQUEST → sent es [(request_topic x (field "action" p), signed ver x p, true)]) ∧
    (target p = None → type p ≠ PACKET_REQUEST →
       (type p = PACKET_EVENT → ∀ g gs, OMap.get "groups" (payload p) ≠ Some (JArr (g :: gs))) →
       sent es [(getTopicName x (type p) None, signed ver x p, false)])) ∧
  (∀ q k, OMap.get k (signed ver x q) =
     if String.eqb k "sender" then Some (JStr (nodeID x)) else if String.eqb k "ver" then Some (JStr ver)
     else OMap.get k (payload q)).
Proof.
  intros Hp.
  assert (∀ q k, OMap.get k (signed ver x q) =
     if String.eqb k "sender" then Some (JStr (nodeID x)) else if String.eqb k "ver" then Some (JStr ver)
     else OMap.get k (payload q)) as Hsigned.
  { intros q k. unfold signed. destruct (String.eqb_spec k "sender") as [->|H1]; [by rewrite OMap.get_set_eq|].
    rewrite OMap.get_set_ne by done. destruct (String.eqb_spec k "ver") as [->|H2]; [by rewrite OMap.get_set_eq|].
    by rewrite OMap.get_set_ne. }
  unfold prepublish, publish, publishBalancedRequest. destruct (connected x); cbn [negb].
  - assert (∀ topic b, ∃ es, send topic (serialize_packet ver x p) b = (es, Done) ∧ sent es [(topic, signed ver x p, b)]) as Hone.
    { intros topic b. destruct (send_packet ver x p topic b Hp) as (d & -> & Hd). eexists. split; [done|].
      constructor; [by exists d|constructor]. }
    destruct (target p) as [n|].
    + destruct (Hone (getTopicName x (type p) (Some n)) false) as (es & He & Hs). exists es, Done; split; [exact He|].
      split_and!; try done. intros _. split_and!; try done. by intros n' [= <-].
    + destruct (String.eqb_spec (type p) PACKET_EVENT) as [Ht|Ht].
      * destruct (OMap.get "groups" (payload p)) as [v|] eqn:Hg;
          [destruct v as [| | | | |[|g gs]|]|];
          try (destruct (Hone (getTopicName x (type p) None) false) as (es & He & Hs); exists es, Done; split; [exact He|];
               split_and!; try done; intros _; split_and!; try done; by rewrite Ht).
        destruct (publish_groups_sent ver x p (g :: gs) Hp) as (es & He & Hs).
        { change (proper (JArr (g :: gs)) = true). clear -Hp Hg. cbn [proper] in Hp. apply andb_true_iff in Hp as [_ Hp].
          rewrite forallb_forall in Hp. apply OMap.get_Some_elem in Hg. apply list_elem_of_In in Hg. exact (Hp _ Hg). }
        exists es, Done. split; [exact He|]. split_and!; try done. intros _. split_and!; try done.
        -- by intros _ _ g' gs' [= <- <-].
        -- by rewrite Ht.
        -- intros _ _ Hno. by destruct (Hno Ht g gs).
      * destruct (String.eqb_spec (type p) PACKET_REQUEST) as [Hr|Hr].
        -- destruct (Hone (request_topic x (field "action" p)) true) as (es & He & Hs). exists es, Done; split; [exact He|].
           by split_and!.
        -- destruct (Hone (getTopicName x (type p) None) false) as (es & He & Hs). unfold publish. rewrite He.
           exists es, Done. by split_and!.
  - destruct (existsb _ _) eqn:E; eexists _, _; (split; [reflexivity|]); (split; [|by split]); intros _; (split; [done|]);
      (split; [|done]).
    + split; [intros _|done]. apply existsb_exists in E as (y & Hy & He). apply String.eqb_eq in He as <-. by apply list_elem_of_In.
    + split; [done|]. intros Hin. exfalso. apply not_true_iff_false in E. apply E. apply existsb_exists. exists (type p).
      split; [by apply list_elem_of_In|by apply String.eqb_refl].
Qed.

Lemma prepublish_delivers_witness :
  let x := onConnected (init "n1" (Some "dev"%string) true) in
  let p := Packet "EVENT" None [("event", JStr "user.created"); ("groups", JArr [JStr "mail"; JStr "log"])]%string in
  let published := prepublish (S := json_ext_serializer) "5" x p in
  published.2 = Done ∧
  ∃ a b, published.1 = [Send "MOL-dev.EVENTB.mail.user.created" a true; Send "MOL-dev.EVENTB.log.user.created" b true]%string.
Proof.
  intros x p published. destruct (prepublish_delivers (S := json_ext_serializer) "5" x p) as (es & o & He & _ & Hc & _); [vm_compute; reflexivity|].
  unfold published. rewrite He. destruct (Hc eq_refl) as (Ho & _ & Hg & _). split; [exact Ho|].
  specialize (Hg eq_refl eq_refl _ _ eq_refl). unfold sent in Hg. cbn [map] in Hg.
  apply Forall2_cons_inv_r in Hg as (e1 & es1 & (a & -> & _) & Hg & ->).
  apply Forall2_cons_inv_r in Hg as (e2 & es2 & (b & -> & _) & Hg & ->). apply Forall2_nil_inv_r in Hg as ->.
  exists a, b. reflexivity.
Defined.

(** ** Topics *)

(** Names without a dot *)
Definition dotless (s : string) : Prop := (cut "." s).2 = None.

Lemma append_inj (a b c : string) : a +:+ b = a +:+ c → b = c.
Proof. induction a as [|d a IH]; [done|]. intros [= H]. by apply IH. Qed.

(** What stands before the first dot decides. *)
Lemma dotless_split a a' b b' : dotless a → dotless a' → a +:+ "." +:+ b = a' +:+ "." +:+ b' → a = a' ∧ b = b'.
Proof.
  intros Ha Ha' H. assert (∀ a b, dotless a → cut "." (a +:+ "." +:+ b) = (a, Some b)) as Hc
    by (intros; by apply (cut_app "." _ _)).
  apply (f_equal (cut ".")) in H. rewrite !Hc in H by done. by simplify_eq.
Qed.

Lemma dotless_end a a' b : dotless a' → a +:+ "." +:+ b ≠ a'.
Proof.
  intros Ha H. unfold dotless in Ha. rewrite <- H in Ha. clear H. induction a as [|c a IH]; [done|].
  change (String c a +:+ ?x) with (String c (a +:+ x)) in Ha. cbn [cut] in Ha. destruct (Ascii.eqb "." c); [done|].
  destruct (cut "." (a +:+ "." +:+ b)) as [x y]. by apply IH.
Qed.

(** Topics do not mix: of packets of different types (types have no dots) or for different nodes;
    of balanced events of different names or groups, where groups have no dots; of balanced
    requests of different actions; and balanced topics are those of no packet type. *)
Theorem topics_distinct x :
  (∀ cmd cmd' n n', dotless cmd → dotless cmd' → n ≠ Some ""%string → n' ≠ Some ""%string →
     getTopicName x cmd n = getTopicName x cmd' n' → cmd = cmd' ∧ n = n') ∧
  (∀ g g' e e', dotless g → dotless g' → event_topic x g e = event_topic x g' e' → g = g' ∧ e = e') ∧
  (∀ a a', request_topic x a = request_topic x a' → a = a') ∧
  (∀ g e a, event_topic x g e ≠ request_topic x a) ∧
  (∀ cmd n g e a, dotless cmd → cmd ≠ "EVENTB"%string → cmd ≠ "REQB"%string →
     getTopicName x cmd n ≠ event_topic x g e ∧ getTopicName x cmd n ≠ request_topic x a).
Proof.
  assert (∀ cmd n y, dotless cmd → ∀ w, dotless w → cmd ≠ w → getTopicName x cmd n ≠ prefix x +:+ "." +:+ w +:+ "." +:+ y) as Hne.
  { intros cmd n y Hc w Hw Hcw H. unfold getTopicName in H. do 2 apply append_inj in H.
    destruct n as [n|]; [destruct (String.eqb n "")|].
    - rewrite append_nil in H. by apply (dotless_end w cmd y).
    - by destruct (dotless_split cmd w n y Hc Hw H).
    - rewrite append_nil in H. by apply (dotless_end w cmd y). }
  split_and!.
  - intros cmd cmd' n n' Hc Hc' Hn Hn' H. unfold getTopicName in H. do 2 apply append_inj in H.
    destruct n as [n|], n' as [n'|].
    + destruct (String.eqb_spec n "") as [->|_]; [done|]. destruct (String.eqb_spec n' "") as [->|_]; [done|].
      destruct (dotless_split cmd cmd' n n' Hc Hc' H) as [-> ->]. done.
    + destruct (String.eqb_spec n "") as [->|_]; [done|]. rewrite append_nil in H. by apply dotless_end in H.
    + destruct (String.eqb_spec n' "") as [->|_]; [done|]. rewrite append_nil in H. symmetry in H. by apply dotless_end in H.
    + rewrite !append_nil in H. by subst.
  - intros g g' e e' Hg Hg' H. unfold event_topic in H. do 4 apply append_inj in H. by apply dotless_split.
  - intros a a' H. unfold request_topic in H. by do 4 apply append_inj in H.
  - intros g e a H. unfold event_topic, request_topic in H. do 2 apply append_inj in H. discriminate H.
  - intros cmd n g e a Hc H1 H2. split.
    + exact (Hne cmd n (g +:+ "." +:+ e) Hc "EVENTB"%string eq_refl H1).
    + exact (Hne cmd n a Hc "REQB"%string eq_refl H2).
Qed.

Lemma topics_distinct_witness :
  let x := init "n1" None true in
  getTopicName x "REQ" (Some "n2"%string) ≠ getTopicName x "REQ" (Some "n3"%string) ∧ event_topic x "a" "b.c" ≠ event_topic x "b" "b.c".
Proof.
  intros x. destruct (topics_distinct x) as (H1 & H2 & _). split; intros H.
  - by destruct (H1 "REQ" "REQ" (Some "n2") (Some "n3") eq_refl eq_refl)%string.
  - by destruct (H2 "a" "b" "b.c" "b.c" eq_refl eq_refl H)%string.
Defined.

(** With a dot in the name of a group (the name of a service, unless an event has its own) two
    events can share a balanced queue. *)
Lemma event_topics_collide x : event_topic x "v1" "user.created" = event_topic x "v1.user" "created".
Proof. reflexivity. Qed.
