(* ===== verification/Topics.v ===== *)
(** * Topics: who gets the packets of the transit

    The packets that [src/transit.js] publishes, the topics it subscribes to, and what the
    transporters Fake, NATS, Redis, MQTT, Kafka and AMQP 1.0 make of them at their client
    libraries.  A library is seen through the addresses it is asked to send to and to
    listen at: each listener of a channel gets a message, and one of the listeners of a
    queue.  The class [Driver] is what a transporter adds to the base class; [DriverLaws]
    and [BalancerLaws] are what the transit relies on. *)

From stdpp Require Import base tactics list strings option.
From Stdlib Require Import ZArith Lia Bool Ascii.
From S2P Require Import Prelude JsonText Serializers SerializerTheorems Errors Transporter.

Import BaseTransporter.

Module Topics.

(** ** Packets of the transit *)

Definition prop (k : string) (m : OMap.t json) : json := default JUndef (OMap.get k m).
Definition texts (l : option (list string)) : json := match l with Some l => JArr (map JStr l) | None => JNull end.

(** [sendDisconnectPacket()] *)
Definition sendDisconnectPacket : packet := Packet "DISCONNECT" None [].

(** [discoverNodes()] and [discoverNode(nodeID)] *)
Definition discoverNodes : packet := Packet "DISCOVER" None [].
Definition discoverNode (nodeID : string) : packet := Packet "DISCOVER" (Some nodeID) [].

(** [sendNodeInfo(info, nodeID)] *)
Definition sendNodeInfo (connected isReady : bool) (instanceID : string) (info : OMap.t json) (nodeID : option string) : option packet :=
  if negb connected || negb isReady then None
  else Some (Packet "INFO" nodeID
    [("services", prop "services" info); ("ipList", prop "ipList" info); ("hostname", prop "hostname" info);
     ("client", prop "client" info); ("config", prop "config" info); ("instanceID", JStr instanceID);
     ("metadata", prop "metadata" info); ("seq", prop "seq" info)]%string).

(** [sendPing(nodeID, id)] at the time [now], with the ID [uid] for a ping without one *)
Definition sendPing (nodeID id : option string) (uid : string) (now : Z) : packet :=
  Packet "PING" nodeID
    [("time", JNum now); ("id", JStr match id with Some i => if String.eqb i "" then uid else i | None => uid end)]%string.

(** [sendPong(payload)] *)
Definition sendPong (sender : string) (time id : json) (now : Z) : packet :=
  Packet "PONG" (Some sender) [("time", time); ("id", id); ("arrived", JNum now)]%string.

(** [sendHeartbeat(localNode)] *)
Definition sendHeartbeat (cpu : json) : packet := Packet "HEARTBEAT" None [("cpu", cpu)]%string.

(** What [sendEvent] reads of a context *)
Record event_context := EventContext {
  c_endpoint : bool;
  c_nodeID : option string;
  eventName : string;
  eventGroups : option (list string);
  broadcast : bool;                   (* [eventType == "broadcast"] *)
  c_id : json; c_params : json; c_meta : json; c_headers : json; c_level : json; c_tracing : json;
  c_parentID : json; c_requestID : json; c_caller : json; c_needAck : json
}.

(** [sendEvent(ctx)] *)
Definition sendEvent (c : event_context) : packet :=
  Packet "EVENT" (if c_endpoint c then c_nodeID c else None)
    [("id", c_id c); ("event", JStr (eventName c)); ("data", c_params c); ("groups", texts (eventGroups c));
     ("broadcast", JBool (broadcast c)); ("meta", c_meta c); ("headers", c_headers c); ("level", c_level c);
     ("tracing", c_tracing c); ("parentID", c_parentID c); ("requestID", c_requestID c); ("caller", c_caller c);
     ("needAck", c_needAck c)]%string.

(** All packets of the transit *)
Inductive published : packet → Prop :=
| PubDisconnect : published sendDisconnectPacket
| PubDiscoverNodes : published discoverNodes
| PubDiscoverNode n : published (discoverNode n)
| PubInfo c r i info n p : sendNodeInfo c r i info n = Some p → published p
| PubPing n i u t : published (sendPing n i u t)
| PubPong n t i now : published (sendPong n t i now)
| PubHeartbeat cpu : published (sendHeartbeat cpu)
| PubEvent c : published (sendEvent c)
| PubRequest n m : published (Packet "REQ" n m)
| PubResponse n m : published (Packet "RES" (Some n) m).

(** [makeSubscriptions()] *)
Definition makeSubscriptions (nodeID : string) : list (string * option string) :=
  [("EVENT", Some nodeID); ("REQ", Some nodeID); ("RES", Some nodeID);
   ("DISCOVER", None); ("DISCOVER", Some nodeID);
   ("INFO", None); ("INFO", Some nodeID);
   ("DISCONNECT", None); ("HEARTBEAT", None);
   ("PING", None); ("PING", Some nodeID); ("PONG", Some nodeID)]%string.

(** ** The interface of transporters *)

Inductive address :=
| Channel (name : string)             (* every listener gets each message *)
| Queue (name : string).              (* one of the listeners gets each message *)
#[export] Instance address_eq_dec : EqDecision address.
Proof. solve_decision. Defined.

Class Driver (T : Type) := {
  base : T → t;
  (* where [publish(packet)] sends a packet of that type to that target *)
  address_of : T → string → option string → address;
  (* where [subscribe(cmd, nodeID)] listens, with the command it notes *)
  listens : T → string → option string → list (address * string);
  (* the command for which [receive] is called *)
  command : T → address → string → string;
  (* where balanced requests of an action go, and [subscribeBalancedRequest(action)] *)
  request_address : T → string → address;
  listens_request : T → string → list (address * string)
}.

Section listening.
Context `{Driver T}.

(** What a node listens to that has subscribed, and made the balanced subscriptions [es] *)
Definition listening (y : T) (es : list effect) : list (address * string) :=
  flat_map (λ '(cmd, n), listens y cmd n) (makeSubscriptions (nodeID (base y))) ++
  flat_map (λ e, match e with SubscribeRequest a => listens_request y a | _ => [] end) es.

(** The commands for which [receive] is called when a message comes from [a] *)
Definition hears (y : T) (es : list effect) (a : address) : list string :=
  flat_map (λ '(b, cmd), if decide (b = a) then [command y b cmd] else []) (listening y es).

(** What the messages of [a] make the transit do *)
Definition gets {S : Serializer} (y : T) (es : list effect) (a : address) (data : string) : list effect :=
  flat_map (λ cmd, incomingMessage cmd (Some data)) (hears y es a).

End listening.

(** A packet sent there is handled once by a node with these listeners, as [cmd] (a queue hands it to one of them). *)
Definition reached (a : address) (cmd : string) (hs : list string) : Prop :=
  match a with Channel _ => hs = [cmd] | Queue _ => hs ≠ [] ∧ Forall (eq cmd) hs end.

(** What packets the transit may send to a node, and to all nodes *)
Definition to_node : list string := ["EVENT"; "REQ"; "RES"; "DISCOVER"; "INFO"; "PING"; "PONG"]%string.
Definition to_all : list string := ["DISCOVER"; "INFO"; "DISCONNECT"; "HEARTBEAT"; "PING"]%string.
Definition routable (cmd : string) (n : option string) : Prop :=
  match n with Some n => cmd ∈ to_node ∧ n ≠ ""%string | None => cmd ∈ to_all end.

(** Any packet type, with a target that is not empty *)
Definition known (cmd : string) (n : option string) : Prop := cmd ∈ to_node ++ to_all ∧ n ≠ Some ""%string.

(** What the transit relies on: [agree x y] is that two nodes of one cluster are set up for
    each other. *)
Class DriverLaws (T : Type) `{Driver T} (agree : T → T → Prop) : Prop := {
  reaches x y es cmd n : agree x y → routable cmd n → (n = None ∨ n = Some (nodeID (base y))) →
    reached (address_of x cmd n) cmd (hears y es (address_of x cmd n));
  passes x y es cmd n : agree x y → routable cmd (Some n) → n ≠ nodeID (base y) →
    hears y es (address_of x cmd (Some n)) = [];
  untargeted x y es cmd : agree x y → cmd = PACKET_EVENT ∨ cmd = PACKET_REQUEST →
    hears y es (address_of x cmd None) = []
}.

Class BalancerLaws (T : Type) `{Driver T} (agree : T → T → Prop) : Prop := {
  queues x a : ∃ q, request_address x a = Queue q;
  request_heard x y es a : agree x y →
    (SubscribeRequest a ∈ es → reached (request_address x a) PACKET_REQUEST (hears y es (request_address x a))) ∧
    (SubscribeRequest a ∉ es → hears y es (request_address x a) = [])
}.

(** ** Transporters with a topic for each kind of packet *)

(** The text of [s] before the first [sep]: [s.split(sep)[0]] *)
Fixpoint before (sep s : string) : string :=
  if String.prefix sep s then EmptyString
  else match s with EmptyString => EmptyString | String c s => String c (before sep s) end.
Definition first_part (sep s : string) : string :=
  if String.eqb sep "" then String.substring 0 1 s else before sep s.

(** [${prefix}${sep}${cmd}${sep}${nodeID}] *)
Definition topic_name (sep prefix cmd : string) (n : option string) : string :=
  prefix +:+ sep +:+ cmd +:+ match n with Some n => if String.eqb n "" then "" else sep +:+ n | None => "" end.

(** [transporters/fake.js] *)
Record fake := Fake { fake_base : t }.
Definition fake_driver : Driver fake := {|
  base := fake_base;
  address_of x cmd n := Channel (getTopicName (fake_base x) cmd n);
  listens x cmd n := [(Channel (getTopicName (fake_base x) cmd n), cmd)];
  command _ _ cmd := cmd;
  request_address x a := Queue (request_topic (fake_base x) a);
  listens_request _ _ := []
|}.
#[export] Existing Instance fake_driver.

(** [transporters/nats.js]; the subscriptions of a balanced request form a queue group. *)
Record nats := Nats { nats_base : t }.
Definition nats_driver : Driver nats := {|
  base := nats_base;
  address_of x cmd n := Channel (getTopicName (nats_base x) cmd n);
  listens x cmd n := [(Channel (getTopicName (nats_base x) cmd n), cmd)];
  command _ _ cmd := cmd;
  request_address x a := Queue (request_topic (nats_base x) a);
  listens_request x a := [(Queue (request_topic (nats_base x) a), PACKET_REQUEST)]
|}.
#[export] Existing Instance nats_driver.

(** [replace(/\*\*.*$/g, ">")] *)
Fixpoint nats_wildcards (s : string) : string :=
  match s with
  | String "*" (String "*" _) => ">"
  | String c s => String c (nats_wildcards s)
  | EmptyString => EmptyString
  end.

(** [subscribeBalancedEvent(event, group)]: the subject and the queue group *)
Definition nats_balanced_event (x : nats) (event group : string) : string * string :=
  (nats_wildcards (event_topic (nats_base x) group event), group).

(** [transporters/redis.js] *)
Record redis := Redis { redis_base : t }.
Definition redis_driver : Driver redis := {|
  base := redis_base;
  address_of x cmd n := Channel (getTopicName (redis_base x) cmd n);
  listens x cmd n := [(Channel (getTopicName (redis_base x) cmd n), cmd)];
  command x a _ :=
    match a with
    | Channel rawTopic => first_part "." (Text.substring_from (String.length (prefix (redis_base x)) + 1) rawTopic)
    | Queue _ => ""
    end;
  request_address x a := Channel (request_topic (redis_base x) a);
  listens_request _ _ := []
|}.
#[export] Existing Instance redis_driver.

(** [transporters/mqtt.js] *)
Record mqtt := Mqtt { mqtt_base : t; topicSeparator : string }.
Definition mqtt_topic (x : mqtt) (cmd : string) (n : option string) : string :=
  topic_name (topicSeparator x) (prefix (mqtt_base x)) cmd n.
Definition mqtt_driver : Driver mqtt := {|
  base := mqtt_base;
  address_of x cmd n := Channel (mqtt_topic x cmd n);
  listens x cmd n := [(Channel (mqtt_topic x cmd n), cmd)];
  command x a _ :=
    match a with
    | Channel rawTopic =>
        first_part (topicSeparator x)
          (Text.substring_from (String.length (prefix (mqtt_base x)) + String.length (topicSeparator x)) rawTopic)
    | Queue _ => ""
    end;
  request_address x a := Channel (request_topic (mqtt_base x) a);
  listens_request _ _ := []
|}.
#[export] Existing Instance mqtt_driver.

(** [transporters/kafka.js] *)
Record kafka := Kafka { kafka_base : t }.
Definition kafka_driver : Driver kafka := {|
  base := kafka_base;
  address_of x cmd n := Channel (getTopicName (kafka_base x) cmd n);
  listens x cmd n := [(Channel (getTopicName (kafka_base x) cmd n), cmd)];
  command x a _ :=
    match a with Channel topic => default ""%string (Text.split "." topic !! 1%nat) | Queue _ => "" end;
  (* [send] names the topic itself *)
  request_address x a := Channel (getTopicName (kafka_base x) PACKET_REQUEST None);
  listens_request _ _ := []
|}.
#[export] Existing Instance kafka_driver.

(** [transporters/amqp10.js]: packets for all nodes go to topics, others to queues. *)
Record amqp10 := Amqp10 { amqp10_base : t; topicPrefix : string }.
Definition amqp10_address (x : amqp10) (cmd : string) (n : option string) : address :=
  let topic := getTopicName (amqp10_base x) cmd n in
  match n with
  | Some n => if String.eqb n "" then Channel (topicPrefix x +:+ topic) else Queue topic
  | None => Channel (topicPrefix x +:+ topic)
  end.
Definition amqp10_driver : Driver amqp10 := {|
  base := amqp10_base;
  address_of := amqp10_address;
  listens x cmd n := [(amqp10_address x cmd n, cmd)];
  command _ _ cmd := cmd;
  request_address x a := Queue (request_topic (amqp10_base x) a);
  listens_request x a := [(Queue (request_topic (amqp10_base x) a), PACKET_REQUEST)]
|}.
#[export] Existing Instance amqp10_driver.

End Topics.
