(* ===== verification/TopicsTheorems.v ===== *)
(** * Who gets the packets of the transit

    Fake, NATS, Redis, MQTT, Kafka and AMQP 1.0 keep what the transit relies on
    ([DriverLaws]), NATS and AMQP 1.0 what balancing does ([BalancerLaws]); what follows
    from it for all transporters is in [Transporters]. *)

From stdpp Require Import base tactics list strings option sets.
From Stdlib Require Import ZArith Lia Bool Ascii.
From S2P Require Import Prelude JsonText Serializers SerializerTheorems Errors Transporter Topics.

Import BaseTransporter Topics.

(** ** Names *)

(** A separator that does not occur in the types of packets *)
Definition separates (sep : string) : Prop :=
  ∃ c, sep = String c EmptyString ∧ forallb (λ s, negb (Text.contains c s)) (to_node ++ to_all) = true.

Lemma separates_dot : separates ".".
Proof. by exists "."%char. Qed.

Lemma known_free c cmd n :
  forallb (λ s, negb (Text.contains c s)) (to_node ++ to_all) = true → known cmd n → Text.contains c cmd = false.
Proof. intros Hf [Hr _]. rewrite forallb_forall in Hf. by apply negb_true_iff, Hf, list_elem_of_In. Qed.

Lemma routable_known cmd n : routable cmd n → known cmd n.
Proof.
  unfold routable, known. rewrite elem_of_app. destruct n as [n|]; [|auto]. intros [Hc Hn]. split; [auto|congruence].
Qed.

Lemma untargeted_known cmd : cmd = PACKET_EVENT ∨ cmd = PACKET_REQUEST → known cmd None.
Proof. intros [->| ->]; (split; [by apply (bool_decide_unpack _)|done]). Qed.

Lemma untargeted_not_routable cmd : cmd = PACKET_EVENT ∨ cmd = PACKET_REQUEST → ¬ routable cmd None.
Proof. intros [->| ->]; unfold routable, to_all; rewrite !elem_of_cons, elem_of_nil; intros Hin; destruct_or! Hin; done. Qed.

Lemma routable_free c cmd n :
  forallb (λ s, negb (Text.contains c s)) (to_node ++ to_all) = true → routable cmd n → Text.contains c cmd = false.
Proof. intros Hf Hr. by eapply known_free, routable_known. Qed.

Lemma before_app c a r : Text.contains c a = false → before (String c EmptyString) (a +:+ String c r) = a.
Proof.
  induction a as [|d a IH]; simpl.
  - intros _. destruct (ascii_dec c c); [|done]. by destruct r.
  - intros Hc. apply orb_false_iff in Hc as [Hd Hc]. apply Ascii.eqb_neq in Hd.
    destruct (ascii_dec c d); [congruence|]. by rewrite IH.
Qed.

Lemma before_none c a : Text.contains c a = false → before (String c EmptyString) a = a.
Proof.
  induction a as [|d a IH]; simpl; [done|]. intros Hc. apply orb_false_iff in Hc as [Hd Hc]. apply Ascii.eqb_neq in Hd.
  destruct (ascii_dec c d); [congruence|]. by rewrite IH.
Qed.

Lemma append_cons c a b : String c a +:+ b = String c (a +:+ b).
Proof. done. Qed.

(** What follows the type of a packet in a topic *)
Definition tail (c : ascii) (n : option string) : string := match n with Some n => String c n | None => "" end.

Lemma topic_name_tail c p cmd n : n ≠ Some ""%string →
  topic_name (String c EmptyString) p cmd n = p +:+ String c (cmd +:+ tail c n).
Proof.
  intros Hn. unfold topic_name. destruct n as [n|]; [|done]. destruct (String.eqb_spec n ""); [congruence|done].
Qed.

Lemma routable_some cmd n : routable cmd n → n ≠ Some ""%string.
Proof. destruct n; [|done]. intros [_ Hn] [= ->]. done. Qed.

(** Different packets have different topics. *)
Lemma topic_name_inj sep p cmd n cmd' n' :
  separates sep → known cmd n → known cmd' n' → topic_name sep p cmd n = topic_name sep p cmd' n' → cmd = cmd' ∧ n = n'.
Proof.
  intros (c & -> & Hf) Hr Hr'. rewrite !topic_name_tail by apply Hr || apply Hr'. intros E. apply append_inj in E. injection E as E.
  pose proof (known_free c cmd n Hf Hr) as H1. pose proof (known_free c cmd' n' Hf Hr') as H2.
  assert (cmd = cmd') as ->.
  { apply (f_equal (before (String c EmptyString))) in E. revert E.
    destruct n, n'; simpl tail; rewrite ?append_nil, ?before_app, ?before_none; done. }
  split; [done|]. apply append_inj in E. destruct n, n'; simpl in E; congruence.
Qed.

(** The type is read off a topic. *)
Lemma first_part_topic sep p cmd n : separates sep → routable cmd n →
  first_part sep (Text.substring_from (String.length p + String.length sep) (topic_name sep p cmd n)) = cmd.
Proof.
  intros (c & -> & Hf) Hr. rewrite topic_name_tail by by eapply routable_some. pose proof (routable_free c cmd n Hf Hr) as Hc.
  assert (∀ x, Text.substring_from (String.length p + 1) (p +:+ String c x) = x) as ->.
  { intros x. clear. induction p as [|d p IH]; [done|]. exact IH. }
  unfold first_part. simpl String.eqb. cbv iota. destruct n; simpl tail; [by apply before_app|]. rewrite append_nil. by apply before_none.
Qed.

Lemma getTopicName_name x cmd n : getTopicName x cmd n = topic_name "." (prefix x) cmd n.
Proof. done. Qed.

(** The subscriptions are the routable packets. *)
Lemma subscription_routable id cmd n : id ≠ ""%string → (cmd, n) ∈ makeSubscriptions id → routable cmd n.
Proof.
  intros Hid. unfold makeSubscriptions. rewrite !elem_of_cons, elem_of_nil. intros Hin.
  destruct_or! Hin; try done; injection Hin as -> ->; simpl; [split; [|done]|..]; try (split; [|done]); set_solver.
Qed.

Lemma routable_subscription id cmd n : routable cmd n → (n = None ∨ n = Some id) → (cmd, n) ∈ makeSubscriptions id.
Proof.
  unfold makeSubscriptions. intros Hr [->| ->]; simpl in Hr; [|destruct Hr as [Hr _]]; revert Hr; unfold to_all, to_node;
    rewrite !elem_of_cons, elem_of_nil; intros Hin; destruct_or! Hin; try done; subst; set_solver.
Qed.

Lemma NoDup_subscriptions id : NoDup (makeSubscriptions id).
Proof.
  unfold makeSubscriptions. repeat (apply list.NoDup_cons; split; [rewrite ?elem_of_cons, ?elem_of_nil; intros Hin; destruct_or? Hin; congruence|]).
  by constructor.
Qed.

(** Of things that are told apart by [f] one is found. *)
Lemma find_one {A B} (f : A → address) (g : A → B) (l : list A) x :
  NoDup l → x ∈ l → (∀ y, y ∈ l → f y = f x → y = x) → flat_map (λ y, if decide (f y = f x) then [g y] else []) l = [g x].
Proof.
  intros Hl. induction Hl as [|y l Hy Hl IH]; intros Hx Hinj; [by apply elem_of_nil in Hx|].
  assert (∀ k, (∀ z, z ∈ k → f z ≠ f x) → flat_map (λ z, if decide (f z = f x) then [g z] else []) k = []) as Hnone.
  { clear. induction k as [|z k IH]; intros Hk; [done|]. cbn [flat_map]. rewrite decide_False by (apply Hk; by left).
    apply IH. intros z' Hz. apply Hk. by right. }
  apply elem_of_cons in Hx as [->|Hx]; cbn [flat_map].
  - rewrite decide_True by done. rewrite Hnone; [done|]. intros z Hz E. apply Hinj in E; [|by right]. by subst.
  - rewrite decide_False; [apply IH; [done|]; intros z Hz; apply Hinj; by right|].
    intros E. apply Hinj in E; [|by left]. by subst.
Qed.

Lemma find_none {A B} (f : A → address) (g : A → B) (l : list A) a :
  (∀ y, y ∈ l → f y ≠ a) → flat_map (λ y, if decide (f y = a) then [g y] else []) l = [].
Proof.
  induction l as [|y l IH]; intros Hl; [done|]. cbn [flat_map]. rewrite decide_False by (apply Hl; by left).
  apply IH. intros z Hz. apply Hl. by right.
Qed.

(** ** One topic for each kind of packet *)

(** Transporters that listen where they send to *)
Class Direct (T : Type) `{Driver T} (agree : T → T → Prop) : Prop := {
  direct_listens y cmd n : listens y cmd n = [(address_of y cmd n, cmd)];
  direct_agree x y cmd n : agree x y → address_of x cmd n = address_of y cmd n ∧ nodeID (base y) ≠ ""%string;
  direct_inj x y cmd n cmd' n' : agree x y → known cmd n → known cmd' n' → address_of y cmd n = address_of y cmd' n' → cmd = cmd' ∧ n = n';
  direct_command x y cmd n : agree x y → routable cmd n → command y (address_of y cmd n) cmd = cmd;
  direct_balanced x y cmd n a e : agree x y → known cmd n → e ∈ listens_request y a → e.1 ≠ address_of y cmd n
}.

Section direct.
Context `{Direct T agree}.

(** What a node hears at the address of a packet *)
Lemma direct_hears x y es cmd n : agree x y → known cmd n →
  hears y es (address_of x cmd n) =
  flat_map (λ e, if decide (address_of y e.1 e.2 = address_of y cmd n) then [command y (address_of y e.1 e.2) e.1] else [])
    (makeSubscriptions (nodeID (base y))).
Proof.
  intros Ha Hr. destruct (direct_agree x y cmd n Ha) as [E _]. rewrite E. unfold hears, listening. rewrite flat_map_app.
  assert (flat_map (λ '(b, c), if decide (b = address_of y cmd n) then [command y b c] else [])
    (flat_map (λ e, match e with SubscribeRequest a => listens_request y a | _ => [] end) es) = []) as ->.
  { rewrite (flat_map_ext _ (λ e, if decide (e.1 = address_of y cmd n) then [command y e.1 e.2] else [])) by by intros [].
    apply (find_none fst (λ e, command y e.1 e.2)). intros e He. apply list_elem_of_In, in_flat_map in He as (ef & _ & He).
    apply list_elem_of_In in He. destruct ef; try by apply elem_of_nil in He. by eapply direct_balanced. }
  rewrite app_nil_r. induction (makeSubscriptions _) as [|[c m] l IH]; [done|]. cbn [flat_map]. rewrite direct_listens. simpl.
  rewrite IH. by destruct (decide _).
Qed.

#[export] Instance direct_laws : DriverLaws T agree.
Proof.
  constructor.
  - intros x y es cmd n Ha Hr Hn. rewrite direct_hears by (try done; by apply routable_known). destruct (direct_agree x y cmd n Ha) as [E Hid].
    rewrite (find_one (λ e, address_of y e.1 e.2) (λ e, command y (address_of y e.1 e.2) e.1) _ (cmd, n)).
    + simpl. rewrite (direct_command x y) by done. unfold reached. rewrite E. destruct (address_of y cmd n); [done|].
      split; [done|]. by apply Forall_singleton.
    + apply NoDup_subscriptions.
    + by apply routable_subscription.
    + intros [c m] Hc Ec. simpl in Ec. apply subscription_routable, routable_known in Hc; [|done]. apply routable_known in Hr.
      destruct (direct_inj x y c m cmd n Ha Hc Hr Ec) as [-> ->]. done.
  - intros x y es cmd n Ha Hr Hn. rewrite direct_hears by (try done; by apply routable_known). destruct (direct_agree x y cmd (Some n) Ha) as [E Hid].
    apply (find_none (λ e, address_of y e.1 e.2) (λ e, command y (address_of y e.1 e.2) e.1)). intros [c m] Hc Ec. simpl in Ec.
    pose proof (subscription_routable _ _ _ Hid Hc) as Hc'. destruct (direct_inj x y c m cmd (Some n) Ha (routable_known _ _ Hc') (routable_known _ _ Hr) Ec) as [-> ->].
    unfold makeSubscriptions in Hc. rewrite !elem_of_cons, elem_of_nil in Hc. destruct_or! Hc; congruence.
  - intros x y es cmd Ha Hu. pose proof (untargeted_known cmd Hu) as Hk. rewrite (direct_hears x) by done.
    destruct (direct_agree x y cmd None Ha) as [E Hid].
    apply (find_none (λ e, address_of y e.1 e.2) (λ e, command y (address_of y e.1 e.2) e.1)). intros [c m] Hc Ec. simpl in Ec.
    pose proof (subscription_routable _ _ _ Hid Hc) as Hr. destruct (direct_inj x y c m cmd None Ha (routable_known _ _ Hr) Hk Ec) as [-> ->].
    by apply (untargeted_not_routable cmd).
Qed.

End direct.

(** ** The transporters *)

Lemma dotless_of cmd : Text.contains "." cmd = false → dotless cmd.
Proof.
  unfold dotless. induction cmd as [|c s IH]; [done|]. cbn [Text.contains cut]. intros Hc. apply orb_false_iff in Hc as [Hd Hc].
  rewrite Ascii.eqb_sym, Hd. specialize (IH Hc). by destruct (cut "." s).
Qed.

Lemma known_dotless cmd n : known cmd n → dotless cmd ∧ cmd ≠ "EVENTB"%string ∧ cmd ≠ "REQB"%string.
Proof.
  intros Hr. split; [apply dotless_of; destruct separates_dot as (c & [= <-] & Hf); by eapply known_free|].
  destruct Hr as [Hr _]. unfold to_all, to_node in Hr. simpl in Hr. rewrite !elem_of_cons, elem_of_nil in Hr.
  split; intros ->; destruct_or! Hr; discriminate.
Qed.

Lemma known_not_balanced x cmd n m a : known cmd n → getTopicName x cmd m ≠ request_topic x a.
Proof. intros Hr. destruct (known_dotless _ _ Hr) as (H1 & H2 & H3). by apply (topics_distinct x). Qed.

Lemma routable_not_balanced x cmd n m a : routable cmd n → getTopicName x cmd m ≠ request_topic x a.
Proof. intros Hr. by eapply known_not_balanced, routable_known. Qed.

Lemma getTopicName_inj x cmd n cmd' n' : known cmd n → known cmd' n' → getTopicName x cmd n = getTopicName x cmd' n' → cmd = cmd' ∧ n = n'.
Proof. rewrite !getTopicName_name. intros. by eapply topic_name_inj; [apply separates_dot|..]. Qed.

(** Two nodes of one cluster: the same prefix, and an ID *)
Definition cluster (x y : t) : Prop := prefix x = prefix y ∧ nodeID y ≠ ""%string.

Lemma cluster_topic x y cmd n : cluster x y → getTopicName x cmd n = getTopicName y cmd n.
Proof. intros [E _]. rewrite !getTopicName_name. by rewrite E. Qed.

#[export] Instance fake_direct : Direct fake (λ x y, cluster (fake_base x) (fake_base y)).
Proof.
  constructor; simpl; try done.
  - intros x y cmd n Hc. split; [f_equal; by apply cluster_topic|apply Hc].
  - intros x y cmd n cmd' n' _ Hr Hr' [= E]. by eapply getTopicName_inj.
  - intros x y cmd n a e _ _ He. by apply elem_of_nil in He.
Qed.

#[export] Instance nats_direct : Direct nats (λ x y, cluster (nats_base x) (nats_base y)).
Proof.
  constructor; simpl; try done.
  - intros x y cmd n Hc. split; [f_equal; by apply cluster_topic|apply Hc].
  - intros x y cmd n cmd' n' _ Hr Hr' [= E]. by eapply getTopicName_inj.
  - intros x y cmd n a e _ _ He. by apply list_elem_of_singleton in He as ->.
Qed.

#[export] Instance redis_direct : Direct redis (λ x y, cluster (redis_base x) (redis_base y)).
Proof.
  constructor; simpl; try done.
  - intros x y cmd n Hc. split; [f_equal; by apply cluster_topic|apply Hc].
  - intros x y cmd n cmd' n' _ Hr Hr' [= E]. by eapply getTopicName_inj.
  - intros x y cmd n Hc Hr. rewrite getTopicName_name. apply (first_part_topic "."); [apply separates_dot|done].
  - intros x y cmd n a e _ _ He. by apply elem_of_nil in He.
Qed.

#[export] Instance mqtt_direct :
  Direct mqtt (λ x y, cluster (mqtt_base x) (mqtt_base y) ∧ topicSeparator x = topicSeparator y ∧ separates (topicSeparator y)).
Proof.
  constructor; simpl; try done.
  - intros x y cmd n ([E H1] & H2 & _). split; [|done]. unfold mqtt_topic. by rewrite E, H2.
  - intros x y cmd n cmd' n' (_ & _ & Hs) Hr Hr' [= E]. by eapply topic_name_inj.
  - intros x y cmd n (_ & _ & Hs) Hr. by apply first_part_topic.
  - intros x y cmd n a e _ _ He. by apply elem_of_nil in He.
Qed.

(** Kafka reads the type off the second part of the topic. *)
Lemma kafka_command p cmd n : Text.contains "." p = false → routable cmd n →
  Text.split "." (topic_name "." p cmd n) !! 1%nat = Some cmd.
Proof.
  intros Hp Hr. rewrite topic_name_tail by by eapply routable_some. rewrite Text.split_key_at by done.
  destruct separates_dot as (c & [= <-] & Hf). pose proof (routable_free _ _ _ Hf Hr) as Hc.
  destruct n; simpl tail; [by rewrite Text.split_key_at|]. by rewrite append_nil, Text.split_one.
Qed.

#[export] Instance kafka_direct : Direct kafka (λ x y, cluster (kafka_base x) (kafka_base y) ∧ Text.contains "." (prefix (kafka_base y)) = false).
Proof.
  constructor; simpl; try done.
  - intros x y cmd n [Hc _]. split; [f_equal; by apply cluster_topic|apply Hc].
  - intros x y cmd n cmd' n' _ Hr Hr' [= E]. by eapply getTopicName_inj.
  - intros x y cmd n [_ Hp] Hr. rewrite getTopicName_name, kafka_command by done. done.
  - intros x y cmd n a e _ _ He. by apply elem_of_nil in He.
Qed.

#[export] Instance amqp10_direct : Direct amqp10 (λ x y, cluster (amqp10_base x) (amqp10_base y) ∧ topicPrefix x = topicPrefix y).
Proof.
  constructor; simpl; try done.
  - intros x y cmd n [Hc Hp]. split; [|apply Hc]. unfold amqp10_address. by rewrite (cluster_topic _ _ cmd n Hc), Hp.
  - intros x y cmd n cmd' n' _ Hr Hr'. pose proof (proj2 Hr). pose proof (proj2 Hr'). unfold amqp10_address.
    destruct n as [n|], n' as [n'|]; try (destruct (String.eqb_spec n ""); [congruence|]); try (destruct (String.eqb_spec n' ""); [congruence|]);
      intros [= E]; first [by eapply getTopicName_inj | apply append_inj in E; by eapply getTopicName_inj].
  - intros x y cmd n a e _ Hr He. apply list_elem_of_singleton in He as ->. simpl. unfold amqp10_address.
    destruct n as [n|]; [destruct (String.eqb n "")|]; try done. intros [= E]. apply (known_not_balanced (amqp10_base y) cmd (Some n) (Some n) a Hr). congruence.
Qed.

(** ** Balanced requests *)

(** What a node hears at a queue of requests *)
Lemma queue_heard {T} `{Direct T agree} x y es a (q : T → string → address) :
  agree x y → (∀ cmd n, routable cmd n → address_of y cmd n ≠ q x a) →
  (∀ b, listens_request y b = [(q y b, PACKET_REQUEST)]) → (∀ b, q y b = q x a ↔ b = a) → (∀ b cmd, command y b cmd = cmd) →
  (∃ n, q x a = Queue n) →
  (SubscribeRequest a ∈ es → reached (q x a) PACKET_REQUEST (hears y es (q x a))) ∧ (SubscribeRequest a ∉ es → hears y es (q x a) = []).
Proof.
  intros Ha Hne Hl Hinj Hc [n Hq].
  assert (hears y es (q x a) = flat_map (λ e, match e with SubscribeRequest b => if decide (b = a) then [PACKET_REQUEST] else [] | _ => [] end) es) as ->.
  { unfold hears, listening. rewrite flat_map_app.
    assert (flat_map (λ '(b, c), if decide (b = q x a) then [command y b c] else [])
      (flat_map (λ '(cmd, n), listens y cmd n) (makeSubscriptions (nodeID (base y)))) = []) as ->.
    { rewrite (flat_map_ext _ (λ e, if decide (e.1 = q x a) then [command y e.1 e.2] else [])) by by intros [].
      apply (find_none fst (λ e, command y e.1 e.2)). intros e He. apply list_elem_of_In, in_flat_map in He as ([cmd m] & Hin & He).
      apply list_elem_of_In in He, Hin. rewrite direct_listens in He. apply list_elem_of_singleton in He as ->. simpl. apply Hne.
      eapply subscription_routable; [|exact Hin]. by apply (direct_agree x y "" None). }
    induction es as [|e es IH]; [done|]. cbn [flat_map]. rewrite flat_map_app. simpl app in IH. simpl app. rewrite IH. f_equal. destruct e; try done.
    rewrite Hl. simpl. rewrite app_nil_r, Hc. destruct (decide (q y action = q x a)) as [E|E]; rewrite Hinj in E; by destruct (decide (action = a)). }
  rewrite Hq. unfold reached. split.
  - intros Hin. split.
    + intros E. assert (PACKET_REQUEST ∈ flat_map (λ e, match e with SubscribeRequest b => if decide (b = a) then [PACKET_REQUEST] else [] | _ => [] end) es) as Hr.
      { apply list_elem_of_In, in_flat_map. exists (SubscribeRequest a). split; [by apply list_elem_of_In|]. destruct (decide (a = a)); [by left|done]. }
      rewrite E in Hr. by apply elem_of_nil in Hr.
    + clear Hin. induction es as [|e es IH]; [constructor|]. cbn [flat_map]. apply Forall_app. split; [|done].
      destruct e; try constructor. destruct (decide _); by repeat constructor.
  - intros Hin. induction es as [|e es IH]; [done|]. cbn [flat_map]. rewrite IH; [|set_solver]. rewrite app_nil_r.
    destruct e; try done. rewrite decide_False; [done|]. intros ->. apply Hin. by left.
Qed.

Lemma request_topic_inj x y a b : prefix x = prefix y → request_topic y b = request_topic x a ↔ b = a.
Proof.
  intros E. split; [|by intros ->; unfold request_topic; rewrite E]. unfold request_topic. rewrite E. intros Hb. by do 4 apply append_inj in Hb.
Qed.

#[export] Instance nats_balancer : BalancerLaws nats (λ x y, cluster (nats_base x) (nats_base y)).
Proof.
  constructor; [by eexists|]. intros x y es a Hc. apply (queue_heard x y es a request_address); try done; simpl.
  - intros b. split; [intros [= E]; by eapply request_topic_inj, E; apply Hc|]. intros ->. unfold request_topic. by rewrite (proj1 Hc).
  - by eexists.
Qed.

#[export] Instance amqp10_balancer : BalancerLaws amqp10 (λ x y, cluster (amqp10_base x) (amqp10_base y) ∧ topicPrefix x = topicPrefix y).
Proof.
  constructor; [by eexists|]. intros x y es a [Hc Hp]. apply (queue_heard x y es a request_address); try done; simpl.
  - intros cmd n Hr. unfold amqp10_address. destruct n as [n|]; [destruct (String.eqb n "")|]; try done. intros [= E].
    apply (routable_not_balanced (amqp10_base y) cmd (Some n) (Some n) a Hr). rewrite E. by eapply request_topic_inj; [symmetry; apply Hc|].
  - intros b. split; [intros [= E]; by eapply request_topic_inj, E; apply Hc|]. intros ->. unfold request_topic. by rewrite (proj1 Hc).
  - by eexists.
Qed.

(** ** Who handles a packet *)

Lemma published_routable p : published p → target p ≠ Some ""%string →
  (target p = None → type p ≠ PACKET_EVENT ∧ type p ≠ PACKET_REQUEST) → routable (type p) (target p).
Proof.
  intros Hp Ht Hb. assert (∀ cmd n, type p = cmd → target p = n → (n = None → cmd ∈ to_all) → (n ≠ None → cmd ∈ to_node) → routable (type p) (target p)) as Hr.
  { intros cmd n -> <- H1 H2. unfold routable. destruct (target p); [|by apply H1]. split; [by apply H2|congruence]. }
  destruct Hp as [| | |c r i info n p Hi|n i u t|n t i now|cpu|c|n m|n m].
  - by eapply Hr; [reflexivity..|intros _; by apply (bool_decide_unpack _)|].
  - by eapply Hr; [reflexivity..|intros _; by apply (bool_decide_unpack _)|].
  - by eapply Hr; [reflexivity..| |intros _; by apply (bool_decide_unpack _)].
  - unfold sendNodeInfo in Hi. destruct (_ || _); [done|]. injection Hi as <-. eapply Hr; [reflexivity..| |]; intros _; by apply (bool_decide_unpack _).
  - eapply Hr; [reflexivity..| |]; intros _; by apply (bool_decide_unpack _).
  - by eapply Hr; [reflexivity..| |intros _; by apply (bool_decide_unpack _)].
  - by eapply Hr; [reflexivity..|intros _; by apply (bool_decide_unpack _)|].
  - eapply Hr; [reflexivity..| |intros _; by apply (bool_decide_unpack _)]. intros Hn. by destruct (Hb Hn).
  - eapply Hr; [reflexivity..| |intros _; by apply (bool_decide_unpack _)]. intros Hn. by destruct (Hb Hn).
  - by eapply Hr; [reflexivity..| |intros _; by apply (bool_decide_unpack _)].
Qed.

(** The messages of an address where a packet is heard *)
Lemma reached_gets {T} `{Driver T} {S : Serializer} (y : T) es a cmd d m :
  reached a cmd (hears y es a) → (∀ c, incomingMessage c (Some d) = [Handle c m]) →
  match a with
  | Channel _ => gets y es a d = [Handle cmd m]
  | Queue _ => gets y es a d ≠ [] ∧ Forall (eq (Handle cmd m)) (gets y es a d)
  end.
Proof.
  intros Hr Hd. unfold gets, reached in *. destruct a; [rewrite Hr; cbn [flat_map]; by rewrite Hd|].
  destruct Hr as [Hne Hall]. split.
  - destruct (hears _ _ _) as [|c l]; [done|]. cbn [flat_map]. by rewrite Hd.
  - clear Hne. induction Hall as [|c l -> _ IH]; [constructor|]. cbn [flat_map]. rewrite Hd. by constructor.
Qed.

(** ** What reaches nobody *)

(** With a dot in the namespace the Kafka transporter takes a part of the namespace for the type
    of every packet. *)
Lemma kafka_dotted_namespace :
  let x := Kafka (init "n1" (Some "eu.prod"%string) false) in
  hears x [] (address_of x "PING" None) = ["prod"%string] ∧ hears x [] (address_of x "REQ" (Some "n1"%string)) = ["prod"%string].
Proof. by vm_compute. Qed.

(** The Fake transporter calls itself balancing, but subscribes to no balanced requests. *)
Lemma fake_requests_unheard :
  let x := Fake (init "n1" None true) in
  let es := makeBalancedSubscriptions (base x) [Service "math" ["math.add"] []] in
  es = [Unsubscribe; SubscribeRequest "math.add"] ∧ hears x es (request_address x "math.add") = [].
Proof. by vm_compute. Qed.

(** An event without a target and without groups is published to a topic of its own, which
    no node subscribes to. *)
Lemma event_without_groups_unheard :
  let x := Nats (init "n1" None true) in
  hears x [] (address_of x "EVENT" None) = [] ∧ getTopicName (nats_base x) "EVENT" None = "MOL.EVENT"%string.
Proof. by vm_compute. Qed.
