(* ===== verification/Amqp.v ===== *)
(** * The AMQP transporter

    [src/transporters/amqp.js]: its options, the queues and exchanges it asks the client
    library for, acknowledging, and the connection with what it tells the transit about
    losing it.  The AMQP server is outside: the calls of the library are a list of
    effects, its events are inputs. *)

From stdpp Require Import base tactics list strings option.
From Stdlib Require Import ZArith Lia Bool Ascii.
From S2P Require Import Prelude JsonText Serializers SerializerTheorems Errors Transporter Topics.

Import BaseTransporter Topics.

Local Open Scope Z_scope.

Module Amqp.

(** ** Options *)

Record options := Options {
  url : list string;
  prefetch : Z;
  eventTimeToLive : option Z;
  heartbeatTimeToLive : option Z;
  autoDeleteQueues : Z;
  queueOptions : OMap.t json
}.

Definition number_or {A} (f : Z → A) (d : A) (v : json) : A := match v with JNum n => f n | _ => d end.

Definition autoDeleteQueuesAfterDefault : Z := 2 * 60 * 1000.

(** The constructor, on what users give *)
Definition normalize (opts : json) : options :=
  let o := match opts with JStr u => [("url"%string, JStr u)] | JObj m => m | _ => [] end in
  Options
    (match prop "url" o with
     | JArr l => map js_string l
     | JStr u => if String.eqb u "" then [""%string] else Arr.filter (λ s, negb (String.eqb s "")) (Text.split ";" u)
     | _ => [""%string]
     end)
    (number_or id 1 (prop "prefetch" o))
    (number_or Some None (prop "eventTimeToLive" o))
    (number_or Some None (prop "heartbeatTimeToLive" o))
    (match prop "autoDeleteQueues" o with
     | JBool true => autoDeleteQueuesAfterDefault
     | JNum n => n
     | JBool false => -1
     | _ => autoDeleteQueuesAfterDefault
     end)
    (match prop "queueOptions" o with JObj m => m | _ => [] end).

(** [Object.assign(a, b)] *)
Definition assign (a b : OMap.t json) : OMap.t json := foldl (λ m '(k, v), OMap.set k v m) a b.

Definition ttl (o : option Z) : OMap.t json :=
  match o with Some n => if n =? 0 then [] else [("messageTtl"%string, JNum n)] | None => [] end.

(** [_getQueueOptions(packetType, balancedQueue)]; [None]: [Object.assign(undefined, ...)] throws. *)
Definition getQueueOptions (o : options) (packetType : string) (balancedQueue : bool) : option (OMap.t json) :=
  let expires := if 0 <=? autoDeleteQueues o then [("expires"%string, JNum (autoDeleteQueues o))] else [] in
  let kind := String.eqb packetType in
  let packetOptions :=
    if kind "REQ"%string then Some (if balancedQueue then [] else expires)
    else if kind "RES"%string then Some expires
    else if kind "EVENTLB"%string || kind "EVENT"%string then Some (expires ++ ttl (eventTimeToLive o))
    else if kind "HEARTBEAT"%string then Some (("autoDelete"%string, JBool true) :: ttl (heartbeatTimeToLive o))
    else if existsb kind ["DISCOVER"; "DISCONNECT"; "???"; "INFO"; "PING"; "PONG"]%string then Some [("autoDelete"%string, JBool true)]
    else None in
  m ← packetOptions; Some (assign m (queueOptions o)).

(** ** What the library is asked for *)

Inductive call :=
| AssertExchange (name : string)                    (* a fanout exchange *)
| AssertQueue (name : string) (opts : option (OMap.t json))
| BindQueue (queue exchange : string)
| UnbindQueue (queue exchange : string)
| Consume (queue cmd : string) (needAck : bool)
| SendToQueue (queue data : string)
| PublishTo (exchange data : string)
| Ack | Nack
| CloseChannel | CloseConnection.

Record amqp := State {
  amqp_base : t;
  opts : options;
  channel : bool;
  connection : bool;
  bindings : list (string * string);
  channelDisconnecting : bool;
  connectionDisconnecting : bool;
  connectionCount : Z;
  connectAttempt : Z
}.

Definition create (b : t) (o : json) : amqp := State b (normalize o) false false [] false false 0 0.

Definition set_connected (c : bool) (x : t) : t := Transporter (nodeID x) (prefix x) c (hasBuiltInBalancer x).

(** [subscribe(cmd, nodeID)] *)
Definition subscribe (cmd : string) (n : option string) (x : amqp) : amqp * list call :=
  if negb (channel x) then (x, [])
  else
    let topic := getTopicName (amqp_base x) cmd n in
    match n with
    | Some _ => (x, [AssertQueue topic (getQueueOptions (opts x) cmd false); Consume topic cmd (String.eqb cmd "REQ")])
    | None =>
        let queueName := (prefix (amqp_base x) +:+ "." +:+ cmd +:+ "." +:+ nodeID (amqp_base x))%string in
        (State (amqp_base x) (opts x) (channel x) (connection x) (bindings x ++ [(queueName, topic)]) (channelDisconnecting x)
           (connectionDisconnecting x) (connectionCount x) (connectAttempt x),
         [AssertExchange topic; AssertQueue queueName (getQueueOptions (opts x) cmd false); BindQueue queueName topic;
          Consume queueName cmd false])
    end.

(** [subscribeBalancedRequest(action)] *)
Definition subscribeBalancedRequest (action : string) (x : amqp) : list call :=
  if negb (channel x) then []
  else let queue := request_topic (amqp_base x) action in
       [AssertQueue queue (getQueueOptions (opts x) PACKET_REQUEST true); Consume queue PACKET_REQUEST true].

(** [subscribeBalancedEvent(event, group)] *)
Definition subscribeBalancedEvent (event group : string) (x : amqp) : list call :=
  if negb (channel x) then []
  else let queue := event_topic (amqp_base x) group event in
       [AssertQueue queue (getQueueOptions (opts x) (PACKET_EVENT +:+ "LB") true); Consume queue PACKET_EVENT true].

(** [send(topic, data, { balanced, packet })] *)
Definition send (topic data : string) (target : option string) (balanced : bool) (x : amqp) : list call :=
  if negb (channel x) then []
  else if match target with Some _ => true | None => false end || balanced then [SendToQueue topic data] else [PublishTo topic data].

(** What [receive] answers to the consumer: no promise, or a promise that ends *)
Inductive handling := Plain | Ended (ok : bool).

(** The consumer of [_consumeCB(cmd, needAck)], when the handling of a message is over *)
Definition consumed (needAck : bool) (r : handling) (x : amqp) : list call :=
  if needAck && channel x then match r with Ended false => [Nack] | _ => [Ack] end else [].

(** What is listened at: the queues with a consumer, and the exchanges bound to them *)
Definition heard (calls : list call) : list (address * string) :=
  flat_map (λ c, match c with
                 | Consume q cmd _ =>
                     (Queue q, cmd) ::
                     flat_map (λ b, match b with BindQueue q' ex => if String.eqb q q' then [(Channel ex, cmd)] else [] | _ => [] end) calls
                 | _ => []
                 end) calls.

Definition amqp_driver : Driver amqp := {|
  base := amqp_base;
  address_of x cmd n :=
    let topic := getTopicName (amqp_base x) cmd n in match n with Some _ => Queue topic | None => Channel topic end;
  listens x cmd n := heard (subscribe cmd n x).2;
  command _ _ cmd := cmd;
  request_address x a := Queue (request_topic (amqp_base x) a);
  listens_request x a := heard (subscribeBalancedRequest a x)
|}.
#[export] Existing Instance amqp_driver.

(** ** The connection *)

(** What the transit and the log see *)
Inductive notice :=
| MakeSubscriptions                   (* [transit.makeSubscriptions()] *)
| OnConnected (wasReconnect : bool)
| Resolve | Reject                    (* the promise of [connect()] *)
| ErrorCallback
| Gracefully.

(** How far an attempt to connect is *)
Inductive phase := Opening | CreatingChannel | Subscribing | Connecting | Done.
Record attempt := Attempt { uri : option string; at_phase : phase; isResolved : bool }.

(** [connect(errorCallback)] picks the URL. *)
Definition connect (x : amqp) : amqp * attempt :=
  let n := connectAttempt x + 1 in
  let urls := url (opts x) in
  (State (amqp_base x) (opts x) (channel x) (connection x) (bindings x) (channelDisconnecting x) (connectionDisconnecting x)
     (connectionCount x) n,
   Attempt (urls !! Z.to_nat ((n - 1) mod Z.of_nat (length urls))) Opening false).

(** [reject(err)]: rejecting a settled promise does nothing. *)
Definition reject (a : attempt) : list notice := Reject :: (if isResolved a then [ErrorCallback] else []).

Definition at_ (p : phase) (a : attempt) : attempt := Attempt (uri a) p (isResolved a).
Definition with_channel (ch : bool) (x : amqp) : amqp :=
  State (amqp_base x) (opts x) ch (connection x) (bindings x) (channelDisconnecting x) (connectionDisconnecting x) (connectionCount x)
    (connectAttempt x).
Definition with_connection (co : bool) (x : amqp) : amqp :=
  State (amqp_base x) (opts x) (channel x) co (bindings x) (channelDisconnecting x) (connectionDisconnecting x) (connectionCount x)
    (connectAttempt x).
Definition with_connected (c : bool) (x : amqp) : amqp :=
  State (set_connected c (amqp_base x)) (opts x) (channel x) (connection x) (bindings x) (channelDisconnecting x)
    (connectionDisconnecting x) (connectionCount x) (connectAttempt x).
Definition counted (x : amqp) : amqp :=
  State (amqp_base x) (opts x) (channel x) (connection x) (bindings x) (channelDisconnecting x) (connectionDisconnecting x)
    (connectionCount x + 1) (connectAttempt x).

(** [onConnected(wasReconnect)] sets [connected] and calls the transit. *)
Definition go_online (isReconnect : bool) (a : attempt) (x : amqp) : amqp * attempt * list notice :=
  (with_connected true x, at_ Connecting a, [OnConnected isReconnect]).

(** What the attempt waits for is settled. *)
Definition proceed (ok : bool) (a : attempt) (x : amqp) : amqp * attempt * list notice :=
  let failed := (with_connected false x, at_ Done a, reject a) in
  match at_phase a, ok with
  | Opening, true => (with_connection true x, at_ CreatingChannel a, [])
  | CreatingChannel, true =>
      let x := counted (with_channel true x) in
      if 1 <? connectionCount x then (x, at_ Subscribing a, [MakeSubscriptions]) else go_online false a x
  | Subscribing, true => go_online (1 <? connectionCount x) a x
  | Connecting, true => (x, Attempt (uri a) Done true, [Resolve])
  | Done, _ => (x, a, [])
  | _, false => failed
  end.

(** The events [close] of the connection and of the channel *)
Definition connection_closed (a : attempt) (x : amqp) : amqp * list notice :=
  (with_connected false x, if connectionDisconnecting x then [Gracefully] else reject a).
Definition channel_closed (x : amqp) : amqp := with_channel false x.

(** [disconnect()], while the transit is [disconnecting] or not, with a client that obeys *)
Definition disconnect (disconnecting : bool) (x : amqp) : amqp * list call :=
  if connection x && channel x then
    (State (amqp_base x) (opts x) false false [] disconnecting disconnecting 0 (connectAttempt x),
     map (λ '(q, e), UnbindQueue q e) (bindings x) ++ [CloseChannel; CloseConnection])
  else
    (State (amqp_base x) (opts x) (channel x) (connection x) (bindings x) (channelDisconnecting x) (connectionDisconnecting x) 0
       (connectAttempt x), []).

(** ** Runs of one attempt *)

Inductive event := Proceed (ok : bool) | ConnectionClosed | ChannelClosed.

Definition apply (e : event) (s : amqp * attempt * list notice) : amqp * attempt * list notice :=
  let '(x, a, log) := s in
  match e with
  | Proceed ok => let '(x, a, l) := proceed ok a x in (x, a, log ++ l)
  | ConnectionClosed => let '(x, l) := connection_closed a x in (x, a, log ++ l)
  | ChannelClosed => (channel_closed x, a, log)
  end.

Definition run (es : list event) (x : amqp) : amqp * attempt * list notice :=
  foldl (λ s e, apply e s) (connect x, []) es.

End Amqp.
