(* ===== verification/AmqpTheorems.v ===== *)
(** * What the AMQP transporter promises

    Its queues and exchanges keep what the transit relies on ([amqp_laws], [amqp_balancer]),
    the transit hears of every lost connection ([amqp_loss_reported]), and failed
    attempts go through all servers ([urls_tried]).  A lost channel, wildcards of balanced
    events and a second start are not handled ([channel_lost_silently],
    [wildcard_events_unheard], [restarted_deaf]). *)

From stdpp Require Import base tactics list strings option sets.
From Stdlib Require Import ZArith Lia Bool Ascii.
From S2P Require Import Prelude JsonText Serializers SerializerTheorems Errors Transporter Topics TopicsTheorems Amqp.

Import BaseTransporter Topics Amqp.

Local Open Scope Z_scope.

(** ** Queues and exchanges *)

(** Two nodes of one cluster, the second with an open channel *)
Definition open_cluster (x y : amqp) : Prop := cluster (amqp_base x) (amqp_base y) ∧ channel y = true.

Definition own_queue (y : amqp) (cmd : string) : address := Queue (getTopicName (amqp_base y) cmd (Some (nodeID (amqp_base y)))).

(** What a subscription listens at: a queue of the node, and for packets to all nodes the exchange bound to it *)
Lemma amqp_listens x y cmd n : open_cluster x y → (n = None ∨ n = Some (nodeID (amqp_base y))) →
  listens y cmd n = (own_queue y cmd, cmd) :: match n with None => [(Channel (getTopicName (amqp_base y) cmd None), cmd)] | Some _ => [] end.
Proof.
  intros [[_ Hid] Hch] Hn. apply String.eqb_neq in Hid. simpl. unfold subscribe, own_queue, getTopicName. rewrite Hch.
  destruct Hn as [->| ->]; simpl; rewrite Hid; [|done]. unfold heard. cbn [flat_map]. by rewrite String.eqb_refl.
Qed.

Lemma subscription_target id cmd n : (cmd, n) ∈ makeSubscriptions id → n = None ∨ n = Some id.
Proof.
  unfold makeSubscriptions. rewrite !elem_of_cons, elem_of_nil. intros Hin. destruct_or! Hin; try done; injection Hin as -> ->; auto.
Qed.

(** The queues and exchanges of one node *)
Lemma amqp_listening x y es e : open_cluster x y → e ∈ listening y es →
  (∃ cmd n, (cmd, n) ∈ makeSubscriptions (nodeID (amqp_base y)) ∧
     (e = (own_queue y cmd, cmd) ∨ n = None ∧ e = (Channel (getTopicName (amqp_base y) cmd None), cmd))) ∨
  (∃ a, SubscribeRequest a ∈ es ∧ e = (Queue (request_topic (amqp_base y) a), PACKET_REQUEST)).
Proof.
  intros Ho. unfold listening. rewrite elem_of_app, !list_elem_of_In, !in_flat_map. intros [([cmd n] & Hin & He)|(f & Hin & He)].
  - left. exists cmd, n. apply list_elem_of_In in Hin, He. split; [done|].
    rewrite (amqp_listens x y) in He by (try done; by eapply subscription_target). apply elem_of_cons in He as [He|He]; [by left|].
    destruct n; [by apply elem_of_nil in He|]. apply list_elem_of_singleton in He. by right.
  - right. destruct f; try done. exists action. apply list_elem_of_In in Hin, He. split; [done|]. simpl in He.
    unfold subscribeBalancedRequest in He. rewrite (proj2 Ho) in He. simpl in He. by apply list_elem_of_singleton in He.
Qed.

Lemma own_queue_inj x y cmd n m : open_cluster x y → routable cmd m → (n = None ∨ n = Some (nodeID (amqp_base y))) → m ≠ None →
  ∀ cmd', routable cmd' n → own_queue y cmd' = Queue (getTopicName (amqp_base y) cmd m) → cmd' = cmd ∧ m = Some (nodeID (amqp_base y)).
Proof.
  intros [[_ Hid] _] Hr Hn Hm cmd' Hr' [= E]. rewrite !getTopicName_name in E. destruct separates_dot as (c & [= <-] & Hf).
  rewrite !topic_name_tail in E by (try congruence; by eapply routable_some). apply append_inj in E. injection E as E.
  pose proof (routable_free _ _ _ Hf Hr) as H1. pose proof (routable_free _ _ _ Hf Hr') as H2.
  destruct m as [m|]; [|done]. simpl in E. assert (cmd' = cmd) as ->.
  { apply (f_equal (before ".")) in E. rewrite !before_app in E by done. done. }
  split; [done|]. apply append_inj in E. congruence.
Qed.

(** What is heard at an address *)
Lemma elem_hears y es a c : c ∈ hears y es a ↔ (a, c) ∈ listening (T := amqp) y es.
Proof.
  unfold hears. rewrite list_elem_of_In, in_flat_map. split.
  - intros ([b d] & Hin & Hc). apply list_elem_of_In in Hin. destruct (decide (b = a)) as [->|]; [|done].
    simpl in Hc. destruct Hc as [<-|[]]. done.
  - intros Hin. exists (a, c). split; [by apply list_elem_of_In|]. rewrite decide_True by done. by left.
Qed.

(** What a subscription is found at when a packet comes from an exchange *)
Definition found_at (y : amqp) (e : string * option string) : address :=
  match e.2 with None => Channel (getTopicName (amqp_base y) e.1 None) | Some _ => own_queue y e.1 end.

Lemma exchange_heard x y es cmd : open_cluster x y →
  hears y es (Channel (getTopicName (amqp_base y) cmd None)) =
  flat_map (λ e, if decide (found_at y e = found_at y (cmd, None)) then [e.1] else []) (makeSubscriptions (nodeID (amqp_base y))).
Proof.
  intros Ho. unfold hears, listening. rewrite flat_map_app. set (a := Channel _).
  assert (flat_map (λ '(b, c), if decide (b = a) then [command y b c] else [])
    (flat_map (λ e, match e with SubscribeRequest b => listens_request y b | _ => [] end) es) = []) as ->.
  { rewrite (flat_map_ext _ (λ e, if decide (e.1 = a) then [command y e.1 e.2] else [])) by by intros [].
    apply (find_none fst (λ e, command y e.1 e.2)). intros e He. apply list_elem_of_In, in_flat_map in He as (f & _ & He).
    destruct f; try done. simpl in He. unfold subscribeBalancedRequest in He. rewrite (proj2 Ho) in He. simpl in He. by destruct He as [<-|[]]. }
  rewrite app_nil_r. symmetry. revert a. cut (∀ l, (∀ c n, (c, n) ∈ l → n = None ∨ n = Some (nodeID (amqp_base y))) →
    flat_map (λ e, if decide (found_at y e = found_at y (cmd, None)) then [e.1] else []) l =
    flat_map (λ '(b, c), if decide (b = Channel (getTopicName (amqp_base y) cmd None)) then [command y b c] else []) (flat_map (λ '(c, n), listens y c n) l)).
  { intros Hl. apply Hl. intros c n. apply subscription_target. }
  induction l as [|[c n] l IH]; intros Hl; [done|]. cbn [flat_map]. rewrite flat_map_app, <- IH by (intros; apply (Hl c0); by right).
  f_equal. rewrite (amqp_listens x y) by (try done; apply (Hl c); by left). unfold found_at. simpl. destruct n; simpl; [done|]. by destruct (decide _).
Qed.

(** An exchange is bound to one queue of a node. *)
Lemma amqp_exchange x y es cmd : open_cluster x y → routable cmd None →
  hears y es (Channel (getTopicName (amqp_base y) cmd None)) = [cmd].
Proof.
  intros Ho Hr. rewrite (exchange_heard x) by done.
  rewrite (find_one (found_at y) fst _ (cmd, None)); [done|apply NoDup_subscriptions|apply routable_subscription; auto|].
  intros [c [m|]] Hin; [done|]. intros [= E]. apply subscription_routable, routable_known in Hin; [|apply Ho].
  destruct (getTopicName_inj _ _ _ _ _ Hin (routable_known _ _ Hr) E) as [-> _]. done.
Qed.

(** The own queue of a subscription as the topic of a packet to the node *)
Lemma subscription_own x y cmd n : open_cluster x y → (cmd, n) ∈ makeSubscriptions (nodeID (amqp_base y)) →
  ∀ cmd' m, routable cmd' (Some m) → own_queue y cmd = Queue (getTopicName (amqp_base y) cmd' (Some m)) →
  cmd = cmd' ∧ m = nodeID (amqp_base y).
Proof.
  intros Ho Hin cmd' m Hr E. pose proof (proj2 (proj1 Ho)) as Hid.
  destruct (own_queue_inj x y cmd' n (Some m) Ho Hr (subscription_target _ _ _ Hin) ltac:(done) cmd (subscription_routable _ _ _ Hid Hin) E)
    as [-> [= ->]]. done.
Qed.

(** Who hears what on a queue *)
Lemma amqp_queue x y es q c : open_cluster x y → c ∈ hears y es (Queue q) →
  (∃ n, (c, n) ∈ makeSubscriptions (nodeID (amqp_base y)) ∧ own_queue y c = Queue q) ∨
  (∃ a, SubscribeRequest a ∈ es ∧ q = request_topic (amqp_base y) a ∧ c = PACKET_REQUEST).
Proof.
  intros Ho Hc. apply elem_hears, (amqp_listening x y) in Hc as [(d & n & Hin & [[= E1 ->]|[-> E]])|(a & Ha & [= E ->])]; [| | |done].
  - left. exists n. split; [done|]. unfold own_queue. by rewrite E1.
  - done.
  - right. eauto.
Qed.

#[export] Instance amqp_laws : DriverLaws amqp open_cluster.
Proof.
  constructor.
  - intros x y es cmd n Ho Hr Hn. pose proof Ho as [[Hp Hid] Hch]. simpl address_of. rewrite (cluster_topic _ (amqp_base y) cmd n) by done.
    destruct n as [n|]; [|by apply (amqp_exchange x y)]. destruct Hn as [|[= ->]]; [done|]. simpl in Hr |- *. split.
    + assert (cmd ∈ hears y es (own_queue y cmd)) as Hc.
      { apply elem_hears. unfold listening. apply elem_of_app. left. apply list_elem_of_In, in_flat_map.
        exists (cmd, Some (nodeID (amqp_base y))). split; [apply list_elem_of_In, routable_subscription; [done|by right]|].
        apply list_elem_of_In. rewrite (amqp_listens x y) by (try done; by right). by left. }
      intros E. unfold own_queue in Hc. rewrite E in Hc. by apply elem_of_nil in Hc.
    + apply list.Forall_forall. intros c Hc. apply (amqp_queue x) in Hc as [(n & Hin & E)|(a & _ & E & _)]; [| |done].
      * by destruct (subscription_own x y c n Ho Hin cmd (nodeID (amqp_base y)) Hr E).
      * by apply (routable_not_balanced (amqp_base y) cmd (Some (nodeID (amqp_base y)))) in E.
  - intros x y es cmd n Ho Hr Hne. pose proof Ho as [[Hp Hid] Hch]. simpl address_of.
    rewrite (cluster_topic _ (amqp_base y) cmd (Some n)) by done.
    destruct (hears y es _) as [|c l] eqn:E; [done|]. exfalso. assert (c ∈ hears y es (Queue (getTopicName (amqp_base y) cmd (Some n)))) as Hc
      by (rewrite E; by left).
    apply (amqp_queue x) in Hc as [(m & Hin & E1)|(a & _ & E1 & _)]; [| |done].
    + by destruct (subscription_own x y c m Ho Hin cmd n Hr E1).
    + by apply (routable_not_balanced (amqp_base y) cmd (Some n)) in E1.
  - intros x y es cmd Ho Hu. simpl address_of. rewrite (cluster_topic _ (amqp_base y) cmd None), (exchange_heard x) by (done || apply Ho).
    apply (find_none (found_at y) fst). intros [c [m|]] Hin; [done|]. intros [= E]. apply subscription_routable in Hin; [|apply Ho].
    destruct (getTopicName_inj _ _ _ _ _ (routable_known _ _ Hin) (untargeted_known _ Hu) E) as [-> _]. by eapply untargeted_not_routable.
Qed.

#[export] Instance amqp_balancer : BalancerLaws amqp open_cluster.
Proof.
  constructor; [by eexists|]. intros x y es a Ho. pose proof Ho as [[Hp Hid] Hch].
  assert (request_address x a = Queue (request_topic (amqp_base y) a)) as -> by (simpl; unfold request_topic; by rewrite Hp).
  assert (∀ c, c ∈ hears y es (Queue (request_topic (amqp_base y) a)) → c = PACKET_REQUEST ∧ SubscribeRequest a ∈ es) as Hall.
  { intros c Hc. apply (amqp_queue x) in Hc as [(n & Hin & [= E])|(b & Hb & E & ->)]; [| |done].
    - apply subscription_routable in Hin; [|done]. by apply (routable_not_balanced _ _ _ _ _ Hin) in E.
    - symmetry in E. apply request_topic_inj in E as ->; done. }
  split.
  - intros Hin. split.
    + assert (PACKET_REQUEST ∈ hears y es (Queue (request_topic (amqp_base y) a))) as Hc.
      { apply elem_hears. unfold listening. apply elem_of_app. right. apply list_elem_of_In, in_flat_map. exists (SubscribeRequest a).
        split; [by apply list_elem_of_In|]. simpl. unfold subscribeBalancedRequest. rewrite Hch. by left. }
      intros E. rewrite E in Hc. by apply elem_of_nil in Hc.
    + apply list.Forall_forall. intros c Hc. by destruct (Hall c Hc) as [-> _].
  - intros Hn. destruct (hears y es _) as [|c l]; [done|]. by destruct (Hall c) as [_ ?]; [left|].
Qed.

(** ** Losing the connection *)

(** How the promise of [connect()] was settled, and whether the transit was called back *)
Fixpoint settled (log : list notice) : option bool :=
  match log with
  | [] => None
  | Resolve :: _ => Some true
  | Reject :: _ => Some false
  | _ :: log => settled log
  end.
Definition reported (log : list notice) : Prop := settled log = Some false ∨ ErrorCallback ∈ log.

Lemma settled_app l l' : settled (l ++ l') = match settled l with Some b => Some b | None => settled l' end.
Proof. induction l as [|[] l IH]; try done. Qed.

Lemma reported_app l l' : reported l → reported (l ++ l').
Proof. intros [H|H]; [left; by rewrite settled_app, H|right; apply elem_of_app; by left]. Qed.

(** A run of an attempt, nobody disconnecting *)
Record watched (s : amqp * attempt * list notice) : Prop := {
  wa_flag : connectionDisconnecting s.1.1 = false;
  wa_settled : settled s.2 = Some true → isResolved s.1.2 = true;
  wa_resolved : isResolved s.1.2 = true → at_phase s.1.2 = Done;
  wa_open : reported s.2 ∨
    (at_phase s.1.2 ≠ Done ∧ settled s.2 = None ∧ (at_phase s.1.2 = Connecting → connected (amqp_base s.1.1) = true)) ∨
    (settled s.2 = Some true ∧ connected (amqp_base s.1.1) = true)
}.

Lemma reject_reported a log : (settled log = Some true → isResolved a = true) → reported (log ++ reject a).
Proof.
  intros Ha. destruct (settled log) as [[]|] eqn:Hs.
  - right. apply elem_of_app. right. unfold reject. rewrite Ha by done. right. by left.
  - left. by rewrite settled_app, Hs.
  - left. by rewrite settled_app, Hs.
Qed.

(** A step that says nothing of the promise, or after the transit was told *)
Lemma watched_quiet x a log x' a' l :
  watched (x, a, log) → connectionDisconnecting x' = false → isResolved a' = isResolved a → settled l = None →
  at_phase a ≠ Done → at_phase a' ≠ Done → (at_phase a' = Connecting → connected (amqp_base x') = true) → watched (x', a', log ++ l).
Proof.
  intros [H1 H2 H3 H4] Hf Hr Hl Hp Hp' Hc. simpl in *. constructor; simpl; rewrite ?settled_app, ?Hr.
  - done.
  - destruct (settled log) as [[]|] eqn:Hs; [by auto|done|by rewrite Hl].
  - intros E. by apply H3 in E.
  - destruct H4 as [H4|[(_ & H4 & _)|[H4 _]]]; [left; by apply reported_app| |by apply H2, H3 in H4].
    right; left. by rewrite H4, Hl.
Qed.

Lemma watched_rejected x a log x' a' :
  watched (x, a, log) → connectionDisconnecting x' = false → isResolved a' = isResolved a →
  (isResolved a = true → at_phase a' = Done) → watched (x', a', log ++ reject a).
Proof.
  intros [H1 H2 H3 H4] Hf Hr Hp. simpl in *. constructor; simpl; rewrite ?Hr; [done| |done|left; by apply reject_reported].
  rewrite settled_app. unfold reject. destruct (settled log) as [[]|] eqn:Hs; [auto|done|done].
Qed.

Lemma watched_apply e s : watched s → watched (apply e s).
Proof.
  destruct s as [[x a] log]. intros Hw. pose proof Hw as [H1 H2 H3 H4]. simpl in *. destruct e as [ok| |].
  - cbn [apply]. unfold proceed. destruct (at_phase a) eqn:Hp, ok;
      try (apply (watched_rejected x a); [done|done|done|done]);
      try (apply (watched_quiet x a); simpl; rewrite ?Hp; done).
    + destruct (1 <? connectionCount (counted (with_channel true x))); apply (watched_quiet x a); simpl; rewrite ?Hp; done.
    + constructor; simpl; rewrite ?settled_app; [done|done|done|].
      destruct H4 as [H4|[(_ & Hs & Hc)|[Hs _]]]; [left; by apply reported_app| |by apply H2, H3 in Hs].
      right; right. rewrite Hs. split; [done|]. by apply Hc.
    + rewrite app_nil_r. done.
    + rewrite app_nil_r. done.
  - cbn [apply]. unfold connection_closed. rewrite H1. by apply (watched_rejected x a).
  - cbn [apply]. constructor; simpl; done.
Qed.

Lemma apply_reported e s : reported s.2 → reported (apply e s).2.
Proof.
  destruct s as [[x a] log]. intros Hr. destruct e as [ok| |]; cbn [apply].
  - destruct (proceed ok a x) as [[x' a'] l]. by apply reported_app.
  - destruct (connection_closed a x) as [x' l]. by apply reported_app.
  - done.
Qed.

(** C18. As long as nobody disconnects, the transit hears of every connection that is lost: the
    promise of [connect()] is rejected first, or its error handler is called.  When it has
    not heard of anything the attempt still goes on, or it has resolved and the transporter
    counts as connected. *)
Theorem amqp_loss_reported es x :
  connectionDisconnecting x = false →
  let '(x', a, log) := run es x in
  (ConnectionClosed ∈ es → reported log) ∧
  (reported log ∨ (at_phase a ≠ Done ∧ settled log = None) ∨ (settled log = Some true ∧ connected (amqp_base x') = true)).
Proof.
  intros Hx. unfold run. set (s0 := (connect x, [])). assert (watched s0) as H0.
  { constructor; simpl; [done|done|done|]. right; left. done. }
  assert (∀ s, watched s → watched (foldl (λ s e, apply e s) s es) ∧ (reported s.2 ∨ ConnectionClosed ∈ es → reported (foldl (λ s e, apply e s) s es).2)) as Hrun.
  { clear. induction es as [|e es IH]; intros s Hs; simpl; [split; [done|]; intros [?|?%elem_of_nil]; done|].
    destruct (IH (apply e s) (watched_apply e s Hs)) as [H1 H2]. split; [done|]. intros Hr. apply H2.
    destruct Hr as [Hr|[<-|Hr]%elem_of_cons]; [left; by apply apply_reported|left|by right].
    destruct s as [[x a] log]. cbn [apply]. unfold connection_closed. pose proof (wa_flag _ Hs) as Hf. simpl in Hf. rewrite Hf. pose proof (wa_settled _ Hs) as Hst. simpl in Hst. exact (reject_reported a log Hst). }
  destruct (Hrun s0 H0) as [Hw Hr]. destruct (foldl _ s0 es) as [[x' a] log]. simpl in *. split; [auto|].
  destruct (wa_open _ Hw) as [?|[(? & ? & _)|?]]; auto.
Qed.

(** ** Servers *)

(** [n] attempts in a row that fail, from the state [x] on: the URLs they use *)
Fixpoint tried (n : nat) (x : amqp) : list (option string) :=
  match n with O => [] | S n => let '(x, a) := connect x in uri a :: tried n x end.

Lemma tried_nth n x k : (k < n)%nat → 0 ≤ connectAttempt x →
  tried n x !! k = Some (url (opts x) !! Z.to_nat ((connectAttempt x + Z.of_nat k) mod Z.of_nat (length (url (opts x))))).
Proof.
  revert x k. induction n as [|n IH]; intros x k Hk Hx; [lia|]. cbn [tried]. destruct (connect x) as [x' a] eqn:E.
  injection E as <- <-. destruct k as [|k].
  - simpl. do 3 f_equal. by rewrite Z.add_0_r, Z.add_simpl_r.
  - simpl. rewrite IH by (simpl; lia). simpl. do 4 f_equal. lia.
Qed.

(** Whatever was tried before, as many attempts in a row as there are servers try every server. *)
Theorem urls_tried x u : u ∈ url (opts x) → 0 ≤ connectAttempt x → Some u ∈ tried (length (url (opts x))) x.
Proof.
  intros [i Hi]%list_elem_of_lookup_1 Hx. set (m := Z.of_nat (length (url (opts x)))). pose proof (lookup_lt_Some _ _ _ Hi) as Hlt.
  set (k := Z.to_nat ((Z.of_nat i - connectAttempt x) mod m)).
  assert (0 ≤ (Z.of_nat i - connectAttempt x) mod m < m) as Hk by (apply Z.mod_pos_bound; lia).
  apply (list_elem_of_lookup_2 _ k). rewrite tried_nth by lia. rewrite <- Hi. f_equal. f_equal. fold m. unfold k. rewrite Z2Nat.id by lia.
  rewrite Z.add_mod_idemp_r by lia. replace (connectAttempt x + (Z.of_nat i - connectAttempt x)) with (Z.of_nat i) by lia.
  rewrite Z.mod_small by lia. lia.
Qed.

(** ** What is not handled *)

Definition node (id : string) : amqp := create (init id None true) (JStr "amqp://a;amqp://b").
Definition online (x : amqp) : amqp * attempt * list notice := run [Proceed true; Proceed true; Proceed true] x.

(** The server closes a channel by itself when something is wrong: the transit does not hear
    of it, the transporter counts as connected, and what is sent is dropped. *)
Lemma channel_lost_silently :
  let '(x, a, log) := apply ChannelClosed (online (node "n1")) in
  log = [OnConnected false; Resolve] ∧ connected (amqp_base x) = true ∧ connection x = true ∧ ∀ topic d n b, send topic d n b x = [].
Proof. by vm_compute. Qed.

(** Once disconnected, the transporter takes every later loss for a graceful one: after a
    restart nothing connects again. *)
Lemma restarted_deaf :
  let x := (disconnect true (online (node "n1")).1.1).1 in
  let '(x, a, log) := run [Proceed true; Proceed true; Proceed true; ConnectionClosed] x in
  log = [OnConnected false; Resolve; Gracefully] ∧ connected (amqp_base x) = false.
Proof. by vm_compute. Qed.

(** A service that handles [user.*] consumes a queue of that name, and an event is sent to the
    queue of its own name. *)
Lemma wildcard_events_unheard :
  let x := (online (node "n1")).1.1 in
  heard (subscribeBalancedEvent "user.*" "mail" x) = [(Queue "MOL.EVENTB.mail.user.*", "EVENT")]%string ∧
  send (event_topic (amqp_base x) "mail" "user.created") "" None true x = [SendToQueue "MOL.EVENTB.mail.user.created" ""]%string.
Proof. by vm_compute. Qed.

(** ** Witnesses *)

Lemma amqp_loss_reported_witness :
  let '(x, a, log) := run [Proceed true; Proceed true; Proceed true; ConnectionClosed] (node "n1") in reported log.
Proof.
  pose proof (amqp_loss_reported [Proceed true; Proceed true; Proceed true; ConnectionClosed] (node "n1") eq_refl) as H.
  destruct (run _ _) as [[x a] log]. destruct H as [H _]. apply H. vm_compute. do 3 right. left.
Defined.

Lemma urls_tried_witness : Some "amqp://b"%string ∈ tried 2 (node "n1").
Proof. apply (urls_tried (node "n1") "amqp://b"); [vm_compute; right; left|vm_compute; discriminate]. Defined.
