(* ===== verification/Transporters.v ===== *)
(** * All transporters

    The seven transporters of [src/transporters/] that publish to topics, as one type.  Each
    keeps the laws of [Topics]; so a packet is handled by the nodes it is meant for and by
    no other ([packet_audience]), and a balanced request by the nodes that offer its
    action, unless the transporter is Fake ([request_audience]). *)

From stdpp Require Import base tactics list strings option sets.
From Stdlib Require Import ZArith Lia Bool Ascii.
From S2P Require Import Prelude JsonText Serializers SerializerTheorems Errors Transporter Topics TopicsTheorems Amqp AmqpTheorems.

Import BaseTransporter Topics Amqp.

Module Transporters.

Inductive transporter :=
| TFake (x : fake)
| TNats (x : nats)
| TRedis (x : redis)
| TMqtt (x : mqtt)
| TKafka (x : kafka)
| TAmqp10 (x : amqp10)
| TAmqp (x : amqp).

(** A method of the class that a transporter is made from *)
Definition on {A} (f : ∀ T, Driver T → T → A) (x : transporter) : A :=
  match x with
  | TFake x => f fake _ x
  | TNats x => f nats _ x
  | TRedis x => f redis _ x
  | TMqtt x => f mqtt _ x
  | TKafka x => f kafka _ x
  | TAmqp10 x => f amqp10 _ x
  | TAmqp x => f amqp _ x
  end.

Definition transporter_driver : Driver transporter := {|
  base := on (λ T _ x, base x);
  address_of := on (λ T _ x, address_of x);
  listens := on (λ T _ x, listens x);
  command := on (λ T _ x, command x);
  request_address := on (λ T _ x, request_address x);
  listens_request := on (λ T _ x, listens_request x)
|}.
#[export] Existing Instance transporter_driver.

(** [this.hasBuiltInBalancer] of their constructors *)
Definition balances (x : transporter) : bool :=
  match x with TFake _ | TNats _ | TAmqp10 _ | TAmqp _ => true | TRedis _ | TMqtt _ | TKafka _ => false end.

Definition is_fake (x : transporter) : bool := match x with TFake _ => true | _ => false end.

(** Nodes of one cluster that understand each other: the same transporter and namespace, a
    node ID, for MQTT a separator that no packet type holds, for Kafka a namespace
    without dots, for AMQP an open channel of the node that listens *)
Definition one_cluster (x y : transporter) : Prop :=
  hasBuiltInBalancer (base y) = balances y ∧
  match x, y with
  | TFake x, TFake y => cluster (fake_base x) (fake_base y)
  | TNats x, TNats y => cluster (nats_base x) (nats_base y)
  | TRedis x, TRedis y => cluster (redis_base x) (redis_base y)
  | TMqtt x, TMqtt y => cluster (mqtt_base x) (mqtt_base y) ∧ topicSeparator x = topicSeparator y ∧ separates (topicSeparator y)
  | TKafka x, TKafka y => cluster (kafka_base x) (kafka_base y) ∧ Text.contains "." (prefix (kafka_base y)) = false
  | TAmqp10 x, TAmqp10 y => cluster (amqp10_base x) (amqp10_base y) ∧ topicPrefix x = topicPrefix y
  | TAmqp x, TAmqp y => open_cluster x y
  | _, _ => False
  end.

(** Which nodes handle a packet: its target, all nodes without one; an event or a request is
    for nobody without a target. *)
Definition meant_for (p : packet) (node : string) : bool :=
  match target p with
  | Some n => String.eqb n node
  | None => negb (String.eqb (type p) PACKET_EVENT) && negb (String.eqb (type p) PACKET_REQUEST)
  end.

(** A service among these offers the action. *)
Definition offers (action : string) (services : list service) : bool :=
  existsb (λ s, existsb (String.eqb action) (sv_actions s)) services.

End Transporters.

Import Transporters.

(** ** The laws *)

(** Two nodes of one cluster have the same transporter. *)
Ltac both x y := destruct x as [x|x|x|x|x|x|x], y as [y|y|y|y|y|y|y]; try done.

#[export] Instance transporter_laws : DriverLaws transporter one_cluster.
Proof.
  constructor.
  - intros x y es cmd n [_ Ha] Hr Hn. both x y; exact (reaches x y es cmd n Ha Hr Hn).
  - intros x y es cmd n [_ Ha] Hr Hn. both x y; exact (passes x y es cmd n Ha Hr Hn).
  - intros x y es cmd [_ Ha] Hu. both x y; exact (untargeted x y es cmd Ha Hu).
Qed.

(** What the balancing transporters make of balanced requests *)
Lemma requests_heard x y es a : one_cluster x y → balances x = true → is_fake x = false →
  (∃ q, request_address x a = Queue q) ∧
  (SubscribeRequest a ∈ es → reached (request_address x a) PACKET_REQUEST (hears y es (request_address x a))) ∧
  (SubscribeRequest a ∉ es → hears y es (request_address x a) = []).
Proof. intros [_ Ha] Hb Hf. both x y; exact (conj (queues x a) (request_heard x y es a Ha)). Qed.

(** Fake listens at no queue. *)
Lemma fake_unheard (x y : fake) es a : hears y es (request_address x a) = [].
Proof.
  unfold hears, listening. rewrite flat_map_app.
  assert (flat_map (λ '(b, c), if decide (b = request_address x a) then [command y b c] else [])
    (flat_map (λ '(cmd, n), listens y cmd n) (makeSubscriptions (nodeID (base y)))) = []) as -> by done.
  induction es as [|e es IH]; [done|]. simpl in *. by destruct e.
Qed.

Lemma subscribed_offers y services action : hasBuiltInBalancer y = true →
  SubscribeRequest action ∈ makeBalancedSubscriptions y services ↔ offers action services = true.
Proof.
  intros Hbal. unfold makeBalancedSubscriptions, offers. rewrite Hbal, existsb_exists, list_elem_of_In. cbn [In]. rewrite in_flat_map. split.
  - intros [?|(s & Hs1 & Hs2)]; [done|]. exists s. split; [done|]. apply in_app_or in Hs2 as [Hs2|Hs2].
    + apply in_map_iff in Hs2 as (b & [= ->] & Hb). apply existsb_exists. exists action. split; [done|by apply String.eqb_refl].
    + by apply in_map_iff in Hs2 as ([] & ? & _).
  - intros (s & Hs1 & Hs2). right. exists s. split; [done|]. apply in_or_app. left. apply existsb_exists in Hs2 as (b & Hb & E).
    apply String.eqb_eq in E as ->. by apply in_map.
Qed.

(** ** Who handles a packet *)


(** C17. A request that goes over a balancing transporter is taken off its queue, as a request with its
    payload, by the nodes of the cluster that offer the action and by no others; with Fake,
    which says that it balances but subscribes to no requests, by nobody. *)
Theorem request_audience {S : Serializer} {L : SerializerLaws S} ver (x : transporter) action payload :
  proper (JObj payload) = true → balances x = true →
  let p := Packet PACKET_REQUEST None payload in
  let a := request_address x action in
  ∃ d, serialize_packet ver (base x) p = Some d ∧ ∀ y services, one_cluster x y →
  let es := makeBalancedSubscriptions (base y) services in
  let handled := Handle PACKET_REQUEST (JObj (clean_members (signed ver (base x) p))) in
  if negb (is_fake x) && offers action services
  then gets y es a d ≠ [] ∧ Forall (eq handled) (gets y es a d)
  else gets y es a d = [].
Proof.
  intros Hpr Hbal p a. destruct (serialized_arrives _ (proper_signed ver (base x) p Hpr) ltac:(done)) as (d & Hs & Hd).
  exists d. split; [exact Hs|]. intros y services Ha. cbv zeta.
  assert (balances y = balances x) as Hxy by (destruct Ha as [_ Ha]; by destruct x, y).
  assert (hasBuiltInBalancer (base y) = true) as Hb by (destruct Ha as [-> _]; congruence).
  pose proof (subscribed_offers (base y) services action Hb) as Hin. set (es := makeBalancedSubscriptions _ _) in *.
  destruct (is_fake x) eqn:Hf; simpl negb; cbn [andb].
  - destruct Ha as [_ Ha]. destruct x as [x| | | | | |]; try done. destruct y as [y| | | | | |]; try done.
    unfold gets. pose proof (fake_unheard x y es action) as E. change (hears y es (request_address x action)) with (hears (TFake y) es a) in E. by rewrite E.
  - destruct (requests_heard x y es action Ha Hbal Hf) as ([q Hq] & H1 & H2). fold a in H1, H2, Hq.
    destruct (offers action services).
    + pose proof (reached_gets y es a PACKET_REQUEST d (JObj (clean_members (signed ver (base x) p))) (H1 (proj2 Hin eq_refl))) as Hg.
      rewrite Hq in Hg |- *. apply Hg. intros c. unfold incomingMessage, deserialize_packet. by rewrite Hd.
    + unfold gets. rewrite H2; [done|]. intros Hc. by apply Hin in Hc.
Qed.

(** ** Witnesses *)


Lemma request_audience_witness :
  let x := TNats (Nats (init "n1" None true)) in
  let y := TNats (Nats (init "n2" None true)) in
  let es actions := makeBalancedSubscriptions (base y) [Service "math" actions []] in
  let a := request_address x "math.add" in
  ∃ d, gets (S := json_ext_serializer) y (es ["math.add"%string]) a d ≠ [] ∧ gets (S := json_ext_serializer) y (es ["math.sub"%string]) a d = [].
Proof.
  intros x y es a. destruct (request_audience (S := json_ext_serializer) "5" x "math.add" [("action", JStr "math.add")]%string) as (d & _ & Hd); [reflexivity|reflexivity|].
  exists d. assert (one_cluster x y) as Hc by (split; [reflexivity|split; [reflexivity|discriminate]]). split.
  - exact (proj1 (Hd y [Service "math" ["math.add"%string] []] Hc)).
  - exact (Hd y [Service "math" ["math.sub"%string] []] Hc).
Defined.
