(* ===== verification/Metrics.v ===== *)
(** * Metrics: [metrics/types/], [metrics/rates.js], [metrics/registry.js]

    A metric keeps one item per combination of label values, in a [Map] whose keys are
    made from the labels, and a cached snapshot for the reporters.  Modules: [Rate] is
    the rate of change per minute, [Base] what the types of metrics share, [Gauge] gauges and
    counters, [Info] texts, [Window] the quantiles over a moving window of time, [Histogram]
    observations, [MetricRegistry] the store of metrics.  Values are fractions;
    times are milliseconds. *)

From stdpp Require Import base list strings option pretty.
From Stdlib Require Import ZArith QArith Qabs Qround Lia Ascii.
From S2P Require Import Prelude Utils JsonText.

Open Scope Z_scope.

(** Labels of a value; [None] where none were given *)
Definition labels := option (OMap.t json).

(** ** Rates *)

Module Rate.

Record t := Rate {
  rate : Q;
  lastValue : Q;
  lastTickTime : Z;
  value : option Q
}.

(** The constructor *)
Definition new (now : Z) : t := Rate 0 0 now None.

(** [update(value)] *)
Definition update (v : Q) (r : t) : t := Rate (rate r) (lastValue r) (lastTickTime r) (Some v).

(** [tick()]: the rate after it, and whether it has changed.  The timer ticks every five
    seconds, so some time has passed. *)
Definition tick (now : Z) (r : t) : t * bool :=
  let elapsedSec := (inject_Z (now - lastTickTime r) / 1000)%Q in
  let v := default 0%Q (value r) in
  let oneMinRate := ((v - lastValue r) / elapsedSec * 60)%Q in
  let x := (rate r + (oneMinRate - rate r) * (1 # 2))%Q in
  let x := if Qlt_le_dec (Qabs x) (5 # 100) then 0%Q else x in
  let changed := if Qlt_le_dec (1 # 100) (Qabs (x - rate r)) then true else false in
  (Rate x v now (value r), changed).

(** [reset()] *)
Definition reset (r : t) : t := Rate 0 0 (lastTickTime r) None.

End Rate.

(** ** What metrics share *)

Module Base.

Record t (I S : Type) := Metric {
  name : string;
  labelNames : list string;
  values : OMap.t I;
  dirty : bool;
  lastSnapshot : option (list S);
  reports : list (option Q * labels)    (* what the reporters were told *)
}.
Arguments Metric {I S}.
Arguments name {I S}.
Arguments labelNames {I S}.
Arguments values {I S}.
Arguments dirty {I S}.
Arguments lastSnapshot {I S}.
Arguments reports {I S}.

Section base.
Context {I S : Type}.
Implicit Types m : t I S.

(** The constructor *)
Definition new (n : string) (names : list string) : t I S := Metric n names [] true None [].

(** A part of [hashingLabels] *)
Definition hash_part (v : json) : string :=
  match v with
  | JNum n => pretty n
  | JStr s => String JSON.quotes (s +:+ String JSON.quotes EmptyString)
  | JBool b => if b then "true" else "false"
  | _ => ""
  end.

(** [hashingLabels(labels)] *)
Definition hashingLabels (names : list string) (l : labels) : string :=
  match names, l with
  | [], _ | _, None => ""
  | _, Some l => String.concat "|" (map (λ n, hash_part (default JUndef (OMap.get n l))) names)
  end.

(** [pick(labels, this.labelNames)] *)
Definition pick (names : list string) (l : labels) : OMap.t json :=
  match l with
  | None => []
  | Some l => omap (λ n, (λ v, (n, v)) <$> OMap.get n l) names
  end.

Definition hash (m : t I S) (l : labels) : string := hashingLabels (labelNames m) l.

(** [get(labels)] *)
Definition get (l : labels) (m : t I S) : option I := OMap.get (hash m l) (values m).

(** [changed(value, labels, timestamp)] *)
Definition changed (v : option Q) (l : labels) (m : t I S) : t I S :=
  Metric (name m) (labelNames m) (values m) true (lastSnapshot m) (reports m ++ [(v, l)]).

Definition set_values (vs : OMap.t I) (m : t I S) : t I S :=
  Metric (name m) (labelNames m) vs (dirty m) (lastSnapshot m) (reports m).

Definition setDirty (m : t I S) : t I S :=
  Metric (name m) (labelNames m) (values m) true (lastSnapshot m) (reports m).

(** [clear()] *)
Definition clear (m : t I S) : t I S := changed None None (set_values [] m).

(** [snapshot()]; [generate] is [generateSnapshot], which may fill caches of the items. *)
Definition snapshot (generate : OMap.t I → list S * OMap.t I) (m : t I S) : list S * t I S :=
  match dirty m, lastSnapshot m with
  | false, Some s => (s, m)
  | _, _ =>
      let '(s, vs) := generate (values m) in
      (s, Metric (name m) (labelNames m) vs false (Some s) (reports m))
  end.

End base.
End Base.

(** [timestamp == null ? Date.now() : timestamp] *)
Definition at_time (timestamp : option Z) (now : Z) : Z := default now timestamp.

(** ** Gauges and counters *)

Module Gauge.

Record item := Item {
  value : Q;
  i_labels : OMap.t json;
  timestamp : Z;
  i_rate : option Rate.t
}.

Record shown := Shown {
  s_key : string;
  s_value : Q;
  s_labels : OMap.t json;
  s_timestamp : Z;
  s_rate : option Q
}.

Definition t := Base.t item shown.

Section gauge.
(** [opts.rate] *)
Context (rate : bool).

(** [set(value, labels, timestamp)] *)
Definition set (v : Q) (l : labels) (ts : option Z) (now : Z) (m : t) : t :=
  let h := Base.hash m l in
  match OMap.get h (Base.values m) with
  | Some x =>
      if Qeq_bool (value x) v then m
      else
        let x := Item v (i_labels x) (at_time ts now) (Rate.update v <$> i_rate x) in
        Base.changed (Some v) l (Base.set_values (OMap.set h x (Base.values m)) m)
  | None =>
      let x := Item v (Base.pick (Base.labelNames m) l) (at_time ts now)
                 (if rate then Some (Rate.update v (Rate.new now)) else None) in
      Base.changed (Some v) l (Base.set_values (OMap.set h x (Base.values m)) m)
  end.

Definition current (l : labels) (m : t) : Q := match Base.get l m with Some x => value x | None => 0 end.

(** [increment(labels, value, timestamp)] and [decrement] *)
Definition increment (l : labels) (v : option Q) (ts : option Z) (now : Z) (m : t) : t :=
  set (current l m + default 1%Q v)%Q l ts now m.
Definition decrement (l : labels) (v : option Q) (ts : option Z) (now : Z) (m : t) : t :=
  set (current l m - default 1%Q v)%Q l ts now m.

(** [decrement] of a counter throws. *)
Definition counter_decrement (l : labels) (v : option Q) (ts : option Z) (now : Z) (m : t) : option t := None.

(** [reset(labels, timestamp)] *)
Definition reset (l : labels) (ts : option Z) (now : Z) (m : t) : t := set 0%Q l ts now m.

(** [resetAll(timestamp)] *)
Definition resetAll (ts : option Z) (now : Z) (m : t) : t :=
  Base.changed None None
    (Base.set_values (map (λ '(h, x), (h, Item 0 (i_labels x) (at_time ts now) (i_rate x))) (Base.values m)) m).

(** The timer of an item's rate *)
Definition tick (h : string) (now : Z) (m : t) : t :=
  match OMap.get h (Base.values m) with
  | Some x =>
      match i_rate x with
      | Some r =>
          let '(r, ch) := Rate.tick now r in
          let m := Base.set_values (OMap.set h (Item (value x) (i_labels x) (timestamp x) (Some r)) (Base.values m)) m in
          if ch then Base.changed (Some (value x)) (Some (i_labels x)) m else m
      | None => m
      end
  | None => m
  end.

End gauge.

(** [generateSnapshot()] *)
Definition show (h : string) (x : item) : shown :=
  Shown h (value x) (i_labels x) (timestamp x) (Rate.rate <$> i_rate x).
Definition generateSnapshot (vs : OMap.t item) : list shown * OMap.t item := (map (λ '(h, x), show h x) vs, vs).
Definition snapshot (m : t) : list shown * t := Base.snapshot generateSnapshot m.

End Gauge.

(** ** Texts *)

Module Info.

Record item := Item {
  value : json;
  i_labels : OMap.t json;
  timestamp : Z
}.

Definition shown : Type := string * item.
Definition t := Base.t item shown.

Section info.
(** [value != item.value] *)
Context (loosely_equal : json → json → bool).

(** [set(value, labels, timestamp)]; what the reporters are told is not a number. *)
Definition set (v : json) (l : labels) (ts : option Z) (now : Z) (m : t) : t :=
  let h := Base.hash m l in
  match OMap.get h (Base.values m) with
  | Some x =>
      if loosely_equal v (value x) then m
      else Base.changed None l (Base.set_values (OMap.set h (Item v (i_labels x) (at_time ts now)) (Base.values m)) m)
  | None =>
      Base.changed None l
        (Base.set_values (OMap.set h (Item v (Base.pick (Base.labelNames m) l) (at_time ts now)) (Base.values m)) m)
  end.

(** [reset(labels, timestamp)] and [resetAll(timestamp)] *)
Definition reset (l : labels) (ts : option Z) (now : Z) (m : t) : t := set JNull l ts now m.
Definition resetAll (ts : option Z) (now : Z) (m : t) : t :=
  Base.changed None None
    (Base.set_values (map (λ '(h, x), (h, Item JNull (i_labels x) (at_time ts now))) (Base.values m)) m).

End info.

(** [generateSnapshot()] *)
Definition generateSnapshot (vs : OMap.t item) : list shown * OMap.t item := (vs, vs).
Definition snapshot (m : t) : list shown * t := Base.snapshot generateSnapshot m.

End Info.

(** ** Quantiles over a moving window *)

(** [samples.sort(sortAscending)] *)
Definition insert_asc (x : Q) : list Q → list Q :=
  fix go l := match l with [] => [x] | y :: l' => if Qle_bool x y then x :: l else y :: go l' end.
Definition sort_asc (l : list Q) : list Q := foldr insert_asc [] l.

(** The sum of the samples, added up from the left *)
Definition sum (l : list Q) : Q := foldl Qplus 0%Q l.

Module Window.

Record stats := Stats {
  min : option Q;
  mean : option Q;
  variance : option Q;
  stdDev : option Q;
  max : option Q;
  quantile_values : list (Q * option Q)
}.

(** [TimeWindowQuantiles]; [ringBuckets] are the samples of the buckets. *)
Record t := Window {
  quantiles : list Q;
  ringBuckets : list (list Q);
  currentBucket : nat;
  dirty : bool;
  lastSnapshot : option stats
}.

Section window.
Context (sqrt : Q → Q).

(** [rotate()]; the timer calls it every [maxAgeSeconds / ageBuckets] seconds. *)
Definition rotate (w : t) : t :=
  let i := ((currentBucket w + 1) mod length (ringBuckets w))%nat in
  Window (quantiles w) (<[i := []]> (ringBuckets w)) i true (lastSnapshot w).

(** The constructor, for at least one age bucket: it rotates from the place before the
    first bucket. *)
Definition new (qs : list Q) (ageBuckets : nat) : t := Window qs (repeat [] ageBuckets) 0 true None.

(** [add(value)] *)
Definition add (v : Q) (w : t) : t :=
  Window (quantiles w) (alter (λ b, b ++ [v]) (currentBucket w) (ringBuckets w)) (currentBucket w) true (lastSnapshot w).

(** The sample of rank [ceil(q * n)]; outside of the array it is [undefined]. *)
Definition quantile (samples : list Q) (q : Q) : option Q :=
  let i := Qceiling (q * inject_Z (Z.of_nat (length samples))) - 1 in
  if i <? 0 then None else samples !! Z.to_nat i.

Definition number (l : list Q) : Q := inject_Z (Z.of_nat (length l)).

Definition compute (w : t) : stats :=
  let samples := sort_asc (concat (ringBuckets w)) in
  let mean := match samples with [] => None | _ => Some (sum samples / number samples)%Q end in
  let variance :=
    match samples, mean with
    | _ :: _ :: _, Some m =>
        Some (sum (map (λ b, (b - m) * (b - m))%Q samples) / (number samples - 1))%Q
    | _, _ => None
    end in
  Stats (head samples) mean variance
    (match variance with Some v => if Qeq_bool v 0 then None else Some (sqrt v) | None => None end)
    (last samples) (map (λ q, (q, quantile samples q)) (quantiles w)).

(** [snapshot()] *)
Definition snapshot (w : t) : stats * t :=
  match dirty w, lastSnapshot w with
  | false, Some s => (s, w)
  | _, _ => let s := compute w in (s, Window (quantiles w) (ringBuckets w) (currentBucket w) false (Some s))
  end.

End window.
End Window.

(** ** Histograms *)

Module Histogram.

(** An object whose keys are numbers *)
Fixpoint get (b : Q) (m : list (Q * Z)) : option Z :=
  match m with [] => None | (c, n) :: m => if Qeq_bool b c then Some n else get b m end.
Fixpoint put (b : Q) (n : Z) (m : list (Q * Z)) : list (Q * Z) :=
  match m with
  | [] => [(b, n)]
  | (c, k) :: m => if Qeq_bool b c then (c, n) :: m else (c, k) :: put b n m
  end.

Record item := Item {
  i_labels : OMap.t json;
  timestamp : Z;
  sum : Q;
  count : Z;
  lastValue : option Q;
  bucketValues : option (list (Q * Z));
  quantileValues : option Window.t;
  i_rate : option Rate.t
}.

Record shown := Shown {
  s_key : string;
  s_labels : OMap.t json;
  s_count : Z;
  s_sum : Q;
  s_lastValue : option Q;
  s_timestamp : Z;
  s_buckets : option (list (Q * Z));
  s_stats : option Window.stats;
  s_rate : option Q
}.

Definition t := Base.t item shown.

(** [generateLinearBuckets] and [generateExponentialBuckets] *)
Definition generateLinearBuckets (start width : Q) (n : nat) : list Q :=
  map (λ i, start + inject_Z (Z.of_nat i) * width)%Q (seq 0 n).
Definition generateExponentialBuckets (start factor : Q) (n : nat) : list Q :=
  map (λ i, start * Qpower factor (Z.of_nat i))%Q (seq 0 n).

Section histogram.
(** [this.buckets], [this.quantiles] with the number of age buckets, [this.rate] *)
Context (buckets : option (list Q)) (quantiles : option (list Q * nat)) (rate : bool) (sqrt : Q → Q).

(** [createBucketValues()] *)
Definition createBucketValues (bs : list Q) : list (Q * Z) := foldl (λ m b, put b 0 m) [] bs.

(** [resetItem(item, timestamp)] of an item with the labels and the rate *)
Definition resetItem (l : OMap.t json) (r : option Rate.t) (ts : option Z) (now : Z) : item :=
  Item l (at_time ts now) 0 0 None (createBucketValues <$> buckets)
    ((λ '(qs, n), Window.new qs n) <$> quantiles) r.

(** The buckets that take [value] *)
Definition fill (v : Q) (bs : list Q) (m : list (Q * Z)) : list (Q * Z) :=
  foldl (λ m b, if Qle_bool v b then put b (default 0 (get b m) + 1) m else m) m bs.

(** [observe(value, labels, timestamp)] *)
Definition observe_item (v : Q) (ts : option Z) (now : Z) (x : item) : item :=
  Item (i_labels x) (at_time ts now) (sum x + v)%Q (count x + 1) (Some v)
    (match buckets with Some bs => fill v bs <$> bucketValues x | None => bucketValues x end)
    (Window.add v <$> quantileValues x) (Rate.update (inject_Z (count x + 1)) <$> i_rate x).
Definition observe (v : Q) (l : labels) (ts : option Z) (now : Z) (m : t) : t :=
  let h := Base.hash m l in
  let x :=
    match OMap.get h (Base.values m) with
    | Some x => x
    | None => resetItem (Base.pick (Base.labelNames m) l) (if rate then Some (Rate.new now) else None) None now
    end in
  Base.changed (Some v) l (Base.set_values (OMap.set h (observe_item v ts now x) (Base.values m)) m).

(** [reset(labels, timestamp)] and [resetAll(timestamp)] *)
Definition reset (l : labels) (ts : option Z) (now : Z) (m : t) : t :=
  let h := Base.hash m l in
  match OMap.get h (Base.values m) with
  | Some x =>
      Base.changed None l (Base.set_values (OMap.set h (resetItem (i_labels x) (i_rate x) ts now) (Base.values m)) m)
  | None => m
  end.
Definition resetAll (ts : option Z) (now : Z) (m : t) : t :=
  Base.changed None None
    (Base.set_values (map (λ '(h, x), (h, resetItem (i_labels x) (i_rate x) ts now)) (Base.values m)) m).

(** The timer of the window of an item: its [setDirty] sets the metric dirty too. *)
Definition set_window (w : option Window.t) (x : item) : item :=
  Item (i_labels x) (timestamp x) (sum x) (count x) (lastValue x) (bucketValues x) w (i_rate x).
Definition rotate (h : string) (m : t) : t :=
  match OMap.get h (Base.values m) with
  | Some x =>
      match quantileValues x with
      | Some w => Base.setDirty (Base.set_values (OMap.set h (set_window (Some (Window.rotate w)) x) (Base.values m)) m)
      | None => m
      end
  | None => m
  end.

(** The timer of an item's rate; it tells the item's [value], which a histogram does not have. *)
Definition set_rate (r : option Rate.t) (x : item) : item :=
  Item (i_labels x) (timestamp x) (sum x) (count x) (lastValue x) (bucketValues x) (quantileValues x) r.
Definition tick (h : string) (now : Z) (m : t) : t :=
  match OMap.get h (Base.values m) with
  | Some x =>
      match i_rate x with
      | Some r =>
          let '(r, ch) := Rate.tick now r in
          let m := Base.set_values (OMap.set h (set_rate (Some r) x) (Base.values m)) m in
          if ch then Base.changed None (Some (i_labels x)) m else m
      | None => m
      end
  | None => m
  end.

(** [generateItemSnapshot(item, key)] *)
Definition generateItemSnapshot (h : string) (x : item) : shown * item :=
  let stats := Window.snapshot sqrt <$> quantileValues x in
  (Shown h (i_labels x) (count x) (sum x) (lastValue x) (timestamp x)
     ((λ bs, foldl (λ m b, put b (default 0 (bucketValues x ≫= get b)) m) [] bs) <$> buckets)
     (fst <$> stats) (Rate.rate <$> i_rate x),
   set_window (snd <$> stats) x).

(** [generateSnapshot()] *)
Definition generateSnapshot (vs : OMap.t item) : list shown * OMap.t item :=
  (map (λ '(h, x), (generateItemSnapshot h x).1) vs, map (λ '(h, x), (h, (generateItemSnapshot h x).2)) vs).
Definition snapshot (m : t) : list shown * t := Base.snapshot generateSnapshot m.

End histogram.
End Histogram.

(** ** The store of metrics *)

Module MetricRegistry.

Record histogram_opts := HistogramOpts {
  buckets : option (list Q);
  quantiles : option (list Q * nat);
  h_rate : bool
}.

Inductive metric :=
| Counter (rate : bool) (m : Gauge.t)
| GaugeM (rate : bool) (m : Gauge.t)
| HistogramM (o : histogram_opts) (m : Histogram.t)
| InfoM (m : Info.t)
| BaseM (type : string) (m : Base.t unit unit).   (* the type [base] is accepted, but has no operations *)

Record t := Registry {
  enabled : bool;
  store : OMap.t metric
}.

(** Why a call throws *)
Inductive failure :=
| NoType
| NoName
| InvalidName (name : string)
| InvalidLabel (name : string)
| InvalidMetricType (type : string)
| WrongOperation        (* the metric has no such operation *)
| CannotDecrease
| NotImplemented
| NotAnObject.          (* a property of a missing metric was read *)

Inductive answer := Null | Threw (e : failure) | Ok (r : t).

Definition letter (c : Ascii.ascii) : bool :=
  let n := Ascii.N_of_ascii c in
  ((65 <=? n) && (n <=? 90) || (97 <=? n) && (n <=? 122) || (n =? 95))%N.
Definition digit (c : Ascii.ascii) : bool := let n := Ascii.N_of_ascii c in ((48 <=? n) && (n <=? 57))%N.
Definition dash_or_dot (c : Ascii.ascii) : bool := Ascii.eqb c "-"%char || Ascii.eqb c "."%char.

(** [METRIC_NAME_REGEXP] and [METRIC_LABEL_REGEXP] *)
Definition valid (rest : Ascii.ascii → bool) (s : string) : bool :=
  match s with
  | EmptyString => false
  | String c s => letter c && forallb (λ c, letter c || digit c || rest c) (String.list_ascii_of_string s)
  end.
Definition valid_name : string → bool := valid (λ c, dash_or_dot c || Ascii.eqb c ":"%char).
Definition valid_label : string → bool := valid dash_or_dot.

(** What [register] is given *)
Record opts := Opts {
  o_type : string;
  o_name : string;
  o_labelNames : list string;
  o_rate : bool;
  o_buckets : option (list Q);
  o_quantiles : option (list Q * nat)
}.

Definition lower (s : string) : string :=
  String.string_of_list_ascii (map (λ c, let n := Ascii.N_of_ascii c in
    if ((65 <=? n) && (n <=? 90))%N then Ascii.ascii_of_N (n + 32) else c) (String.list_ascii_of_string s)).

(** [Types.resolve(opts.type)] and the constructor of the type *)
Definition resolve (o : opts) : option metric :=
  let base {I S} : Base.t I S := Base.new (o_name o) (o_labelNames o) in
  let t := lower (o_type o) in
  if String.eqb t "counter" then Some (Counter (o_rate o) base)
  else if String.eqb t "gauge" then Some (GaugeM (o_rate o) base)
  else if String.eqb t "histogram" then
    Some (HistogramM (HistogramOpts (sort_asc <$> o_buckets o) ((λ '(qs, n), (sort_asc qs, n)) <$> o_quantiles o) (o_rate o)) base)
  else if String.eqb t "info" then Some (InfoM base)
  else if String.eqb t "base" then Some (BaseM (o_type o) base)
  else None.

(** [register(opts)] *)
Definition register (o : opts) (r : t) : answer :=
  if String.eqb (o_type o) "" then Threw NoType
  else if String.eqb (o_name o) "" then Threw NoName
  else if negb (valid_name (o_name o)) then Threw (InvalidName (o_name o))
  else match Arr.find (λ l, negb (valid_label l)) (o_labelNames o) with
       | Some l => Threw (InvalidLabel l)
       | None =>
           match resolve o with
           | None => Threw (InvalidMetricType (o_type o))
           | Some m => if enabled r then Ok (Registry true (OMap.set (o_name o) m (store r))) else Null
           end
       end.

Section registry.
Context (loosely_equal : json → json → bool).

(** A call of the metric [name] *)
Definition on_metric (name : string) (f : metric → metric + failure) (r : t) : answer :=
  if enabled r then
    match OMap.get name (store r) with
    | None => Threw NotAnObject
    | Some m =>
        match f m with
        | inl m => Ok (Registry true (OMap.set name m (store r)))
        | inr e => Threw e
        end
    end
  else Null.

(** [increment(name, labels, value, timestamp)] *)
Definition increment (name : string) (l : labels) (v : Q) (ts : option Z) (now : Z) : t → answer :=
  on_metric name (λ m,
    match m with
    | Counter rate m => inl (Counter rate (Gauge.increment rate l (Some v) ts now m))
    | GaugeM rate m => inl (GaugeM rate (Gauge.increment rate l (Some v) ts now m))
    | _ => inr WrongOperation
    end).

(** [decrement(name, labels, value, timestamp)] *)
Definition decrement (name : string) (l : labels) (v : Q) (ts : option Z) (now : Z) : t → answer :=
  on_metric name (λ m,
    match m with
    | Counter rate m => inr CannotDecrease
    | GaugeM rate m => inl (GaugeM rate (Gauge.decrement rate l (Some v) ts now m))
    | _ => inr WrongOperation
    end).

(** [set(name, value, labels, timestamp)] of a number, and of another value *)
Definition set (name : string) (v : Q) (l : labels) (ts : option Z) (now : Z) : t → answer :=
  on_metric name (λ m,
    match m with
    | Counter rate m => inl (Counter rate (Gauge.set rate v l ts now m))
    | GaugeM rate m => inl (GaugeM rate (Gauge.set rate v l ts now m))
    | _ => inr WrongOperation
    end).
Definition set_info (name : string) (v : json) (l : labels) (ts : option Z) (now : Z) : t → answer :=
  on_metric name (λ m,
    match m with
    | InfoM m => inl (InfoM (Info.set loosely_equal v l ts now m))
    | _ => inr WrongOperation
    end).

(** [observe(name, value, labels, timestamp)] *)
Definition observe (name : string) (v : Q) (l : labels) (ts : option Z) (now : Z) : t → answer :=
  on_metric name (λ m,
    match m with
    | HistogramM o m => inl (HistogramM o (Histogram.observe (buckets o) (quantiles o) (h_rate o) v l ts now m))
    | _ => inr WrongOperation
    end).

(** [reset(name, labels, timestamp)] and [resetAll(name, timestamp)] *)
Definition reset (name : string) (l : labels) (ts : option Z) (now : Z) : t → answer :=
  on_metric name (λ m,
    match m with
    | Counter rate m => inl (Counter rate (Gauge.reset rate l ts now m))
    | GaugeM rate m => inl (GaugeM rate (Gauge.reset rate l ts now m))
    | HistogramM o m => inl (HistogramM o (Histogram.reset (buckets o) (quantiles o) l ts now m))
    | InfoM m => inl (InfoM (Info.reset loosely_equal l ts now m))
    | BaseM _ m => inr NotImplemented
    end).
Definition resetAll (name : string) (ts : option Z) (now : Z) : t → answer :=
  on_metric name (λ m,
    match m with
    | Counter rate m => inl (Counter rate (Gauge.resetAll ts now m))
    | GaugeM rate m => inl (GaugeM rate (Gauge.resetAll ts now m))
    | HistogramM o m => inl (HistogramM o (Histogram.resetAll (buckets o) (quantiles o) ts now m))
    | InfoM m => inl (InfoM (Info.resetAll ts now m))
    | BaseM _ m => inr NotImplemented
    end).

(** [timer(name, labels, timestamp)] and the call of its answer after [duration], if [name] is
    not registered again in between: counters and texts are accepted and left as they are. *)
Definition timer_end (name : string) (duration : Q) (l : labels) (ts : option Z) (now : Z) : t → answer :=
  on_metric name (λ m,
    match m with
    | HistogramM o m => inl (HistogramM o (Histogram.observe (buckets o) (quantiles o) (h_rate o) duration l ts now m))
    | GaugeM rate m => inl (GaugeM rate (Gauge.set rate duration l ts now m))
    | BaseM _ m => inr WrongOperation
    | m => inl m
    end).

Definition type_of (m : metric) : string :=
  match m with Counter _ _ => "counter" | GaugeM _ _ => "gauge" | HistogramM _ _ => "histogram" | InfoM _ => "info" | BaseM type _ => type end.
(** The names that [list(opts)] reports; a metric of the type [base] has no snapshot and throws. *)
Definition listed (regexp : list Ascii.ascii → list Ascii.ascii → bool) (types includes excludes : option (list string)) (r : t) : option (list string) :=
  let matches name p := Match.match_ regexp (String.list_ascii_of_string name) (String.list_ascii_of_string p) in
  mapM (λ '(name, m), match m with BaseM _ _ => None | _ => Some name end) (Arr.filter (λ '(name, m),
    match types with Some ts => existsb (String.eqb (type_of m)) ts | None => true end &&
    match includes with Some ps => existsb (matches name) ps | None => true end &&
    match excludes with Some ps => forallb (λ p, negb (matches name p)) ps | None => true end) (store r)).

End registry.
End MetricRegistry.
