(* ===== verification/MetricsTheorems.v ===== *)
(** * Theorems about metrics

    Cached snapshots show the current values ([gauge_snapshot_fresh]); gauges and counters add
    up what they are told per combination of labels ([gauge_values]); histograms count each
    observation in every bucket it fits ([histogram_counts]); the window holds what was
    observed during its time ([window_recent]) and quantiles have the rank they should
    ([quantile_rank]). *)

From stdpp Require Import base list strings option pretty sets sorting.
From Stdlib Require Import ZArith QArith Qabs Qround Lia Lqa.
From S2P Require Import Prelude Utils JsonText Metrics.

Open Scope Z_scope.

(** ** Rates *)

(** A rate is zero or at least 0.05. *)
Definition rate_ok (r : Rate.t) : Prop := (Rate.rate r == 0 ∨ 5 # 100 <= Qabs (Rate.rate r))%Q.

(** What a snapshot shows of a rate: the rate, or one that differs little while the value
    stands still. *)
Definition rate_shown (a : Q) (r : Rate.t) : Prop :=
  a = Rate.rate r ∨ (Qabs (a - Rate.rate r) <= 1 # 100)%Q ∧ Rate.lastValue r = default 0%Q (Rate.value r).

Lemma rate_shown_close a r : rate_shown a r → (Qabs (a - Rate.rate r) <= 1 # 100)%Q.
Proof.
  intros [->|[H _]]; [|done]. setoid_replace (Rate.rate r - Rate.rate r)%Q with 0%Q using relation Qeq by ring. done.
Qed.

Local Ltac split_Q := match goal with |- context [Qlt_le_dec ?a ?b] => destruct (Qlt_le_dec a b) end.

Lemma tick_ok now r : rate_ok (Rate.tick now r).1.
Proof.
  unfold rate_ok, Rate.tick. cbn [fst Rate.rate]. split_Q; [by left|by right].
Qed.

(** A tick that reports nothing leaves snapshots right. *)
Lemma tick_silent now r a : rate_ok r → rate_shown a r → (Rate.tick now r).2 = false → rate_shown a (Rate.tick now r).1.
Proof.
  intros Hok Ha. unfold Rate.tick, rate_shown. cbn [fst snd Rate.rate Rate.lastValue Rate.value].
  set (el := (inject_Z (now - Rate.lastTickTime r) / 1000)%Q). set (v := default 0%Q (Rate.value r)).
  set (x := (Rate.rate r + ((v - Rate.lastValue r) / el * 60 - Rate.rate r) * (1 # 2))%Q).
  set (y := if Qlt_le_dec (Qabs x) (5 # 100) then 0%Q else x).
  destruct (Qlt_le_dec (1 # 100) (Qabs (y - Rate.rate r))) as [|Hs]; [done|]. intros _. right. split; [|done].
  destruct Ha as [->|[Hclose Hv]].
  - rewrite Qabs_Qminus. exact Hs.
  - assert (x == Rate.rate r * (1 # 2))%Q as Hx.
    { unfold x, v. rewrite Hv. assert ((default 0 (Rate.value r) - default 0 (Rate.value r)) == 0)%Q as Hz by ring.
      setoid_rewrite Hz. unfold Qdiv. ring. }
    assert (Rate.rate r == 0)%Q as H0.
    { destruct Hok as [?|Hbig]; [done|]. exfalso. unfold y in Hs. destruct (Qlt_le_dec (Qabs x) (5 # 100)) as [Hlt|Hge].
      - clear Hclose. setoid_replace (0 - Rate.rate r)%Q with (- Rate.rate r)%Q using relation Qeq in Hs by ring. rewrite Qabs_opp in Hs. lra.
      - setoid_replace (x - Rate.rate r)%Q with (- (Rate.rate r * (1 # 2)))%Q using relation Qeq in Hs by (rewrite Hx; ring).
        rewrite Qabs_opp, Qabs_Qmult in Hs. change (Qabs (1 # 2)) with (1 # 2)%Q in Hs. lra. }
    assert (y == 0)%Q as Hy by (unfold y; split_Q; [done|rewrite Hx, H0; ring]).
    assert (a - y == a - Rate.rate r)%Q as -> by (rewrite Hy, H0; ring). done.
Qed.

(** ** Maps of items *)

Lemma Forall_set {V} (P : string * V → Prop) h x m : Forall P m → P (h, x) → Forall P (OMap.set h x m).
Proof.
  induction 1 as [|[k v] m Hv Hm IH]; intros Hx; simpl; [by constructor|]. destruct (String.eqb_spec h k) as [->|]; constructor; auto.
Qed.

Lemma Forall2_set {S V} (P : S → string * V → Prop) h x y s m : Forall2 P s m → OMap.get h m = Some x →
  (∀ a, P a (h, x) → P a (h, y)) → Forall2 P s (OMap.set h y m).
Proof.
  induction 1 as [|a [k v] s m Ha Hm IH]; [done|]. simpl. destruct (String.eqb_spec h k) as [->|].
  - intros [= ->] Hxy. constructor; auto.
  - intros Hx Hxy. constructor; auto.
Qed.

Lemma Forall_get {V} (P : string * V → Prop) h x m : Forall P m → OMap.get h m = Some x → P (h, x).
Proof. intros Hm Hx. apply OMap.get_Some_elem in Hx. rewrite Forall_forall in Hm. by apply Hm. Qed.

(** ** Gauges *)

Inductive gauge_op :=
| GSet (v : Q) (l : labels) (ts : option Z) (now : Z)
| GIncrement (l : labels) (v : option Q) (ts : option Z) (now : Z)
| GDecrement (l : labels) (v : option Q) (ts : option Z) (now : Z)
| GReset (l : labels) (ts : option Z) (now : Z)
| GResetAll (ts : option Z) (now : Z)
| GClear
| GTick (h : string) (now : Z)
| GSnapshot.

Section gauge.
Import Gauge.
Context (rate : bool).

Definition gauge_step (m : Gauge.t) (o : gauge_op) : Gauge.t :=
  match o with
  | GSet v l ts now => set rate v l ts now m
  | GIncrement l v ts now => increment rate l v ts now m
  | GDecrement l v ts now => decrement rate l v ts now m
  | GReset l ts now => reset rate l ts now m
  | GResetAll ts now => resetAll ts now m
  | GClear => Base.clear m
  | GTick h now => tick h now m
  | GSnapshot => (snapshot m).2
  end.

(** What a snapshot shows of an item *)
Definition shown_as (s : shown) (e : string * item) : Prop :=
  s_key s = e.1 ∧ s_value s = value e.2 ∧ s_labels s = i_labels e.2 ∧ s_timestamp s = timestamp e.2 ∧
  match s_rate s, i_rate e.2 with
  | Some a, Some r => rate_shown a r
  | None, None => True
  | _, _ => False
  end.

Definition item_ok (e : string * item) : Prop := match i_rate e.2 with Some r => rate_ok r | None => True end.

(** A clean metric has a right snapshot. *)
Definition fresh (m : Gauge.t) : Prop :=
  Forall item_ok (Base.values m) ∧
  (Base.dirty m = false → ∃ s, Base.lastSnapshot m = Some s ∧ Forall2 shown_as s (Base.values m)).

Lemma fresh_set v l ts now m : fresh m → fresh (set rate v l ts now m).
Proof.
  intros [Hi Hs]. unfold set. destruct (OMap.get _ _) as [x|] eqn:Hx.
  - destruct (Qeq_bool _ _); [done|]. split; [|done]. apply Forall_set; [done|]. apply (Forall_get _ _ _ _ Hi) in Hx.
    unfold item_ok in *. simpl in *. by destruct (i_rate x).
  - split; [|done]. apply Forall_set; [done|]. unfold item_ok. simpl. destruct rate; [by left|done].
Qed.

Lemma fresh_tick h now m : fresh m → fresh (tick h now m).
Proof.
  intros [Hi Hs]. unfold tick. destruct (OMap.get h (Base.values m)) as [x|] eqn:Hx; [|done].
  destruct (i_rate x) as [r|] eqn:Hr; [|done]. pose proof (tick_ok now r) as Hok.
  pose proof (Forall_get _ _ _ _ Hi Hx) as Hxr. unfold item_ok in Hxr. cbn [snd] in Hxr. rewrite Hr in Hxr.
  pose proof (λ a H, tick_silent now r a Hxr H) as Hsilent. destruct (Rate.tick now r) as [r' ch]. cbn [fst snd] in *.
  assert (Forall item_ok (OMap.set h (Item (value x) (i_labels x) (timestamp x) (Some r')) (Base.values m))) as Hi'
    by by apply Forall_set.
  destruct ch; split; try done. intros Hd. destruct (Hs Hd) as (s & H1 & H2). exists s. split; [done|].
  apply (Forall2_set _ _ _ _ _ _ H2 Hx). unfold shown_as. cbn [fst snd]. rewrite Hr. intros a (? & ? & ? & ? & Ha).
  split_and!; [done..|]. simpl. destruct (s_rate a); [|done]. by apply Hsilent.
Qed.

Lemma fresh_snapshot m : fresh m → fresh (snapshot m).2 ∧ Forall2 shown_as (snapshot m).1 (Base.values (snapshot m).2) ∧
  Base.values (snapshot m).2 = Base.values m.
Proof.
  intros [Hi Hs]. assert (Forall2 shown_as (generateSnapshot (Base.values m)).1 (Base.values m)) as Hnew.
  { unfold generateSnapshot. cbn [fst]. clear. induction (Base.values m) as [|[h x] vs IH]; [constructor|]. constructor; [|exact IH].
    unfold shown_as, show. simpl. split_and!; try done. destruct (i_rate x); [by left|done]. }
  unfold snapshot, Base.snapshot. destruct (Base.dirty m) eqn:Hd.
  - cbn. split_and!; [|exact Hnew|done]. split; [done|]. intros _. eexists. split; [done|exact Hnew].
  - destruct (Hs eq_refl) as (s & H1 & H2). rewrite H1. cbn. split_and!; [|done|done]. split; [done|]. intros _. eauto.
Qed.

Lemma fresh_step m o : fresh m → fresh (gauge_step m o).
Proof.
  intros Hm. destruct o; simpl; try (by apply fresh_set).
  - destruct Hm as [Hi _]. split; [|done]. cbn. clear -Hi. induction Hi as [|[h x] vs Hx _ IH]; constructor; done.
  - split; [constructor|done].
  - by apply fresh_tick.
  - by apply fresh_snapshot.
Qed.

End gauge.

(** Snapshots of gauges and counters are never stale: whatever was done since the last one, a
    snapshot shows exactly the items there are with their values, labels and times, and
    rates that differ from the current ones by at most 0.01, since the ticks that do not
    report a change are that small and do not add up. *)
Theorem gauge_snapshot_fresh rate n names ops :
  let m := foldl (gauge_step rate) (Base.new n names) ops in
  Forall2 (λ s '(h, x),
    Gauge.s_key s = h ∧ Gauge.s_value s = Gauge.value x ∧ Gauge.s_labels s = Gauge.i_labels x ∧
    Gauge.s_timestamp s = Gauge.timestamp x ∧
    match Gauge.s_rate s, Gauge.i_rate x with
    | Some a, Some r => (Qabs (a - Rate.rate r) <= 1 # 100)%Q
    | None, None => True
    | _, _ => False
    end) (Gauge.snapshot m).1 (Base.values m).
Proof.
  intros m. assert (fresh m) as Hm.
  { unfold m. apply foldl_invariant; [by split; [constructor|]|]. intros a o _. apply fresh_step. }
  destruct (fresh_snapshot m Hm) as (_ & H & Hv). rewrite Hv in H. clear Hv.
  eapply Forall2_impl; [exact H|]. intros s [h x] (H1 & H2 & H3 & H4 & H5). cbn [fst snd] in *. split_and!; [done..|].
  destruct (Gauge.s_rate s), (Gauge.i_rate x); try done. by apply rate_shown_close.
Qed.

(** *** Values *)

Section gauge_values.
Import Gauge.
Context (rate : bool).

(** What an operation makes of the value of the items with the key [h] *)
Definition gauge_told (names : list string) (h : string) (acc : Q) (o : gauge_op) : Q :=
  let mine l := String.eqb (Base.hashingLabels names l) h in
  match o with
  | GSet v l _ _ => if mine l then v else acc
  | GIncrement l v _ _ => if mine l then (acc + default 1 v)%Q else acc
  | GDecrement l v _ _ => if mine l then (acc - default 1 v)%Q else acc
  | GReset l _ _ => if mine l then 0%Q else acc
  | GResetAll _ _ | GClear => 0%Q
  | GTick _ _ | GSnapshot => acc
  end.

Definition value_at (h : string) (m : Gauge.t) : Q :=
  match OMap.get h (Base.values m) with Some x => value x | None => 0 end.

Lemma value_set h v l ts now m :
  (value_at h (set rate v l ts now m) == if String.eqb (Base.hash m l) h then v else value_at h m)%Q ∧
  Base.labelNames (set rate v l ts now m) = Base.labelNames m.
Proof.
  unfold set. set (k := Base.hash m l).
  assert (∀ x, value x = v → value_at h (Base.changed (Some v) l (Base.set_values (OMap.set k x (Base.values m)) m)) =
    if String.eqb k h then v else value_at h m) as Hset.
  { intros x Hx. unfold value_at. cbn. destruct (String.eqb_spec k h) as [->|Hne].
    - by rewrite OMap.get_set_eq.
    - by rewrite OMap.get_set_ne. }
  destruct (OMap.get k (Base.values m)) as [x|] eqn:Hx.
  - destruct (Qeq_bool (value x) v) eqn:Hq; [|split; [by rewrite Hset|done]]. split; [|done].
    destruct (String.eqb_spec k h) as [<-|]; [|done]. unfold value_at. rewrite Hx. by apply Qeq_bool_iff.
  - split; [by rewrite Hset|done].
Qed.

Lemma get_map_snd {A B} (f : A → B) h (m : OMap.t A) : OMap.get h (map (λ '(k, x), (k, f x)) m) = f <$> OMap.get h m.
Proof. induction m as [|[k x] m IH]; [done|]. simpl. by destruct (String.eqb h k). Qed.

Lemma gauge_value_step h o m acc : (value_at h m == acc)%Q →
  (value_at h (gauge_step rate m o) == gauge_told (Base.labelNames m) h acc o)%Q ∧
  Base.labelNames (gauge_step rate m o) = Base.labelNames m.
Proof.
  intros Ha. destruct o as [v l ts now|l v ts now|l v ts now|l ts now|ts now| |k now|]; cbn [gauge_step gauge_told].
  - destruct (value_set h v l ts now m) as [H1 H2]. split; [|done]. rewrite H1. unfold Base.hash. by destruct (String.eqb _ h).
  - unfold increment. destruct (value_set h (current l m + default 1 v)%Q l ts now m) as [H1 H2]. split; [|done]. rewrite H1.
    change (current l m) with (value_at (Base.hash m l) m). unfold Base.hash. destruct (String.eqb_spec (Base.hashingLabels (Base.labelNames m) l) h) as [->|]; [|done].
    by rewrite Ha.
  - unfold decrement. destruct (value_set h (current l m - default 1 v)%Q l ts now m) as [H1 H2]. split; [|done]. rewrite H1.
    change (current l m) with (value_at (Base.hash m l) m). unfold Base.hash. destruct (String.eqb_spec (Base.hashingLabels (Base.labelNames m) l) h) as [->|]; [|done].
    by rewrite Ha.
  - unfold reset. destruct (value_set h 0%Q l ts now m) as [H1 H2]. split; [|done]. rewrite H1. unfold Base.hash. by destruct (String.eqb _ h).
  - split; [|done]. unfold value_at, resetAll. cbn. rewrite (get_map_snd (λ x, Item 0 _ _ _)). by destruct (OMap.get h _).
  - done.
  - unfold tick. destruct (OMap.get k (Base.values m)) as [x|] eqn:Hx; [|done]. destruct (i_rate x) as [r|]; [|done].
    destruct (Rate.tick now r) as [r' ch].
    assert (∀ y, value y = value x → (value_at h (Base.set_values (OMap.set k y (Base.values m)) m) == acc)%Q) as Hset.
    { intros y Hy. unfold value_at in *. cbn. destruct (decide (k = h)) as [->|Hne].
      - rewrite OMap.get_set_eq, Hy. by rewrite Hx in Ha.
      - by rewrite OMap.get_set_ne. }
    destruct ch; (split; [|done]); by apply (Hset (Item _ _ _ _)).
  - unfold snapshot, Base.snapshot, generateSnapshot. destruct (Base.dirty m), (Base.lastSnapshot m); done.
Qed.

End gauge_values.

(** Gauges and counters know, for every combination of labels, what they were told about it and
    nothing else: the last value set plus and minus what came since, zero after a reset. *)
Theorem gauge_values rate n names ops l :
  (Gauge.current l (foldl (gauge_step rate) (Base.new n names) ops) ==
   foldl (gauge_told names (Base.hashingLabels names l)) 0 ops)%Q.
Proof.
  set (m := foldl _ _ ops). assert ((value_at (Base.hashingLabels names l) m == foldl (gauge_told names (Base.hashingLabels names l)) 0 ops)%Q ∧
    Base.labelNames m = names) as [H Hn].
  { unfold m. clear m. induction ops as [|o ops IH] using rev_ind; [done|]. rewrite !foldl_app. cbn [foldl]. destruct IH as [IH Hn].
    destruct (gauge_value_step rate (Base.hashingLabels names l) o _ _ IH) as [H1 H2]. rewrite Hn in H1, H2. done. }
  rewrite <- H. unfold Gauge.current, value_at, Base.get, Base.hash. by rewrite Hn.
Qed.

(** Strings are not escaped in the keys of items, so different labels can share an item. *)
Lemma label_keys_collide :
  let q := String JSON.quotes EmptyString in
  let bar := (q +:+ "|" +:+ q)%string in
  Base.hashingLabels ["a"; "b"]%string (Some [("a", JStr ("x" +:+ bar +:+ "y")); ("b", JStr "z")])%string =
  Base.hashingLabels ["a"; "b"]%string (Some [("a", JStr "x"); ("b", JStr ("y" +:+ bar +:+ "z"))])%string.
Proof. reflexivity. Qed.

(** Resetting a counter makes its rate negative: [reset] tells the rate the value 0, and
    [resetAll] nothing, so that the first increment after it looks like a loss. *)
Lemma reset_rate_negative :
  let up := GIncrement None (Some 600%Q) None 0 in
  let shown ops := map (λ s, Qred <$> Gauge.s_rate s) (Gauge.snapshot (foldl (gauge_step true) (Base.new "calls" []) ops)).1 in
  shown [up; GTick "" 60000; GReset None None 60000; GTick "" 120000]%string = [Some (-150)%Q] ∧
  shown [up; GTick "" 60000; GResetAll None 60000; GIncrement None None None 60001; GTick "" 120000]%string = [Some (-299 # 2)%Q].
Proof. split; vm_compute; reflexivity. Qed.

(** ** The window *)

Inductive window_op := WAdd (v : Q) | WRotate | WSnapshot.

Section window.
Import Window.
Context (sqrt : Q → Q).

Definition window_step (w : Window.t) (o : window_op) : Window.t :=
  match o with
  | WAdd v => add v w
  | WRotate => rotate w
  | WSnapshot => (snapshot sqrt w).2
  end.

(** The samples between rotations, the newest first *)
Definition segment (l : list (list Q)) (o : window_op) : list (list Q) :=
  match o with
  | WAdd v => match l with s :: l => (s ++ [v]) :: l | [] => [] end
  | WRotate => [] :: l
  | WSnapshot => l
  end.

(** The buckets of the ring, the newest first *)
Definition recent (w : Window.t) : list (list Q) :=
  reverse (take (S (currentBucket w)) (ringBuckets w)) ++ reverse (drop (S (currentBucket w)) (ringBuckets w)).

Definition ring_ok (n : nat) (w : Window.t) : Prop := length (ringBuckets w) = n ∧ (currentBucket w < n)%nat.

Lemma recent_lookup w x : ringBuckets w !! currentBucket w = Some x →
  recent w = x :: reverse (take (currentBucket w) (ringBuckets w)) ++ reverse (drop (S (currentBucket w)) (ringBuckets w)).
Proof. intros Hx. unfold recent. by rewrite (take_S_r _ _ x Hx), reverse_app. Qed.

Lemma recent_add n w v : ring_ok n w → ring_ok n (add v w) ∧
  recent (add v w) = match recent w with s :: l => (s ++ [v]) :: l | [] => [] end.
Proof.
  intros [Hl Hc]. unfold ring_ok, add. cbn [ringBuckets currentBucket]. split; [by rewrite length_alter|].
  destruct (lookup_lt_is_Some_2 (ringBuckets w) (currentBucket w)) as [x Hx]; [lia|]. rewrite (recent_lookup w x Hx).
  rewrite (recent_lookup _ (x ++ [v])).
  - cbn [ringBuckets currentBucket]. rewrite take_alter_ge by lia. by rewrite drop_alter_lt by lia.
  - cbn [ringBuckets currentBucket]. by rewrite list_lookup_alter_eq, Hx.
Qed.

Lemma recent_rotate n w : ring_ok n w → ring_ok n (rotate w) ∧ recent (rotate w) = [] :: take (n - 1) (recent w).
Proof.
  intros [Hl Hc]. unfold ring_ok, rotate. rewrite Hl. cbn [ringBuckets currentBucket]. split.
  { split; [by rewrite length_insert|]. apply Nat.mod_upper_bound. lia. }
  rewrite (recent_lookup _ []).
  2: { cbn [ringBuckets currentBucket]. apply list_lookup_insert_eq. rewrite Hl. apply Nat.mod_upper_bound. lia. }
  cbn [ringBuckets currentBucket]. f_equal. rewrite take_insert_ge, drop_insert_lt by lia.
  unfold recent. destruct (decide (S (currentBucket w) = n)) as [Heq|Hne].
  - replace ((currentBucket w + 1) mod n)%nat with 0%nat
      by (symmetry; rewrite <- Heq; replace (currentBucket w + 1)%nat with (S (currentBucket w)) by lia; apply Nat.Div0.mod_same).
    rewrite Heq, <- Hl, firstn_all, drop_all. rewrite take_0, !reverse_nil, app_nil_l, app_nil_r.
    destruct (ringBuckets w) as [|x ring]; [done|]. rewrite reverse_cons. cbn [drop length Nat.sub]. rewrite Nat.sub_0_r.
    rewrite <- (length_reverse ring), take_app_length. done.
  - rewrite Nat.mod_small by lia. replace (currentBucket w + 1)%nat with (S (currentBucket w)) by lia.
    destruct (lookup_lt_is_Some_2 (ringBuckets w) (S (currentBucket w))) as [x Hx]; [lia|].
    rewrite (drop_S _ x _ Hx), reverse_cons, app_assoc.
    assert (n - 1 = length (reverse (take (S (currentBucket w)) (ringBuckets w)) ++ reverse (drop (S (S (currentBucket w))) (ringBuckets w))))%nat as ->.
    { rewrite length_app, !length_reverse, length_take, length_drop. lia. }
    by rewrite take_app_length.
Qed.

Lemma recent_snapshot w : ringBuckets (snapshot sqrt w).2 = ringBuckets w ∧ currentBucket (snapshot sqrt w).2 = currentBucket w.
Proof. unfold snapshot. by destruct (dirty w), (lastSnapshot w). Qed.

Lemma recent_samples w : concat (recent w) ≡ₚ concat (ringBuckets w).
Proof.
  unfold recent. rewrite <- (take_drop (S (currentBucket w)) (ringBuckets w)) at 3. rewrite !concat_app.
  assert (∀ l : list (list Q), concat (reverse l) ≡ₚ concat l) as Hr.
  { induction l as [|x l IH]; [done|]. rewrite reverse_cons, concat_app. simpl. rewrite app_nil_r, IH. apply Permutation_app_comm. }
  by rewrite !Hr.
Qed.

(** Caches of the window are right. *)
Definition cached (w : Window.t) : Prop := dirty w = false → lastSnapshot w = Some (compute sqrt w).

Lemma snapshot_cached w : cached w → (snapshot sqrt w).1 = compute sqrt w ∧ cached (snapshot sqrt w).2.
Proof.
  intros Hc. unfold snapshot, cached in *. destruct (dirty w) eqn:Hd; [done|]. rewrite (Hc eq_refl). cbn. split; [done|].
  intros _. by apply Hc.
Qed.

End window.

(** The window forgets in time and not before: its samples are those observed since the
    [n]-th rotation from the end, if it has [n] buckets, and a snapshot, cached or not, is
    computed from exactly them. *)
Theorem window_recent sqrt qs n ops :
  (0 < n)%nat →
  let w := foldl (window_step sqrt) (Window.new qs n) ops in
  concat (Window.ringBuckets w) ≡ₚ concat (take n (foldl segment [[]] ops)) ∧
  (Window.snapshot sqrt w).1 = Window.compute sqrt w.
Proof.
  intros Hn w.
  assert (ring_ok n w ∧ recent w = take n (foldl segment [[]] ops ++ repeat [] n) ∧ cached sqrt w ∧ foldl segment [[]] ops ≠ []) as (Hr & Hs & Hc & _).
  { unfold w. clear w. induction ops as [|o ops IH] using rev_ind.
    - cbn [foldl]. split_and!; [|unfold recent, Window.new; cbn [Window.ringBuckets Window.currentBucket]|done|done].
      + split; [apply repeat_length|done].
      + destruct n as [|n]; [lia|]. cbn [repeat app take drop]. rewrite take_0, drop_0, reverse_singleton. cbn [app]. f_equal.
        change ([] :: repeat [] n) with (repeat (@nil Q) (S n)).
        assert (∀ k, reverse (repeat (@nil Q) k) = repeat [] k) as ->.
        { induction k as [|k IHk]; [done|]. cbn [repeat]. rewrite reverse_cons, IHk. symmetry. apply repeat_cons. }
        assert (∀ k l, take k (repeat (@nil Q) k ++ l) = repeat [] k) as Ht.
        { intros k l. rewrite <- (repeat_length (@nil Q) k) at 1. apply take_app_length. }
        assert (repeat (@nil Q) (S n) = repeat [] n ++ [[]]) as -> by apply repeat_cons. by rewrite Ht.
    - rewrite !foldl_app. cbn [foldl]. destruct IH as (Hr & Hs & Hc & Hne). set (w := foldl (window_step sqrt) _ ops) in *.
      set (segs := foldl segment [[]] ops) in *. destruct o as [v| |]; cbn [window_step segment].
      + destruct (recent_add n w v Hr) as [H1 H2]. split_and!; [done| |done|by destruct segs]. rewrite H2, Hs.
        destruct segs as [|s segs]; [done|]. destruct n; [lia|]. done.
      + destruct (recent_rotate n w Hr) as [H1 H2]. split_and!; [done| |done|done]. rewrite H2, Hs, take_take.
        destruct n as [|n]; [lia|]. cbn [app take]. f_equal. f_equal; lia.
      + destruct (recent_snapshot sqrt w) as [H1 H2]. destruct (snapshot_cached sqrt w Hc) as [_ H3].
        split_and!; [by unfold ring_ok; rewrite H1, H2| |done|done]. unfold recent. rewrite H1, H2. exact Hs. }
  split; [|by apply snapshot_cached]. rewrite <- recent_samples, Hs. rewrite take_app, concat_app.
  assert (∀ k, concat (take k (repeat (@nil Q) n)) = []) as ->; [|by rewrite app_nil_r].
  intros k. clear. revert n. induction k as [|k IH]; [done|]. intros [|n]; [done|]. simpl. apply IH.
Qed.

(** *** Quantiles *)

Definition count_if (p : Q → bool) (l : list Q) : nat := foldr (λ x n, if p x then S n else n) O l.

#[local] Instance count_if_perm p : Proper ((≡ₚ) ==> (=)) (count_if p).
Proof. intros l l'. induction 1 as [|x l l' _ IH|x y l|]; simpl; [done|by rewrite IH|by destruct (p x), (p y)|congruence]. Qed.

Lemma insert_asc_perm x l : insert_asc x l ≡ₚ x :: l.
Proof. induction l as [|y l IH]; [done|]. simpl. destruct (Qle_bool x y); [done|]. by rewrite IH, Permutation_swap. Qed.
Lemma sort_asc_perm l : sort_asc l ≡ₚ l.
Proof. induction l as [|x l IH]; [done|]. simpl. by rewrite insert_asc_perm, IH. Qed.

Lemma sort_asc_sorted l : StronglySorted Qle (sort_asc l).
Proof.
  assert (∀ x l, StronglySorted Qle l → StronglySorted Qle (insert_asc x l)) as Hi.
  { intros x l0 H. induction H as [|y l0 Hl IH Hy]; [repeat constructor|]. simpl. destruct (Qle_bool x y) eqn:E.
    - apply Qle_bool_iff in E. constructor; [by constructor|]. constructor; [done|]. eapply Forall_impl; [exact Hy|].
      intros z Hz. by eapply Qle_trans.
    - constructor; [done|]. rewrite insert_asc_perm. constructor; [|done].
      destruct (Qlt_le_dec y x) as [H|H]; [by apply Qlt_le_weak|]. apply Qle_bool_iff in H. congruence. }
  induction l as [|x l IH]; [constructor|]. by apply Hi.
Qed.

Lemma sorted_rank l i v : StronglySorted Qle l → l !! i = Some v →
  (S i ≤ count_if (λ x, Qle_bool x v) l)%nat ∧ (count_if (λ x, negb (Qle_bool v x)) l ≤ i)%nat.
Proof.
  intros Hl. revert i. induction Hl as [|x l Hl IH Hx]; intros i Hi; [done|]. destruct i as [|i]; simpl in Hi |- *.
  - injection Hi as ->. rewrite (proj2 (Qle_bool_iff v v)) by apply Qle_refl. cbn. split; [lia|].
    assert (count_if (λ x, negb (Qle_bool v x)) l = 0%nat) as ->; [|lia]. clear -Hx.
    induction Hx as [|y l Hy _ IH]; [done|]. simpl. by rewrite (proj2 (Qle_bool_iff v y)).
  - destruct (IH i Hi) as [H1 H2]. rewrite Forall_forall in Hx. assert (Qle x v) as Hxv by (apply Hx; by eapply list_elem_of_lookup_2).
    rewrite (proj2 (Qle_bool_iff x v)) by done. split; [lia|]. destruct (Qle_bool v x); simpl; lia.
Qed.

(** A quantile has its rank: of at least the part [q] of the samples none is larger than it,
    and less than that part is smaller. *)
Theorem quantile_rank samples q :
  samples ≠ [] → (0 < q)%Q → (q <= 1)%Q →
  ∃ v, Window.quantile (sort_asc samples) q = Some v ∧ v ∈ samples ∧
    (q * inject_Z (Z.of_nat (length samples)) <= inject_Z (Z.of_nat (count_if (λ x, Qle_bool x v) samples)))%Q ∧
    (inject_Z (Z.of_nat (count_if (λ x, negb (Qle_bool v x)) samples)) < q * inject_Z (Z.of_nat (length samples)))%Q.
Proof.
  intros Hne Hq0 Hq1. set (N := inject_Z (Z.of_nat (length samples))).
  assert (0 < length samples)%nat as Hlen by (destruct samples; [done|simpl; lia]).
  assert (0 < N)%Q as HN by (unfold N; change 0%Q with (inject_Z 0); rewrite <- Zlt_Qlt; lia).
  pose proof (Qle_ceiling (q * N)) as Hc1. pose proof (Qceiling_lt (q * N)) as Hc2.
  assert (0 < q * N)%Q as Hpos by by apply Qmult_lt_0_compat.
  assert (0 < Qceiling (q * N))%Z as Hk0 by (rewrite Zlt_Qlt; by eapply Qlt_le_trans).
  assert (Qceiling (q * N) ≤ Z.of_nat (length samples)) as Hk1.
  { rewrite <- (Qceiling_Z (Z.of_nat (length samples))). apply Qceiling_resp_le. fold N.
    rewrite <- (Qmult_1_l N) at 2. by apply Qmult_le_compat_r; [|apply Qlt_le_weak]. }
  set (i := Z.to_nat (Qceiling (q * N) - 1)).
  assert (length (sort_asc samples) = length samples) as Hls by by rewrite sort_asc_perm.
  destruct (lookup_lt_is_Some_2 (sort_asc samples) i) as [v Hv]; [lia|].
  exists v. destruct (sorted_rank _ _ _ (sort_asc_sorted samples) Hv) as [H1 H2]. rewrite !sort_asc_perm in H1, H2. split_and!.
  - unfold Window.quantile. rewrite Hls. fold N. destruct (Z.ltb_spec (Qceiling (q * N) - 1) 0); [lia|exact Hv].
  - rewrite <- (sort_asc_perm samples). by eapply list_elem_of_lookup_2.
  - eapply Qle_trans; [exact Hc1|]. rewrite <- Zle_Qle. lia.
  - eapply Qle_lt_trans; [|exact Hc2]. rewrite <- Zle_Qle. lia.
Qed.

Lemma quantile_rank_witness :
  let samples := [30; 10; 20; 40]%Q in
  Window.quantile (sort_asc samples) (1 # 2) = Some 20%Q ∧
  ∃ v, Window.quantile (sort_asc samples) (1 # 2) = Some v ∧ v ∈ samples.
Proof.
  intros samples. split; [vm_compute; reflexivity|].
  destruct (quantile_rank samples (1 # 2)) as (v & H1 & H2 & _); [done|reflexivity|discriminate|]. by exists v.
Defined.

Lemma window_recent_witness :
  let ops := [WAdd 1; WRotate; WAdd 2; WAdd 3; WSnapshot; WRotate; WAdd 4]%Q in
  concat (Window.ringBuckets (foldl (window_step (λ x, x)) (Window.new [] 2) ops)) ≡ₚ [4; 2; 3]%Q.
Proof. intros ops. destruct (window_recent (λ x, x) [] 2 ops) as [H _]; [lia|exact H]. Defined.

(** ** Histograms *)

Inductive hist_op :=
| HObserve (v : Q) (l : labels) (ts : option Z) (now : Z)
| HReset (l : labels) (ts : option Z) (now : Z)
| HResetAll (ts : option Z) (now : Z)
| HClear
| HRotate (h : string)
| HTick (h : string) (now : Z)
| HSnapshot.

(** Bounds of buckets that are different numbers *)
Fixpoint distinct (bs : list Q) : Prop :=
  match bs with [] => True | b :: bs => Forall (λ c, Qeq_bool c b = false) bs ∧ distinct bs end.

Section histogram.
Import Histogram.
Context (buckets : option (list Q)) (quantiles : option (list Q * nat)) (rate : bool) (sqrt : Q → Q).

Definition hist_step (m : Histogram.t) (o : hist_op) : Histogram.t :=
  match o with
  | HObserve v l ts now => observe buckets quantiles rate v l ts now m
  | HReset l ts now => reset buckets quantiles l ts now m
  | HResetAll ts now => resetAll buckets quantiles ts now m
  | HClear => Base.clear m
  | HRotate h => rotate h m
  | HTick h now => tick h now m
  | HSnapshot => (snapshot buckets sqrt m).2
  end.

(** What was observed with the key [h] since the last reset *)
Definition observed (names : list string) (h : string) (acc : list Q) (o : hist_op) : list Q :=
  match o with
  | HObserve v l _ _ => if String.eqb (Base.hashingLabels names l) h then acc ++ [v] else acc
  | HReset l _ _ => if String.eqb (Base.hashingLabels names l) h then [] else acc
  | HResetAll _ _ | HClear => []
  | HRotate _ | HTick _ _ | HSnapshot => acc
  end.

(** *** Buckets *)

Lemma Qeq_bool_trans3 a b c : Qeq_bool a b = true → Qeq_bool a c = Qeq_bool b c.
Proof. intros H%Qeq_bool_iff. apply eq_true_iff_eq. rewrite !Qeq_bool_iff. by rewrite H. Qed.

Lemma get_compat a b m : Qeq_bool a b = true → get a m = get b m.
Proof. intros H. induction m as [|[c k] m IH]; [done|]. simpl. by rewrite (Qeq_bool_trans3 a b c H), IH. Qed.

Lemma get_put b c n m : get c (put b n m) = if Qeq_bool b c then Some n else get c m.
Proof.
  induction m as [|[d k] m IH]; simpl; [by rewrite Qeq_bool_comm|]. destruct (Qeq_bool b d) eqn:E1; simpl.
  - rewrite (Qeq_bool_trans3 b d c E1), (Qeq_bool_comm c d). by destruct (Qeq_bool d c).
  - rewrite IH. destruct (Qeq_bool c d) eqn:E2; [|done].
    rewrite Qeq_bool_comm, (Qeq_bool_trans3 c d b E2), Qeq_bool_comm, E1. done.
Qed.

(** Filling an object from the bounds of the buckets *)
Lemma get_build (f : Q → Z) bs m b : (∀ c, Qeq_bool c b = true → f c = f b) →
  get b (foldl (λ m c, put c (f c) m) m bs) = if existsb (λ c, Qeq_bool c b) bs then Some (f b) else get b m.
Proof.
  intros Hf. revert m. induction bs as [|c bs IH]; intros m; [done|]. cbn [foldl existsb]. rewrite IH, get_put.
  destruct (Qeq_bool c b) eqn:E, (existsb _ bs); simpl; rewrite ?Hf by done; done.
Qed.

Lemma existsb_bound b bs : b ∈ bs → existsb (λ c, Qeq_bool c b) bs = true.
Proof. intros H. apply existsb_exists. exists b. split; [by apply list_elem_of_In|]. apply Qeq_bool_refl. Qed.

Lemma get_fill_other v bs m b : Forall (λ c, Qeq_bool c b = false) bs → get b (fill v bs m) = get b m.
Proof.
  unfold fill. revert m. induction bs as [|c bs IH]; intros m; [done|]. intros Hb. apply Forall_cons in Hb as [Hc Hb].
  cbn [foldl]. rewrite IH by done. destruct (Qle_bool v c); [|done]. by rewrite get_put, Hc.
Qed.

(** An observation is counted once in each bucket it fits. *)
Lemma get_fill v bs m b n : distinct bs → b ∈ bs → get b m = Some n →
  get b (fill v bs m) = Some (if Qle_bool v b then n + 1 else n).
Proof.
  revert m. induction bs as [|c bs IH]; intros m; [intros _ H; by apply not_elem_of_nil in H|].
  intros [Hc Hd] Hin Hn. 
  change (fill v (c :: bs) m) with (fill v bs (if Qle_bool v c then put c (default 0 (get c m) + 1) m else m)).
  apply elem_of_cons in Hin as [->|Hin].
  - rewrite get_fill_other by done. destruct (Qle_bool v c); [|done]. by rewrite get_put, Qeq_bool_refl, Hn.
  - apply IH; [done..|]. destruct (Qle_bool v c); [|done]. rewrite get_put.
    rewrite Forall_forall in Hc. specialize (Hc b Hin). by rewrite Qeq_bool_comm, Hc.
Qed.

(** *** Items *)

(** What an item or a snapshot of it says of the values observed *)
Definition tells (vs : list Q) (n : Z) (s : Q) (lv : option Q) (bk : option (list (Q * Z))) : Prop :=
  n = Z.of_nat (length vs) ∧ s = Metrics.sum vs ∧ lv = last vs ∧
  ∀ bs, buckets = Some bs → ∃ m, bk = Some m ∧ ∀ b, b ∈ bs → get b m = Some (Z.of_nat (count_if (λ v, Qle_bool v b) vs)).

Definition item_tells (vs : list Q) (x : item) : Prop := tells vs (count x) (sum x) (lastValue x) (bucketValues x).

Lemma reset_tells l r ts now : item_tells [] (resetItem buckets quantiles l r ts now).
Proof.
  split_and!; [done..|]. intros bs ->. eexists. split; [done|]. intros b Hb. unfold createBucketValues.
  by rewrite (get_build (λ _, 0)), existsb_bound.
Qed.

Lemma count_if_app p l l' : count_if p (l ++ l') = (count_if p l + count_if p l')%nat.
Proof. induction l as [|x l IH]; [done|]. simpl. rewrite IH. by destruct (p x). Qed.

Lemma observe_tells v ts now vs x : (∀ bs, buckets = Some bs → distinct bs) →
  item_tells vs x → item_tells (vs ++ [v]) (observe_item buckets v ts now x).
Proof.
  intros Hd (Hn & Hs & Hl & Hb). unfold item_tells, observe_item. cbn [count sum lastValue bucketValues]. split_and!.
  - rewrite Hn, length_app. cbn [length]. lia.
  - unfold Metrics.sum. rewrite foldl_app, Hs. done.
  - by rewrite last_snoc.
  - intros bs Hbs. destruct (Hb bs Hbs) as (m & -> & Hm). rewrite Hbs. eexists. split; [done|]. intros b Hin.
    rewrite (get_fill _ _ _ _ _ (Hd bs Hbs) Hin (Hm b Hin)), count_if_app. f_equal. cbn. destruct (Qle_bool v b); lia.
Qed.

Lemma show_tells h vs x : item_tells vs x →
  let s := (generateItemSnapshot buckets sqrt h x).1 in tells vs (s_count s) (s_sum s) (s_lastValue s) (s_buckets s).
Proof.
  intros (Hn & Hs & Hl & Hb). split_and!; [done..|]. intros bs Hbs. destruct (Hb bs Hbs) as (m & Hm & Hget).
  cbn. rewrite Hbs. eexists. split; [done|]. intros b Hin. rewrite Hm. cbn.
  rewrite (get_build (λ b, default 0 (get b m))), existsb_bound by
    (done || (intros c Hc; by rewrite (get_compat c b))). by rewrite (Hget b Hin).
Qed.

(** *** The metric *)

(** Each item tells what was observed with its key, and what is cached tells the same. *)
Definition hist_ok (told : string → list Q) (m : Histogram.t) : Prop :=
  OMap.wf (Base.values m) ∧
  (∀ h, match OMap.get h (Base.values m) with Some x => item_tells (told h) x | None => told h = [] end) ∧
  (Base.dirty m = false → ∃ s, Base.lastSnapshot m = Some s ∧
    Forall2 (λ a e, s_key a = e.1 ∧ tells (told e.1) (s_count a) (s_sum a) (s_lastValue a) (s_buckets a)) s (Base.values m)).

Lemma hist_ext told told' m : (∀ k, told' k = told k) → hist_ok told m → hist_ok told' m.
Proof.
  intros He (Hwf & Hi & Hc). split_and!; [done|intros k; rewrite He; apply Hi|]. intros Hd. destruct (Hc Hd) as (s & Hs & Hf).
  exists s. split; [done|]. eapply Forall2_impl; [exact Hf|]. intros a e. by rewrite He.
Qed.

Lemma hist_set told told' m h x d :
  hist_ok told m → item_tells (told' h) x → (∀ k, k ≠ h → told' k = told k) →
  (d = false → Base.dirty m = false ∧ told' h = told h ∧ is_Some (OMap.get h (Base.values m))) →
  ∀ n ns rs, hist_ok told' (Base.Metric n ns (OMap.set h x (Base.values m)) d (Base.lastSnapshot m) rs).
Proof.
  intros (Hwf & Hi & Hc) Hx Ht Hd n ns rs. split_and!; cbn [Base.values Base.dirty Base.lastSnapshot].
  - by apply OMap.wf_set.
  - intros k. destruct (decide (h = k)) as [<-|Hne]; [by rewrite OMap.get_set_eq|].
    rewrite OMap.get_set_ne, Ht by done. apply Hi.
  - intros ->. destruct Hd as (H1 & H2 & y & Hy); [done|]. destruct (Hc H1) as (s & Hs & Hf). exists s. split; [done|].
    assert (∀ k, told' k = told k) as Hall by (intros k; destruct (decide (k = h)) as [->|]; auto).
    eapply (Forall2_set _ h y); [|done|by cbn]. eapply Forall2_impl; [exact Hf|]. cbn. intros a e. by rewrite Hall.
Qed.

Lemma hist_map told' (m : Histogram.t) (f : item → item) s d :
  OMap.wf (Base.values m) →
  (∀ h x, OMap.get h (Base.values m) = Some x → item_tells (told' h) (f x)) →
  (∀ h, OMap.get h (Base.values m) = None → told' h = []) →
  (d = false → ∃ l, s = Some l ∧
    Forall2 (λ a e, s_key a = e.1 ∧ tells (told' e.1) (s_count a) (s_sum a) (s_lastValue a) (s_buckets a)) l
      (map (λ '(h, x), (h, f x)) (Base.values m))) →
  ∀ rs, hist_ok told' (Base.Metric (Base.name m) (Base.labelNames m) (map (λ '(h, x), (h, f x)) (Base.values m)) d s rs).
Proof.
  intros Hwf H1 H2 H3 rs. split_and!; cbn [Base.values Base.dirty Base.lastSnapshot]; [| |done].
  - unfold OMap.wf, OMap.keys in *. rewrite map_map. erewrite map_ext; [exact Hwf|]. by intros [].
  - intros h. rewrite get_map_snd. destruct (OMap.get h (Base.values m)) eqn:E; [by apply H1|by apply H2].
Qed.

(** What was observed with a key *)
Definition told_by (names : list string) (ops : list hist_op) (h : string) : list Q := foldl (observed names h) [] ops.

Lemma hist_snapshot told m : hist_ok told m → hist_ok told (snapshot buckets sqrt m).2 ∧
  Forall2 (λ a e, s_key a = e.1 ∧ tells (told e.1) (s_count a) (s_sum a) (s_lastValue a) (s_buckets a))
    (snapshot buckets sqrt m).1 (Base.values (snapshot buckets sqrt m).2) ∧
  OMap.keys (Base.values (snapshot buckets sqrt m).2) = OMap.keys (Base.values m).
Proof.
  intros (Hwf & Hi & Hc).
  set (f x := set_window (snd <$> (Window.snapshot sqrt <$> quantileValues x)) x).
  assert (∀ vs, (∀ h x, (h, x) ∈ vs → item_tells (told h) x) →
    Forall2 (λ a e, s_key a = e.1 ∧ tells (told e.1) (s_count a) (s_sum a) (s_lastValue a) (s_buckets a))
      (map (λ '(h, x), (generateItemSnapshot buckets sqrt h x).1) vs) (map (λ '(h, x), (h, f x)) vs)) as Hnew.
  { induction vs as [|[h x] vs IH]; intros Hvs; [constructor|]. cbn [map]. constructor.
    - split; [done|]. apply show_tells, Hvs. by left.
    - apply IH. intros k y Hy. apply Hvs. by right. }
  assert (∀ h x, (h, x) ∈ Base.values m → item_tells (told h) x) as Helem.
  { intros h x Hx. apply OMap.elem_get in Hx; [|done]. specialize (Hi h). by rewrite Hx in Hi. }
  assert (∀ rs, let m' := Base.Metric (Base.name m) (Base.labelNames m) (map (λ '(h, x), (h, f x)) (Base.values m)) false
    (Some (map (λ '(h, x), (generateItemSnapshot buckets sqrt h x).1) (Base.values m))) rs in hist_ok told m') as Hfull.
  { intros rs. apply hist_map; [done| | |].
    - intros h x Hx. specialize (Hi h). rewrite Hx in Hi. exact Hi.
    - intros h Hx. specialize (Hi h). by rewrite Hx in Hi.
    - intros _. eexists. split; [done|]. by apply Hnew. }
  unfold snapshot, Base.snapshot. destruct (Base.dirty m) eqn:Hd.
  - unfold generateSnapshot. cbn [fst snd Base.values]. split_and!; [apply Hfull|by apply Hnew|].
    unfold OMap.keys. rewrite map_map. apply map_ext. by intros [].
  - destruct (Hc eq_refl) as (s & Hs & Hf). rewrite Hs. cbn [fst snd]. split_and!; [|done|done].
    split_and!; [done..|]. rewrite Hs. eauto.
Qed.

Lemma hist_step_ok names ops o : (∀ bs, buckets = Some bs → distinct bs) →
  ∀ m, Base.labelNames m = names → hist_ok (told_by names ops) m →
  hist_ok (told_by names (ops ++ [o])) (hist_step m o) ∧ Base.labelNames (hist_step m o) = names.
Proof.
  intros Hdist m <- Hok. pose proof Hok as (Hwf & Hi & Hc).
  assert (∀ h, told_by (Base.labelNames m) (ops ++ [o]) h = observed (Base.labelNames m) h (told_by (Base.labelNames m) ops h) o) as Htold
    by (intros h; unfold told_by; by rewrite foldl_app).
  destruct o as [v l ts now|l ts now|ts now| |h|h now|]; cbn [hist_step observed] in *.
  - split; [|done]. eapply (hist_set _ _ m); [exact Hok| | |done].
    + rewrite Htold. unfold Base.hash. rewrite String.eqb_refl. apply observe_tells; [done|]. specialize (Hi (Base.hash m l)).
      unfold Base.hash in Hi. destruct (OMap.get _ _); [done|]. rewrite Hi. apply reset_tells.
    + intros k Hk. rewrite Htold. destruct (String.eqb_spec (Base.hashingLabels (Base.labelNames m) l) k); [|done]. by destruct Hk.
  - unfold reset. pose proof (Hi (Base.hash m l)) as Hx. destruct (OMap.get (Base.hash m l) _) as [x|] eqn:E; (split; [|done]).
    + eapply (hist_set _ _ m); [exact Hok| | |done].
      * rewrite Htold. unfold Base.hash. rewrite String.eqb_refl. apply reset_tells.
      * intros k Hk. rewrite Htold. destruct (String.eqb_spec (Base.hashingLabels (Base.labelNames m) l) k); [|done]. by destruct Hk.
    + eapply hist_ext; [|exact Hok]. intros k. rewrite Htold.
      destruct (String.eqb_spec (Base.hashingLabels (Base.labelNames m) l) k) as [<-|]; [|done]. by rewrite <- Hx.
  - split; [|done]. apply (hist_map _ (Base.set_values (Base.values m) m) (λ x, resetItem buckets quantiles (i_labels x) (i_rate x) ts now)); [done| |by intros; rewrite Htold|done].
    intros h x _. rewrite Htold. apply reset_tells.
  - split; [|done]. split_and!; [constructor|by intros; cbn; rewrite Htold|done].
  - unfold rotate. pose proof (Hi h) as Hx. destruct (OMap.get h _) as [x|] eqn:E; [|split; [by eapply hist_ext|done]].
    destruct (quantileValues x) as [w|]; [|split; [by eapply hist_ext|done]]. split; [|done].
    eapply (hist_set _ _ m); [exact Hok| |by intros; rewrite Htold|done]. rewrite Htold. exact Hx.
  - unfold tick. pose proof (Hi h) as Hx. destruct (OMap.get h _) as [x|] eqn:E; [|split; [by eapply hist_ext|done]].
    destruct (i_rate x) as [r|]; [|split; [by eapply hist_ext|done]]. destruct (Rate.tick now r) as [r' ch]. destruct ch; (split; [|done]).
    + eapply (hist_set _ _ m); [exact Hok| |by intros; rewrite Htold|done]. rewrite Htold. exact Hx.
    + eapply (hist_set _ _ m); [exact Hok| |by intros; rewrite Htold|]. { rewrite Htold. exact Hx. }
      intros Hd. split_and!; [done|by rewrite Htold|by rewrite E].
  - destruct (hist_snapshot _ m Hok) as (H & _ & _). split; [|unfold snapshot, Base.snapshot, generateSnapshot; by destruct (Base.dirty m), (Base.lastSnapshot m)].
    by eapply hist_ext.
Qed.

End histogram.

(** Histograms lose nothing: whatever was done before, a snapshot, cached or not, tells for each
    combination of labels with an observation since the last reset, how many there were, their
    sum, the last one, and for every bucket how many of them fit. *)
Theorem histogram_counts buckets quantiles rate sqrt n names ops :
  (∀ bs, buckets = Some bs → distinct bs) →
  let shown := (Histogram.snapshot buckets sqrt (foldl (hist_step buckets quantiles rate sqrt) (Base.new n names) ops)).1 in
  (∀ l, told_by names ops (Base.hashingLabels names l) ≠ [] →
    ∃ s, s ∈ shown ∧ Histogram.s_key s = Base.hashingLabels names l) ∧
  (∀ s, s ∈ shown →
    let vs := told_by names ops (Histogram.s_key s) in
    Histogram.s_count s = Z.of_nat (length vs) ∧
    Histogram.s_sum s = sum vs ∧
    Histogram.s_lastValue s = last vs ∧
    ∀ bs, buckets = Some bs → ∃ m, Histogram.s_buckets s = Some m ∧
      ∀ b, b ∈ bs → Histogram.get b m = Some (Z.of_nat (count_if (λ v, Qle_bool v b) vs))).
Proof.
  intros Hd. set (m := foldl _ _ ops).
  assert (hist_ok buckets (told_by names ops) m ∧ Base.labelNames m = names) as [Hok _].
  { unfold m. clear m. induction ops as [|o ops [IH Hn]] using rev_ind; [by split; [split; [constructor|]|]|].
    rewrite foldl_app. by apply hist_step_ok. }
  destruct (hist_snapshot buckets sqrt _ m Hok) as ((_ & Hi & _) & Hf & Hk). intros shown. split.
  - intros l Hl. specialize (Hi (Base.hashingLabels names l)). destruct (OMap.get _ _) as [x|] eqn:Hx in Hi; [|by destruct Hl].
    apply OMap.get_Some_elem in Hx. apply list_elem_of_lookup_1 in Hx as [i Hx].
    destruct (Forall2_lookup_r _ _ _ _ _ Hf Hx) as (s & Hs & Hsk & _). exists s. split; [by eapply list_elem_of_lookup_2|exact Hsk].
  - intros s Hs. apply list_elem_of_lookup_1 in Hs as [i Hs].
    destruct (Forall2_lookup_l _ _ _ _ _ Hf Hs) as ([h x] & Hx & Hsk & Ht). rewrite Hsk. exact Ht.
Qed.

Lemma histogram_counts_witness :
  let buckets := Some [10; 100]%Q in
  let ops := [HObserve 5 None None 0; HObserve 50 None None 1; HSnapshot; HObserve 500 None None 2]%Q in
  let shown := (Histogram.snapshot buckets (λ x, x) (foldl (hist_step buckets None false (λ x, x)) (Base.new "time" []) ops)).1 in
  map Histogram.s_key shown = [""]%string ∧
  ∀ s, s ∈ shown → Histogram.s_count s = 3.
Proof.
  intros buckets ops shown. split; [reflexivity|]. intros s Hs.
  assert (∀ bs, buckets = Some bs → distinct bs) as Hd by (intros bs [= <-]; repeat constructor).
  destruct (histogram_counts buckets None false (λ x, x) "time" [] ops Hd) as [_ H].
  destruct (H s Hs) as [H1 _]. rewrite H1. assert (Histogram.s_key s = ""%string) as ->; [|reflexivity].
  vm_compute in Hs. apply list_elem_of_singleton in Hs. by rewrite Hs.
Defined.
