(* ===== verification/MetricsMiddleware.v ===== *)
(** * The metrics middleware: [middlewares/metrics.js]

    Counting requests, events, packets and bytes in the store of metrics.  [created] registers
    the metrics; [started] and [ended] are what the wrapped handler of an action does
    before and after it calls the next handler, [event_started] and [event_ended] the same for
    events; the other operations are the wrappers of the broker's and transit's
    methods.  The theorem [requests_counted] says what the metrics of requests show
    after any interleaving of requests. *)

From stdpp Require Import base tactics list strings option pretty sets.
From Stdlib Require Import ZArith QArith Lia Lqa.
From S2P Require Import Prelude Utils JsonText Metrics MetricsTheorems.

Open Scope Z_scope.

Module MetricsMiddleware.
Import MetricRegistry.

(** ** Names *)

Definition MOLECULER_REQUEST_TOTAL := "moleculer.request.total"%string.
Definition MOLECULER_REQUEST_ACTIVE := "moleculer.request.active"%string.
Definition MOLECULER_REQUEST_ERROR_TOTAL := "moleculer.request.error.total"%string.
Definition MOLECULER_REQUEST_TIME := "moleculer.request.time"%string.
Definition MOLECULER_REQUEST_LEVELS := "moleculer.request.levels"%string.
Definition MOLECULER_EVENT_EMIT_TOTAL := "moleculer.event.emit.total"%string.
Definition MOLECULER_EVENT_BROADCAST_TOTAL := "moleculer.event.broadcast.total"%string.
Definition MOLECULER_EVENT_BROADCASTLOCAL_TOTAL := "moleculer.event.broadcast-local.total"%string.
Definition MOLECULER_EVENT_RECEIVED_TOTAL := "moleculer.event.received.total"%string.
Definition MOLECULER_EVENT_RECEIVED_ACTIVE := "moleculer.event.received.active"%string.
Definition MOLECULER_EVENT_RECEIVED_ERROR_TOTAL := "moleculer.event.received.error.total"%string.
Definition MOLECULER_EVENT_RECEIVED_TIME := "moleculer.event.received.time"%string.
Definition MOLECULER_TRANSIT_PUBLISH_TOTAL := "moleculer.transit.publish.total"%string.
Definition MOLECULER_TRANSIT_RECEIVE_TOTAL := "moleculer.transit.receive.total"%string.
Definition MOLECULER_TRANSIT_REQUESTS_ACTIVE := "moleculer.transit.requests.active"%string.
Definition MOLECULER_TRANSIT_STREAMS_SEND_ACTIVE := "moleculer.transit.streams.send.active"%string.
Definition MOLECULER_TRANSPORTER_PACKETS_SENT_TOTAL := "moleculer.transporter.packets.sent.total"%string.
Definition MOLECULER_TRANSPORTER_PACKETS_SENT_BYTES := "moleculer.transporter.packets.sent.bytes"%string.
Definition MOLECULER_TRANSPORTER_PACKETS_RECEIVED_TOTAL := "moleculer.transporter.packets.received.total"%string.
Definition MOLECULER_TRANSPORTER_PACKETS_RECEIVED_BYTES := "moleculer.transporter.packets.received.bytes"%string.

(** ** Registration *)

(** Steps that may throw, one after the other *)
Definition and_then (a : answer) (f : MetricRegistry.t → answer) : answer := match a with Ok r => f r | x => x end.
Fixpoint all (fs : list (MetricRegistry.t → answer)) (r : MetricRegistry.t) : answer :=
  match fs with [] => Ok r | f :: fs => and_then (f r) (all fs) end.

Section middleware.
(** The options of the registry: default buckets, quantiles and the number of age buckets *)
Context (defaultBuckets defaultQuantiles : list Q) (ageBuckets : nat) (loosely_equal : json → json → bool).

Definition counter (name : string) (labels : list string) (rate : bool) : opts := Opts "counter" name labels rate None None.
Definition gauge (name : string) (labels : list string) : opts := Opts "gauge" name labels false None None.
Definition histogram (name : string) (labels : list string) : opts :=
  Opts "histogram" name labels true (Some defaultBuckets) (Some (defaultQuantiles, ageBuckets)).

Definition request_names : list string := ["service"; "action"; "type"; "caller"]%string.
Definition event_names : list string := ["service"; "group"; "event"; "caller"]%string.
Definition error_names : list string := ["errorName"; "errorCode"; "errorType"]%string.

Definition definitions : list opts := [
  counter MOLECULER_REQUEST_TOTAL request_names true;
  gauge MOLECULER_REQUEST_ACTIVE request_names;
  counter MOLECULER_REQUEST_ERROR_TOTAL (request_names ++ error_names) true;
  histogram MOLECULER_REQUEST_TIME request_names;
  counter MOLECULER_REQUEST_LEVELS ["level"]%string false;
  counter MOLECULER_EVENT_EMIT_TOTAL ["event"; "groups"]%string true;
  counter MOLECULER_EVENT_BROADCAST_TOTAL ["event"; "groups"]%string true;
  counter MOLECULER_EVENT_BROADCASTLOCAL_TOTAL ["event"; "groups"]%string true;
  counter MOLECULER_EVENT_RECEIVED_TOTAL event_names true;
  gauge MOLECULER_EVENT_RECEIVED_ACTIVE event_names;
  counter MOLECULER_EVENT_RECEIVED_ERROR_TOTAL (event_names ++ error_names) true;
  histogram MOLECULER_EVENT_RECEIVED_TIME event_names;
  counter MOLECULER_TRANSIT_PUBLISH_TOTAL ["type"]%string true;
  counter MOLECULER_TRANSIT_RECEIVE_TOTAL ["type"]%string true;
  gauge MOLECULER_TRANSIT_REQUESTS_ACTIVE [];
  gauge MOLECULER_TRANSIT_STREAMS_SEND_ACTIVE [];
  counter MOLECULER_TRANSPORTER_PACKETS_SENT_TOTAL [] true;
  counter MOLECULER_TRANSPORTER_PACKETS_SENT_BYTES [] true;
  counter MOLECULER_TRANSPORTER_PACKETS_RECEIVED_TOTAL [] true;
  counter MOLECULER_TRANSPORTER_PACKETS_RECEIVED_BYTES [] true].

(** [created()]: if metrics are enabled, all are registered. *)
Definition created (r : MetricRegistry.t) : answer := if enabled r then all (map register definitions) r else Ok r.

(** ** Requests *)

(** What the labels of a request are made of: [service] is the full name of the action's
    service, [type] local or remote. *)
Record request := Request {
  r_service : option string;
  r_action : string;
  r_caller : option string;
  r_type : string
}.

Definition or_null (s : option string) : json := match s with Some s => JStr s | None => JNull end.
Definition request_labels (q : request) : OMap.t json :=
  [("service", or_null (r_service q)); ("action", JStr (r_action q)); ("caller", or_null (r_caller q));
   ("type", JStr (r_type q))]%string.

(** Name, code and type of an error *)
Record error_info := ErrorInfo { err_name : json; err_code : json; err_type : json }.
Definition error_labels (e : error_info) : OMap.t json :=
  [("errorName", err_name e); ("errorCode", err_code e); ("errorType", err_type e)]%string.

Definition inc (name : string) (l : labels) (now : Z) : MetricRegistry.t → answer := increment name l 1 None now.
Definition dec (name : string) (l : labels) (now : Z) : MetricRegistry.t → answer := decrement name l 1 None now.
Definition inc_by (name : string) (v : Z) (now : Z) : MetricRegistry.t → answer := increment name None (inject_Z v) None now.

(** [metricsMiddleware(ctx)] of an action up to the next handler *)
Definition started (q : request) (level now : Z) : MetricRegistry.t → answer :=
  all [inc MOLECULER_REQUEST_TOTAL (Some (request_labels q)) now;
       inc MOLECULER_REQUEST_ACTIVE (Some (request_labels q)) now;
       inc MOLECULER_REQUEST_LEVELS
         (Some [("service", or_null (r_service q)); ("action", JStr (r_action q)); ("caller", or_null (r_caller q));
                ("level", JNum level)]%string) now].

(** After the next handler: [duration] is the time of the timer. *)
Definition ended (q : request) (e : option error_info) (duration : Q) (now : Z) : MetricRegistry.t → answer :=
  all ([timer_end MOLECULER_REQUEST_TIME duration (Some (request_labels q)) None now;
        dec MOLECULER_REQUEST_ACTIVE (Some (request_labels q)) now] ++
       match e with
       | Some e => [inc MOLECULER_REQUEST_ERROR_TOTAL (Some (request_labels q ++ error_labels e)) now]
       | None => []
       end).

(** ** Events *)

(** [group] is the group of the subscription or the name of the service. *)
Record event := Event {
  ev_service : option string;
  ev_name : string;
  ev_group : option string;
  ev_caller : option string
}.
Definition event_labels (e : event) : OMap.t json :=
  [("service", or_null (ev_service e)); ("event", JStr (ev_name e)); ("group", or_null (ev_group e));
   ("caller", or_null (ev_caller e))]%string.

Definition event_started (q : event) (now : Z) : MetricRegistry.t → answer :=
  all [inc MOLECULER_EVENT_RECEIVED_TOTAL (Some (event_labels q)) now;
       inc MOLECULER_EVENT_RECEIVED_ACTIVE (Some (event_labels q)) now].
Definition event_ended (q : event) (e : option error_info) (duration : Q) (now : Z) : MetricRegistry.t → answer :=
  all ([timer_end MOLECULER_EVENT_RECEIVED_TIME duration (Some (event_labels q)) None now;
        dec MOLECULER_EVENT_RECEIVED_ACTIVE (Some (event_labels q)) now] ++
       match e with
       | Some e => [inc MOLECULER_EVENT_RECEIVED_ERROR_TOTAL (Some (event_labels q ++ error_labels e)) now]
       | None => []
       end).

(** [emit], [broadcast], [broadcastLocal] before the next method *)
Definition emit (event : string) : Z → MetricRegistry.t → answer :=
  inc MOLECULER_EVENT_EMIT_TOTAL (Some [("event", JStr event)]%string).
Definition broadcast (event : string) : Z → MetricRegistry.t → answer :=
  inc MOLECULER_EVENT_BROADCAST_TOTAL (Some [("event", JStr event)]%string).
Definition broadcastLocal (event : string) : Z → MetricRegistry.t → answer :=
  inc MOLECULER_EVENT_BROADCASTLOCAL_TOTAL (Some [("event", JStr event)]%string).

(** ** Packets *)

(** [transitPublish]: [requests], [reqStreams] and [resStreams] are the numbers of entries that
    the transit has when the next method returns. *)
Definition transitPublish (type : string) (requests reqStreams resStreams now : Z) : MetricRegistry.t → answer :=
  all [inc MOLECULER_TRANSIT_PUBLISH_TOTAL (Some [("type", JStr type)]%string) now;
       inc_by MOLECULER_TRANSIT_REQUESTS_ACTIVE requests now;
       inc_by MOLECULER_TRANSIT_STREAMS_SEND_ACTIVE (reqStreams + resStreams) now].

(** [transitMessageHandler], [transporterSend] and [transporterReceive] *)
Definition transitMessageHandler (cmd : string) : Z → MetricRegistry.t → answer :=
  inc MOLECULER_TRANSIT_RECEIVE_TOTAL (Some [("type", JStr cmd)]%string).
Definition transporterSend (bytes now : Z) : MetricRegistry.t → answer :=
  all [inc MOLECULER_TRANSPORTER_PACKETS_SENT_TOTAL None now; inc_by MOLECULER_TRANSPORTER_PACKETS_SENT_BYTES bytes now].
Definition transporterReceive (bytes now : Z) : MetricRegistry.t → answer :=
  all [inc MOLECULER_TRANSPORTER_PACKETS_RECEIVED_TOTAL None now; inc_by MOLECULER_TRANSPORTER_PACKETS_RECEIVED_BYTES bytes now].

End middleware.
End MetricsMiddleware.

(** ** What the metrics of requests show *)

Import MetricRegistry MetricsMiddleware.

(** What happens to requests: they start and end, in any order. *)
Inductive request_op :=
| Start (q : request) (level now : Z)
| End (q : request) (e : option error_info) (duration : Q) (now : Z).

(** The current number of a metric for some labels: its value, or how many observations it has *)
Definition count_at (h : string) (m : Histogram.t) : Z :=
  match OMap.get h (Base.values m) with Some x => Histogram.count x | None => 0 end.
Definition shows (name : string) (l : labels) (r : MetricRegistry.t) : option Q :=
  match OMap.get name (store r) with
  | Some (Counter _ m) | Some (GaugeM _ m) => Some (Gauge.current l m)
  | Some (HistogramM _ m) => Some (inject_Z (count_at (Base.hash m l) m))
  | _ => None
  end.

Definition number {A} (p : A → bool) (l : list A) : Q := inject_Z (Z.of_nat (count_occ Bool.bool_dec (map p l) true)).

Lemma number_snoc {A} (p : A → bool) l x : (number p (l ++ [x]) == number p l + if p x then 1 else 0)%Q.
Proof.
  unfold number. rewrite map_app, count_occ_app. cbn [map count_occ]. destruct (p x); cbn [Bool.bool_dec].
  - destruct (Bool.bool_dec true true); [|done]. rewrite Nat2Z.inj_add, inject_Z_plus. reflexivity.
  - destruct (Bool.bool_dec false true); [done|]. rewrite Nat.add_0_r. ring.
Qed.

Section requests.
Context (defaultBuckets defaultQuantiles : list Q) (ageBuckets : nat).

Definition request_step (o : request_op) : MetricRegistry.t → answer :=
  match o with
  | Start q level now => started q level now
  | End q e duration now => ended q e duration now
  end.

(** The keys of a request and of its error *)
Definition key (q : request) : string := Base.hashingLabels request_names (Some (request_labels q)).
Definition error_key (q : request) (e : error_info) : string :=
  Base.hashingLabels (request_names ++ error_names) (Some (request_labels q ++ error_labels e)).

Definition starts (k : string) (o : request_op) : bool := match o with Start q _ _ => String.eqb (key q) k | _ => false end.
Definition ends (k : string) (o : request_op) : bool := match o with End q _ _ _ => String.eqb (key q) k | _ => false end.
Definition fails (k : string) (o : request_op) : bool :=
  match o with End q (Some e) _ _ => String.eqb (error_key q e) k | _ => false end.

(** *** One metric in the store *)

Definition has_gauge (r : MetricRegistry.t) (name : string) (c : bool) (names : list string) (v : string → Q) : Prop :=
  ∃ rate m, OMap.get name (store r) = Some (if c then Counter rate m else GaugeM rate m) ∧ Base.labelNames m = names ∧
    ∀ h, (value_at h m == v h)%Q.
Definition has_histogram (r : MetricRegistry.t) (name : string) (names : list string) (v : string → Q) : Prop :=
  ∃ o m, OMap.get name (store r) = Some (HistogramM o m) ∧ Base.labelNames m = names ∧
    ∀ h, (inject_Z (count_at h m) == v h)%Q.

(** The registry is enabled and the other metrics stay as they are. *)
Definition changes (name : string) (r r' : MetricRegistry.t) : Prop :=
  enabled r' = true ∧ ∀ n, n ≠ name → OMap.get n (store r') = OMap.get n (store r).

Definition added (names : list string) (l : labels) (x : Q) (v : string → Q) (h : string) : Q :=
  if String.eqb (Base.hashingLabels names l) h then (v h + x)%Q else v h.

Lemma inc_gauge r name c names v l x now : enabled r = true → has_gauge r name c names v →
  ∃ r', increment name l x None now r = Ok r' ∧ changes name r r' ∧ has_gauge r' name c names (added names l x v).
Proof.
  intros He (rate & m & Hm & Hn & Hv).
  assert (∀ h, value_at h (Gauge.increment rate l (Some x) None now m) == added names l x v h)%Q as Hv'.
  { intros h. unfold Gauge.increment. cbn [default]. destruct (value_set rate h (Gauge.current l m + x)%Q l None now m) as [H1 _].
    rewrite H1. unfold added, Base.hash. rewrite Hn. destruct (String.eqb_spec (Base.hashingLabels names l) h) as [<-|]; [|apply Hv].
    unfold Gauge.current, Base.get, Base.hash. rewrite Hn. fold (value_at (Base.hashingLabels names l) m). by rewrite Hv. }
  assert (Base.labelNames (Gauge.increment rate l (Some x) None now m) = names) as Hn'.
  { unfold Gauge.increment. by destruct (value_set rate "" (Gauge.current l m + default 1 (Some x))%Q l None now m) as [_ ->]. }
  unfold increment, on_metric. rewrite He, Hm. destruct c; eexists; (split; [reflexivity|]); (split; [split; [done|]|]).
  1, 3: intros n Hne; cbn [store]; by rewrite OMap.get_set_ne.
  all: exists rate, (Gauge.increment rate l (Some x) None now m); cbn [store]; by rewrite OMap.get_set_eq.
Qed.

Lemma dec_gauge r name names v l now : enabled r = true → has_gauge r name false names v →
  ∃ r', dec name l now r = Ok r' ∧ changes name r r' ∧ has_gauge r' name false names (added names l (-(1)) v).
Proof.
  intros He (rate & m & Hm & Hn & Hv). unfold dec, decrement, on_metric. rewrite He, Hm. eexists. split; [reflexivity|]. split; [split; [done|]|].
  { intros n Hne. cbn [store]. by rewrite OMap.get_set_ne. }
  exists rate, (Gauge.decrement rate l (Some 1%Q) None now m). cbn [store]. rewrite OMap.get_set_eq. split; [done|]. unfold Gauge.decrement. change (default 1%Q (Some 1%Q)) with 1%Q.
  split; [by destruct (value_set rate "" (Gauge.current l m - 1)%Q l None now m) as [_ ->]|]. intros h.
  destruct (value_set rate h (Gauge.current l m - 1)%Q l None now m) as [H1 _]. rewrite H1. unfold added, Base.hash. rewrite Hn.
  destruct (String.eqb_spec (Base.hashingLabels names l) h) as [<-|]; [|apply Hv].
  unfold Gauge.current, Base.get, Base.hash. rewrite Hn. fold (value_at (Base.hashingLabels names l) m). rewrite Hv. ring.
Qed.

Lemma time_histogram r name names v l x now : enabled r = true → has_histogram r name names v →
  ∃ r', timer_end name x l None now r = Ok r' ∧ changes name r r' ∧ has_histogram r' name names (added names l 1 v).
Proof.
  intros He (o & m & Hm & Hn & Hv). unfold timer_end, on_metric. rewrite He, Hm. eexists. split; [reflexivity|]. split; [split; [done|]|].
  { intros n Hne. cbn [store]. by rewrite OMap.get_set_ne. }
  eexists o, _. cbn [store]. rewrite OMap.get_set_eq. split; [reflexivity|]. split; [done|]. intros h. specialize (Hv h).
  unfold count_at, Histogram.observe, Base.changed, Base.set_values, added, Base.hash in *. cbn [Base.values]. rewrite Hn.
  destruct (String.eqb_spec (Base.hashingLabels names l) h) as [<-|Hne].
  - rewrite OMap.get_set_eq. unfold Histogram.observe_item. cbn [Histogram.count]. rewrite inject_Z_plus. rewrite <- Hv.
    destruct (OMap.get _ (Base.values m)); reflexivity.
  - by rewrite OMap.get_set_ne.
Qed.

Lemma has_gauge_frame r r' name n c names v : changes n r r' → name ≠ n → has_gauge r name c names v → has_gauge r' name c names v.
Proof. intros [_ H] Hne (rate & m & Hm & ?). exists rate, m. by rewrite H. Qed.
Lemma has_histogram_frame r r' name n names v : changes n r r' → name ≠ n → has_histogram r name names v → has_histogram r' name names v.
Proof. intros [_ H] Hne (o & m & Hm & ?). exists o, m. by rewrite H. Qed.
Lemma has_gauge_proper r name c names v v' : (∀ h, v h == v' h)%Q → has_gauge r name c names v → has_gauge r name c names v'.
Proof. intros H (rate & m & ? & ? & Hv). exists rate, m. split_and!; [done..|]. intros h. by rewrite Hv. Qed.
Lemma has_histogram_proper r name names v v' : (∀ h, v h == v' h)%Q → has_histogram r name names v → has_histogram r name names v'.
Proof. intros H (o & m & ? & ? & Hv). exists o, m. split_and!; [done..|]. intros h. by rewrite Hv. Qed.

(** *** All metrics of requests *)

Definition counted (ops : list request_op) (r : MetricRegistry.t) : Prop :=
  enabled r = true ∧
  has_gauge r MOLECULER_REQUEST_TOTAL true request_names (λ h, number (starts h) ops) ∧
  has_gauge r MOLECULER_REQUEST_ACTIVE false request_names (λ h, number (starts h) ops - number (ends h) ops)%Q ∧
  has_gauge r MOLECULER_REQUEST_ERROR_TOTAL true (request_names ++ error_names) (λ h, number (fails h) ops) ∧
  has_histogram r MOLECULER_REQUEST_TIME request_names (λ h, number (ends h) ops) ∧
  ∃ v, has_gauge r MOLECULER_REQUEST_LEVELS true ["level"]%string v.

Local Ltac keep H := first
  [ eapply has_gauge_frame; [exact H|discriminate|]; keep H
  | eapply has_histogram_frame; [exact H|discriminate|]; keep H
  | idtac ].

Lemma counted_created : ∃ r, created defaultBuckets defaultQuantiles ageBuckets (Registry true []) = Ok r ∧ counted [] r.
Proof.
  eexists. split; [reflexivity|]. split; [reflexivity|]. split_and!.
  1-3: eexists _, _; split; [reflexivity|]; split; [reflexivity|]; intros h; reflexivity.
  - eexists _, _; split; [reflexivity|]; split; [reflexivity|]; intros h; reflexivity.
  - exists (λ _, 0%Q). eexists _, _; split; [reflexivity|]; split; [reflexivity|]; intros h; reflexivity.
Qed.

(** The metrics after one more operation, if each has changed as it should *)
Lemma counted_snoc ops o r t a e tm lv : enabled r = true →
  has_gauge r MOLECULER_REQUEST_TOTAL true request_names t → (∀ h, t h == number (starts h) (ops ++ [o]))%Q →
  has_gauge r MOLECULER_REQUEST_ACTIVE false request_names a →
  (∀ h, a h == number (starts h) (ops ++ [o]) - number (ends h) (ops ++ [o]))%Q →
  has_gauge r MOLECULER_REQUEST_ERROR_TOTAL true (request_names ++ error_names) e → (∀ h, e h == number (fails h) (ops ++ [o]))%Q →
  has_histogram r MOLECULER_REQUEST_TIME request_names tm → (∀ h, tm h == number (ends h) (ops ++ [o]))%Q →
  has_gauge r MOLECULER_REQUEST_LEVELS true ["level"]%string lv → counted (ops ++ [o]) r.
Proof.
  intros He Ht Et Ha Ea Hx Ex Hm Em Hl. split; [done|]. split_and!; [by eapply has_gauge_proper..|by eapply has_histogram_proper|eauto].
Qed.

Local Ltac tally := intros h; unfold added; cbv beta; rewrite ?number_snoc; cbn [starts ends fails]; unfold key, error_key;
  repeat match goal with |- context [if String.eqb ?a ?b then _ else _] => destruct (String.eqb a b) end; try ring.

Lemma counted_step ops o r : counted ops r → ∃ r', request_step o r = Ok r' ∧ counted (ops ++ [o]) r'.
Proof.
  intros (He & Ht & Ha & Hx & Hm & lv & Hl). destruct o as [q level now|q e d now]; cbn [request_step].
  - unfold started, all, and_then, inc.
    destruct (inc_gauge _ _ _ _ _ (Some (request_labels q)) 1 now He Ht) as (r1 & -> & C1 & Ht1).
    edestruct (inc_gauge r1 MOLECULER_REQUEST_ACTIVE false) as (r2 & -> & C2 & Ha2); [apply C1|keep C1; exact Ha|].
    edestruct (inc_gauge r2 MOLECULER_REQUEST_LEVELS true) as (r3 & -> & C3 & Hl3); [apply C2|keep C2; keep C1; exact Hl|].
    exists r3. split; [done|]. eapply counted_snoc; [apply C3|keep C3; keep C2; exact Ht1| |keep C3; exact Ha2|
      |keep C3; keep C2; keep C1; exact Hx| |keep C3; keep C2; keep C1; exact Hm| |exact Hl3]; tally.
  - destruct (time_histogram _ _ _ _ (Some (request_labels q)) d now He Hm) as (r1 & E1 & C1 & Hm1).
    edestruct (dec_gauge r1 MOLECULER_REQUEST_ACTIVE) as (r2 & E2 & C2 & Ha2); [apply C1|keep C1; exact Ha|].
    unfold ended. destruct e as [e|]; cbn [app all]; rewrite E1; cbn [and_then]; rewrite E2; cbn [and_then].
    + unfold inc. edestruct (inc_gauge r2 MOLECULER_REQUEST_ERROR_TOTAL true) as (r3 & E3 & C3 & Hx3);
        [apply C2|keep C2; keep C1; exact Hx|]. rewrite E3. cbn [and_then]. exists r3. split; [done|].
      eapply counted_snoc; [apply C3|keep C3; keep C2; keep C1; exact Ht| |keep C3; exact Ha2|
        |exact Hx3| |keep C3; keep C2; exact Hm1| |keep C3; keep C2; keep C1; exact Hl]; tally.
    + exists r2. split; [done|]. eapply counted_snoc; [apply C2|keep C2; keep C1; exact Ht| |exact Ha2|
        |keep C2; keep C1; exact Hx| |keep C2; exact Hm1| |keep C2; keep C1; exact Hl]; tally.
Qed.

End requests.

(** C32. The metrics of requests count right: from the registration of the metrics on, however requests
    start and end beside each other, nothing throws, the total of a kind of requests is how many
    started, its gauge is how many have started and not ended, the histogram of times has
    one observation for each that ended, and errors are counted by their kind. *)
Theorem requests_counted buckets qs n ops :
  ∃ r0 r, created buckets qs n (Registry true []) = Ok r0 ∧ all (map request_step ops) r0 = Ok r ∧
    ∀ q, let k := key q in let l := Some (request_labels q) in
      (∃ x, shows MOLECULER_REQUEST_TOTAL l r = Some x ∧ x == number (starts k) ops)%Q ∧
      (∃ x, shows MOLECULER_REQUEST_ACTIVE l r = Some x ∧ x == number (starts k) ops - number (ends k) ops)%Q ∧
      (∃ x, shows MOLECULER_REQUEST_TIME l r = Some x ∧ x == number (ends k) ops)%Q ∧
      ∀ e, (∃ x, shows MOLECULER_REQUEST_ERROR_TOTAL (Some (request_labels q ++ error_labels e)) r = Some x ∧
        x == number (fails (error_key q e)) ops)%Q.
Proof.
  destruct (counted_created buckets qs n) as (r0 & Hr0 & H0).
  assert (∀ pre post r, counted pre r → ∃ r', all (map request_step post) r = Ok r' ∧ counted (pre ++ post) r') as Hrun.
  { intros pre post. revert pre. induction post as [|o post IH]; intros pre r Hr; [exists r; by rewrite app_nil_r|].
    destruct (counted_step pre o r Hr) as (r1 & E1 & H1). destruct (IH _ r1 H1) as (r2 & E2 & H2). exists r2.
    cbn [map all]. rewrite E1. cbn [and_then]. by rewrite <- (assoc (++)) in H2. }
  destruct (Hrun [] ops r0 H0) as (r & Hr & _ & Ht & Ha & Hx & Hm & _). exists r0, r. split; [done|]. split; [done|]. intros q k l.
  assert (∀ name c names v l, has_gauge r name c names v → ∃ x, shows name l r = Some x ∧ (x == v (Base.hashingLabels names l))%Q) as Hshow.
  { intros name c names v l' (rate & m & Hg & Hn & Hv). unfold shows. rewrite Hg. exists (Gauge.current l' m). split; [by destruct c|].
    specialize (Hv (Base.hashingLabels names l')). unfold Gauge.current, Base.get, Base.hash. by rewrite Hn. }
  split_and!.
  - exact (Hshow _ _ _ _ l Ht).
  - exact (Hshow _ _ _ _ l Ha).
  - destruct Hm as (o & m & Hg & Hn & Hv). unfold shows. rewrite Hg. eexists. split; [done|]. unfold Base.hash. rewrite Hn. apply Hv.
  - intros e. exact (Hshow _ _ _ _ (Some (request_labels q ++ error_labels e)) Hx).
Qed.

(** The gauges of pending requests and streams are incremented by the number of entries each time
    a packet is published and never set: one pending request and three packets show 3. *)
Lemma pending_gauge_adds_up :
  match created [] [] 1 (Registry true []) with
  | Ok r =>
      match all [transitPublish "HEARTBEAT" 1 0 0 0; transitPublish "HEARTBEAT" 1 0 0 5000; transitPublish "HEARTBEAT" 1 0 0 10000] r with
      | Ok r => Qred <$> shows MOLECULER_TRANSIT_REQUESTS_ACTIVE None r = Some 3%Q
      | _ => False
      end
  | _ => False
  end.
Proof. vm_compute. reflexivity. Qed.
