(* ===== verification/Promises.v ===== *)
(** * Promises of one chain of calls

    An asynchronous computation of one request: it starts at a time in a world, changes
    the world and gives a promise that settles at a later time, or never.  [then],
    [catch], [delay] and the [timeout] that [polyfillPromise] of [src/utils.js] gives to
    promises are its combinators.  What the computation does to the world it does in
    the order of the chain; computations that run beside each other are modelled by
    step relations elsewhere.  Times are in one unit, in which all timeouts are
    integers. *)

From Stdlib Require Import ZArith Lia.
From stdpp Require Import base tactics list.
From S2P Require Import Prelude.

Local Open Scope Z_scope.

Declare Scope job_scope.
Delimit Scope job_scope with job.

(** The outcome of a settled promise *)
Inductive result (E A : Type) :=
| Resolved (v : A)
| Rejected (e : E).
Arguments Resolved {E A}.
Arguments Rejected {E A}.

(** A promise, known from its end: [NoFuel] marks a computation of the model that was
    given too little fuel, and is no outcome of the code. *)
Inductive promise (E A : Type) :=
| Settled (t : Z) (r : result E A)
| Never
| NoFuel.
Arguments Settled {E A}.
Arguments Never {E A}.
Arguments NoFuel {E A}.

Definition job (W E A : Type) := Z → W → W * promise E A.

Section jobs.
Context {W E : Type}.

Definition resolve {A} (v : A) : job W E A := λ t w, (w, Settled t (Resolved v)).
Definition reject {A} (e : E) : job W E A := λ t w, (w, Settled t (Rejected e)).

(** [p.then(k)] *)
Definition then_ {A B} (j : job W E A) (k : A → job W E B) : job W E B := λ t w,
  let '(w, p) := j t w in
  match p with
  | Settled t (Resolved v) => k v t w
  | Settled t (Rejected e) => (w, Settled t (Rejected e))
  | Never => (w, Never)
  | NoFuel => (w, NoFuel)
  end.

(** [p.catch(k)] *)
Definition catch_ {A} (j : job W E A) (k : E → job W E A) : job W E A := λ t w,
  let '(w, p) := j t w in
  match p with
  | Settled t (Rejected e) => k e t w
  | _ => (w, p)
  end.

(** [Promise.delay(ms).then(() => j)] *)
Definition delayed {A} (ms : Z) (j : job W E A) : job W E A := λ t w, j (t + Z.max 0 ms) w.

(** [p.timeout(ms)] with the error [e] of the timeout; at the same instant the promise wins. *)
Definition timeout_ {A} (ms : Z) (e : E) (j : job W E A) : job W E A := λ t w,
  let '(w, p) := j t w in
  (w, match p with
      | Settled t' r => if t' <=? t + ms then Settled t' r else Settled (t + ms) (Rejected e)
      | Never => Settled (t + ms) (Rejected e)
      | NoFuel => NoFuel
      end).

(** ** Equivalent computations

    Two computations are equivalent when they do the same in every world. *)

#[global] Instance job_equiv {A} : Equiv (job W E A) := λ j j', ∀ t w, j t w = j' t w.

#[global] Instance job_equivalence {A} : Equivalence (≡@{job W E A}).
Proof.
  split; [by intros j t w|by intros j j' H t w|]. intros j1 j2 j3 H1 H2 t w. by rewrite H1.
Qed.

#[global] Instance then_proper {A B} : Proper ((≡) ==> pointwise_relation A (≡) ==> (≡)) (@then_ A B).
Proof.
  intros j j' Hj k k' Hk t w. unfold then_. rewrite Hj. destruct (j' t w) as [w' [t' [v|e]| |]]; [apply Hk|done..].
Qed.

#[global] Instance catch_proper {A} : Proper ((≡) ==> pointwise_relation E (≡) ==> (≡)) (@catch_ A).
Proof.
  intros j j' Hj k k' Hk t w. unfold catch_. rewrite Hj. destruct (j' t w) as [w' [t' [v|e]| |]]; [done|apply Hk|done..].
Qed.

(** ** Laws *)

Lemma then_resolve {A B} (v : A) (k : A → job W E B) : then_ (resolve v) k ≡ k v.
Proof. by intros t w. Qed.

Lemma resolve_then {A} (j : job W E A) : then_ j resolve ≡ j.
Proof. intros t w. unfold then_. by destruct (j t w) as [w' [t' [v|e]| |]]. Qed.

Lemma then_then {A B C} (j : job W E A) (k : A → job W E B) (l : B → job W E C) :
  then_ (then_ j k) l ≡ then_ j (λ v, then_ (k v) l).
Proof. intros t w. unfold then_. by destruct (j t w) as [w' [t' [v|e]| |]]. Qed.

Lemma then_reject {A B} (e : E) (k : A → job W E B) : then_ (reject e) k ≡ reject e.
Proof. by intros t w. Qed.

Lemma catch_resolve {A} (v : A) (k : E → job W E A) : catch_ (resolve v) k ≡ resolve v.
Proof. by intros t w. Qed.

Lemma catch_reject {A} (e : E) (k : E → job W E A) : catch_ (reject e) k ≡ k e.
Proof. by intros t w. Qed.

Lemma reject_catch {A} (j : job W E A) : catch_ j reject ≡ j.
Proof. intros t w. unfold catch_. by destruct (j t w) as [w' [t' [v|e]| |]]. Qed.

Lemma catch_catch {A} (j : job W E A) (k l : E → job W E A) :
  catch_ (catch_ j k) l ≡ catch_ j (λ e, catch_ (k e) l).
Proof. intros t w. unfold catch_. by destruct (j t w) as [w' [t' [v|e]| |]]. Qed.

End jobs.

(** The handlers of a list one after the other, each given what the one before gave *)
Definition then_all {W E A} (j : job W E A) (ks : list (A → job W E A)) : job W E A := foldl then_ j ks.
Definition catch_all {W E A} (j : job W E A) (ks : list (E → job W E A)) : job W E A := foldl catch_ j ks.

Section lists.
Context {W E A : Type}.

#[global] Instance then_all_proper : Proper ((≡) ==> (=) ==> (≡)) (@then_all W E A).
Proof.
  intros j j' Hj ks ? <-. revert j j' Hj. unfold then_all. induction ks as [|k ks IH]; intros j j' Hj; simpl; [done|].
  apply IH. by rewrite Hj.
Qed.

#[global] Instance catch_all_proper : Proper ((≡) ==> (=) ==> (≡)) (@catch_all W E A).
Proof.
  intros j j' Hj ks ? <-. revert j j' Hj. unfold catch_all. induction ks as [|k ks IH]; intros j j' Hj; simpl; [done|].
  apply IH. by rewrite Hj.
Qed.

Lemma then_all_app (j : job W E A) ks ks' : then_all j (ks ++ ks') = then_all (then_all j ks) ks'.
Proof. apply foldl_app. Qed.

Lemma catch_all_app (j : job W E A) ks ks' : catch_all j (ks ++ ks') = catch_all (catch_all j ks) ks'.
Proof. apply foldl_app. Qed.

(** A chain that continues a chain *)
Lemma then_all_nested (j : job W E A) ks : then_ j (λ v, then_all (resolve v) ks) ≡ then_all j ks.
Proof.
  revert j. induction ks as [|k ks IH] using rev_ind; intros j; [apply resolve_then|].
  unfold then_all. rewrite foldl_app. simpl. fold (then_all j ks). rewrite <- (IH j), then_then.
  apply then_proper; [done|]. intros v. by rewrite foldl_app.
Qed.

Lemma catch_all_nested (j : job W E A) ks : catch_ j (λ e, catch_all (reject e) ks) ≡ catch_all j ks.
Proof.
  revert j. induction ks as [|k ks IH] using rev_ind; intros j; [apply reject_catch|].
  unfold catch_all. rewrite foldl_app. simpl. fold (catch_all j ks). rewrite <- (IH j), catch_catch.
  apply catch_proper; [done|]. intros e. by rewrite foldl_app.
Qed.

End lists.
