(* ===== verification/Middlewares.v ===== *)
(** * Middlewares

    Models [src/middleware.js] (Module [Handlers]: registering middlewares, wrapping and
    calling handlers) and the middlewares [action-hook.js] (Module [ActionHook]),
    [context-tracker.js] (Module [Tracker]), [throttle.js] and [debounce.js] (Modules
    [Throttle] and [Debounce]) of [src/middlewares/], and the validator middleware of
    [src/validators/base.js] (Module [Validator]).  The code of users, that is hooks
    and handlers, is any computation of [Promises]. *)

From Stdlib Require Import ZArith Lia Bool Ascii Strings.String.
From stdpp Require Import base tactics list strings option.
From S2P Require Import Prelude Utils Promises.

Local Open Scope Z_scope.

(** ** The middleware handler *)

Module Handlers.

Section handlers.
(** The functions of middlewares *)
Context {F : Type}.
(** [_.get(Middlewares, name)] and [middlewareInterceptors] *)
Context (interceptor : string → option (F → F)).

(** What [add] is given.  An object has functions and other values by name; calling a
    creator function gives the next argument. *)
Inductive arg :=
| Missing
| Named (name : string)
| Creator (r : arg)
| Object_ (m : OMap.t (option F))
| Other (type : string).

Context (builtin : string → option arg).

Record t := Handler {
  list_ : list (OMap.t (option F));
  registeredHooks : OMap.t (list F)
}.

Definition init : t := Handler [] [].

Inductive added :=
| Added (s : t)
| InvalidBuiltin (name : string)
| InvalidType (type : string).

Definition hooks_of (method : string) (s : t) : list F := default [] (OMap.get method (registeredHooks s)).

(** [Object.keys(mw).forEach(...)] *)
Definition register (hooks : OMap.t (list F)) (e : string * option F) : OMap.t (list F) :=
  match e with
  | (_, None) => hooks
  | (key, Some f) =>
      let handle := match interceptor key with Some i => i f | None => f end in
      OMap.set key (default [] (OMap.get key hooks) ++ [handle]) hooks
  end.

Definition add_object (m : OMap.t (option F)) (s : t) : t :=
  Handler (list_ s ++ [m]) (foldl register (registeredHooks s) m).

(** [add(mw)] after names and creators *)
Definition add_value (a : arg) (s : t) : added :=
  match a with
  | Missing => Added s
  | Object_ m => Added (add_object m s)
  | Named _ => InvalidType "string"
  | Creator _ => InvalidType "function"
  | Other ty => InvalidType ty
  end.

Definition add_called (a : arg) (s : t) : added :=
  match a with Creator r => add_value r s | _ => add_value a s end.

(** [add(mw)] *)
Definition add (a : arg) (s : t) : added :=
  match a with
  | Missing => Added s
  | Named name =>
      match builtin name with
      | Some a => add_called a s
      | None => InvalidBuiltin name
      end
  | _ => add_called a s
  end.

Definition count (s : t) : nat := length (list_ s).

(** [wrapHandler(method, handler, def)] and [wrapMethod(method, handler)], where
    [call fn handler] is [fn.call(broker, handler, def)] *)
Definition wrapHandler {H} (call : F → H → H) (method : string) (handler : H) (s : t) : H :=
  foldl (λ handler fn, call fn handler) handler (hooks_of method s).

Definition wrapMethod {H} (call : F → H → H) (method : string) (handler : H) (reverse : bool) (s : t) : H :=
  foldl (λ next fn, call fn next) handler (if reverse then rev (hooks_of method s) else hooks_of method s).

(** [callHandlers(method, args, opts)] *)
Definition callHandlers {W E} (call : F → job W E unit) (method : string) (reverse : bool) (s : t) : job W E unit :=
  foldl (λ p fn, then_ p (λ _, call fn)) (resolve tt)
    (if reverse then rev (hooks_of method s) else hooks_of method s).

(** [callSyncHandlers(method, args, opts)] *)
Definition callSyncHandlers {R} (call : F → R) (method : string) (reverse : bool) (s : t) : option (list R) :=
  match hooks_of method s with
  | [] => None
  | l => Some (map call (if reverse then rev l else l))
  end.

End handlers.
Arguments arg : clear implicits.
Arguments t : clear implicits.
End Handlers.

(** ** Action hooks *)

Module ActionHook.

Section hooks.
Context {W E V : Type}.
(** [undefined] *)
Context (undef : V).
(** [utils.match] *)
Context (regexp : list ascii → list ascii → bool).

Notation action_job := (job W E V).

(** What a hook is given besides the context *)
Inductive arg := Res (v : V) | Err (e : E).
Definition fn := arg → action_job.

(** Hooks of a schema: a function or the name of a method, or an array of them *)
Inductive item := Fn (f : fn) | Method (name : string).
Inductive hook := One (i : item) | Many (l : list item).

(** Sanitized hooks: [null], a function or an array of functions *)
Inductive sane := SNull | SFn (f : fn) | SMany (l : list fn).

(** The methods of the service *)
Context (service : string → option fn).

Definition sanitize_item (i : item) : option fn :=
  match i with Fn f => Some f | Method name => service name end.

(** [sanitizeHooks(hooks, service)] *)
Definition sanitizeHooks (h : hook) : sane :=
  match h with
  | One (Fn f) => SFn f
  | One (Method name) => match service name with Some f => SFn f | None => SNull end
  | Many l => SMany (omap sanitize_item l)
  end.

(** [callHook(hook, service, ctx, res)] *)
Definition callHook (h : sane) (res : V) : action_job :=
  match h with
  | SNull => resolve undef
  | SFn f => f (Res res)
  | SMany l => foldl (λ p f, then_ p (λ res, f (Res res))) (resolve res) l
  end.

(** [callErrorHook(hook, service, ctx, err)] *)
Definition callErrorHook (h : sane) (err : E) : action_job :=
  match h with
  | SNull => resolve undef
  | SFn f => f (Err err)
  | SMany l => foldl (λ p f, catch_ p (λ err, f (Err err))) (reject err) l
  end.

(** The hooks of a service or an action for one of [before], [after] and [error] *)
Record service_hooks := ServiceHooks {
  before : OMap.t hook;
  after : OMap.t hook;
  error : OMap.t hook
}.
Record action_hooks := ActionHooks {
  a_before : option hook;
  a_after : option hook;
  a_error : option hook
}.

(** [matchHook(hookName)] *)
Definition matchHook (name hookName : string) : bool :=
  if String.eqb hookName "*" then false
  else existsb (λ p, Match.match_ regexp (String.list_ascii_of_string name) (String.list_ascii_of_string p))
         (Text.split "|"%char hookName).

(** [allHook]: the sanitized hook for all actions, if there is one *)
Definition allHook (m : OMap.t hook) : option sane :=
  match OMap.get "*" m with
  | Some h => match sanitizeHooks h with SNull => None | s => Some s end
  | None => None
  end.

(** [beforeHook] and its like: those whose name matches *)
Definition matchedHooks (name : string) (m : OMap.t hook) : list sane :=
  map (λ '(_, h), sanitizeHooks h) (Arr.filter (λ '(k, _), matchHook name k) m).

(** [actionBeforeHook] and its like *)
Definition ownHook (h : option hook) : option sane :=
  match h with
  | Some h => match sanitizeHooks h with SNull => None | s => Some s end
  | None => None
  end.

Definition opt_list {A} (o : option A) : list A := match o with Some x => [x] | None => [] end.

(** The hooks in the order the middleware chains them *)
Definition before_chain (name : string) (hs : service_hooks) (ah : action_hooks) : list sane :=
  opt_list (allHook (before hs)) ++ matchedHooks name (before hs) ++ opt_list (ownHook (a_before ah)).
Definition after_chain (name : string) (hs : service_hooks) (ah : action_hooks) : list sane :=
  opt_list (ownHook (a_after ah)) ++ matchedHooks name (after hs) ++ opt_list (allHook (after hs)).
Definition error_chain (name : string) (hs : service_hooks) (ah : action_hooks) : list sane :=
  opt_list (ownHook (a_error ah)) ++ matchedHooks name (error hs) ++ opt_list (allHook (error hs)).

(** [actionHookMiddleware(ctx)] *)
Definition actionHookMiddleware (bs afs es : list sane) (handler : action_job) : action_job :=
  let p := foldl (λ p h, then_ p (λ _, callHook h undef)) (resolve undef) bs in
  let p := then_ p (λ _, handler) in
  let p := foldl (λ p h, then_ p (λ res, callHook h res)) p afs in
  foldl (λ p h, catch_ p (λ err, callErrorHook h err)) p es.

(** [wrapActionHookMiddleware(handler, action)]; without hooks the schema has empty ones. *)
Definition wrapActionHookMiddleware (name : string) (hs : service_hooks) (ah : action_hooks) (handler : action_job)
    : action_job :=
  match before_chain name hs ah, after_chain name hs ah, error_chain name hs ah with
  | [], [], [] => handler
  | bs, afs, es => actionHookMiddleware bs afs es handler
  end.

End hooks.
Arguments arg : clear implicits.
Arguments fn : clear implicits.
Arguments item : clear implicits.
Arguments hook : clear implicits.
Arguments sane : clear implicits.
Arguments service_hooks : clear implicits.
Arguments action_hooks : clear implicits.
End ActionHook.

(** ** Validation of parameters *)

Module Validator.

Section validator.
Context {W E V P : Type}.
(** What a compiled checker answers: valid, or the errors *)
Context (check : P → option (list json)).
Context (empty : P) (validationError : list json → E).
(** [Object.assign(data, { nodeID, action })] *)
Context (additionalInfo : json → json).

(** [validateContextParams(ctx)] with [processCheckResponse], for a checker that is not
    asynchronous; [ctx.params != null ? ctx.params : {}] *)
Definition validateContextParams (params : option P) (handler : job W E V) : job W E V :=
  match check (default empty params) with
  | None => handler
  | Some errors => reject (validationError (map additionalInfo errors))
  end.

End validator.
End Validator.

(** ** Tracking contexts *)

Module Tracker.

(** Contexts are numbered objects; the list is that of a service or the broker. *)
Definition addContext (ctx : nat) (l : list nat) : list nat := l ++ [ctx].

(** [removeContext(ctx)] *)
Definition removeContext (ctx : nat) (l : list nat) : list nat :=
  match Arr.findIndex (Nat.eqb ctx) l with
  | Some i => Arr.splice1 i l
  | None => l
  end.

(** Whether a context is tracked: [ctx.options.tracking] or the setting of the broker *)
Definition is_tracked (enabled : bool) (tracking : option bool) : bool :=
  enabled && match tracking with Some b => b | None => enabled end.

(** A tracked request starts and settles, and a stop that timed out clears the list. *)
Inductive event := Starts (ctx : nat) | Settles (ctx : nat) | Clears.

Definition step (l : list nat) (e : event) : list nat :=
  match e with
  | Starts ctx => addContext ctx l
  | Settles ctx => removeContext ctx l
  | Clears => []
  end.

(** The polling of [waitingForActiveContexts]: [empty t] says whether the list is empty at
    time [t].  Answered is when the promise resolves and whether by the timeout.
    The first check is in the same instant. *)
Fixpoint poll (fuel : nat) (empty : Z → bool) (deadline now : Z) : option (Z * bool) :=
  if deadline <=? now then Some (deadline, true)
  else if empty now then Some (now, false)
  else match fuel with
       | O => None
       | Datatypes.S fuel => poll fuel empty deadline (now + 100)
       end.

(** [waitingForActiveContexts(list, logger, time, service)] started at [now] *)
Definition waitingForActiveContexts (empty : Z → bool) (time now : Z) : option (Z * bool) :=
  if empty now then Some (now, false)
  else poll (Z.to_nat (time / 100 + 1)) empty (now + Z.max 0 time) now.

End Tracker.

(** ** Throttling and debouncing events *)

Module Throttle.

(** [throttleMiddleware(ctx)] at time [now]: whether the handler is called, and [lastInvoke] *)
Definition throttleMiddleware (throttle now lastInvoke : Z) : bool * Z :=
  if now - lastInvoke <? throttle then (false, lastInvoke) else (true, now).

(** The times of the events that are handled, of events at the times [ts] *)
Fixpoint handled (throttle lastInvoke : Z) (ts : list Z) : list Z :=
  match ts with
  | [] => []
  | t :: ts =>
      let '(b, last) := throttleMiddleware throttle t lastInvoke in
      if b then t :: handled throttle last ts else handled throttle last ts
  end.

(** [wrapEventThrottleMiddleware(handler, event)], for events from the beginning *)
Definition wrapEventThrottle (throttle : option Z) (ts : list Z) : list Z :=
  match throttle with
  | Some n => if 0 <? n then handled n 0 ts else ts
  | None => ts
  end.

End Throttle.

Module Debounce.

Section debounce.
Context {C : Type}.

(** The pending timer: when it fires and with which context *)
Definition t := option (Z * C).

(** [debounceMiddleware(ctx)] *)
Definition debounceMiddleware (debounce : Z) (ctx : C) (now : Z) (timer : t) : t := Some (now + debounce, ctx).

(** The timer fires, if it is due before [now] or at it. *)
Definition fire (now : Z) (timer : t) : list (Z * C) * t :=
  match timer with
  | Some (due, ctx) => if due <=? now then ([(due, ctx)], None) else ([], timer)
  | None => ([], None)
  end.

(** When the handler is called with which contexts, for events in the order of time;
    in the end the timer that is left fires. *)
Fixpoint called (debounce : Z) (timer : t) (evs : list (Z * C)) : list (Z * C) :=
  match evs with
  | [] => match timer with Some x => [x] | None => [] end
  | (now, ctx) :: evs =>
      let '(fired, timer) := fire now timer in
      fired ++ called debounce (debounceMiddleware debounce ctx now timer) evs
  end.

(** [wrapEventDebounceMiddleware(handler, event)] *)
Definition wrapEventDebounce (debounce : option Z) (evs : list (Z * C)) : list (Z * C) :=
  match debounce with
  | Some n => if 0 <? n then called n None evs else evs
  | None => evs
  end.

End debounce.
End Debounce.
