(* ===== verification/Transmit.v ===== *)
(** * Middlewares between the transit and the wire

    [middlewares/transmit/compression.js] (Module [Compression], with [parseByteString] of
    [utils.js] in Module [ByteString]) and [middlewares/transmit/encryption.js] (Module
    [Encryption]).  They wrap [send] and [receive] of the transporter ([transit.js]), through
    [wrapMethod] of [Middlewares].  zlib and the ciphers of the platform are parameters; what is
    relied on is that they undo themselves.  The theorem [transmission_transparent] is about
    any stack of such middlewares around a transporter. *)

From stdpp Require Import base tactics list strings option.
From Stdlib Require Import ZArith QArith Qround Lia Ascii.
From S2P Require Import Prelude JsonText Serializers SerializerTheorems Errors Transporter Promises Middlewares.

#[local] Arguments String.append !_ _ / : simpl nomatch.

Open Scope Z_scope.

(** ** Sizes *)

Module ByteString.

Definition digit (c : ascii) : option Z :=
  let n := N_of_ascii c in if ((48 <=? n) && (n <=? 57))%N then Some (Z.of_N n - 48) else None.

(** The digits at the front: their number, how many there are, and the rest *)
Fixpoint digits (acc : Z) (n : nat) (s : string) : Z * nat * string :=
  match s with
  | String c s' => match digit c with Some d => digits (10 * acc + d) (S n) s' | None => (acc, n, s) end
  | EmptyString => (acc, n, s)
  end.

Fixpoint skip (p : ascii → bool) (s : string) : string :=
  match s with String c s' => if p c then skip p s' else s | EmptyString => s end.

Definition sign (s : string) : Z * string :=
  match s with
  | String "-" s => (-1, s)
  | String "+" s => (1, s)
  | _ => (1, s)
  end.

(** [byteMultipliers] *)
Definition unit (s : string) : option Z :=
  match s with
  | String a (String b EmptyString) =>
      if Ascii.eqb b "b" || Ascii.eqb b "B" then
        if Ascii.eqb a "k" || Ascii.eqb a "K" then Some (2 ^ 10)
        else if Ascii.eqb a "m" || Ascii.eqb a "M" then Some (2 ^ 20)
        else if Ascii.eqb a "g" || Ascii.eqb a "G" then Some (2 ^ 30)
        else if Ascii.eqb a "t" || Ascii.eqb a "T" then Some (2 ^ 40)
        else if Ascii.eqb a "p" || Ascii.eqb a "P" then Some (2 ^ 50)
        else None
      else None
  | _ => None
  end.

(** [parseByteStringRe.exec(v)]: the value and the factor of the unit *)
Definition with_unit (s : string) : option (Q * Z) :=
  let '(sg, s) := sign s in
  let '(n, k, s) := digits 0 0 s in
  match k with
  | O => None
  | S _ =>
      let '(q, s) :=
        match s with
        | String "." s' =>
            match digits 0 0 s' with
            | (_, O, _) => (inject_Z n, s)
            | (m, k, s') => ((inject_Z n + inject_Z m / inject_Z (10 ^ Z.of_nat k))%Q, s')
            end
        | _ => (inject_Z n, s)
        end in
      (λ u, ((inject_Z sg * q)%Q, u)) <$> unit (skip (Ascii.eqb " ") s)
  end.

(** [parseInt(v, 10)] *)
Definition parseInt (s : string) : option Z :=
  let '(sg, s) := sign (skip JSON.is_space s) in
  match digits 0 0 s with (_, O, _) => None | (n, _, _) => Some (sg * n) end.

(** [parseByteString(v)] of a string *)
Definition parseByteString (s : string) : option Z :=
  match with_unit s with
  | Some (q, u) => Some (Qfloor (inject_Z u * q))
  | None => parseInt s
  end.

End ByteString.

(** What the wrapped [receive] of a middleware does with a buffer: it is handed on, dropped with
    an entry of the log, or an exception is thrown. *)
Inductive received := Passed (data : string) | Dropped | Crashed.

(** ** Compression *)

Module Compression.

Section compression.
Context (compress : string → string) (decompress : string → option string).

(** [transporterSend]; a buffer of the threshold's size is compressed. *)
Definition transporterSend (threshold : option Z) (data : string) : string :=
  if match threshold with Some t => Z.of_nat (String.length data) <? t | None => false end
  then String "000" data
  else String "001" (compress data).

(** [transporterReceive] *)
Definition transporterReceive (data : string) : received :=
  match data with
  | EmptyString => Crashed
  | String c rest =>
      if Ascii.eqb c "000" then Passed rest
      else match decompress rest with Some d => Passed d | None => Dropped end
  end.

End compression.
End Compression.

(** ** Encryption *)

Module Encryption.

Section encryption.
(** The cipher with the algorithm, the password and the initial vector; [None] is that it throws. *)
Context (encrypt decrypt : string → option string).

Definition transporterSend (data : string) : option string := encrypt data.
Definition transporterReceive (data : string) : received :=
  match decrypt data with Some d => Passed d | None => Dropped end.

End encryption.
End Encryption.

(** ** Around a transporter *)

Module Transmission.

(** The functions of a middleware *)
Inductive fn := OnSend (f : string → option string) | OnReceive (f : string → received).

(** A middleware that changes what is transmitted *)
Record codec := Codec {
  encode : string → option string;
  decode : string → received
}.
Definition middleware (c : codec) : OMap.t (option fn) :=
  [("transporterSend", Some (OnSend (encode c))); ("transporterReceive", Some (OnReceive (decode c)))]%string.

Definition compression (compress : string → string) (decompress : string → option string) (threshold : option Z) : codec :=
  Codec (λ d, Some (Compression.transporterSend compress threshold d)) (Compression.transporterReceive decompress).
Definition encryption (encrypt decrypt : string → option string) : codec :=
  Codec (Encryption.transporterSend encrypt) (Encryption.transporterReceive decrypt).

(** [send] and [receive] of the transporter in the shape that middlewares wrap *)
Definition sender : Type := string → string → bool → list BaseTransporter.effect * BaseTransporter.outcome.
Definition receiver : Type := string → string → option (list BaseTransporter.effect).

Definition call_send (f : fn) (next : sender) : sender :=
  match f with
  | OnSend f => λ topic data meta,
      match f data with Some d => next topic d meta | None => ([], BaseTransporter.Thrown) end
  | OnReceive _ => next
  end.
Definition call_receive (f : fn) (next : receiver) : receiver :=
  match f with
  | OnReceive f => λ cmd data,
      match f data with Passed d => next cmd d | Dropped => Some [] | Crashed => None end
  | OnSend _ => next
  end.

(** [this.tx.send = wrapMethod(...)] and [this.tx.receive = wrapMethod(..., { reverse: true })] *)
Definition send (s : Handlers.t fn) : sender :=
  Handlers.wrapMethod call_send "transporterSend"
    (λ topic data meta, ([BaseTransporter.Send topic data meta], BaseTransporter.Done)) false s.
Definition receive {S : Serializer} (s : Handlers.t fn) : receiver :=
  Handlers.wrapMethod call_receive "transporterReceive"
    (λ cmd data, Some (BaseTransporter.incomingMessage cmd (Some data))) true s.

End Transmission.

(** ** Theorems *)

Import Transmission.

(** What is relied on of a middleware: it receives what it sent. *)
Definition undoes (c : codec) : Prop := ∀ d d', encode c d = Some d' → decode c d' = Passed d.

Lemma compression_undoes compress decompress threshold : (∀ d, decompress (compress d) = Some d) →
  undoes (compression compress decompress threshold).
Proof.
  intros H d d'. cbn. unfold Compression.transporterSend. intros [= <-].
  destruct (match threshold with Some t => _ | None => _ end); [done|]. cbn. by rewrite H.
Qed.

Lemma encryption_undoes encrypt decrypt : (∀ d d', encrypt d = Some d' → decrypt d' = Some d) → undoes (encryption encrypt decrypt).
Proof. intros H d d' Hd. cbn in *. unfold Encryption.transporterReceive. by rewrite (H d d'). Qed.

(** The hooks of a list of middlewares *)
Definition registered (cs : list codec) : Handlers.t fn :=
  foldl (λ s c, Handlers.add_object (λ _, None) (middleware c) s) Handlers.init cs.

Lemma registered_hooks cs :
  Handlers.hooks_of "transporterSend" (registered cs) = map (λ c, OnSend (encode c)) cs ∧
  Handlers.hooks_of "transporterReceive" (registered cs) = map (λ c, OnReceive (decode c)) cs.
Proof.
  induction cs as [|c cs [IH1 IH2]] using rev_ind; [done|]. unfold registered. rewrite foldl_app. cbn [foldl]. fold (registered cs).
  unfold Handlers.hooks_of, Handlers.add_object, Handlers.register, middleware in *. cbn [Handlers.registeredHooks foldl].
  rewrite OMap.get_set_ne by done. rewrite OMap.get_set_eq. rewrite OMap.get_set_eq. rewrite OMap.get_set_ne by done.
  cbn [default from_option id]. rewrite IH1, IH2, !map_app. done.
Qed.

(** Wrapping [send] and [receive] with one middleware more *)
Definition wrap_send (base : sender) (cs : list codec) : sender := foldl (λ next f, call_send f next) base (map (λ c, OnSend (encode c)) cs).
Definition wrap_receive (base : receiver) (cs : list codec) : receiver :=
  foldl (λ next f, call_receive f next) base (rev (map (λ c, OnReceive (decode c)) cs)).

Lemma wrap_receive_snoc base cs c : wrap_receive base (cs ++ [c]) = wrap_receive (call_receive (OnReceive (decode c)) base) cs.
Proof. unfold wrap_receive. by rewrite map_app, rev_app_distr. Qed.

(** What is received of a buffer that was sent is handed on as it was. *)
Lemma wrapped_undoes cs topic b base : Forall undoes cs → ∀ d es o,
  wrap_send (λ topic data meta, ([BaseTransporter.Send topic data meta], BaseTransporter.Done)) cs topic d b = (es, o) →
  (es = [] ∧ o = BaseTransporter.Thrown) ∨
  (o = BaseTransporter.Done ∧ ∃ d', es = [BaseTransporter.Send topic d' b] ∧ ∀ cmd, wrap_receive base cs cmd d' = base cmd d).
Proof.
  revert base. induction cs as [|c cs IH] using rev_ind; intros base Hcs d es o.
  - intros [= <- <-]. right. split; [done|]. by exists d.
  - apply Forall_app in Hcs as [Hcs Hc]. apply list.Forall_cons in Hc as [Hc _]. unfold wrap_send. rewrite map_app, foldl_app. cbn [map foldl call_send].
    destruct (encode c d) as [d1|] eqn:Hd1; [|intros [= <- <-]; by left]. intros Hs.
    destruct (IH (call_receive (OnReceive (decode c)) base) Hcs d1 es o Hs) as [?|(? & d' & ? & Hr)]; [by left|right].
    split; [done|]. exists d'. split; [done|]. intros cmd. rewrite wrap_receive_snoc, Hr. cbn. by rewrite (Hc d d1).
Qed.

(** C22. What is transmitted arrives: through any stack of middlewares that undo themselves, such as
    compression and encryption, the other side handles exactly the payload that was
    sent, if its own stack is the same; or nothing is sent because an encoder threw. *)
Theorem transmission_transparent {S : Serializer} {L : SerializerLaws S} cs m topic b :
  Forall undoes cs → pure (JObj m) = true →
  ∃ data, serialize (JObj m) = Some data ∧
  let '(es, o) := send (registered cs) topic data b in
  (es = [] ∧ o = BaseTransporter.Thrown) ∨
  (o = BaseTransporter.Done ∧ ∃ d, es = [BaseTransporter.Send topic d b] ∧
     ∀ cmd, receive (registered cs) cmd d = Some [BaseTransporter.Handle cmd (JObj m)]).
Proof.
  intros Hcs Hm. destruct (pure_arrives (JObj m) Hm) as (data & Hs & Ha). exists data. split; [done|].
  unfold send, receive, Handlers.wrapMethod. destruct (registered_hooks cs) as [-> ->].
  fold (wrap_send (λ topic data meta, ([BaseTransporter.Send topic data meta], BaseTransporter.Done)) cs).
  fold (wrap_receive (λ cmd data, Some (BaseTransporter.incomingMessage cmd (Some data))) cs).
  destruct (wrap_send _ _ _ _ _) as [es o] eqn:E.
  destruct (wrapped_undoes cs topic b (λ cmd data, Some (BaseTransporter.incomingMessage cmd (Some data))) Hcs data es o E)
    as [?|(? & d & ? & Hr)]; [by left|right]. split; [done|]. exists d. split; [done|]. intros cmd. rewrite Hr.
  unfold BaseTransporter.incomingMessage, BaseTransporter.deserialize_packet. by rewrite Ha.
Qed.

(** Compression and encryption with stand-ins for zlib and a cipher *)
Lemma transmission_transparent_witness :
  let compress d := ("zip" +:+ d)%string in
  let decompress d := if starts_with "zip" d then Some (str_drop 3 d) else None in
  let encrypt d := Some ("#" +:+ d)%string in
  let decrypt d := match d with String "#" d => Some d | _ => None end in
  let cs := [compression compress decompress (ByteString.parseByteString "0.01kb"); encryption encrypt decrypt] in
  let m := [("id", JNum 7); ("data", JStr "0123456789")]%string in
  ByteString.parseByteString "0.01kb" = Some 10 ∧
  ∃ data, json_serializer.(serialize) (JObj m) = Some data ∧ String.length data = 28%nat ∧
  ∃ d, send (registered cs) "MOL.INFO" data false = ([BaseTransporter.Send "MOL.INFO" d false], BaseTransporter.Done) ∧
    receive (S := json_serializer) (registered cs) "INFO" d = Some [BaseTransporter.Handle "INFO" (JObj m)].
Proof.
  intros compress decompress encrypt decrypt cs m. split; [vm_compute; reflexivity|].
  destruct (transmission_transparent (S := json_serializer) cs m "MOL.INFO" false) as (data & Hs & H).
  - constructor; [|constructor; [|constructor]].
    + apply compression_undoes. intros d. reflexivity.
    + apply encryption_undoes. intros d d' [= <-]. reflexivity.
  - reflexivity.
  - exists data. split; [done|]. injection Hs as <-. split; [reflexivity|].
    destruct (send _ _ _ _) as [es o] eqn:E. vm_compute in E. injection E as <- <-.
    destruct H as [[H _]|(_ & d & [= <-] & Hr)]; [done|]. eexists. split; [reflexivity|]. apply Hr.
Defined.

(** An empty buffer crashes the receiver, since the mark is read without a look at the length. *)
Lemma empty_buffer_crashes decompress : Compression.transporterReceive decompress EmptyString = Crashed.
Proof. reflexivity. Qed.
