(* ===== verification/MiddlewareTheorems.v ===== *)
(** * What the middlewares guarantee

    The order of hooks, the stop that waits for running requests, throttling and
    debouncing of events, and the order of middlewares. *)

From Stdlib Require Import ZArith Lia Bool Ascii Strings.String.
From stdpp Require Import base tactics list strings option sets.
From S2P Require Import Prelude Utils Promises Middlewares.

Local Open Scope Z_scope.

(** ** The order of middlewares *)

Section handlers.
Context {F : Type} (interceptor : string → option (F → F)).

(** What an accepted object contributes to the hooks of a method *)
Definition contribution (method : string) (m : OMap.t (option F)) : list F :=
  match OMap.get method m with
  | Some (Some f) => [match interceptor method with Some i => i f | None => f end]
  | _ => []
  end.

Lemma register_hooks (m : OMap.t (option F)) hooks method : OMap.wf m →
  default [] (OMap.get method (foldl (Handlers.register interceptor) hooks m)) =
  default [] (OMap.get method hooks) ++ contribution method m.
Proof.
  revert hooks. induction m as [|[k o] m IH]; intros hooks Hwf; simpl; [by rewrite app_nil_r|].
  apply list.NoDup_cons in Hwf as [Hk Hwf]. rewrite IH by done.
  unfold contribution. simpl. destruct (String.eqb_spec method k) as [<-|Hne].
  - rewrite (proj2 (OMap.get_None_keys method m) Hk). rewrite app_nil_r. destruct o as [f|]; simpl; [by rewrite OMap.get_set_eq|by rewrite app_nil_r].
  - destruct o as [f|]; simpl; [by rewrite OMap.get_set_ne|done].
Qed.

End handlers.

(** Middlewares apply in the order in which they were added: the hooks of a method are
    the functions that the accepted middlewares have under its name, in that order,
    with their interceptors; a wrapped handler has the last added middleware
    outermost; notifications run one after the other in that order, or its reverse,
    and the first that fails ends them with its error. *)
Theorem middlewares_in_order {F W E H} interceptor builtin (args : list (Handlers.arg F)) s method (call : F → H → H) (notify : F → job W E unit) :
  let run (s : option (Handlers.t F)) a :=
    s ≫= λ s, match Handlers.add interceptor builtin a s with Handlers.Added s => Some s | _ => None end in
  foldl run (Some Handlers.init) args = Some s →
  (∀ m, m ∈ Handlers.list_ s → OMap.wf m) →
  let fns := concat (map (contribution interceptor method) (Handlers.list_ s)) in
  (∀ h, Handlers.wrapHandler call method h s = foldr call h (rev fns)) ∧
  (∀ fs f gs, fns = fs ++ f :: gs → ∀ t w t1 w1 t2 w2 e,
     Handlers.callHandlers notify method false (Handlers.Handler [] [(method, fs)]) t w = (w1, Settled t1 (Resolved tt)) →
     notify f t1 w1 = (w2, Settled t2 (Rejected e)) →
     Handlers.callHandlers notify method false s t w = (w2, Settled t2 (Rejected e))) ∧
  (∀ t w, Handlers.callHandlers notify method true s t w =
     foldl (λ p fn, then_ p (λ _, notify fn)) (resolve tt) (rev fns) t w).
Proof.
  intros run Hrun Hwf fns.
  assert (Handlers.hooks_of method s = fns) as Hhooks.
  { unfold fns. clear fns. revert s Hrun Hwf. induction args as [|a args IH] using rev_ind; intros s Hrun Hwf.
    - injection Hrun as <-. done.
    - rewrite foldl_app in Hrun. simpl in Hrun. destruct (foldl run _ args) as [s0|] eqn:H0; [|done].
      assert (s = s0 ∨ ∃ m, s = Handlers.add_object interceptor m s0) as [->|[m ->]].
      { simpl in Hrun. unfold Handlers.add, Handlers.add_called, Handlers.add_value in Hrun.
        destruct a as [|n|r|m|ty]; simpl in Hrun; repeat split_match_in Hrun; simplify_eq; eauto. }
      + by apply IH.
      + assert (∀ m', m' ∈ Handlers.list_ s0 → OMap.wf m') as Hwf0.
        { intros m' Hm'. apply Hwf. simpl. apply elem_of_app. by left. }
        unfold Handlers.hooks_of, Handlers.add_object. simpl.
        rewrite register_hooks by (apply Hwf; simpl; apply elem_of_app; right; by left).
        rewrite map_app, concat_app. simpl. rewrite app_nil_r. f_equal. by apply (IH s0). }
  split_and!.
  - intros h. unfold Handlers.wrapHandler. rewrite Hhooks. clear. revert h. induction fns as [|f l IH]; intros h; simpl; [done|].
    rewrite IH, foldr_app. done.
  - intros fs f gs Hfns t w t1 w1 t2 w2 e Hfs Hf. unfold Handlers.callHandlers in *. rewrite Hhooks, Hfns.
    unfold Handlers.hooks_of in Hfs. simpl in Hfs. rewrite String.eqb_refl in Hfs. simpl in Hfs.
    rewrite foldl_app. simpl.
    set (p := then_ (foldl _ _ fs) _).
    assert (p t w = (w2, Settled t2 (Rejected e))) as Hp by (unfold p, then_ at 1; by rewrite Hfs).
    clearbody p. clear Hfns. revert p Hp. induction gs as [|g gs IH]; intros p Hp; simpl; [done|].
    apply IH. unfold then_. by rewrite Hp.
  - intros t w. unfold Handlers.callHandlers. by rewrite Hhooks.
Qed.

(** The middlewares [a] and [b] wrap actions, [b] also calls; a creator makes [b]. *)
Lemma middlewares_in_order_witness :
  let a := Handlers.Object_ [("localAction"%string, Some 1%nat)] in
  let b := Handlers.Creator (Handlers.Object_ [("call"%string, Some 3%nat); ("localAction"%string, Some 2%nat)]) in
  ∃ s, Handlers.add (λ _, None) (λ n, if String.eqb n "B" then Some b else None) (Handlers.Named "B")
         (Handlers.Handler [[("localAction"%string, Some 1%nat)]] [("localAction"%string, [1%nat])]) = Handlers.Added s ∧
       Handlers.wrapHandler (λ f h, f :: h) "localAction" [0%nat] s = [2; 1; 0]%nat.
Proof.
  intros a b. eexists. split; [reflexivity|].
  pose proof (middlewares_in_order (W := unit) (E := unit) (λ _, None) (λ n, if String.eqb n "B" then Some b else None) [a; Handlers.Named "B"] _
    "localAction" (λ f h, f :: h) (λ _, resolve tt) eq_refl) as Hm.
  destruct Hm as [Hm _].
  - intros m Hm. apply elem_of_cons in Hm as [->|Hm]; [repeat constructor; set_solver|].
    apply list_elem_of_singleton in Hm as ->. repeat constructor; set_solver.
  - exact (Hm [0%nat]).
Defined.

(** ** Hooks *)

Section hooks.
Context {W E V : Type} (undef : V).

(** The functions of a hook *)
Definition fns_of (h : ActionHook.sane W E V) : list (ActionHook.fn W E V) :=
  match h with ActionHook.SNull => [] | ActionHook.SFn f => [f] | ActionHook.SMany l => l end.

Definition on_result (f : ActionHook.fn W E V) : V → job W E V := λ v, f (ActionHook.Res v).
Definition on_error (f : ActionHook.fn W E V) : E → job W E V := λ e, f (ActionHook.Err e).

Definition not_null (h : ActionHook.sane W E V) : Prop := match h with ActionHook.SNull => False | _ => True end.

Lemma callHook_all h v : not_null h → ActionHook.callHook undef h v ≡ then_all (resolve v) (map on_result (fns_of h)).
Proof.
  destruct h as [|f|l]; intros Hh; simpl; [done| |].
  - unfold then_all. simpl. by rewrite then_resolve.
  - clear Hh. unfold then_all. generalize (resolve (W := W) (E := E) v). induction l as [|f l IH]; intros j; simpl; [done|apply IH].
Qed.

Lemma callErrorHook_all h e : not_null h → ActionHook.callErrorHook undef h e ≡ catch_all (reject e) (map on_error (fns_of h)).
Proof.
  destruct h as [|f|l]; intros Hh; simpl; [done| |].
  - unfold catch_all. simpl. by rewrite catch_reject.
  - clear Hh. unfold catch_all. generalize (reject (W := W) (E := E) (A := V) e). induction l as [|f l IH]; intros j; simpl; [done|apply IH].
Qed.

Lemma after_all j hs : Forall not_null hs →
  foldl (λ p h, then_ p (λ res, ActionHook.callHook undef h res)) j hs ≡ then_all j (map on_result (concat (map fns_of hs))).
Proof.
  revert j. induction hs as [|h hs IH]; intros j Hhs; simpl; [done|]. apply Forall_cons in Hhs as [Hh Hhs].
  rewrite IH by done. rewrite map_app, then_all_app.
  apply then_all_proper; [|done]. rewrite <- then_all_nested. apply then_proper; [done|]. intros v. by apply callHook_all.
Qed.

Lemma error_all j hs : Forall not_null hs →
  foldl (λ p h, catch_ p (λ err, ActionHook.callErrorHook undef h err)) j hs ≡ catch_all j (map on_error (concat (map fns_of hs))).
Proof.
  revert j. induction hs as [|h hs IH]; intros j Hhs; simpl; [done|]. apply Forall_cons in Hhs as [Hh Hhs].
  rewrite IH by done. rewrite map_app, catch_all_app.
  apply catch_all_proper; [|done]. rewrite <- catch_all_nested. apply catch_proper; [done|]. intros v. by apply callErrorHook_all.
Qed.

(** A function that does not look at the result of the function before it in its array *)
Definition no_result (f : ActionHook.fn W E V) : Prop := ∀ v, f (ActionHook.Res v) ≡ f (ActionHook.Res undef).

(** Functions one after the other, results ignored *)
Definition seq_all (j : job W E V) (fs : list (ActionHook.fn W E V)) : job W E V :=
  foldl (λ p f, then_ p (λ _, f (ActionHook.Res undef))) j fs.

#[local] Instance seq_all_proper : Proper ((≡) ==> (=) ==> (≡)) seq_all.
Proof.
  intros j j' Hj fs ? <-. revert j j' Hj. unfold seq_all. induction fs as [|f fs IH]; intros j j' Hj; simpl; [done|].
  apply IH. by rewrite Hj.
Qed.

Lemma before_group h (j : job W E V) (k : job W E V) : not_null h → Forall no_result (fns_of h) →
  then_ (then_ j (λ _, ActionHook.callHook undef h undef)) (λ _, k) ≡ then_ (seq_all j (fns_of h)) (λ _, k).
Proof.
  intros Hh Hf.
  assert (∀ v, then_ (ActionHook.callHook undef h undef) (λ _, k) ≡ then_ (seq_all (resolve v) (fns_of h)) (λ _, k)) as Hgo.
  { intros v. rewrite callHook_all by done. unfold then_all, seq_all.
    assert (∀ j j' : job W E V, then_ j (λ _, resolve tt) ≡ then_ j' (λ _, resolve tt) →
      then_ (foldl then_ j (map on_result (fns_of h))) (λ _, k) ≡
      then_ (foldl (λ p f, then_ p (λ _, f (ActionHook.Res undef))) j' (fns_of h)) (λ _, k)) as Hgo.
    { clear j v Hh. induction (fns_of h) as [|f l IH]; intros j j' Hj; simpl.
      - assert (∀ j0 : job W E V, then_ j0 (λ _, k) ≡ then_ (then_ j0 (λ _, resolve tt)) (λ _, k)) as Hu
          by (intros j0; by rewrite then_then).
        rewrite (Hu j), (Hu j'). by rewrite Hj.
      - apply Forall_cons in Hf as [Hf0 Hf]. apply IH; [done|].
        assert (then_ j (on_result f) ≡ then_ (then_ j (λ _, resolve tt)) (λ _, f (ActionHook.Res undef))) as ->.
        { rewrite then_then. apply then_proper; [done|]. intros v. rewrite then_resolve. apply Hf0. }
        assert (then_ j' (λ _, f (ActionHook.Res undef)) ≡ then_ (then_ j' (λ _, resolve tt)) (λ _, f (ActionHook.Res undef))) as ->.
        { by rewrite then_then. }
        by rewrite Hj. }
    apply Hgo. by rewrite !then_resolve. }
  assert (then_ (seq_all j (fns_of h)) (λ _, k) ≡ then_ j (λ v, then_ (seq_all (resolve v) (fns_of h)) (λ _, k))) as ->.
  { rewrite <- then_then. apply then_proper; [|done]. unfold seq_all.
    generalize (fns_of h). intros l. induction l as [|f l IH] using rev_ind; [by rewrite resolve_then|].
    rewrite foldl_app. simpl. rewrite IH, then_then. apply then_proper; [done|]. intros v. by rewrite foldl_app. }
  rewrite then_then. apply then_proper; [done|]. intros v. apply Hgo.
Qed.

Lemma before_all hs (j j' : job W E V) (k : job W E V) : Forall not_null hs → Forall no_result (concat (map fns_of hs)) →
  (∀ k : job W E V, then_ j (λ _, k) ≡ then_ j' (λ _, k)) →
  then_ (foldl (λ p h, then_ p (λ _, ActionHook.callHook undef h undef)) j hs) (λ _, k) ≡
  then_ (seq_all j' (concat (map fns_of hs))) (λ _, k).
Proof.
  revert j j'. induction hs as [|h hs IH]; intros j j' Hhs Hf Hj; simpl; [apply Hj|].
  apply Forall_cons in Hhs as [Hh Hhs]. simpl in Hf. apply Forall_app in Hf as [Hf1 Hf2].
  unfold seq_all. rewrite foldl_app. fold (seq_all j' (fns_of h)). fold (seq_all (seq_all j' (fns_of h)) (concat (map fns_of hs))).
  apply IH; [done..|]. intros k'. rewrite before_group by done.
  rewrite <- (before_group h j' k') by done. rewrite <- (before_group h j k') by done. by rewrite !then_then, Hj.
Qed.

End hooks.

(** C31. The hooks of an action run in order around its handler: before hooks of the service
    for all actions, then those whose name matches, then the action's own; the
    handler; after hooks the other way round, each given the result of the one
    before; and when anything of this fails, the error hooks the other way round
    until one of them answers.  A hook that is an array counts as its functions
    in order.  This is for hooks whose methods the service has, and before hooks that
    do not look at each other's results. *)
Theorem hooks_in_order {W E V} (undef : V) regexp service name hs ah (handler : job W E V) :
  let bs := ActionHook.before_chain regexp service name hs ah in
  let afs := ActionHook.after_chain regexp service name hs ah in
  let es := ActionHook.error_chain regexp service name hs ah in
  Forall not_null (bs ++ afs ++ es) → Forall (no_result undef) (concat (map fns_of bs)) →
  ActionHook.wrapActionHookMiddleware undef regexp service name hs ah handler ≡
  catch_all (then_all (then_ (seq_all undef (resolve undef) (concat (map fns_of bs))) (λ _, handler))
               (map on_result (concat (map fns_of afs))))
    (map on_error (concat (map fns_of es))).
Proof.
  intros bs afs es Hnn Hnr. apply Forall_app in Hnn as [Hb Hnn]. apply Forall_app in Hnn as [Ha He].
  assert (ActionHook.actionHookMiddleware undef bs afs es handler ≡
    catch_all (then_all (then_ (seq_all undef (resolve undef) (concat (map fns_of bs))) (λ _, handler))
               (map on_result (concat (map fns_of afs)))) (map on_error (concat (map fns_of es)))) as Hmain.
  { unfold ActionHook.actionHookMiddleware. rewrite error_all by done. apply catch_all_proper; [|done].
    rewrite after_all by done. apply then_all_proper; [|done]. by apply before_all. }
  unfold ActionHook.wrapActionHookMiddleware. fold bs afs es.
  destruct bs as [|b bs'] eqn:Hbs; [|exact Hmain]. destruct afs as [|a afs'] eqn:Hafs; [|exact Hmain].
  destruct es as [|e es'] eqn:Hes; [|exact Hmain]. unfold catch_all, then_all, seq_all. simpl. by rewrite then_resolve.
Qed.

(** Hooks that log their number in the world; the second error hook answers. *)
Definition demo_hook (n : nat) : ActionHook.fn (list nat) string nat := λ a t w,
  match a with
  | ActionHook.Res v => (w ++ [n], Settled t (Resolved (v + n)%nat))
  | ActionHook.Err e => (w ++ [n], if (n =? 5)%nat then Settled t (Resolved 50%nat) else Settled t (Rejected e))
  end.
Definition demo_before (n : nat) : ActionHook.fn (list nat) string nat := λ _ t w, (w ++ [n], Settled t (Resolved 0%nat)).
Definition demo_hooks : ActionHook.service_hooks (list nat) string nat :=
  ActionHook.ServiceHooks
    [("*"%string, ActionHook.One (ActionHook.Fn (demo_before 1))); ("get|list"%string, ActionHook.One (ActionHook.Method "check"))]
    [("*"%string, ActionHook.One (ActionHook.Fn (demo_hook 3)))]
    [("g*"%string, ActionHook.Many [ActionHook.Fn (demo_hook 4); ActionHook.Method "rescue"; ActionHook.Fn (demo_hook 6)])].
Definition demo_service (name : string) : option (ActionHook.fn (list nat) string nat) :=
  if String.eqb name "check" then Some (demo_before 2)
  else if String.eqb name "rescue" then Some (demo_hook 5) else None.
Definition demo_own : ActionHook.action_hooks (list nat) string nat := ActionHook.ActionHooks None None None.

(** The handler fails: the hooks 1, 2, 4 and 5 run, and 5 answers. *)
Lemma hooks_in_order_witness :
  let run := ActionHook.wrapActionHookMiddleware 0%nat (λ _ _, false) demo_service "get" demo_hooks demo_own (reject "error"%string) in
  run 7 [] = ([1; 2; 4; 5]%nat, Settled 7 (Resolved 50%nat)) ∧
  run 7 [] = catch_all (then_all (then_ (seq_all 0%nat (resolve 0%nat) [demo_before 1; demo_before 2]) (λ _, reject "error"%string))
    [on_result (demo_hook 3)]) [on_error (demo_hook 4); on_error (demo_hook 5); on_error (demo_hook 6)] 7 [].
Proof.
  intros run. split; [vm_compute; reflexivity|].
  refine (hooks_in_order 0%nat (λ _ _, false) demo_service "get" demo_hooks demo_own (reject "error"%string) _ _ 7 []).
  - repeat (constructor; [exact I|]). constructor.
  - repeat (constructor; [intros v t w; reflexivity|]). constructor.
Defined.

(** A hook given as the name of a method the service does not have is left out where it
    is for all actions, in an array or with the action, but not where it is found by
    the name of the action: there an after hook replaces the response by undefined and
    an error hook hides the error. *)
Theorem unknown_hook_method {W E V} (undef : V) regexp service name m (v : V) (e : E) :
  service m = None → ActionHook.matchHook regexp name name = true →
  let none := ActionHook.ActionHooks None None None in
  let after k := ActionHook.wrapActionHookMiddleware (W := W) undef regexp service name
                   (ActionHook.ServiceHooks [] [(k, ActionHook.One (ActionHook.Method m))] []) none (resolve v) in
  let error k := ActionHook.wrapActionHookMiddleware (W := W) undef regexp service name
                   (ActionHook.ServiceHooks [] [] [(k, ActionHook.One (ActionHook.Method m))]) none (reject e) in
  after "*"%string ≡ resolve v ∧ error "*"%string ≡ reject e ∧
  after name ≡ resolve undef ∧ error name ≡ resolve undef.
Proof.
  intros Hm Hmatch. assert (name ≠ "*"%string) as Hname.
  { intros ->. unfold ActionHook.matchHook in Hmatch. simpl in Hmatch. done. }
  assert (String.eqb "*" name = false) as Hq by (apply String.eqb_neq; congruence).
  cbv zeta. unfold ActionHook.wrapActionHookMiddleware, ActionHook.before_chain, ActionHook.after_chain, ActionHook.error_chain,
    ActionHook.allHook, ActionHook.matchedHooks, ActionHook.ownHook.
  assert (ActionHook.matchHook regexp name "*" = false) as Hstar by done.
  cbn [Arr.filter map OMap.get ActionHook.before ActionHook.after ActionHook.error ActionHook.a_before ActionHook.a_after
       ActionHook.a_error app ActionHook.opt_list ActionHook.sanitizeHooks].
  rewrite Hmatch, Hstar, Hq, String.eqb_refl. cbn. rewrite Hm. split_and!; intros t w; reflexivity.
Qed.

Lemma unknown_hook_method_witness :
  let error := ActionHook.wrapActionHookMiddleware (W := unit) 0%nat (λ _ _, false) (λ _, None) "get"
    (ActionHook.ServiceHooks [] [] [("get"%string, ActionHook.One (ActionHook.Method "onError"))])
    (ActionHook.ActionHooks None None None) (reject "error"%string) in
  ActionHook.matchHook (λ _ _, false) "get" "get" = true ∧ error 1 tt = resolve 0%nat 1 tt.
Proof.
  intros error. split; [vm_compute; reflexivity|].
  destruct (unknown_hook_method (W := unit) 0%nat (λ _ _, false) (λ _, None) "get" "onError" 1%nat "error"%string eq_refl
    ltac:(vm_compute; reflexivity)) as (_ & _ & _ & H). exact (H 1 tt).
Defined.

(** ** Stopping gracefully *)

#[global] Instance tracker_event_eq_dec : EqDecision Tracker.event.
Proof. solve_decision. Defined.

Section tracker.

Definition starts (evs : list Tracker.event) : list nat :=
  omap (λ e, match e with Tracker.Starts x => Some x | _ => None end) evs.

(** Each context starts once and settles only after it has started; no stop has cleared the list. *)
Definition orderly (evs : list Tracker.event) : Prop :=
  NoDup (starts evs) ∧ Tracker.Clears ∉ evs ∧
  (∀ pre suf x, evs = pre ++ Tracker.Settles x :: suf → Tracker.Starts x ∈ pre).

Lemma elem_of_starts x evs : x ∈ starts evs ↔ Tracker.Starts x ∈ evs.
Proof.
  unfold starts. rewrite list_elem_of_omap. split.
  - intros (e & He & Hx). destruct e; simplify_eq. done.
  - intros H. by exists (Tracker.Starts x).
Qed.

Lemma removeContext_notin x l : x ∉ l → Tracker.removeContext x l = l.
Proof.
  intros Hx. unfold Tracker.removeContext. destruct (Arr.findIndex (Nat.eqb x) l) as [i|] eqn:Hi; [|done]. exfalso.
  revert i Hi. induction l as [|y l IH]; intros i Hi; simpl in Hi; [done|]. destruct (Nat.eqb_spec x y) as [->|]; [apply Hx; left|].
  destruct (Arr.findIndex (Nat.eqb x) l) as [j|] eqn:Hj; [|done]. apply (IH ltac:(intros H; apply Hx; by right) j eq_refl).
Qed.

Lemma elem_of_removeContext x y l : NoDup l → y ∈ Tracker.removeContext x l ↔ y ∈ l ∧ y ≠ x.
Proof.
  intros Hnd. destruct (decide (x ∈ l)) as [Hx|Hx].
  - apply list_elem_of_split in Hx as (l1 & l2 & ->). apply NoDup_app in Hnd as (Hn1 & Hd & Hn2).
    apply list.NoDup_cons in Hn2 as [Hn Hn2]. assert (x ∉ l1) as Hx1 by (intros H; apply (Hd x H); left).
    unfold Tracker.removeContext. rewrite (Arr.findIndex_app (Nat.eqb x) l1 x l2) by first [apply Nat.eqb_refl|by intros z Hz; apply Nat.eqb_neq; intros ->].
    rewrite Arr.splice1_app, !elem_of_app, elem_of_cons. split.
    + intros [H|H]; (split; [tauto|intros ->; done]).
    + intros [[H|[->|H]] Hne]; [by left|done|by right].
  - rewrite removeContext_notin by done. split; [|tauto]. intros Hy. split; [done|]. by intros ->.
Qed.

Lemma removeContext_nodup x l : NoDup l → NoDup (Tracker.removeContext x l).
Proof.
  intros Hnd. destruct (decide (x ∈ l)) as [Hx|Hx]; [|by rewrite removeContext_notin].
  apply list_elem_of_split in Hx as (l1 & l2 & ->). apply NoDup_app in Hnd as (Hn1 & Hd & Hn2).
  apply list.NoDup_cons in Hn2 as [Hn Hn2]. assert (x ∉ l1) as Hx1 by (intros H; apply (Hd x H); left).
  unfold Tracker.removeContext. rewrite (Arr.findIndex_app (Nat.eqb x) l1 x l2) by first [apply Nat.eqb_refl|by intros z Hz; apply Nat.eqb_neq; intros ->].
  rewrite Arr.splice1_app. apply NoDup_app. split_and!; [done| |done]. intros z Hz Hz2. apply (Hd z Hz). by right.
Qed.

Lemma orderly_init evs e : orderly (evs ++ [e]) → orderly evs.
Proof.
  intros (H1 & H2 & H3). split_and!.
  - unfold starts in *. rewrite omap_app in H1. by apply NoDup_app in H1 as [H1 _].
  - intros H. apply H2. apply elem_of_app. by left.
  - intros pre suf x ->. apply (H3 pre (suf ++ [e])). by rewrite <- app_assoc.
Qed.

(** The list has exactly the contexts that have started and not settled. *)
Lemma tracked_exact evs : orderly evs →
  NoDup (foldl Tracker.step [] evs) ∧
  ∀ x, x ∈ foldl Tracker.step [] evs ↔ Tracker.Starts x ∈ evs ∧ Tracker.Settles x ∉ evs.
Proof.
  induction evs as [|e evs IH] using rev_ind; intros Ho.
  - split; [constructor|]. intros x. split; [by intros H%not_elem_of_nil|by intros [H%not_elem_of_nil _]].
  - destruct (IH (orderly_init _ _ Ho)) as [Hnd Hx]. rewrite foldl_app. simpl. destruct Ho as (H1 & H2 & H3).
    unfold starts in H1. rewrite omap_app in H1. apply NoDup_app in H1 as (_ & Hfresh & _).
    destruct e as [y|y|]; simpl.
    + assert (y ∉ starts evs) as Hy by (intros H; apply (Hfresh y H); left).
      assert (Tracker.Starts y ∉ evs) as Hy1 by by rewrite <- elem_of_starts.
      assert (Tracker.Settles y ∉ evs) as Hy2.
      { intros H. apply list_elem_of_split in H as (pre & suf & ->). apply Hy1. apply elem_of_app. left.
        apply (H3 pre (suf ++ [Tracker.Starts y])). by rewrite <- app_assoc. }
      split.
      * unfold Tracker.addContext. apply NoDup_app. split_and!; [done| |apply NoDup_singleton].
        intros z Hz Hzy%list_elem_of_singleton. subst z. apply Hx in Hz. tauto.
      * intros x. unfold Tracker.addContext. rewrite !elem_of_app, !list_elem_of_singleton, Hx. split.
        -- intros [[? ?]| ->]; [split; [by left|by intros [?|?]]|]. split; [by right|by intros [?|?]].
        -- intros [[H|H] Hn]; [left; split; [done|by intros ?; apply Hn; left]|right; congruence].
    + split; [by apply removeContext_nodup|]. intros x. rewrite elem_of_removeContext by done.
      rewrite Hx, !elem_of_app, !list_elem_of_singleton. split.
      * intros [[Hs Hn] Hne]. split; [by left|]. intros [?|?]; [done|congruence].
      * intros [[H|H] Hn]; [|done]. split; [split; [done|by intros ?; apply Hn; left]|]. intros ->. apply Hn. by right.
    + exfalso. apply H2. apply elem_of_app. right. left.
Qed.

Lemma poll_spec fuel empty deadline now : deadline - now ≤ 100 * Z.of_nat fuel → now ≤ deadline →
  ∃ t b, Tracker.poll fuel empty deadline now = Some (t, b) ∧ now ≤ t ≤ deadline ∧
    (b = false → empty t = true) ∧
    (empty now = true → now < deadline → t = now ∧ b = false) ∧
    (∀ e, now ≤ e → e + 100 ≤ deadline → (∀ u, e ≤ u → empty u = true) → b = false ∧ t < e + 100).
Proof.
  assert (∀ now, deadline ≤ now → now ≤ deadline →
    ∃ t b, Some (deadline, true) = Some (t, b) ∧ now ≤ t ≤ deadline ∧ (b = false → empty t = true) ∧
    (empty now = true → now < deadline → t = now ∧ b = false) ∧
    (∀ e, now ≤ e → e + 100 ≤ deadline → (∀ u, e ≤ u → empty u = true) → b = false ∧ t < e + 100)) as Hend.
  { intros n H1 H2. eexists _, _. split; [done|]. split_and!; [lia|lia|done|lia|]. intros e He1 He2. lia. }
  revert now. induction fuel as [|fuel IH]; intros now Hf Hd; cbn [Tracker.poll].
  - rewrite (proj2 (Z.leb_le deadline now)) by lia. apply Hend; lia.
  - destruct (Z.leb_spec deadline now) as [Hl|Hl]; [by apply Hend|]. destruct (empty now) eqn:He.
    { eexists _, _. split; [done|]. split_and!; [lia|lia|done|done|]. intros e He1 He2 _. split; [done|lia]. }
    destruct (Z.leb_spec (now + 100) deadline) as [Hle|Hgt].
    + destruct (IH (now + 100)) as (t & b & Hp & Ht & Hb & Hn & Hq); [lia..|]. exists t, b. split; [done|].
      split_and!; [lia|lia|done|done|]. intros e He1 He2 Hall. destruct (Z.leb_spec (now + 100) e); [by apply Hq|].
      destruct (Z.leb_spec e now); [by rewrite (Hall now ltac:(lia)) in He|].
      destruct Hn as [-> ->]; [apply Hall; lia|lia|]. split; [done|lia].
    + assert (Tracker.poll fuel empty deadline (now + 100) = Some (deadline, true)) as ->
        by (destruct fuel; cbn [Tracker.poll]; by rewrite (proj2 (Z.leb_le deadline (now + 100))) by lia).
      eexists _, _. split; [done|]. split_and!; [lia|lia|done|done|]. intros e He1 He2 Hall.
      assert (empty now = true) by (apply Hall; lia). congruence.
Qed.

End tracker.

(** The events up to a time *)
Definition until (t : Z) (evs : list (Z * Tracker.event)) : list Tracker.event :=
  map snd (Arr.filter (λ '(u, _), u <=? t) evs).

Definition nobody (evs : list (Z * Tracker.event)) (t : Z) : bool :=
  match foldl Tracker.step [] (until t evs) with [] => true | _ => false end.

(** Stopping waits for running requests and always ends: the list of tracked contexts is
    exactly those that have started and not settled; the stop ends within its time;
    when it ends without the timeout every request that had started has settled; and if from
    some time on, more than a polling interval before the end, none is running, it ends
    without the timeout less than a polling interval later. *)
Theorem graceful_stop (evs : list (Z * Tracker.event)) time now :
  0 ≤ time → (∀ t, orderly (until t evs)) →
  ∃ t b, Tracker.waitingForActiveContexts (nobody evs) time now = Some (t, b) ∧ now ≤ t ≤ now + time ∧
    (∀ u x, x ∈ foldl Tracker.step [] (until u evs) ↔
            Tracker.Starts x ∈ until u evs ∧ Tracker.Settles x ∉ until u evs) ∧
    (b = false → ∀ x, Tracker.Starts x ∈ until t evs → Tracker.Settles x ∈ until t evs) ∧
    (∀ e, now ≤ e → e + 100 ≤ now + time →
       (∀ u x, e ≤ u → Tracker.Starts x ∈ until u evs → Tracker.Settles x ∈ until u evs) → b = false ∧ t < e + 100).
Proof.
  intros Htime Ho.
  assert (∀ u x, x ∈ foldl Tracker.step [] (until u evs) ↔
    Tracker.Starts x ∈ until u evs ∧ Tracker.Settles x ∉ until u evs) as Hex by (intros u x; by apply tracked_exact).
  assert (∀ u, nobody evs u = true → ∀ x, Tracker.Starts x ∈ until u evs → Tracker.Settles x ∈ until u evs) as Hno.
  { intros u Hu x Hx. unfold nobody in Hu. destruct (decide (Tracker.Settles x ∈ until u evs)) as [?|Hn]; [done|].
    assert (x ∈ foldl Tracker.step [] (until u evs)) as Hin by by apply Hex.
    destruct (foldl Tracker.step [] (until u evs)); [by apply not_elem_of_nil in Hin|done]. }
  assert (∀ u, (∀ x, Tracker.Starts x ∈ until u evs → Tracker.Settles x ∈ until u evs) → nobody evs u = true) as Hyes.
  { intros u Hu. unfold nobody. destruct (foldl Tracker.step [] (until u evs)) as [|x l] eqn:Hl; [done|]. exfalso.
    destruct (proj1 (Hex u x)) as [H1 H2]; [rewrite Hl; left|]. apply H2. by apply Hu. }
  unfold Tracker.waitingForActiveContexts. destruct (nobody evs now) eqn:Hnow.
  - exists now, false. split; [done|]. split_and!; [lia|lia|done|intros _; by apply Hno|]. intros e He1 He2 _. split; [done|lia].
  - destruct (poll_spec (Z.to_nat (time / 100 + 1)) (nobody evs) (now + Z.max 0 time) now) as (t & b & Hp & Ht & Hb & _ & Hq).
    { pose proof (Z.div_pos time 100 Htime ltac:(lia)). pose proof (Z.mul_succ_div_gt time 100 ltac:(lia)). lia. }
    { lia. }
    exists t, b. split; [done|]. split_and!; [lia|lia|done|intros Hbf; by apply Hno, Hb|].
    intros e He1 He2 Hall. apply Hq; [lia|lia|]. intros u Hu. apply Hyes. intros x. by apply Hall.
Qed.

(** One request runs from 10 to 250; the stop begins at 20 and ends at 320. *)
Lemma graceful_stop_witness :
  let evs := [(10, Tracker.Starts 1%nat); (250, Tracker.Settles 1%nat)] in
  Tracker.waitingForActiveContexts (nobody evs) 5000 20 = Some (320, false) ∧
  ∃ t b, Tracker.waitingForActiveContexts (nobody evs) 5000 20 = Some (t, b) ∧ t < 350.
Proof.
  intros evs. split; [vm_compute; reflexivity|].
  assert (∀ t, orderly (until t evs)) as Ho.
  { assert (orderly [] ∧ orderly [Tracker.Starts 1%nat] ∧ orderly [Tracker.Starts 1%nat; Tracker.Settles 1%nat]) as (H0 & H1 & H2).
    { split_and!; (split_and!; [repeat constructor; set_solver|set_solver|]); intros pre suf x Heq;
        destruct pre as [|a [|b pre]]; simplify_eq/=; try (destruct pre; simplify_eq/=); left. }
    assert (∀ t, until t evs = [] ∨ until t evs = [Tracker.Starts 1%nat] ∨ until t evs = [Tracker.Starts 1%nat; Tracker.Settles 1%nat]) as Hu.
    { intros t. unfold until. simpl. destruct (Z.leb_spec 10 t), (Z.leb_spec 250 t); simpl; auto. lia. }
    intros t. by destruct (Hu t) as [->|[->| ->]]. }
  destruct (graceful_stop evs 5000 20 ltac:(lia) Ho) as (t & b & Hw & _ & _ & _ & Hq). exists t, b. split; [exact Hw|].
  destruct (Hq 250 ltac:(lia) ltac:(lia)) as [_ Ht]; [|exact Ht].
  intros u x Hu. unfold until. simpl. rewrite (proj2 (Z.leb_le 10 u)), (proj2 (Z.leb_le 250 u)) by lia. simpl. set_solver.
Defined.

(** ** Rates of events *)

(** Each element at least [gap] after the one before, the first at least [gap] after [prev] *)
Fixpoint apart (gap prev : Z) (ts : list Z) : Prop :=
  match ts with
  | [] => True
  | t :: ts => prev + gap ≤ t ∧ apart gap t ts
  end.

(** The events that are the last for [gap] *)
Fixpoint quiet {C} (gap : Z) (evs : list (Z * C)) : list (Z * C) :=
  match evs with
  | [] => []
  | (t, c) :: evs =>
      match evs with
      | [] => [(t + gap, c)]
      | (t', _) :: _ => if t + gap <=? t' then (t + gap, c) :: quiet gap evs else quiet gap evs
      end
  end.

Lemma debounce_pending {C} gap t (c : C) evs :
  Debounce.called gap (Some (t + gap, c)) evs = quiet gap ((t, c) :: evs).
Proof.
  revert t c. induction evs as [|[t' c'] evs IH]; intros t c; [done|].
  cbn [Debounce.called Debounce.fire]. unfold Debounce.debounceMiddleware.
  assert (quiet gap ((t, c) :: (t', c') :: evs) =
    if t + gap <=? t' then (t + gap, c) :: quiet gap ((t', c') :: evs) else quiet gap ((t', c') :: evs)) as -> by done.
  destruct (t + gap <=? t'); rewrite IH; done.
Qed.

Lemma quiet_apart {C} gap prev (evs : list (Z * C)) : 0 < gap →
  apart 0 prev (map fst evs) → apart gap prev (map fst (quiet gap evs)).
Proof.
  intros Hg. revert prev. induction evs as [|[t c] evs IH]; intros prev Hs; [done|]. destruct Hs as [Ht Hs].
  simpl in Ht. destruct evs as [|[t' c'] evs]; [simpl; split; [lia|done]|].
  assert (quiet gap ((t, c) :: (t', c') :: evs) =
    if t + gap <=? t' then (t + gap, c) :: quiet gap ((t', c') :: evs) else quiet gap ((t', c') :: evs)) as -> by done.
  destruct (Z.leb_spec (t + gap) t').
  - simpl map at 1. split; [lia|]. apply IH. destruct Hs as [_ Hs]. split; [simpl; lia|done].
  - apply IH. destruct Hs as [Hs1 Hs]. split; [simpl in *; lia|done].
Qed.

(** Throttling and debouncing keep their rates.  A throttled event handler is called for
    the first event and then for exactly those at least the throttle time after the last
    call, so calls are that far apart and an event is dropped only less than that time
    after a call.  A debounced one is called, the debounce time later and with its own
    context, for exactly those events that no other follows within that time, so
    calls are that far apart too. *)
Theorem event_rates {C} gap (evs : list (Z * C)) :
  0 < gap → apart 0 gap (map fst evs) →
  let h := Throttle.wrapEventThrottle (Some gap) (map fst evs) in
  h `sublist_of` map fst evs ∧ apart gap 0 h ∧
  (∀ t, t ∈ map fst evs → t ∈ h ∨ ∃ u, u ∈ h ∧ u ≤ t < u + gap) ∧
  Debounce.wrapEventDebounce (Some gap) evs = quiet gap evs ∧ apart gap 0 (map fst (quiet gap evs)).
Proof.
  intros Hg Hs. unfold Throttle.wrapEventThrottle, Debounce.wrapEventDebounce. rewrite (proj2 (Z.ltb_lt 0 gap)) by done. cbv zeta.
  assert (∀ ts last prev, last ≤ prev → apart 0 prev ts →
    Throttle.handled gap last ts `sublist_of` ts ∧ apart gap last (Throttle.handled gap last ts) ∧
    ∀ t, t ∈ ts → t ∈ Throttle.handled gap last ts ∨ (last ≤ t < last + gap) ∨
      ∃ u, u ∈ Throttle.handled gap last ts ∧ u ≤ t < u + gap) as Hgo.
  { clear Hs. induction ts as [|t ts IH]; intros last prev Hl Hs; simpl.
    - split_and!; [done|done|]. by intros t Ht%not_elem_of_nil.
    - destruct Hs as [Ht Hs]. unfold Throttle.throttleMiddleware. destruct (Z.ltb_spec (t - last) gap) as [Hlt|Hge].
      + destruct (IH last t ltac:(lia) Hs) as (H1 & H2 & H3). split_and!; [by apply sublist_cons|done|].
        intros x Hx. apply elem_of_cons in Hx as [->|Hx]; [right; left; lia|by apply H3].
      + destruct (IH t t ltac:(lia) Hs) as (H1 & H2 & H3). split_and!; [by apply sublist_skip|split; [lia|done]|].
        intros x Hx. apply elem_of_cons in Hx as [->|Hx]; [left; left|].
        destruct (H3 x Hx) as [?|[?|(u & Hu & ?)]]; [left; by right| |]; right; right.
        * exists t. split; [left|lia].
        * exists u. split; [by right|lia]. }
  assert (apart gap 0 (map fst evs) → apart 0 gap (map fst evs)) as _.
  { destruct evs; simpl; [done|]. intros [? _]. split; [lia|]. apply Hs. }
  destruct (Hgo (map fst evs) 0 gap ltac:(lia) Hs) as (H1 & H2 & H3). split_and!; [done|done| | |].
  - intros t Ht. destruct (H3 t Ht) as [?|[Hl|?]]; [by left| |by right]. exfalso.
    assert (∀ ts prev, apart 0 prev ts → t ∈ ts → prev ≤ t) as Hlow.
    { induction ts as [|x ts IH]; intros prev Hp Hin; [by apply not_elem_of_nil in Hin|]. destruct Hp as [Hp Hr].
      apply elem_of_cons in Hin as [->|Hin]; [lia|]. specialize (IH x Hr Hin). lia. }
    specialize (Hlow _ _ Hs Ht). lia.
  - destruct evs as [|[t c] evs]; [done|]. exact (debounce_pending gap t c evs).
  - apply quiet_apart; [done|]. destruct evs as [|e evs]; [done|]. destruct Hs as [H0 Hs]. split; [lia|done].
Qed.

(** A burst at 1000 and one event later, with a time of 100 *)
Lemma event_rates_witness :
  let evs := [(1000, 1); (1030, 2); (1060, 3); (1300, 4)]%Z in
  Throttle.wrapEventThrottle (Some 100) (map fst evs) = [1000; 1300] ∧
  Debounce.wrapEventDebounce (Some 100) evs = [(1160, 3); (1400, 4)].
Proof.
  intros evs. split; [reflexivity|].
  destruct (event_rates 100 evs ltac:(lia) ltac:(simpl; lia)) as (_ & _ & _ & H & _). exact H.
Defined.
