(* ===== verification/Calls.v ===== *)
(** * Contexts and calls

    Models [src/context.js] (Module [Context]: [create], [copy], [setEndpoint], the guards
    of [call] and [mcall]), and the way of a call through [call] and [mcall] of
    [src/service-broker.js] and the middlewares [timeout.js], [retry.js],
    [fallback.js] and [error-handler.js] (Module [Calls]).  The options of a call are
    objects that contexts and callers share, so they live in a store; a context is
    passed on and is a value.  Cloning of parameters, tracing spans and metrics are
    left out. *)

From Stdlib Require Import ZArith Lia Bool Ascii Strings.String.
From stdpp Require Import base tactics list strings option.
From S2P Require Import Prelude Promises.

Local Open Scope Z_scope.

Definition metadata := OMap.t json.

(** The middleware options and the name of an action; functions of a schema are named. *)
Record retry_policy := RetryPolicy {
  rp_enabled : bool;
  rp_retries : Z;
  rp_delay : Z;
  rp_maxDelay : Z;
  rp_factor : Z
}.

Record action_def := ActionDef {
  ad_name : string;
  ad_service : option string;
  ad_private : bool;
  ad_timeout : option Z;
  ad_retry : retry_policy;
  ad_fallback : option string
}.

Inductive endpoint_kind :=
| ForAction (a : action_def)
| ForEvent (name : string) (service : option string).

Record endpoint := Ep {
  e_id : string;
  e_local : bool;
  e_kind : endpoint_kind
}.

Record span := Span {
  sp_id : string;
  sp_traceID : string;
  sp_sampled : bool
}.

Module Context.

Record t := Ctx {
  nodeID : string;
  id : string;
  ep : option endpoint;
  service : option string;
  action : option action_def;
  event : option string;
  eventName : option string;
  eventType : option string;
  eventGroups : option (list string);
  options : nat;
  parentID : option string;
  caller : option string;
  level : Z;
  params : json;
  meta : metadata;
  headers : metadata;
  responseHeaders : metadata;
  locals : metadata;
  stream : option nat;
  requestID : string;
  tracing : option bool;
  ctx_span : option span;
  needAck : option bool;
  ackID : option string;
  startHrTime : option Z;
  cachedResult : bool;
  retryAttempts : option Z
}.

(** The options of a call; an absent member is [null]. *)
Inductive fallback := FbValue (v : json) | FbFun (name : string).

Record opts := Opts {
  o_timeout : option Z;
  o_retries : option Z;
  o_nodeID : option string;
  o_requestID : option string;
  o_meta : option metadata;
  o_headers : option metadata;
  o_caller : option string;
  o_parentCtx : option t;
  o_parentSpan : option span;
  o_stream : option nat;
  o_fallback : option fallback
}.

Definition no_opts : opts := Opts None None None None None None None None None None None.

Definition set_timeout (x : option Z) (o : opts) : opts :=
  Opts x (o_retries o) (o_nodeID o) (o_requestID o) (o_meta o) (o_headers o) (o_caller o) (o_parentCtx o)
    (o_parentSpan o) (o_stream o) (o_fallback o).

(** [new Context(broker)]; the options of the constructor are replaced by every caller. *)
Definition new (nodeID uid : string) : t :=
  Ctx nodeID uid None None None None None None None 0 None None 1 JNull [] [] [] [] None uid None None None None
    None false None.

(** [setEndpoint(endpoint)] *)
Definition setEndpoint (e : option endpoint) (c : t) : t :=
  match e with
  | None => Ctx (nodeID c) (id c) None (service c) (action c) (event c) (eventName c) (eventType c) (eventGroups c)
      (options c) (parentID c) (caller c) (level c) (params c) (meta c) (headers c) (responseHeaders c) (locals c)
      (stream c) (requestID c) (tracing c) (ctx_span c) (needAck c) (ackID c) (startHrTime c) (cachedResult c)
      (retryAttempts c)
  | Some x =>
      let '(svc, act, ev) :=
        match e_kind x with
        | ForAction a => (ad_service a, Some a, None)
        | ForEvent name svc => (svc, None, Some name)
        end in
      Ctx (e_id x) (id c) (Some x) svc act ev (eventName c) (eventType c) (eventGroups c)
        (options c) (parentID c) (caller c) (level c) (params c) (meta c) (headers c) (responseHeaders c) (locals c)
        (stream c) (requestID c) (tracing c) (ctx_span c) (needAck c) (ackID c) (startHrTime c) (cachedResult c)
        (retryAttempts c)
  end.

(** [Object.assign(target, source)] *)
Definition assign (target source : metadata) : metadata := foldl (λ m '(k, v), OMap.set k v m) target source.

Definition js_true (s : option string) : bool := match s with Some x => negb (String.eqb x "") | None => false end.

(** [Context.create(broker, endpoint, params, opts)]; [o] is where [opts] is stored. *)
Definition create (nodeID uid : string) (e : option endpoint) (ps : json) (o : nat) (op : opts) : t :=
  let c := new nodeID uid in
  let c := match e with Some _ => setEndpoint e c | None => c end in
  let par := o_parentCtx op in
  let req :=
    match o_requestID op, par with
    | Some r, _ => r
    | None, Some p => requestID p
    | None, None => requestID c
    end in
  let mt :=
    match par, o_meta op with
    | Some p, m => assign (assign [] (meta p)) (default [] m)
    | None, Some m => m
    | None, None => []
    end in
  let hd := match o_headers op with Some h => h | None => [] end in
  let tr := match par with Some p => tracing p | None => None end in
  let lv := match par with Some p => level p + 1 | None => 1 end in
  let pid :=
    match par with
    | Some p => Some (match ctx_span p with Some s => sp_id s | None => id p end)
    | None => None
    end in
  let cl := match par with Some p => service p | None => None end in
  let cl := if js_true (o_caller op) then o_caller op else cl in
  let '(pid, req, tr) :=
    match o_parentSpan op with
    | Some s => (Some (sp_id s), sp_traceID s, Some (sp_sampled s))
    | None => (pid, req, tr)
    end in
  Ctx (Context.nodeID c) (id c) (ep c) (service c) (action c) (event c) None None None o pid cl lv
    (if is_null ps then JNull else ps) mt hd [] [] None req tr None None None None false None.

(** [ctx.copy(ep)] *)
Definition copy (uid : string) (e : option endpoint) (c : t) : t :=
  let n := setEndpoint (match e with Some _ => e | None => ep c end)
    (Ctx (nodeID c) uid None None None None None None None 0 None None 1 JNull [] [] [] [] None uid None None
       None None None false None) in
  Ctx (nodeID n) uid (ep n) (service n) (action n) (event n) (eventName c) (eventType c) (eventGroups c)
    (options c) (parentID c) (caller c) (level c) (params c) (meta c) (headers c) (responseHeaders c) (locals c)
    (stream c) (requestID c) (tracing c) (ctx_span c) (needAck c) (ackID c) None (cachedResult c) None.

(** [mergeMeta(ctx, newMeta)] *)
Definition mergeMeta (c : t) (m : option metadata) : t :=
  match m with
  | None => c
  | Some m =>
      Ctx (nodeID c) (id c) (ep c) (service c) (action c) (event c) (eventName c) (eventType c) (eventGroups c)
        (options c) (parentID c) (caller c) (level c) (params c) (assign (meta c) m) (headers c) (responseHeaders c)
        (locals c) (stream c) (requestID c) (tracing c) (ctx_span c) (needAck c) (ackID c) (startHrTime c)
        (cachedResult c) (retryAttempts c)
  end.

Definition set_startHrTime (x : option Z) (c : t) : t :=
  Ctx (nodeID c) (id c) (ep c) (service c) (action c) (event c) (eventName c) (eventType c) (eventGroups c)
    (options c) (parentID c) (caller c) (level c) (params c) (meta c) (headers c) (responseHeaders c)
    (locals c) (stream c) (requestID c) (tracing c) (ctx_span c) (needAck c) (ackID c) x (cachedResult c)
    (retryAttempts c).

Definition set_retryAttempts (x : option Z) (c : t) : t :=
  Ctx (nodeID c) (id c) (ep c) (service c) (action c) (event c) (eventName c) (eventType c) (eventGroups c)
    (options c) (parentID c) (caller c) (level c) (params c) (meta c) (headers c) (responseHeaders c)
    (locals c) (stream c) (requestID c) (tracing c) (ctx_span c) (needAck c) (ackID c) (startHrTime c) (cachedResult c)
    x.

Definition set_stream (x : option nat) (c : t) : t :=
  Ctx (nodeID c) (id c) (ep c) (service c) (action c) (event c) (eventName c) (eventType c) (eventGroups c)
    (options c) (parentID c) (caller c) (level c) (params c) (meta c) (headers c) (responseHeaders c)
    (locals c) x (requestID c) (tracing c) (ctx_span c) (needAck c) (ackID c) (startHrTime c) (cachedResult c)
    (retryAttempts c).

(** *** Sub-calls *)

Inductive guard :=
| Go (o : opts)
| RequestSkipped
| MaxCallLevel (level : Z).

(** [Object.assign({ parentCtx: this }, _opts)] *)
Definition child_opts (c : t) (o : opts) : opts :=
  match o_parentCtx o with
  | Some _ => o
  | None => Opts (o_timeout o) (o_retries o) (o_nodeID o) (o_requestID o) (o_meta o) (o_headers o) (o_caller o) (Some c)
      (o_parentSpan o) (o_stream o) (o_fallback o)
  end.

(** The tests of [ctx.call] and [ctx.mcall] before the broker is called at time [now];
    [timeout] is [this.options.timeout]. *)
Definition call_guard (maxCallLevel now : Z) (timeout : option Z) (c : t) (o : opts) : guard :=
  let o := child_opts c o in
  let check_level o :=
    if (0 <? maxCallLevel) && (maxCallLevel <=? level c) then MaxCallLevel (level c) else Go o in
  match timeout, startHrTime c with
  | Some tm, Some t0 =>
      if 0 <? tm then
        let dist := tm - (now - t0) in
        if dist <=? 0 then RequestSkipped
        else
          check_level
            (match o_timeout o with
             | Some x => if (x =? 0) || (dist <? x) then set_timeout (Some dist) o else o
             | None => set_timeout (Some dist) o
             end)
      else check_level o
  | _, _ => check_level o
  end.

End Context.

(** ** The way of a call *)

Module Calls.

Section calls.
(** The world of users: what the code they wrote and the registry change *)
Context {U : Type}.

(** Why a call fails *)
Inductive failure :=
| RequestTimeout (action : string) (nodeID : string)
| Unroutable (why : string)
| RequestSkipped (action : string) (nodeID : string)
| MaxCallLevel (nodeID : string) (level : Z)
| InvalidFallback (action : string)
| InvalidDefinition
| UserError (data : json).

Record world := World {
  w_opts : list Context.opts;
  w_user : U;
  w_log : list (Z * (string * string))   (* handlers called, errors handled and pending requests removed *)
}.

Notation job := (job world failure json).

(** What is not in the files modelled here: the identifiers of contexts, the routing of a
    call ([Routing]), the rest of the handler of an endpoint and fallback functions;
    and the options of the broker. *)
Context (uid : U → U * string).
Context (route : string → option string → Context.t → U → U * (endpoint + failure)).
Context (inner : Context.t → Z → U → U * promise failure json).
Context (fallback_fn : string → option (Context.t → failure → Z → U → U * promise failure json)).
Context (response_fn : string → Context.t → failure → Z → U → U * promise failure json).
Context (check : failure → bool).
Context (errorHandler : option (failure → Z → U → U * promise failure json)).
Context (nodeID : string) (requestTimeout : option Z) (maxCallLevel : Z).

Definition user_job (f : Z → U → U * promise failure json) : job := λ t w,
  let '(u, p) := f t (w_user w) in (World (w_opts w) u (w_log w), p).

Definition opts_of (w : world) (c : Context.t) : Context.opts := nth (Context.options c) (w_opts w) Context.no_opts.
Definition set_opts (i : nat) (o : Context.opts) (w : world) : world :=
  World (<[i := o]> (w_opts w)) (w_user w) (w_log w).
Definition logged (t : Z) (e : string * string) (w : world) : world :=
  World (w_opts w) (w_user w) (w_log w ++ [(t, e)]).

Definition new_uid (w : world) : string * world :=
  let '(u, x) := uid (w_user w) in (x, World (w_opts w) u (w_log w)).

(** The handler that the middlewares wrap *)
Definition handler (c : Context.t) : job := λ t w,
  user_job (inner c) t (logged t ("call"%string, Context.nodeID c) w).

(** The timeout of a call to action [a] with the options [o] *)
Definition timeout_of (a : action_def) (o : Context.opts) : option Z :=
  match Context.o_timeout o with
  | Some x => Some x
  | None => match ad_timeout a with Some x => Some x | None => requestTimeout end
  end.

(** The context whose timeout [tm] starts at [t] *)
Definition start_timer (tm : option Z) (t : Z) (c : Context.t) : Context.t :=
  match tm, Context.startHrTime c with
  | Some x, None => if 0 <? x then Context.set_startHrTime (Some t) c else c
  | _, _ => c
  end.

(** [timeoutMiddleware(ctx)] *)
Definition timeoutMiddleware (a : action_def) (next : Context.t → job) (c : Context.t) : job := λ t w,
  let o := opts_of w c in
  let tm := timeout_of a o in
  let w := match Context.o_timeout o with
           | Some _ => w
           | None => set_opts (Context.options c) (Context.set_timeout tm o) w
           end in
  let c := start_timer tm t c in
  match tm with
  | Some x =>
      if 0 <? x then timeout_ x (RequestTimeout (ad_name a) (Context.nodeID c)) (next c) t w
      else next c t w
  | None => next c t w
  end.

(** [Math.min(opts.delay * Math.pow(opts.factor, ctx._retryAttempts - 1), opts.maxDelay)] *)
Definition retry_delay (r : retry_policy) (attempts : Z) : Z :=
  Z.min (rp_delay r * rp_factor r ^ (attempts - 1)) (rp_maxDelay r).

(** [retryMiddleware(ctx)]; [recall ctx] calls again. *)
Definition retryMiddleware (a : action_def) (recall : Context.t → job) (next : Context.t → job) (c : Context.t) : job :=
  if rp_enabled (ad_retry a) then λ t w,
    let attempts := match Context.o_retries (opts_of w c) with Some n => n | None => rp_retries (ad_retry a) end in
    let n := default 0 (Context.retryAttempts c) in
    let c := Context.set_retryAttempts (Some n) c in
    catch_ (next c) (λ err,
      if negb (String.eqb (Context.nodeID c) nodeID) && match Context.ep c with Some e => e_local e | None => false end
      then reject err
      else if check err && (n <? attempts) then
        let c := Context.set_retryAttempts (Some (n + 1)) c in
        delayed (retry_delay (ad_retry a) (n + 1)) (λ t w,
          let '(x, w) := new_uid w in
          recall (Context.set_retryAttempts (Some (n + 1)) (Context.copy x None c)) t w)
      else reject err) t w
  else next c.

(** The fallback of the action's schema, a function or the name of a method *)
Definition own_fallback (a : action_def) (c : Context.t) (err : failure) : job :=
  match ad_fallback a, ad_service a with
  | Some f, Some _ =>
      match fallback_fn f with
      | Some k => user_job (k c err)
      | None => reject (InvalidFallback (ad_name a))
      end
  | _, _ => reject err
  end.

(** [fallbackMiddleware(ctx)] *)
Definition fallbackMiddleware (a : action_def) (next : Context.t → job) (c : Context.t) : job :=
  catch_ (next c) (λ err t w,
    match Context.o_fallback (opts_of w c) with
    | Some (Context.FbFun f) => user_job (response_fn f c err) t w
    | Some (Context.FbValue v) => if truthy v then resolve v t w else own_fallback a c err t w
    | None => own_fallback a c err t w
    end).

(** [broker.errorHandler(err, info)] *)
Definition broker_errorHandler (err : failure) : job := λ t w,
  match errorHandler with
  | Some f => user_job (f err) t (logged t ("errorHandler"%string, ""%string) w)
  | None => reject err t w
  end.

(** [errorHandlerMiddleware(ctx)] of actions; that it removes the pending request of a
    call to another node is an entry of the log. *)
Definition errorHandlerMiddleware (next : Context.t → job) (c : Context.t) : job :=
  catch_ (next c) (λ err t w,
    broker_errorHandler err t
      (if String.eqb (Context.nodeID c) nodeID then w else logged t ("removePendingRequest"%string, Context.id c) w)).

(** The handler of an action's endpoint, wrapped in the order of [INTERNAL_MIDDLEWARES] *)
Definition action_handler (recall : Context.t → job) (a : action_def) (c : Context.t) : job :=
  errorHandlerMiddleware (fallbackMiddleware a (retryMiddleware a recall (timeoutMiddleware a handler))) c.

(** What [call] is given: options of a new context, or a context to use again *)
Inductive call_arg :=
| Fresh (o : nat)
| Reused (c : Context.t).

(** [broker.call(actionName, params, opts)].  A repeated call of an action that is not
    private goes through [call] again with the context as its only option; each
    repetition takes one unit of fuel. *)
Fixpoint call (fuel : nat) (name : string) (ps : json) (arg : call_arg) : job :=
  match fuel with
  | O => λ t w, (w, NoFuel)
  | Datatypes.S fuel => λ t w,
      let '(c, direct, strm, w) :=
        match arg with
        | Reused c => (c, None, None, w)
        | Fresh o =>
            let op := nth o (w_opts w) Context.no_opts in
            let '(x, w) := new_uid w in
            let ps := match ps with JUndef => JObj [] | _ => ps end in
            (Context.create nodeID x None ps o op, Context.o_nodeID op, Context.o_stream op, w)
        end in
      let '(u, r) := route name direct c (w_user w) in
      let w := World (w_opts w) u (w_log w) in
      match r with
      | inr err => catch_ (reject err) broker_errorHandler t w
      | inl e =>
          let c := Context.setEndpoint (Some e) c in
          let c := match strm with Some _ => if e_local e then Context.set_stream strm c else c | None => c end in
          wrapped fuel name e c t w
      end
  end
with wrapped (fuel : nat) (name : string) (e : endpoint) (c : Context.t) : job :=
  match fuel with
  | O => λ t w, (w, NoFuel)
  | Datatypes.S fuel =>
      match e_kind e with
      | ForAction a =>
          action_handler
            (if ad_private a then wrapped fuel name e else λ c, call fuel name (Context.params c) (Reused c)) a c
      | ForEvent _ _ => handler c
      end
  end.

(** [ctx.call(actionName, params, opts)] before the metadata are merged; new options are
    stored. *)
Definition ctx_call (fuel : nat) (c : Context.t) (name : string) (ps : json) (o : Context.opts) : job := λ t w,
  match Context.call_guard maxCallLevel t (Context.o_timeout (opts_of w c)) c o with
  | Context.Go o => call fuel name ps (Fresh (length (w_opts w))) t (World (w_opts w ++ [o]) (w_user w) (w_log w))
  | Context.RequestSkipped => reject (RequestSkipped name nodeID) t w
  | Context.MaxCallLevel l => reject (MaxCallLevel nodeID l) t w
  end.

(** *** Several calls

    The calls of [mcall] start at the same time one after the other; what they do to
    shared options they do as they start. *)

Fixpoint start_all (fuel : nat) (items : list (string * json * option nat)) (common : nat) (t : Z) (w : world)
    : world * list (promise failure json) :=
  match items with
  | [] => (w, [])
  | (name, ps, own) :: items =>
      let '(w, p) := call fuel name ps (Fresh (default common own)) t w in
      let '(w, l) := start_all fuel items common t w in
      (w, p :: l)
  end.

(** [Promise.all] and [Promise.allSettled] of promises that were started at [t] *)
Fixpoint all_resolved (t : Z) (ps : list (promise failure json)) : promise failure (list json) :=
  match ps with
  | [] => Settled t (Resolved [])
  | p :: ps =>
      match p, all_resolved t ps with
      | NoFuel, _ | _, NoFuel => NoFuel
      | Settled t1 (Rejected e1), Settled t2 (Rejected e2) =>
          if t1 <=? t2 then Settled t1 (Rejected e1) else Settled t2 (Rejected e2)
      | Settled t1 (Rejected e1), _ => Settled t1 (Rejected e1)
      | _, Settled t2 (Rejected e2) => Settled t2 (Rejected e2)
      | Settled t1 (Resolved v), Settled t2 (Resolved l) => Settled (Z.max t1 t2) (Resolved (v :: l))
      | Never, _ | _, Never => Never
      end
  end.

Fixpoint all_settled (t : Z) (ps : list (promise failure json)) : promise failure (list (result failure json)) :=
  match ps with
  | [] => Settled t (Resolved [])
  | p :: ps =>
      match p, all_settled t ps with
      | NoFuel, _ | _, NoFuel => NoFuel
      | Settled t1 r, Settled t2 (Resolved l) => Settled (Z.max t1 t2) (Resolved (r :: l))
      | _, Settled t2 (Rejected e) => Settled t2 (Rejected e)
      | Never, _ | _, Never => Never
      end
  end.

(** [broker.mcall(def, opts)] of an array; [opts] without [settled] becomes a new object
    that the items without options of their own share. *)
Definition mcall (fuel : nat) (items : list (string * json * option nat)) (o : Context.opts) (t : Z) (w : world)
    : world * promise failure (list json) :=
  let '(w, l) := start_all fuel items (length (w_opts w)) t (World (w_opts w ++ [o]) (w_user w) (w_log w)) in
  (w, all_resolved t l).

Definition mcall_settled (fuel : nat) (items : list (string * json * option nat)) (o : Context.opts) (t : Z) (w : world)
    : world * promise failure (list (result failure json)) :=
  let '(w, l) := start_all fuel items (length (w_opts w)) t (World (w_opts w ++ [o]) (w_user w) (w_log w)) in
  (w, all_settled t l).

(** [broker.mcall(def, opts)] of an object: the results by name.  With [settled] what was
    rejected is just absent. *)
Definition named (names : list string) (l : list json) : OMap.t json :=
  foldl (λ m '(k, v), OMap.set k v m) [] (zip names l).

Definition mcall_object (fuel : nat) (def : OMap.t (string * json * option nat)) (settled : bool) (o : Context.opts)
    (t : Z) (w : world) : world * promise failure (OMap.t json) :=
  let '(w, l) := start_all fuel (OMap.values def) (length (w_opts w)) t (World (w_opts w ++ [o]) (w_user w) (w_log w)) in
  let names := OMap.keys def in
  (w, if settled then
        match all_settled t l with
        | Settled t' (Resolved rs) =>
            Settled t' (Resolved
              (foldl (λ m '(k, r), match r with Resolved v => OMap.set k v m | Rejected _ => m end) [] (zip names rs)))
        | Settled t' (Rejected e) => Settled t' (Rejected e)
        | Never => Never
        | NoFuel => NoFuel
        end
      else
        match all_resolved t l with
        | Settled t' (Resolved vs) => Settled t' (Resolved (named names vs))
        | Settled t' (Rejected e) => Settled t' (Rejected e)
        | Never => Never
        | NoFuel => NoFuel
        end).

End calls.
End Calls.
