(* ===== verification/CallTheorems.v ===== *)
(** * What calls guarantee

    Chains of sub-calls are bounded in depth and nested in time; a call with the retry
    policy ends after a bounded number of attempts; a fallback response answers
    every failure; and how options that are shared leak from one call into another. *)

From Stdlib Require Import ZArith Lia Bool Ascii Strings.String.
From stdpp Require Import base tactics list strings option relations.
From S2P Require Import Prelude Promises Calls.

Local Open Scope Z_scope.

(** ** Chains of sub-calls *)

Section chain.
Context (requestTimeout : option Z) (maxCallLevel : Z).

(** When the timeout of a running context is over *)
Definition deadline (c : Context.t) (tm : option Z) : option Z :=
  match tm, Context.startHrTime c with
  | Some x, Some t0 => if 0 <? x then Some (t0 + x) else None
  | _, _ => None
  end.

(** [x] and [y] are contexts that run with their timeouts; [y] runs a call that [x] made.
    The call gives no parent, request or span of its own and no negative timeout.  It may be
    repeated by the retry middleware, any number of times: then a copy of the context
    runs, whose timeout starts again.  The flag says whether it is the first attempt. *)
Inductive calls (x : Context.t * option Z) : bool → Context.t * option Z → Prop :=
| calls_child t nodeID uid e a ps i o o' c :
    Context.o_parentCtx o = None → Context.o_requestID o = None → Context.o_parentSpan o = None →
    (∀ n, Context.o_timeout o = Some n → 0 ≤ n) →
    Context.call_guard maxCallLevel t x.2 x.1 o = Context.Go o' →
    c = Context.setEndpoint (Some e) (Context.create nodeID uid None ps i o') →
    calls x true (Calls.start_timer (Calls.timeout_of requestTimeout a o') t c, Calls.timeout_of requestTimeout a o')
| calls_again first y t uid k e a :
    calls x first y →
    let tm := match y.2 with
              | Some n => Some n
              | None => match ad_timeout a with Some n => Some n | None => requestTimeout end
              end in
    calls x false (Calls.start_timer tm t
      (Context.setEndpoint (Some e) (Context.set_retryAttempts (Some k) (Context.copy uid None y.1))), tm).

Lemma start_timer_fields tm t c :
  Context.level (Calls.start_timer tm t c) = Context.level c ∧
  Context.requestID (Calls.start_timer tm t c) = Context.requestID c ∧
  Context.parentID (Calls.start_timer tm t c) = Context.parentID c.
Proof. unfold Calls.start_timer. destruct tm as [x|], (Context.startHrTime c); try done. by destruct (0 <? x). Qed.

Lemma setEndpoint_fields e c :
  Context.level (Context.setEndpoint e c) = Context.level c ∧
  Context.requestID (Context.setEndpoint e c) = Context.requestID c ∧
  Context.parentID (Context.setEndpoint e c) = Context.parentID c ∧
  Context.startHrTime (Context.setEndpoint e c) = Context.startHrTime c.
Proof. destruct e as [[? ? []]|]; done. Qed.

(** What [ctx.call] hands to the broker *)
Lemma call_guard_go t tm c o o' : Context.o_parentCtx o = None → Context.call_guard maxCallLevel t tm c o = Context.Go o' →
  Context.o_parentCtx o' = Some c ∧ Context.o_requestID o' = Context.o_requestID o ∧
  Context.o_parentSpan o' = Context.o_parentSpan o ∧
  (0 < maxCallLevel → Context.level c < maxCallLevel) ∧
  match deadline c tm with
  | None => Context.o_timeout o' = Context.o_timeout o
  | Some d => t < d ∧ ((∀ n, Context.o_timeout o = Some n → 0 ≤ n) → ∃ n, Context.o_timeout o' = Some n ∧ 0 < n ≤ d - t)
  end.
Proof.
  intros Hp. unfold Context.call_guard, deadline.
  set (check := λ o : Context.opts, if (0 <? maxCallLevel) && (maxCallLevel <=? Context.level c) then Context.MaxCallLevel (Context.level c) else Context.Go o).
  assert (∀ o1, check o1 = Context.Go o' → o1 = o' ∧ (0 < maxCallLevel → Context.level c < maxCallLevel)) as Hcheck.
  { intros o1. unfold check. destruct (Z.ltb_spec 0 maxCallLevel), (Z.leb_spec maxCallLevel (Context.level c)); simpl; intros [= <-]; split; (done || lia). }
  unfold Context.child_opts. rewrite Hp.
  destruct tm as [x|], (Context.startHrTime c) as [t0|]; try (intros H; apply Hcheck in H as [<- ?]; done).
  destruct (Z.ltb_spec 0 x) as [Hx|Hx]; [|intros H; apply Hcheck in H as [<- ?]; done].
  cbv zeta. destruct (Z.leb_spec (x - (t - t0)) 0) as [Hd|Hd]; [done|]. cbn [Context.o_timeout].
  destruct (Context.o_timeout o) as [n|] eqn:Ho.
  - destruct ((n =? 0) || (x - (t - t0) <? n)) eqn:Hb; intros H; apply Hcheck in H as [<- ?]; (split_and!; [done..|lia|]); intros Hpos.
    + eexists. split; [done|]. lia.
    + apply orb_false_iff in Hb as [Hn0 Hlt]. to_prop. specialize (Hpos n eq_refl). exists n. split; [done|]. lia.
  - intros H; apply Hcheck in H as [<- ?]; (split_and!; [done..|lia|]); intros Hpos. eexists. split; [done|]. lia.
Qed.

Lemma setEndpoint_copy uid k e c :
  let c' := Context.setEndpoint e (Context.set_retryAttempts (Some k) (Context.copy uid None c)) in
  Context.level c' = Context.level c ∧ Context.requestID c' = Context.requestID c ∧ Context.startHrTime c' = None.
Proof.
  cbv zeta. destruct (setEndpoint_fields e (Context.set_retryAttempts (Some k) (Context.copy uid None c))) as (-> & -> & _ & ->).
  unfold Context.copy, Context.set_retryAttempts. done.
Qed.

(** Any attempt *)
Lemma calls_step x b y : calls x b y →
  Context.level y.1 = Context.level x.1 + 1 ∧ (0 < maxCallLevel → Context.level y.1 ≤ maxCallLevel) ∧
  Context.requestID y.1 = Context.requestID x.1.
Proof.
  induction 1 as [t nodeID uid e a ps i o o' c Hp Hr Hs Ht Hg ->|first y t uid k e a _ IH tm]; cbn [fst snd].
  - destruct x as [c tm]. cbn [fst snd] in *. apply call_guard_go in Hg as (Hp' & Hr' & Hs' & Hl & Hd); [|done].
    destruct (start_timer_fields (Calls.timeout_of requestTimeout a o') t
      (Context.setEndpoint (Some e) (Context.create nodeID uid None ps i o'))) as (-> & -> & _).
    destruct (setEndpoint_fields (Some e) (Context.create nodeID uid None ps i o')) as (-> & -> & _).
    unfold Context.create. rewrite Hp', Hr', Hr, Hs', Hs. simpl. split_and!; [done|intros; specialize (Hl ltac:(done)); lia|done].
  - destruct (start_timer_fields tm t (Context.setEndpoint (Some e) (Context.set_retryAttempts (Some k) (Context.copy uid None y.1)))) as (-> & -> & _).
    destruct (setEndpoint_copy uid k (Some e) y.1) as (-> & -> & _). exact IH.
Qed.

(** A first attempt ends no later than its caller. *)
Lemma calls_first x y : calls x true y → ∀ d, deadline x.1 x.2 = Some d → ∃ d', deadline y.1 y.2 = Some d' ∧ d' ≤ d.
Proof.
  intros Hc. inversion Hc as [t nodeID uid e a ps i o o' c Hp Hr Hs Ht Hg ->|]; subst. clear Hc. destruct x as [c tm]. cbn [fst snd] in *.
  apply call_guard_go in Hg as (Hp' & Hr' & Hs' & Hl & Hd); [|done].
  destruct (setEndpoint_fields (Some e) (Context.create nodeID uid None ps i o')) as (_ & _ & _ & Hstart).
  intros d Hdl. rewrite Hdl in Hd. destruct Hd as [Hlt Hn]. destruct (Hn Ht) as (n & Hn' & Hb).
  exists (t + n). split; [|lia]. unfold Context.create. rewrite Hp', Hr', Hr, Hs', Hs. unfold Calls.timeout_of. rewrite Hn'.
  unfold Calls.start_timer, deadline. destruct e as [? ? []]; simpl; rewrite (proj2 (Z.ltb_lt 0 n)) by lia; simpl; done.
Qed.

(** A repetition ends when its whole timeout is over, counted from its own start. *)
Lemma calls_repeated x y n : calls x false y → y.2 = Some n → 0 < n → ∃ t, deadline y.1 y.2 = Some (t + n) ∧ Context.startHrTime y.1 = Some t.
Proof.
  intros Hc. inversion Hc as [|first z t uid k e a _ tm]; subst. cbn [fst snd]. intros Hn Hpos. exists t.
  fold tm in Hn |- *. rewrite Hn. destruct (setEndpoint_copy uid k (Some e) z.1) as (_ & _ & Hs). unfold Calls.start_timer. rewrite Hs.
  rewrite (proj2 (Z.ltb_lt 0 n)) by done. unfold deadline. simpl. by rewrite (proj2 (Z.ltb_lt 0 n)).
Qed.

End chain.


(** ** Repeated calls *)

Section retry.
Context {U : Type}.
Context (uid : U → U * string).
Context (route : string → option string → Context.t → U → U * (endpoint + Calls.failure)).
Context (inner : Context.t → Z → U → U * promise Calls.failure json).
Context (fallback_fn : string → option (Context.t → Calls.failure → Z → U → U * promise Calls.failure json)).
Context (response_fn : string → Context.t → Calls.failure → Z → U → U * promise Calls.failure json).
Context (check : Calls.failure → bool).
Context (errorHandler : option (Calls.failure → Z → U → U * promise Calls.failure json)).
Context (nodeID : string) (requestTimeout : option Z) (r : retry_policy).

Notation world := (Calls.world (U := U)).
Notation job := (job world Calls.failure json).
Notation call := (Calls.call uid route inner fallback_fn response_fn check errorHandler nodeID requestTimeout).
Notation wrapped := (Calls.wrapped uid route inner fallback_fn response_fn check errorHandler nodeID requestTimeout).
Notation opts_of := (Calls.opts_of (U := U)).

(** A promise that settles, if it does, not before [t] *)
Definition later {A} (t : Z) (p : promise Calls.failure A) : Prop :=
  match p with Settled t' _ => t ≤ t' | Never => True | NoFuel => False end.

(** The code of users takes time forwards; endpoints have the policy [r]. *)
Context (inner_later : ∀ c t u, later t (inner c t u).2).
Context (fallback_later : ∀ f k c e t u, fallback_fn f = Some k → later t (k c e t u).2).
Context (response_later : ∀ f c e t u, later t (response_fn f c e t u).2).
Context (handler_later : ∀ f e t u, errorHandler = Some f → later t (f e t u).2).
Context (route_action : ∀ name d c u e, (route name d c u).2 = inl e → ∃ a, e_kind e = ForAction a ∧ ad_retry a = r).

(** The times at which handlers were called *)
Definition call_times (w : world) : list Z :=
  omap (λ '(t, (what, _)), if String.eqb what "call" then Some t else None) (Calls.w_log w).

(** Options keep their retries and fallback responses. *)
Definition keeps (w w' : world) : Prop :=
  ∀ c, Context.o_retries (opts_of w' c) = Context.o_retries (opts_of w c) ∧
       Context.o_fallback (opts_of w' c) = Context.o_fallback (opts_of w c).

Lemma keeps_refl w : keeps w w.
Proof. done. Qed.
Lemma keeps_trans w1 w2 w3 : keeps w1 w2 → keeps w2 w3 → keeps w1 w3.
Proof. intros H1 H2 c. destruct (H1 c) as [<- <-]. apply H2. Qed.

(** From [t] and [w] the job keeps options, ends not before [t], and the times of its calls
    and its promise satisfy [Q]. *)
Definition good (j : job) (t : Z) (w : world) (Q : list Z → promise Calls.failure json → Prop) : Prop :=
  keeps w (j t w).1 ∧ later t (j t w).2 ∧ ∃ ts, call_times (j t w).1 = call_times w ++ ts ∧ Q ts (j t w).2.

Lemma good_weaken j t w (Q Q' : list Z → promise Calls.failure json → Prop) :
  good j t w Q → (∀ ts p, Q ts p → Q' ts p) → good j t w Q'.
Proof. intros (H1 & H2 & ts & H3 & H4) HQ. split_and!; [done..|]. exists ts. auto. Qed.

Lemma later_weaken {A} t t' (p : promise Calls.failure A) : t ≤ t' → later t' p → later t p.
Proof. destruct p; simpl; [lia|done..]. Qed.

Definition is_rejected (p : promise Calls.failure json) : Prop := match p with Settled _ (Rejected _) => True | _ => False end.

Lemma good_catch j k t w (Q Q' : list Z → promise Calls.failure json → Prop) :
  good j t w Q →
  (∀ ts p, Q ts p → ¬ is_rejected p → Q' ts p) →
  (∀ ts t' e w1, keeps w w1 → t ≤ t' → Q ts (Settled t' (Rejected e)) → good (k e) t' w1 (λ ts' p, Q' (ts ++ ts') p)) →
  good (catch_ j k) t w Q'.
Proof.
  intros (H1 & H2 & ts & H3 & H4) Hn Hr. unfold good, catch_. destruct (j t w) as [w1 p]. simpl in *.
  destruct p as [t' [v|e]| |]; simpl in *; try (split_and!; [done..|]; exists ts; split; [done|apply Hn; [done|by intros []]]).
  destruct (Hr ts t' e w1 H1 H2 H4) as (G1 & G2 & ts' & G3 & G4). split_and!; [by eapply keeps_trans|by eapply later_weaken|].
  exists (ts ++ ts'). by rewrite G3, H3, app_assoc.
Qed.

Lemma good_user f t w : later t (f t (Calls.w_user w)).2 → good (Calls.user_job f) t w (λ ts _, ts = []).
Proof.
  intros Hf. unfold good, Calls.user_job. destruct (f t (Calls.w_user w)) as [u p]. split_and!; [done|done|]. exists []. by rewrite app_nil_r.
Qed.

Lemma good_reject e t w : good (reject e) t w (λ ts p, ts = [] ∧ p = Settled t (Rejected e)).
Proof. split_and!; [done|simpl; lia|]. exists []. by rewrite app_nil_r. Qed.

(** Only calls count. *)
Lemma good_logged j t w what x Q : what ≠ "call"%string → good j t (Calls.logged t (what, x) w) Q →
  good (λ t w, j t (Calls.logged t (what, x) w)) t w Q.
Proof.
  intros Hw (H1 & H2 & ts & H3 & H4). split_and!; [done|done|]. exists ts. split; [|done]. rewrite H3. unfold call_times, Calls.logged.
  cbn [Calls.w_log]. rewrite omap_app. apply String.eqb_neq in Hw. cbn. rewrite Hw. by rewrite app_nil_r.
Qed.

Lemma good_handler c t w : good (Calls.handler inner c) t w (λ ts _, ts = [t]).
Proof.
  unfold Calls.handler.
  assert (good (Calls.user_job (inner c)) t (Calls.logged t ("call"%string, Context.nodeID c) w) (λ ts _, ts = [])) as (H1 & H2 & ts & H3 & ->)
    by (apply good_user; apply inner_later).
  split_and!; [done|done|]. exists [t]. split; [|done]. rewrite app_nil_r in H3. rewrite H3.
  unfold call_times, Calls.logged. simpl. by rewrite omap_app.
Qed.

Lemma keeps_set_timeout w c tm : keeps w (Calls.set_opts (Context.options c) (Context.set_timeout tm (opts_of w c)) w).
Proof.
  intros c'. unfold Calls.opts_of, Calls.set_opts. simpl.
  destruct (decide (Context.options c' = Context.options c ∧ (Context.options c < length (Calls.w_opts w))%nat)) as [[Heq Hlt]|Hne].
  - rewrite Heq. rewrite !nth_lookup, list_lookup_insert_eq by done. done.
  - destruct (decide (Context.options c' = Context.options c)) as [Heq|Hn].
    + rewrite list_insert_ge by lia. done.
    + rewrite !nth_lookup. by rewrite list_lookup_insert_ne by congruence.
Qed.

Lemma good_timeout a c t w :
  good (Calls.timeoutMiddleware requestTimeout a (Calls.handler inner) c) t w (λ ts _, ts = [t]).
Proof.
  unfold good, Calls.timeoutMiddleware. cbv zeta. set (o := opts_of w c). set (tm := Calls.timeout_of requestTimeout a o).
  set (w1 := match Context.o_timeout o with Some _ => w | None => Calls.set_opts (Context.options c) (Context.set_timeout tm o) w end).
  set (c1 := Calls.start_timer tm t c).
  assert (keeps w w1 ∧ call_times w1 = call_times w) as [Hk Hc].
  { unfold w1. destruct (Context.o_timeout o); [done|]. split; [apply keeps_set_timeout|done]. }
  pose proof (good_handler c1 t w1) as (G1 & G2 & ts & G3 & ->). clearbody c1 w1 tm.
  assert (∀ p, later t p → good (λ _ _, ((Calls.handler inner c1 t w1).1, p)) t w (λ ts _, ts = [t])) as Hgo.
  { intros p Hp. split_and!; [exact (keeps_trans _ _ _ Hk G1)|done|]. exists [t]. simpl. by rewrite G3, Hc. }
  unfold good in Hgo. destruct tm as [x|].
  - destruct (Z.ltb_spec 0 x) as [Hx|Hx].
    + unfold timeout_. destruct (Calls.handler inner c1 t w1) as [w2 p].
      match goal with |- context [(w2, ?q)] => refine (Hgo q _) end.
      destruct p as [t' r0| |]; simpl in *; [|lia|done]. destruct (t' <=? t + x); simpl; lia.
    + pose proof (Hgo _ G2) as Hg. by destruct (Calls.handler inner c1 t w1).
  - pose proof (Hgo _ G2) as Hg. by destruct (Calls.handler inner c1 t w1).
Qed.

(** Delays between the calls after the first, from the [n]-th repetition on *)
Fixpoint spaced (n prev : Z) (ts : list Z) : Prop :=
  match ts with
  | [] => True
  | t :: ts => prev + Z.max 0 (Calls.retry_delay r n) ≤ t ∧ spaced (n + 1) t ts
  end.

(** The number of repetitions a call allows *)
Definition retries (w : world) (c : Context.t) : Z :=
  match Context.o_retries (opts_of w c) with Some n => n | None => rp_retries r end.

Lemma retries_keeps w w' c c' : keeps w w' → Context.options c' = Context.options c → retries w' c' = retries w c.
Proof. intros Hk Ho. unfold retries. destruct (Hk c') as [-> _]. unfold Calls.opts_of. by rewrite Ho. Qed.

(** Nothing but the handlers decides the outcome: every call finds an endpoint, and no
    fallback or global error handler answers. *)
Context (clean : Prop).
Context (clean_route : clean → ∀ name d c u, ∃ e, (route name d c u).2 = inl e).
Context (clean_endpoint : clean → ∀ name d c u e, (route name d c u).2 = inl e →
  (e_local e = true → e_id e = nodeID) ∧ ∀ a, e_kind e = ForAction a → ad_fallback a = None).
Context (clean_handler : clean → errorHandler = None).
Context (enabled : rp_enabled r = true).

(** What comes of the attempts that begin with the [n]-th repetition at [t], of which at most
    [m] are repetitions *)
Definition attempts (n : Z) (m : nat) (t : Z) (ts : list Z) (p : promise Calls.failure json) : Prop :=
  ∃ rest, ts = t :: rest ∧ (length rest ≤ m)%nat ∧ spaced (n + 1) t rest ∧
    (clean → ∀ t' e, p = Settled t' (Rejected e) → check e = false ∨ length rest = m).

(** A context that is ready for the handler of the endpoint *)
Definition ready (e : endpoint) (w : world) (c : Context.t) : Prop :=
  Context.ep c = Some e ∧ Context.nodeID c = e_id e ∧ (clean → Context.o_fallback (opts_of w c) = None) ∧
  (∃ a, e_kind e = ForAction a ∧ ad_retry a = r ∧ (clean → ad_fallback a = None)) ∧
  (clean → e_local e = true → e_id e = nodeID).

Lemma good_errorHandler e t w : good (Calls.broker_errorHandler errorHandler e) t w
  (λ ts p, ts = [] ∧ (clean → p = Settled t (Rejected e))).
Proof.
  unfold Calls.broker_errorHandler. destruct errorHandler as [f|] eqn:Hf.
  - apply (good_logged (Calls.user_job (f e)) _ _ "errorHandler" ""); [done|]. eapply good_weaken; [apply good_user; by apply (handler_later f)|].
    intros ts p ->. split; [done|]. intros Hcl. specialize (clean_handler Hcl). congruence.
  - destruct (good_reject e t w) as (H1 & H2 & ts & H3 & -> & H4). split_and!; [done|done|]. exists []. done.
Qed.

(** The fallback and the error handler around attempts *)
Lemma good_outside a e c t w j n m : ready e w c → e_kind e = ForAction a →
  good (j c) t w (attempts n m t) →
  good (Calls.errorHandlerMiddleware errorHandler nodeID (Calls.fallbackMiddleware fallback_fn response_fn a j) c) t w (attempts n m t).
Proof.
  intros (_ & _ & Hfb & (a' & Ha & _ & Hown) & _) Ha' Hj. assert (a' = a) as -> by congruence.
  unfold Calls.errorHandlerMiddleware. eapply good_catch; [| by intros ts p H _ |].
  - unfold Calls.fallbackMiddleware. eapply good_catch; [exact Hj|by intros ts p H _|].
    intros ts t' err w1 Hk Ht' (rest & -> & Hlen & Hsp & Hcl).
    assert (∀ ts' p, ts' = [] → (clean → p = Settled t' (Rejected err)) → attempts n m t ((t :: rest) ++ ts') p) as Hdone.
    { intros ts' p -> Hp. exists rest. rewrite app_nil_r. split_and!; [done..|]. intros Hc t1 e1 He1.
      rewrite (Hp Hc) in He1. simplify_eq. by apply (Hcl Hc t1). }
    assert (good (Calls.own_fallback fallback_fn a c err) t' w1 (λ ts' p, attempts n m t ((t :: rest) ++ ts') p)) as Hown'.
    { unfold Calls.own_fallback. destruct (ad_fallback a) as [f|] eqn:Hf.
      - assert (¬ clean) as Hnc by (intros Hc; specialize (Hown Hc); congruence).
        destruct (ad_service a); [destruct (fallback_fn f) as [k|] eqn:Hk'|].
        + eapply good_weaken; [apply good_user; by apply (fallback_later f)|]. intros ts' p ->. by apply Hdone.
        + eapply good_weaken; [apply good_reject|]. intros ts' p [-> _]. by apply Hdone.
        + eapply good_weaken; [apply good_reject|]. intros ts' p [-> ->]. by apply Hdone.
      - eapply good_weaken; [apply good_reject|]. intros ts' p [-> ->]. by apply Hdone. }
    destruct (Hk c) as [_ Hf']. unfold good. destruct (Context.o_fallback (opts_of w1 c)) as [[v|f]|] eqn:Hf; [|
      |exact Hown'].
    + destruct (truthy v); [|exact Hown'].
      assert (¬ clean) as Hnc by (intros Hc; specialize (Hfb Hc); congruence).
      split_and!; [done|simpl; lia|]. exists []. rewrite app_nil_r. split; [done|]. by apply Hdone.
    + assert (¬ clean) as Hnc by (intros Hc; specialize (Hfb Hc); congruence).
      assert (good (Calls.user_job (response_fn f c err)) t' w1 (λ ts' p, attempts n m t ((t :: rest) ++ ts') p)) as Hf2; [|exact Hf2].
      eapply good_weaken; [apply good_user; apply response_later|]. intros ts' p ->. by apply Hdone.
  - intros ts t' err w1 Hk Ht' (rest & -> & Hlen & Hsp & Hcl).
    assert (good (λ t w, Calls.broker_errorHandler errorHandler err t
                 (if String.eqb (Context.nodeID c) nodeID then w else Calls.logged t ("removePendingRequest"%string, Context.id c) w))
                 t' w1 (λ ts' p, ts' = [] ∧ (clean → p = Settled t' (Rejected err)))) as Hremove.
    { destruct (String.eqb _ _); [apply good_errorHandler|].
      apply (good_logged (Calls.broker_errorHandler errorHandler err) _ _ "removePendingRequest" (Context.id c)); [done|].
      apply good_errorHandler. }
    eapply good_weaken; [apply Hremove|].
    intros ts' p [-> Hp]. exists rest. rewrite app_nil_r. split_and!; [done..|]. intros Hc t1 e1 He1.
    rewrite (Hp Hc) in He1. simplify_eq. by apply (Hcl Hc t1).
Qed.

(** The retry middleware, given what a repeated call does *)
Lemma good_retry a e c t w recall m : ready e w c → e_kind e = ForAction a →
  let n := default 0 (Context.retryAttempts c) in
  m = Z.to_nat (retries w c - n) →
  (∀ c' t' w' m', m = S m' → ready e w' c' → Context.retryAttempts c' = Some (n + 1) →
     m' = Z.to_nat (retries w' c' - (n + 1)) →
     good (recall c') t' w' (λ ts p, (ts = [] ∧ ¬ clean) ∨ attempts (n + 1) m' t' ts p)) →
  good (Calls.retryMiddleware uid check nodeID a recall (Calls.timeoutMiddleware requestTimeout a (Calls.handler inner)) c) t w
    (attempts n m t).
Proof.
  intros (Hep & Hnode & Hfb & (a' & Ha & Hr & Hown) & Hloc) Ha' n Hm Hrec. assert (a' = a) as -> by congruence.
  unfold Calls.retryMiddleware. rewrite Hr, enabled. fold n. unfold good. cbv zeta.
  change (good (catch_ (Calls.timeoutMiddleware requestTimeout a (Calls.handler inner) (Context.set_retryAttempts (Some n) c)) (λ err,
      if negb (String.eqb (Context.nodeID c) nodeID) && match Context.ep c with Some e => e_local e | None => false end
      then reject err
      else if check err && (n <? retries w c) then
        delayed (Calls.retry_delay r (n + 1)) (λ t w,
          let '(x, w) := Calls.new_uid uid w in
          recall (Context.set_retryAttempts (Some (n + 1)) (Context.copy x None (Context.set_retryAttempts (Some (n + 1)) c))) t w)
      else reject err)) t w (attempts n m t)).
  eapply good_catch; [apply good_timeout| |].
  - intros ts p -> Hp. exists []. split_and!; [done|simpl; lia|done|]. intros _ t' err ->. by destruct Hp.
  - intros ts t1 err w1 Hk Ht1 ->.
    assert (∀ P : Prop, (clean → check err = false ∨ m = 0%nat) →
      good (reject err) t1 w1 (λ ts' p, attempts n m t ([t] ++ ts') p)) as Hstop.
    { intros _ Hwhy. eapply good_weaken; [apply good_reject|]. intros ts' p [-> ->]. exists [].
      split_and!; [done|simpl; lia|done|]. intros Hc t' e' [= <- <-]. simpl. destruct (Hwhy Hc); [by left|by right]. }
    rewrite Hep, Hnode. destruct (negb (String.eqb (e_id e) nodeID) && e_local e) eqn:Hskip.
    { apply (Hstop True). intros Hc. apply andb_prop in Hskip as [Hne Hl]. specialize (Hloc Hc Hl). rewrite Hloc, String.eqb_refl in Hne. done. }
    destruct (check err) eqn:Hchk; simpl; [|apply (Hstop True); by left].
    destruct (Z.ltb_spec n (retries w c)) as [Hlt|Hge]; [|apply (Hstop True); intros _; right; lia].
    destruct m as [|m']; [lia|].
    unfold good, delayed, Calls.new_uid. destruct (uid (Calls.w_user w1)) as [u x].
    set (c' := Context.set_retryAttempts _ _). set (w2 := Calls.World _ _ _). set (t2 := t1 + _).
    assert (Context.options c' = Context.options c) as Ho by done.
    assert (keeps w w2) as Hk2 by (intros c0; apply Hk).
    destruct (Hrec c' t2 w2 m') as (G1 & G2 & ts' & G3 & G4).
    + done.
    + split_and!.
      * unfold c', Context.copy, Context.set_retryAttempts. simpl. rewrite Hep. by destruct e as [? ? []].
      * unfold c', Context.copy, Context.set_retryAttempts. simpl. rewrite Hep. by destruct e as [? ? []].
      * intros Hc. destruct (Hk2 c') as [_ ->]. rewrite <- (Hfb Hc). unfold Calls.opts_of. by rewrite Ho.
      * by exists a.
      * done.
    + done.
    + rewrite (retries_keeps w w2 c c' Hk2 Ho). lia.
    + split_and!; [by eapply keeps_trans; [|exact G1]|by eapply later_weaken; [|exact G2]; unfold t2; lia|].
      exists ts'. split; [exact G3|]. destruct G4 as [[-> Hnc]|(rest & -> & Hlen & Hsp & Hcl)].
      * exists []. split_and!; [done|simpl; lia|done|]. done.
      * exists (t2 :: rest). split_and!; [done|simpl; lia| |].
        -- simpl. split; [unfold t2; lia|]. exact Hsp.
        -- intros Hc t' e' He'. destruct (Hcl Hc t' e' He') as [?|?]; [by left|right; simpl; lia].
Qed.

(** The first attempt *)
Lemma call_fresh fuel name ps o t (w : world) :
  let op := nth o (Calls.w_opts w) Context.no_opts in
  let x := (uid (Calls.w_user w)).2 in
  let c := Context.create nodeID x None (match ps with JUndef => JObj [] | _ => ps end) o op in
  let w1 := Calls.World (Calls.w_opts w) (uid (Calls.w_user w)).1 (Calls.w_log w) in
  let u := (route name (Context.o_nodeID op) c (Calls.w_user w1)).1 in
  let w2 := Calls.World (Calls.w_opts w) u (Calls.w_log w) in
  call (S fuel) name ps (Calls.Fresh o) t w =
  match (route name (Context.o_nodeID op) c (Calls.w_user w1)).2 with
  | inr err => Calls.broker_errorHandler errorHandler err t w2
  | inl e =>
      wrapped fuel name e
        (match Context.o_stream op with
         | Some _ => if e_local e then Context.set_stream (Context.o_stream op) (Context.setEndpoint (Some e) c)
                     else Context.setEndpoint (Some e) c
         | None => Context.setEndpoint (Some e) c
         end) t w2
  end.
Proof.
  cbv zeta. unfold Calls.call at 1. fold call. fold wrapped. unfold Calls.new_uid. destruct (uid (Calls.w_user w)) as [u x].
  cbn [fst snd Calls.w_user Calls.w_opts Calls.w_log]. by destruct (route _ _ _ u) as [u' [e|err]].
Qed.

Lemma good_call fuel :
  (∀ name ps c t w m,
     m = Z.to_nat (retries w c - default 0 (Context.retryAttempts c)) → (2 * m + 2 ≤ fuel)%nat →
     (clean → Context.o_fallback (opts_of w c) = None) →
     good (call fuel name ps (Calls.Reused c)) t w
       (λ ts p, (ts = [] ∧ ¬ clean) ∨ attempts (default 0 (Context.retryAttempts c)) m t ts p)) ∧
  (∀ name e c t w m,
     m = Z.to_nat (retries w c - default 0 (Context.retryAttempts c)) → (2 * m + 1 ≤ fuel)%nat → ready e w c →
     good (wrapped fuel name e c) t w (attempts (default 0 (Context.retryAttempts c)) m t)).
Proof.
  induction fuel as [|fuel [IHc IHw]]; (split; [intros name ps c t w m Hm Hfuel Hfb|intros name e c t w m Hm Hfuel Hready]); [lia|lia| |].
  - unfold good. cbn [Calls.call]. destruct (route name None c (Calls.w_user w)) as [u [e|err]] eqn:Hroute.
    + assert ((route name None c (Calls.w_user w)).2 = inl e) as He by by rewrite Hroute.
      destruct (route_action _ _ _ _ _ He) as (a & Ha & Har).
      set (w1 := Calls.World _ u _). set (c1 := Context.setEndpoint (Some e) c).
      assert (Context.options c1 = Context.options c ∧ Context.retryAttempts c1 = Context.retryAttempts c) as [Ho Hn]
        by (unfold c1; by destruct e as [? ? []]).
      assert (keeps w w1) as Hk by done.
      destruct (IHw name e c1 t w1 m) as (G1 & G2 & ts & G3 & G4).
      * rewrite Hn. by rewrite (retries_keeps w w1 c c1 Hk Ho).
      * lia.
      * split_and!; [unfold c1; by destruct e as [? ? []]|unfold c1; by destruct e as [? ? []]| | |].
        -- intros Hc. rewrite <- (Hfb Hc). unfold Calls.opts_of. by rewrite Ho.
        -- exists a. split_and!; [done..|]. intros Hc. destruct (clean_endpoint Hc _ _ _ _ _ He) as [_ H]. by apply H.
        -- intros Hc. by destruct (clean_endpoint Hc _ _ _ _ _ He) as [H _].
      * split_and!; [done|done|]. exists ts. split; [exact G3|]. right. by rewrite Hn in G4.
    + assert (¬ clean) as Hnc.
      { intros Hc. destruct (clean_route Hc name None c (Calls.w_user w)) as [e He]. by rewrite Hroute in He. }
      set (w1 := Calls.World _ u _).
      destruct (good_errorHandler err t w1) as (G1 & G2 & ts & G3 & -> & _). unfold catch_, reject.
      split_and!; [done|done|]. exists []. split; [exact G3|]. by left.
  - cbn [Calls.wrapped]. pose proof Hready as (_ & _ & _ & (a & Ha & Har & Hown) & _). rewrite Ha.
    unfold Calls.action_handler. apply (good_outside a e); [done|done|]. apply (good_retry a e); [done|done|done|].
    intros c' t' w' m' -> Hready' Hn' Hm'. destruct (ad_private a).
    + eapply good_weaken; [apply (IHw name e c' t' w' m'); [by rewrite Hn'|lia|done]|].
      intros ts p H. right. by rewrite Hn' in H.
    + eapply good_weaken; [apply (IHc name (Context.params c') c' t' w' m'); [by rewrite Hn'|lia|apply Hready']|].
      intros ts p H. by rewrite Hn' in H.
Qed.

(** With a fallback response the handler of an endpoint does not fail. *)
Lemma wrapped_answers fuel name e c t w m v :
  m = Z.to_nat (retries w c - default 0 (Context.retryAttempts c)) → (2 * m + 1 ≤ fuel)%nat → ready e w c →
  Context.o_fallback (opts_of w c) = Some (Context.FbValue v) → truthy v = true →
  ¬ is_rejected (wrapped fuel name e c t w).2.
Proof.
  intros Hm Hfuel Hready Hfb Hv. destruct fuel as [|fuel]; [lia|]. cbn [Calls.wrapped].
  pose proof Hready as (_ & _ & _ & (a & Ha & Har & Hown) & _). rewrite Ha.
  unfold Calls.action_handler, Calls.errorHandlerMiddleware, Calls.fallbackMiddleware.
  set (recall := if ad_private a then _ else _).
  assert (good (Calls.retryMiddleware uid check nodeID a recall (Calls.timeoutMiddleware requestTimeout a (Calls.handler inner)) c) t w
    (attempts (default 0 (Context.retryAttempts c)) m t)) as (Hk & _ & _).
  { apply (good_retry a e); [done|done|done|]. intros c' t' w' m' -> Hready' Hn' Hm'. unfold recall. destruct (ad_private a).
    - eapply good_weaken; [apply (proj2 (good_call fuel) name e c' t' w' m'); [by rewrite Hn'|lia|done]|].
      intros ts p H. right. by rewrite Hn' in H.
    - eapply good_weaken; [apply (proj1 (good_call fuel) name (Context.params c') c' t' w' m'); [by rewrite Hn'|lia|apply Hready']|].
      intros ts p H. by rewrite Hn' in H. }
  unfold catch_ at 1 2. destruct (Calls.retryMiddleware _ _ _ _ _ _ _ _ _) as [w1 p]. destruct (Hk c) as [_ Hf]. simpl in Hf.
  destruct p as [t' [r0|err]| |]; try (by intros []). rewrite Hf, Hfb, Hv. by intros [].
Qed.

End retry.


(** With a fallback response in its options a call does not fail, whatever its handlers,
    their timeouts and repetitions do, once it has found an endpoint; a call that finds
    none fails at once with the error of the routing, in spite of the fallback. *)
Theorem fallback_response {U} uid route inner fallback_fn response_fn check nodeID requestTimeout r
    fuel name ps o (w : Calls.world (U := U)) t v :
  (∀ c t u, later t (inner c t u).2) →
  (∀ f k c e t u, fallback_fn f = Some k → later t (k c e t u).2) →
  (∀ f c e t u, later t (response_fn f c e t u).2) →
  (∀ name d c u e, (route name d c u).2 = inl e → ∃ a, e_kind e = ForAction a ∧ ad_retry a = r) →
  rp_enabled r = true →
  let op := nth o (Calls.w_opts w) Context.no_opts in
  let n := Z.to_nat (match Context.o_retries op with Some n => n | None => rp_retries r end) in
  let u := (uid (Calls.w_user w)).1 in
  let c := Context.create nodeID (uid (Calls.w_user w)).2 None (match ps with JUndef => JObj [] | _ => ps end) o op in
  let p := (Calls.call uid route inner fallback_fn response_fn check None nodeID requestTimeout
              fuel name ps (Calls.Fresh o) t w).2 in
  (2 * n + 3 ≤ fuel)%nat → Context.o_fallback op = Some (Context.FbValue v) → truthy v = true →
  match (route name (Context.o_nodeID op) c u).2 with
  | inl _ => p = Never ∨ ∃ t' v', t ≤ t' ∧ p = Settled t' (Resolved v')
  | inr err => p = Settled t (Rejected err)
  end.
Proof.
  intros Hi Hf Hrs Ha Hen op n u c p Hfuel Hfb Hv.
  destruct fuel as [|fuel]; [lia|]. unfold p. clear p. rewrite call_fresh. cbv zeta. cbn [Calls.w_user]. fold op c u.
  destruct (route name (Context.o_nodeID op) c u).2 as [e|err] eqn:He; [|done].
  destruct (Ha _ _ _ _ _ He) as (a & Hk & Har). set (w2 := Calls.World _ _ _).
  set (c1 := match Context.o_stream op with Some _ => _ | None => _ end).
  assert (Context.options c = o ∧ Context.retryAttempts c = None) as [Ho Hn].
  { unfold c, Context.create. by destruct (Context.o_parentSpan op). }
  assert (Context.options c1 = o ∧ Context.retryAttempts c1 = None ∧ Context.ep c1 = Some e ∧ Context.nodeID c1 = e_id e) as (H1 & H2 & H3 & H4).
  { unfold c1. destruct e as [? [] []], (Context.o_stream op); done. }
  assert (Calls.opts_of w2 c1 = op) as Hop by (unfold Calls.opts_of; by rewrite H1).
  assert (n = Z.to_nat (retries r w2 c1 - default 0 (Context.retryAttempts c1))) as Hm.
  { unfold retries. rewrite Hop, H2. unfold n. simpl. by rewrite Z.sub_0_r. }
  assert (ready nodeID r False e w2 c1) as Hready by (split_and!; [done|done|done|exists a; done|done]).
  assert (∀ (f : Calls.failure → Z → U → U * promise Calls.failure json) e t u, None = Some f → later t (f e t u).2) as Hno by done.
  pose proof (wrapped_answers uid route inner fallback_fn response_fn check None nodeID requestTimeout r Hi Hf Hrs Hno Ha
      False ltac:(done) ltac:(done) ltac:(done) Hen fuel name e c1 t w2 n v Hm ltac:(lia) Hready ltac:(by rewrite Hop) Hv) as Hnr.
  destruct (proj2 (good_call uid route inner fallback_fn response_fn check None nodeID requestTimeout r
      Hi Hf Hrs Hno Ha False ltac:(done) ltac:(done) ltac:(done) Hen fuel) name e c1 t w2 n Hm ltac:(lia) Hready) as (_ & Hl & _).
  destruct (Calls.wrapped uid route inner fallback_fn response_fn check None nodeID requestTimeout fuel name e c1 t w2) as [w' [t' [v'|err]| |]];
    simpl in *; try done; [|by left].
  right. by exists t', v'.
Qed.

(** *** An environment for examples

    Every action is found on the node that is asked for, or on the own node ["n1"]; its
    handler takes [dur] and has the outcome [out]. *)

Definition demo_policy : retry_policy := RetryPolicy true 3 100 300 2.
Definition demo_uid (u : nat) : nat * string := (S u, "id"%string).
Definition demo_route (timeouts : string → option Z) (policy : retry_policy) (name : string) (d : option string) (c : Context.t) (u : nat)
    : nat * (endpoint + Calls.failure) :=
  (u, inl (Ep (default "n1"%string d) (match d with Some _ => false | None => true end)
             (ForAction (ActionDef name (Some "svc"%string) false (timeouts name) policy None)))).
Definition demo_inner (dur : Z) (out : result Calls.failure json) (c : Context.t) (t : Z) (u : nat)
    : nat * promise Calls.failure json := (u, Settled (t + dur) out).
Definition demo_response (f : string) (c : Context.t) (e : Calls.failure) (t : Z) (u : nat)
    : nat * promise Calls.failure json := (u, Settled t (Rejected e)).
Definition demo_call (timeouts : string → option Z) policy dur out errorHandler :=
  Calls.call demo_uid (demo_route timeouts policy) (demo_inner dur out) (λ _, None) demo_response (λ _, true) errorHandler "n1" None.

Definition fails : result Calls.failure json := Rejected (Calls.UserError JNull).


(** The same call with a fallback response *)
Lemma fallback_response_witness :
  let o := Context.Opts None None None None None None None None None None (Some (Context.FbValue (JStr "sorry"))) in
  let p := (demo_call (λ _, None) demo_policy 10 fails None 9 "posts.get" JUndef (Calls.Fresh 0) 1000 (Calls.World [o] 0%nat [])).2 in
  p = Settled 1640 (Resolved (JStr "sorry")) ∧ (p = Never ∨ ∃ t' v', 1000 ≤ t' ∧ p = Settled t' (Resolved v')).
Proof.
  intros o p. split; [vm_compute; reflexivity|].
  refine (fallback_response demo_uid (demo_route (λ _, None) demo_policy) (demo_inner 10 fails) (λ _, None) demo_response (λ _, true)
    "n1"%string None demo_policy 9 "posts.get"%string JUndef 0 (Calls.World [o] 0%nat []) 1000 (JStr "sorry") _ _ _ _ _ _ _ _).
  - intros c t u. simpl. lia.
  - done.
  - intros f c e t u. simpl. lia.
  - intros name d c u e [= <-]. eexists. split; reflexivity.
  - reflexivity.
  - vm_compute. lia.
  - reflexivity.
  - reflexivity.
Defined.

(** The repetitions of a call forget what it was called with: a call to one node ([nodeID]
    in the options) that fails there is repeated on whatever node the balancing
    chooses, and the global error handler runs once for every attempt of the one call
    that fails. *)
Theorem retry_forgets :
  let o := Context.Opts None None (Some "n2"%string) None None None None None None None None in
  let handler : Calls.failure → Z → nat → nat * promise Calls.failure json := λ e t u, (u, Settled t (Rejected e)) in
  map snd (Calls.w_log (demo_call (λ _, None) demo_policy 10 fails (Some handler) 9 "posts.get" JUndef (Calls.Fresh 0) 1000
    (Calls.World [o] 0%nat [])).1) =
  [("call", "n2"); ("call", "n1"); ("call", "n1"); ("call", "n1");
   ("errorHandler", ""); ("errorHandler", ""); ("errorHandler", "");
   ("removePendingRequest", "id"); ("errorHandler", "")]%string.
Proof. vm_compute. reflexivity. Qed.

(** The calls of [mcall] share one options object, into which the first writes the
    timeout of its action.  Where the action [a] has a timeout of 60 seconds and [b] one of
    one second, and both take five seconds, [b] called alone is rejected after one second and
    [a] answers; but called together, [a] first, both answer, and called together, [b]
    first, the call of [a] times out after one second too. *)
Theorem mcall_shares_timeout v :
  let timeouts name := if String.eqb name "a" then Some 60000 else Some 1000 in
  let never := RetryPolicy false 0 0 0 1 in
  let out : result Calls.failure json := Resolved v in
  let w := Calls.World [Context.no_opts] 0%nat [] in
  let call name := (demo_call timeouts never 5000 out None 2 name JUndef (Calls.Fresh 0) 0 w).2 in
  let both names := (Calls.mcall_settled demo_uid (demo_route timeouts never) (demo_inner 5000 out) (λ _, None) demo_response
                       (λ _, true) None "n1" None 2 (map (λ name, (name, JUndef, None)) names) Context.no_opts 0 w).2 in
  call "b"%string = Settled 1000 (Rejected (Calls.RequestTimeout "b" "n1")) ∧
  call "a"%string = Settled 5000 (Resolved v) ∧
  both ["a"; "b"]%string = Settled 5000 (Resolved [Resolved v; Resolved v]) ∧
  both ["b"; "a"]%string =
    Settled 1000 (Resolved [Rejected (Calls.RequestTimeout "b" "n1"); Rejected (Calls.RequestTimeout "a" "n1")]).
Proof. cbv zeta. split_and!; vm_compute; reflexivity. Qed.

