(* ===== verification/Tracing.v ===== *)
(** * Tracing: [tracing/], [middlewares/tracing.js], spans of [context.js]

    A span is an object that contexts, the tracer and its exporters share: spans live in a
    list and are referred to by their place in it.  Modules: [RateLimiter] is
    [rate-limiter.js], [Span] the fields and operations of [span.js], [Tracer] is
    [tracer.js] with the constructor of spans, which asks it for a decision,
    [ContextSpans] is [startSpan] and [finishSpan] of [context.js] and how the fields for
    tracing cross to another node ([transit.js]), [TracingMiddleware] the middleware.
    Times are milliseconds; exporters are names that are told of spans. *)

From stdpp Require Import base tactics list strings option.
From Stdlib Require Import ZArith QArith Lia.
From S2P Require Import Prelude JsonText Promises Calls.

Open Scope Z_scope.

(** ** The rate limiter *)

Module RateLimiter.

Record t := Limiter {
  tracesPerSecond : Q;
  lastTime : Q;
  balance : Q;
  maxBalance : Q
}.

(** The constructor *)
Definition new (tps : option Q) (now : Q) : t :=
  let tps := default 1%Q tps in
  Limiter tps now 0 (if Qlt_le_dec tps 1 then 1%Q else tps).

(** [check(cost)] *)
Definition check (cost now : Q) (r : t) : bool * t :=
  let elapsedTime := ((now - lastTime r) / 1000)%Q in
  let b := (balance r + elapsedTime * tracesPerSecond r)%Q in
  let b := if Qlt_le_dec (maxBalance r) b then maxBalance r else b in
  if Qle_bool cost b then (true, Limiter (tracesPerSecond r) now (b - cost)%Q (maxBalance r))
  else (false, Limiter (tracesPerSecond r) now b (maxBalance r)).

End RateLimiter.

(** ** Spans *)

Module Span.

(** The service of a span: its name, version and full name *)
Record service_info := Service {
  sv_name : json;
  sv_version : json;
  sv_fullName : json
}.

Record log_entry := Log {
  l_name : string;
  l_fields : OMap.t json;
  l_time : Q;
  l_elapsed : Q
}.

Record t := Span {
  name : string;
  type : string;
  id : string;
  traceID : string;
  parentID : option string;
  service : option service_info;
  priority : Q;
  sampled : bool;
  startTime : option Q;
  startTicks : option Q;
  finishTime : option Q;
  duration : option Q;
  error : option json;
  logs : list log_entry;
  tags : OMap.t json
}.

(** What [opts.service] may be *)
Inductive service_opt := ServiceName (n : string) | ServiceObj (s : service_info).
Definition service_of (s : service_opt) : service_info :=
  match s with ServiceName n => Service (JStr n) JUndef (JStr n) | ServiceObj s => s end.

(** Options of a span.  A member is absent ([None]), [null] or [undefined] ([Some None]), or
    has a value; [parentSpan] is a reference. *)
Record opts := Opts {
  o_type : option (option string);
  o_id : option (option string);
  o_traceID : option (option string);
  o_parentID : option (option string);
  o_service : option (option service_opt);
  o_priority : option (option Q);
  o_sampled : option (option bool);
  o_defaultTags : option (option (OMap.t json));
  o_tags : option (option (OMap.t json));
  o_parentSpan : option (option nat)
}.
Definition no_opts : opts := Opts None None None None None None None None None None.

(** [Object.assign(a, b)] *)
Definition over {A} (a b : option A) : option A := match b with Some _ => b | None => a end.
Definition assign (a b : opts) : opts :=
  Opts (over (o_type a) (o_type b)) (over (o_id a) (o_id b)) (over (o_traceID a) (o_traceID b))
    (over (o_parentID a) (o_parentID b)) (over (o_service a) (o_service b)) (over (o_priority a) (o_priority b))
    (over (o_sampled a) (o_sampled b)) (over (o_defaultTags a) (o_defaultTags b)) (over (o_tags a) (o_tags b))
    (over (o_parentSpan a) (o_parentSpan b)).

(** [v || d] on strings *)
Definition str_or (v : option (option string)) (d : string) : string :=
  match v with Some (Some s) => if String.eqb s "" then d else s | _ => d end.

(** [addTags(obj)] *)
Definition addTags (m : OMap.t json) (s : t) : t :=
  Span (name s) (type s) (id s) (traceID s) (parentID s) (service s) (priority s) (sampled s) (startTime s) (startTicks s)
    (finishTime s) (duration s) (error s) (logs s) (Context.assign (tags s) m).

(** The fields that the constructor sets before it asks for a decision, and those after it *)
Definition init_priority (o : opts) : Q := match o_priority o with Some (Some p) => p | _ => 5 end.
Definition init (uid nm : string) (smp : bool) (o : opts) : t :=
  let i := str_or (o_id o) uid in
  let s := Span nm (str_or (o_type o) "custom") i (str_or (o_traceID o) i) (default None (o_parentID o))
    (service_of <$> default None (o_service o)) (init_priority o) smp None None None None None [] [] in
  let s := match o_defaultTags o with Some (Some m) => addTags m s | _ => s end in
  match o_tags o with Some (Some m) => addTags m s | _ => s end.

(** [start(time)] up to the call of the tracer *)
Definition start (time : option Q) (now ticks : Q) (s : t) : t :=
  Span (name s) (type s) (id s) (traceID s) (parentID s) (service s) (priority s) (sampled s)
    (Some (match time with Some x => if Qeq_bool x 0 then now else x | None => now end)) (Some ticks)
    (finishTime s) (duration s) (error s) (logs s) (tags s).

(** [getTime()] *)
Definition getTime (ticks : Q) (s : t) : Q := (default 0 (startTime s) + ticks - default 0 (startTicks s))%Q.

(** [time || getTime()] *)
Definition time_or (time : option Q) (ticks : Q) (s : t) : Q :=
  match time with Some x => if Qeq_bool x 0 then getTime ticks s else x | None => getTime ticks s end.

(** [log(name, fields, time)] *)
Definition log (nm : string) (fields : option (OMap.t json)) (time : option Q) (ticks : Q) (s : t) : t :=
  let time := time_or time ticks s in
  Span (name s) (type s) (id s) (traceID s) (parentID s) (service s) (priority s) (sampled s) (startTime s) (startTicks s)
    (finishTime s) (duration s) (error s)
    (logs s ++ [Log nm (default [] fields) time (time - default 0 (startTime s))%Q]) (tags s).

(** [setError(err)] *)
Definition setError (e : json) (s : t) : t :=
  Span (name s) (type s) (id s) (traceID s) (parentID s) (service s) (priority s) (sampled s) (startTime s) (startTicks s)
    (finishTime s) (duration s) (Some (if is_null e then JBool true else e)) (logs s) (tags s).

(** [finish(time)] up to the call of the tracer *)
Definition finish (time : option Q) (ticks : Q) (s : t) : t :=
  let time := time_or time ticks s in
  Span (name s) (type s) (id s) (traceID s) (parentID s) (service s) (priority s) (sampled s) (startTime s) (startTicks s)
    (Some time) (Some (time - default 0 (startTime s))%Q) (error s) (logs s) (tags s).

(** [isActive()] *)
Definition isActive (s : t) : bool := match finishTime s with None => true | Some _ => false end.

(** The options that [startSpan(name, opts)] of a span hands to the tracer *)
Definition child_opts (s : t) (o : opts) : opts :=
  assign (Opts None None (Some (Some (traceID s))) (Some (Some (id s))) (Some (ServiceObj <$> service s)) None
    (Some (Some (sampled s))) None None None) o.

End Span.

(** ** The tracer *)

Module Tracer.

Inductive tell := Started | Finished.

Record t := Tracer {
  rateLimiter : option RateLimiter.t;
  sampleCounter : Z;
  spans : list Span.t;
  told : list (string * tell * nat)    (* what the exporters were told *)
}.

Section tracer.
(** [opts.sampling], the default tags and the exporters *)
Context (rate : Q) (minPriority : option Q) (defaultTags : option (OMap.t json)) (exporters : list string).

(** The constructor *)
Definition new (tracesPerSecond : option Q) (now : Q) : t :=
  Tracer (match tracesPerSecond with
          | Some x => if Qle_bool x 0 then None else Some (RateLimiter.new (Some x) now)
          | None => None
          end) 0 [] [].

(** [shouldSample(span)] of a span with the given priority *)
Definition shouldSample (priority now : Q) (w : t) : bool * t :=
  if match minPriority with Some m => negb (Qle_bool m priority) | None => false end then (false, w)
  else
    match rateLimiter w with
    | Some r =>
        let '(b, r) := RateLimiter.check 1 now r in (b, Tracer (Some r) (sampleCounter w) (spans w) (told w))
    | None =>
        if Qeq_bool rate 0 then (false, w)
        else if Qeq_bool rate 1 then (true, w)
        else
          let n := sampleCounter w + 1 in
          if Qle_bool 1 (inject_Z n * rate) then (true, Tracer None 0 (spans w) (told w))
          else (false, Tracer None n (spans w) (told w))
    end.

(** [invokeExporter(method, args)] for a span, if it is sampled: [spanStarted] and
    [spanFinished] *)
Definition notify (m : tell) (i : nat) (w : t) : t :=
  match spans w !! i with
  | Some s =>
      if Span.sampled s then
        Tracer (rateLimiter w) (sampleCounter w) (spans w) (told w ++ map (λ e, (e, m, i)) exporters)
      else w
  | None => w
  end.

Definition set_spans (l : list Span.t) (w : t) : t := Tracer (rateLimiter w) (sampleCounter w) l (told w).

(** [new Span(tracer, name, opts)] *)
Definition new_span (uid name : string) (o : Span.opts) (now : Q) (w : t) : nat * t :=
  let '(smp, w) :=
    match Span.o_sampled o with
    | Some (Some b) => (b, w)
    | _ => shouldSample (Span.init_priority o) now w
    end in
  (length (spans w), set_spans (spans w ++ [Span.init uid name smp o]) w).

(** [startSpan(name, opts)]; [uid] is the identifier that the broker generates. *)
Definition startSpan (uid name : string) (o : Span.opts) (now ticks : Q) (w : t) : nat * t :=
  let parentOpts :=
    match default None (Span.o_parentSpan o) ≫= (spans w !!.) with
    | Some p => Span.Opts None None (Some (Some (Span.traceID p))) (Some (Some (Span.id p))) None None
        (Some (Some (Span.sampled p))) None None None
    | None => Span.no_opts
    end in
  let base := Span.Opts (Some (Some "custom"%string)) None None None None None None (Some defaultTags) None None in
  let all := Span.assign (Span.assign (Span.assign base parentOpts) o)
    (Span.Opts None None None None None None None None None (Some None)) in
  let '(i, w) := new_span uid name all now w in
  (i, notify Started i (set_spans (alter (Span.start None now ticks) i (spans w)) w)).

(** [span.startSpan(name, opts)] *)
Definition span_startSpan (i : nat) (uid name : string) (o : Span.opts) (now ticks : Q) (w : t) : nat * t :=
  match spans w !! i with
  | Some s => startSpan uid name (Span.child_opts s o) now ticks w
  | None => startSpan uid name o now ticks w
  end.

(** [span.finish(time)] *)
Definition span_finish (i : nat) (time : option Q) (ticks : Q) (w : t) : t :=
  notify Finished i (set_spans (alter (Span.finish time ticks) i (spans w)) w).

End tracer.
End Tracer.

(** ** Spans of contexts *)

Module ContextSpans.

(** A context with its span and the stack of its spans; [ctx_span] is what others read of
    the span. *)
Record t := TCtx {
  ctx : Context.t;
  span : option nat;
  spanStack : list nat
}.

(** A new context *)
Definition of_ctx (c : Context.t) : t := TCtx c None [].

(** [ctx.copy(ep)]: the copy has the span, but not the stack. *)
Definition copy (uid : string) (e : option endpoint) (c : t) : t := TCtx (Context.copy uid e (ctx c)) (span c) [].

Definition seen (w : Tracer.t) (i : nat) : option Calls.span :=
  (λ s, Calls.Span (Span.id s) (Span.traceID s) (Span.sampled s)) <$> Tracer.spans w !! i.

Definition with_tracing (tr : option bool) (sp : option Calls.span) (c : Context.t) : Context.t :=
  Context.Ctx (Context.nodeID c) (Context.id c) (Context.ep c) (Context.service c) (Context.action c) (Context.event c)
    (Context.eventName c) (Context.eventType c) (Context.eventGroups c) (Context.options c) (Context.parentID c)
    (Context.caller c) (Context.level c) (Context.params c) (Context.meta c) (Context.headers c)
    (Context.responseHeaders c) (Context.locals c) (Context.stream c) (Context.requestID c) tr sp (Context.needAck c)
    (Context.ackID c) (Context.startHrTime c) (Context.cachedResult c) (Context.retryAttempts c).

(** [this.span = ...] *)
Definition set_span (w : Tracer.t) (s : option nat) (stack : list nat) (c : t) : t :=
  TCtx (with_tracing (Context.tracing (ctx c)) (s ≫= seen w) (ctx c)) s stack.

(** [ctx.tracing = ...] *)
Definition set_tracing (b : bool) (c : t) : t :=
  TCtx (with_tracing (Some b) (Context.ctx_span (ctx c)) (ctx c)) (span c) (spanStack c).

Section context.
Context (rate : Q) (minPriority : option Q) (defaultTags : option (OMap.t json)) (exporters : list string).

(** [ctx.startSpan(name, opts)] *)
Definition startSpan (uid name : string) (o : Span.opts) (now ticks : Q) (c : t) (w : Tracer.t) : nat * t * Tracer.t :=
  let '(i, w) :=
    match span c with
    | Some s => Tracer.span_startSpan rate minPriority defaultTags exporters s uid name o now ticks w
    | None => Tracer.startSpan rate minPriority defaultTags exporters uid name o now ticks w
    end in
  (i, set_span w (Some i) (spanStack c ++ [i]) c, w).

(** [ctx.finishSpan(span, time)] *)
Definition finishSpan (i : nat) (time : option Q) (ticks : Q) (c : t) (w : Tracer.t) : t * Tracer.t :=
  match Tracer.spans w !! i with
  | Some s =>
      if Span.isActive s then
        let w := Tracer.span_finish exporters i time ticks w in
        match list_find (eq i) (spanStack c) with
        | Some (k, _) =>
            let stack := take k (spanStack c) ++ drop (S k) (spanStack c) in
            (set_span w (list.last stack) stack c, w)
        | None => (c, w)
        end
      else (c, w)
  | None => (c, w)
  end.

End context.

(** The fields of a request that [_sendRequest] puts into the packet and [requestHandler] into
    the context of the other node, streams aside, and of an event ([sendEvent],
    [eventHandler]) *)
Definition received_request (sender : string) (e : endpoint) (o : nat) (c : Context.t) : Context.t :=
  let n := Context.setEndpoint (Some e) (Context.new sender (Context.id c)) in
  Context.Ctx sender (Context.id c) (Context.ep n) (Context.service n) (Context.action n) (Context.event n) None None None o
    (Context.parentID c) (Context.caller c) (Context.level c) (Context.params c) (Context.meta c) (Context.headers c)
    [] [] None (Context.requestID c) (Context.tracing c) None None None None false None.
Definition received_event (sender : string) (o : nat) (c : Context.t) : Context.t :=
  Context.Ctx sender (Context.id c) None None None None (Context.eventName c)
    (Some (if match Context.eventType c with Some x => String.eqb x "broadcast" | None => false end then "broadcast" else "emit")%string)
    (Context.eventGroups c) o
    (Context.parentID c) (Context.caller c) (Context.level c) (Context.params c) (Context.meta c) (Context.headers c)
    [] [] None (Context.requestID c) (Some (default false (Context.tracing c))) None None None None false None.

End ContextSpans.

(** ** The middleware *)

Module TracingMiddleware.

(** [opts.tags] and the global tags: an object, or a function of the users by name *)
Inductive tags_opt := TagsObj (m : OMap.t json) | TagsFun (f : string).
Inductive span_name := NameStr (s : string) | NameFun (f : string).

(** [action.tracing] or [event.tracing] with its default *)
Record opts := Opts {
  enabled : bool;
  o_tags : option tags_opt;
  safetyTags : bool;
  spanName : option span_name
}.

Section middleware.
Context {U E : Type}.
Context (rate : Q) (minPriority : option Q) (defaultTags : option (OMap.t json)) (exporters : list string).
(** Functions of users, which do not throw; lodash's [pick]; the rest of the broker *)
Context (tags_fn : string → Context.t → option json → option (OMap.t json)) (name_fn : string → Context.t → string).
Context (pick : json → list json → json) (rawName : action_def → string) (opts_of : Context.t → Context.opts).
Context (uid : U → U * string) (nodeID : string).

(** The tracer, the contexts that are in use, and the rest of the world *)
Record world := World {
  tracer : Tracer.t;
  ctxs : list ContextSpans.t;
  user : U
}.

Notation job := (job world E json).

Definition num_json (n : option Z) : json := match n with Some n => JNum n | None => JUndef end.
Definition str_json (s : option string) : json := match s with Some s => JStr s | None => JNull end.

(** The tags of an action and of an event that are always there *)
Definition action_tags (c : Context.t) : OMap.t json :=
  let o := opts_of c in
  [("callingLevel", JNum (Context.level c));
   ("action", match Context.action c with
              | Some a => JObj [("name", JStr (ad_name a)); ("rawName", JStr (rawName a))]
              | None => JNull
              end);
   ("remoteCall", JBool (negb (String.eqb (Context.nodeID c) nodeID)));
   ("callerNodeID", JStr (Context.nodeID c));
   ("nodeID", JStr nodeID);
   ("options", JObj [("timeout", num_json (Context.o_timeout o)); ("retries", num_json (Context.o_retries o))]);
   ("requestID", JStr (Context.requestID c))]%string.
Definition event_tags (name group : string) (c : Context.t) : OMap.t json :=
  [("event", JObj [("name", JStr name); ("group", JStr group)]);
   ("eventName", str_json (Context.eventName c));
   ("eventType", str_json (Context.eventType c));
   ("callerNodeID", JStr (Context.nodeID c));
   ("callingLevel", JNum (Context.level c));
   ("remoteCall", JBool (negb (String.eqb (Context.nodeID c) nodeID)));
   ("nodeID", JStr nodeID);
   ("requestID", JStr (Context.requestID c))]%string.

(** Which tags to take: those of the schema, the global function, or the members of both
    over the default *)
Definition chosen (own global : option tags_opt) : tags_opt :=
  match own, global with
  | Some (TagsFun f), _ => TagsFun f
  | None, Some (TagsFun f) => TagsFun f
  | _, _ =>
      let members o := match o with Some (TagsObj m) => m | _ => [] end in
      TagsObj (Context.assign (Context.assign [("params"%string, JBool true)] (members global)) (members own))
  end.

(** The tag [key] of the value [v], as its member of [m] asks for: all of it, or some members *)
Definition capture (key : string) (m : OMap.t json) (v : json) (tags : OMap.t json) : OMap.t json :=
  match OMap.get key m with
  | Some (JBool true) => OMap.set key v tags
  | Some (JArr names) => OMap.set key (pick v names) tags
  | _ => tags
  end.

(** The tags of the new span *)
Definition start_tags (o : opts) (t : tags_opt) (base : OMap.t json) (c : Context.t) : OMap.t json :=
  let tags :=
    match t with
    | TagsFun f => Context.assign base (default [] (tags_fn f c None))
    | TagsObj m => capture "meta" m (JObj (Context.meta c)) (capture "params" m (Context.params c) base)
    end in
  if safetyTags o then
    match JSON.parse (JSON.print (JObj tags)) with Some (JObj m) => m | _ => tags end
  else tags.

(** The tags of the span of an action that succeeded *)
Definition end_tags (t : tags_opt) (res : json) (c : Context.t) : OMap.t json :=
  let tags := [("fromCache"%string, JBool (Context.cachedResult c))] in
  match t with
  | TagsFun f => Context.assign tags (default [] (tags_fn f c (Some res)))
  | TagsObj m => capture "response" m res tags
  end.

Definition name_of (o : opts) (d : string) (c : Context.t) : string :=
  match spanName o with
  | Some (NameStr s) => if String.eqb s "" then d else s
  | Some (NameFun f) => name_fn f c
  | None => d
  end.

(** Starting the span of the context [i]; an empty request ID counts as none. *)
Definition enter (i : nat) (name type : string) (svc : option Span.service_opt) (tags : OMap.t json) (t : Z) (w : world)
    : nat * world :=
  match ctxs w !! i with
  | None => (length (Tracer.spans (tracer w)), w)
  | Some c =>
      let '(u, x) := uid (user w) in
      let r := Context.requestID (ContextSpans.ctx c) in
      let o := Span.Opts (Some (Some type)) (Some (Some (Context.id (ContextSpans.ctx c))))
        (Some (if String.eqb r "" then None else Some r)) (Some (Context.parentID (ContextSpans.ctx c))) (Some svc) None
        (Some (Context.tracing (ContextSpans.ctx c))) None (Some (Some tags)) None in
      let '(s, c, tr) :=
        ContextSpans.startSpan rate minPriority defaultTags exporters x name o (inject_Z t) (inject_Z t) c (tracer w) in
      let c := match Tracer.spans tr !! s with Some sp => ContextSpans.set_tracing (Span.sampled sp) c | None => c end in
      (s, World tr (<[i := c]> (ctxs w)) u)
  end.

Definition on_span (s : nat) (f : Span.t → Span.t) (w : world) : world :=
  World (Tracer.set_spans (alter f s (Tracer.spans (tracer w))) (tracer w)) (ctxs w) (user w).

(** [ctx.finishSpan(span)] *)
Definition finish (i s : nat) (t : Z) (w : world) : world :=
  match ctxs w !! i with
  | None => w
  | Some c =>
      let '(c, tr) := ContextSpans.finishSpan exporters s None (inject_Z t) c (tracer w) in
      World tr (<[i := c]> (ctxs w)) (user w)
  end.

Definition ctx_of (w : world) (i : nat) : Context.t :=
  match ctxs w !! i with Some c => ContextSpans.ctx c | None => Context.new "" "" end.

(** What a span keeps of an error *)
Context (error_json : E → json).

(** [tracingLocalActionMiddleware(ctx)] of the context [i] *)
Definition tracingLocalAction (o : opts) (global : option tags_opt) (svc : option Span.service_opt)
    (handler : nat → job) (i : nat) : job :=
  if enabled o then λ t w,
    let c := ctx_of w i in
    let act := chosen (o_tags o) global in
    let nm := ("action '" +:+ match Context.action c with Some a => ad_name a | None => "" end +:+ "'")%string in
    let '(s, w) := enter i (name_of o nm c) "action" svc (start_tags o act (action_tags c) c) t w in
    catch_
      (then_ (handler i) (λ res t w,
        (finish i s t (on_span s (Span.addTags (end_tags act res (ctx_of w i))) w), Settled t (Resolved res))))
      (λ err t w, (finish i s t (on_span s (Span.setError (error_json err)) w), Settled t (Rejected err))) t w
  else handler i.

(** [tracingLocalEventMiddleware(ctx)]: what it answers is [undefined]. *)
Definition tracingLocalEvent (o : opts) (global : option tags_opt) (name group fullName : string)
    (svc : option Span.service_opt) (handler : nat → job) (i : nat) : job :=
  if enabled o then λ t w,
    let c := ctx_of w i in
    let act := chosen (o_tags o) global in
    let nm := ("event '" +:+ default "null" (Context.eventName c) +:+ "' in '" +:+ fullName +:+ "'")%string in
    let '(s, w) := enter i (name_of o nm c) "event" svc (start_tags o act (event_tags name group c) c) t w in
    catch_
      (then_ (handler i) (λ _ t w, (finish i s t w, Settled t (Resolved JUndef))))
      (λ err t w, (finish i s t (on_span s (Span.setError (error_json err)) w), Settled t (Rejected err))) t w
  else handler i.

End middleware.
End TracingMiddleware.
