(* ===== verification/TracingTheorems.v ===== *)
(** * Theorems about tracing

    The rate limiter keeps its rate in every stretch of time ([rate_limit_kept]), sampling by a
    fixed rate takes every k-th trace ([fixed_rate_exact]), a trace is sampled as a whole on all
    nodes ([one_trace]), and the middleware changes no result ([tracing_transparent]). *)

From stdpp Require Import base tactics list strings option sets.
From Stdlib Require Import ZArith QArith Qround Lia Lqa.
From S2P Require Import Prelude JsonText Promises Calls Tracing.

Open Scope Z_scope.

(** ** The rate limiter *)

Section limiter.
Import RateLimiter.

(** The answers to a sequence of checks, each of cost 1 *)
Fixpoint checks (ts : list Q) (r : RateLimiter.t) : nat * RateLimiter.t :=
  match ts with
  | [] => (0%nat, r)
  | t :: ts =>
      let '(b, r) := check 1 t r in
      let '(n, r) := checks ts r in ((if b then S n else n), r)
  end.

(** Times that do not go back *)
Fixpoint ordered (t : Q) (ts : list Q) : Prop :=
  match ts with [] => True | t' :: ts => (t <= t')%Q ∧ ordered t' ts end.

Definition final (t : Q) (ts : list Q) : Q := List.last ts t.

Lemma final_cons a t ts : final a (t :: ts) = final t ts.
Proof.
  unfold final. destruct ts as [|x ts]; [done|]. cbn [List.last]. revert x. induction ts as [|y ts IH]; intros x; [done|]. apply IH.
Qed.

Definition limiter_ok (r : RateLimiter.t) : Prop :=
  (0 < tracesPerSecond r ∧ 0 <= balance r ∧ balance r <= maxBalance r ∧ 1 <= maxBalance r)%Q.

Lemma new_ok tps now : (0 < default 1 tps)%Q → limiter_ok (new tps now).
Proof.
  intros H. unfold limiter_ok, new. cbn [tracesPerSecond balance maxBalance]. destruct (Qlt_le_dec (default 1%Q tps) 1); lra.
Qed.

Definition gained (r : RateLimiter.t) (t : Q) : Q := ((t - lastTime r) / 1000 * tracesPerSecond r)%Q.

Lemma gained_nonneg r t : limiter_ok r → (lastTime r <= t)%Q → (0 <= gained r t)%Q.
Proof.
  intros (H1 & _) H. unfold gained. apply Qmult_le_0_compat; [|lra]. apply Qle_shift_div_l; lra.
Qed.

(** One check: the balance pays for it. *)
Lemma check_step t r : limiter_ok r → (lastTime r <= t)%Q →
  let '(b, r') := check 1 t r in
  limiter_ok r' ∧ lastTime r' = t ∧ tracesPerSecond r' = tracesPerSecond r ∧ maxBalance r' = maxBalance r ∧
  (balance r' + (if b then 1 else 0) <= balance r + gained r t)%Q ∧
  (balance r' + (if b then 1 else 0) <= maxBalance r)%Q ∧
  (b = false → balance r + gained r t < 1)%Q.
Proof.
  intros Hok Ht. pose proof (gained_nonneg r t Hok Ht) as Hg. destruct Hok as (H1 & H2 & H3 & H4).
  unfold check. fold (gained r t). set (g := gained r t) in *. clearbody g.
  destruct (Qlt_le_dec (maxBalance r) (balance r + g)) as [Hm|Hm].
  - assert (Qle_bool 1 (maxBalance r) = true) as -> by by apply Qle_bool_iff.
    unfold limiter_ok. cbn. split_and!; try done; lra.
  - destruct (Qle_bool 1 (balance r + g)) eqn:E.
    + apply Qle_bool_iff in E. unfold limiter_ok. cbn. split_and!; try done; lra.
    + assert (¬ (1 <= balance r + g)%Q) as E' by (rewrite <- Qle_bool_iff; by rewrite E).
      apply Qnot_le_lt in E'. unfold limiter_ok. cbn. split_and!; try done; lra.
Qed.

Lemma check_exact t r :
  let '(b, r') := check 1 t r in
  (balance r' == balance r + gained r t - (if b then 1 else 0))%Q ∨ (balance r' == maxBalance r - (if b then 1 else 0))%Q.
Proof.
  unfold check. fold (gained r t). destruct (Qlt_le_dec _ _); destruct (Qle_bool _ _); cbn; [right|right|left|left]; ring.
Qed.

Lemma checks_bound ts : ∀ r, limiter_ok r → ordered (lastTime r) ts →
  let '(n, r') := checks ts r in
  limiter_ok r' ∧ lastTime r' = final (lastTime r) ts ∧ tracesPerSecond r' = tracesPerSecond r ∧ maxBalance r' = maxBalance r ∧
  (balance r' + inject_Z (Z.of_nat n) <= balance r + (final (lastTime r) ts - lastTime r) / 1000 * tracesPerSecond r)%Q.
Proof.
  induction ts as [|t ts IH]; intros r Hok Ho; cbn [checks ordered final] in *.
  - split_and!; try done. unfold final. cbn [List.last].
    setoid_replace ((lastTime r - lastTime r) / 1000 * tracesPerSecond r)%Q with 0%Q using relation Qeq by (unfold Qdiv; ring).
    change (inject_Z (Z.of_nat 0)) with 0%Q. lra.
  - destruct Ho as [Ht Ho]. pose proof (check_step t r Hok Ht) as Hs. destruct (check 1 t r) as [b r1].
    destruct Hs as (Hok1 & Hl & Htps & Hmax & Hbal & _). specialize (IH r1 Hok1). rewrite Hl in IH. specialize (IH Ho).
    destruct (checks ts r1) as [n r2]. destruct IH as (Hok2 & Hl2 & Htps2 & Hmax2 & Hb2).
    rewrite final_cons.
    split_and!; [done|congruence..|]. rewrite Htps in Hb2. unfold gained in Hbal.
    assert ((final t ts - lastTime r) / 1000 * tracesPerSecond r ==
      (t - lastTime r) / 1000 * tracesPerSecond r + (final t ts - t) / 1000 * tracesPerSecond r)%Q as -> by (unfold Qdiv; ring).
    destruct b; [|lra]. rewrite Nat2Z.inj_succ. unfold Z.succ. rewrite inject_Z_plus. change (inject_Z 1) with 1%Q. lra.
Qed.

(** Waiting [n] periods saves up for [n] checks, as far as the balance goes. *)
Lemma checks_all n t r : limiter_ok r → (lastTime r <= t)%Q → (inject_Z (Z.of_nat n) <= maxBalance r)%Q →
  (inject_Z (Z.of_nat n) <= gained r t)%Q → (checks (repeat t n) r).1 = n.
Proof.
  intros Hok Ht Hmax Hg.
  assert (∀ k r, limiter_ok r → (lastTime r <= t)%Q → (inject_Z (Z.of_nat k) <= maxBalance r)%Q →
    (inject_Z (Z.of_nat k) <= balance r + gained r t)%Q → (checks (repeat t k) r).1 = k) as H.
  { clear. induction k as [|k IH]; intros r Hok Ht Hmax Hg; [done|]. cbn [repeat checks].
    rewrite Nat2Z.inj_succ in Hmax, Hg. unfold Z.succ in Hmax, Hg. rewrite inject_Z_plus in Hmax, Hg.
    change (inject_Z 1) with 1%Q in *.
    assert (0 <= inject_Z (Z.of_nat k))%Q as Hk by (change 0%Q with (inject_Z 0); rewrite <- Zle_Qle; lia).
    pose proof (check_step t r Hok Ht) as Hs. pose proof (check_exact t r) as He.
    destruct (check 1 t r) as [b r1]. destruct Hs as (Hok1 & Hl & Htps & Hm & _ & _ & Hb).
    destruct b; [|specialize (Hb eq_refl); lra].
    specialize (IH r1 Hok1). unfold gained in IH. rewrite Hl, Hm in IH.
    setoid_replace ((t - t) / 1000 * tracesPerSecond r1)%Q with 0%Q using relation Qeq in IH by (unfold Qdiv; ring).
    destruct (checks (repeat t k) r1) as [n r2]. cbn [fst] in *. f_equal. apply IH; [lra..|]. destruct He as [->| ->]; lra. }
  apply H; try done. destruct Hok as (_ & H2 & _). lra.
Qed.

End limiter.

(** The rate limiter keeps its rate in every stretch of time: whatever was checked before, of the
    checks from one time to a later one at most the full balance and what the time between
    them brings are let through; and after [n] periods without a check, [n] checks at
    once are, up to the full balance. *)
Theorem rate_limit_kept tps t0 before t after :
  (0 < default 1 tps)%Q → ordered t0 (before ++ t :: after) →
  let r := (checks before (RateLimiter.new tps t0)).2 in
  let full := RateLimiter.maxBalance r in
  let n := (checks (t :: after) r).1 in
  (inject_Z (Z.of_nat n) <= full + (final t after - t) / 1000 * default 1 tps)%Q ∧
  full = (if Qlt_le_dec (default 1%Q tps) 1 then 1%Q else default 1%Q tps) ∧
  ∀ k, (inject_Z (Z.of_nat k) <= full)%Q →
    (inject_Z (Z.of_nat k) <= (t - RateLimiter.lastTime r) / 1000 * default 1 tps)%Q → (checks (repeat t k) r).1 = k.
Proof.
  intros Htps Ho. pose proof (new_ok tps t0 Htps) as Hok0. set (r0 := RateLimiter.new tps t0) in *.
  assert (ordered t0 before ∧ ordered (final t0 before) (t :: after)) as [Ho1 Ho2].
  { clearbody r0. clear -Ho. revert t0 Ho. induction before as [|x l IH]; intros a Ho; [done|]. rewrite final_cons.
    destruct Ho as [H Ho]. apply IH in Ho as [? ?]. by split; [split|]. }
  pose proof (checks_bound before r0 Hok0 Ho1) as Hb. destruct (checks before r0) as [m r] eqn:E. cbn [snd].
  destruct Hb as (Hok & Hl & Ht & Hmax & _). change (RateLimiter.lastTime r0) with t0 in Hl.
  change (RateLimiter.tracesPerSecond r0) with (default 1%Q tps) in Ht. rewrite <- Hl in Ho2. split_and!.
  - cbn [checks]. destruct Ho2 as [Ho2 Ho3]. pose proof (check_step t r Hok Ho2) as Hs.
    destruct (RateLimiter.check 1 t r) as [b r1]. destruct Hs as (Hok1 & Hl1 & Ht1 & _ & _ & Hfull & _).
    rewrite <- Hl1 in Ho3. pose proof (checks_bound after r1 Hok1 Ho3) as Hb. destruct (checks after r1) as [n r2].
    destruct Hb as ((_ & Hr2 & _) & _ & _ & _ & Hb). rewrite Hl1, Ht1, Ht in Hb. destruct b; cbn [fst].
    + rewrite Nat2Z.inj_succ. unfold Z.succ. rewrite inject_Z_plus. change (inject_Z 1) with 1%Q. lra.
    + lra.
  - by rewrite Hmax.
  - intros k Hk1 Hk2. apply checks_all; [done|by destruct Ho2|done|]. unfold gained. by rewrite Ht.
Qed.

Lemma rate_limit_kept_witness :
  let r := (checks [1000; 1100] (RateLimiter.new (Some 2) 0))%Q.2 in
  (checks [1200; 1300; 5000; 5000; 5000] r)%Q.1 = 2%nat ∧
  (inject_Z (Z.of_nat (checks [1200; 1300; 5000; 5000; 5000] r)%Q.1) <= RateLimiter.maxBalance r + (5000 - 1200) / 1000 * 2)%Q.
Proof.
  intros r. split; [vm_compute; reflexivity|].
  apply (rate_limit_kept (Some 2%Q) 0 [1000; 1100]%Q 1200 [1300; 5000; 5000; 5000]%Q); [reflexivity|].
  cbn. repeat split; discriminate.
Defined.

(** ** Sampling by a fixed rate *)

Section sampling.
Import Tracer.

(** The decisions about [n] spans of the same priority *)
Fixpoint decisions (rate : Q) (minPriority : option Q) (priority now : Q) (n : nat) (w : Tracer.t) : nat * Tracer.t :=
  match n with
  | O => (0%nat, w)
  | S n =>
      let '(b, w) := shouldSample rate minPriority priority now w in
      let '(m, w) := decisions rate minPriority priority now n w in ((if b then S m else m), w)
  end.

Lemma decisions_count rate mp p now k : (0 < rate)%Q → (rate < 1)%Q → match mp with Some m => (m <= p)%Q | None => True end →
  k = Z.to_nat (Qceiling (/ rate)) →
  ∀ n w, rateLimiter w = None → (0 <= sampleCounter w)%Z → (Z.to_nat (sampleCounter w) < k)%nat →
  (decisions rate mp p now n w).1 = ((Z.to_nat (sampleCounter w) + n) / k)%nat.
Proof.
  intros H0 H1 Hmp -> n. set (k := Z.to_nat (Qceiling (/ rate))).
  assert (Qeq_bool rate 0 = false ∧ Qeq_bool rate 1 = false) as [E0 E1].
  { split; apply not_true_iff_false; rewrite Qeq_bool_iff; lra. }
  assert (match mp with Some m => negb (Qle_bool m p) | None => false end = false) as Emp.
  { destruct mp as [m|]; [|done]. apply Qle_bool_iff in Hmp. by rewrite Hmp. }
  induction n as [|n IH]; intros w Hl Hc Hk; cbn [decisions].
  - cbn [fst]. rewrite Nat.add_0_r, Nat.div_small; done.
  - unfold shouldSample. rewrite Emp, Hl, E0, E1. set (c := sampleCounter w) in *.
    assert (Qle_bool 1 (inject_Z (c + 1) * rate) = (k <=? Z.to_nat c + 1)%nat) as ->.
    { apply eq_true_iff_eq. rewrite Qle_bool_iff, Nat.leb_le. unfold k.
      assert (1 <= inject_Z (c + 1) * rate ↔ / rate <= inject_Z (c + 1))%Q as ->.
      { split; intros H.
        - apply (Qmult_le_r _ _ rate H0). rewrite (Qmult_comm (/ rate)), Qmult_inv_r by lra. exact H.
        - apply (Qmult_le_r _ _ rate H0) in H. rewrite (Qmult_comm (/ rate)), Qmult_inv_r in H by lra. exact H. }
      split; intros H.
      - apply Qceiling_resp_le in H. rewrite Qceiling_Z in H. lia.
      - eapply Qle_trans; [apply Qle_ceiling|]. rewrite <- Zle_Qle. lia. }
    destruct (Nat.leb_spec k (Z.to_nat c + 1)) as [Hle|Hlt].
    + pose proof (IH (Tracer None 0 (spans w) (told w)) eq_refl (Z.le_refl 0)) as H. cbn [sampleCounter] in H.
      destruct (decisions _ _ _ _ n _) as [m w']. cbn [fst] in *. rewrite H by lia. change (Z.to_nat 0) with 0%nat.
      assert (Z.to_nat c + S n = n + 1 * k)%nat as -> by lia. rewrite Nat.div_add by lia. cbn [Nat.add]. lia.
    + pose proof (IH (Tracer None (c + 1) (spans w) (told w)) eq_refl) as H. cbn [sampleCounter] in H.
      destruct (decisions _ _ _ _ n _) as [m w']. cbn [fst] in *. rewrite H by lia. f_equal. lia.
Qed.

End sampling.

(** A fixed rate takes every k-th trace, where k is the inverse of the rate, rounded up: the rate
    is kept exactly when it divides one, and else less than it is taken. *)
Theorem fixed_rate_exact rate mp p now n t0 :
  (0 < rate)%Q → (rate < 1)%Q → match mp with Some m => (m <= p)%Q | None => True end →
  let taken := (decisions rate mp p now n (Tracer.new None t0)).1 in
  taken = (n / Z.to_nat (Qceiling (/ rate)))%nat ∧ (inject_Z (Z.of_nat taken) <= inject_Z (Z.of_nat n) * rate)%Q.
Proof.
  intros H0 H1 Hp taken. set (k := Z.to_nat (Qceiling (/ rate))).
  assert (1 <= / rate)%Q as Hinv.
  { apply (Qmult_le_r _ _ rate H0). rewrite (Qmult_comm (/ rate)), Qmult_inv_r by lra. lra. }
  assert (1 <= Qceiling (/ rate)) as Hc by (apply Qceiling_resp_le in Hinv; exact Hinv).
  assert (taken = (n / k)%nat) as Ht by (apply decisions_count; try done; cbn; lia).
  split; [done|]. rewrite Ht. pose proof (Nat.Div0.mul_div_le n k) as Hle.
  assert (inject_Z (Z.of_nat (n / k)) * inject_Z (Z.of_nat k) <= inject_Z (Z.of_nat n))%Q as H.
  { rewrite <- inject_Z_mult, <- Zle_Qle. lia. }
  assert (/ rate <= inject_Z (Z.of_nat k))%Q as Hk.
  { eapply Qle_trans; [apply Qle_ceiling|]. rewrite <- Zle_Qle. lia. }
  assert (0 <= inject_Z (Z.of_nat (n / k)))%Q as Hn by (change 0%Q with (inject_Z 0); rewrite <- Zle_Qle; lia).
  set (a := inject_Z (Z.of_nat (n / k))) in *. set (b := inject_Z (Z.of_nat n)) in *. set (c := inject_Z (Z.of_nat k)) in *.
  assert (a * / rate <= b)%Q as Hab.
  { eapply Qle_trans; [|exact H]. rewrite (Qmult_comm a), (Qmult_comm a). by apply Qmult_le_compat_r. }
  apply (Qmult_le_r _ _ rate H0) in Hab. rewrite <- Qmult_assoc, (Qmult_comm (/ rate)), Qmult_inv_r, Qmult_1_r in Hab by lra. exact Hab.
Qed.

Lemma fixed_rate_exact_witness :
  (decisions (3 # 4) None 5 0 100 (Tracer.new None 0)).1 = 50%nat ∧
  (decisions (3 # 4) None 5 0 100 (Tracer.new None 0)).1 = (100 / Z.to_nat (Qceiling (/ (3 # 4))))%nat.
Proof. split; [vm_compute; reflexivity|]. by apply (fixed_rate_exact (3 # 4) None 5 0 100 0). Defined.

(** ** One trace on all nodes *)

(** The tracers of the nodes, and the contexts with the nodes they are on *)
Record cluster := Cluster {
  tracers : list Tracer.t;
  contexts : list (nat * ContextSpans.t)
}.

(** Replacing the tracer of a node and a context *)
Definition update (n : nat) (w : Tracer.t) (i : nat) (c : ContextSpans.t) (s : cluster) : cluster :=
  Cluster (<[n := w]> (tracers s)) (<[i := (n, c)]> (contexts s)).
Definition join (n : nat) (c : Context.t) (s : cluster) : cluster :=
  Cluster (tracers s) (contexts s ++ [(n, ContextSpans.of_ctx c)]).

(** The middleware starts the span of the context [c]. *)
Definition entered (rate : Q) (mp : option Q) (dt : option (OMap.t json)) (exporters : list string) (uid nm type : string)
    (svc : option Span.service_opt) (tags : OMap.t json) (t : Z) (c : ContextSpans.t) (w : Tracer.t)
    : option (ContextSpans.t * Tracer.t) :=
  let w' := (TracingMiddleware.enter rate mp dt exporters (λ u : string, (u, u)) 0 nm type svc tags t
    (TracingMiddleware.World w [c] uid)).2 in
  (λ c, (c, TracingMiddleware.tracer w')) <$> head (TracingMiddleware.ctxs w').

(** Options of a call or a span that leave the trace alone *)
Definition plain_call (o : Context.opts) : Prop :=
  Context.o_requestID o = None ∧ Context.o_parentSpan o = None ∧ Context.o_parentCtx o = None.
Definition plain_span (o : Span.opts) : Prop :=
  Span.o_id o = None ∧ Span.o_traceID o = None ∧ Span.o_parentID o = None ∧ Span.o_sampled o = None ∧ Span.o_parentSpan o = None.

(** What a trace does: a first call that is traced, and then calls, events and requests to other
    nodes from any of its contexts, whose spans are started by the middleware or
    not, spans of users in a context that has one, and the ends of spans.  The nodes have
    tracers of their own with any settings but the exporters. *)
Inductive trace (exporters : list string) : cluster → Prop :=
| TraceRoot ws n w id nodeID uid e ps oi op rate mp dt nm type svc tags t c' w' :
    Forall (λ w, Tracer.spans w = [] ∧ Tracer.told w = []) ws →
    ws !! n = Some w → id ≠ ""%string → Context.o_parentCtx op = None → Context.o_parentSpan op = None →
    Context.o_requestID op ≠ Some ""%string →
    entered rate mp dt exporters uid nm type svc tags t (ContextSpans.of_ctx (Context.create nodeID id e ps oi op)) w = Some (c', w') →
    trace exporters (Cluster (<[n := w']> ws) [(n, c')])
| TraceCall s i n c id nodeID e ps oi op :
    trace exporters s → contexts s !! i = Some (n, c) → id ≠ ""%string → plain_call op →
    trace exporters (join n (Context.create nodeID id e ps oi (Context.child_opts (ContextSpans.ctx c) op)) s)
| TraceCopy s i n c id e :
    trace exporters s → contexts s !! i = Some (n, c) → id ≠ ""%string →
    trace exporters (Cluster (tracers s) (contexts s ++ [(n, ContextSpans.copy id e c)]))
| TraceRequest s i n c n' sender e oi :
    trace exporters s → contexts s !! i = Some (n, c) → (n' < length (tracers s))%nat →
    trace exporters (join n' (ContextSpans.received_request sender e oi (ContextSpans.ctx c)) s)
| TraceEvent s i n c n' sender oi :
    trace exporters s → contexts s !! i = Some (n, c) → (n' < length (tracers s))%nat →
    trace exporters (join n' (ContextSpans.received_event sender oi (ContextSpans.ctx c)) s)
| TraceEnter s i n c w rate mp dt uid nm type svc tags t c' w' :
    trace exporters s → contexts s !! i = Some (n, c) → tracers s !! n = Some w →
    entered rate mp dt exporters uid nm type svc tags t c w = Some (c', w') →
    trace exporters (update n w' i c' s)
| TraceSpan s i n c w rate mp dt uid nm o now ticks k c' w' :
    trace exporters s → contexts s !! i = Some (n, c) → tracers s !! n = Some w →
    is_Some (ContextSpans.span c) → plain_span o →
    ContextSpans.startSpan rate mp dt exporters uid nm o now ticks c w = (k, c', w') →
    trace exporters (update n w' i c' s)
| TraceFinish s i n c w k time ticks c' w' :
    trace exporters s → contexts s !! i = Some (n, c) → tracers s !! n = Some w →
    ContextSpans.finishSpan exporters k time ticks c w = (c', w') →
    trace exporters (update n w' i c' s).

(** The identifiers of the spans and contexts of a cluster *)
Definition known_ids (s : cluster) : list string :=
  flat_map (λ w, map Span.id (Tracer.spans w)) (tracers s) ++ map (λ '(_, c), Context.id (ContextSpans.ctx c)) (contexts s).

Lemma elem_of_flat {A B} (f : A → list B) l x : x ∈ flat_map f l ↔ ∃ y, y ∈ l ∧ x ∈ f y.
Proof.
  rewrite list_elem_of_In, in_flat_map. split; intros (y & H1 & H2); exists y; by split; apply list_elem_of_In.
Qed.

Section one_trace.
Context (exporters : list string) (R : string) (b : bool).

Definition parent_known (ids : list string) (p : option string) : Prop :=
  match p with Some p => p ∈ ids | None => True end.

Definition span_ok (ids : list string) (s : Span.t) : Prop :=
  Span.traceID s = R ∧ Span.sampled s = b ∧ parent_known ids (Span.parentID s).

Definition tracer_ok (ids : list string) (w : Tracer.t) : Prop :=
  Forall (span_ok ids) (Tracer.spans w) ∧
  (if b then ∀ i e, (i < length (Tracer.spans w))%nat → e ∈ exporters → (e, Tracer.Started, i) ∈ Tracer.told w
   else Tracer.told w = []).

Definition ctx_ok (ids : list string) (len : nat) (c : ContextSpans.t) : Prop :=
  Context.requestID (ContextSpans.ctx c) = R ∧ Context.tracing (ContextSpans.ctx c) = Some b ∧
  parent_known ids (Context.parentID (ContextSpans.ctx c)) ∧
  parent_known ids (sp_id <$> Context.ctx_span (ContextSpans.ctx c)) ∧
  match ContextSpans.span c with Some i => (i < len)%nat | None => True end ∧
  Forall (λ i, (i < len)%nat) (ContextSpans.spanStack c).

Definition spans_of (s : cluster) (n : nat) : nat :=
  match tracers s !! n with Some w => length (Tracer.spans w) | None => 0%nat end.

Definition trace_ok (s : cluster) : Prop :=
  Forall (tracer_ok (known_ids s)) (tracers s) ∧
  Forall (λ '(n, c), (n < length (tracers s))%nat ∧ ctx_ok (known_ids s) (spans_of s n) c) (contexts s).

Lemma parent_known_mono ids ids' p : ids ⊆ ids' → parent_known ids p → parent_known ids' p.
Proof. intros H. destruct p; [apply H|done]. Qed.

Lemma tracer_ok_mono ids ids' w : ids ⊆ ids' → tracer_ok ids w → tracer_ok ids' w.
Proof.
  intros H [H1 H2]. split; [|done]. eapply list.Forall_impl; [exact H1|]. intros s (? & ? & ?). split_and!; [done..|].
  by eapply parent_known_mono.
Qed.

Lemma ctx_ok_mono ids ids' len len' c : ids ⊆ ids' → (len ≤ len')%nat → ctx_ok ids len c → ctx_ok ids' len' c.
Proof.
  intros H Hl (? & ? & ? & ? & ? & Hs). split_and!; [done|done|by eapply parent_known_mono|by eapply parent_known_mono| |].
  - destruct (ContextSpans.span c); [lia|done].
  - eapply list.Forall_impl; [exact Hs|]. simpl. lia.
Qed.

(** A new context of the trace *)
Lemma join_ok s n c : trace_ok s → (n < length (tracers s))%nat → ctx_ok (known_ids s) (spans_of s n) c →
  trace_ok (Cluster (tracers s) (contexts s ++ [(n, c)])).
Proof.
  intros [H1 H2] Hn Hc. assert (known_ids s ⊆ known_ids (Cluster (tracers s) (contexts s ++ [(n, c)]))) as Hids.
  { unfold known_ids. cbn. rewrite map_app. set_solver. }
  split; cbn [tracers contexts].
  - eapply list.Forall_impl; [exact H1|]. intros w. by apply tracer_ok_mono.
  - apply Forall_app. split.
    + eapply list.Forall_impl; [exact H2|]. intros [m d] [Hm Hd]. split; [done|]. by eapply ctx_ok_mono; [| |exact Hd].
    + constructor; [|done]. split; [done|]. by eapply ctx_ok_mono; [| |exact Hc].
Qed.

(** A tracer that has more spans, and a context of its node *)
Lemma update_ok s n w w' i c c' : trace_ok s → contexts s !! i = Some (n, c) → tracers s !! n = Some w →
  map Span.id (Tracer.spans w) ⊆ map Span.id (Tracer.spans w') →
  Context.id (ContextSpans.ctx c') = Context.id (ContextSpans.ctx c) →
  (length (Tracer.spans w) ≤ length (Tracer.spans w'))%nat →
  (∀ ids, known_ids s ⊆ ids → map Span.id (Tracer.spans w') ⊆ ids → tracer_ok ids w → ctx_ok ids (length (Tracer.spans w)) c →
    tracer_ok ids w' ∧ ctx_ok ids (length (Tracer.spans w')) c') →
  trace_ok (update n w' i c' s).
Proof.
  intros [H1 H2] Hc Hw Hids Hid Hlen Hstep.
  assert (n < length (tracers s))%nat as Hn by by eapply lookup_lt_Some.
  assert (i < length (contexts s))%nat as Hi by by eapply lookup_lt_Some.
  assert (known_ids s ⊆ known_ids (update n w' i c' s)) as Hk.
  { intros x. unfold known_ids, update. cbn [tracers contexts]. rewrite !elem_of_app, !elem_of_flat, !list_elem_of_fmap.
    intros [(v & Hv & Hx)|([m d] & -> & Hd)].
    - left. apply list_elem_of_lookup_1 in Hv as [k Hv]. destruct (decide (k = n)) as [->|Hne].
      + exists w'. split; [by eapply list_elem_of_lookup_2, list_lookup_insert_eq|].
        rewrite Hw in Hv. injection Hv as ->. by apply Hids.
      + exists v. split; [|done]. eapply list_elem_of_lookup_2. rewrite list_lookup_insert_ne; [exact Hv|done].
    - right. apply list_elem_of_lookup_1 in Hd as [k Hd]. destruct (decide (k = i)) as [->|Hne].
      + exists (n, c'). rewrite Hc in Hd. injection Hd as -> ->. split; [done|]. by eapply list_elem_of_lookup_2, list_lookup_insert_eq.
      + exists (m, d). split; [done|]. eapply list_elem_of_lookup_2. rewrite list_lookup_insert_ne; [exact Hd|done]. }
  assert (map Span.id (Tracer.spans w') ⊆ known_ids (update n w' i c' s)) as Hk'.
  { intros x Hx. unfold known_ids, update. cbn [tracers]. apply elem_of_app. left. apply elem_of_flat. exists w'.
    split; [|done]. by eapply list_elem_of_lookup_2, list_lookup_insert_eq. }
  pose proof (Forall_lookup_1 _ _ _ _ H1 Hw) as Hw1. pose proof (Forall_lookup_1 _ _ _ _ H2 Hc) as [_ Hc1].
  unfold spans_of in Hc1. rewrite Hw in Hc1.
  destruct (Hstep _ Hk Hk' (tracer_ok_mono _ _ _ Hk Hw1) (ctx_ok_mono _ _ _ _ _ Hk (le_n _) Hc1)) as [Ha Hb].
  assert (spans_of (update n w' i c' s) n = length (Tracer.spans w')) as Hlen'.
  { unfold spans_of, update. cbn [tracers]. by rewrite list_lookup_insert_eq. }
  split.
  - apply Forall_insert; [|exact Ha]. eapply list.Forall_impl; [exact H1|]. intros v. by apply tracer_ok_mono.
  - cbn [contexts update]. apply Forall_insert.
    + eapply list.Forall_impl; [exact H2|]. intros [m d] [Hm Hd]. cbn [tracers update]. rewrite length_insert. split; [done|].
      eapply ctx_ok_mono; [exact Hk| |exact Hd]. unfold spans_of, update. cbn [tracers]. destruct (decide (m = n)) as [->|Hne].
      * rewrite list_lookup_insert_eq by done. by rewrite Hw.
      * by rewrite list_lookup_insert_ne.
    + cbn [tracers update]. rewrite length_insert, Hlen'. by split.
Qed.
(** *** New spans *)

Lemma init_fields uid nm smp o :
  let s := Span.init uid nm smp o in
  Span.id s = Span.str_or (Span.o_id o) uid ∧ Span.traceID s = Span.str_or (Span.o_traceID o) (Span.id s) ∧
  Span.parentID s = default None (Span.o_parentID o) ∧ Span.sampled s = smp.
Proof. unfold Span.init. destruct (Span.o_defaultTags o) as [[m|]|], (Span.o_tags o) as [[m'|]|]; done. Qed.

Lemma shouldSample_spans rate mp p now w :
  Tracer.spans (Tracer.shouldSample rate mp p now w).2 = Tracer.spans w ∧
  Tracer.told (Tracer.shouldSample rate mp p now w).2 = Tracer.told w.
Proof.
  unfold Tracer.shouldSample. destruct mp as [m|]; [destruct (negb (Qle_bool m p)); [done|]|];
    (destruct (Tracer.rateLimiter w) as [r|]; [by destruct (RateLimiter.check 1 now r)|]);
    destruct (Qeq_bool rate 0), (Qeq_bool rate 1); try done; by destruct (Qle_bool _ _).
Qed.

(** What [startSpan] adds to the tracer *)
Definition adds (o : Span.opts) (uid : string) (i : nat) (w w' : Tracer.t) : Prop :=
  i = length (Tracer.spans w) ∧ ∃ s, Tracer.spans w' = Tracer.spans w ++ [s] ∧
    Span.id s = Span.str_or (Span.o_id o) uid ∧ Span.traceID s = Span.str_or (Span.o_traceID o) (Span.id s) ∧
    Span.parentID s = default None (Span.o_parentID o) ∧
    (∀ x, Span.o_sampled o = Some (Some x) → Span.sampled s = x) ∧
    Tracer.told w' = Tracer.told w ++ (if Span.sampled s then map (λ e, (e, Tracer.Started, i)) exporters else []).

Lemma startSpan_adds rate mp dt uid nm o now ticks w i w' : default None (Span.o_parentSpan o) = None →
  Tracer.startSpan rate mp dt exporters uid nm o now ticks w = (i, w') → adds o uid i w w'.
Proof.
  intros Hp. unfold Tracer.startSpan. rewrite Hp. cbn [mbind option_bind]. set (o' := Span.assign (Span.assign _ o) _).
  assert (Span.o_id o' = Span.o_id o ∧ Span.o_traceID o' = Span.o_traceID o ∧ Span.o_parentID o' = Span.o_parentID o ∧
    Span.o_sampled o' = Span.o_sampled o) as (H1 & H2 & H3 & H4).
  { unfold o', Span.assign, Span.over, Span.no_opts. cbn.
    by destruct (Span.o_id o), (Span.o_traceID o), (Span.o_parentID o), (Span.o_sampled o). }
  unfold Tracer.new_span. clearbody o'. set (d := match Span.o_sampled o' with Some (Some b) => _ | _ => _ end).
  assert (Tracer.spans d.2 = Tracer.spans w ∧ Tracer.told d.2 = Tracer.told w ∧ ∀ x, Span.o_sampled o = Some (Some x) → d.1 = x) as (Hs & Ht & Hx).
  { unfold d. rewrite H4. destruct (Span.o_sampled o) as [[x|]|].
    - split_and!; [done..|]. by intros ? [= ->].
    - destruct (shouldSample_spans rate mp (Span.init_priority o') now w). by split_and!.
    - destruct (shouldSample_spans rate mp (Span.init_priority o') now w). by split_and!. }
  destruct d as [x w1]. cbn [fst snd] in *. intros [= <- <-]. rewrite Hs.
  set (sp := Span.init uid nm x o'). destruct (init_fields uid nm x o') as (E1 & E2 & E3 & E4). fold sp in E1, E2, E3, E4.
  assert (alter (Span.start None now ticks) (length (Tracer.spans w)) (Tracer.spans w ++ [sp]) = Tracer.spans w ++ [Span.start None now ticks sp]) as Ha.
  { rewrite alter_app_r_alt by done. by rewrite Nat.sub_diag. }
  split; [done|]. exists (Span.start None now ticks sp). unfold Tracer.notify, Tracer.set_spans. cbn [Tracer.spans Tracer.told]. rewrite Ha.
  rewrite list_lookup_middle by done. cbn [Span.start Span.sampled Span.id Span.traceID Span.parentID].
  rewrite E4, Ht, <- H1, <- H2, <- H3. destruct x; cbn [Tracer.spans Tracer.told]; rewrite ?app_nil_r; by split_and!.
Qed.

Lemma adds_ok o uid i w w' ids : adds o uid i w w' → tracer_ok ids w → R ≠ ""%string →
  Span.o_traceID o = Some (Some R) → Span.o_sampled o = Some (Some b) → parent_known ids (default None (Span.o_parentID o)) →
  tracer_ok ids w'.
Proof.
  intros (Hi & s & Hs & H1 & H2 & H3 & H4 & Ht) [Hw Ht0] HR HtR Hsm Hp. apply H4 in Hsm.
  rewrite HtR in H2. cbn in H2. destruct (String.eqb_spec R ""); [done|]. split.
  - rewrite Hs. apply Forall_app. split; [done|]. constructor; [|done]. split_and!; [done..|]. by rewrite H3.
  - rewrite Ht, Hsm, Hs. destruct b; [|by rewrite Ht0, app_nil_r]. rewrite length_app. cbn [length]. intros j e Hj He. apply elem_of_app.
    destruct (decide (j < length (Tracer.spans w))%nat); [left; by apply Ht0|right]. assert (j = i) as -> by lia.
    apply list_elem_of_fmap. by exists e.
Qed.

Lemma adds_lookup o uid i w w' : adds o uid i w w' →
  length (Tracer.spans w') = S (length (Tracer.spans w)) ∧ map Span.id (Tracer.spans w) ⊆ map Span.id (Tracer.spans w') ∧
  ∃ s, Tracer.spans w' !! i = Some s ∧ Span.id s ∈ map Span.id (Tracer.spans w') ∧ Span.id s = Span.str_or (Span.o_id o) uid ∧
    (∀ x, Span.o_sampled o = Some (Some x) → Span.sampled s = x).
Proof.
  intros (-> & s & Hs & H1 & _ & _ & H4 & _). rewrite Hs, length_app, map_app. cbn. split_and!; [lia|set_solver|].
  exists s. split_and!; [by apply list_lookup_middle|set_solver|done|done].
Qed.

(** *** Contexts *)

Lemma set_span_ok ids w i stack c : ctx_ok ids (length (Tracer.spans w)) c → map Span.id (Tracer.spans w) ⊆ ids →
  match i with Some i => (i < length (Tracer.spans w))%nat | None => True end →
  Forall (λ i, (i < length (Tracer.spans w))%nat) stack →
  ctx_ok ids (length (Tracer.spans w)) (ContextSpans.set_span w i stack c).
Proof.
  intros (H1 & H2 & H3 & H4 & H5 & H6) Hids Hi Hs. unfold ContextSpans.set_span. split_and!; cbn; try done.
  destruct i as [i|]; [|done]. cbn. unfold ContextSpans.seen. destruct (Tracer.spans w !! i) as [s|] eqn:E; [|done]. cbn.
  apply Hids, list_elem_of_fmap. exists s. split; [done|]. by eapply list_elem_of_lookup_2.
Qed.

(** The options that a span of a context gets *)
Definition ctx_opts (c : ContextSpans.t) (w : Tracer.t) (o : Span.opts) : Span.opts :=
  match ContextSpans.span c ≫= (Tracer.spans w !!.) with Some s => Span.child_opts s o | None => o end.

Lemma ctx_startSpan_adds rate mp dt uid nm o now ticks c w k c' w' : default None (Span.o_parentSpan o) = None →
  ContextSpans.startSpan rate mp dt exporters uid nm o now ticks c w = (k, c', w') →
  adds (ctx_opts c w o) uid k w w' ∧ c' = ContextSpans.set_span w' (Some k) (ContextSpans.spanStack c ++ [k]) c.
Proof.
  intros Hp. unfold ContextSpans.startSpan, ctx_opts, Tracer.span_startSpan. intros H.
  destruct (ContextSpans.span c) as [i|]; cbn [mbind option_bind].
  - destruct (Tracer.spans w !! i) as [s|].
    + destruct (Tracer.startSpan _ _ _ _ _ _ (Span.child_opts s o) _ _ _) as [j w1] eqn:E. injection H as <- <- <-. split; [|done].
      eapply startSpan_adds; [|exact E]. unfold Span.child_opts, Span.assign, Span.over. cbn. by destruct (Span.o_parentSpan o).
    + destruct (Tracer.startSpan _ _ _ _ _ _ o _ _ _) as [j w1] eqn:E. injection H as <- <- <-. split; [|done]. by eapply startSpan_adds.
  - destruct (Tracer.startSpan _ _ _ _ _ _ o _ _ _) as [j w1] eqn:E. injection H as <- <- <-. split; [|done]. by eapply startSpan_adds.
Qed.

Lemma ctx_startSpan_ok rate mp dt uid nm o now ticks c w k c' w' ids :
  default None (Span.o_parentSpan o) = None →
  ContextSpans.startSpan rate mp dt exporters uid nm o now ticks c w = (k, c', w') →
  R ≠ ""%string → Span.o_traceID (ctx_opts c w o) = Some (Some R) → Span.o_sampled (ctx_opts c w o) = Some (Some b) →
  parent_known ids (default None (Span.o_parentID (ctx_opts c w o))) →
  map Span.id (Tracer.spans w') ⊆ ids → tracer_ok ids w → ctx_ok ids (length (Tracer.spans w)) c →
  tracer_ok ids w' ∧ ctx_ok ids (length (Tracer.spans w')) c'.
Proof.
  intros Hp Hs HR Ht Hsm Hpar Hids Hw Hc. apply ctx_startSpan_adds in Hs as [Ha ->]; [|done].
  destruct (adds_lookup _ _ _ _ _ Ha) as (Hlen & _ & s & Hk & _). apply lookup_lt_Some in Hk.
  split; [by eapply adds_ok|]. apply set_span_ok; [eapply ctx_ok_mono; [| |exact Hc]; [done|lia]|done|done|].
  apply Forall_app. split; [|by constructor]. destruct Hc as (_ & _ & _ & _ & _ & Hst). eapply list.Forall_impl; [exact Hst|]. simpl. lia.
Qed.

(** The options of the middleware's span *)
Definition enter_opts (type : string) (svc : option Span.service_opt) (tags : OMap.t json) (c : ContextSpans.t) : Span.opts :=
  let r := Context.requestID (ContextSpans.ctx c) in
  Span.Opts (Some (Some type)) (Some (Some (Context.id (ContextSpans.ctx c)))) (Some (if String.eqb r "" then None else Some r))
    (Some (Context.parentID (ContextSpans.ctx c))) (Some svc) None (Some (Context.tracing (ContextSpans.ctx c))) None
    (Some (Some tags)) None.

Lemma entered_inv rate mp dt uid nm type svc tags t c w c' w' :
  entered rate mp dt exporters uid nm type svc tags t c w = Some (c', w') →
  ∃ k c1 s, ContextSpans.startSpan rate mp dt exporters uid nm (enter_opts type svc tags c) (inject_Z t) (inject_Z t) c w = (k, c1, w') ∧
    Tracer.spans w' !! k = Some s ∧ c' = ContextSpans.set_tracing (Span.sampled s) c1.
Proof.
  unfold entered, TracingMiddleware.enter. cbn [TracingMiddleware.ctxs list_lookup lookup TracingMiddleware.tracer TracingMiddleware.user].
  fold (enter_opts type svc tags c).
  destruct (ContextSpans.startSpan _ _ _ _ _ _ _ _ _ c w) as [[k c1] w1] eqn:E. cbn. intros [= <- <-].
  pose proof E as E'. apply ctx_startSpan_adds in E' as [Ha _]; [|done]. destruct (adds_lookup _ _ _ _ _ Ha) as (_ & _ & s & Hk & _).
  exists k, c1, s. by rewrite Hk.
Qed.

Lemma entered_total rate mp dt uid nm type svc tags t c w :
  is_Some (entered rate mp dt exporters uid nm type svc tags t c w).
Proof.
  unfold entered, TracingMiddleware.enter. cbn [TracingMiddleware.ctxs list_lookup lookup TracingMiddleware.tracer TracingMiddleware.user].
  destruct (ContextSpans.startSpan _ _ _ _ _ _ _ _ _ c w) as [[k c1] w1]. by eexists.
Qed.

(** The members of the options that matter are those of the middleware, also under another span. *)
Lemma enter_opts_fields type svc tags c w : let o := ctx_opts c w (enter_opts type svc tags c) in
  Span.o_id o = Some (Some (Context.id (ContextSpans.ctx c))) ∧
  Span.o_traceID o = Some (if String.eqb (Context.requestID (ContextSpans.ctx c)) "" then None else Some (Context.requestID (ContextSpans.ctx c))) ∧
  Span.o_parentID o = Some (Context.parentID (ContextSpans.ctx c)) ∧ Span.o_sampled o = Some (Context.tracing (ContextSpans.ctx c)).
Proof. unfold ctx_opts. by destruct (ContextSpans.span c ≫= (Tracer.spans w !!.)). Qed.

Lemma set_tracing_ok ids len c : ctx_ok ids len c → ctx_ok ids len (ContextSpans.set_tracing b c).
Proof. intros (? & ? & ? & ? & ? & ?). by split_and!. Qed.

Lemma entered_ok rate mp dt uid nm type svc tags t c w c' w' ids :
  entered rate mp dt exporters uid nm type svc tags t c w = Some (c', w') → R ≠ ""%string →
  map Span.id (Tracer.spans w') ⊆ ids → tracer_ok ids w → ctx_ok ids (length (Tracer.spans w)) c →
  tracer_ok ids w' ∧ ctx_ok ids (length (Tracer.spans w')) c'.
Proof.
  intros He HR Hids Hw Hc. apply entered_inv in He as (k & c1 & s & Hs & Hk & ->).
  destruct (enter_opts_fields type svc tags c w) as (_ & Ht & Hp & Hsm). pose proof Hc as (HcR & Hcb & Hcp & _).
  rewrite HcR in Ht. rewrite Hcb in Hsm. rewrite (proj2 (String.eqb_neq R "") HR) in Ht.
  destruct (ctx_startSpan_ok _ _ _ _ _ (enter_opts type svc tags c) _ _ _ _ _ _ _ ids eq_refl Hs HR Ht Hsm) as [H1 H2];
    [by rewrite Hp|done..|]. split; [done|].
  assert (Span.sampled s = b) as ->; [|by apply set_tracing_ok].
  destruct H1 as [H1 _]. by destruct (Forall_lookup_1 _ _ _ _ H1 Hk) as (_ & ? & _).
Qed.

Lemma entered_id rate mp dt uid nm type svc tags t c w c' w' :
  entered rate mp dt exporters uid nm type svc tags t c w = Some (c', w') →
  Context.id (ContextSpans.ctx c') = Context.id (ContextSpans.ctx c) ∧
  map Span.id (Tracer.spans w) ⊆ map Span.id (Tracer.spans w') ∧ (length (Tracer.spans w) ≤ length (Tracer.spans w'))%nat.
Proof.
  intros He. apply entered_inv in He as (k & c1 & s & Hs & Hk & ->). apply ctx_startSpan_adds in Hs as [Ha ->]; [|done].
  destruct (adds_lookup _ _ _ _ _ Ha) as (Hlen & Hsub & _). split_and!; [done|done|lia].
Qed.

(** *** Ends of spans *)

Lemma finish_ok k time ticks w ids : tracer_ok ids w →
  let w' := Tracer.span_finish exporters k time ticks w in
  tracer_ok ids w' ∧ map Span.id (Tracer.spans w') = map Span.id (Tracer.spans w) ∧ length (Tracer.spans w') = length (Tracer.spans w).
Proof.
  intros [H1 H2]. unfold Tracer.span_finish. set (w1 := Tracer.set_spans _ w).
  assert (tracer_ok ids w1 ∧ map Span.id (Tracer.spans w1) = map Span.id (Tracer.spans w) ∧ length (Tracer.spans w1) = length (Tracer.spans w)) as (Hw & Hm & Hl).
  { split_and!; cbn.
    - split; cbn.
      + apply Forall_alter; [done|]. intros s _ Hs. exact Hs.
      + rewrite length_alter. exact H2.
    - clear. revert k. induction (Tracer.spans w) as [|s l IH]; intros [|k]; [done..|]. cbn. f_equal. apply IH.
    - apply length_alter. }
  unfold Tracer.notify. destruct (Tracer.spans w1 !! k) as [s|] eqn:E; [|done]. destruct (Span.sampled s) eqn:Hsm; [|done].
  split_and!; [|done|done]. destruct Hw as [Hw1 Hw2]. split; cbn; [done|].
  destruct (Forall_lookup_1 _ _ _ _ Hw1 E) as (_ & Hb & _). rewrite Hsm in Hb. clear -Hw2 Hb. subst b.
  intros i e Hi He. apply elem_of_app. left. by apply Hw2.
Qed.

Lemma finishSpan_ok k time ticks c w c' w' ids : ContextSpans.finishSpan exporters k time ticks c w = (c', w') →
  tracer_ok ids w → ctx_ok ids (length (Tracer.spans w)) c → map Span.id (Tracer.spans w) ⊆ ids →
  tracer_ok ids w' ∧ ctx_ok ids (length (Tracer.spans w')) c' ∧ map Span.id (Tracer.spans w') = map Span.id (Tracer.spans w) ∧
  length (Tracer.spans w') = length (Tracer.spans w) ∧ Context.id (ContextSpans.ctx c') = Context.id (ContextSpans.ctx c).
Proof.
  unfold ContextSpans.finishSpan. intros H Hw Hc Hids. destruct (Tracer.spans w !! k) as [s|]; [|by injection H as <- <-].
  destruct (Span.isActive s); [|by injection H as <- <-].
  destruct (finish_ok k time ticks w ids Hw) as (Hw' & Hm & Hl). set (w1 := Tracer.span_finish exporters k time ticks w) in *.
  destruct (list_find (eq k) (ContextSpans.spanStack c)) as [[j x]|]; injection H as <- <-; (split_and!; try done); [|by rewrite Hl].
  assert (Forall (λ i, (i < length (Tracer.spans w1))%nat) (take j (ContextSpans.spanStack c) ++ drop (S j) (ContextSpans.spanStack c))) as Hst.
  { destruct Hc as (_ & _ & _ & _ & _ & Hst). rewrite Hl. apply Forall_app. split; [by apply Forall_take|by apply Forall_drop]. }
  apply set_span_ok; [by rewrite Hl|by rewrite Hm| |done]. destruct (list.last _) as [i|] eqn:E; [|done].
  apply last_Some_elem_of in E. rewrite Forall_forall in Hst. by apply Hst.
Qed.

End one_trace.

Lemma trace_root exporters ws n w id nodeID uid e ps oi op rate mp dt nm type svc tags t c' w' :
  Forall (λ w, Tracer.spans w = [] ∧ Tracer.told w = []) ws →
  ws !! n = Some w → id ≠ ""%string → Context.o_parentCtx op = None → Context.o_parentSpan op = None →
  Context.o_requestID op ≠ Some ""%string →
  entered rate mp dt exporters uid nm type svc tags t (ContextSpans.of_ctx (Context.create nodeID id e ps oi op)) w = Some (c', w') →
  ∃ R b, R ≠ ""%string ∧ trace_ok exporters R b (Cluster (<[n := w']> ws) [(n, c')]).
Proof.
  intros Hws Hw Hid Hpc Hps Hrq He. set (c0 := Context.create nodeID id e ps oi op) in *.
  assert (Context.requestID c0 = match Context.o_requestID op with Some r => r | None => id end ∧ Context.parentID c0 = None) as [Hr Hp].
  { unfold c0, Context.create. rewrite Hpc, Hps. cbn. destruct (Context.o_requestID op); split; try done.
    destruct e as [x|]; [|done]. unfold Context.setEndpoint. by destruct (e_kind x). }
  apply entered_inv in He as (k & c1 & s & Hs & Hk & ->). exists (Context.requestID c0), (Span.sampled s).
  assert (Context.requestID c0 ≠ ""%string) as HR by (rewrite Hr; destruct (Context.o_requestID op); congruence). split; [done|].
  apply ctx_startSpan_adds in Hs as [Ha ->]; [|done]. destruct (enter_opts_fields type svc tags (ContextSpans.of_ctx c0) w) as (E1 & E2 & E3 & _).
  destruct Ha as (Hk0 & s' & Hsp & _ & H2 & H3 & _ & Ht). destruct (Forall_lookup_1 _ _ _ _ Hws Hw) as [W1 W2].
  rewrite W1 in Hsp, Hk0. cbn in Hk0, Hsp. subst k. rewrite Hsp in Hk. injection Hk as ->. rewrite W2 in Ht.
  cbn [ContextSpans.of_ctx ContextSpans.ctx] in E2, E3. rewrite (proj2 (String.eqb_neq (Context.requestID c0) "") HR) in E2.
  rewrite E2 in H2. rewrite E3, Hp in H3. cbn in H2, H3. destruct (String.eqb_spec (Context.requestID c0) ""); [done|].
  assert (n < length ws)%nat as Hn by by eapply lookup_lt_Some. split; cbn [tracers contexts].
  - apply Forall_insert.
    + eapply list.Forall_impl; [exact Hws|]. intros v [V1 V2]. split; rewrite V1; [constructor|]. destruct (Span.sampled s); [|done].
      intros i x Hi. cbn in Hi. lia.
    + split; rewrite Hsp.
      * constructor; [|done]. split_and!; [done..|]. by rewrite H3.
      * rewrite Ht. destruct (Span.sampled s); [|done]. intros i x Hi Hx. cbn in Hi. assert (i = 0%nat) as -> by lia.
        apply list_elem_of_fmap. by exists x.
  - constructor; [|done]. rewrite length_insert. split; [done|]. unfold spans_of. cbn [tracers]. rewrite list_lookup_insert_eq by done.
    rewrite Hsp. split_and!; cbn; try done; [by rewrite Hp| |lia|constructor; [cbn; lia|done]].
    unfold ContextSpans.seen. rewrite Hsp. cbn. apply elem_of_app. left. apply elem_of_flat. exists w'. split.
    + by eapply list_elem_of_lookup_2, list_lookup_insert_eq.
    + rewrite Hsp. by left.
Qed.

Lemma ctx_lookup exporters R b s i n c : trace_ok exporters R b s → contexts s !! i = Some (n, c) →
  (n < length (tracers s))%nat ∧ ctx_ok R b (known_ids s) (spans_of s n) c ∧ Context.id (ContextSpans.ctx c) ∈ known_ids s.
Proof.
  intros [_ H2] Hc. destruct (Forall_lookup_1 _ _ _ _ H2 Hc) as [Hn Hok]. split_and!; [done..|].
  apply elem_of_app. right. apply list_elem_of_fmap. exists (n, c). split; [done|]. by eapply list_elem_of_lookup_2.
Qed.

Lemma trace_invariant exporters s : trace exporters s → ∃ R b, R ≠ ""%string ∧ trace_ok exporters R b s.
Proof.
  induction 1 as [ws n w id nodeID uid e ps oi op rate mp dt nm type svc tags t c' w' Hws Hw Hid H1 H2 H3 He
    |s i n c id nodeID e ps oi op _ (R & b & HR & IH) Hc Hid (P1 & P2 & P3)
    |s i n c id e _ (R & b & HR & IH) Hc Hid
    |s i n c n' sender e oi _ (R & b & HR & IH) Hc Hn
    |s i n c n' sender oi _ (R & b & HR & IH) Hc Hn
    |s i n c w rate mp dt uid nm type svc tags t c' w' _ (R & b & HR & IH) Hc Hw He
    |s i n c w rate mp dt uid nm o now ticks k c' w' _ (R & b & HR & IH) Hc Hw Hsp (P1 & P2 & P3 & P4 & P5) Hs
    |s i n c w k time ticks c' w' _ (R & b & HR & IH) Hc Hw Hf].
  - by eapply trace_root.
  - exists R, b. split; [done|]. destruct (ctx_lookup _ _ _ _ _ _ _ IH Hc) as (Hn & (C1 & C2 & C3 & C4 & _) & Hi).
    apply join_ok; [done..|]. unfold ctx_ok, Context.create, Context.child_opts. rewrite P3. cbn. rewrite P1, P2. cbn.
    split_and!; try done. by destruct (Context.ctx_span (ContextSpans.ctx c)).
  - exists R, b. split; [done|]. destruct (ctx_lookup _ _ _ _ _ _ _ IH Hc) as (Hn & (C1 & C2 & C3 & C4 & C5 & _) & Hi).
    apply join_ok; [done..|]. by split_and!; [..|constructor].
  - exists R, b. split; [done|]. destruct (ctx_lookup _ _ _ _ _ _ _ IH Hc) as (_ & (C1 & C2 & C3 & _) & Hi).
    apply join_ok; [done..|]. by split_and!; [..|constructor].
  - exists R, b. split; [done|]. destruct (ctx_lookup _ _ _ _ _ _ _ IH Hc) as (_ & (C1 & C2 & C3 & _) & Hi).
    apply join_ok; [done..|]. split_and!; cbn; try done. by rewrite C2.
  - exists R, b. split; [done|]. pose proof He as He'. apply entered_id in He' as (I1 & I2 & I3).
    eapply update_ok; [done..|]. intros ids _ Hids Ht Hcx. by eapply entered_ok.
  - exists R, b. split; [done|]. assert (default None (Span.o_parentSpan o) = None) as Hpo by by rewrite P5.
    pose proof Hs as Ha. apply ctx_startSpan_adds in Ha as [Ha Hc']; [|done]. apply adds_lookup in Ha as (Hlen & Hsub & _).
    eapply update_ok; [done|done|done|done|by rewrite Hc'|lia|]. intros ids _ Hids Ht Hcx.
    assert (∃ sp, ctx_opts c w o = Span.child_opts sp o ∧ span_ok R b ids sp ∧ Span.id sp ∈ ids) as (sp & E & (S1 & S2 & S3) & S4).
    { destruct Hsp as [j Hj]. unfold ctx_opts. rewrite Hj. cbn. destruct Hcx as (_ & _ & _ & _ & Hlt & _). rewrite Hj in Hlt.
      destruct (lookup_lt_is_Some_2 (Tracer.spans w) j Hlt) as [sp Hsp]. rewrite Hsp. exists sp. split; [done|].
      destruct Ht as [Ht _]. split; [by eapply Forall_lookup_1 in Ht|]. apply Hids, Hsub, list_elem_of_fmap. exists sp. split; [done|].
      by eapply list_elem_of_lookup_2. }
    eapply ctx_startSpan_ok; try done; rewrite E; cbn; rewrite ?P2, ?P3, ?P4; cbn; rewrite ?S1, ?S2; done.
  - exists R, b. split; [done|]. unfold ContextSpans.finishSpan in *.
    pose proof (λ ids H1 H2 H3, finishSpan_ok exporters R b k time ticks c w c' w' ids Hf H1 H2 H3) as Hok.
    assert (map Span.id (Tracer.spans w') = map Span.id (Tracer.spans w) ∧ length (Tracer.spans w') = length (Tracer.spans w) ∧
      Context.id (ContextSpans.ctx c') = Context.id (ContextSpans.ctx c)) as (E1 & E2 & E3).
    { destruct (ctx_lookup _ _ _ _ _ _ _ IH Hc) as (_ & Hcx & _). destruct IH as [IH1 _].
      pose proof (Forall_lookup_1 _ _ _ _ IH1 Hw) as Hwx. unfold spans_of in Hcx. rewrite Hw in Hcx.
      destruct (Hok (known_ids s) Hwx Hcx) as (_ & _ & ? & ? & ?); [|done].
      intros x Hx. apply elem_of_app. left. apply elem_of_flat. exists w. split; [by eapply list_elem_of_lookup_2|done]. }
    eapply update_ok; [done|done|done|by rewrite E1|done|lia|]. intros ids _ Hids Ht Hcx. rewrite E1 in Hids.
    by destruct (Hok ids Ht Hcx Hids) as (? & ? & _).
Qed.

(** C21. A trace of the middleware is one on all nodes.  From a call whose span the
    middleware has started, let calls (without a request ID, parent span or parent context of
    their own), copies for repeated calls, events and requests to other nodes branch
    out in any way, whose spans the middleware starts or not, let users start spans (without
    IDs, parent or sampling of their own) in contexts that already have a span, and let spans
    end: then all spans have its trace ID and its decision, their parents are spans or
    contexts of the trace, and the exporters are told of all spans or of none.  Spans that
    users start in contexts without one begin a trace of their own ([span_without_parent]) and are no part of
    this. *)
Theorem one_trace exporters s : trace exporters s → ∃ R b,
  (∀ w sp, w ∈ tracers s → sp ∈ Tracer.spans w →
     Span.traceID sp = R ∧ Span.sampled sp = b ∧ ∀ p, Span.parentID sp = Some p → p ∈ known_ids s) ∧
  (∀ w, w ∈ tracers s →
     if b then ∀ i e, (i < length (Tracer.spans w))%nat → e ∈ exporters → (e, Tracer.Started, i) ∈ Tracer.told w
     else Tracer.told w = []) ∧
  (∀ n c, (n, c) ∈ contexts s → Context.requestID (ContextSpans.ctx c) = R).
Proof.
  intros H. destruct (trace_invariant exporters s H) as (R & b & _ & H1 & H2). exists R, b.
  rewrite Forall_forall in H1. rewrite Forall_forall in H2. split_and!.
  - intros w sp Hw Hsp. destruct (H1 w Hw) as [Hs _]. rewrite Forall_forall in Hs. destruct (Hs sp Hsp) as (? & ? & Hp).
    split_and!; [done..|]. intros p Hpp. by rewrite Hpp in Hp.
  - intros w Hw. by destruct (H1 w Hw).
  - intros n c Hc. by destruct (H2 (n, c) Hc) as [_ (? & _)].
Qed.

(** A call that calls an action of another node *)
Lemma one_trace_witness :
  let fresh := Tracer.new None 0 in
  let root := ContextSpans.of_ctx (Context.create "n0" "root" None JNull 0 Context.no_opts) in
  ∃ s, trace ["console"]%string s ∧
    map (λ w, map (λ sp, (Span.id sp, Span.traceID sp, Span.parentID sp, Span.sampled sp)) (Tracer.spans w)) (tracers s) =
      [[("root", "root", None, true)]; [("sub", "root", Some "root", true)]]%string ∧
    ∃ R b, ∀ w sp, w ∈ tracers s → sp ∈ Tracer.spans w → Span.traceID sp = R ∧ Span.sampled sp = b.
Proof.
  intros fresh root. set (ex := ["console"]%string).
  pose (a := default (root, fresh) (entered 1 None None ex "u" "action 'a'" "action" None [] 0 root fresh)).
  pose (s1 := Cluster (<[0%nat := a.2]> [fresh; fresh]) [(0%nat, a.1)]).
  pose (s2 := join 0 (Context.create "n0" "sub" None JNull 1 (Context.child_opts (ContextSpans.ctx a.1) Context.no_opts)) s1).
  pose (e := Ep "n1" true (ForEvent "x" None)).
  pose (c2 := ContextSpans.of_ctx (ContextSpans.received_request "n0" e 2
    (Context.create "n0" "sub" None JNull 1 (Context.child_opts (ContextSpans.ctx a.1) Context.no_opts)))).
  pose (s3 := join 1 (ContextSpans.ctx c2) s2).
  pose (d := default (root, fresh) (entered 0 None None ex "v" "action 'b'" "action" None [] 5 c2 fresh)).
  assert (entered 1 None None ex "u" "action 'a'" "action" None [] 0 root fresh = Some (a.1, a.2)) as Ha by (vm_compute; reflexivity).
  assert (entered 0 None None ex "v" "action 'b'" "action" None [] 5 c2 fresh = Some (d.1, d.2)) as Hd by (vm_compute; reflexivity).
  assert (trace ex (update 1 d.2 2 d.1 s3)) as H.
  { apply (TraceEnter ex s3 2 1 c2 fresh 0 None None "v" "action 'b'" "action" None [] 5 d.1 d.2); [|reflexivity|reflexivity|exact Hd].
    apply (TraceRequest ex s2 1 0 (ContextSpans.of_ctx (Context.create "n0" "sub" None JNull 1
      (Context.child_opts (ContextSpans.ctx a.1) Context.no_opts))) 1 "n0" e 2); [|reflexivity|cbn; lia].
    apply (TraceCall ex s1 0 0 a.1 "sub" "n0" None JNull 1 Context.no_opts); [|reflexivity|done|by split_and!].
    apply (TraceRoot ex [fresh; fresh] 0 fresh "root" "n0" "u" None JNull 0 Context.no_opts 1 None None "action 'a'" "action" None [] 0 a.1 a.2);
      [by repeat constructor|reflexivity|done|reflexivity|reflexivity|done|exact Ha]. }
  exists (update 1 d.2 2 d.1 s3). split; [exact H|]. split; [vm_compute; reflexivity|].
  destruct (one_trace ex _ H) as (R & b & H1 & _). exists R, b. intros w sp Hw Hsp. by destruct (H1 w sp Hw Hsp) as (? & ? & _).
Defined.

(** A span that a user starts in a context without one, as in the handler of an event that is not
    traced, begins a trace of its own, and calls from there name it as their
    parent although they belong to the trace of the request. *)
Lemma span_without_parent :
  let c := ContextSpans.of_ctx (Context.create "n" "ev" None JNull 0 Context.no_opts) in
  let '(i, c', w) := ContextSpans.startSpan 1 None None [] "own" "work" Span.no_opts 0 0 c (Tracer.new None 0) in
  let d := Context.create "n" "call" None JNull 0 (Context.child_opts (ContextSpans.ctx c') Context.no_opts) in
  (Span.traceID <$> Tracer.spans w !! i) = Some "own"%string ∧
  Context.parentID d = Some "own"%string ∧ Context.requestID d = "ev"%string.
Proof. by split_and!. Qed.

(** What an untraced context calls is decided about one by one, although it shares the trace ID: of
    two calls from the handler of an event one is sampled and one is not. *)
Lemma untraced_context_splits :
  let c := Context.create "n" "ev" None JNull 0 Context.no_opts in
  let sub id := ContextSpans.of_ctx (Context.create "n" id None JNull 0 (Context.child_opts c Context.no_opts)) in
  let w0 := Tracer.new None 0 in
  let one := entered (1 # 2) None None [] "u" "action 'a'" "action" None [] 0 (sub "a"%string) w0 in
  let two := one ≫= λ '(_, w), entered (1 # 2) None None [] "u" "action 'b'" "action" None [] 0 (sub "b"%string) w in
  (λ '(_, w), map (λ s, (Span.traceID s, Span.sampled s)) (Tracer.spans w)) <$> two =
    Some [("ev", false); ("ev", true)]%string.
Proof. vm_compute. reflexivity. Qed.

(** The decision about an event that no call belongs to is left to the tracer on the node that
    emits it, but on other nodes it is never sampled. *)
Lemma remote_event_not_sampled rate mp dt exporters uid nm svc tags t id n e ps oi op sender w :
  Context.o_parentCtx op = None → Context.o_parentSpan op = None →
  let c := Context.create n id e ps oi op in
  Context.tracing c = None ∧
  match entered rate mp dt exporters uid nm "event" svc tags t (ContextSpans.of_ctx (ContextSpans.received_event sender oi c)) w with
  | Some (_, w') => ∃ s, Tracer.spans w' = Tracer.spans w ++ [s] ∧ Span.sampled s = false
  | None => False
  end.
Proof.
  intros H1 H2 c. assert (Context.tracing c = None) as Hc by (unfold c, Context.create; rewrite H1, H2; done). split; [done|].
  set (d := ContextSpans.of_ctx (ContextSpans.received_event sender oi c)).
  destruct (entered_total exporters rate mp dt uid nm "event" svc tags t d w) as [[c' w'] E]. rewrite E.
  apply entered_inv in E as (k & c1 & s & Hs & _ & _). apply ctx_startSpan_adds in Hs as [(_ & s' & Hs & _ & _ & _ & Hsm & _) _]; [|done].
  exists s'. split; [exact Hs|]. destruct (enter_opts_fields "event" svc tags d w) as (_ & _ & _ & Ho). apply Hsm. rewrite Ho.
  unfold d. cbn [ContextSpans.of_ctx ContextSpans.ctx ContextSpans.received_event Context.tracing]. by rewrite Hc.
Qed.

(** ** The middleware *)

Section middleware.
Import TracingMiddleware.
Context {U E : Type}.
Context (rate : Q) (mp : option Q) (dt : option (OMap.t json)) (exporters : list string).
Context (tags_fn : string → Context.t → option json → option (OMap.t json)) (name_fn : string → Context.t → string).
Context (pick : json → list json → json) (rawName : action_def → string) (opts_of : Context.t → Context.opts).
Context (uid : U → U * string) (nodeID : string) (error_json : E → json).

(** The span [k] of the context [i] ends at [t] with the error [err], if it has not ended yet. *)
Definition ended (k : nat) (t : Z) (err : option json) (w w' : @world U) : Prop :=
  ∀ s, Tracer.spans (tracer w) !! k = Some s → Span.isActive s = true →
    (∃ s', Tracer.spans (tracer w') !! k = Some s' ∧ Span.finishTime s' = Some (Span.getTime (inject_Z t) s) ∧
      Span.error s' = match err with Some e => Some (if is_null e then JBool true else e) | None => Span.error s end) ∧
    Tracer.told (tracer w') =
      Tracer.told (tracer w) ++ (if Span.sampled s then map (λ e, (e, Tracer.Finished, k)) exporters else []).

Lemma finish_ended i k t f (w : @world U) err : is_Some (ctxs w !! i) →
  (∀ s, Span.isActive (f s) = Span.isActive s ∧ Span.sampled (f s) = Span.sampled s ∧
     Span.getTime (inject_Z t) (f s) = Span.getTime (inject_Z t) s ∧
     Span.error (f s) = match err with Some e => Some (if is_null e then JBool true else e) | None => Span.error s end) →
  ended k t err w (finish exporters i k t (on_span k f w)).
Proof.
  intros [c Hc] Hf s Hs Ha. unfold finish, on_span. cbn [ctxs tracer]. rewrite Hc. unfold ContextSpans.finishSpan.
  cbn [Tracer.set_spans Tracer.spans]. rewrite list_lookup_alter_eq, Hs. cbn [fmap option_fmap option_map].
  destruct (Hf s) as (F1 & F2 & F3 & F4). rewrite F1, Ha.
  set (w1 := Tracer.span_finish exporters k None (inject_Z t) _).
  assert (Tracer.spans w1 !! k = Some (Span.finish None (inject_Z t) (f s)) ∧
    Tracer.told w1 = Tracer.told (tracer w) ++ (if Span.sampled s then map (λ e, (e, Tracer.Finished, k)) exporters else [])) as [H1 H2].
  { unfold w1, Tracer.span_finish, Tracer.notify, Tracer.set_spans. cbn [Tracer.spans].
    rewrite !list_lookup_alter_eq, Hs. cbn [fmap option_fmap option_map Span.finish Span.sampled]. rewrite F2.
    destruct (Span.sampled s); cbn [Tracer.spans Tracer.told]; rewrite ?app_nil_r, !list_lookup_alter_eq, Hs; by split. }
  destruct (list_find (eq k) (ContextSpans.spanStack c)) as [[j x]|]; cbn [tracer]; (split; [|exact H2]);
    (eexists; split; [exact H1|]; cbn [Span.finish Span.finishTime Span.time_or Span.error]; by rewrite F3).
Qed.

End middleware.

(** Tracing an action changes no result: the handler runs with a new span in its context, what it
    answers or throws is what the caller gets, at the same time, and the span ends then
    with the error, if there is one, and the exporters are told.  Actions that are
    not traced are called as they are. *)
Theorem tracing_transparent {U E : Type} rate mp dt exporters tags_fn name_fn pick rawName opts_of (uid : U → U * string) nodeID
    (error_json : E → json) o global svc handler i t (w : TracingMiddleware.world) c :
  TracingMiddleware.ctxs w !! i = Some c →
  let traced := TracingMiddleware.tracingLocalAction rate mp dt exporters tags_fn name_fn pick rawName opts_of uid nodeID error_json
    o global svc handler i in
  if TracingMiddleware.enabled o then
    ∃ w1 c1 s, Tracer.spans (TracingMiddleware.tracer w1) = Tracer.spans (TracingMiddleware.tracer w) ++ [s] ∧
      TracingMiddleware.ctxs w1 !! i = Some c1 ∧ ContextSpans.span c1 = Some (length (Tracer.spans (TracingMiddleware.tracer w))) ∧
      Context.tracing (ContextSpans.ctx c1) = Some (Span.sampled s) ∧
      let '(w2, p) := handler i t w1 in
      ∃ w3, traced t w = (w3, p) ∧
        match p with
        | Settled t' r => is_Some (TracingMiddleware.ctxs w2 !! i) →
            ended exporters (length (Tracer.spans (TracingMiddleware.tracer w))) t'
              match r with Resolved _ => None | Rejected e => Some (error_json e) end w2 w3
        | Never | NoFuel => w3 = w2
        end
  else traced = handler i.
Proof.
  intros Hc traced. unfold traced, TracingMiddleware.tracingLocalAction. destruct (TracingMiddleware.enabled o); [|done]. clear traced.
  set (nm := TracingMiddleware.name_of _ _ _ _). set (tags := TracingMiddleware.start_tags _ _ _ _ _ _).
  unfold TracingMiddleware.enter. rewrite Hc. destruct (uid (TracingMiddleware.user w)) as [u x].
  set (so := Span.Opts _ _ _ _ _ _ _ _ _ _).
  destruct (ContextSpans.startSpan _ _ _ _ _ _ so _ _ c _) as [[k c1] tr] eqn:Hs.
  apply ctx_startSpan_adds in Hs as [Ha Hc1]; [|done]. destruct Ha as (-> & s & Hsp & _).
  rewrite Hsp, list_lookup_middle by done. set (w1 := TracingMiddleware.World _ _ _).
  exists w1, (ContextSpans.set_tracing (Span.sampled s) c1), s. split_and!; [done| |by rewrite Hc1|done|].
  { cbn. apply list_lookup_insert_eq. by eapply lookup_lt_Some. }
  unfold then_, catch_. destruct (handler i t w1) as [w2 [t' [v|err]| |]]; eexists; (split; [reflexivity|]); try done.
  - intros H. apply finish_ended; [done|]. intros s2. by split_and!.
  - intros H. apply finish_ended; [done|]. intros s2. by split_and!.
Qed.

Lemma tracing_transparent_witness :
  let w := TracingMiddleware.World (Tracer.new None 0) [ContextSpans.of_ctx (Context.create "n" "c1" None (JObj []) 0 Context.no_opts)] 7%nat in
  let o := TracingMiddleware.Opts true None false None in
  let handler (i : nat) : job TracingMiddleware.world json json := λ t w, (w, Settled (t + 20) (Rejected (JStr "no"))) in
  let traced := TracingMiddleware.tracingLocalAction 1 None None ["console"]%string (λ _ _ _, None) (λ s _, s) (λ v _, v) ad_name
    (λ _, Context.no_opts) (λ u, (S u, "uid"%string)) "n" (λ e, e) o None None handler 0%nat in
  (traced 1000 w).2 = Settled 1020 (Rejected (JStr "no")) ∧
  ∃ w3, traced 1000 w = (w3, Settled 1020 (Rejected (JStr "no"))).
Proof.
  intros w o handler traced. split; [vm_compute; reflexivity|].
  destruct (tracing_transparent 1 None None ["console"]%string (λ _ _ _, None) (λ s _, s) (λ v _, v) ad_name
    (λ _, Context.no_opts) (λ u, (S u, "uid"%string)) "n" (λ e, e) o None None handler 0%nat 1000 w _ eq_refl)
    as (w1 & c1 & s & _ & _ & _ & _ & w3 & H & _). by exists w3.
Defined.
