(* ===== verification/Services.v ===== *)
(** * Services

    Models [src/service.js]: merging of schemas and mixins (Module [Schema]), the actions,
    methods and events made from a schema and the public settings (Module
    [Creation]), and starting and stopping services with [waitForServices],
    [getLocalService] and [destroyService] of [src/service-broker.js] (Module
    [Lifecycle]).  Functions are numbered.  Members of a schema that can be a function
    or an array of functions are lists; [_.compact] has no more to remove from them.
    [_.defaultsDeep] and [_.omit] of lodash are parameters. *)

From Stdlib Require Import ZArith Lia Bool Strings.String.
From stdpp Require Import base tactics list strings option pretty.
From S2P Require Import Prelude Promises.

Local Open Scope Z_scope.

Module Schema.

(** Hooks by kind ([before], [after], [error]) *)
Definition hooks := OMap.t (list nat).

(** An action: [false], or an object (a function is one that has only a handler); the
    other members are in [rest]. *)
Inductive action :=
| Disabled
| Action (handler : option nat) (ac_hooks : option hooks) (rest : json).

Record event := Event {
  ev_handlers : list nat;
  ev_rest : json
}.

(** Settings: [$secureSettings] and the others *)
Record settings := Settings {
  secure : option (list string);
  others : json
}.

(** A schema without its mixins; a member that is absent is [None]. *)
Record part := Part {
  name : option string;
  version : option json;
  p_settings : option settings;
  metadata : option json;
  p_hooks : option (OMap.t (OMap.t (list nat)));
  actions : option (OMap.t action);
  methods : option (OMap.t nat);
  events : option (OMap.t event);
  merged : option (list nat);
  created : option (list nat);
  started : option (list nat);
  stopped : option (list nat);
  dependencies : option (list json);
  unknown : OMap.t json
}.

(** A schema with its [mixins] *)
Inductive schema := Schema (own : part) (mixins : list schema).

Section merge.
(** [_.defaultsDeep(src, target)] of values that may be [undefined], and [_.isEqual] *)
Context (defaultsDeep : json → json → json) (isEqual : json → json → bool).

(** [_.defaultsDeep] of arrays of strings fills up by index. *)
Definition fill {A} (src target : list A) : list A := src ++ drop (length src) target.

(** [uniq(arr)]: the first of equal strings stays *)
Definition uniq (l : list string) : list string :=
  foldl (λ acc x, if existsb (String.eqb x) acc then acc else acc ++ [x]) [] l.

(** [mergeSchemaSettings(src, target)] *)
Definition mergeSchemaSettings (src : settings) (target : option settings) : settings :=
  let t_secure := target ≫= secure in
  let t_others := match target with Some t => others t | None => JUndef end in
  match secure src, t_secure with
  | None, None => Settings None (defaultsDeep (others src) t_others)
  | s, t =>
      let all := uniq (default [] s ++ default [] t) in
      Settings (Some (match s with Some s => fill s all | None => all end))
        (defaultsDeep (others src) (match target with Some t => others t | None => JObj [] end))
  end.

(** [mergeSchemaMetadata(src, target)] *)
Definition mergeSchemaMetadata (src : json) (target : option json) : json := defaultsDeep src (default JUndef target).

(** [_.uniqWith(list, isEqual)] *)
Definition uniqWith (l : list json) : list json :=
  foldl (λ acc x, if existsb (isEqual x) acc then acc else acc ++ [x]) [] l.

(** [mergeSchemaUniqArray(src, target)], also [mergeSchemaDependencies] *)
Definition mergeSchemaUniqArray (src : list json) (target : option (list json)) : list json :=
  uniqWith (Arr.filter truthy (src ++ default [] target)).

(** Hooks of the same kind: those of the mixin first if they run before *)
Definition join_hooks (kind : string) (src target : list nat) : list nat :=
  if String.eqb kind "before" then target ++ src else src ++ target.

(** [mergeSchemaHooks(src, target)] *)
Definition mergeSchemaHooks (src target : OMap.t (OMap.t (list nat))) : OMap.t (OMap.t (list nat)) :=
  foldl (λ target '(k, m),
    OMap.set k
      (foldl (λ t '(k2, l), OMap.set k2 (join_hooks k l (default [] (OMap.get k2 t))) t)
         (default [] (OMap.get k target)) m) target) target src.

(** The hooks of an action, where both have some; [_.defaultsDeep] adds the other kinds. *)
Definition merge_action_hooks (src target : option hooks) : option hooks :=
  match src, target with
  | Some s, Some t =>
      let s := map (λ '(k, l), (k, join_hooks k l (default [] (OMap.get k t)))) s in
      Some (foldl (λ s '(k, l), if OMap.has k s then s else OMap.set k l s) s t)
  | Some s, None => Some s
  | None, t => t
  end.

Definition merge_action (src : action) (target : option action) : action :=
  match src, target with
  | Action h hk r, Some (Action h' hk' r') =>
      Action (match h with Some _ => h | None => h' end) (merge_action_hooks hk hk') (defaultsDeep r r')
  | _, _ => src
  end.

(** [mergeSchemaActions(src, target)] *)
Definition mergeSchemaActions (src target : OMap.t action) : OMap.t action :=
  foldl (λ target '(k, a),
    match a with
    | Disabled => OMap.delete k target
    | _ => OMap.set k (merge_action a (OMap.get k target)) target
    end) target src.

(** [mergeSchemaMethods(src, target)] *)
Definition mergeSchemaMethods (src : OMap.t nat) (target : option (OMap.t nat)) : OMap.t nat :=
  foldl (λ target '(k, f), OMap.set k f target) (default [] target) src.

(** [mergeSchemaEvents(src, target)] *)
Definition mergeSchemaEvents (src target : OMap.t event) : OMap.t event :=
  foldl (λ target '(k, e),
    let res := OMap.get k target in
    OMap.set k
      (Event (match res with Some r => ev_handlers r | None => [] end ++ ev_handlers e)
         (defaultsDeep (ev_rest e) (match res with Some r => ev_rest r | None => JUndef end))) target) target src.

(** [mergeSchemaLifecycleHandlers(src, target)] *)
Definition mergeSchemaLifecycleHandlers (src : list nat) (target : option (list nat)) : list nat := default [] target ++ src.

(** [mergeSchemaUnknown(src, target)] *)
Definition mergeSchemaUnknown (src : json) (target : option json) : json :=
  match src with JUndef => default JUndef target | _ => src end.

(** Merge a member that the schema of the service has. *)
Definition merge_member {A B} (f : A → option B → B) (src : option A) (target : option B) : option B :=
  match src with Some s => Some (f s target) | None => target end.

(** [mergeSchemas(mixinSchema, svcSchema)] *)
Definition mergeSchemas (mixin svc : part) : part :=
  Part
    (match name svc with Some _ => name svc | None => name mixin end)
    (match version svc with Some _ => version svc | None => version mixin end)
    (merge_member mergeSchemaSettings (p_settings svc) (p_settings mixin))
    (merge_member mergeSchemaMetadata (metadata svc) (metadata mixin))
    (merge_member (λ s t, mergeSchemaHooks s (default [] t)) (p_hooks svc) (p_hooks mixin))
    (merge_member (λ s t, mergeSchemaActions s (default [] t)) (actions svc) (actions mixin))
    (merge_member mergeSchemaMethods (methods svc) (methods mixin))
    (merge_member (λ s t, mergeSchemaEvents s (default [] t)) (events svc) (events mixin))
    (merge_member mergeSchemaLifecycleHandlers (merged svc) (merged mixin))
    (merge_member mergeSchemaLifecycleHandlers (created svc) (created mixin))
    (merge_member mergeSchemaLifecycleHandlers (started svc) (started mixin))
    (merge_member mergeSchemaLifecycleHandlers (stopped svc) (stopped mixin))
    (merge_member mergeSchemaUniqArray (dependencies svc) (dependencies mixin))
    (foldl (λ m '(k, v), OMap.set k (mergeSchemaUnknown v (OMap.get k m)) m) (unknown mixin) (unknown svc)).

(** [applyMixins(schema)] *)
Fixpoint applyMixins (s : schema) : part :=
  let '(Schema own mixins) := s in
  match mixins with
  | [] => own
  | _ =>
      match foldl (λ s mixin, match s with Some s => Some (mergeSchemas s mixin) | None => Some mixin end)
              None (rev (map applyMixins mixins)) with
      | Some mixed => mergeSchemas mixed own
      | None => own
      end
  end.

End merge.
End Schema.

(** ** What is made from a schema *)

Module Creation.

(** Why a schema is refused *)
Inductive schema_error :=
| NoName
| InvalidAction (name : string)
| MissingActionHandler (name : string)
| MissingEventHandler (name : string).

Inductive checked (A : Type) := Ok (x : A) | Refused (e : schema_error).
Arguments Ok {A}.
Arguments Refused {A}.

(** [getVersionedFullName(name, version)] *)
Definition getVersionedFullName (name : string) (version : option json) : string :=
  match version with
  | None => name
  | Some v =>
      if is_null v then name
      else
        let v := match v with JNum n => String.append "v" (pretty n) | JStr s => s | _ => "" end in
        String.append v (String.append "." name)
  end.

(** Settings the constructor looks at *)
Record special := Special {
  noVersionPrefix : bool;
  noServiceNamePrefix : bool;
  default_cache : option json
}.

Definition fullName (name : string) (version : option json) (s : special) : string :=
  getVersionedFullName name (if noVersionPrefix s then None else version).

Record inner_action := InnerAction {
  rawName : string;
  ia_name : string;
  ia_handler : nat;
  ia_cache : option json
}.

(** [_createAction(actionDef, name)]; [own_name] and [cache] are members of the definition. *)
Definition createAction (full : string) (s : special) (def : Schema.action) (own_name : option string) (cache : option json)
    (name : string) : checked inner_action :=
  match def with
  | Schema.Disabled => Refused (InvalidAction name)
  | Schema.Action None _ _ => Refused (MissingActionHandler name)
  | Schema.Action (Some h) _ _ =>
      let raw := match own_name with Some n => if String.eqb n "" then name else n | None => name end in
      Ok (InnerAction raw (if noServiceNamePrefix s then raw else String.append full (String.append "." raw)) h
        (match cache with Some _ => cache | None => default_cache s end))
  end.

(** The actions of the specification: those that are not [false], by their full name.
    [meta k] are the name and cache members of the action [k]. *)
Fixpoint createActions (full : string) (s : special) (meta : string → option string * option json)
    (l : OMap.t Schema.action) (acc : OMap.t inner_action) : checked (OMap.t inner_action) :=
  match l with
  | [] => Ok acc
  | (k, Schema.Disabled) :: l => createActions full s meta l acc
  | (k, a) :: l =>
      match createAction full s a (meta k).1 (meta k).2 k with
      | Ok x => createActions full s meta l (OMap.set (ia_name x) x acc)
      | Refused e => Refused e
      end
  end.

(** [_getPublicSettings(settings)] *)
Definition getPublicSettings (omit : json → list string → json) (s : Schema.settings) : json :=
  match Schema.secure s with
  | Some keys => omit (Schema.others s) keys
  | None => Schema.others s
  end.

End Creation.

(** ** Starting and stopping *)

Module Lifecycle.

Section lifecycle.
Context {W E : Type}.

Notation step := (job W E unit).

(** The handlers of users run one after the other. *)
Definition run_all (l : list step) : step := foldl (λ p f, then_ p (λ _, f)) (resolve tt) l.

(** [_start()]; [wait] is [waitForServices] of the dependencies and [register] is
    [broker.registerLocalService]. *)
Definition start (serviceStarting serviceStarted register : step) (wait : option step) (started : list step) : step :=
  let p := resolve tt in
  let p := then_ p (λ _, serviceStarting) in
  let p := then_ p (λ _, match wait with Some j => j | None => resolve tt end) in
  let p := then_ p (λ _, run_all started) in
  let p := then_ p (λ _, register) in
  then_ p (λ _, serviceStarted).

(** [_stop()] *)
Definition stop (serviceStopping serviceStopped : step) (stopped : list step) : step :=
  let p := resolve tt in
  let p := then_ p (λ _, serviceStopping) in
  let p := then_ p (λ _, run_all (rev stopped)) in
  then_ p (λ _, serviceStopped).

(** [destroyService(svc)] of a service that was found; [failed] reports an error and
    [unregister] removes the service and tells other nodes. *)
Definition destroyService (stop : step) (failed : E → step) (unregister : step) : step :=
  then_ (catch_ stop failed) (λ _, unregister).

End lifecycle.

(** What [waitForServices] waits for: a service, or one of several versions *)
Definition dependency := list string.

(** The names of a dependency with or without versions *)
Definition names_of (name : string) (versions : option (list json)) : dependency :=
  match versions with
  | None => [name]
  | Some vs => map (λ v, Creation.getVersionedFullName name (Some v)) vs
  end.

Definition ready (has : string → bool) (deps : list dependency) : bool := forallb (existsb has) deps.

(** The polling of [waitForServices]: [has t] says which services are registered at time
    [t].  The answer is when it settles and whether all were found; [None] is that
    it still waits when the fuel is used up. *)
Fixpoint check (fuel : nat) (has : Z → string → bool) (deps : list dependency) (timeout interval start now : Z)
    : option (Z * bool) :=
  if ready (has now) deps then Some (now, true)
  else if negb (timeout =? 0) && (timeout <? now - start) then Some (now, false)
  else match fuel with
       | O => None
       | Datatypes.S fuel => check fuel has deps timeout interval start (now + Z.max 1 interval)
       end.

Definition waitForServices (fuel : nat) (has : Z → string → bool) (deps : list dependency) (timeout interval now : Z)
    : option (Z * bool) :=
  match deps with
  | [] => Some (now, true)
  | _ => check fuel has deps timeout interval now now
  end.

End Lifecycle.
