(* ===== verification/ServiceTheorems.v ===== *)
(** * What merging and starting services guarantee

    A schema with mixins behaves like its parts in one order, from the last mixin of the
    deepest level to the service itself; secure settings stay secure; a service is
    registered only after all its started handlers; waiting for services ends. *)

From Stdlib Require Import ZArith Lia Bool Strings.String.
From stdpp Require Import base tactics list strings option sets.
From S2P Require Import Prelude Promises Services.

Local Open Scope Z_scope.
Import Schema.

(** ** Mixins *)

(** The parts of a schema from the least to the most important *)
Fixpoint parts (s : schema) : list part :=
  let '(Schema own mixins) := s in concat (rev (map parts mixins)) ++ [own].

(** An induction principle for schemas *)
Lemma schema_ind' (P : schema → Prop) :
  (∀ own mixins, Forall P mixins → P (Schema own mixins)) → ∀ s, P s.
Proof.
  intros H. fix IH 1. intros [own mixins]. apply H. induction mixins as [|m mixins IHm]; constructor; [apply IH|apply IHm].
Qed.

Section fold.
Context (defaultsDeep : json → json → json) (isEqual : json → json → bool).
Notation mergeSchemas := (mergeSchemas defaultsDeep isEqual).
Notation applyMixins := (applyMixins defaultsDeep isEqual).

(** What is observed of a part, if it is as it should be, is an element of a monoid, and
    merging multiplies. *)
Context (good : part → Prop) (good_merge : ∀ mixin svc, good mixin → good svc → good (mergeSchemas mixin svc)).
Context {M : Type} (op : M → M → M) (unit_ : M) (obs : part → M).
Context (assoc : ∀ x y z, op x (op y z) = op (op x y) z).
Context (unit_l : ∀ x, op unit_ x = x) (unit_r : ∀ x, op x unit_ = x).
Context (hom : ∀ mixin svc, good mixin → good svc → obs (mergeSchemas mixin svc) = op (obs mixin) (obs svc)).

Definition product (l : list M) : M := foldr op unit_ l.

Lemma product_app l l' : product (l ++ l') = op (product l) (product l').
Proof. induction l as [|x l IH]; simpl; [by rewrite unit_l|]. by rewrite IH, assoc. Qed.

Lemma product_concat ls : product (concat ls) = product (map product ls).
Proof. induction ls as [|l ls IH]; simpl; [done|]. by rewrite product_app, IH. Qed.

(** Then merging a schema with its mixins is the product of its parts in order. *)
Lemma applyMixins_product s : Forall good (parts s) → good (applyMixins s) ∧ obs (applyMixins s) = product (map obs (parts s)).
Proof.
  induction s as [own mixins IH] using schema_ind'. cbn [parts applyMixins]. intros Hg. apply Forall_app in Hg as [Hg Hown].
  apply Forall_cons in Hown as [Hown _]. rewrite map_app, product_app. cbn [map product foldr]. rewrite unit_r.
  assert (∀ l o, Forall good l → (∀ x, o = Some x → good x) →
    match foldl (λ s mixin, match s with Some s => Some (mergeSchemas s mixin) | None => Some mixin end) o l with
    | Some mixed => good mixed ∧ obs mixed = op (match o with Some x => obs x | None => unit_ end) (product (map obs l))
    | None => o = None ∧ l = [] end) as Hfold.
  { induction l as [|x l IHl]; intros o Hl Ho; simpl; [destruct o; [split; [by apply Ho|by rewrite unit_r]|done]|].
    apply Forall_cons in Hl as [Hx Hl].
    assert (∀ y, match o with Some s => Some (mergeSchemas s x) | None => Some x end = Some y → good y) as Ho'.
    { intros y. destruct o; intros [= <-]; [apply good_merge; [by apply Ho|done]|done]. }
    specialize (IHl _ Hl Ho'). destruct (foldl _ _ l) as [mixed|].
    - destruct IHl as [Hgm ->]. split; [done|]. destruct o as [y|]; [|by rewrite unit_l].
      rewrite hom by (done || by apply Ho). by rewrite assoc.
    - destruct IHl as [Hnone _]. by destruct o. }
  assert (map obs (concat (rev (map parts mixins))) = concat (map (map obs) (rev (map parts mixins)))) as -> by by rewrite concat_map.
  rewrite product_concat.
  assert (Forall good (rev (map applyMixins mixins)) ∧
    map product (map (map obs) (rev (map parts mixins))) = map obs (rev (map applyMixins mixins))) as [Hgs ->].
  { rewrite <- !map_rev, !map_map in *. apply Forall_rev in IH. revert IH Hg. generalize (rev mixins). intros l IH Hg.
    induction IH as [|m l Hm _ IHl]; simpl in *; [done|]. apply Forall_app in Hg as [Hg1 Hg2].
    destruct (Hm Hg1) as [? ->], (IHl Hg2) as [? ->]. split; [by constructor|done]. }
  destruct mixins as [|m mixins]; [split; [done|simpl; by rewrite unit_l]|].
  specialize (Hfold (rev (map applyMixins (m :: mixins))) None Hgs ltac:(done)).
  destruct (foldl _ None _) as [mixed|].
  - destruct Hfold as [Hgm Hfold]. split; [by apply good_merge|]. rewrite hom by done. rewrite Hfold. by rewrite unit_l.
  - destruct Hfold as [_ Hnil]. apply (f_equal length) in Hnil. rewrite length_rev in Hnil. done.
Qed.

End fold.

(** The first of two that is present, the second counting more *)
Definition override {A} (low high : option A) : option A := match high with Some _ => high | None => low end.

Definition last_some {A} (l : list (option A)) : option A := foldr override None l.

Lemma override_assoc {A} (x y z : option A) : override x (override y z) = override (override x y) z.
Proof. by destruct x, y, z. Qed.

Lemma get_foldl_set {A B} (f : string → A → OMap.t B → B) (src : OMap.t A) (target : OMap.t B) k :
  (∀ k' a t t', OMap.get k' t = OMap.get k' t' → f k' a t = f k' a t') → OMap.wf src →
  OMap.get k (foldl (λ t '(k', a), OMap.set k' (f k' a t) t) target src) =
  match OMap.get k src with Some a => Some (f k a target) | None => OMap.get k target end.
Proof.
  intros Hf. revert target. induction src as [|[k' a] src IH]; intros target Hwf; simpl; [done|].
  apply list.NoDup_cons in Hwf as [Hk Hwf]. rewrite IH by done. destruct (String.eqb_spec k k') as [->|Hne].
  - rewrite (proj2 (OMap.get_None_keys k' src) Hk). by rewrite OMap.get_set_eq.
  - destruct (OMap.get k src) as [b|]; [|by rewrite OMap.get_set_ne by congruence].
    f_equal. apply Hf. by rewrite OMap.get_set_ne by congruence.
Qed.

Lemma wf_foldl_set {A B} (f : string → A → OMap.t B → B) (src : OMap.t A) (target : OMap.t B) :
  OMap.wf target → OMap.wf (foldl (λ t '(k', a), OMap.set k' (f k' a t) t) target src).
Proof.
  revert target. induction src as [|[k' a] src IH]; intros target Hwf; simpl; [done|]. apply IH. by apply OMap.wf_set.
Qed.

Definition members {A} (o : option (OMap.t A)) : OMap.t A := default [] o.

(** Keys of the members of a part are unique. *)
Definition wf_part (p : part) : Prop :=
  OMap.wf (members (methods p)) ∧ OMap.wf (members (events p)) ∧ OMap.wf (members (actions p)) ∧
  OMap.wf (members (p_hooks p)) ∧ (∀ k m, OMap.get k (members (p_hooks p)) = Some m → OMap.wf m) ∧ OMap.wf (unknown p).

Section observe.
Context (defaultsDeep : json → json → json) (isEqual : json → json → bool).
Notation mergeSchemas := (mergeSchemas defaultsDeep isEqual).

Lemma get_hooks src target k : OMap.wf src → OMap.get k (mergeSchemaHooks src target) =
  match OMap.get k src with
  | Some m => Some (foldl (λ t '(k2, l), OMap.set k2 (join_hooks k l (default [] (OMap.get k2 t))) t) (default [] (OMap.get k target)) m)
  | None => OMap.get k target
  end.
Proof.
  intros Hwf. unfold mergeSchemaHooks.
  apply (get_foldl_set (λ k m target, foldl (λ t '(k2, l), OMap.set k2 (join_hooks k l (default [] (OMap.get k2 t))) t) (default [] (OMap.get k target)) m));
    [|done]. intros k' a t t' Heq. by rewrite Heq.
Qed.

Lemma wf_merge mixin svc : wf_part mixin → wf_part svc → wf_part (mergeSchemas mixin svc).
Proof.
  intros (M1 & M2 & M3 & M4 & M5 & M6) (S1 & S2 & S3 & S4 & S5 & S6). unfold wf_part, members in *. simpl. unfold merge_member. split_and!.
  - destruct (methods svc) as [s|]; simpl; [|done]. by apply (wf_foldl_set (λ _ f _, f)).
  - destruct (events svc) as [s|]; simpl; [|done]. unfold mergeSchemaEvents. cbv zeta.
    by apply (wf_foldl_set (λ k e target, Event (match OMap.get k target with Some r => ev_handlers r | None => [] end ++ ev_handlers e)
         (defaultsDeep (ev_rest e) (match OMap.get k target with Some r => ev_rest r | None => JUndef end)))).
  - destruct (actions svc) as [s|]; simpl; [|done]. unfold mergeSchemaActions. generalize dependent (default [] (actions mixin)).
    intros target Hwf. clear S3. revert target Hwf. induction s as [|[k a] s IH]; intros target Hwf; simpl; [done|]. apply IH.
    destruct a; [by apply OMap.wf_delete|by apply OMap.wf_set].
  - destruct (p_hooks svc) as [s|]; simpl; [|done]. unfold mergeSchemaHooks.
    by apply (wf_foldl_set (λ k m target, foldl (λ t '(k2, l), OMap.set k2 (join_hooks k l (default [] (OMap.get k2 t))) t) (default [] (OMap.get k target)) m)).
  - intros k m. destruct (p_hooks svc) as [s|]; simpl in *; [|apply M5]. rewrite get_hooks by done.
    destruct (OMap.get k s) as [ms|] eqn:Hs; [|apply M5]. intros [= <-].
    apply (wf_foldl_set (λ k2 l t, join_hooks k l (default [] (OMap.get k2 t)))).
    destruct (OMap.get k (default [] (p_hooks mixin))) as [mt|] eqn:Ht; [by apply (M5 k)|constructor].
  - by apply (wf_foldl_set (λ k v m, mergeSchemaUnknown v (OMap.get k m))).
Qed.

(** The hooks of a kind with a name *)
Definition hooks_of (kind name : string) (p : part) : list nat :=
  default [] (OMap.get name (default [] (OMap.get kind (members (p_hooks p))))).

Lemma hooks_of_merge kind name mixin svc : wf_part mixin → wf_part svc →
  hooks_of kind name (mergeSchemas mixin svc) = join_hooks kind (hooks_of kind name svc) (hooks_of kind name mixin).
Proof.
  intros _ (_ & _ & _ & S4 & S5 & _). unfold hooks_of, members in *. simpl. unfold merge_member, join_hooks.
  destruct (p_hooks svc) as [s|]; simpl in *; [|destruct (String.eqb kind "before"); by rewrite ?app_nil_r].
  rewrite get_hooks by done. destruct (OMap.get kind s) as [ms|] eqn:Hs; simpl; [|destruct (String.eqb kind "before"); by rewrite ?app_nil_r].
  rewrite (get_foldl_set (λ k2 l t, join_hooks kind l (default [] (OMap.get k2 t)))); [|intros k' a t t' ->; done|by apply (S5 kind)].
  destruct (OMap.get name ms) as [l|]; simpl; [done|]. destruct (String.eqb kind "before"); by rewrite ?app_nil_r.
Qed.

(** The handlers of an event *)
Definition event_handlers (name : string) (p : part) : list nat :=
  match OMap.get name (members (events p)) with Some e => ev_handlers e | None => [] end.

Lemma event_handlers_merge name mixin svc : wf_part mixin → wf_part svc →
  event_handlers name (mergeSchemas mixin svc) = event_handlers name mixin ++ event_handlers name svc.
Proof.
  intros _ (_ & S2 & _). unfold event_handlers, members in *. simpl. unfold merge_member.
  destruct (events svc) as [s|]; simpl in *; [|by rewrite app_nil_r]. unfold mergeSchemaEvents. cbv zeta.
  rewrite (get_foldl_set (λ k e target, Event (match OMap.get k target with Some r => ev_handlers r | None => [] end ++ ev_handlers e)
         (defaultsDeep (ev_rest e) (match OMap.get k target with Some r => ev_rest r | None => JUndef end)))); [|intros k' a t t' ->; done|done].
  destruct (OMap.get name s); simpl; [done|by rewrite app_nil_r].
Qed.

Lemma method_merge name mixin svc : wf_part mixin → wf_part svc →
  OMap.get name (members (methods (mergeSchemas mixin svc))) =
  override (OMap.get name (members (methods mixin))) (OMap.get name (members (methods svc))).
Proof.
  intros _ (S1 & _). unfold members in *. simpl. unfold merge_member.
  destruct (methods svc) as [s|]; simpl in *; [|done]. unfold mergeSchemaMethods.
  rewrite (get_foldl_set (λ _ f _, f)); [|done|done]. by destruct (OMap.get name s).
Qed.

(** Another member of a schema, unless it is [undefined] *)
Definition other (k : string) (p : part) : option json :=
  match OMap.get k (unknown p) with Some JUndef | None => None | Some v => Some v end.

Lemma other_merge k mixin svc : wf_part mixin → wf_part svc →
  other k (mergeSchemas mixin svc) = override (other k mixin) (other k svc).
Proof.
  intros _ (_ & _ & _ & _ & _ & S6). unfold other. simpl.
  rewrite (get_foldl_set (λ k v m, mergeSchemaUnknown v (OMap.get k m))); [|intros k' a t t' ->; done|done].
  destruct (OMap.get k (unknown svc)) as [[]|]; simpl; try done; destruct (OMap.get k (unknown mixin)) as [[]|]; done.
Qed.

End observe.

(** C12. Mixins merge in one order.  The schema that mixins are merged into is like the list of its
    parts from the least to the most important (the mixins from the last to the first, each
    after its own mixins, then the schema itself): name, version, methods and members that
    are not known to the framework are those of the most important part that has them; the
    lists of lifecycle handlers (of which [stopped] is run from its end), event handlers and
    before hooks are those of all parts in that order, of after and error hooks in the
    reverse order; no handler is lost. *)
Theorem mixins_in_order defaultsDeep isEqual s : Forall wf_part (parts s) →
  let p := applyMixins defaultsDeep isEqual s in
  name p = last_some (map name (parts s)) ∧ version p = last_some (map version (parts s)) ∧
  (∀ m, OMap.get m (members (methods p)) = last_some (map (λ q, OMap.get m (members (methods q))) (parts s))) ∧
  (∀ k, other k p = last_some (map (other k) (parts s))) ∧
  default [] (created p) = concat (map (λ q, default [] (created q)) (parts s)) ∧
  default [] (started p) = concat (map (λ q, default [] (started q)) (parts s)) ∧
  default [] (stopped p) = concat (map (λ q, default [] (stopped q)) (parts s)) ∧
  default [] (merged p) = concat (map (λ q, default [] (merged q)) (parts s)) ∧
  (∀ e, event_handlers e p = concat (map (event_handlers e) (parts s))) ∧
  (∀ h, hooks_of "before" h p = concat (map (hooks_of "before" h) (parts s))) ∧
  (∀ kind h, kind ≠ "before"%string → hooks_of kind h p = concat (rev (map (hooks_of kind h) (parts s)))).
Proof.
  intros Hwf p.
  assert (∀ (obs : part → list nat), (∀ m v, wf_part m → wf_part v → obs (mergeSchemas defaultsDeep isEqual m v) = obs m ++ obs v) →
    obs p = concat (map obs (parts s))) as Happ.
  { intros obs Hobs. destruct (applyMixins_product defaultsDeep isEqual wf_part (wf_merge _ _) (++) [] obs
      (app_assoc (A := nat)) (λ _, eq_refl) (app_nil_r (A := nat)) Hobs s Hwf) as [_ H]. exact H. }
  assert (∀ A (obs : part → option A), (∀ m v, wf_part m → wf_part v → obs (mergeSchemas defaultsDeep isEqual m v) = override (obs m) (obs v)) →
    obs p = last_some (map obs (parts s))) as Hlast.
  { intros A obs Hobs. destruct (applyMixins_product defaultsDeep isEqual wf_part (wf_merge _ _) override None obs
      override_assoc (λ x, ltac:(by destruct x)) (λ x, eq_refl) Hobs s Hwf) as [_ H]. exact H. }
  assert (∀ (f : part → option (list nat)), (∀ m v, f (mergeSchemas defaultsDeep isEqual m v) = merge_member mergeSchemaLifecycleHandlers (f v) (f m)) →
    ∀ m v, wf_part m → wf_part v → default [] (f (mergeSchemas defaultsDeep isEqual m v)) = default [] (f m) ++ default [] (f v)) as Hlife.
  { intros f Hf m v _ _. rewrite Hf. unfold merge_member, mergeSchemaLifecycleHandlers. destruct (f v); simpl; [done|by rewrite app_nil_r]. }
  split_and!.
  - by apply Hlast.
  - by apply Hlast.
  - intros m. apply (Hlast _ (λ q, OMap.get m (members (methods q)))). by apply method_merge.
  - intros k. apply Hlast. by apply other_merge.
  - apply (Happ (λ q, default [] (created q))). by apply Hlife.
  - apply (Happ (λ q, default [] (started q))). by apply Hlife.
  - apply (Happ (λ q, default [] (stopped q))). by apply Hlife.
  - apply (Happ (λ q, default [] (merged q))). by apply Hlife.
  - intros e. apply Happ. by apply event_handlers_merge.
  - intros h. apply Happ. by apply hooks_of_merge.
  - intros kind h Hk.
    destruct (applyMixins_product defaultsDeep isEqual wf_part (wf_merge _ _) (λ x y, y ++ x) [] (hooks_of kind h)) with (s := s) as [_ H]; [..|done|].
    + intros x y z. by rewrite app_assoc.
    + intros x. apply app_nil_r.
    + done.
    + intros m v Hm Hv. rewrite hooks_of_merge by done. unfold join_hooks. by rewrite (proj2 (String.eqb_neq kind "before") Hk).
    + fold p in H. rewrite H. clear. generalize (map (hooks_of kind h) (parts s)). intros l.
      induction l as [|x l IH]; simpl; [done|]. rewrite IH. by rewrite concat_app, concat_cons, concat_nil, app_nil_r || (rewrite concat_app; simpl; by rewrite app_nil_r).
Qed.

(** A service with two mixins, the first with a mixin of its own *)
Definition demo_part (nm : option string) (ver : option json) (n : nat) : part :=
  Part nm ver None None (Some [("before"%string, [("get"%string, [n])]); ("after"%string, [("get"%string, [n + 10]%nat)])]) None
    (Some [("find"%string, n)]) (Some [("user.created"%string, Event [n] JUndef)]) None (Some [n]) (Some [n]) (Some [n]) None [].
Definition demo_schema : schema :=
  Schema (demo_part (Some "users"%string) None 4)
    [Schema (demo_part None (Some (JNum 2)) 3) [Schema (demo_part (Some "base"%string) (Some (JNum 1)) 2) []];
     Schema (demo_part None None 1) []].

Lemma demo_schema_wf : Forall wf_part (parts demo_schema).
Proof.
  assert (∀ nm v n, wf_part (demo_part nm v n)) as Hd.
  { intros nm v n. unfold wf_part, members, OMap.wf. simpl. split_and!; [repeat constructor; set_solver..| |constructor].
    intros k m. destruct (String.eqb k "before"); [intros [= <-]; repeat constructor; set_solver|].
    destruct (String.eqb k "after"); [intros [= <-]; repeat constructor; set_solver|done]. }
  repeat (constructor; [apply Hd|]). constructor.
Qed.

Lemma mixins_in_order_witness :
  let p := applyMixins (λ a _, a) (λ _ _, false) demo_schema in
  name p = Some "users"%string ∧ version p = Some (JNum 2) ∧ started p = Some [1; 2; 3; 4]%nat ∧
  hooks_of "after" "get" p = [14; 13; 12; 11]%nat.
Proof.
  pose proof demo_schema_wf as Hwf.
  destruct (mixins_in_order (λ a _, a) (λ _ _, false) demo_schema Hwf) as (H1 & H2 & _ & _ & _ & H3 & _ & _ & _ & _ & H4).
  split; [exact H1|]. split; [exact H2|]. split; [vm_compute; reflexivity|]. exact (H4 "after"%string "get"%string ltac:(done)).
Defined.

(** ** Settings that stay secure *)

Definition secures (p : part) : list string := default [] (p_settings p ≫= secure).

(** [$secureSettings] without duplicates *)
Definition secure_unique (p : part) : Prop := NoDup (secures p).

Section secure.
Context (defaultsDeep : json → json → json) (isEqual : json → json → bool).

Lemma uniq_acc acc l : NoDup acc →
  ∃ r, foldl (λ acc x, if existsb (String.eqb x) acc then acc else acc ++ [x]) acc l = acc ++ r ∧ NoDup (acc ++ r) ∧
       (∀ x, x ∈ acc ++ r ↔ x ∈ acc ∨ x ∈ l).
Proof.
  revert acc. induction l as [|y l IH]; intros acc Hnd; simpl.
  - exists []. rewrite app_nil_r. split_and!; [done|done|]. intros x. rewrite elem_of_nil. tauto.
  - destruct (existsb (String.eqb y) acc) eqn:He.
    + destruct (IH acc Hnd) as (r & -> & H1 & H2). exists r. split_and!; [done|done|]. intros x. rewrite H2, elem_of_cons.
      apply existsb_exists in He as (z & Hz & ->%String.eqb_eq). apply list_elem_of_In in Hz. naive_solver.
    + assert (y ∉ acc) as Hy.
      { intros Hin. apply list_elem_of_In in Hin. assert (existsb (String.eqb y) acc = true) by (apply existsb_exists; exists y; split; [done|apply String.eqb_refl]). congruence. }
      destruct (IH (acc ++ [y])) as (r & -> & H1 & H2).
      { apply NoDup_app. split_and!; [done| |apply NoDup_singleton]. intros z Hz ->%list_elem_of_singleton. done. }
      exists (y :: r). rewrite <- app_assoc in *. simpl in *. split_and!; [done|done|]. intros x. rewrite H2. set_solver.
Qed.

Lemma uniq_app s t : NoDup s → ∃ r, uniq (s ++ t) = s ++ r ∧ NoDup (s ++ r) ∧ ∀ x, x ∈ s ++ r ↔ x ∈ s ∨ x ∈ t.
Proof.
  intros Hs. unfold uniq. rewrite foldl_app.
  assert (∀ acc l, NoDup (acc ++ l) → foldl (λ acc x, if existsb (String.eqb x) acc then acc else acc ++ [x]) acc l = acc ++ l) as Hid.
  { intros acc l. revert acc. induction l as [|y l IH]; intros acc Hnd; simpl; [by rewrite app_nil_r|].
    assert (existsb (String.eqb y) acc = false) as ->.
    { apply not_true_iff_false. intros (z & Hz & ->%String.eqb_eq)%existsb_exists. apply list_elem_of_In in Hz.
      apply NoDup_app in Hnd as (_ & Hd & _). apply (Hd z Hz). left. }
    rewrite IH by (by rewrite <- app_assoc). by rewrite <- app_assoc. }
  rewrite (Hid [] s Hs). by apply uniq_acc.
Qed.

Lemma secures_merge m s : secure_unique m → secure_unique s →
  secure_unique (mergeSchemas defaultsDeep isEqual m s) ∧
  ∀ x, x ∈ secures (mergeSchemas defaultsDeep isEqual m s) ↔ x ∈ secures m ∨ x ∈ secures s.
Proof.
  unfold secure_unique, secures. intros Hm Hs. simpl. unfold merge_member.
  destruct (p_settings s) as [[ss so]|]; simpl in *; [|split; [done|set_solver]].
  unfold mergeSchemaSettings. simpl. destruct (p_settings m ≫= secure) as [tm|] eqn:Ht; simpl in *.
  - destruct ss as [ss|]; simpl.
    + destruct (uniq_app ss tm Hs) as (r & -> & Hnd & Hx). unfold fill. rewrite drop_app_length. split; [done|]. set_solver.
    + destruct (uniq_acc [] tm (NoDup_nil_2)) as (r & Hr & Hnd & Hx). unfold uniq. rewrite Hr. split; [done|]. set_solver.
  - destruct ss as [ss|]; simpl; [|split; [constructor|set_solver]].
    destruct (uniq_app ss [] Hs) as (r & -> & Hnd & Hx). unfold fill. rewrite drop_app_length. split; [done|]. set_solver.
Qed.

End secure.

(** The member of an object *)
Definition obj_get (k : string) (v : json) : option json := match v with JObj m => OMap.get k m | _ => None end.

(** Secure settings stay secure: what the schema or any of its mixins, at any depth, lists
    in [$secureSettings] (without duplicates) is listed by the merged schema, and nothing else
    is; the settings a service publishes have none of it.  [omit] is [_.omit], which
    removes the members it is given. *)
Theorem secure_settings_kept defaultsDeep isEqual omit s :
  Forall secure_unique (parts s) →
  (∀ v keys x, x ∈ keys → obj_get x (omit v keys) = None) →
  let p := applyMixins defaultsDeep isEqual s in
  (∀ x, x ∈ secures p ↔ ∃ q, q ∈ parts s ∧ x ∈ secures q) ∧
  (∀ st x q, p_settings p = Some st → q ∈ parts s → x ∈ secures q → obj_get x (Creation.getPublicSettings omit st) = None).
Proof.
  intros Hs Homit p.
  assert (∀ x, x ∈ secures p ↔ ∃ q, q ∈ parts s ∧ x ∈ secures q) as Hx.
  { intros x.
    destruct (applyMixins_product defaultsDeep isEqual secure_unique (λ m v Hm Hv, proj1 (secures_merge _ _ m v Hm Hv))
      orb false (λ q, bool_decide (x ∈ secures q)) orb_assoc (λ _, eq_refl) orb_false_r) with (s := s) as [_ H]; [|done|].
    - intros m v Hm Hv. destruct (secures_merge defaultsDeep isEqual m v Hm Hv) as [_ Hin]. specialize (Hin x).
      destruct (bool_decide_reflect (x ∈ secures m)), (bool_decide_reflect (x ∈ secures v)); simpl;
        first [apply bool_decide_eq_true_2; tauto|apply bool_decide_eq_false_2; tauto].
    - fold p in H. rewrite <- (bool_decide_eq_true (x ∈ secures p)), H. clear. induction (parts s) as [|q l IH]; simpl.
      + split; [done|]. by intros (q & Hq%not_elem_of_nil & _).
      + rewrite orb_true_iff, IH, bool_decide_eq_true. set_solver. }
  split; [done|]. intros st x q Hst Hq Hxq.
  assert (x ∈ secures p) as Hin by (apply Hx; by exists q). unfold secures in Hin. rewrite Hst in Hin. simpl in Hin.
  unfold Creation.getPublicSettings. destruct (secure st) as [keys|]; simpl in Hin; [by apply Homit|by apply not_elem_of_nil in Hin].
Qed.

(** The password of a mixin *)
Lemma secure_settings_kept_witness :
  let with_settings st := Part None None (Some st) None None None None None None None None None None [] in
  let s := Schema (with_settings (Settings (Some ["token"%string]) (JObj [("token"%string, JNum 1)])))
             [Schema (with_settings (Settings (Some ["password"%string]) (JObj [("password"%string, JNum 2)]))) []] in
  let p := applyMixins (λ a _, a) (λ _ _, false) s in
  secures p = ["token"; "password"]%string ∧ "password"%string ∈ secures p.
Proof.
  intros with_settings s p. split; [vm_compute; reflexivity|].
  destruct (secure_settings_kept (λ a _, a) (λ _ _, false) (λ _ _, JUndef) s) as [H _].
  - repeat constructor; set_solver.
  - done.
  - apply H. exists (with_settings (Settings (Some ["password"%string]) (JObj [("password"%string, JNum 2)]))).
    split; [left|left].
Defined.

(** A duplicate in the list of a service makes the merge lose a secure setting of its mixin,
    since lists are filled up by index. *)
Lemma secure_settings_duplicate defaultsDeep o o' :
  secure (mergeSchemaSettings defaultsDeep (Settings (Some ["a"; "a"]%string) o) (Some (Settings (Some ["b"%string]) o'))) =
  Some ["a"; "a"]%string.
Proof. reflexivity. Qed.

(** ** Actions *)

Section actions.
Context (defaultsDeep : json → json → json) (isEqual : json → json → bool).

Lemma get_mergeActions src target k : OMap.wf src → OMap.wf target → OMap.get k (mergeSchemaActions defaultsDeep src target) =
  match OMap.get k src with
  | Some Disabled => None
  | Some a => Some (merge_action defaultsDeep a (OMap.get k target))
  | None => OMap.get k target
  end.
Proof.
  unfold mergeSchemaActions. revert target. induction src as [|[k' a] src IH]; intros target Hs Ht; simpl; [done|].
  apply list.NoDup_cons in Hs as [Hk Hs].
  assert (OMap.wf (match a with Disabled => OMap.delete k' target | _ => OMap.set k' (merge_action defaultsDeep a (OMap.get k' target)) target end)) as Hwf
    by (destruct a; [by apply OMap.wf_delete|by apply OMap.wf_set]).
  rewrite (IH _ Hs Hwf). destruct (String.eqb_spec k k') as [->|Hne].
  - rewrite (proj2 (OMap.get_None_keys k' src) Hk). destruct a; [by rewrite OMap.get_delete_eq|by rewrite OMap.get_set_eq].
  - assert (OMap.get k (match a with Disabled => OMap.delete k' target | _ => OMap.set k' (merge_action defaultsDeep a (OMap.get k' target)) target end) =
      OMap.get k target) as -> by (destruct a; [by rewrite OMap.get_delete_ne by congruence|by rewrite OMap.get_set_ne by congruence]).
    done.
Qed.

End actions.

(** What a schema says of an action overrides its mixins: an action it disables is not in
    the merged schema, whatever its mixins have; a handler it gives is the handler;
    where it only has other members, the handler is the one merged from the mixins;
    and an action it does not mention is as the mixins have it. *)
Theorem action_override defaultsDeep isEqual own m ms k : Forall wf_part (parts (Schema own (m :: ms))) →
  let p := applyMixins defaultsDeep isEqual (Schema own (m :: ms)) in
  ∃ mixed, (match ms with [] => mixed = applyMixins defaultsDeep isEqual m | _ => True end) ∧
  match OMap.get k (members (actions own)) with
  | Some Disabled => OMap.get k (members (actions p)) = None
  | Some (Action h _ _) => ∃ h' hk r, OMap.get k (members (actions p)) = Some (Action h' hk r) ∧
      h' = match h with Some _ => h
           | None => match OMap.get k (members (actions mixed)) with Some (Action hm _ _) => hm | _ => None end end
  | None => OMap.get k (members (actions p)) = OMap.get k (members (actions mixed))
  end.
Proof.
  intros Hwf p.
  assert (∃ mixed, p = mergeSchemas defaultsDeep isEqual mixed own ∧ wf_part mixed ∧
    (match ms with [] => mixed = applyMixins defaultsDeep isEqual m | _ => True end)) as (mixed & Hp & Hmixed & Hms).
  { unfold p. cbn [applyMixins]. cbn [parts] in Hwf. apply Forall_app in Hwf as [Hwf _].
    assert (∀ l o, Forall wf_part l → (∀ x, o = Some x → wf_part x) → (o ≠ None ∨ l ≠ []) →
      ∃ mixed, foldl (λ s mixin, match s with Some s => Some (mergeSchemas defaultsDeep isEqual s mixin) | None => Some mixin end) o l = Some mixed ∧ wf_part mixed) as Hfold.
    { induction l as [|x l IH]; intros o Hl Ho Hne; simpl.
      - destruct o as [x|]; [exists x; split; [done|by apply Ho]|by destruct Hne].
      - apply Forall_cons in Hl as [Hx Hl]. apply IH; [done| |by left; destruct o].
        intros y. destruct o as [z|]; intros [= <-]; [apply wf_merge; [by apply Ho|done]|done]. }
    assert (Forall wf_part (rev (map (applyMixins defaultsDeep isEqual) (m :: ms)))) as Hl.
    { rewrite <- map_rev in *. revert Hwf. generalize (rev (m :: ms)). intros l. induction l as [|x l IH]; simpl; [constructor|].
      intros [H1 H2]%Forall_app. constructor; [|by apply IH].
      by apply (applyMixins_product defaultsDeep isEqual wf_part (wf_merge _ _) (++) [] (λ _, []) (app_assoc (A := nat)) (λ _, eq_refl) (app_nil_r (A := nat)) (λ _ _ _ _, eq_refl)). }
    destruct (Hfold _ None Hl ltac:(done)) as (mixed & Hm & Hw).
    { right. intros H. apply (f_equal length) in H. rewrite length_rev in H. done. }
    rewrite Hm. exists mixed. split_and!; [done|done|]. destruct ms; [|done]. simpl in Hm. by injection Hm as <-. }
  exists mixed. split; [done|]. rewrite Hp. clear Hp p. destruct Hmixed as (_ & _ & Hma & _).
  cbn [parts] in Hwf. apply Forall_app in Hwf as [_ Hown]. apply Forall_cons in Hown as [(_ & _ & Hoa & _) _].
  unfold members in *. simpl. unfold merge_member. destruct (actions own) as [src|]; simpl in *; [|done].
  rewrite (get_mergeActions defaultsDeep src (default [] (actions mixed)) k Hoa Hma). destruct (OMap.get k src) as [[|h hk r]|]; [done| |done].
  destruct (OMap.get k (default [] (actions mixed))) as [[|h' hk' r']|]; simpl; (eexists _, _, _; split; [done|by destruct h]).
Qed.

Lemma action_override_witness :
  let with_actions l := Part None None None None None (Some l) None None None None None None None [] in
  let own := with_actions [("find"%string, Disabled); ("get"%string, Action None None (JObj []))] in
  let base := Schema (with_actions [("find"%string, Action (Some 1%nat) None JUndef); ("get"%string, Action (Some 2%nat) None JUndef)]) [] in
  let p := applyMixins (λ a _, a) (λ _ _, false) (Schema own [base]) in
  actions p = Some [("get"%string, Action (Some 2%nat) None (JObj []))] ∧ OMap.get "find" (members (actions p)) = None.
Proof.
  intros with_actions own base p. split; [vm_compute; reflexivity|].
  destruct (action_override (λ a _, a) (λ _ _, false) own base [] "find") as (mixed & _ & H); [|exact H].
  assert (∀ l, OMap.wf l → wf_part (with_actions l)) as Hw.
  { intros l Hl. unfold wf_part, members, OMap.wf in *. simpl. split_and!; [constructor|constructor|done|constructor|done|constructor]. }
  repeat (constructor; [apply Hw; repeat constructor; set_solver|]). constructor.
Defined.

(** An action that a mixin disables comes back from less important mixins when the mixin
    has mixins of its own, but not when it has none. *)
Lemma disabled_action_returns :
  let with_actions l := Part None None None None None (Some l) None None None None None None None [] in
  let off := with_actions [("find"%string, Disabled)] in
  let base := Schema (with_actions [("find"%string, Action (Some 1%nat) None JUndef)]) [] in
  let empty := Schema (with_actions []) [] in
  let merged off := OMap.get "find" (members (actions (applyMixins (λ a _, a) (λ _ _, false) (Schema (with_actions []) [off; base])))) in
  merged (Schema off []) = None ∧ merged (Schema off [empty]) = Some (Action (Some 1%nat) None JUndef).
Proof. split; vm_compute; reflexivity. Qed.

(** ** Starting, stopping and waiting *)

Section lifecycle.
Context {W E : Type}.
Implicit Types f g : job W E unit.

Lemma run_all_app (l l' : list (job W E unit)) : Lifecycle.run_all (l ++ l') ≡ then_ (Lifecycle.run_all l) (λ _, Lifecycle.run_all l').
Proof.
  unfold Lifecycle.run_all. rewrite foldl_app. generalize (foldl (λ p f, then_ p (λ _, f)) (resolve tt) l). intros j.
  induction l' as [|f l' IH] using rev_ind; simpl; [intros t w; unfold then_; by destruct (j t w) as [w' [t' [[]|e]| |]]|].
  rewrite !foldl_app. simpl. by rewrite IH, then_then.
Qed.

Lemma run_all_cons f l : Lifecycle.run_all (f :: l) ≡ then_ f (λ _, Lifecycle.run_all l).
Proof.
  rewrite (run_all_app [f] l). apply then_proper; [|done]. intros t w. unfold Lifecycle.run_all. simpl. by apply then_resolve.
Qed.

End lifecycle.

(** A service is registered after everything that starts it, and stops in the reverse
    order.  Starting a service with mixins calls the middlewares, waits for its
    dependencies and calls the started handlers of all its parts in the order of merging,
    each when the one before has ended; it is registered exactly when all of
    that has succeeded, and what fails is the outcome.  Stopping it calls the stopped
    handlers in the reverse order.  Destroying it unregisters it even when stopping
    fails. *)
Theorem service_lifecycle {W E} defaultsDeep isEqual s (fn : nat → job W E unit) starting started_ register stopping stopped_ wait failed unregister t w :
  Forall wf_part (parts s) →
  let p := applyMixins defaultsDeep isEqual s in
  let handlers (get : part → option (list nat)) := concat (map (λ q, default [] (get q)) (parts s)) in
  let start := Lifecycle.start starting started_ register wait (map fn (default [] (started p))) in
  let before := then_ starting (λ _, then_ (default (resolve tt) wait) (λ _, Lifecycle.run_all (map fn (handlers started)))) in
  let stop := Lifecycle.stop stopping stopped_ (map fn (default [] (stopped p))) in
  start t w =
    (let '(w', pr) := before t w in
     match pr with
     | Settled t' (Resolved _) => then_ register (λ _, started_) t' w'
     | _ => (w', pr)
     end) ∧
  stop ≡ then_ stopping (λ _, then_ (Lifecycle.run_all (rev (map fn (handlers stopped)))) (λ _, stopped_)) ∧
  (∀ w1 t1 e w2 t2, stop t w = (w1, Settled t1 (Rejected e)) → failed e t1 w1 = (w2, Settled t2 (Resolved tt)) →
     Lifecycle.destroyService stop failed unregister t w = unregister t2 w2).
Proof.
  intros Hwf p handlers start before stop.
  assert (∀ get : part → option (list nat), (∀ m v, get (mergeSchemas defaultsDeep isEqual m v) = merge_member mergeSchemaLifecycleHandlers (get v) (get m)) →
    default [] (get p) = handlers get) as Hh.
  { intros get Hget. destruct (applyMixins_product defaultsDeep isEqual wf_part (wf_merge _ _) (++) [] (λ q, default [] (get q))
      (app_assoc (A := nat)) (λ _, eq_refl) (app_nil_r (A := nat))) with (s := s) as [_ H]; [|done|exact H].
    intros m v _ _. rewrite Hget. unfold merge_member, mergeSchemaLifecycleHandlers. destruct (get v); simpl; [done|by rewrite app_nil_r]. }
  split_and!.
  - assert (start ≡ then_ before (λ _, then_ register (λ _, started_))) as Hs.
    { unfold start, before, Lifecycle.start. rewrite (Hh started) by done. rewrite then_resolve, !then_then. apply then_proper; [done|].
      intros _. rewrite then_then. apply then_proper; [by destruct wait|]. by intros _. }
    rewrite (Hs t w). unfold then_ at 1. destruct (before t w) as [w' [t' [v|e]| |]]; done.
  - unfold stop, Lifecycle.stop. rewrite (Hh stopped) by done. rewrite then_resolve, then_then. done.
  - intros w1 t1 e w2 t2 H1 H2. unfold Lifecycle.destroyService, then_, catch_. by rewrite H1, H2.
Qed.

Lemma service_lifecycle_witness :
  let fn (n : nat) : job (list nat) unit unit := λ t w, (w ++ [n], Settled (t + 1) (Resolved tt)) in
  let p := applyMixins (λ a _, a) (λ _ _, false) demo_schema in
  Lifecycle.start (fn 100%nat) (fn 102%nat) (fn 101%nat) None (map fn (default [] (started p))) 0 [] =
    ([100; 1; 2; 3; 4; 101; 102]%nat, Settled 7 (Resolved tt)) ∧
  Lifecycle.stop (fn 103%nat) (fn 104%nat) (map fn (default [] (stopped p))) 0 [] =
    then_ (fn 103%nat) (λ _, then_ (Lifecycle.run_all (rev (map fn [1; 2; 3; 4]%nat))) (λ _, fn 104%nat)) 0 [].
Proof.
  intros fn p. split; [vm_compute; reflexivity|].
  pose proof demo_schema_wf as Hwf.
  destruct (service_lifecycle (λ a _, a) (λ _ _, false) demo_schema fn (fn 100%nat) (fn 102%nat) (fn 101%nat) (fn 103%nat) (fn 104%nat)
    None (λ _, fn 105%nat) (fn 106%nat) 0 [] Hwf) as (_ & H & _). exact (H 0 []).
Defined.

(** C34. Waiting for services answers rightly and in time: it reports success only when every
    dependency, or one of its versions, is registered at that time; with a timeout it ends at
    most one interval after the timeout (the fuel says how many checks that takes);
    and when the dependencies are registered for good from some time on, it succeeds at most one
    interval later, unless the timeout is over by then. *)
Theorem wait_for_services has deps timeout interval now fuel :
  0 < interval → deps ≠ [] →
  (∀ t, Lifecycle.waitForServices fuel has deps timeout interval now = Some (t, true) → Lifecycle.ready (has t) deps = true ∧ now ≤ t) ∧
  (0 < timeout → timeout / interval + 2 ≤ Z.of_nat fuel →
     ∃ t b, Lifecycle.waitForServices fuel has deps timeout interval now = Some (t, b) ∧
       now ≤ t ≤ now + timeout + interval ∧ (b = false → timeout < t - now)) ∧
  (∀ e, now ≤ e → (timeout = 0 ∨ e + interval ≤ now + timeout) → (∀ u, e ≤ u → Lifecycle.ready (has u) deps = true) →
     (e - now) / interval + 2 ≤ Z.of_nat fuel →
     ∃ t, Lifecycle.waitForServices fuel has deps timeout interval now = Some (t, true) ∧ now ≤ t < e + interval).
Proof.
  intros Hi Hd.
  assert (∀ fuel, Lifecycle.waitForServices fuel has deps timeout interval now = Lifecycle.check fuel has deps timeout interval now now) as Hw
    by (intros fl; by destruct deps).
  rewrite !Hw. clear Hw Hd.
  assert (∀ fl cur, now ≤ cur → ∀ t, Lifecycle.check fl has deps timeout interval now cur = Some (t, true) → Lifecycle.ready (has t) deps = true ∧ now ≤ t) as H1.
  { induction fl as [|fl IH]; intros cur Hcur t; cbn [Lifecycle.check]; destruct (Lifecycle.ready (has cur) deps) eqn:Hr;
      try (intros [= <-]; split; [done|lia]); destruct (negb (timeout =? 0) && (timeout <? cur - now)); try done.
    apply IH. lia. }
  split_and!.
  - by apply H1.
  - intros Ht Hf.
    assert (∀ fl cur, now ≤ cur → now + timeout + interval < cur + interval * Z.of_nat (S fl) → cur ≤ now + timeout + interval →
      ∃ t b, Lifecycle.check fl has deps timeout interval now cur = Some (t, b) ∧ now ≤ t ≤ now + timeout + interval ∧ (b = false → timeout < t - now)) as Hgo.
    { induction fl as [|fl IH]; intros cur H2 H3 H4; cbn [Lifecycle.check].
      - destruct (Lifecycle.ready (has cur) deps); [exists cur, true; split_and!; [done|lia|lia|done]|].
        rewrite (proj2 (Z.eqb_neq timeout 0)) by lia. rewrite (proj2 (Z.ltb_lt timeout (cur - now))) by lia. simpl.
        exists cur, false. split_and!; [done|lia|lia|lia].
      - destruct (Lifecycle.ready (has cur) deps); [exists cur, true; split_and!; [done|lia|lia|done]|].
        destruct (negb (timeout =? 0) && (timeout <? cur - now)) eqn:He; to_prop; [exists cur, false; split_and!; [done|lia|lia|lia]|].
        assert (cur - now ≤ timeout) by (apply andb_false_iff in He as [He|He]; [apply negb_false_iff in He|]; to_prop; lia).
        rewrite Z.max_r by lia. apply IH; lia. }
    apply Hgo; [lia| |lia]. pose proof (Z.mul_succ_div_gt timeout interval Hi). nia.
  - intros e He Ht Hall Hf.
    assert (∀ fl cur, now ≤ cur → e ≤ cur + interval * Z.of_nat fl → cur < e + interval →
      ∃ t, Lifecycle.check fl has deps timeout interval now cur = Some (t, true) ∧ now ≤ t < e + interval) as Hgo.
    { induction fl as [|fl IH]; intros cur H2 H3 H4; cbn [Lifecycle.check];
        (destruct (Lifecycle.ready (has cur) deps) eqn:Hr; [exists cur; split; [done|lia]|]);
        (destruct (Z.leb_spec e cur); [by rewrite (Hall cur) in Hr|]); [lia|].
      assert (negb (timeout =? 0) && (timeout <? cur - now) = false) as ->.
      { apply andb_false_iff. destruct Ht as [->|Ht]; [by left|right; apply Z.ltb_ge; lia]. }
      rewrite Z.max_r by lia. apply IH; lia. }
    apply Hgo; [lia| |lia]. pose proof (Z.mul_succ_div_gt (e - now) interval Hi). nia.
Qed.

(** One of two dependencies appears at 2500. *)
Lemma wait_for_services_witness :
  let has t name := if String.eqb name "users" then true else (2500 <=? t) && String.eqb name "v2.posts" in
  let deps := [["users"]; Lifecycle.names_of "posts" (Some [JNum 1; JNum 2])]%string in
  Lifecycle.waitForServices 5 has deps 0 1000 0 = Some (3000, true) ∧ Lifecycle.ready (has 3000) deps = true.
Proof.
  intros has deps. assert (Lifecycle.waitForServices 5 has deps 0 1000 0 = Some (3000, true)) as H by (vm_compute; reflexivity).
  split; [exact H|]. destruct (wait_for_services has deps 0 1000 0 5 ltac:(lia) ltac:(done)) as (H1 & _). exact (proj1 (H1 3000 H)).
Defined.
