(* ===== verification/Broker.v ===== *)
(** * The life cycle of a broker

    Models [start], [stop], [createService], [_restartService], [destroyService],
    [addLocalService], [registerLocalService] and [servicesChanged] of
    [src/service-broker.js] with [_start] and [_stop] of [src/service.js], as chains of
    promises that run beside each other.  A chain is a list of [then] and [catch]
    callbacks; what a callback waits for is settled by the outside, in any order and
    with any outcome, or is another chain.  Hooks, the handlers of services, the
    transit, the cacher and the like are the outside. *)

From Stdlib Require Import ZArith Lia Bool.
From stdpp Require Import base tactics list strings option.
From S2P Require Import Prelude.

Module Broker.

(** ** Chains *)

(** A service by the order of creation *)
Notation service := nat (only parsing).

(** What the outside settles *)
Inductive job :=
| Hooks (name : string)               (* [callMiddlewareHook(name)] *)
| Connect | SendLocalNodeInfo | StopDelay | Disconnect
| CloseCacher | StopMetrics | StopTracer | StopRegistry | StopLogger
| UserStarted | UserStopped           (* functions of the options *)
| SvcBefore (s : service)             (* hooks, dependencies and [started] handlers *)
| SvcAfter (s : service)              (* [serviceStarted] hooks *)
| SvcStop (s : service).              (* hooks and [stopped] handlers *)

(** What a callback returns a promise of *)
Inductive awaited := Job (j : job) | ChainEnd (c : nat).

(** The callbacks *)
Inductive act :=
(* [start()] *)
| StartingHooks | ConnectTransit | StartServices | SetStarted | TransitReady | StartedHooks | CallUserStarted
(* [stop()] *)
| Goodbye | WaitDelay | SetStopping | StopServices | DisconnectTransit | StopParts (j : job) | StoppedHooks | CallUserStopped
| LogError | ReportStopped | StopLogs
(* [_start()] and [_stop()] *)
| PrepareService (s : service) | RegisterService (s : service) | AnnounceService (s : service) | StopService (s : service)
(* [_restartService(svc)], [destroyService(svc)] *)
| ReportError (type : string) | StopDestroyed (s : service) | RemoveService (s : service).

#[export] Instance job_eq_dec : EqDecision job.
Proof. solve_decision. Defined.
#[export] Instance act_eq_dec : EqDecision act.
Proof. solve_decision. Defined.

(** [.then(f)], with a [catch] on the promise that the callback returns, and [.catch(f)] *)
Inductive stage := Then (a : act) (inner : option act) | Catch (a : act).
#[export] Instance stage_eq_dec : EqDecision stage.
Proof. solve_decision. Defined.

(** The calls that make chains *)
Inductive kind :=
| KStart | KStop
| KSvcStart (s : service)             (* [_start()] *)
| KRestart (s : service)              (* [_restartService(svc)] *)
| KSvcStop (s : service)              (* [_stop()] *)
| KDestroy (s : service).

Definition FAILED_STOPPING_SERVICES : string := "failedServicesStop".
Definition FAILED_RESTART_SERVICE : string := "failedServiceRestart".
Definition FAILED_DESTRUCTION_SERVICE : string := "failedServiceDestruction".

Definition start_stages (s : service) : list stage :=
  [Then (PrepareService s) None; Then (RegisterService s) None; Then (AnnounceService s) None].

Definition stages_of (k : kind) : list stage :=
  match k with
  | KStart =>
      [Then StartingHooks None; Then ConnectTransit None; Then StartServices None; Then SetStarted None; Then TransitReady None;
       Then StartedHooks None; Then CallUserStarted None]
  | KStop =>
      [Then Goodbye None; Then WaitDelay None; Then SetStopping None; Then StopServices (Some (ReportError FAILED_STOPPING_SERVICES));
       Then DisconnectTransit None; Then (StopParts CloseCacher) None; Then (StopParts StopMetrics) None; Then (StopParts StopTracer) None;
       Then (StopParts StopRegistry) None; Then StoppedHooks None; Then CallUserStopped None; Catch LogError; Then ReportStopped None;
       Then StopLogs None; Catch LogError]
  | KSvcStart s => start_stages s
  | KRestart s => start_stages s ++ [Catch (ReportError FAILED_RESTART_SERVICE)]
  | KSvcStop s => [Then (StopService s) None]
  | KDestroy s => [Then (StopDestroyed s) None; Catch (ReportError FAILED_DESTRUCTION_SERVICE); Then (RemoveService s) None]
  end.

(** A callback that ran, with the services of the broker at that time and what it waited for *)
Record ran := Ran { what : act; at_services : list service; waits : list awaited }.

(** [past] is a record for the theorems; nothing depends on it. *)
Inductive status := Waiting (l : list awaited) (inner : option act) | Failed | Done (ok : bool).
Record chain := Chain { kind_of : kind; rest : list stage; status_of : status; past : list ran }.

(** What is seen from outside, in order *)
Inductive output :=
| Broadcast (event : string)          (* [broadcastLocal] *)
| BeginStart (s : service)            (* [svc._start()] is called *)
| BeginStop (s : service)
| Began (j : job)
| Ready                               (* [transit.ready()] *)
| BrokerError (type : string)         (* [broadcastLocal] of an error *)
| NotifyNodes.                        (* [localServiceChanged()] sends the node info *)

Record options := Options {
  has_transit : bool;
  has_cacher : bool;
  has_started : bool;                 (* [options.started] is a function *)
  has_stopped : bool
}.

Record t := State {
  opts : options;
  started : bool;
  servicesStarting : bool;
  stopping : bool;
  services : list service;
  created : nat;
  registered : list service;          (* in the registry, as services of this node *)
  debounced : bool;                   (* a call of [localServiceChanged] is due *)
  chains : list chain;
  log : list output
}.

Definition create (o : options) : t := State o false false false [] 0 [] false [] [].

(** ** Assigning *)

Definition set_started (v : bool) (b : t) : t :=
  State (opts b) v (servicesStarting b) (stopping b) (services b) (created b) (registered b) (debounced b) (chains b) (log b).
Definition set_servicesStarting (v : bool) (b : t) : t :=
  State (opts b) (started b) v (stopping b) (services b) (created b) (registered b) (debounced b) (chains b) (log b).
Definition set_stopping (v : bool) (b : t) : t :=
  State (opts b) (started b) (servicesStarting b) v (services b) (created b) (registered b) (debounced b) (chains b) (log b).
Definition set_services (v : list service) (b : t) : t :=
  State (opts b) (started b) (servicesStarting b) (stopping b) v (created b) (registered b) (debounced b) (chains b) (log b).
Definition set_registered (v : list service) (b : t) : t :=
  State (opts b) (started b) (servicesStarting b) (stopping b) (services b) (created b) v (debounced b) (chains b) (log b).
Definition set_debounced (v : bool) (b : t) : t :=
  State (opts b) (started b) (servicesStarting b) (stopping b) (services b) (created b) (registered b) v (chains b) (log b).
Definition set_chains (v : list chain) (b : t) : t :=
  State (opts b) (started b) (servicesStarting b) (stopping b) (services b) (created b) (registered b) (debounced b) v (log b).
Definition emit (o : output) (b : t) : t :=
  State (opts b) (started b) (servicesStarting b) (stopping b) (services b) (created b) (registered b) (debounced b) (chains b) (log b ++ [o]).

(** [Promise.resolve().then(...)]: a new chain; its number *)
Definition spawn (k : kind) (b : t) : nat * t :=
  (length (chains b), set_chains (chains b ++ [Chain k (stages_of k) (Waiting [] None) []]) b).

(** ** Services *)

(** [_start()] and [_stop()] of a service *)
Definition svc_start (s : service) (b : t) : nat * t := spawn (KSvcStart s) (emit (BeginStart s) b).
Definition svc_stop (s : service) (b : t) : nat * t := spawn (KSvcStop s) (emit (BeginStop s) b).

(** The same for a list of services *)
Fixpoint each (f : service → t → nat * t) (l : list service) (b : t) : list awaited * t :=
  match l with
  | [] => ([], b)
  | s :: l => let '(c, b) := f s b in let '(cs, b) := each f l b in (ChainEnd c :: cs, b)
  end.

(** [servicesChanged(true)], which calls the debounced [localServiceChanged()] *)
Definition servicesChanged (b : t) : t :=
  let b := emit (Broadcast "$services.changed") b in
  if has_transit (opts b) then set_debounced true b else b.

(** [localServiceChanged()] *)
Definition localServiceChanged (b : t) : t := if stopping b then b else emit NotifyNodes b.

(** ** Callbacks *)

Definition await (j : job) (b : t) : list awaited * t := ([Job j], emit (Began j) b).

(** What a callback does, and what its promise waits for *)
Definition perform (a : act) (b : t) : list awaited * t :=
  match a with
  | StartingHooks => await (Hooks "starting") b
  | ConnectTransit => if has_transit (opts b) then await Connect b else ([], b)
  | StartServices =>
      let '(l, b) := each svc_start (services b) b in
      (l, set_servicesStarting true b)
  | SetStarted => ([], emit (Broadcast "$broker.started") (set_servicesStarting false (set_started true b)))
  | TransitReady => ([], if has_transit (opts b) then emit Ready b else b)
  | StartedHooks => await (Hooks "started") b
  | CallUserStarted => if has_started (opts b) then await UserStarted b else ([], b)
  | Goodbye => if has_transit (opts b) then await SendLocalNodeInfo b else ([], b)
  | WaitDelay => await StopDelay b
  | SetStopping => await (Hooks "stopping") (set_stopping true b)
  | StopServices => each svc_stop (services b) b
  | DisconnectTransit => if has_transit (opts b) then await Disconnect b else ([], b)
  | StopParts CloseCacher => if has_cacher (opts b) then await CloseCacher b else ([], b)
  | StopParts j => await j b
  | StoppedHooks => await (Hooks "stopped") b
  | CallUserStopped => if has_stopped (opts b) then await UserStopped b else ([], b)
  | LogError => ([], b)
  | ReportStopped => ([], emit (Broadcast "$broker.stopped") b)
  | StopLogs => await StopLogger b
  | PrepareService s => await (SvcBefore s) b
  | RegisterService s => ([], servicesChanged (set_registered (registered b ++ [s]) b))
  | AnnounceService s => await (SvcAfter s) b
  | StopService s => await (SvcStop s) b
  | ReportError type => ([], emit (BrokerError type) b)
  | StopDestroyed s => let '(c, b) := svc_stop s b in ([ChainEnd c], b)
  | RemoveService s =>
      ([], servicesChanged (set_registered (filter (λ x, x ≠ s) (registered b)) (set_services (filter (λ x, x ≠ s) (services b)) b)))
  end.

(** ** Calls *)

(** [start()] and [stop()] *)
Definition start (b : t) : t := (spawn KStart b).2.
Definition stop (b : t) : t := (spawn KStop (set_started false b)).2.

(** [addLocalService(service)] *)
Definition addLocalService (b : t) : t :=
  let s := created b in
  State (opts b) (started b) (servicesStarting b) (stopping b) (services b ++ [s]) (S s) (registered b) (debounced b) (chains b) (log b).

(** [createService(schema)] of a schema that the constructor accepts, with [_restartService] *)
Definition createService (b : t) : t :=
  let s := created b in
  let b := addLocalService b in
  if started b || servicesStarting b then (spawn (KRestart s) (emit (BeginStart s) b)).2 else b.

(** [destroyService(svc)] of a service that was created *)
Definition destroyService (s : service) (b : t) : t := (spawn (KDestroy s) b).2.

(** ** Runs *)

(** Whether a chain has ended, and how *)
Definition ended (b : t) (a : awaited) : option bool :=
  match a with
  | Job _ => None
  | ChainEnd c => match chains b !! c with Some x => match status_of x with Done ok => Some ok | _ => None end | None => None end
  end.
Definition ended_with (ok : bool) (b : t) (a : awaited) : bool :=
  match ended b a with Some ok' => Bool.eqb ok ok' | None => false end.

Definition put (c : nat) (x : chain) (b : t) : t := set_chains (<[c := x]> (chains b)) b.

(** A callback runs: what is left of the chain, and what it waits for now *)
Definition call (c : nat) (x : chain) (stages : list stage) (a : act) (inner : option act) (b : t) : t :=
  let before := services b in
  let '(l, b) := perform a b in
  put c (Chain (kind_of x) stages (Waiting l inner) (past x ++ [Ran a before l])) b.

(** The promise that a chain waits for is rejected. *)
Definition reject (c : nat) (x : chain) (inner : option act) (b : t) : t :=
  match inner with
  | Some h => call c x (rest x) h None b
  | None => put c (Chain (kind_of x) (rest x) Failed (past x)) b
  end.

Definition goto (c : nat) (x : chain) (stages : list stage) (s : status) (b : t) : t :=
  put c (Chain (kind_of x) stages s (past x)) b.

(** The next callback of chain [c] runs; [None] when it cannot yet. *)
Definition turn (c : nat) (b : t) : option t :=
  x ← chains b !! c;
  match status_of x, rest x with
  | Waiting l inner, stages =>
      if existsb (ended_with false b) l then Some (reject c x inner b)
      else if forallb (ended_with true b) l then
        Some match stages with
             | [] => goto c x [] (Done true) b
             | Catch _ :: stages => goto c x stages (Waiting [] None) b
             | Then a inner :: stages => call c x stages a inner b
             end
      else None
  | Failed, [] => Some (goto c x [] (Done false) b)
  | Failed, Then _ _ :: stages => Some (goto c x stages Failed b)
  | Failed, Catch a :: stages => Some (call c x stages a None b)
  | Done _, _ => None
  end.

(** What chain [c] waits for outside is settled. *)
Definition settle (c : nat) (ok : bool) (b : t) : option t :=
  x ← chains b !! c;
  match status_of x with
  | Waiting [Job _] inner => Some (if ok then goto c x (rest x) (Waiting [] None) b else reject c x inner b)
  | _ => None
  end.

Inductive event :=
| CallStart | CallStop | Create | Destroy (s : service)
| Debounced                           (* the debounced function runs *)
| Turn (c : nat) | Settle (c : nat) (ok : bool).

Definition apply (e : event) (b : t) : option t :=
  match e with
  | CallStart => Some (start b)
  | CallStop => Some (stop b)
  | Create => Some (createService b)
  | Destroy s => if (s <? created b)%nat then Some (destroyService s b) else None
  | Debounced => if debounced b then Some (localServiceChanged (set_debounced false b)) else None
  | Turn c => turn c b
  | Settle c ok => settle c ok b
  end.

Fixpoint run (es : list event) (b : t) : option t :=
  match es with
  | [] => Some b
  | e :: es => b ← apply e b; run es b
  end.

End Broker.
