(* ===== verification/BrokerTheorems.v ===== *)
(** * What the life cycle of a broker guarantees

    The broker has started only when all services have; every service is started once;
    stopping always ends and in the right order; and some races of the code. *)

From Stdlib Require Import ZArith Lia Bool.
From stdpp Require Import base tactics list strings option.
From S2P Require Import Prelude Broker.

Import Broker.

(** ** Callbacks and chains *)

Definition fresh (k : kind) : chain := Chain k (stages_of k) (Waiting [] None) [].

Lemma each_spec (f : nat → t → nat * t) (kind : nat → kind) :
  (∀ s b, (f s b).1 = length (chains b) ∧ chains (f s b).2 = chains b ++ [fresh (kind s)]) →
  ∀ l b, (each f l b).1 = map ChainEnd (seq (length (chains b)) (length l)) ∧
    chains (each f l b).2 = chains b ++ map (fresh ∘ kind) l.
Proof.
  intros Hf l. induction l as [|s l IH]; intros b; [by rewrite app_nil_r|]. simpl.
  destruct (Hf s b) as [H1 H2]. destruct (f s b) as [c b1]. simpl in *. destruct (IH b1) as [H3 H4].
  destruct (each f l b1) as [cs b2]. simpl in *. subst. rewrite H2, length_app in *. simpl. rewrite Nat.add_1_r.
  split; [done|]. by rewrite H4, <- app_assoc.
Qed.

(** What a callback adds to the chains, and what it waits for *)
Lemma perform_chains a b : ∃ ks, chains (perform a b).2 = chains b ++ map fresh ks ∧
  ((perform a b).1 = map ChainEnd (seq (length (chains b)) (length ks)) ∨ (ks = [] ∧ ∃ j, (perform a b).1 = [Job j])).
Proof.
  assert (∀ b', chains b' = chains b → ∃ ks, chains b' = chains b ++ map fresh ks ∧
    (([] : list awaited) = map ChainEnd (seq (length (chains b)) (length ks)) ∨ (ks = [] ∧ ∃ j, ([] : list awaited) = [Job j]))) as Hnil.
  { intros b' E. exists []. rewrite E, app_nil_r. split; [done|by left]. }
  assert (∀ j b', chains b' = chains b → ∃ ks, chains b' = chains b ++ map fresh ks ∧
    ([Job j] = map ChainEnd (seq (length (chains b)) (length ks)) ∨ (ks = [] ∧ ∃ j', [Job j] = [Job j']))) as Hjob.
  { intros j b' E. exists []. rewrite E, app_nil_r. split; [done|]. right. eauto. }
  assert (∀ b', chains (servicesChanged b') = chains b') as Hch by (intros b'; unfold servicesChanged; simpl; by destruct (has_transit _)).
  destruct a; simpl; rewrite ?Hch; try (by apply Hjob); try (by apply Hnil);
    try (destruct (_ (opts b)); simpl; [try (by apply Hjob); by apply Hnil|by apply Hnil]).
  - destruct (each_spec svc_start KSvcStart ltac:(done) (services b) b) as [H1 H2].
    destruct (each svc_start (services b) b) as [l b']. simpl in *. exists (map KSvcStart (services b)).
    rewrite map_map, length_map. split; [done|]. by left.
  - destruct (each_spec svc_stop KSvcStop ltac:(done) (services b) b) as [H1 H2]. exists (map KSvcStop (services b)).
    rewrite map_map, length_map. split; [done|]. by left.
  - destruct j; try (by apply Hjob). destruct (has_cacher (opts b)); [by apply Hjob|by apply Hnil].
  - exists [KSvcStop s]. split; [done|]. by left.
Qed.

(** ** Steps of a chain *)

Definition ok_all (b : t) (l : list awaited) : Prop := ∀ a, a ∈ l → ended b a = Some true.
Definition fails (b : t) (l : list awaited) : Prop := (∃ j, l = [Job j]) ∨ ∃ a, a ∈ l ∧ ended b a = Some false.

(** What [turn] and [settle] do to a chain *)
Inductive move (c : nat) (x : chain) (b : t) : t → Prop :=
| move_caught l h : status_of x = Waiting l (Some h) → fails b l → move c x b (call c x (rest x) h None b)
| move_rejected l : status_of x = Waiting l None → fails b l → move c x b (goto c x (rest x) Failed b)
| move_came j inner : status_of x = Waiting [Job j] inner → move c x b (goto c x (rest x) (Waiting [] None) b)
| move_over l inner : status_of x = Waiting l inner → ok_all b l → rest x = [] → move c x b (goto c x [] (Done true) b)
| move_no_catch l inner a stages :
    status_of x = Waiting l inner → ok_all b l → rest x = Catch a :: stages → move c x b (goto c x stages (Waiting [] None) b)
| move_call l inner a h stages :
    status_of x = Waiting l inner → ok_all b l → rest x = Then a h :: stages → move c x b (call c x stages a h b)
| move_lost : status_of x = Failed → rest x = [] → move c x b (goto c x [] (Done false) b)
| move_skip a h stages : status_of x = Failed → rest x = Then a h :: stages → move c x b (goto c x stages Failed b)
| move_catch a stages : status_of x = Failed → rest x = Catch a :: stages → move c x b (call c x stages a None b).

Lemma ended_with_spec ok b a : ended_with ok b a = true ↔ ended b a = Some ok.
Proof. unfold ended_with. destruct (ended b a) as [[]|], ok; simpl; split; intros; simplify_eq; done. Qed.

Lemma reject_move c x b l inner : status_of x = Waiting l inner → fails b l → move c x b (reject c x inner b).
Proof. intros Hs Hf. unfold reject. destruct inner as [h|]; [by eapply move_caught|by eapply move_rejected]. Qed.

Lemma turn_move c b b' : turn c b = Some b' → ∃ x, chains b !! c = Some x ∧ move c x b b'.
Proof.
  unfold turn. destruct (chains b !! c) as [x|]; [|done]. simpl. intros H. exists x. split; [done|].
  destruct (status_of x) as [l inner| |ok] eqn:Hs; [|destruct (rest x) as [|[a h|a] stages] eqn:Hr; simplify_eq; by econstructor|done].
  destruct (existsb _ l) eqn:He; [injection H as <-|].
  { eapply reject_move; [done|]. right. apply existsb_exists in He as (a & Ha & He). apply list_elem_of_In in Ha.
    exists a. split; [done|]. by apply ended_with_spec. }
  destruct (forallb _ l) eqn:Hf; [|done]. rewrite forallb_forall in Hf.
  assert (ok_all b l) as Hok by (intros a Ha%list_elem_of_In; by apply ended_with_spec, Hf).
  destruct (rest x) as [|[a h|a] stages] eqn:Hr; injection H as <-; by econstructor.
Qed.

Lemma settle_move c ok b b' : settle c ok b = Some b' → ∃ x, chains b !! c = Some x ∧ move c x b b'.
Proof.
  unfold settle. destruct (chains b !! c) as [x|]; [|done]. simpl. intros H. exists x. split; [done|].
  destruct (status_of x) as [[|[j|] [|]] inner| |] eqn:Hs; simplify_eq. destruct ok; [by eapply move_came|].
  eapply reject_move; [done|]. left. eauto.
Qed.

Lemma call_chains c x stages a h b : ∃ ks, chains (call c x stages a h b) =
  <[c := Chain (kind_of x) stages (Waiting (perform a b).1 h) (past x ++ [Ran a (services b) (perform a b).1])]> (chains b ++ map fresh ks).
Proof.
  destruct (perform_chains a b) as (ks & Hk & _). exists ks. unfold call. destruct (perform a b) as [l b1]. simpl in *. by rewrite Hk.
Qed.

(** How the chains change in a step *)
Definition grows (b b' : t) : Prop := ∀ c x, chains b !! c = Some x → ∃ x', chains b' !! c = Some x' ∧ kind_of x' = kind_of x ∧
  (∀ ok, status_of x = Done ok → x' = x) ∧ past x `prefix_of` past x'.

Lemma move_changes c x b b' : move c x b b' → ∃ x' ks, chains b' = <[c := x']> (chains b ++ map fresh ks) ∧
  kind_of x' = kind_of x ∧ (∀ ok, status_of x ≠ Done ok) ∧ past x `prefix_of` past x'.
Proof.
  assert (∀ st s, ∃ x' ks, chains (goto c x st s b) = <[c := x']> (chains b ++ map fresh ks) ∧
    kind_of x' = kind_of x ∧ past x `prefix_of` past x') as Hg.
  { intros st s. eexists _, []. split; [simpl; by rewrite app_nil_r|]. done. }
  assert (∀ st a h, ∃ x' ks, chains (call c x st a h b) = <[c := x']> (chains b ++ map fresh ks) ∧
    kind_of x' = kind_of x ∧ past x `prefix_of` past x') as Hc.
  { intros st a h. destruct (call_chains c x st a h b) as [ks E]. eexists _, ks. split; [exact E|]. simpl.
    split; [done|]. by apply prefix_app_r. }
  intros Hm. assert (∀ ok, status_of x ≠ Done ok) as Hn by (intros ok Hok; by destruct Hm; simplify_eq; congruence).
  assert (∃ x' ks, chains b' = <[c := x']> (chains b ++ map fresh ks) ∧ kind_of x' = kind_of x ∧ past x `prefix_of` past x')
    as (x' & ks & ? & ? & ?) by (destruct Hm; auto). exists x', ks. by split_and!.
Qed.

Lemma grows_app b b' ks : chains b' = chains b ++ map fresh ks → grows b b'.
Proof. intros E c x Hx. exists x. rewrite E. split; [by apply lookup_app_l_Some|done]. Qed.

Lemma move_grows c x b b' : chains b !! c = Some x → move c x b b' → grows b b'.
Proof.
  intros Hx Hm. destruct (move_changes c x b b' Hm) as (x' & ks & E & Hk & Hn & Hp). intros c' y Hy. rewrite E.
  destruct (decide (c = c')) as [<-|Hne].
  - rewrite list_lookup_insert_eq; [|rewrite length_app; apply lookup_lt_Some in Hx; lia].
    simplify_eq. exists x'. split_and!; try done. intros ok Hok. by destruct (Hn ok).
  - rewrite list_lookup_insert_ne by done. exists y. split; [by apply lookup_app_l_Some|done].
Qed.

#[export] Instance grows_refl : Reflexive grows.
Proof. intros b c x Hx. exists x. by split_and!. Qed.

Lemma grows_ended b b' a ok : grows b b' → ended b a = Some ok → ended b' a = Some ok.
Proof.
  intros Hg. destruct a as [j|c]; [done|]. simpl. destruct (chains b !! c) as [x|] eqn:Hx; [|done].
  destruct (Hg c x Hx) as (x' & -> & _ & Hd & _). destruct (status_of x) eqn:Hs; try done. intros [= ->].
  by rewrite (Hd ok eq_refl), Hs.
Qed.

(** The calls that make chains, and the runs of the debounced function *)
Definition external (e : event) : bool := match e with Turn _ | Settle _ _ => false | _ => true end.

Lemma external_chains e b b' : apply e b = Some b' → external e = true →
  ∃ ks, chains b' = chains b ++ map fresh ks ∧ (length ks ≤ 1)%nat.
Proof.
  destruct e; simpl; try done; intros H _; simplify_eq.
  - exists [KStart]. split; [done|simpl; lia].
  - exists [KStop]. split; [done|simpl; lia].
  - unfold createService. destruct (_ || _); [exists [KRestart (created b)]|exists []]; split; simpl; rewrite ?app_nil_r; (done || lia).
  - destruct (_ <? _)%nat; [|done]. simplify_eq. exists [KDestroy s]. split; [done|simpl; lia].
  - destruct (debounced b); [|done]. simplify_eq. exists []. rewrite app_nil_r. unfold localServiceChanged. simpl.
    split; [by destruct (stopping b)|simpl; lia].
Qed.

Lemma apply_cases e b b' : apply e b = Some b' →
  (external e = true ∧ ∃ ks, chains b' = chains b ++ map fresh ks ∧ (length ks ≤ 1)%nat) ∨
  (external e = false ∧ ∃ c x, chains b !! c = Some x ∧ move c x b b').
Proof.
  intros H. destruct (external e) eqn:He; [left; split; [done|by eapply external_chains]|right; split; [done|]].
  destruct e; try done; simpl in H.
  - apply turn_move in H as (x & ? & ?). by exists c, x.
  - apply settle_move in H as (x & ? & ?). by exists c, x.
Qed.

Lemma apply_grows e b b' : apply e b = Some b' → grows b b'.
Proof.
  intros [[_ (ks & E & _)]|[_ (c & x & Hx & Hm)]]%apply_cases; [by eapply grows_app|by eapply move_grows].
Qed.

(** ** Chains that only go forward *)

Definition act_of (s : stage) : act := match s with Then a _ => a | Catch a => a end.
Definition acts (k : kind) : list act := map act_of (stages_of k).

(** Chains without [catch] *)
Definition plain (k : kind) : bool := match k with KStart | KSvcStart _ | KSvcStop _ => true | _ => false end.

Lemma plain_stages k : plain k = true → stages_of k = map (λ a, Then a None) (acts k).
Proof. by destruct k. Qed.

Definition good (b : t) (e : ran) : Prop := ∀ c, ChainEnd c ∈ waits e → ended b (ChainEnd c) = Some true.

(** What a service chain was begun for *)
Definition begun (b : t) (kd : nat → kind) (s : nat) (a : awaited) : Prop :=
  ∃ k y, a = ChainEnd k ∧ chains b !! k = Some y ∧ kind_of y = kd s.
Definition begins_all (a : act) (kd : nat → kind) : Prop :=
  (a = StartServices ∧ kd = KSvcStart) ∨ (a = StopServices ∧ kd = KSvcStop).

Record forward (b : t) (x : chain) : Prop := {
  fw_acts : map what (past x) = take (length (past x)) (acts (kind_of x));
  fw_good i e : past x !! i = Some e → (S i < length (past x))%nat → good b e;
  fw_status :
    match status_of x with
    | Waiting l inner =>
        inner = None ∧ rest x = drop (length (past x)) (stages_of (kind_of x)) ∧
        ∀ e, list.last (past x) = Some e → ∀ c, ChainEnd c ∈ waits e → ChainEnd c ∈ l
    | Done true => length (past x) = length (stages_of (kind_of x)) ∧ ∀ e, e ∈ past x → good b e
    | _ => True
    end
}.

(** The parts of all chains *)
Record shaped (b : t) (x : chain) : Prop := {
  sh_rest : rest x `suffix_of` stages_of (kind_of x);
  sh_inner l h : status_of x = Waiting l (Some h) → ∃ ty, h = ReportError ty;
  sh_services e kd : e ∈ past x → begins_all (what e) kd → Forall2 (begun b kd) (at_services e) (waits e)
}.

Definition chains_ok (b : t) : Prop := ∀ c x, chains b !! c = Some x →
  shaped b x ∧ (plain (kind_of x) = true → forward b x).

Lemma good_grows b b' e : grows b b' → good b e → good b' e.
Proof. intros Hg He c Hc. eapply grows_ended; [done|by apply He]. Qed.

Lemma begun_grows b b' kd s a : grows b b' → begun b kd s a → begun b' kd s a.
Proof. intros Hg (k & y & -> & Hy & Hk). destruct (Hg k y Hy) as (y' & Hy' & Hk' & _). exists k, y'. split_and!; [done..|congruence]. Qed.

Lemma shaped_grows b b' x : grows b b' → shaped b x → shaped b' x.
Proof.
  intros Hg []. constructor; [done|done|]. intros e kd He Hw. eapply list.Forall2_impl; [exact (sh_services0 e kd He Hw)|]. intros. by eapply begun_grows.
Qed.

Lemma forward_grows b b' x : grows b b' → forward b x → forward b' x.
Proof.
  intros Hg [Ha Hgd Hs]. constructor; [done|intros; eapply good_grows; [done|by eapply Hgd]|].
  destruct (status_of x) as [| |[]]; try done. destruct Hs as [Hl Hs]. split; [done|]. intros e He. eapply good_grows; [done|by apply Hs].
Qed.

Lemma fresh_shaped b k : shaped b (fresh k).
Proof. constructor; simpl; [done|done|]. intros e kd He. by apply not_elem_of_nil in He. Qed.

Lemma fresh_forward b k : forward b (fresh k).
Proof. constructor; simpl; [done|done|]. split_and!; try done. Qed.

(** What a step leaves of its chain *)
Lemma goto_at c x st s b : chains b !! c = Some x → chains (goto c x st s b) !! c = Some (Chain (kind_of x) st s (past x)).
Proof. intros Hx. simpl. apply list_lookup_insert_eq. by eapply lookup_lt_Some. Qed.

Lemma call_at c x st a h b : chains b !! c = Some x → chains (call c x st a h b) !! c =
  Some (Chain (kind_of x) st (Waiting (perform a b).1 h) (past x ++ [Ran a (services b) (perform a b).1])).
Proof.
  intros Hx. destruct (call_chains c x st a h b) as [ks ->]. apply list_lookup_insert_eq. rewrite length_app.
  apply lookup_lt_Some in Hx. lia.
Qed.

(** The services that [StartServices] and [StopServices] begin *)
Lemma services_begun b a kd : begins_all a kd → Forall2 (begun (perform a b).2 kd) (services b) (perform a b).1.
Proof.
  intros Ha. assert ((perform a b).1 = map ChainEnd (seq (length (chains b)) (length (services b))) ∧
    chains (perform a b).2 = chains b ++ map (fresh ∘ kd) (services b)) as [H1 H2].
  { destruct Ha as [[-> ->]|[-> ->]]; simpl; [|by apply (each_spec svc_stop)].
    destruct (each_spec svc_start KSvcStart ltac:(done) (services b) b) as [H1 H2]. by destruct (each svc_start (services b) b). }
  rewrite H1. apply Forall2_same_length_lookup_2; [by rewrite length_map, length_seq|].
  intros i s w Hs Hw. rewrite list_lookup_fmap in Hw. apply fmap_Some in Hw as (k & Hk & ->). apply lookup_seq in Hk as [-> Hi].
  exists (length (chains b) + i)%nat, (fresh (kd s)). split; [done|]. split; [|done]. rewrite H2.
  rewrite lookup_app_r by lia. rewrite Nat.add_comm, Nat.add_sub. by rewrite list_lookup_fmap, Hs.
Qed.

Lemma call_keeps c x st a h b k y : chains b !! c = Some x → chains (perform a b).2 !! k = Some y →
  ∃ y', chains (call c x st a h b) !! k = Some y' ∧ kind_of y' = kind_of y.
Proof.
  intros Hx Hy. destruct (perform_chains a b) as (ks & Hk & _). unfold call. destruct (perform a b) as [l b1]. simpl in *.
  destruct (decide (c = k)) as [<-|Hne].
  - rewrite list_lookup_insert_eq by (by eapply lookup_lt_Some). eexists. split; [done|]. simpl. rewrite Hk in Hy.
    rewrite lookup_app_l in Hy by (by eapply lookup_lt_Some). congruence.
  - rewrite list_lookup_insert_ne by done. eauto.
Qed.

Lemma goto_shaped b b' x st s : grows b b' → shaped b x → st `suffix_of` rest x → (∀ l h, s ≠ Waiting l (Some h)) →
  shaped b' (Chain (kind_of x) st s (past x)).
Proof.
  intros Hg Hx Hst Hs. destruct (shaped_grows b b' x Hg Hx) as [Hr _ Hv]. constructor; simpl; [by etrans| |done].
  intros l h E. by destruct (Hs l h).
Qed.

Lemma call_shaped b c x st a h : chains b !! c = Some x → shaped b x → st `suffix_of` rest x →
  (∀ g, h = Some g → ∃ ty, g = ReportError ty) → grows b (call c x st a h b) →
  shaped (call c x st a h b) (Chain (kind_of x) st (Waiting (perform a b).1 h) (past x ++ [Ran a (services b) (perform a b).1])).
Proof.
  intros Hc Hx Hst Hh Hg. destruct (shaped_grows _ _ x Hg Hx) as [Hr _ Hv]. constructor; simpl; [by etrans|intros ? ? [= _ ->]; by apply Hh|].
  intros e kd [He|He]%elem_of_app; [by apply Hv|]. apply list_elem_of_singleton in He as ->. simpl. intros Ha.
  eapply list.Forall2_impl; [by apply services_begun|]. intros s w (k & y & -> & Hy & Hk).
  destruct (call_keeps c x st a h b k y Hc Hy) as (y' & Hy' & Hk'). exists k, y'. split_and!; [done..|congruence].
Qed.

(** The [catch] on the promise of a callback only reports. *)
Lemma inner_reports k a g : Then a (Some g) ∈ stages_of k → ∃ ty, g = ReportError ty.
Proof.
  intros H. destruct k; cbn in H; repeat (apply elem_of_cons in H as [H|H]; [simplify_eq; eauto|]); by apply not_elem_of_nil in H.
Qed.

Lemma suffix_tail {A} (x : A) l k : k = x :: l → l `suffix_of` k.
Proof. intros ->. by apply suffix_cons_r. Qed.

Lemma move_shaped c x b b' y : chains b !! c = Some x → shaped b x → move c x b b' → chains b' !! c = Some y → shaped b' y.
Proof.
  intros Hx Hsh Hm. pose proof (move_grows c x b b' Hx Hm) as Hg. revert Hg.
  destruct Hm as [l h Hs|l Hs|j inner Hs|l inner Hs ? Hr|l inner a st Hs ? Hr|l inner a h st Hs Hok Hr|Hs Hr|a h st Hs Hr|a st Hs Hr]; intros Hg;
    rewrite ?goto_at, ?call_at by done; intros [= <-];
    try (apply goto_shaped with b; [done|done| |done]; rewrite ?Hr; (done || by eapply suffix_tail || apply suffix_nil)).
  - apply call_shaped; done.
  - apply call_shaped; [done|done|by eapply suffix_tail| |done]. intros g ->. apply (inner_reports (kind_of x) a).
    destruct Hsh as [[pre Hpre] _ _]. rewrite Hpre, Hr. apply elem_of_app. right. left.
  - apply call_shaped; [done|done|by eapply suffix_tail|done|done].
Qed.

(** A plain chain *)
Lemma goto_forward b b' x st s : grows b b' → forward b x →
  match s with
  | Waiting l inner => inner = None ∧ st = drop (length (past x)) (stages_of (kind_of x)) ∧
      ∀ e, list.last (past x) = Some e → ∀ c, ChainEnd c ∈ waits e → ChainEnd c ∈ l
  | Done true => length (past x) = length (stages_of (kind_of x)) ∧ ∀ e, e ∈ past x → good b e
  | _ => True
  end → forward b' (Chain (kind_of x) st s (past x)).
Proof.
  intros Hg Hx Hs. destruct (forward_grows b b' x Hg Hx) as [Ha Hgd _]. constructor; [done|done|]. simpl.
  destruct s as [l i| |[]]; try done. destruct Hs as [Hl Hs]. split; [done|]. intros e He. eapply good_grows; [done|by apply Hs].
Qed.

(** All that ran is good when what the chain waits for has ended. *)
Lemma forward_good b x l inner : forward b x → status_of x = Waiting l inner → ok_all b l → ∀ e, e ∈ past x → good b e.
Proof.
  intros [Ha Hgd Hst] Hs Hok e He. rewrite Hs in Hst. destruct Hst as (_ & _ & Hl).
  apply list_elem_of_lookup in He as [i Hi]. destruct (decide (S i = length (past x))) as [E|Hne].
  - intros c Hc. apply Hok. apply (Hl e); [|done]. rewrite last_lookup, <- E. done.
  - apply (Hgd i); [done|]. apply lookup_lt_Some in Hi. lia.
Qed.

Lemma call_forward b c x st a h l inner : plain (kind_of x) = true → chains b !! c = Some x → forward b x → status_of x = Waiting l inner →
  ok_all b l → rest x = Then a h :: st → grows b (call c x st a h b) →
  forward (call c x st a h b) (Chain (kind_of x) st (Waiting (perform a b).1 h) (past x ++ [Ran a (services b) (perform a b).1])).
Proof.
  intros Hp Hc Hx Hs Hok Hr Hg. pose proof (forward_good b x l inner Hx Hs Hok) as Hall. destruct Hx as [Ha Hgd Hst].
  rewrite Hs in Hst. destruct Hst as (_ & Hrest & _). rewrite Hr in Hrest. symmetry in Hrest.
  assert (stages_of (kind_of x) !! length (past x) = Some (Then a h)) as Hlk.
  { rewrite <- (Nat.add_0_r (length (past x))), <- lookup_drop, Hrest. done. }
  constructor; simpl.
  - rewrite map_app, Ha, length_app. simpl. rewrite Nat.add_1_r. unfold acts. symmetry. apply take_S_r.
    by rewrite list_lookup_fmap, Hlk.
  - intros i e Hi Hlt. rewrite length_app in Hlt. simpl in Hlt. rewrite lookup_app_l in Hi by lia.
    eapply good_grows; [done|]. apply Hall. by apply list_elem_of_lookup_2 in Hi.
  - rewrite length_app. simpl. split_and!.
    + rewrite (plain_stages _ Hp), list_lookup_fmap in Hlk. by apply fmap_Some in Hlk as (? & _ & [= _ ->]).
    + symmetry. rewrite <- drop_drop, Hrest. done.
    + intros e. rewrite last_snoc. intros [= <-]. done.
Qed.

Lemma move_forward c x b b' y : plain (kind_of x) = true → chains b !! c = Some x → shaped b x → forward b x → move c x b b' →
  chains b' !! c = Some y → forward b' y.
Proof.
  intros Hp Hx Hsh Hf Hm. pose proof (move_grows c x b b' Hx Hm) as Hg. revert Hg.
  pose proof Hf as [_ _ Hst].
  assert (∀ a st, rest x ≠ Catch a :: st) as Hnc.
  { intros a st E. destruct Hsh as [[pre Hpre] _ _]. rewrite E, (plain_stages _ Hp) in Hpre.
    assert (Catch a ∈ map (λ a, Then a None) (acts (kind_of x))) as Hin by (rewrite Hpre; apply elem_of_app; right; left).
    by apply list_elem_of_fmap in Hin as (? & ? & _). }
  destruct Hm as [l h Hs|l Hs|j inner Hs|l inner Hs Hok Hr|l inner a st Hs ? Hr|l inner a h st Hs Hok Hr|Hs Hr|a h st Hs Hr|a st Hs Hr]; intros Hg;
    try (by destruct (Hnc _ _ Hr)); try (rewrite Hs in Hst; destruct Hst as (Hi & Hrest & Hl); try done);
    rewrite ?goto_at, ?call_at by done; intros [= <-]; try (by apply goto_forward with b).
  - apply goto_forward with b; [done|done|]. split_and!; [done|done|]. intros e He c' Hc'. specialize (Hl e He c' Hc').
    apply list_elem_of_singleton in Hl. done.
  - apply goto_forward with b; [done|done|]. split; [|by eapply forward_good]. rewrite Hr in Hrest. symmetry in Hrest.
    apply (f_equal length) in Hrest. rewrite length_drop in Hrest. simpl in Hrest. destruct Hf as [Ha _ _].
    apply (f_equal length) in Ha. rewrite length_map, length_take in Ha. unfold acts in Ha. rewrite length_map in Ha. lia.
  - by eapply call_forward.
Qed.

(** *** All steps *)

Lemma chains_ok_grows b b' c x : grows b b' → shaped b x ∧ (plain (kind_of x) = true → forward b x) →
  chains b !! c = Some x → shaped b' x ∧ (plain (kind_of x) = true → forward b' x).
Proof. intros Hg [H1 H2] _. split; [by eapply shaped_grows|]. intros Hp. eapply forward_grows; [done|by apply H2]. Qed.

Lemma lookup_fresh b ks c y : (chains b ++ map fresh ks) !! c = Some y →
  chains b !! c = Some y ∨ ((length (chains b) ≤ c)%nat ∧ ∃ k, y = fresh k ∧ k ∈ ks).
Proof.
  intros Hy. apply lookup_app_Some in Hy as [?|[Hl Hy]]; [by left|right]. split; [done|]. rewrite list_lookup_fmap in Hy.
  apply fmap_Some in Hy as (k & Hk & ->). exists k. split; [done|]. by apply list_elem_of_lookup_2 in Hk.
Qed.

Lemma chains_ok_step e b b' : apply e b = Some b' → chains_ok b → chains_ok b'.
Proof.
  intros He Hok c y Hy. pose proof (apply_grows e b b' He) as Hg.
  assert (∀ k, shaped b' (fresh k) ∧ (plain k = true → forward b' (fresh k))) as Hfresh
    by (intros k; split; [apply fresh_shaped|intros _; apply fresh_forward]).
  apply apply_cases in He as [[_ (ks & E & _)]|[_ (c' & x & Hx & Hm)]].
  - rewrite E in Hy. apply lookup_fresh in Hy as [Hy|(_ & k & -> & _)]; [|apply Hfresh].
    eapply chains_ok_grows; [done|by eapply Hok|done].
  - destruct (decide (c' = c)) as [->|Hne].
    + destruct (Hok c x Hx) as [Hs Hf]. destruct (move_changes c x b b' Hm) as (y' & ks & E & Hk & _).
      split; [exact (move_shaped _ _ _ _ _ Hx Hs Hm Hy)|]. intros Hp. refine (move_forward _ _ _ _ _ _ Hx Hs _ Hm Hy).
      * assert (y' = y) as -> by (rewrite E, list_lookup_insert_eq in Hy by (rewrite length_app; apply lookup_lt_Some in Hx; lia); congruence).
        by rewrite <- Hk.
      * apply Hf. assert (y' = y) as -> by (rewrite E, list_lookup_insert_eq in Hy by (rewrite length_app; apply lookup_lt_Some in Hx; lia); congruence).
        by rewrite <- Hk.
    + destruct (move_changes c' x b b' Hm) as (y' & ks & E & _). rewrite E, list_lookup_insert_ne in Hy by done.
      apply lookup_fresh in Hy as [Hy|(_ & k & -> & _)]; [|apply Hfresh]. eapply chains_ok_grows; [done|by eapply Hok|done].
Qed.

(** ** The flags *)

Lemma each_flags f l b : (∀ s b, opts (f s b).2 = opts b ∧ started (f s b).2 = started b ∧ servicesStarting (f s b).2 = servicesStarting b ∧
    stopping (f s b).2 = stopping b ∧ services (f s b).2 = services b ∧ created (f s b).2 = created b) →
  let b' := (each f l b).2 in
  opts b' = opts b ∧ started b' = started b ∧ servicesStarting b' = servicesStarting b ∧ stopping b' = stopping b ∧ services b' = services b ∧ created b' = created b.
Proof.
  intros Hf. revert b. induction l as [|s l IH]; intros b; [done|]. simpl. specialize (Hf s b). destruct (f s b) as [c b1].
  specialize (IH b1). destruct (each f l b1) as [cs b2]. simpl in *. destruct IH as (-> & -> & -> & -> & -> & ->). exact Hf.
Qed.

Lemma perform_flags a b : let b' := (perform a b).2 in
  opts b' = opts b ∧ created b' = created b ∧
  started b' = match a with SetStarted => true | _ => started b end ∧
  servicesStarting b' = match a with SetStarted => false | StartServices => true | _ => servicesStarting b end ∧
  stopping b' = match a with SetStopping => true | _ => stopping b end ∧
  services b' = match a with RemoveService s => filter (λ x, x ≠ s) (services b) | _ => services b end.
Proof.
  assert (∀ b', (let c := servicesChanged b' in opts c = opts b' ∧ created c = created b' ∧ started c = started b' ∧ servicesStarting c = servicesStarting b' ∧
    stopping c = stopping b' ∧ services c = services b')) as Hch by (intros b'; unfold servicesChanged; simpl; by destruct (has_transit _)).
  destruct a; simpl; try done; try (by destruct (has_transit (opts b))); try (by destruct (has_started (opts b)));
    try (by destruct (has_stopped (opts b))).
  - pose proof (each_flags svc_start (services b) b ltac:(done)) as H. destruct (each _ _ _) as [l b1]. simpl in *.
    by destruct H as (-> & -> & _ & -> & -> & ->).
  - pose proof (each_flags svc_stop (services b) b ltac:(done)) as H. simpl in H. by destruct H as (-> & -> & -> & -> & -> & ->).
  - destruct j; try done. by destruct (has_cacher (opts b)).
  - exact (Hch (set_registered _ b)).
  - exact (Hch (set_registered _ (set_services _ b))).
Qed.

Lemma call_flags c x st a h b : let b' := call c x st a h b in
  opts b' = opts b ∧ created b' = created b ∧
  started b' = match a with SetStarted => true | _ => started b end ∧
  servicesStarting b' = match a with SetStarted => false | StartServices => true | _ => servicesStarting b end ∧
  stopping b' = match a with SetStopping => true | _ => stopping b end ∧
  services b' = match a with RemoveService s => filter (λ x, x ≠ s) (services b) | _ => services b end.
Proof. pose proof (perform_flags a b) as H. unfold call. destruct (perform a b) as [l b1]. exact H. Qed.

(** Whose callbacks they are *)
Lemma owner_start k a h st : (a = StartServices ∨ a = SetStarted) → Then a h :: st `suffix_of` stages_of k → k = KStart.
Proof.
  intros Ha [pre Hpre]. assert (Then a h ∈ stages_of k) as H by (rewrite Hpre; apply elem_of_app; right; left).
  destruct k; [done|..]; cbn in H; repeat (apply elem_of_cons in H as [H|H]; [simplify_eq; destruct Ha; simplify_eq|]); by apply not_elem_of_nil in H.
Qed.
Lemma owner_catch k a st : (a = StartServices ∨ a = SetStarted) → ¬ Catch a :: st `suffix_of` stages_of k.
Proof.
  intros Ha [pre Hpre]. assert (Catch a ∈ stages_of k) as H by (rewrite Hpre; apply elem_of_app; right; left).
  destruct k; cbn in H; repeat (apply elem_of_cons in H as [H|H]; [simplify_eq; destruct Ha; simplify_eq|]); by apply not_elem_of_nil in H.
Qed.

(** Where a chain that only goes forward stands *)
Lemma forward_position b x l inner a h st : plain (kind_of x) = true → forward b x → status_of x = Waiting l inner → rest x = Then a h :: st →
  acts (kind_of x) !! length (past x) = Some a.
Proof.
  intros Hp [_ _ Hs] Hst Hr. rewrite Hst in Hs. destruct Hs as (_ & Hrest & _). rewrite Hr in Hrest. unfold acts.
  rewrite list_lookup_fmap, <- (Nat.add_0_r (length (past x))), <- lookup_drop, <- Hrest. done.
Qed.

(** [started] is only set by a [start()] that came that far. *)
Definition started_ok (b : t) : Prop :=
  started b = true → ∃ c x, chains b !! c = Some x ∧ kind_of x = KStart ∧ (4 ≤ length (past x))%nat.

Lemma started_grows b b' : grows b b' → (started b' = true → started b = true) → started_ok b → started_ok b'.
Proof.
  intros Hg Hi Hok Hs. destruct (Hok (Hi Hs)) as (c & x & Hx & Hk & Hl). destruct (Hg c x Hx) as (x' & Hx' & Hk' & _ & Hp).
  exists c, x'. split_and!; [done|congruence|]. apply prefix_length in Hp. lia.
Qed.

Lemma started_step e b b' : apply e b = Some b' → chains_ok b → started_ok b → started_ok b'.
Proof.
  intros He Hok Hs. pose proof (apply_grows e b b' He) as Hg.
  pose proof (apply_cases e b b' He) as [[Hext _]|[_ (c & x & Hx & Hm)]].
  - apply (started_grows b); [done| |done]. destruct e; try done; simpl in He; simplify_eq; try done.
    + unfold createService. by destruct (_ || _).
    + destruct (_ <? _)%nat; by simplify_eq.
    + destruct (debounced b); [|done]. simplify_eq. unfold localServiceChanged. simpl. by destruct (stopping b).
  - destruct (Hok c x Hx) as [Hsh Hf].
    destruct Hm as [l h Hst|l Hst|j inner Hst|l inner Hst|l inner a st Hst|l inner a h st Hst Ho Hr|Hst|a h st Hst|a st Hst Hr];
      try (by apply (started_grows b)).
    + destruct (sh_inner b x Hsh l h Hst) as [ty ->]. by apply (started_grows b).
    + destruct (decide (a = SetStarted)) as [->|Hne].
      * pose proof (owner_start (kind_of x) SetStarted h st (or_intror eq_refl)) as Hk. rewrite <- Hr in Hk. specialize (Hk (sh_rest b x Hsh)).
        intros _. exists c. eexists. rewrite call_at by done. split; [done|]. split; [done|]. simpl. rewrite length_app. simpl.
        assert (acts (kind_of x) !! length (past x) = Some SetStarted) as Hp.
        { eapply forward_position; [by rewrite Hk|apply Hf; by rewrite Hk|done..]. }
        rewrite Hk in Hp. destruct (length (past x)) as [|[|[|]]]; simplify_eq; lia.
      * apply (started_grows b); [done| |done]. destruct (call_flags c x st a h b) as (_ & _ & -> & _). by destruct a.
    + destruct (decide (a = SetStarted)) as [->|Hne].
      * destruct (owner_catch (kind_of x) SetStarted st (or_intror eq_refl)). rewrite <- Hr. apply Hsh.
      * apply (started_grows b); [done| |done]. destruct (call_flags c x st a None b) as (_ & _ & -> & _). by destruct a.
Qed.

(** ** Every service is started once *)

(** How often the service [s] was started *)
Fixpoint begins (s : nat) (l : list output) : nat :=
  match l with
  | BeginStart s' :: l => (if decide (s = s') then 1 else 0) + begins s l
  | _ :: l => begins s l
  | [] => 0
  end.

Lemma begins_app s l l' : begins s (l ++ l') = begins s l + begins s l'.
Proof. induction l as [|[] l IH]; simpl; rewrite ?IH; lia. Qed.

Lemma begins_each s l b : NoDup l → begins s (log (each svc_start l b).2) = begins s (log b) + (if decide (s ∈ l) then 1 else 0).
Proof.
  revert b. induction l as [|s' l IH]; intros b; [intros _; cbn [each snd]; rewrite decide_False by (apply not_elem_of_nil); lia|].
  intros [Hs' Hl]%list.NoDup_cons. cbn [each]. destruct (svc_start s' b) as [c b1] eqn:E. specialize (IH b1 Hl).
  destruct (each svc_start l b1) as [cs b2]. cbn [snd] in *. rewrite IH. injection E as <- <-.
  cbn [log set_chains emit]. rewrite begins_app. cbn [begins].
  destruct (decide (s = s')) as [->|Hne].
  - rewrite (decide_False (P := s' ∈ l)) by done. rewrite decide_True by left. lia.
  - destruct (decide (s ∈ l)); [rewrite decide_True by (by right)|rewrite decide_False by (rewrite elem_of_cons; naive_solver)]; lia.
Qed.

Lemma begins_each_stop s l b : begins s (log (each svc_stop l b).2) = begins s (log b).
Proof.
  revert b. induction l as [|s' l IH]; intros b; [done|]. cbn [each]. destruct (svc_stop s' b) as [c b1] eqn:E. specialize (IH b1).
  destruct (each svc_stop l b1) as [cs b2]. simpl in *. rewrite IH. injection E as <- <-. simpl. rewrite begins_app. simpl. lia.
Qed.

Lemma perform_begins s a b : NoDup (services b) → begins s (log (perform a b).2) = begins s (log b) +
  (if decide (a = StartServices ∧ s ∈ services b) then 1 else 0).
Proof.
  intros Hnd. assert (∀ o l, (∀ s', o ≠ BeginStart s') → begins s (l ++ [o]) = begins s l) as Hone.
  { intros o l Ho. rewrite begins_app. destruct o; simpl; try lia. by destruct (Ho s0). }
  assert (∀ b', begins s (log (servicesChanged b')) = begins s (log b')) as Hch.
  { intros b'. unfold servicesChanged. destruct (has_transit _); simpl; by apply Hone. }
  rewrite decide_bool_decide, bool_decide_and. destruct (bool_decide (a = StartServices)) eqn:Ha.
  - apply bool_decide_eq_true in Ha as ->. simpl. pose proof (begins_each s (services b) b Hnd) as H.
    destruct (each svc_start (services b) b) as [l b1]. simpl in *. rewrite H. by rewrite decide_bool_decide.
  - simpl. rewrite Nat.add_0_r. destruct a; simpl; rewrite ?Hch, ?Hone by done; try done;
      try (destruct (_ (opts b)); simpl; by rewrite ?Hone).
    + apply begins_each_stop.
    + destruct j; simpl; rewrite ?Hone by done; try done. destruct (has_cacher (opts b)); simpl; by rewrite ?Hone.
Qed.

(** [start()] was called at most once. *)
Definition one_start (b : t) : Prop :=
  ∀ c c' x x', chains b !! c = Some x → chains b !! c' = Some x' → kind_of x = KStart → kind_of x' = KStart → c = c'.

Lemma one_start_grows b b' : grows b b' → one_start b' → one_start b.
Proof.
  intros Hg Ho c c' x x' Hx Hx' Hk Hk'. destruct (Hg c x Hx) as (y & Hy & Ey & _). destruct (Hg c' x' Hx') as (y' & Hy' & Ey' & _).
  eapply Ho; [done|done|congruence|congruence].
Qed.

Record once (b : t) : Prop := {
  on_created s : s ∈ services b → (s < created b)%nat;
  on_nodup : NoDup (services b);
  on_new s : (created b ≤ s)%nat → begins s (log b) = 0;
  on_once s : (begins s (log b) ≤ 1)%nat;
  on_running s : started b || servicesStarting b = true → s ∈ services b → begins s (log b) = 1;
  on_before : (∀ c x, chains b !! c = Some x → kind_of x = KStart → Then StartServices None ∈ rest x) →
    started b = false ∧ servicesStarting b = false ∧ ∀ s, begins s (log b) = 0;
  on_starting c x : chains b !! c = Some x → kind_of x = KStart → Then SetStarted None ∈ rest x →
    Then StartServices None ∉ rest x → status_of x ≠ Failed → servicesStarting b = true
}.

Lemma create_once o : once (create o).
Proof.
  constructor; simpl; try done; try (by constructor). intros s Hs. by apply not_elem_of_nil in Hs.
Qed.

(** Steps that touch neither flags nor services, and start nothing *)
Lemma once_same b b' : grows b b' →
  (∀ c x', chains b' !! c = Some x' → kind_of x' = KStart → ∃ x, chains b !! c = Some x ∧ kind_of x = KStart ∧
     (Then StartServices None ∈ rest x' → Then StartServices None ∈ rest x) ∧
     (Then SetStarted None ∈ rest x' → status_of x' ≠ Failed →
        Then SetStarted None ∈ rest x ∧ (Then StartServices None ∈ rest x → Then StartServices None ∈ rest x') ∧ status_of x ≠ Failed)) →
  (started b' = true → started b = true) → servicesStarting b' = servicesStarting b → created b' = created b →
  (∀ s, s ∈ services b' → s ∈ services b) → NoDup (services b') → (∀ s, begins s (log b') = begins s (log b)) → once b → once b'.
Proof.
  intros Hg Hch Hst Hss Hcr Hsv Hnd Hlog [].
  constructor; rewrite ?Hcr, ?Hss; [by auto|done| | | | |].
  - intros s Hs. rewrite Hlog. auto.
  - intros s. rewrite Hlog. auto.
  - intros s Hf Hs. rewrite Hlog. apply on_running0; [|auto]. apply orb_true_iff in Hf as [Hf|Hf]; apply orb_true_iff; auto.
  - intros Hall. destruct on_before0 as (H1 & H2 & H3).
    + intros c x Hx Hk. destruct (Hg c x Hx) as (x' & Hx' & Hk' & _). destruct (Hch c x' Hx') as (y & Hy & _ & Himp & _); [congruence|].
      simplify_eq. apply Himp. apply (Hall c); congruence.
    + split_and!; [destruct (started b'); [specialize (Hst eq_refl); congruence|done]|done|]. intros s. by rewrite Hlog.
  - intros c x' Hx' Hk Hin Hout Hs. destruct (Hch c x' Hx' Hk) as (x & Hx & Hkx & _ & Himp). destruct (Himp Hin Hs) as (H1 & H2 & H3).
    apply (on_starting0 c x); auto.
Qed.

(** The chain of a step, as [once_same] needs it *)
Definition chain_kept (x x' : chain) : Prop :=
  (Then StartServices None ∈ rest x' → Then StartServices None ∈ rest x) ∧
  (Then SetStarted None ∈ rest x' → status_of x' ≠ Failed →
     Then SetStarted None ∈ rest x ∧ (Then StartServices None ∈ rest x → Then StartServices None ∈ rest x') ∧ status_of x ≠ Failed).

Lemma chain_kept_refl x : chain_kept x x.
Proof. by split. Qed.

(** Other chains do not change, and new ones are of services. *)
Lemma once_chains b b' c x y ks : chains b !! c = Some x → chains b' = <[c := y]> (chains b ++ map fresh ks) → kind_of y = kind_of x →
  (∀ k, k ∈ ks → k ≠ KStart) → (kind_of x = KStart → chain_kept x y) →
  ∀ c' x', chains b' !! c' = Some x' → kind_of x' = KStart → ∃ x0, chains b !! c' = Some x0 ∧ kind_of x0 = KStart ∧ chain_kept x0 x'.
Proof.
  intros Hx E Hy Hks Hkept c' x' Hx' Hk. rewrite E in Hx'. destruct (decide (c = c')) as [<-|Hne].
  - rewrite list_lookup_insert_eq in Hx' by (rewrite length_app; apply lookup_lt_Some in Hx; lia). simplify_eq.
    exists x. split_and!; [done|congruence|]. apply Hkept. congruence.
  - rewrite list_lookup_insert_ne in Hx' by done. apply lookup_fresh in Hx' as [Hx'|(_ & k & -> & Hin)].
    + exists x'. split_and!; [done..|apply chain_kept_refl].
    + by destruct (Hks k Hin).
Qed.

(** New chains of a callback: [_start()] and [_stop()] of services *)
Definition of_service (k : kind) : bool := match k with KSvcStart _ | KSvcStop _ => true | _ => false end.

Lemma perform_kinds a b ks : chains (perform a b).2 = chains b ++ map fresh ks → ∀ k, k ∈ ks → of_service k = true.
Proof.
  intros E. assert (∀ ks', chains (perform a b).2 = chains b ++ map fresh ks' → ks' = ks) as Huniq.
  { intros ks' E'. rewrite E in E'. apply app_inv_head in E'. clear -E'. revert ks' E'. induction ks as [|k ks IH]; intros [|k' ks']; try done.
    simpl. intros [= -> E]. f_equal. by apply IH. }
  assert (∀ b', chains b' = chains b → chains (perform a b).2 = chains b' → ∀ k, k ∈ ks → of_service k = true) as Hnil.
  { intros b' Eb E1 k Hk. rewrite <- (Huniq []) in Hk; [by apply not_elem_of_nil in Hk|]. rewrite app_nil_r. congruence. }
  assert (∀ b', chains (servicesChanged b') = chains b') as Hch by (intros b'; unfold servicesChanged; simpl; by destruct (has_transit _)).
  destruct a; simpl in *; try (by apply (Hnil b)); try (apply (Hnil b); [done|]; by destruct (_ (opts b)));
    try (apply (Hnil b); [done|]; by rewrite Hch).
  - destruct (each_spec svc_start KSvcStart ltac:(done) (services b) b) as [H1 H2]. destruct (each svc_start (services b) b) as [l b1]. simpl in *.
    rewrite <- (Huniq (map KSvcStart (services b))) by (by rewrite map_map). by intros k (s & -> & _)%list_elem_of_fmap.
  - destruct (each_spec svc_stop KSvcStop ltac:(done) (services b) b) as [H1 H2].
    rewrite <- (Huniq (map KSvcStop (services b))) by (by rewrite map_map). by intros k (s & -> & _)%list_elem_of_fmap.
  - destruct j; try (by apply (Hnil b)). apply (Hnil b); [done|]. by destruct (has_cacher (opts b)).
  - rewrite <- (Huniq [KSvcStop s]) by done. intros k ->%list_elem_of_singleton. done.
Qed.

(** A new service is started at once if the broker starts its services or has. *)
Lemma once_created b : once b → once (createService b).
Proof.
  intros Hb. destruct Hb. set (s0 := created b).
  assert (NoDup (services b ++ [s0])) as Hnd.
  { apply list.NoDup_app. split_and!; [done| |apply NoDup_singleton]. intros s Hs ->%list_elem_of_singleton. specialize (on_created0 _ Hs). lia. }
  assert (∀ s, s ∈ services b ++ [s0] → (s < S s0)%nat) as Hlt.
  { intros s [Hs| ->%list_elem_of_singleton]%elem_of_app; [apply on_created0 in Hs|]; unfold s0 in *; lia. }
  unfold createService. cbn [addLocalService started servicesStarting]. fold s0. destruct (started b || servicesStarting b) eqn:Hf.
  - assert (∀ s, begins s (log b ++ [BeginStart s0]) = begins s (log b) + (if decide (s = s0) then 1 else 0)) as Hlog
      by (intros s; rewrite begins_app; simpl; destruct (decide (s = s0)); lia).
    assert (∀ c x, (chains b ++ [fresh (KRestart s0)]) !! c = Some x → kind_of x = KStart → chains b !! c = Some x) as Hch.
    { intros c x Hx Hk. apply (lookup_fresh b [KRestart s0]) in Hx as [Hx|(_ & k & -> & ->%list_elem_of_singleton)]; done. }
    constructor; simpl; try done.
    + intros s Hs. rewrite Hlog, on_new0 by (unfold s0 in *; lia). destruct (decide (s = s0)); lia.
    + intros s. rewrite Hlog. destruct (decide (s = s0)) as [->|]; [rewrite on_new0 by (unfold s0; lia); lia|specialize (on_once0 s); lia].
    + intros s _ Hs. rewrite Hlog. destruct (decide (s = s0)) as [->|Hne]; [rewrite on_new0 by (unfold s0; lia); lia|].
      rewrite on_running0; [lia|done|]. apply elem_of_app in Hs as [Hs| ->%list_elem_of_singleton]; done.
    + intros Hall. destruct on_before0 as (H1 & H2 & _); [|by rewrite H1, H2 in Hf].
      intros c x Hx Hk. apply (Hall c x); [by apply lookup_app_l_Some|done].
    + intros c x Hx Hk. apply (on_starting0 c x); [by apply Hch|done].
  - constructor; simpl; try done.
    + intros s Hs. apply on_new0. unfold s0 in *. lia.
    + intros s. by rewrite Hf.
Qed.

(** The step of [once]: the calls *)
Lemma once_external e b b' : apply e b = Some b' → external e = true → one_start b' → once b → once b'.
Proof.
  intros He Hext Hone Hb. pose proof (apply_grows e b b' He) as Hg.
  assert (∀ ks, chains b' = chains b ++ map fresh ks → (∀ k, k ∈ ks → k ≠ KStart) →
    ∀ c x', chains b' !! c = Some x' → kind_of x' = KStart → ∃ x, chains b !! c = Some x ∧ kind_of x = KStart ∧ chain_kept x x') as Hch.
  { intros ks E Hks c x' Hx' Hk. rewrite E in Hx'. apply lookup_fresh in Hx' as [Hx'|(_ & k & -> & Hin)]; [|by destruct (Hks k Hin)].
    exists x'. split_and!; [done..|apply chain_kept_refl]. }
  assert (∀ k, k ≠ KStart → ∀ k', k' ∈ [k] → k' ≠ KStart) as Hk1 by (by intros k Hk k' ->%list_elem_of_singleton).
  destruct e; try done; simpl in He.
  - (* CallStart *)
    injection He as <-. assert (∀ c x, chains b !! c = Some x → kind_of x = KStart → False) as Hno.
    { intros c x Hx Hk. apply lookup_lt_Some in Hx as Hlt. assert (c = length (chains b)) as ->; [|lia].
      eapply (Hone c (length (chains b)) x (fresh KStart)); [|simpl|done|done].
      - simpl. by apply lookup_app_l_Some.
      - rewrite lookup_app_r by done. by rewrite Nat.sub_diag. }
    destruct Hb. destruct on_before0 as (H1 & H2 & H3); [intros c x Hx Hk; by destruct (Hno c x Hx Hk)|].
    constructor; simpl; try done. intros c x' Hx' Hk _ Hout _. apply (lookup_fresh b [KStart]) in Hx' as [Hx'|(_ & k & -> & ->%list_elem_of_singleton)].
    + by destruct (Hno c x' Hx' Hk).
    + destruct Hout. do 2 right. left.
  - injection He as <-. pose proof Hb as [].
    apply (once_same b); try done. apply (Hch [KStop]); [done|]. by apply Hk1.
  - injection He as <-. by apply once_created.
  - destruct (s <? created b)%nat; [|done]. injection He as <-. pose proof Hb as [].
    apply (once_same b); try done. apply (Hch [KDestroy s]); [done|]. by apply Hk1.
  - destruct (debounced b); [|done]. injection He as <-. pose proof Hb as [].
    assert (chains (localServiceChanged (set_debounced false b)) = chains b) as E by (unfold localServiceChanged; simpl; by destruct (stopping b)).
    apply (once_same b); try done; try (unfold localServiceChanged; simpl; by destruct (stopping b)).
    + apply (Hch []); [by rewrite app_nil_r|]. intros k Hk. by apply not_elem_of_nil in Hk.
    + intros s. unfold localServiceChanged. simpl. destruct (stopping b); [done|]. simpl. rewrite begins_app. simpl. lia.
Qed.

Lemma start_no_catch b x a st : shaped b x → kind_of x = KStart → rest x ≠ Catch a :: st.
Proof.
  intros [[pre Hpre] _ _] Hk E. rewrite E, Hk in Hpre. assert (Catch a ∈ stages_of KStart) as H by (rewrite Hpre; apply elem_of_app; right; left).
  cbn in H. repeat (apply elem_of_cons in H as [H|H]; [done|]). by apply not_elem_of_nil in H.
Qed.

(** A callback that starts no services and does not end the start *)
Lemma once_call b c x st a h : once b → chains b !! c = Some x → grows b (call c x st a h b) → a ≠ StartServices → a ≠ SetStarted →
  (kind_of x = KStart → chain_kept x (Chain (kind_of x) st (Waiting (perform a b).1 h) (past x ++ [Ran a (services b) (perform a b).1]))) →
  once (call c x st a h b).
Proof.
  intros Hb Hx Hg H1 H2 Hkept. destruct (call_flags c x st a h b) as (_ & Hcr & Hst & Hss & _ & Hsv).
  assert (∀ s, begins s (log (call c x st a h b)) = begins s (log b)) as Hlog.
  { intros s. pose proof (perform_begins s a b (on_nodup b Hb)) as E. unfold call. destruct (perform a b) as [l b1]. simpl in *.
    rewrite E. rewrite decide_False by naive_solver. lia. }
  destruct (perform_chains a b) as (ks & Eks & _).
  apply (once_same b); try done.
  - eapply once_chains with (ks := ks); [done| | |intros k Hk ->; by apply (perform_kinds a b ks Eks) in Hk|exact Hkept]; [|done].
    unfold call. destruct (perform a b) as [l b1]. simpl in *. by rewrite Eks.
  - rewrite Hst. by destruct a.
  - rewrite Hss. by destruct a.
  - intros s. rewrite Hsv. destruct a; try done. by intros [_ ?]%list_elem_of_filter.
  - rewrite Hsv. pose proof (on_nodup b Hb). destruct a; try done. by apply list.NoDup_filter.
Qed.

Lemma once_goto b c x st s : once b → chains b !! c = Some x → grows b (goto c x st s b) →
  (kind_of x = KStart → chain_kept x (Chain (kind_of x) st s (past x))) → once (goto c x st s b).
Proof.
  intros Hb Hx Hg Hkept. pose proof Hb as []. apply (once_same b); try done.
  eapply once_chains with (ks := []); [done| | | |exact Hkept]; [simpl; by rewrite app_nil_r|done|]. intros k Hk. by apply not_elem_of_nil in Hk.
Qed.

(** The services are started, and only once. *)
Lemma once_start_services b c x st h : once b → one_start b → chains b !! c = Some x → kind_of x = KStart →
  rest x = Then StartServices h :: st → Then StartServices None ∈ rest x → Then StartServices None ∉ st → once (call c x st StartServices h b).
Proof.
  intros Hb Hone Hx Hk Hr Hin Hout. destruct (call_flags c x st StartServices h b) as (_ & Hcr & Hst & Hss & _ & Hsv).
  assert (∀ s, begins s (log (call c x st StartServices h b)) = begins s (log b) + (if decide (s ∈ services b) then 1 else 0)) as Hlog.
  { intros s. pose proof (perform_begins s StartServices b (on_nodup b Hb)) as E. unfold call. destruct (perform StartServices b) as [l b1]. simpl in *.
    rewrite E. destruct (decide (s ∈ services b)); [by rewrite decide_True|by rewrite decide_False by naive_solver]. }
  destruct Hb. destruct on_before0 as (H1 & H2 & H0).
  { intros c' x' Hx' Hk'. rewrite (Hone c' c x' x Hx' Hx Hk' Hk) in Hx'. by simplify_eq. }
  constructor; rewrite ?Hcr, ?Hst, ?Hss, ?Hsv; [done|done| | | | |].
  - intros s Hs. rewrite Hlog, on_new0 by done. rewrite decide_False; [done|]. intros Hin'%on_created0. lia.
  - intros s. rewrite Hlog, H0. case_decide; lia.
  - intros s _ Hs. rewrite Hlog, H0, decide_True by done. done.
  - intros Hall. exfalso. specialize (Hall c _ (call_at c x st StartServices h b Hx) Hk). done.
  - done.
Qed.

Lemma once_set_started b c x st h : once b → one_start b → chains b !! c = Some x → kind_of x = KStart → status_of x ≠ Failed →
  rest x = Then SetStarted h :: st → Then SetStarted None ∈ rest x → Then StartServices None ∉ rest x → Then SetStarted None ∉ st →
  once (call c x st SetStarted h b).
Proof.
  intros Hb Hone Hx Hk Hs Hr Hin Hnot Hout. destruct (call_flags c x st SetStarted h b) as (_ & Hcr & Hst & Hss & _ & Hsv).
  assert (∀ s, begins s (log (call c x st SetStarted h b)) = begins s (log b)) as Hlog.
  { intros s. pose proof (perform_begins s SetStarted b (on_nodup b Hb)) as E. rewrite decide_False in E by naive_solver.
    unfold call. destruct (perform SetStarted b) as [l b1]. simpl in *. lia. }
  destruct Hb. assert (servicesStarting b = true) as Hstarting by (by apply (on_starting0 c x)).
  constructor; rewrite ?Hcr, ?Hst, ?Hss, ?Hsv; [done|done| | | | |].
  - intros s. rewrite Hlog. auto.
  - intros s. rewrite Hlog. auto.
  - intros s _ Hsv'. rewrite Hlog. apply on_running0; [|done]. by rewrite Hstarting, orb_true_r.
  - intros Hall. exfalso. specialize (Hall c _ (call_at c x st SetStarted h b Hx) Hk). simpl in Hall. apply Hnot. rewrite Hr. by right.
  - intros c' x' Hx' Hk' Hin' _ _. exfalso. destruct (decide (c = c')) as [<-|Hne].
    + rewrite call_at in Hx' by done. by simplify_eq.
    + destruct (perform_chains SetStarted b) as (ks & Eks & _). unfold call in Hx'. simpl in *.
      rewrite list_lookup_insert_ne in Hx' by done. apply Hne. by apply (Hone c c' x x').
Qed.

(** Where the callbacks of [start()] stand *)
Lemma start_rest b x a h st : shaped b x → kind_of x = KStart → rest x = Then a h :: st →
  h = None ∧ (a = StartServices → Then StartServices None ∉ st) ∧ (a = SetStarted → Then SetStarted None ∉ st ∧ Then StartServices None ∉ rest x).
Proof.
  intros [[pre Hpre] _ _] Hk Hr. rewrite Hk in Hpre. rewrite Hr in *. cbn in Hpre.
  assert (∀ (s : stage) l, s ∈ l → existsb (λ s', bool_decide (s = s')) l = true) as Hin.
  { intros s l Hs. apply existsb_exists. exists s. split; [by apply list_elem_of_In|by apply bool_decide_eq_true]. }
  repeat (destruct pre as [|? pre]; simpl in Hpre; [injection Hpre as <- <- <-; split_and!; try done; intros _; try split; intros H%Hin; vm_compute in H; done|]; injection Hpre as <- Hpre).
  by destruct pre.
Qed.

(** The step of [once] of a chain *)
Lemma once_move b c x b' : chains b !! c = Some x → move c x b b' → one_start b → shaped b x → once b → once b'.
Proof.
  intros Hx Hm Hone Hsh Hb. pose proof (move_grows c x b b' Hx Hm) as Hg. revert Hg.
  destruct Hm as [l g Hs|l Hs|j inner Hs|l inner Hs Hok Hr|l inner a st Hs Hok Hr|l inner a h st Hs Hok Hr|Hs Hr|a h st Hs Hr|a st Hs Hr]; intros Hg.
  - destruct (sh_inner b x Hsh l g Hs) as [ty ->]. apply once_call; [done..|]. intros _. split; [done|]. simpl. intros Hin _.
    split_and!; [done|done|congruence].
  - apply once_goto; [done..|]. intros _. by split.
  - apply once_goto; [done..|]. intros _. split; [done|]. intros Hin _. split_and!; [done|done|congruence].
  - apply once_goto; [done..|]. intros _. split; simpl; intros H; by apply not_elem_of_nil in H.
  - apply once_goto; [done..|]. intros Hk. by destruct (start_no_catch b x a st Hsh Hk).
  - destruct (decide (a = StartServices)) as [->|H1]; [|destruct (decide (a = SetStarted)) as [->|H2]].
    + pose proof (owner_start (kind_of x) StartServices h st (or_introl eq_refl)) as Hk. rewrite <- Hr in Hk. specialize (Hk (sh_rest b x Hsh)).
      destruct (start_rest b x _ _ _ Hsh Hk Hr) as (-> & Hout & _). apply once_start_services; [done..| |by apply Hout]. rewrite Hr. left.
    + pose proof (owner_start (kind_of x) SetStarted h st (or_intror eq_refl)) as Hk. rewrite <- Hr in Hk. specialize (Hk (sh_rest b x Hsh)).
      destruct (start_rest b x _ _ _ Hsh Hk Hr) as (-> & _ & Hout). destruct (Hout eq_refl). apply once_set_started; [done..|congruence|done| |done|done].
      rewrite Hr. left.
    + apply once_call; [done..|]. intros Hk. destruct (start_rest b x _ _ _ Hsh Hk Hr) as (-> & _). split; simpl; rewrite Hr; [by right|].
      intros Hin _. split_and!; [by right|intros [H|H]%elem_of_cons; [congruence|done]|congruence].
  - apply once_goto; [done..|]. intros _. split; simpl; intros H; by apply not_elem_of_nil in H.
  - apply once_goto; [done..|]. intros _. split; simpl; [rewrite Hr; by right|by intros _ []].
  - apply once_call; [done..| | |].
    + intros ->. destruct (owner_catch (kind_of x) StartServices st (or_introl eq_refl)). rewrite <- Hr. apply Hsh.
    + intros ->. destruct (owner_catch (kind_of x) SetStarted st (or_intror eq_refl)). rewrite <- Hr. apply Hsh.
    + intros Hk. by destruct (start_no_catch b x a st Hsh Hk).
Qed.

(** ** What chains wait for *)

Definition awaits_service (b : t) (a : awaited) : Prop :=
  ∃ n y, a = ChainEnd n ∧ chains b !! n = Some y ∧ of_service (kind_of y) = true.

(** The chains that one callback waits for have all ended well, or one has not. *)
Definition resolved (b : t) (e : ran) : Prop :=
  (∃ j, waits e = [Job j]) ∨ ok_all b (waits e) ∨ ∃ a, a ∈ waits e ∧ ended b a = Some false.

Record waiting_ok (b : t) (x : chain) : Prop := {
  wa_shape l inner : status_of x = Waiting l inner → (∃ j, l = [Job j]) ∨ (∀ a, a ∈ l → awaits_service b a);
  wa_service l inner : of_service (kind_of x) = true → status_of x = Waiting l inner → l = [] ∨ ∃ j, l = [Job j];
  wa_past i e : past x !! i = Some e → resolved b e ∨
    (S i = length (past x) ∧ ∃ inner, status_of x = Waiting (waits e) inner)
}.

Lemma awaits_grows b b' a : grows b b' → awaits_service b a → awaits_service b' a.
Proof. intros Hg (n & y & -> & Hy & Hk). destruct (Hg n y Hy) as (y' & Hy' & Hk' & _). exists n, y'. split_and!; [done..|congruence]. Qed.

Lemma resolved_grows b b' e : grows b b' → resolved b e → resolved b' e.
Proof.
  intros Hg [Hj|[Ho|(a & Ha & He)]]; [by left|right; left|right; right].
  - intros a Ha. eapply grows_ended; [done|by apply Ho].
  - exists a. split; [done|]. by eapply grows_ended.
Qed.

Lemma waiting_grows b b' x : grows b b' → waiting_ok b x → waiting_ok b' x.
Proof.
  intros Hg []. constructor; [|done|].
  - intros l inner Hs. destruct (wa_shape0 l inner Hs) as [?|Ha]; [by left|right]. intros a Hin. eapply awaits_grows; [done|by apply Ha].
  - intros i e Hi. destruct (wa_past0 i e Hi) as [?|?]; [left; by eapply resolved_grows|by right].
Qed.

Lemma fresh_waiting b k : waiting_ok b (fresh k).
Proof.
  constructor; simpl; [|by intros l i _ [= <- _]; left|done].
  intros l i [= <- _]. right. intros a Ha. by apply not_elem_of_nil in Ha.
Qed.

(** All that ran is resolved once the last promise is. *)
Lemma past_resolved b x l inner : waiting_ok b x → status_of x = Waiting l inner → ok_all b l ∨ fails b l → ∀ e, e ∈ past x → resolved b e.
Proof.
  intros [_ _ Hp] Hs Hl e He. apply list_elem_of_lookup in He as [i Hi]. destruct (Hp i e Hi) as [?|[_ [inner' Hs']]]; [done|].
  rewrite Hs in Hs'. injection Hs' as -> _. destruct Hl as [Ho|[Hj|Hf]]; [by right; left|by left|by right; right].
Qed.
Lemma past_resolved_not x b : waiting_ok b x → (∀ l inner, status_of x ≠ Waiting l inner) → ∀ e, e ∈ past x → resolved b e.
Proof.
  intros [_ _ Hp] Hs e He. apply list_elem_of_lookup in He as [i Hi]. destruct (Hp i e Hi) as [?|[_ [inner' Hs']]]; [done|].
  by destruct (Hs _ _ Hs').
Qed.

Lemma goto_waiting b b' x st s : grows b b' → waiting_ok b x → (∀ l inner, s = Waiting l inner → l = []) → (∀ e, e ∈ past x → resolved b e) →
  waiting_ok b' (Chain (kind_of x) st s (past x)).
Proof.
  intros Hg Hx Hs Hp. constructor; simpl.
  - intros l i ->. rewrite (Hs l i) by done. right. intros a Ha. by apply not_elem_of_nil in Ha.
  - intros l i _ ->. left. by eapply Hs.
  - intros i e Hi. left. eapply resolved_grows; [done|]. apply Hp. by apply list_elem_of_lookup_2 in Hi.
Qed.

(** What a callback waits for *)
Lemma perform_waits b c x st a h : chains b !! c = Some x →
  (∃ j, (perform a b).1 = [Job j]) ∨ ∀ w, w ∈ (perform a b).1 → awaits_service (call c x st a h b) w.
Proof.
  intros Hx. destruct (perform_chains a b) as (ks & Hk & [Hw|[_ Hj]]); [right|by left]. intros w Hin. rewrite Hw in Hin.
  apply list_elem_of_fmap in Hin as (n & -> & Hn). apply elem_of_seq in Hn as Hr.
  destruct (lookup_lt_is_Some_2 ks (n - length (chains b))) as [k Hkk]; [lia|].
  destruct (call_keeps c x st a h b n (fresh k) Hx) as (y' & Hy' & Ek).
  - rewrite Hk, lookup_app_r by lia. by rewrite list_lookup_fmap, Hkk.
  - exists n, y'. split_and!; [done..|]. rewrite Ek. apply (perform_kinds a b ks Hk). by apply list_elem_of_lookup_2 in Hkk.
Qed.

(** The callbacks of a service wait for one thing. *)
Lemma service_waits k a h st b : of_service k = true → Then a h :: st `suffix_of` stages_of k →
  (perform a b).1 = [] ∨ ∃ j, (perform a b).1 = [Job j].
Proof.
  intros Hk [pre Hpre]. assert (Then a h ∈ stages_of k) as H by (rewrite Hpre; apply elem_of_app; right; left).
  destruct k; try done; cbn in H; repeat (apply elem_of_cons in H as [H|H]; [simplify_eq; simpl; eauto|]); by apply not_elem_of_nil in H.
Qed.
Lemma service_no_catch k a st : of_service k = true → ¬ Catch a :: st `suffix_of` stages_of k.
Proof.
  intros Hk [pre Hpre]. assert (Catch a ∈ stages_of k) as H by (rewrite Hpre; apply elem_of_app; right; left).
  destruct k; try done; cbn in H; repeat (apply elem_of_cons in H as [H|H]; [done|]); by apply not_elem_of_nil in H.
Qed.

Lemma call_waiting b c x st a h : chains b !! c = Some x → waiting_ok b x → grows b (call c x st a h b) → (∀ e, e ∈ past x → resolved b e) →
  (of_service (kind_of x) = true → (perform a b).1 = [] ∨ ∃ j, (perform a b).1 = [Job j]) →
  waiting_ok (call c x st a h b) (Chain (kind_of x) st (Waiting (perform a b).1 h) (past x ++ [Ran a (services b) (perform a b).1])).
Proof.
  intros Hc Hx Hg Hp Hsv. constructor; simpl.
  - intros l i [= <- _]. destruct (perform_waits b c x st a h Hc) as [?|?]; [by left|by right].
  - intros l i Hk [= <- _]. by apply Hsv.
  - intros i e Hi. apply lookup_app_Some in Hi as [Hi|[Hl Hi]].
    + left. eapply resolved_grows; [done|]. apply Hp. by apply list_elem_of_lookup_2 in Hi.
    + right. rewrite length_app. simpl. assert (i = length (past x)) as ->.
      { apply lookup_lt_Some in Hi as Hlt. simpl in Hlt. lia. }
      rewrite Nat.sub_diag in Hi. injection Hi as <-. split; [lia|]. simpl. eauto.
Qed.

Lemma move_waiting c x b b' y : chains b !! c = Some x → shaped b x → waiting_ok b x → move c x b b' → chains b' !! c = Some y → waiting_ok b' y.
Proof.
  intros Hx Hsh Hw Hm. pose proof (move_grows c x b b' Hx Hm) as Hg. revert Hg.
  assert (∀ l inner, status_of x = Waiting l inner → ok_all b l ∨ fails b l → ∀ e, e ∈ past x → resolved b e) as Hp1
    by (intros; by eapply past_resolved).
  assert (status_of x = Failed → ∀ e, e ∈ past x → resolved b e) as Hp2 by (intros Hs; apply past_resolved_not; [done|congruence]).
  destruct Hm as [l g Hs Hf|l Hs Hf|j inner Hs|l inner Hs Hok Hr|l inner a st Hs Hok Hr|l inner a h st Hs Hok Hr|Hs Hr|a h st Hs Hr|a st Hs Hr]; intros Hg;
    rewrite ?goto_at, ?call_at by done; intros [= <-]; try (apply goto_waiting with b; eauto; by intros ? ? [= <- _]).
  - apply call_waiting; eauto. intros _. left. destruct (sh_inner b x Hsh l g Hs) as [ty ->]. done.
  - apply goto_waiting with b; [done..|by intros ? ? [= <- _]|]. apply (Hp1 _ _ Hs). right. left. eauto.
  - apply call_waiting; eauto. intros Hk. eapply service_waits; [done|]. rewrite <- Hr. apply Hsh.
  - apply call_waiting; eauto. intros Hk. destruct (service_no_catch (kind_of x) a st Hk). rewrite <- Hr. apply Hsh.
Qed.

Definition all_waiting (b : t) : Prop := ∀ c x, chains b !! c = Some x → waiting_ok b x.

Lemma waiting_step e b b' : apply e b = Some b' → chains_ok b → all_waiting b → all_waiting b'.
Proof.
  intros He Hok Hw c y Hy. pose proof (apply_grows e b b' He) as Hg.
  apply apply_cases in He as [[_ (ks & E & _)]|[_ (c' & x & Hx & Hm)]].
  - rewrite E in Hy. apply lookup_fresh in Hy as [Hy|(_ & k & -> & _)]; [|apply fresh_waiting]. eapply waiting_grows; [done|by eapply Hw].
  - destruct (decide (c' = c)) as [->|Hne].
    + exact (move_waiting _ _ _ _ _ Hx (proj1 (Hok _ _ Hx)) (Hw _ _ Hx) Hm Hy).
    + destruct (move_changes c' x b b' Hm) as (y' & ks & E & _). rewrite E, list_lookup_insert_ne in Hy by done.
      apply lookup_fresh in Hy as [Hy|(_ & k & -> & _)]; [|apply fresh_waiting]. eapply waiting_grows; [done|by eapply Hw].
Qed.

(** ** Stopping ends *)

(** Where a chain of [stop()] stands, by what is left of it *)
Record stop_ok (x : chain) : Prop := {
  so_reported : (length (rest x) ≤ 2)%nat → ReportStopped ∈ map what (past x);
  so_caught : length (rest x) = 3 → status_of x = Waiting [] None;
  so_end : rest x = [] → status_of x = Waiting [] None ∨ status_of x = Done true;
  so_services : (4 ≤ length (rest x) ≤ 11)%nat → status_of x ≠ Failed → StopServices ∈ map what (past x);
  so_disconnect j : map what (past x) !! j = Some DisconnectTransit → ∃ i, (i < j)%nat ∧ map what (past x) !! i = Some StopServices;
  so_done ok : status_of x = Done ok → rest x = []
}.

Lemma stop_rest b x : shaped b x → kind_of x = KStop → rest x = drop (15 - length (rest x)) (stages_of KStop).
Proof.
  intros [[pre Hpre] _ _] Hk. rewrite Hk in Hpre. assert (length pre + length (rest x) = 15)%nat as Hl
    by (apply (f_equal length) in Hpre; rewrite length_app in Hpre; simpl in Hpre; lia).
  rewrite Hpre. replace (15 - length (rest x))%nat with (length pre) by lia. by rewrite drop_app_length.
Qed.

(** The first of [n] callbacks that are left *)
Lemma stop_head b x s st : shaped b x → kind_of x = KStop → rest x = s :: st →
  stages_of KStop !! (14 - length st)%nat = Some s ∧ (length st ≤ 14)%nat.
Proof.
  intros Hsh Hk Hr. pose proof (stop_rest b x Hsh Hk) as E. rewrite Hr in E. simpl length in E.
  assert (length st ≤ 14)%nat by (destruct Hsh as [[pre Hpre] _ _]; rewrite Hk, Hr in Hpre; apply (f_equal length) in Hpre; rewrite length_app in Hpre; simpl in Hpre; lia).
  split; [|done]. rewrite <- (Nat.add_0_r (14 - length st)), <- lookup_drop. change (14 - length st)%nat with (15 - S (length st))%nat.
  by rewrite <- E.
Qed.

Lemma stop_then n a h : stages_of KStop !! n = Some (Then a h) →
  n ≠ 11 ∧ n ≠ 14 ∧ (n = 12 → a = ReportStopped) ∧ (n = 3 → a = StopServices) ∧ (a = DisconnectTransit → n = 4).
Proof. intros H. do 15 (destruct n as [|n]; [cbn in H; by simplify_eq|]). done. Qed.
Lemma stop_catch n a : stages_of KStop !! n = Some (Catch a) → (n = 11 ∨ n = 14) ∧ a = LogError.
Proof. intros H. do 15 (destruct n as [|n]; [cbn in H; simplify_eq; auto|]). done. Qed.

Lemma not_fails_nil b : ¬ fails b [].
Proof. intros [[j Hj]|(a & Ha & _)]; [done|by apply not_elem_of_nil in Ha]. Qed.

(** The parts of [stop_ok] about what ran: nothing, or one more callback *)
Lemma stop_past x st s p : stop_ok x → (length st ≤ length (rest x))%nat → (p = [] ∨ ∃ e, p = [e] ∧
    (what e = DisconnectTransit → StopServices ∈ map what (past x))) →
  (ReportStopped ∈ map what p ∨ ((length st ≤ 2)%nat → (length (rest x) ≤ 2)%nat)) →
  (StopServices ∈ map what p ∨ s = Failed ∨ ((4 ≤ length st ≤ 11)%nat → (length (rest x) ≤ 11)%nat ∧ status_of x ≠ Failed)) →
  let y := Chain (kind_of x) st s (past x ++ p) in
  ((length (rest y) ≤ 2)%nat → ReportStopped ∈ map what (past y)) ∧
  ((4 ≤ length (rest y) ≤ 11)%nat → status_of y ≠ Failed → StopServices ∈ map what (past y)) ∧
  (∀ j, map what (past y) !! j = Some DisconnectTransit → ∃ i, (i < j)%nat ∧ map what (past y) !! i = Some StopServices).
Proof.
  intros [Hrep _ _ Hsv Hdis _] Hle Hp H2 H11 y. simpl. rewrite map_app. split_and!.
  - intros Hl. apply elem_of_app. destruct H2 as [?|H2]; [by right|left]. auto.
  - intros Hl Hs. apply elem_of_app. destruct H11 as [?|[?|H11]]; [by right|done|left]. destruct (H11 Hl) as [Hl' Hs']. apply Hsv; [lia|done].
  - intros j [Hj|[Hlj Hj]]%lookup_app_Some.
    + destruct (Hdis j Hj) as (i & Hi & Hs). exists i. split; [done|]. by apply lookup_app_l_Some.
    + destruct Hp as [->|(e & -> & He)]; [done|]. apply lookup_lt_Some in Hj as Hlt. simpl in Hlt.
      replace (j - length (map what (past x)))%nat with 0 in Hj by lia. injection Hj as Hj. destruct (list_elem_of_lookup_1 _ _ (He Hj)) as [i Hi].
      exists i. split; [apply lookup_lt_Some in Hi; lia|by apply lookup_app_l_Some].
Qed.

Lemma move_stop c x b b' y : kind_of x = KStop → chains b !! c = Some x → shaped b x → stop_ok x → move c x b b' →
  chains b' !! c = Some y → stop_ok y.
Proof.
  intros Hk Hx Hsh Hx0 Hm. pose proof Hx0 as [Hrep Hcaught Hend Hsv Hdis Hdone].
  assert (∀ a h st, rest x = Then a h :: st → length st ≠ 3 ∧ st ≠ [] ∧ (length st = 2 → a = ReportStopped) ∧
    (length st = 11 → a = StopServices) ∧ (a = DisconnectTransit → length st = 10)) as Hthen.
  { intros a h st Hr. destruct (stop_head b x _ st Hsh Hk Hr) as [Hlk Hl]. apply stop_then in Hlk as (H1 & H2 & H3 & H4 & H5).
    split_and!; [lia| |intros E; apply H3; lia|intros E; apply H4; lia|intros E; specialize (H5 E); lia]. intros ->. simpl in H2. lia. }
  assert (∀ a st, rest x = Catch a :: st → (length st = 3 ∨ length st = 0) ∧ a = LogError) as Hcatch.
  { intros a st Hr. destruct (stop_head b x _ st Hsh Hk Hr) as [Hlk Hl]. apply stop_catch in Hlk as [Hn ->]. split; [lia|done]. }
  assert (∀ a h st b0, a ∈ map what (past x) → a ∈ map what (past x ++ [Ran b0 h st])) as Happ
    by (intros; rewrite map_app; apply elem_of_app; by left).
  assert (∀ st s, (length st ≤ length (rest x))%nat → ((length st ≤ 2)%nat → (length (rest x) ≤ 2)%nat) →
    (s = Failed ∨ ((4 ≤ length st ≤ 11)%nat → (length (rest x) ≤ 11)%nat ∧ status_of x ≠ Failed)) →
    (length st = 3 → s = Waiting [] None) → (st = [] → s = Waiting [] None ∨ s = Done true) → (∀ ok, s = Done ok → st = []) →
    stop_ok (Chain (kind_of x) st s (past x))) as Hgoto.
  { intros st s H1 H2 H3 H4 H5 H6. destruct (stop_past x st s [] Hx0 H1) as (P1 & P2 & P3); auto. rewrite app_nil_r in *. by constructor. }
  assert (∀ a st (l : list awaited) (sv : list nat) h, (length st ≤ length (rest x))%nat →
    ((length st ≤ 2)%nat → (length (rest x) ≤ 2)%nat ∨ a = ReportStopped) →
    ((4 ≤ length st ≤ 11)%nat → a = StopServices ∨ ((length (rest x) ≤ 11)%nat ∧ status_of x ≠ Failed)) →
    (a = DisconnectTransit → StopServices ∈ map what (past x)) →
    (length st = 3 → l = [] ∧ h = None) → (st = [] → l = [] ∧ h = None) →
    stop_ok (Chain (kind_of x) st (Waiting l h) (past x ++ [Ran a sv l]))) as Hcall.
  { intros a st l sv h H1 H2 H3 H4 H5 H6.
    assert (a ∈ map what (past x ++ [Ran a sv l])) as Ha by (rewrite map_app; apply elem_of_app; right; left).
    destruct (stop_past x st (Waiting l h) [Ran a sv l] Hx0 H1) as (P1 & P2 & P3).
    - right. eauto.
    - destruct (decide (a = ReportStopped)) as [->|]; [by left; left|right]. intros Hl. destruct (H2 Hl); [done|congruence].
    - destruct (decide (a = StopServices)) as [->|]; [by left; left|right; right]. intros Hl. destruct (H3 Hl); [congruence|done].
    - constructor; try done; simpl.
      + intros E. by destruct (H5 E) as [-> ->].
      + intros E. left. by destruct (H6 E) as [-> ->]. }
  destruct Hm as [l g Hs Hf|l Hs Hf|j inner Hs|l inner Hs Hok Hr|l inner a st Hs Hok Hr|l inner a h st Hs Hok Hr|Hs Hr|a h st Hs Hr|a st Hs Hr];
    rewrite ?goto_at, ?call_at by done; intros [= <-].
  - destruct (sh_inner b x Hsh l g Hs) as [ty ->]. apply Hcall; [lia|auto|intros [_ Hl]; right; split; [done|congruence]|done|intros E; apply Hcaught in E; congruence|].
    intros E. destruct (Hend E); congruence.
  - assert (l ≠ []) as Hl by (intros ->; by apply not_fails_nil in Hf).
    apply Hgoto; try done; [by left|intros E; apply Hcaught in E; congruence|]. intros E. destruct (Hend E); congruence.
  - apply Hgoto; try done; [right; intros [_ Hl]; split; [done|congruence]|by left].
  - apply Hgoto; try done; simpl; [lia|rewrite Hr; done| |by right]. right. lia.
  - destruct (Hcatch a st Hr) as ([Hl|Hl] & ->); apply Hgoto; try done; rewrite ?Hr; simpl; try lia; try (by left); right; lia.
  - destruct (Hthen a h st Hr) as (H3 & H0 & H2 & H11 & H10). apply Hcall; rewrite ?Hr; simpl; try lia; try done.
    + intros Hl. destruct (decide (length st = 2)) as [E|Hne]; [right; auto|left; lia].
    + intros Hl. destruct (decide (length st = 11)) as [E|Hne]; [left; auto|right; split; [lia|congruence]].
    + intros E. apply Hsv; [rewrite Hr; simpl; rewrite (H10 E); lia|congruence].
  - destruct (Hend Hr); congruence.
  - destruct (Hthen a h st Hr) as (H3 & H0 & H2 & _). apply Hgoto; rewrite ?Hr; simpl; try lia; try done; [|by left].
    intros Hl. destruct (decide (length st = 2)) as [E|Hne]; [|lia].
    assert (status_of x = Waiting [] None) by (apply Hcaught; rewrite Hr; simpl; lia). congruence.
  - destruct (Hcatch a st Hr) as (Hl & ->). apply Hcall; rewrite ?Hr; simpl; try done; lia.
Qed.

Lemma fresh_stop : stop_ok (fresh KStop).
Proof. constructor; simpl; intros; try lia; done. Qed.

Lemma stop_step e b b' : apply e b = Some b' → chains_ok b →
  (∀ c x, chains b !! c = Some x → kind_of x = KStop → stop_ok x) → ∀ c x, chains b' !! c = Some x → kind_of x = KStop → stop_ok x.
Proof.
  intros He Hok Hw c y Hy Hk. apply apply_cases in He as [[_ (ks & E & _)]|[_ (c' & x & Hx & Hm)]].
  - rewrite E in Hy. apply lookup_fresh in Hy as [Hy|(_ & k & -> & _)]; [by eapply Hw|]. simpl in Hk. subst. apply fresh_stop.
  - destruct (move_changes c' x b b' Hm) as (y' & ks & E & Ek & _). destruct (decide (c' = c)) as [->|Hne].
    + assert (y' = y) as -> by (rewrite E, list_lookup_insert_eq in Hy by (rewrite length_app; apply lookup_lt_Some in Hx; lia); congruence).
      rewrite Ek in Hk. exact (move_stop _ _ _ _ _ Hk Hx (proj1 (Hok _ _ Hx)) (Hw _ _ Hx Hk) Hm Hy).
    + rewrite E, list_lookup_insert_ne in Hy by done. apply lookup_fresh in Hy as [Hy|(_ & k & -> & _)]; [by eapply Hw|].
      simpl in Hk. subst. apply fresh_stop.
Qed.

(** *** What is left to do *)

Definition cost (x : chain) : nat :=
  3 * length (rest x) + match status_of x with Waiting [] _ => 1 | Waiting _ _ => 2 | Failed => 1 | Done _ => 0 end.

Lemma move_cost c x b b' y : chains b !! c = Some x → shaped b x → move c x b b' → chains b' !! c = Some y → (cost y < cost x)%nat.
Proof.
  intros Hx Hsh Hm.
  assert (∀ l inner, status_of x = Waiting l inner → fails b l → ∃ a l', l = a :: l') as Hne.
  { intros l inner _ Hf. destruct l as [|a l]; [by apply not_fails_nil in Hf|eauto]. }
  destruct Hm as [l g Hs Hf|l Hs Hf|j inner Hs|l inner Hs Hok Hr|l inner a st Hs Hok Hr|l inner a h st Hs Hok Hr|Hs Hr|a h st Hs Hr|a st Hs Hr];
    rewrite ?goto_at, ?call_at by done; intros [= <-]; unfold cost; simpl; rewrite Hs.
  - destruct (Hne l _ Hs Hf) as (a & l' & ->). destruct (sh_inner b x Hsh _ g Hs) as [ty ->]. simpl. lia.
  - destruct (Hne l _ Hs Hf) as (a & l' & ->). lia.
  - lia.
  - destruct l; lia.
  - rewrite Hr. simpl. destruct l; lia.
  - rewrite Hr. simpl. destruct l, (perform a b).1; lia.
  - lia.
  - rewrite Hr. simpl. lia.
  - rewrite Hr. simpl. destruct (perform a b).1; lia.
Qed.

(** The steps a chain needs at most: its own, and those of the chains it waits for *)
Definition awaited_cost (b : t) (a : awaited) : nat :=
  match a with ChainEnd k => match chains b !! k with Some y => cost y | None => 0 end | Job _ => 0 end.
Definition left_to_do (b : t) (c : nat) : nat * nat :=
  match chains b !! c with
  | Some x => (cost x, match status_of x with Waiting l _ => sum_list_with (awaited_cost b) l | _ => 0 end)
  | None => (0, 0)
  end.
Definition less (p q : nat * nat) : Prop := (p.1 < q.1)%nat ∨ (p.1 = q.1 ∧ (p.2 < q.2)%nat).

(** The steps of a chain and of those it waits for *)
Definition concerns (b : t) (c : nat) (e : event) : Prop :=
  match e with
  | Turn k | Settle k _ =>
      k = c ∨ ∃ x l inner, chains b !! c = Some x ∧ status_of x = Waiting l inner ∧ ChainEnd k ∈ l
  | _ => False
  end.

Lemma sum_same {A} (f g : A → nat) l : (∀ a, a ∈ l → f a = g a) → sum_list_with f l = sum_list_with g l.
Proof. induction l as [|a l IH]; intros H; [done|]. simpl. rewrite (H a) by left. rewrite IH; [done|]. intros a' Ha. apply H. by right. Qed.

Lemma sum_less {A} (f g : A → nat) l : (∀ a, a ∈ l → f a ≤ g a)%nat → (∃ a, a ∈ l ∧ f a < g a)%nat → (sum_list_with f l < sum_list_with g l)%nat.
Proof.
  induction l as [|a l IH]; intros Hle (a' & Ha & Hlt); [by apply not_elem_of_nil in Ha|]. simpl.
  pose proof (Hle a ltac:(left)). assert (∀ a', a' ∈ l → f a' ≤ g a')%nat as Hle' by (intros; apply Hle; by right).
  assert (sum_list_with f l ≤ sum_list_with g l)%nat as Hs.
  { clear -Hle'. induction l as [|x l IH]; [done|]. simpl. pose proof (Hle' x ltac:(left)).
    specialize (IH (λ a' Ha', Hle' a' (list_elem_of_further _ _ _ Ha'))). lia. }
  apply elem_of_cons in Ha as [->|Ha]; [lia|]. specialize (IH Hle' ltac:(eauto)). lia.
Qed.

(** Chains that a step leaves alone cost the same. *)
Lemma left_same b b' c x : chains b !! c = Some x → waiting_ok b x → chains b' !! c = Some x →
  (∀ l inner n y, status_of x = Waiting l inner → ChainEnd n ∈ l → chains b !! n = Some y → chains b' !! n = Some y) →
  left_to_do b' c = left_to_do b c.
Proof.
  intros Hx Hw Hx' Hn. unfold left_to_do. rewrite Hx, Hx'. f_equal. destruct (status_of x) as [l inner| |] eqn:Hs; [|done..].
  apply sum_same. intros a Ha. destruct (wa_shape b x Hw l inner Hs) as [[j ->]|Hall].
  - apply list_elem_of_singleton in Ha as ->. done.
  - destruct (Hall a Ha) as (n & y & -> & Hy & _). simpl. rewrite Hy. by rewrite (Hn l inner n y eq_refl Ha Hy).
Qed.

Lemma left_move k x b b' c y : chains b !! k = Some x → move k x b b' → shaped b x → chains b !! c = Some y → waiting_ok b y →
  (k = c ∨ (∃ l inner, status_of y = Waiting l inner ∧ ChainEnd k ∈ l) → less (left_to_do b' c) (left_to_do b c)) ∧
  (k ≠ c → (∀ l inner, status_of y = Waiting l inner → ChainEnd k ∉ l) → left_to_do b' c = left_to_do b c).
Proof.
  intros Hx Hm Hsh Hy Hw. destruct (move_changes k x b b' Hm) as (x' & ks & E & _).
  assert (chains b' !! k = Some x') as Hx' by (rewrite E; apply list_lookup_insert_eq; rewrite length_app; apply lookup_lt_Some in Hx; lia).
  pose proof (move_cost k x b b' x' Hx Hsh Hm Hx') as Hcost.
  assert (∀ n z, n ≠ k → chains b !! n = Some z → chains b' !! n = Some z) as Hother.
  { intros n z Hn Hz. rewrite E, list_lookup_insert_ne by done. by apply lookup_app_l_Some. }
  split.
  - intros Hc. destruct (decide (k = c)) as [->|Hne].
    + left. unfold left_to_do. rewrite Hx', Hx. simpl. done.
    + destruct Hc as [?|(l & inner & Hs & Hin)]; [done|]. right. unfold left_to_do. rewrite Hy, (Hother c y) by done. simpl. split; [done|].
      rewrite Hs. apply sum_less.
      * intros a Ha. destruct (wa_shape b y Hw l inner Hs) as [[j ->]|Hall]; [by apply list_elem_of_singleton in Ha as ->|].
        destruct (Hall a Ha) as (n & z & -> & Hz & _). simpl. rewrite Hz. destruct (decide (n = k)) as [->|Hnk].
        -- rewrite Hx'. simplify_eq. lia.
        -- rewrite (Hother n z) by done. lia.
      * exists (ChainEnd k). split; [done|]. simpl. by rewrite Hx, Hx'.
  - intros Hne Hnot. apply left_same with y; [done|done|by apply Hother|]. intros l inner n z Hs Hin Hz. apply Hother; [|done].
    intros ->. by destruct (Hnot l inner Hs).
Qed.

Lemma left_step e b b' c y : apply e b = Some b' → chains_ok b → all_waiting b → chains b !! c = Some y →
  (concerns b c e → less (left_to_do b' c) (left_to_do b c)) ∧ (¬ concerns b c e → left_to_do b' c = left_to_do b c).
Proof.
  intros He Hok Hw Hy.
  assert (∀ k x, chains b !! k = Some x → move k x b b' →
    (k = c ∨ (∃ x l inner, chains b !! c = Some x ∧ status_of x = Waiting l inner ∧ ChainEnd k ∈ l) → less (left_to_do b' c) (left_to_do b c)) ∧
    (¬ (k = c ∨ (∃ x l inner, chains b !! c = Some x ∧ status_of x = Waiting l inner ∧ ChainEnd k ∈ l)) → left_to_do b' c = left_to_do b c)) as Hmv.
  { intros k x Hx Hm. destruct (left_move k x b b' c y Hx Hm (proj1 (Hok k x Hx)) Hy (Hw c y Hy)) as [H1 H2]. split.
    - intros [->|(x' & l & inner & Hx' & Hs & Hin)]; apply H1; [by left|right]. simplify_eq. eauto.
    - intros Hno. apply H2; [naive_solver|]. intros l inner Hs Hin. apply Hno. right. eauto 10. }
  destruct (external e) eqn:Hext.
  - destruct (external_chains e b b' He Hext) as (ks & E & _). split; [by destruct e|]. intros _.
    apply left_same with y; [done|exact (Hw c y Hy)|rewrite E; by apply lookup_app_l_Some|]. intros l inner n z _ _ Hz. rewrite E. by apply lookup_app_l_Some.
  - destruct e; try done; simpl in He.
    + apply turn_move in He as (x & Hx & Hm). exact (Hmv _ x Hx Hm).
    + apply settle_move in He as (x & Hx & Hm). exact (Hmv _ x Hx Hm).
Qed.

(** A chain that has not ended can go on. *)
Lemma chain_turns b c x : chains b !! c = Some x → status_of x = Failed ∨ (∃ l inner, status_of x = Waiting l inner ∧
    (ok_all b l ∨ ∃ a, a ∈ l ∧ ended b a = Some false)) → ∃ b', turn c b = Some b'.
Proof.
  intros Hx Hs. unfold turn. rewrite Hx. simpl. destruct Hs as [->|(l & inner & -> & Hl)].
  - destruct (rest x) as [|[]]; eauto.
  - destruct (existsb (ended_with false b) l) eqn:He; [eauto|]. destruct Hl as [Ho|(a & Ha & Hf)].
    + assert (forallb (ended_with true b) l = true) as -> by (apply forallb_forall; intros a Ha%list_elem_of_In; by apply ended_with_spec, Ho).
      eauto.
    + exfalso. apply not_true_iff_false in He. apply He. apply existsb_exists. exists a. split; [by apply list_elem_of_In|by apply ended_with_spec].
Qed.

Lemma single_progress b c x : chains b !! c = Some x → (∀ ok, status_of x ≠ Done ok) →
  (∀ l inner, status_of x = Waiting l inner → l = [] ∨ ∃ j, l = [Job j]) → ∃ e b', (e = Turn c ∨ e = Settle c true) ∧ apply e b = Some b'.
Proof.
  intros Hx Hn Hl. destruct (status_of x) as [l inner| |ok] eqn:Hs; [|..|by destruct (Hn ok)].
  - destruct (Hl l inner eq_refl) as [->|[j ->]].
    + destruct (chain_turns b c x Hx) as [b' Hb']; [right; exists [], inner; split; [done|]; left; intros a Ha; by apply not_elem_of_nil in Ha|].
      exists (Turn c), b'. auto.
    + exists (Settle c true). eexists. split; [by right|]. simpl. unfold settle. rewrite Hx. simpl. by rewrite Hs.
  - destruct (chain_turns b c x Hx) as [b' Hb']; [by left|]. exists (Turn c), b'. auto.
Qed.

Lemma progress b c x : chains b !! c = Some x → all_waiting b → (∀ ok, status_of x ≠ Done ok) → ∃ e b', concerns b c e ∧ apply e b = Some b'.
Proof.
  intros Hx Hw Hn. destruct (status_of x) as [l inner| |ok] eqn:Hs; [|..|by destruct (Hn ok)].
  - destruct (wa_shape b x (Hw c x Hx) l inner Hs) as [[j ->]|Hall].
    + destruct (single_progress b c x Hx) as (e & b' & [->| ->] & He); [by rewrite Hs| |exists (Turn c), b'|exists (Settle c true), b']; [|by split; [left|]..].
      rewrite Hs. intros ? ? [= <- _]. eauto.
    + destruct (list_find (λ a, ended b a = None) l) as [[i a]|] eqn:Hf.
      * apply list_find_Some in Hf as (Hi & Ha & _). apply list_elem_of_lookup_2 in Hi. destruct (Hall a Hi) as (n & y & -> & Hy & Hk).
        simpl in Ha. rewrite Hy in Ha. destruct (single_progress b n y Hy) as (e & b' & He & Hap).
        -- intros ok Hok. by rewrite Hok in Ha.
        -- intros l' inner' Hs'. by eapply (wa_service b y (Hw n y Hy)).
        -- exists e, b'. split; [|done]. destruct He as [->| ->]; right; eauto 10.
      * destruct (chain_turns b c x Hx) as [b' Hb']; [|exists (Turn c), b'; split; [by left|done]]. right. exists l, inner. split; [done|].
        apply list_find_None in Hf. rewrite list.Forall_forall in Hf.
        destruct (existsb (ended_with false b) l) eqn:Hex; [right|left].
        -- apply existsb_exists in Hex as (a & Ha & Hex). exists a. split; [by apply list_elem_of_In|by apply ended_with_spec].
        -- intros a Ha. specialize (Hf a Ha). destruct (ended b a) as [[]|] eqn:He; [done| |done].
           exfalso. apply not_true_iff_false in Hex. apply Hex. apply existsb_exists. exists a. split; [by apply list_elem_of_In|by apply ended_with_spec].
  - destruct (chain_turns b c x Hx) as [b' Hb']; [by left|]. exists (Turn c), b'. split; [by left|done].
Qed.

(** ** Runs *)

Record reached (b : t) : Prop := {
  re_chains : chains_ok b;
  re_started : started_ok b;
  re_once : one_start b → once b;
  re_waiting : all_waiting b;
  re_stop c x : chains b !! c = Some x → kind_of x = KStop → stop_ok x
}.

Lemma create_reached o : reached (create o).
Proof. constructor; [intros c x Hx; by destruct c|done|intros _; apply create_once|intros c x Hx; by destruct c|intros c x Hx; by destruct c]. Qed.

Lemma reached_step e b b' : apply e b = Some b' → reached b → reached b'.
Proof.
  intros He []. pose proof (apply_grows e b b' He) as Hg.
  constructor; [by eapply chains_ok_step|by eapply started_step| |by eapply waiting_step|by eapply stop_step].
  intros Hone'. pose proof (one_start_grows b b' Hg Hone') as Hone.
  pose proof (apply_cases e b b' He) as [[Hext _]|[_ (c & x & Hx & Hm)]].
  - eapply once_external; eauto.
  - eapply once_move; eauto. apply (re_chains0 c x Hx).
Qed.

Lemma run_reached es b b' : run es b = Some b' → reached b → reached b'.
Proof.
  revert b. induction es as [|e es IH]; intros b; simpl; [by intros [= ->]|]. destruct (apply e b) as [b1|] eqn:He; [|done].
  simpl. intros Hr Hb. apply (IH b1 Hr). by eapply reached_step.
Qed.

(** ** The theorems *)

(** C7. In any run, with any outcomes of hooks and handlers in any order, a broker says
    that it has started only when a [start()] ran the starting hooks, then connected the
    transit, then began to start all services it had at that time, and all of
    these have prepared, registered and announced themselves without an error.  If
    [start()] was called once, no service is ever started twice, and while the broker
    starts its services or has started them each of them, later ones included, is
    started exactly once. *)
Theorem broker_starts o es b :
  run es (create o) = Some b →
  (started b = true → ∃ c x e,
     chains b !! c = Some x ∧ kind_of x = KStart ∧
     take 4 (map what (past x)) = [StartingHooks; ConnectTransit; StartServices; SetStarted] ∧
     past x !! 2 = Some e ∧
     ∀ s, s ∈ at_services e → ∃ k y, chains b !! k = Some y ∧ kind_of y = KSvcStart s ∧ status_of y = Done true ∧
       map what (past y) = [PrepareService s; RegisterService s; AnnounceService s]) ∧
  (one_start b →
     (∀ s, (begins s (log b) ≤ 1)%nat) ∧
     (started b || servicesStarting b = true → ∀ s, s ∈ services b → begins s (log b) = 1)).
Proof.
  intros Hr. destruct (run_reached es _ _ Hr (create_reached o)) as [Hok Hst Hon _ _]. split.
  - intros Hs. destruct (Hst Hs) as (c & x & Hx & Hk & Hl). destruct (Hok c x Hx) as [Hsh Hfw]. rewrite Hk in Hfw. specialize (Hfw eq_refl).
    destruct Hfw as [Ha Hg _]. rewrite Hk in Ha.
    destruct (lookup_lt_is_Some_2 (past x) 2) as [e He]; [lia|]. exists c, x, e. split_and!; [done..| |done|].
    + rewrite Ha, take_take. by replace (4 `min` length (past x))%nat with 4 by lia.
    + intros s Hsv. assert (what e = StartServices) as Hw.
      { assert (map what (past x) !! 2 = Some (what e)) as E by (by rewrite list_lookup_fmap, He).
        rewrite Ha, lookup_take_lt in E by lia. cbn in E. congruence. }
      pose proof (sh_services b x Hsh e KSvcStart ltac:(by eapply list_elem_of_lookup_2) (or_introl (conj Hw eq_refl))) as HF.
      apply list_elem_of_lookup in Hsv as [i Hi]. destruct (Forall2_lookup_l _ _ _ _ _ HF Hi) as (a & Ha' & k & y & -> & Hy & Hky).
      exists k, y. assert (status_of y = Done true) as Hd.
      { assert (ended b (ChainEnd k) = Some true) as E by (apply (Hg 2%nat e He); [lia|by eapply list_elem_of_lookup_2]).
        simpl in E. rewrite Hy in E. destruct (status_of y); congruence. }
      split_and!; [done..|]. destruct (Hok k y Hy) as [_ Hfy]. rewrite Hky in Hfy. destruct (Hfy eq_refl) as [Hay _ Hsy].
      rewrite Hd, Hky in Hsy. destruct Hsy as [El _]. rewrite Hay, Hky, El. done.
  - intros Hone. destruct (Hon Hone). split; auto.
Qed.

(** A broker with one service starts. *)
Definition plain_options : options := Options false false false false.
Definition to_services : list event := [Create; CallStart; Turn 0; Settle 0 true; Turn 0; Turn 0].
Definition service_starts (c : nat) : list event := [Turn c; Settle c true; Turn c; Turn c; Settle c true; Turn c].
Definition started_run : list event := to_services ++ service_starts 1 ++ [Turn 0].

Lemma broker_starts_witness :
  ∃ b, run started_run (create plain_options) = Some b ∧ started b = true ∧ begins 0 (log b) = 1 ∧
    ∃ k y, chains b !! k = Some y ∧ kind_of y = KSvcStart 0 ∧ status_of y = Done true.
Proof.
  destruct (run started_run (create plain_options)) as [b|] eqn:Hr; [|vm_compute in Hr; discriminate].
  destruct (broker_starts plain_options started_run b Hr) as [H1 H2]. vm_compute in Hr. injection Hr as <-.
  eexists. split; [reflexivity|]. split; [reflexivity|]. split.
  - destruct H2 as [_ H2]; [|apply H2; [reflexivity|left]].
    intros [|[|[|]]] [|[|[|]]] x x' Hx Hx' Hk Hk'; cbn in Hx, Hx'; simplify_eq; done.
  - destruct (H1 eq_refl) as (c & x & e & Hx & Hk & _ & He & Hs).
    destruct c as [|[|[|]]]; cbn in Hx; simplify_eq. cbn in He. injection He as <-.
    destruct (Hs 0 ltac:(left)) as (k & y & Hy & Hky & Hd & _). eauto.
Defined.

(** C35. Stopping always ends, whatever fails.  As long as a [stop()] has not ended, it or a service
    that it waits for can go on, each such step leaves less to do, no other step leaves
    more, so it ends when all hooks and handlers do; its promise is then resolved and the end was
    reported.  The transit is disconnected only after the services that the broker had were told to
    stop, and each of them has stopped or one has failed. *)
Theorem broker_stops o es b c x :
  run es (create o) = Some b → chains b !! c = Some x → kind_of x = KStop →
  ((∀ ok, status_of x ≠ Done ok) → ∃ e b', concerns b c e ∧ apply e b = Some b') ∧
  (∀ e b', apply e b = Some b' →
     (concerns b c e → less (left_to_do b' c) (left_to_do b c)) ∧ (¬ concerns b c e → left_to_do b' c = left_to_do b c)) ∧
  (∀ ok, status_of x = Done ok → ok = true ∧ ReportStopped ∈ map what (past x)) ∧
  (DisconnectTransit ∈ map what (past x) → ∃ e, e ∈ past x ∧ what e = StopServices ∧
     Forall2 (begun b KSvcStop) (at_services e) (waits e) ∧
     ((∀ a, a ∈ waits e → ended b a = Some true) ∨ ∃ a, a ∈ waits e ∧ ended b a = Some false)).
Proof.
  intros Hr Hx Hk. destruct (run_reached es _ _ Hr (create_reached o)) as [Hok _ _ Hw Hso].
  destruct (Hso c x Hx Hk) as [Hrep _ Hend _ Hdis Hdone]. split_and!.
  - by apply progress.
  - intros e b' He. by eapply left_step.
  - intros ok Hd. pose proof (Hdone ok Hd) as Hr0. destruct (Hend Hr0) as [E|E]; rewrite E in Hd; simplify_eq.
    split; [done|]. apply Hrep. rewrite Hr0. simpl. lia.
  - intros Hin. apply list_elem_of_lookup in Hin as [j Hj]. destruct (Hdis j Hj) as (i & Hij & Hi).
    rewrite list_lookup_fmap in Hi. apply fmap_Some in Hi as (e & He & Hwhat). apply list_elem_of_lookup_2 in He as Hin.
    pose proof (sh_services b x (proj1 (Hok c x Hx)) e KSvcStop Hin (or_intror (conj (eq_sym Hwhat) eq_refl))) as HF.
    exists e. split_and!; [done|congruence|done|]. destruct (wa_past b x (Hw c x Hx) i e He) as [[[j' Ej]|[Ho|Hf]]|[Hl _]]; [|by left|by right|].
    + rewrite Ej in HF. apply Forall2_cons_inv_r in HF as (s & l' & (k & y & ? & _) & _). done.
    + apply lookup_lt_Some in Hj. rewrite length_map in Hj. lia.
Qed.

(** A broker whose only service fails to stop still reaches the end. *)
Definition stopping_run : list event :=
  [Create; CallStop; Turn 0; Turn 0; Settle 0 true; Turn 0; Settle 0 true; Turn 0; Turn 1; Settle 1 false; Turn 1; Turn 0].

Lemma broker_stops_witness :
  ∃ b x, run stopping_run (create plain_options) = Some b ∧ chains b !! 0%nat = Some x ∧
    (∃ e b', concerns b 0 e ∧ apply e b = Some b') ∧ log b = [Began StopDelay; Began (Hooks "stopping"); BeginStop 0; Began (SvcStop 0);
      BrokerError FAILED_STOPPING_SERVICES].
Proof.
  destruct (run stopping_run (create plain_options)) as [b|] eqn:Hr; [|vm_compute in Hr; discriminate].
  destruct (chains b !! 0%nat) as [x|] eqn:Hx; [|vm_compute in Hr; injection Hr as <-; vm_compute in Hx; discriminate].
  exists b, x. split; [reflexivity|]. split; [exact Hx|].
  assert (kind_of x = KStop ∧ (∀ ok, status_of x ≠ Done ok)) as [Hk Hn].
  { vm_compute in Hr. injection Hr as <-. vm_compute in Hx. injection Hx as <-. split; [reflexivity|discriminate]. }
  destruct (broker_stops plain_options stopping_run b 0 x Hr Hx Hk) as [H _]. split; [exact (H Hn)|].
  vm_compute in Hr. injection Hr as <-. reflexivity.
Defined.

(** ** Races *)

Definition after (es : list event) (o : options) (P : t → Prop) : Prop := match run es (create o) with Some b => P b | None => False end.
Definition service_destroyed (c d s : nat) : list event := [Destroy s; Turn c; Turn d; Settle d true; Turn d; Turn c; Turn c].

(** A service that is destroyed while it waits in [_start()] is registered afterwards: other nodes
    call a service that the broker has forgotten. *)
Lemma destroyed_service_registered :
  after (to_services ++ [Turn 1] ++ service_destroyed 2 3 0 ++ [Settle 1 true; Turn 1]) plain_options
    (λ b, services b = [] ∧ registered b = [0]).
Proof. vm_compute. by split. Qed.

(** If [stop()] is called while services start, the broker counts as started after it has stopped. *)
Lemma stopped_broker_started :
  after (to_services ++ [CallStop] ++ service_starts 1 ++ [Turn 0]) plain_options (λ b, started b = true ∧ length (chains b) = 3).
Proof. vm_compute. by split. Qed.

(** If a service cannot start, [start()] fails, but the broker goes on starting new services at once. *)
Lemma failed_start_starts_services :
  after (to_services ++ [Turn 1; Settle 1 false; Turn 1; Turn 1; Turn 1; Turn 0; Turn 0; Turn 0; Turn 0; Turn 0; Turn 0; Create]) plain_options
    (λ b, started b = false ∧ (status_of <$> chains b !! 0) = Some (Done false) ∧ servicesStarting b = true ∧ begins 1 (log b) = 1).
Proof. vm_compute. by split_and!. Qed.

(** A middleware whose [stopping] hook fails keeps [stop()] from stopping the services and from
    disconnecting, but the end is reported. *)
Lemma failed_hook_skips_stop :
  after ([Create; CallStop; Turn 0; Settle 0 true; Turn 0; Settle 0 true; Turn 0; Settle 0 false] ++ repeat (Turn 0) 11)
    (Options true false false false)
    (λ b, (map what ∘ past <$> chains b !! 0) = Some [Goodbye; WaitDelay; SetStopping; LogError; ReportStopped; StopLogs] ∧
       BeginStop 0 ∉ log b).
Proof.
  vm_compute. split; [done|]. intros H. repeat (apply elem_of_cons in H as [H|H]; [done|]). by apply not_elem_of_nil in H.
Qed.
