(* ===== verification/Connection.v ===== *)
(** * Connecting the transit

    Models [connect], [afterConnect], [makeSubscriptions], [publish], [ready] and
    [disconnect] of [src/transit.js] with [onConnected] of [src/transporters/base.js] and
    the heartbeat timers of [src/registry/discoverers/base.js].  The client of the
    transporter, the subscriptions and what the discoverer sends are the outside: they
    are settled in any order.  A transporter whose [connect()] passes on the rejection of
    [onConnected()] is one with [propagates]; those of MQTT and Redis do not.  The discoverer
    hears of [disconnect()] by the event [$transporter.disconnected], upon which it stops its
    timers; its own [stop()] is called by the registry, when the broker stops. *)

From Stdlib Require Import ZArith Lia Bool.
From stdpp Require Import base tactics list strings option.
From S2P Require Import Prelude.

Module Connection.

Record options := Options {
  disableReconnect : bool;
  heartbeatInterval : Z;              (* of the discoverer; [0] disables it *)
  propagates : bool
}.

(** One call of [doConnect()] *)
Record attempt := Attempt { reconnectStarted : bool; settled : bool }.

(** What an [afterConnect()] waits for *)
Inductive stage := Subscribing | SendingInfo | Discovering | Delay | Over (ok : bool).
Record chain := Chain { owner : nat; wasReconnect : bool; at_stage : stage }.

(** What a [disconnect()] waits for *)
Inductive leaving := SayingGoodbye | Closing | Left (ok : bool).

(** What is seen from outside, in order; packets are numbered. *)
Inductive output :=
| TxConnect                           (* [tx.connect(errorHandler)] *)
| MakeSubscriptions (c : nat) | SendLocalNodeInfo (c : nat) | DiscoverAllNodes (c : nat)
| Connected (c : nat)                 (* [$transporter.connected] *)
| Disconnected                        (* [$transporter.disconnected] *)
| Started                             (* the promise of [connect()] is resolved *)
| Sent (p : nat) | Refused (p : nat)  (* [tx.prepublish(packet)], or its rejection *)
| LocalNodeDisconnected | TxDisconnect.

Record t := State {
  opts : options;
  connected : bool;
  isReady : bool;
  disconnecting : bool;
  connectResolve : bool;              (* [__connectResolve] is a function *)
  tx_connected : bool;                (* [tx.connected] *)
  subscribing : option nat;           (* the promise of the subscriptions of that chain *)
  waiting : list (nat * nat);         (* packets that wait for subscriptions *)
  attempts : list attempt;
  retries : nat;                      (* reconnect timers that run *)
  chains : list chain;
  leavings : list leaving;
  beating : bool;                     (* the heartbeat timers run *)
  log : list output
}.

Definition create (o : options) : t := State o false false false false false None [] [] 0 [] [] false [].

(** ** Assigning *)

Definition set_connected (c r : bool) (d : t) : t :=
  State (opts d) c r (disconnecting d) (connectResolve d) (tx_connected d) (subscribing d) (waiting d) (attempts d) (retries d) (chains d) (leavings d) (beating d) (log d).
Definition set_disconnecting (x : bool) (d : t) : t :=
  State (opts d) (connected d) (isReady d) x (connectResolve d) (tx_connected d) (subscribing d) (waiting d) (attempts d) (retries d) (chains d) (leavings d) (beating d) (log d).
Definition set_connectResolve (x : bool) (d : t) : t :=
  State (opts d) (connected d) (isReady d) (disconnecting d) x (tx_connected d) (subscribing d) (waiting d) (attempts d) (retries d) (chains d) (leavings d) (beating d) (log d).
Definition set_tx (x : bool) (d : t) : t :=
  State (opts d) (connected d) (isReady d) (disconnecting d) (connectResolve d) x (subscribing d) (waiting d) (attempts d) (retries d) (chains d) (leavings d) (beating d) (log d).
Definition set_subscribing (x : option nat) (w : list (nat * nat)) (d : t) : t :=
  State (opts d) (connected d) (isReady d) (disconnecting d) (connectResolve d) (tx_connected d) x w (attempts d) (retries d) (chains d) (leavings d) (beating d) (log d).
Definition set_attempts (x : list attempt) (r : nat) (d : t) : t :=
  State (opts d) (connected d) (isReady d) (disconnecting d) (connectResolve d) (tx_connected d) (subscribing d) (waiting d) x r (chains d) (leavings d) (beating d) (log d).
Definition set_chains (x : list chain) (d : t) : t :=
  State (opts d) (connected d) (isReady d) (disconnecting d) (connectResolve d) (tx_connected d) (subscribing d) (waiting d) (attempts d) (retries d) x (leavings d) (beating d) (log d).
Definition set_leavings (x : list leaving) (d : t) : t :=
  State (opts d) (connected d) (isReady d) (disconnecting d) (connectResolve d) (tx_connected d) (subscribing d) (waiting d) (attempts d) (retries d) (chains d) x (beating d) (log d).
Definition set_beating (x : bool) (d : t) : t :=
  State (opts d) (connected d) (isReady d) (disconnecting d) (connectResolve d) (tx_connected d) (subscribing d) (waiting d) (attempts d) (retries d) (chains d) (leavings d) x (log d).
Definition tell (o : output) (d : t) : t :=
  State (opts d) (connected d) (isReady d) (disconnecting d) (connectResolve d) (tx_connected d) (subscribing d) (waiting d) (attempts d) (retries d) (chains d) (leavings d) (beating d) (log d ++ [o]).

(** ** The discoverer's timers *)

(** [stopHeartbeatTimers()] *)
Definition stopHeartbeatTimers (d : t) : t := set_beating false d.

(** [startHeartbeatTimers()] *)
Definition startHeartbeatTimers (d : t) : t :=
  let d := stopHeartbeatTimers d in
  if (0 <? heartbeatInterval (opts d))%Z then set_beating true d else d.

(** ** [connect()] *)

(** [doConnect()] *)
Definition doConnect (d : t) : t := tell TxConnect (set_attempts (attempts d ++ [Attempt false false]) (retries d) d).

Definition connect (d : t) : t := doConnect (set_connectResolve true d).

(** [errorHandler] of attempt [k] *)
Definition errorHandler (k : nat) (d : t) : t :=
  if disconnecting d then d
  else match attempts d !! k with
       | Some (Attempt false s) =>
           if disableReconnect (opts d) then d
           else set_attempts (<[k := Attempt true s]> (attempts d)) (S (retries d)) d
       | _ => d
       end.

(** The promise of [tx.connect()] is settled. *)
Definition settle_connect (k : nat) (ok : bool) (d : t) : t :=
  match attempts d !! k with
  | Some (Attempt r false) =>
      let d := set_attempts (<[k := Attempt r true]> (attempts d)) (retries d) d in
      if ok then d else errorHandler k d
  | _ => d
  end.

(** ** Publishing *)

(** [publish(packet)] *)
Definition publish (p : nat) (d : t) : t :=
  match subscribing d with
  | None => tell (Sent p) d
  | Some c =>
      match at_stage <$> chains d !! c with
      | Some (Over false) => tell (Refused p) d
      | _ => set_subscribing (subscribing d) (waiting d ++ [(c, p)]) d
      end
  end.

(** What waited for the subscriptions of [c] *)
Definition flush (c : nat) (ok : bool) (d : t) : t :=
  let mine := Arr.filter (λ e, Nat.eqb e.1 c) (waiting d) in
  let others := Arr.filter (λ e, negb (Nat.eqb e.1 c)) (waiting d) in
  foldl (λ d e, tell (if ok then Sent e.2 else Refused e.2) d) (set_subscribing (subscribing d) others d) mine.

(** ** [afterConnect(wasReconnect)] *)

Definition goto (c : nat) (s : stage) (d : t) : t :=
  match chains d !! c with
  | Some x => set_chains (<[c := Chain (owner x) (wasReconnect x) s]> (chains d)) d
  | None => d
  end.

(** [onConnected(wasReconnect)] of the transporter, called by the client of attempt [k] *)
Definition onConnected (k : nat) (w : bool) (d : t) : t :=
  let c := length (chains d) in
  let d := set_tx true d in
  if w then tell (SendLocalNodeInfo c) (set_chains (chains d ++ [Chain k w SendingInfo]) d)
  else tell (MakeSubscriptions c) (set_subscribing (Some c) (waiting d) (set_chains (chains d ++ [Chain k w Subscribing]) d)).

(** The last callback of [afterConnect] *)
Definition announce (c : nat) (d : t) : t :=
  let d := startHeartbeatTimers (tell (Connected c) (set_connected true (isReady d) d)) in
  if connectResolve d then tell Started (set_connectResolve false (set_connected (connected d) true d)) else d.

(** What chain [c] waits for is settled, or its delay is over. *)
Definition settle_chain (c : nat) (ok : bool) (d : t) : option t :=
  x ← chains d !! c;
  let fail d :=
    let d := goto c (Over false) d in
    if propagates (opts d) then settle_connect (owner x) false d else d in
  match at_stage x, ok with
  | Subscribing, true => Some (tell (DiscoverAllNodes c) (goto c Discovering (flush c true (set_subscribing None (waiting d) d))))
  | Subscribing, false => Some (fail (flush c false d))
  | SendingInfo, true => Some (tell (DiscoverAllNodes c) (goto c Discovering d))
  | Discovering, true => Some (goto c Delay d)
  | SendingInfo, false | Discovering, false => Some (fail d)
  | Delay, _ => Some (settle_connect (owner x) true (goto c (Over true) (announce c d)))
  | Over _, _ => None
  end.

(** ** [disconnect()] *)

Definition close (i : nat) (d : t) : t := tell TxDisconnect (set_leavings (<[i := Closing]> (leavings d)) d).

Definition disconnect (d : t) : t :=
  let d := stopHeartbeatTimers (tell Disconnected (set_disconnecting true (set_connected false false d))) in
  let i := length (leavings d) in
  let d := set_leavings (leavings d ++ [SayingGoodbye]) d in
  if tx_connected d then tell LocalNodeDisconnected d else close i d.

(** What a [disconnect()] waits for is settled. *)
Definition settle_leaving (i : nat) (ok : bool) (d : t) : option t :=
  x ← leavings d !! i;
  match x, ok with
  | SayingGoodbye, true => Some (close i d)
  | Closing, true => Some (set_disconnecting false (set_leavings (<[i := Left true]> (leavings d)) d))
  | Left _, _ => None
  | _, false => Some (set_leavings (<[i := Left false]> (leavings d)) d)
  end.

(** ** Runs *)

Inductive event :=
| Connect | Disconnect
| Publish (p : nat)
| Online (k : nat) (w : bool)         (* the client of attempt [k] calls [onConnected(w)] *)
| Failed (k : nat)                    (* [tx.connect()] is rejected *)
| ErrorCallback (k : nat)             (* the client calls [errorHandler] *)
| Lost                                (* the connection is lost: [tx.connected = false] *)
| RetryTimer
| SettleChain (c : nat) (ok : bool)
| SettleLeaving (i : nat) (ok : bool).

Definition apply (e : event) (d : t) : option t :=
  match e with
  | Connect => Some (connect d)
  | Disconnect => Some (disconnect d)
  | Publish p => Some (publish p d)
  | Online k w => if (k <? length (attempts d))%nat then Some (onConnected k w d) else None
  | Failed k => if (k <? length (attempts d))%nat then Some (settle_connect k false d) else None
  | ErrorCallback k => if (k <? length (attempts d))%nat then Some (errorHandler k d) else None
  | Lost => Some (set_tx false d)
  | RetryTimer => match retries d with S n => Some (doConnect (set_attempts (attempts d) n d)) | O => None end
  | SettleChain c ok => settle_chain c ok d
  | SettleLeaving i ok => settle_leaving i ok d
  end.

Fixpoint run (es : list event) (d : t) : option t :=
  match es with
  | [] => Some d
  | e :: es => d ← apply e d; run es d
  end.

End Connection.
