(* ===== verification/ConnectionTheorems.v ===== *)
(** * What connecting the transit promises

    The start of a broker is never stuck in connecting ([connect_never_stuck]), a node is
    announced as connected only after it subscribed and asked for the other nodes
    ([connected_in_order]), and no packet is lost while subscriptions are made
    ([publish_once]).  Disconnecting does not end all that was begun ([retry_after_disconnect],
    [connected_after_disconnect]). *)

From Stdlib Require Import ZArith Lia Bool.
From stdpp Require Import base tactics list strings option.
From S2P Require Import Prelude Connection.

Import Connection.

(** ** Steps that keep fields *)

Lemma goto_chains c s d x : chains d !! c = Some x →
  chains (goto c s d) = <[c := Chain (owner x) (wasReconnect x) s]> (chains d).
Proof. intros Hx. unfold goto. by rewrite Hx. Qed.

Lemma flush_fields c ok d : let d' := flush c ok d in
  opts d' = opts d ∧ connected d' = connected d ∧ disconnecting d' = disconnecting d ∧ connectResolve d' = connectResolve d ∧
  subscribing d' = subscribing d ∧ attempts d' = attempts d ∧ retries d' = retries d ∧ chains d' = chains d ∧ beating d' = beating d ∧
  waiting d' = Arr.filter (λ e, negb (Nat.eqb e.1 c)) (waiting d) ∧
  log d' = log d ++ map (λ e, if ok then Sent e.2 else Refused e.2) (Arr.filter (λ e, Nat.eqb e.1 c) (waiting d)).
Proof.
  unfold flush. set (d0 := set_subscribing _ _ d). set (l := Arr.filter _ (waiting d)).
  assert (∀ l d0, let d' := foldl (λ d e, tell (if ok then Sent e.2 else Refused e.2) d) d0 l in
    opts d' = opts d0 ∧ connected d' = connected d0 ∧ disconnecting d' = disconnecting d0 ∧ connectResolve d' = connectResolve d0 ∧
    subscribing d' = subscribing d0 ∧ attempts d' = attempts d0 ∧ retries d' = retries d0 ∧ chains d' = chains d0 ∧
    beating d' = beating d0 ∧ waiting d' = waiting d0 ∧
    log d' = log d0 ++ map (λ e : nat * nat, if ok then Sent e.2 else Refused e.2) l) as Hl; [|apply (Hl l d0)].
  clear. induction l as [|e l IH]; intros d; simpl; [by rewrite app_nil_r|].
  destruct (IH (tell (if ok then Sent e.2 else Refused e.2) d)) as (-> & -> & -> & -> & -> & -> & -> & -> & -> & -> & ->).
  split_and!; try done. simpl. by rewrite <- app_assoc.
Qed.

Lemma errorHandler_fields k d : let d' := errorHandler k d in
  opts d' = opts d ∧ connected d' = connected d ∧ disconnecting d' = disconnecting d ∧ connectResolve d' = connectResolve d ∧
  subscribing d' = subscribing d ∧ chains d' = chains d ∧ beating d' = beating d ∧ waiting d' = waiting d ∧ log d' = log d ∧
  length (attempts d') = length (attempts d).
Proof.
  unfold errorHandler. destruct (disconnecting d) eqn:Hd; [by split_and!|].
  destruct (attempts d !! k) as [[[] s]|]; try by split_and!. destruct (disableReconnect _); [by split_and!|].
  simpl. rewrite length_insert. by split_and!.
Qed.

Lemma settle_connect_fields k ok d : let d' := settle_connect k ok d in
  opts d' = opts d ∧ connected d' = connected d ∧ disconnecting d' = disconnecting d ∧ connectResolve d' = connectResolve d ∧
  subscribing d' = subscribing d ∧ chains d' = chains d ∧ beating d' = beating d ∧ waiting d' = waiting d ∧ log d' = log d ∧
  length (attempts d') = length (attempts d).
Proof.
  unfold settle_connect. destruct (attempts d !! k) as [[r []]|]; try by split_and!. destruct ok.
  - simpl. rewrite length_insert. by split_and!.
  - set (d0 := set_attempts _ _ d).
    destruct (errorHandler_fields k d0) as (-> & -> & -> & -> & -> & -> & -> & -> & -> & ->).
    simpl. rewrite length_insert. by split_and!.
Qed.

(** ** Connecting goes on *)

(** Chain [c] still runs. *)
Definition running (x : chain) : bool := match at_stage x with Over _ => false | _ => true end.

(** What holds as long as nobody disconnects, with a transporter that passes rejections on *)
Record going (d : t) : Prop := {
  go_enabled : disableReconnect (opts d) = false ∧ propagates (opts d) = true;
  go_staying : disconnecting d = false;
  (* a chain that is over has settled its attempt *)
  go_over c x : chains d !! c = Some x → ∃ r s, attempts d !! owner x = Some (Attempt r s) ∧ (running x = false → s = true);
  (* [start()] waits for some attempt that has not failed, or a retry *)
  go_on : connectResolve d = true → ∃ n,
    (∀ k r, (n ≤ k)%nat → attempts d !! k = Some (Attempt r true) → r = true) ∧
    ((0 < retries d)%nat ∨ ∃ k s, (n ≤ k)%nat ∧ attempts d !! k = Some (Attempt false s))
}.

Lemma going_create o : disableReconnect o = false → propagates o = true → going (create o).
Proof. by constructor. Qed.

Lemma going_doConnect d : going d → going (doConnect d).
Proof.
  intros [He Hs Ho Hg]. constructor; [done|done| |]; simpl.
  - intros c x Hx. destruct (Ho c x Hx) as (r & s & Ha & Hr). exists r, s. split; [by apply lookup_app_l_Some|done].
  - intros Hc. destruct (Hg Hc) as (n & H1 & H2). exists (min n (length (attempts d))). split.
    + intros k r Hk Ha. apply lookup_app_Some in Ha as [Ha|[Hk' Ha]].
      * apply (H1 k); [|done]. apply lookup_lt_Some in Ha. lia.
      * destruct (k - length (attempts d))%nat; simpl in Ha; [|done]. by simplify_eq.
    + right. exists (length (attempts d)), false. split; [lia|]. by rewrite lookup_app_r, Nat.sub_diag by lia.
Qed.

(** Steps that touch nothing of what [going] speaks of *)
Lemma going_same d d' :
  opts d' = opts d → disconnecting d' = disconnecting d → connectResolve d' = connectResolve d →
  attempts d' = attempts d → retries d' = retries d → chains d' = chains d → going d → going d'.
Proof. intros E1 E2 E3 E4 E5 E6 [H1 H2 H3 H4]. constructor; rewrite ?E1, ?E2, ?E3, ?E4, ?E5, ?E6; done. Qed.

(** A chain moves on without being over. *)
Lemma going_goto c s d : going d → running (Chain 0 false s) = true → going (goto c s d).
Proof.
  intros Hg Hs. unfold goto. destruct (chains d !! c) as [x|] eqn:Hx; [|done].
  destruct Hg as [H1 H2 H3 H4]. constructor; try done. simpl. intros c' x' Hx'.
  destruct (decide (c' = c)) as [->|Hc].
  - rewrite list_lookup_insert_eq in Hx' by (by eapply lookup_lt_Some). injection Hx' as <-.
    destruct (H3 c x Hx) as (r & s' & Ha & _). exists r, s'. split; [done|]. unfold running in *. simpl in *. by rewrite Hs.
  - rewrite list_lookup_insert_ne in Hx' by done. by eapply H3.
Qed.

Lemma going_error k d : going d → going (errorHandler k d).
Proof.
  intros Hg. pose proof Hg as [[H1 H1'] H2 H3 H4]. unfold errorHandler. rewrite H2, H1.
  destruct (attempts d !! k) as [[[] s]|] eqn:Ha; try done.
  assert (k < length (attempts d))%nat as Hk by by eapply lookup_lt_Some.
  constructor; try done; simpl.
  - intros c x Hx. destruct (H3 c x Hx) as (r & s' & Hr & Hs). destruct (decide (owner x = k)) as [E|E].
    + rewrite E, list_lookup_insert_eq by done. rewrite E, Ha in Hr. injection Hr as <- <-. eauto.
    + rewrite list_lookup_insert_ne by done. eauto.
  - intros Hc. destruct (H4 Hc) as (n & Hn & _). exists n. split; [|left; lia].
    intros k' r Hk'. destruct (decide (k' = k)) as [->|E]; [rewrite list_lookup_insert_eq by done; by intros [= <- _]|].
    rewrite list_lookup_insert_ne by done. by apply Hn.
Qed.

(** The promise of an attempt is rejected, possibly because a chain of it failed. *)
Lemma going_failed k (o : option nat) d :
  going d → let d1 := match o with Some c => goto c (Over false) d | None => d end in
  (∀ c, o = Some c → ∃ x, chains d !! c = Some x ∧ owner x = k) →
  going (settle_connect k false d1).
Proof.
  intros Hg d1 Ho. pose proof Hg as [[H1 H1'] H2 H3 H4].
  assert (opts d1 = opts d ∧ disconnecting d1 = disconnecting d ∧ connectResolve d1 = connectResolve d ∧
    attempts d1 = attempts d ∧ retries d1 = retries d) as (E1 & E2 & E3 & E4 & E5).
  { unfold d1. destruct o; [|done]. unfold goto. by destruct (chains d !! n). }
  assert (∀ c x, chains d1 !! c = Some x → ∃ r s, attempts d !! owner x = Some (Attempt r s) ∧
    (running x = false → s = true ∨ owner x = k)) as Hch.
  { intros c x Hx. unfold d1 in Hx. destruct o as [c0|].
    - destruct (Ho c0 eq_refl) as (x0 & Hx0 & Hk). rewrite (goto_chains _ _ _ _ Hx0) in Hx.
      destruct (decide (c = c0)) as [->|Hc].
      + rewrite list_lookup_insert_eq in Hx by (by eapply lookup_lt_Some). injection Hx as <-. simpl.
        destruct (H3 _ _ Hx0) as (r & s & Ha & _). eauto.
      + rewrite list_lookup_insert_ne in Hx by done. destruct (H3 _ _ Hx) as (r & s & Ha & Hs). eauto 6.
    - destruct (H3 _ _ Hx) as (r & s & Ha & Hs). eauto 6. }
  unfold settle_connect. rewrite E4. destruct (attempts d !! k) as [[r []]|] eqn:Ha.
  - constructor; rewrite ?E1, ?E2, ?E3, ?E4, ?E5; try done. intros c x Hx.
    destruct (Hch c x Hx) as (r' & s' & Ha' & Hs'). exists r', s'. split; [done|]. intros Hr.
    destruct (Hs' Hr) as [?|E]; [done|]. rewrite E, Ha in Ha'. by simplify_eq.
  - assert (k < length (attempts d))%nat as Hk by by eapply lookup_lt_Some.
    set (d2 := set_attempts _ _ d1).
    assert (∃ m, errorHandler k d2 = set_attempts (<[k := Attempt true true]> (attempts d)) m d1 ∧
      (m = retries d ∧ r = true ∨ (0 < m)%nat)) as (m & -> & Hm).
    { unfold errorHandler. simpl. rewrite E2, H2, E1, H1, list_lookup_insert_eq, E5 by done. destruct r.
      - exists (retries d). split; [unfold d2; by rewrite E5|by left].
      - exists (S (retries d)). split; [unfold d2; simpl; by rewrite list_insert_insert_eq|right; lia]. }
    constructor; simpl; rewrite ?E1, ?E2, ?E3; try done.
    + intros c x Hx. destruct (Hch c x Hx) as (r' & s' & Ha' & Hs'). destruct (decide (owner x = k)) as [E|E].
      * rewrite E, list_lookup_insert_eq by done. eauto.
      * rewrite list_lookup_insert_ne by done. exists r', s'. split; [done|]. intros Hr. by destruct (Hs' Hr).
    + intros Hc. destruct (H4 Hc) as (n & Hn & Hw). exists n. split.
      * intros k' r' Hk'. destruct (decide (k' = k)) as [->|E]; [rewrite list_lookup_insert_eq by done; by intros [= <-]|].
        rewrite list_lookup_insert_ne by done. by apply Hn.
      * destruct Hm as [[-> ->]|Hm]; [|by left]. destruct Hw as [?|(k' & s & Hk' & Ha')]; [by left|]. right. exists k', s.
        split; [done|]. rewrite list_lookup_insert_ne; [done|]. intros <-. congruence.
  - constructor; rewrite ?E1, ?E2, ?E3, ?E4, ?E5; try done. intros c x Hx.
    destruct (Hch c x Hx) as (r' & s' & Ha' & Hs'). exists r', s'. split; [done|]. intros Hr.
    destruct (Hs' Hr) as [?|E]; [done|]. rewrite E, Ha in Ha'. done.
Qed.

Lemma startHeartbeatTimers_same d : going d → going (startHeartbeatTimers d).
Proof. unfold startHeartbeatTimers. destruct (_ <? _)%Z; by apply going_same. Qed.

(** The end of a chain: whoever waits for the connection is told. *)
Lemma announce_fields c d : let d' := announce c d in
  opts d' = opts d ∧ connected d' = true ∧ disconnecting d' = disconnecting d ∧ connectResolve d' = false ∧
  attempts d' = attempts d ∧ retries d' = retries d ∧ chains d' = chains d ∧ subscribing d' = subscribing d ∧ waiting d' = waiting d ∧
  beating d' = (0 <? heartbeatInterval (opts d))%Z ∧
  log d' = log d ++ Connected c :: (if connectResolve d then [Started] else []) ∧
  (connectResolve d = true → isReady d' = true).
Proof.
  unfold announce, startHeartbeatTimers. simpl. destruct (0 <? heartbeatInterval (opts d))%Z, (connectResolve d) eqn:Hc; simpl;
    rewrite ?Hc; split_and!; try done; simpl; by rewrite <- app_assoc.
Qed.

Lemma going_done c x d : going d → chains d !! c = Some x → at_stage x = Delay →
  going (settle_connect (owner x) true (goto c (Over true) (announce c d))).
Proof.
  intros [H1 H2 H3 H4] Hx Hs. destruct (announce_fields c d) as (E1 & _ & E3 & E4 & E5 & E6 & E7 & _).
  destruct (H3 c x Hx) as (r & s & Ha & _).
  assert (chains (announce c d) !! c = Some x) as Hx' by by rewrite E7.
  set (d1 := goto c (Over true) (announce c d)).
  assert (opts d1 = opts d ∧ disconnecting d1 = disconnecting d ∧ connectResolve d1 = false ∧ attempts d1 = attempts d ∧
    chains d1 = <[c := Chain (owner x) (wasReconnect x) (Over true)]> (chains d)) as (F1 & F2 & F3 & F4 & F5).
  { unfold d1, goto. rewrite Hx'. simpl. by rewrite E7. }
  destruct (settle_connect_fields (owner x) true d1) as (G1 & _ & G3 & G4 & _ & G6 & _).
  assert (attempts (settle_connect (owner x) true d1) = <[owner x := Attempt r true]> (attempts d)) as G5.
  { unfold settle_connect. rewrite F4, Ha. destruct s; [|done]. rewrite F4. symmetry. by apply list_insert_id. }
  assert (owner x < length (attempts d))%nat as Hl by by eapply lookup_lt_Some.
  constructor; rewrite ?G1, ?G3, ?G4, ?G6, ?F1, ?F2, ?F3, ?F5; try done. intros c' x'. rewrite G5.
  destruct (decide (c' = c)) as [->|Hc].
  - rewrite list_lookup_insert_eq by (by eapply lookup_lt_Some). intros [= <-]. exists r, true. simpl.
    by rewrite list_lookup_insert_eq.
  - rewrite list_lookup_insert_ne by done. intros Hx2. destruct (H3 _ _ Hx2) as (r' & s' & Ha' & Hs').
    destruct (decide (owner x' = owner x)) as [->|E]; [rewrite list_lookup_insert_eq by done; eauto|].
    rewrite list_lookup_insert_ne by done. eauto.
Qed.

Lemma going_chain c ok d d' : going d → settle_chain c ok d = Some d' → going d'.
Proof.
  intros Hg. unfold settle_chain. destruct (chains d !! c) as [x|] eqn:Hx; [|done]. simpl.
  pose proof (go_enabled _ Hg) as [_ Hp].
  assert (∀ d0, opts d0 = opts d → chains d0 = chains d → going d0 → ∀ d1,
    Some (if propagates (opts (goto c (Over false) d0)) then settle_connect (owner x) false (goto c (Over false) d0)
          else goto c (Over false) d0) = Some d1 → going d1) as Hfail.
  { intros d0 Eo Ec Hg0 d1. assert (propagates (opts (goto c (Over false) d0)) = true) as ->.
    { unfold goto. destruct (chains d0 !! c); simpl; by rewrite Eo. }
    intros [= <-]. apply (going_failed (owner x) (Some c) d0 Hg0). intros c' [= <-]. exists x. by rewrite Ec. }
  destruct (at_stage x) eqn:Hs, ok; try done.
  - intros [= <-]. destruct (flush_fields c true (set_subscribing None (waiting d) d)) as (F1 & F2 & F3 & F4 & F5 & F6 & F7 & F8 & _).
    eapply (going_same (goto c Discovering _)); try done. apply going_goto; [|done]. by apply (going_same d).
  - destruct (flush_fields c false d) as (F1 & F2 & F3 & F4 & F5 & F6 & F7 & F8 & _). apply Hfail; [done|done|]. by apply (going_same d).
  - intros [= <-]. eapply (going_same (goto c Discovering d)); try done. by apply going_goto.
  - by apply Hfail.
  - intros [= <-]. by apply going_goto.
  - by apply Hfail.
  - intros [= <-]. by apply going_done.
  - intros [= <-]. by apply going_done.
Qed.

Lemma going_step e d d' : e ≠ Disconnect → going d → apply e d = Some d' → going d'.
Proof.
  intros He Hg. destruct e as [| |p|k w|k|k| | |c ok|i ok]; simpl; try done.
  - intros [= <-]. unfold connect. destruct Hg as [H1 H2 H3 H4]. constructor; [done|done| |]; simpl.
    + intros c x Hx. destruct (H3 c x Hx) as (r & s & Ha & Hr). exists r, s. split; [by apply lookup_app_l_Some|done].
    + intros _. exists (length (attempts d)). split.
      * intros k r Hk Ha. rewrite lookup_app_r in Ha by done. destruct (k - length (attempts d))%nat; simpl in Ha; by simplify_eq.
      * right. exists (length (attempts d)), false. split; [done|]. by rewrite lookup_app_r, Nat.sub_diag by done.
  - intros [= <-]. unfold publish. destruct (subscribing d); [|by apply (going_same d)].
    destruct (at_stage <$> _) as [[| | | |[]]|]; by apply (going_same d).
  - destruct (Nat.ltb_spec k (length (attempts d))) as [Hk|]; [|done]. intros [= <-].
    apply lookup_lt_is_Some in Hk as [[r s] Ha]. destruct Hg as [H1 H2 H3 H4].
    assert (∀ st c x, (chains d ++ [Chain k w st]) !! c = Some x → running (Chain k w st) = true →
      ∃ r s, attempts d !! owner x = Some (Attempt r s) ∧ (running x = false → s = true)) as Hch.
    { intros st c x Hx Hr. apply lookup_app_Some in Hx as [Hx|[_ Hx]]; [by eapply H3|].
      destruct (c - length (chains d))%nat; simpl in Hx; simplify_eq. exists r, s. split; [done|congruence]. }
    unfold onConnected. destruct w; constructor; try done; simpl; intros c x Hx; by eapply Hch.
  - destruct (_ <? _)%nat; [|done]. intros [= <-]. by apply (going_failed k None d Hg).
  - destruct (_ <? _)%nat; [|done]. intros [= <-]. by apply going_error.
  - intros [= <-]. by apply (going_same d).
  - destruct (retries d) as [|n] eqn:Hr; [done|]. intros [= <-].
    pose proof (going_doConnect d Hg) as [H1 H2 H3 H4]. constructor; try done; simpl in *. intros Hc.
    destruct (go_on _ Hg Hc) as (m & Hm & _). exists (min m (length (attempts d))). split.
    + intros k r Hk Ha. apply lookup_app_Some in Ha as [Ha|[Hk' Ha]].
      * apply (Hm k); [|done]. apply lookup_lt_Some in Ha. lia.
      * destruct (k - length (attempts d))%nat; simpl in Ha; by simplify_eq.
    + right. exists (length (attempts d)), false. split; [lia|]. by rewrite lookup_app_r, Nat.sub_diag by lia.
  - by apply going_chain.
  - unfold settle_leaving. destruct (leavings d !! i) as [[]|]; simpl; [| |done|done]; destruct ok; intros; simplify_eq; (apply (going_same d); try done; simpl; by rewrite (go_staying _ Hg)).
Qed.

Lemma going_run es d d' : Disconnect ∉ es → going d → run es d = Some d' → going d'.
Proof.
  revert d. induction es as [|e es IH]; intros d Hn Hg; simpl; [by intros [= <-]|].
  rewrite not_elem_of_cons in Hn. destruct Hn as [He Hn]. destruct (apply e d) as [d1|] eqn:E; [|done]. simpl.
  apply IH; [done|]. by eapply going_step.
Qed.

(** What the outside does for a start to end: reconnect timers fire, the client of an attempt
    that has neither failed nor connected connects, what chains wait for succeeds. *)
Inductive helpful (d : t) : event → Prop :=
| helpful_timer : (0 < retries d)%nat → helpful d RetryTimer
| helpful_client k r :
    attempts d !! k = Some (Attempt r false) → (∀ c x, chains d !! c = Some x → owner x ≠ k) → helpful d (Online k false)
| helpful_chain c : helpful d (SettleChain c true).

Inductive helped : t → t → Prop :=
| helped_refl d : helped d d
| helped_step e d d1 d2 : helpful d e → apply e d = Some d1 → helped d1 d2 → helped d d2.

(** The start has ended. *)
Definition up (d : t) : Prop := connectResolve d = false ∧ connected d = true ∧ isReady d = true.

Lemma drive_delay c x d : chains d !! c = Some x → at_stage x = Delay → connectResolve d = true → ∃ d', helped d d' ∧ up d'.
Proof.
  intros Hx Hs Hc. destruct (announce_fields c d) as (_ & E2 & _ & E4 & _ & _ & _ & _ & _ & _ & _ & E8).
  eexists. split.
  - eapply (helped_step (SettleChain c true)); [constructor| |apply helped_refl]. simpl. unfold settle_chain. rewrite Hx. simpl.
    by rewrite Hs.
  - assert (∀ d s, let d' := goto c s d in connectResolve d' = connectResolve d ∧ connected d' = connected d ∧ isReady d' = isReady d) as Hg.
    { intros d0 s. unfold goto. by destruct (chains d0 !! c). }
    assert (∀ k d, let d' := settle_connect k true d in connectResolve d' = connectResolve d ∧ connected d' = connected d ∧ isReady d' = isReady d) as Hk.
    { intros k d0. unfold settle_connect. by destruct (attempts d0 !! k) as [[? []]|]. }
    unfold up. destruct (Hk (owner x) (goto c (Over true) (announce c d))) as (-> & -> & ->).
    destruct (Hg (announce c d) (Over true)) as (-> & -> & ->). auto.
Qed.

Lemma drive_discovering c x d : chains d !! c = Some x → at_stage x = Discovering → connectResolve d = true → ∃ d', helped d d' ∧ up d'.
Proof.
  intros Hx Hs Hc. assert (c < length (chains d))%nat as Hl by by eapply lookup_lt_Some.
  destruct (drive_delay c (Chain (owner x) (wasReconnect x) Delay) (goto c Delay d)) as (d' & Hh & Hu).
  { rewrite (goto_chains _ _ _ _ Hx). by apply list_lookup_insert_eq. }
  { done. }
  { unfold goto. by rewrite Hx. }
  exists d'. split; [|done]. eapply (helped_step (SettleChain c true)); [constructor| |exact Hh].
  simpl. unfold settle_chain. rewrite Hx. simpl. by rewrite Hs.
Qed.

(** A chain that runs comes to its end. *)
Lemma drive c x d : chains d !! c = Some x → running x = true → connectResolve d = true → ∃ d', helped d d' ∧ up d'.
Proof.
  intros Hx Hr Hc. assert (c < length (chains d))%nat as Hl by by eapply lookup_lt_Some.
  assert (∀ d0, chains d0 = chains d → connectResolve d0 = true →
    apply (SettleChain c true) d = Some (tell (DiscoverAllNodes c) (goto c Discovering d0)) → ∃ d', helped d d' ∧ up d') as Hfirst.
  { intros d0 Ec Er E. assert (chains d0 !! c = Some x) as Hx0 by by rewrite Ec.
    destruct (drive_discovering c (Chain (owner x) (wasReconnect x) Discovering) (tell (DiscoverAllNodes c) (goto c Discovering d0)))
      as (d' & Hh & Hu).
    - simpl. rewrite (goto_chains _ _ _ _ Hx0), Ec. by apply list_lookup_insert_eq.
    - done.
    - simpl. unfold goto. by rewrite Hx0.
    - exists d'. split; [|done]. eapply (helped_step (SettleChain c true)); [constructor|exact E|exact Hh]. }
  destruct (at_stage x) eqn:Hs.
  - destruct (flush_fields c true (set_subscribing None (waiting d) d)) as (_ & _ & _ & F4 & _ & _ & _ & F8 & _).
    eapply Hfirst; [exact F8|by rewrite F4|]. simpl. unfold settle_chain. rewrite Hx. simpl. by rewrite Hs.
  - eapply Hfirst; [done|done|]. simpl. unfold settle_chain. rewrite Hx. simpl. by rewrite Hs.
  - by eapply drive_discovering.
  - by eapply drive_delay.
  - unfold running in Hr. by rewrite Hs in Hr.
Qed.

(** An attempt that has not failed comes to its end. *)
Lemma drive_attempt k r d :
  going d → attempts d !! k = Some (Attempt r false) → connectResolve d = true → ∃ d', helped d d' ∧ up d'.
Proof.
  intros Hg Ha Hc.
  destruct (Arr.find (λ x, Nat.eqb (owner x) k) (chains d)) as [x|] eqn:Hf.
  - destruct (Arr.find_Some _ _ _ Hf) as [Hin Hk]. apply Nat.eqb_eq in Hk. apply list_elem_of_lookup in Hin as [c Hx].
    apply (drive c x); [done| |done]. destruct (running x) eqn:Hr; [done|].
    destruct (go_over _ Hg c x Hx) as (r' & s & Ha' & Hs). rewrite Hk, Ha in Ha'. rewrite (Hs Hr) in Ha'. by simplify_eq.
  - rewrite Arr.find_None in Hf.
    destruct (drive (length (chains d)) (Chain k false Subscribing) (onConnected k false d)) as (d' & Hh & Hu); [|done|done|].
    { unfold onConnected. simpl. by rewrite lookup_app_r, Nat.sub_diag by done. }
    exists d'. split; [|done]. eapply (helped_step (Online k false)); [|simpl|exact Hh].
    + apply (helpful_client _ k r); [done|]. intros c x Hx E. apply list_elem_of_lookup_2 in Hx. apply Hf in Hx.
      by apply Nat.eqb_neq in Hx.
    + apply lookup_lt_Some in Ha. apply Nat.ltb_lt in Ha. by rewrite Ha.
Qed.


(** ** The order of what is told *)

(** What the last broadcast about the connection said *)
Definition announced (l : list output) : bool :=
  foldl (λ b o, match o with Connected _ => true | Disconnected => false | _ => b end) false l.

Definition plain (o : output) : Prop := match o with Connected _ | Disconnected => False | _ => True end.

Lemma announced_plain l l' : Forall plain l' → announced (l ++ l') = announced l.
Proof.
  unfold announced. rewrite foldl_app. generalize (foldl (λ b o, match o with Connected _ => true | Disconnected => false | _ => b end) false l).
  intros b Hl. induction Hl as [|o l' Ho _ IH]; simpl; [done|]. by destruct o.
Qed.

(** What chain [c] has told when it is at its stage *)
Definition opening (c : nat) (x : chain) : output := if wasReconnect x then SendLocalNodeInfo c else MakeSubscriptions c.
Definition history (c : nat) (x : chain) : list output :=
  opening c x :: match at_stage x with
                 | Subscribing | SendingInfo | Over false => []
                 | Discovering | Delay => [DiscoverAllNodes c]
                 | Over true => [DiscoverAllNodes c; Connected c]
                 end.

Record told (d : t) : Prop := {
  td_history c x : chains d !! c = Some x → history c x `sublist_of` log d;
  td_connected c : Connected c ∈ log d → ∃ x, chains d !! c = Some x ∧ at_stage x = Over true;
  td_status : connected d = announced (log d) ∧ beating d = (0 <? heartbeatInterval (opts d))%Z && announced (log d)
}.

(** Steps that tell nothing of the connection *)
Lemma told_plain d d' l :
  told d → opts d' = opts d → connected d' = connected d → beating d' = beating d → log d' = log d ++ l → Forall plain l →
  (∀ c x, chains d' !! c = Some x → chains d !! c = Some x ∨ history c x `sublist_of` log d') →
  (∀ c x, chains d !! c = Some x → at_stage x = Over true → chains d' !! c = Some x) → told d'.
Proof.
  intros [H1 H2 [H3 H4]] E1 E2 E3 E4 Hl Hc Hk. constructor.
  - intros c x Hx. destruct (Hc c x Hx) as [Hx'|?]; [|done]. rewrite E4. apply sublist_inserts_r. by apply H1.
  - intros c. rewrite E4, elem_of_app. intros [Hin|Hin].
    + destruct (H2 c Hin) as (x & Hx & Hs). eauto.
    + rewrite list.Forall_forall in Hl. by apply Hl in Hin.
  - rewrite E4, announced_plain by done. rewrite E1, E2, E3. by split.
Qed.

Lemma told_same d d' l :
  told d → opts d' = opts d → connected d' = connected d → beating d' = beating d → chains d' = chains d →
  log d' = log d ++ l → Forall plain l → told d'.
Proof. intros H1 E1 E2 E3 E4 E5 Hl. apply (told_plain d d' l); try done; rewrite E4; [by left|done]. Qed.

(** Chain [c] goes to a stage that is not the end of a connection. *)
Lemma told_goto c s d x l :
  told d → chains d !! c = Some x → at_stage x ≠ Over true →
  history c (Chain (owner x) (wasReconnect x) s) `sublist_of` log d ++ l → Forall plain l →
  ∀ d', opts d' = opts d → connected d' = connected d → beating d' = beating d → log d' = log d ++ l →
    chains d' = chains (goto c s d) → told d'.
Proof.
  intros Ht Hx Hs Hh Hl d' E1 E2 E3 E4 E5. rewrite (goto_chains _ _ _ _ Hx) in E5.
  assert (c < length (chains d))%nat as Hlt by by eapply lookup_lt_Some.
  apply (told_plain d d' l); try done; rewrite E5; intros c' x'.
  - destruct (decide (c' = c)) as [->|Hc].
    + rewrite list_lookup_insert_eq by done. intros [= <-]. right. by rewrite E4.
    + rewrite list_lookup_insert_ne by done. by left.
  - intros Hx' Hs'. destruct (decide (c' = c)) as [->|Hc]; [congruence|]. by rewrite list_lookup_insert_ne.
Qed.

Lemma told_create o : told (create o).
Proof. constructor; simpl; [done|by intros c ?%elem_of_nil|]. by rewrite andb_false_r. Qed.

Lemma sublist_snoc (l k : list output) o : l `sublist_of` k → l ++ [o] `sublist_of` k ++ [o].
Proof. intros Hl. by apply sublist_app. Qed.

Lemma told_done c x d : told d → chains d !! c = Some x → at_stage x = Delay →
  told (settle_connect (owner x) true (goto c (Over true) (announce c d))).
Proof.
  intros Ht Hx Hs. pose proof (td_history _ Ht c x Hx) as Hh. unfold history in Hh. rewrite Hs in Hh. destruct Ht as [H1 H2 _].
  destruct (announce_fields c d) as (E1 & E2 & _ & _ & _ & _ & E7 & _ & _ & E10 & E11 & _).
  set (d1 := goto c (Over true) (announce c d)).
  destruct (settle_connect_fields (owner x) true d1) as (G1 & G2 & _ & _ & _ & G6 & G7 & _ & G9 & _).
  assert (chains (announce c d) !! c = Some x) as Hx' by by rewrite E7.
  assert (opts d1 = opts d ∧ connected d1 = true ∧ beating d1 = (0 <? heartbeatInterval (opts d))%Z ∧
    log d1 = log (announce c d)) as (F1 & F2 & F3 & F4).
  { unfold d1, goto. by rewrite Hx'. }
  assert (chains d1 = <[c := Chain (owner x) (wasReconnect x) (Over true)]> (chains d)) as F5.
  { unfold d1. rewrite (goto_chains _ _ _ _ Hx'). by rewrite E7. }
  assert (c < length (chains d))%nat as Hlt by by eapply lookup_lt_Some.
  constructor; rewrite ?G1, ?G2, ?G6, ?G7, ?G9, ?F1, ?F2, ?F3, ?F4, ?F5, ?E11.
  - intros c' x'. destruct (decide (c' = c)) as [->|Hc].
    + rewrite list_lookup_insert_eq by done. intros [= <-]. unfold history. simpl.
      apply (sublist_app [opening c x; DiscoverAllNodes c] (log d) [Connected c]); [exact Hh|]. apply sublist_skip, sublist_nil_l.
    + rewrite list_lookup_insert_ne by done. intros Hx2. apply sublist_inserts_r. by apply H1.
  - intros c'. rewrite elem_of_app, elem_of_cons. intros [Hin|[[= ->]|Hin]].
    + destruct (H2 c' Hin) as (y & Hy & Hys). exists y. split; [|done]. rewrite list_lookup_insert_ne; [done|]. intros ->. congruence.
    + rewrite list_lookup_insert_eq by done. by eexists.
    + destruct (connectResolve d); [|by apply elem_of_nil in Hin]. by apply list_elem_of_singleton in Hin.
  - assert (announced (log d ++ Connected c :: (if connectResolve d then [Started] else [])) = true) as ->; [|by rewrite andb_true_r].
    unfold announced. rewrite foldl_app. by destruct (connectResolve d).
Qed.

Lemma told_chain c ok d d' : told d → settle_chain c ok d = Some d' → told d'.
Proof.
  intros Ht. unfold settle_chain. destruct (chains d !! c) as [x|] eqn:Hx; [|done]. simpl.
  pose proof (td_history _ Ht c x Hx) as Hh. unfold history, opening in Hh.
  assert (∀ d0 l, opts d0 = opts d → connected d0 = connected d → beating d0 = beating d → chains d0 = chains d →
    log d0 = log d ++ l → Forall plain l → at_stage x ≠ Over true → ∀ d1,
    Some (if propagates (opts (goto c (Over false) d0)) then settle_connect (owner x) false (goto c (Over false) d0)
          else goto c (Over false) d0) = Some d1 → told d1) as Hfail.
  { intros d0 l E1 E2 E3 E4 E5 Hl Hs d1 [= <-].
    assert (told (goto c (Over false) d0)) as Hg.
    { apply (told_goto c (Over false) d x l); try done; try (unfold goto; rewrite E4, Hx; simpl; by rewrite ?E4).
      - unfold history, opening. simpl. apply sublist_inserts_r. etransitivity; [|exact Hh]. apply sublist_skip, sublist_nil_l. }
    destruct (propagates _); [|done].
    destruct (settle_connect_fields (owner x) false (goto c (Over false) d0)) as (F1 & F2 & _ & _ & _ & F6 & F7 & _ & F9 & _).
    apply (told_same (goto c (Over false) d0) _ []); try done. by rewrite app_nil_r. }
  destruct (at_stage x) eqn:Hs, ok; try done; simpl in Hh.
  - intros [= <-].
    destruct (flush_fields c true (set_subscribing None (waiting d) d)) as (F1 & F2 & _ & _ & _ & _ & _ & F8 & F9 & _ & F11).
    set (d0 := flush _ _ _) in *. set (l := map _ _) in F11.
    assert (Forall plain l) as Hl by (apply list.Forall_forall; intros ? (? & -> & ?)%list_elem_of_fmap; done).
    apply (told_goto c Discovering d x (l ++ [DiscoverAllNodes c])); try done; try (unfold goto; rewrite F8; simpl; rewrite Hx; simpl; by rewrite ?F8).
    + rewrite Hs. done.
    + unfold history, opening. simpl. rewrite app_assoc. apply (sublist_snoc [_]). by apply sublist_inserts_r.
    + apply Forall_app. split; [done|]. by apply Forall_singleton.
    + unfold goto. rewrite F8. simpl. rewrite Hx. simpl. by rewrite F11, app_assoc.
  - destruct (flush_fields c false d) as (F1 & F2 & _ & _ & _ & _ & _ & F8 & F9 & _ & F11).
    eapply Hfail; [done|done|done|done|exact F11| |done]. apply list.Forall_forall. by intros ? (? & -> & ?)%list_elem_of_fmap.
  - intros [= <-]. apply (told_goto c Discovering d x [DiscoverAllNodes c]); try done; try (unfold goto; by rewrite Hx).
    + by rewrite Hs.
    + unfold history, opening. simpl. by apply (sublist_snoc [_]).
    + by apply Forall_singleton.
  - apply (Hfail d []); try done. by rewrite app_nil_r.
  - intros [= <-]. apply (told_goto c Delay d x []); try done; try (unfold goto; by rewrite Hx).
    + by rewrite Hs.
    + unfold history, opening. simpl. by rewrite app_nil_r.
    + unfold goto. rewrite Hx. simpl. by rewrite app_nil_r.
  - apply (Hfail d []); try done. by rewrite app_nil_r.
  - intros [= <-]. by apply told_done.
  - intros [= <-]. by apply told_done.
Qed.

Lemma told_disconnect d : told d → told (disconnect d).
Proof.
  intros Ht. destruct Ht as [H1 H2 [H3 H4]].
  assert (∃ l, log (disconnect d) = log d ++ Disconnected :: l ∧ Forall plain l ∧ chains (disconnect d) = chains d ∧
    opts (disconnect d) = opts d ∧ connected (disconnect d) = false ∧ beating (disconnect d) = false) as (l & El & Hl & Ec & Eo & E1 & E2).
  { unfold disconnect, close. simpl. destruct (tx_connected d); simpl; eexists; (split; [by rewrite <- app_assoc|]); split_and!; try done;
      by apply Forall_singleton. }
  constructor.
  + intros c x. rewrite Ec, El. intros Hx. apply sublist_inserts_r. by apply H1.
  + intros c. rewrite Ec, El, elem_of_app, elem_of_cons. intros [?|[?|Hin]]; [auto|done|]. rewrite list.Forall_forall in Hl. by apply Hl in Hin.
  + rewrite El, E1, E2, Eo. replace (log d ++ Disconnected :: l) with ((log d ++ [Disconnected]) ++ l) by by rewrite <- app_assoc.
    rewrite announced_plain by done. unfold announced. rewrite foldl_app. simpl. by rewrite andb_false_r.
Qed.

Lemma told_step e d d' : told d → apply e d = Some d' → told d'.
Proof.
  intros Ht. destruct e as [| |p|k w|k|k| | |c ok|i ok]; simpl.
  - intros [= <-]. apply (told_same d _ [TxConnect]); try done. by apply Forall_singleton.
  - intros [= <-]. by apply told_disconnect.
  - intros [= <-]. unfold publish. destruct (subscribing d) eqn:Hsub.
    + assert (∀ o, plain o → told (tell o d)) as Htell by (intros o Ho; apply (told_same d _ [o]); try done; by apply Forall_singleton).
      assert (∀ w, told (set_subscribing (Some n) w d)) as Hw by (intros w; apply (told_same d _ []); try done; by rewrite app_nil_r).
      destruct (at_stage <$> _) as [[| | | |[]]|]; try apply Hw. by apply Htell.
    + apply (told_same d _ [Sent p]); try done. by apply Forall_singleton.
  - destruct (_ <? _)%nat; [|done]. intros [= <-].
    assert (∀ st o d1, opts d1 = opts d → connected d1 = connected d → beating d1 = beating d →
      log d1 = log d ++ [o] → plain o → chains d1 = chains d ++ [Chain k w st] → history (length (chains d)) (Chain k w st) = [o] →
      told d1) as Hnew.
    { intros st o d1 E1 E2 E3 E4 Ho E5 Hh. apply (told_plain d d1 [o]); try done; [by apply Forall_singleton| |].
      - intros c x. rewrite E5. intros [?|[Hc Hx]]%lookup_app_Some; [by left|]. right.
        destruct (c - length (chains d))%nat eqn:Hn; simpl in Hx; simplify_eq. assert (c = length (chains d)) as -> by lia.
        rewrite Hh, E4. apply sublist_inserts_l, sublist_skip, sublist_nil_l.
      - intros c x Hx _. rewrite E5. by apply lookup_app_l_Some. }
    unfold onConnected. destruct w; by eapply Hnew.
  - destruct (_ <? _)%nat; [|done]. intros [= <-].
    destruct (settle_connect_fields k false d) as (F1 & F2 & _ & _ & _ & F6 & F7 & _ & F9 & _).
    apply (told_same d _ []); try done. by rewrite app_nil_r.
  - destruct (_ <? _)%nat; [|done]. intros [= <-].
    destruct (errorHandler_fields k d) as (F1 & F2 & _ & _ & _ & F6 & F7 & _ & F9 & _).
    apply (told_same d _ []); try done. by rewrite app_nil_r.
  - intros [= <-]. apply (told_same d _ []); try done. by rewrite app_nil_r.
  - destruct (retries d); [done|]. intros [= <-]. apply (told_same d _ [TxConnect]); try done. by apply Forall_singleton.
  - by apply told_chain.
  - unfold settle_leaving. assert (∀ d1 l, opts d1 = opts d → connected d1 = connected d → beating d1 = beating d → chains d1 = chains d →
      log d1 = log d ++ l → Forall plain l → told d1) as Hs by (intros; by eapply told_same).
    destruct (leavings d !! i) as [[]|]; simpl; try done; destruct ok; intros; simplify_eq;
      first [apply (Hs _ [TxDisconnect]); try done; by apply Forall_singleton | apply (Hs _ []); try done; by rewrite app_nil_r].
Qed.

(** C14. Whatever happens and fails, a node counts as connected exactly from the end of an
    [afterConnect()] to the next [disconnect()], and its heartbeat timers run exactly
    then; it was announced only after it subscribed, or sent its INFO when it reconnected,
    and then asked for the other nodes. *)
Theorem connected_in_order o es d :
  run es (create o) = Some d →
  connected d = announced (log d) ∧ beating d = (0 <? heartbeatInterval (opts d))%Z && connected d ∧
  ∀ c, Connected c ∈ log d → ∃ x, chains d !! c = Some x ∧ at_stage x = Over true ∧
    [opening c x; DiscoverAllNodes c; Connected c] `sublist_of` log d.
Proof.
  intros Hr. assert (∀ es d0, told d0 → run es d0 = Some d → told d) as Hrun.
  { clear. induction es as [|e es IH]; intros d0 Ht; simpl; [by intros [= <-]|].
    destruct (apply e d0) as [d1|] eqn:E; [|done]. simpl. apply IH. by eapply told_step. }
  destruct (Hrun es _ (told_create o) Hr) as [H1 H2 [H3 H4]]. split_and!; [done|by rewrite H3|].
  intros c Hc. destruct (H2 c Hc) as (x & Hx & Hs). exists x. split_and!; [done..|].
  specialize (H1 c x Hx). unfold history in H1. by rewrite Hs in H1.
Qed.

(** ** Packets *)

Definition packet_of (o : output) : option nat := match o with Sent p | Refused p => Some p | _ => None end.
Definition published (e : event) : option nat := match e with Publish p => Some p | _ => None end.

(** Where the packets of a run are: [ps] were published. *)
Record kept (ps : list nat) (d : t) : Prop := {
  kp_all : omap packet_of (log d) ++ (waiting d).*2 ≡ₚ ps;
  kp_waiting c p : (c, p) ∈ waiting d → at_stage <$> chains d !! c = Some Subscribing;
  kp_subscribing c : subscribing d = Some c →
    at_stage <$> chains d !! c = Some Subscribing ∨ at_stage <$> chains d !! c = Some (Over false)
}.

(** Steps that tell of no packet, of chains that do not subscribe *)
Lemma kept_same ps d d' l :
  kept ps d → log d' = log d ++ l → omap packet_of l = [] → waiting d' = waiting d →
  (subscribing d' = subscribing d ∨ subscribing d' = None) →
  (∀ c s, at_stage <$> chains d !! c = Some s → s = Subscribing ∨ s = Over false → at_stage <$> chains d' !! c = Some s) → kept ps d'.
Proof.
  intros [H1 H2 H3] E1 El E2 E3 Hc. constructor.
  - by rewrite E1, E2, omap_app, El, app_nil_r.
  - intros c p. rewrite E2. intros Hp. apply Hc; [by eapply H2|by left].
  - intros c Hs. destruct E3 as [E3|E3]; rewrite E3 in Hs; [|done]. destruct (H3 c Hs) as [E|E]; [left|right]; (apply Hc; [done|auto]).
Qed.

Lemma goto_other c s c' d : c' ≠ c → chains (goto c s d) !! c' = chains d !! c'.
Proof. intros Hc. unfold goto. destruct (chains d !! c); [|done]. simpl. by rewrite list_lookup_insert_ne. Qed.

Lemma goto_stage c s d x : chains d !! c = Some x → at_stage <$> chains (goto c s d) !! c = Some s.
Proof. intros Hx. rewrite (goto_chains _ _ _ _ Hx), list_lookup_insert_eq by by eapply lookup_lt_Some. done. Qed.

(** A chain that does not subscribe goes on. *)
Lemma kept_goto ps c s d x : kept ps d → chains d !! c = Some x → at_stage x ≠ Subscribing → at_stage x ≠ Over false → kept ps (goto c s d).
Proof.
  intros Hk Hx H1 H2. apply (kept_same ps d _ []); [done| |done| | |]; [by unfold goto; rewrite Hx, app_nil_r; simpl|by unfold goto; rewrite Hx|left; by unfold goto; rewrite Hx|].
  intros c' s' Hc' Hs. destruct (decide (c' = c)) as [->|Hc]; [|by rewrite goto_other].
  rewrite Hx in Hc'. simpl in Hc'. injection Hc' as <-. by destruct Hs.
Qed.

Lemma split_waiting c (w : list (nat * nat)) :
  (Arr.filter (λ e, Nat.eqb e.1 c) w).*2 ++ (Arr.filter (λ e, negb (Nat.eqb e.1 c)) w).*2 ≡ₚ w.*2.
Proof.
  induction w as [|[c' p] w IH]; [done|]. simpl. destruct (Nat.eqb c' c); simpl.
  - by rewrite IH.
  - by rewrite <- IH, Permutation_middle.
Qed.

Lemma packets_flushed (ok : bool) (l : list (nat * nat)) :
  omap packet_of (map (λ e, if ok then Sent e.2 else Refused e.2) l) = l.*2.
Proof. induction l as [|e l IH]; [done|]. cbn [map omap list_omap packet_of]. destruct ok; cbn; f_equal; exact IH. Qed.

(** The subscriptions of chain [c] are made, or failed. *)
Lemma kept_flush ps c ok s x d0 d :
  kept ps d → chains d !! c = Some x → at_stage x = Subscribing →
  (d0 = set_subscribing None (waiting d) d ∨ d0 = d ∧ s = Over false) → kept ps (goto c s (flush c ok d0)).
Proof.
  intros [H1 H2 H3] Hx Hs Hd0.
  assert (chains d0 = chains d ∧ waiting d0 = waiting d ∧ log d0 = log d) as (E1 & E2 & E3) by by destruct Hd0 as [->|[-> _]].
  destruct (flush_fields c ok d0) as (_ & _ & _ & _ & F5 & _ & _ & F8 & _ & F10 & F11).
  assert (chains (flush c ok d0) !! c = Some x) as Hx' by by rewrite F8, E1.
  assert (log (goto c s (flush c ok d0)) = log (flush c ok d0) ∧ waiting (goto c s (flush c ok d0)) = waiting (flush c ok d0) ∧
    subscribing (goto c s (flush c ok d0)) = subscribing d0) as (G1 & G2 & G3) by (unfold goto; by rewrite Hx').
  constructor.
  - rewrite G1, G2, F10, F11, E2, E3, omap_app, <- H1, <- app_assoc. apply Permutation_app_head. rewrite <- (split_waiting c (waiting d)).
    apply Permutation_app_tail. by rewrite packets_flushed.
  - intros c' p. rewrite G2, F10, E2. intros [Hin Hn]%Arr.elem_of_filter. apply negb_true_iff, Nat.eqb_neq in Hn. simpl in Hn.
    rewrite goto_other, F8, E1 by done. by eapply H2.
  - intros c'. rewrite G3. destruct Hd0 as [->|[-> ->]]; [done|]. intros Hc'. destruct (decide (c' = c)) as [->|Hn].
    + right. by eapply goto_stage.
    + rewrite goto_other, F8 by done. by apply H3.
Qed.

Lemma kept_settle ps k ok d : kept ps d → kept ps (settle_connect k ok d).
Proof.
  intros Hk. destruct (settle_connect_fields k ok d) as (_ & _ & _ & _ & E5 & E6 & _ & E8 & E9 & _).
  apply (kept_same ps d _ []); [done| |done|done|by left|by rewrite E6]. by rewrite E9, app_nil_r.
Qed.

Lemma kept_fail ps c d x : kept ps d → chains d !! c = Some x → at_stage x ≠ Subscribing → at_stage x ≠ Over false →
  kept ps (let d1 := goto c (Over false) d in if propagates (opts d1) then settle_connect (owner x) false d1 else d1).
Proof. intros Hk Hx H1 H2. simpl. destruct (propagates _); [apply kept_settle|]; by eapply kept_goto. Qed.

Lemma kept_announce ps c d : kept ps d → kept ps (announce c d).
Proof.
  intros Hk. destruct (announce_fields c d) as (_ & _ & _ & _ & _ & _ & E7 & E8 & E9 & E10 & E11 & _).
  eapply (kept_same ps d); [done|exact E11|by destruct (connectResolve d)|done|by left|by rewrite E7].
Qed.

Lemma kept_chain ps c ok d d' : kept ps d → settle_chain c ok d = Some d' → kept ps d'.
Proof.
  intros Hk. unfold settle_chain. destruct (chains d !! c) as [x|] eqn:Hx; [|done]. simpl.
  assert (∀ d0 o, kept ps d0 → packet_of o = None → kept ps (tell o d0)) as Htell.
  { intros d0 o Hk0 Ho. apply (kept_same ps d0 _ [o]); try done; [|by left]. simpl. by rewrite Ho. }
  destruct (at_stage x) eqn:Hs, ok; try done; intros [= <-].
  - apply Htell; [|done]. by eapply kept_flush; [| | |left].
  - assert (kept ps (goto c (Over false) (flush c false d))) by (eapply kept_flush; eauto).
    destruct (propagates _); [by apply kept_settle|done].
  - apply Htell; [|done]. eapply kept_goto; [done|done|by rewrite Hs..].
  - eapply kept_fail; [done|done|by rewrite Hs..].
  - eapply kept_goto; [done|done|by rewrite Hs..].
  - eapply kept_fail; [done|done|by rewrite Hs..].
  - apply kept_settle. destruct (announce_fields c d) as (_ & _ & _ & _ & _ & _ & E7 & _).
    eapply kept_goto; [by apply kept_announce|by rewrite E7|by rewrite Hs..].
  - apply kept_settle. destruct (announce_fields c d) as (_ & _ & _ & _ & _ & _ & E7 & _).
    eapply kept_goto; [by apply kept_announce|by rewrite E7|by rewrite Hs..].
Qed.

Lemma kept_publish ps p d : kept ps d → kept (ps ++ [p]) (publish p d).
Proof.
  intros [H1 H2 H3]. unfold publish. assert (∀ o, packet_of o = Some p → kept (ps ++ [p]) (tell o d)) as Htell.
  { intros o Ho. constructor; [|done|done]. simpl. rewrite omap_app. simpl. rewrite Ho, <- H1, <- !app_assoc.
    apply Permutation_app_head, Permutation_app_comm. }
  destruct (subscribing d) as [c|] eqn:Hs; [|by apply Htell].
  assert (at_stage <$> chains d !! c = Some Subscribing → kept (ps ++ [p]) (set_subscribing (Some c) (waiting d ++ [(c, p)]) d)) as Hwait.
  { intros Hc. constructor; simpl.
    - by rewrite fmap_app, app_assoc, H1.
    - intros c' p' [Hin|[= -> ->]%list_elem_of_singleton]%elem_of_app; [by eapply H2|done].
    - intros c' [= <-]. by left. }
  destruct (H3 c eq_refl) as [E|E]; rewrite E; [by apply Hwait|by apply Htell].
Qed.

Lemma kept_online ps k w d : kept ps d → kept ps (onConnected k w d).
Proof.
  intros [H1 H2 H3]. unfold onConnected. set (new := λ s, Chain k w s).
  assert (∀ s c s', at_stage <$> chains d !! c = Some s' → at_stage <$> (chains d ++ [new s]) !! c = Some s') as Hold.
  { intros s c s'. destruct (chains d !! c) as [x|] eqn:Hx; [|done]. by rewrite (lookup_app_l_Some _ _ _ _ Hx). }
  assert ((chains d ++ [new Subscribing]) !! length (chains d) = Some (new Subscribing)) as Hnew.
  { by rewrite lookup_app_r, Nat.sub_diag by lia. }
  destruct w; constructor; simpl; rewrite ?omap_app; simpl; rewrite ?app_nil_r; try done; try (intros c p Hp; apply Hold; by eapply H2).
  - intros c Hc. destruct (H3 c Hc); [left|right]; by apply Hold.
  - intros c [= <-]. left. fold (new Subscribing). by rewrite Hnew.
Qed.

Lemma kept_leaving ps i ok d d' : kept ps d → settle_leaving i ok d = Some d' → kept ps d'.
Proof.
  intros Hk. unfold settle_leaving. destruct (leavings d !! i) as [[]|]; simpl; try done; destruct ok; intros; simplify_eq;
    first [apply (kept_same ps d _ [TxDisconnect]); try done; by left | apply (kept_same ps d _ []); try done; [by rewrite app_nil_r|by left]].
Qed.

Lemma kept_step ps e d d' : kept ps d → apply e d = Some d' → kept (ps ++ option_list (published e)) d'.
Proof.
  intros Hk. destruct e as [| |p|k w|k|k| | |c ok|i ok]; simpl; rewrite ?app_nil_r.
  - intros [= <-]. apply (kept_same ps d _ [TxConnect]); try done. by left.
  - intros [= <-]. unfold disconnect, close. simpl.
    destruct (tx_connected d); (eapply (kept_same ps d); [done|simpl; by rewrite <- app_assoc|done|done|by left|done]).
  - intros [= <-]. by apply kept_publish.
  - destruct (_ <? _)%nat; [|done]. intros [= <-]. by apply kept_online.
  - destruct (_ <? _)%nat; [|done]. intros [= <-]. by apply kept_settle.
  - destruct (_ <? _)%nat; [|done]. intros [= <-].
    destruct (errorHandler_fields k d) as (_ & _ & _ & _ & E5 & E6 & _ & E8 & E9 & _).
    apply (kept_same ps d _ []); [done| |done|done|by left|by rewrite E6]. by rewrite E9, app_nil_r.
  - intros [= <-]. apply (kept_same ps d _ []); try done; [by rewrite app_nil_r|by left].
  - destruct (retries d); [done|]. intros [= <-]. apply (kept_same ps d _ [TxConnect]); try done. by left.
  - by apply kept_chain.
  - by apply kept_leaving.
Qed.

(** A published packet is given to the transporter once, refused once because the
    subscriptions failed, or it waits for subscriptions that are being made: none is lost
    or sent twice, whatever connects and fails. *)
Theorem publish_once o es d :
  run es (create o) = Some d →
  omap packet_of (log d) ++ (waiting d).*2 ≡ₚ omap published es ∧
  ∀ c p, (c, p) ∈ waiting d → at_stage <$> chains d !! c = Some Subscribing.
Proof.
  intros Hr. assert (∀ es ps d0, kept ps d0 → run es d0 = Some d → kept (ps ++ omap published es) d) as Hrun.
  { clear. induction es as [|e es IH]; intros ps d0 Hk; simpl; [intros [= <-]; by rewrite app_nil_r|].
    destruct (apply e d0) as [d1|] eqn:E; [|done]. simpl. intros Hr. apply (kept_step ps e d0 d1 Hk) in E. specialize (IH _ _ E Hr).
    rewrite <- app_assoc in IH. by destruct (published e). }
  destruct (Hrun es [] _ (Build_kept _ (create o) (Permutation_refl _) (λ c p H, False_ind _ (proj1 (elem_of_nil _) H))
    (λ c H, ltac:(discriminate H))) Hr) as [H1 H2 _]. by split.
Qed.

(** ** What disconnecting and failing leave behind *)

Definition mem_opts : options := Options false 10 true.

(** A retry that waits when the broker stops connects again afterwards: the timer of
    [errorHandler] is not cleared, and [disconnecting] is false again once [disconnect()]
    is over. *)
Lemma retry_after_disconnect : ∃ d,
  run [Connect; Failed 0; Disconnect; SettleLeaving 0 true; RetryTimer; Online 1 false;
       SettleChain 0 true; SettleChain 0 true; SettleChain 0 true] (create mem_opts) = Some d ∧
  leavings d = [Left true] ∧ connected d = true ∧ beating d = true.
Proof. eexists. split; [vm_compute; reflexivity|]. by split_and!. Qed.

(** An [afterConnect()] that waits when the transit is disconnected ends by announcing the
    node as connected and by starting the heartbeat timers, the transporter being closed. *)
Lemma connected_after_disconnect : ∃ d,
  run [Connect; Online 0 false; SettleChain 0 true; SettleChain 0 true; Disconnect; SettleLeaving 0 true; Lost; SettleLeaving 0 true;
       SettleChain 0 true] (create mem_opts) = Some d ∧
  leavings d = [Left true] ∧ tx_connected d = false ∧ connected d = true ∧ beating d = true.
Proof. eexists. split; [vm_compute; reflexivity|]. by split_and!. Qed.

(** With a transporter that drops the rejection of [onConnected()] a failed subscription
    leaves the start waiting for ever, without a retry, and every packet is refused. *)
Lemma subscriptions_fail_silently : ∃ d,
  run [Connect; Online 0 false; SettleChain 0 false; Publish 7] (create (Options false 10 false)) = Some d ∧
  connectResolve d = true ∧ retries d = 0 ∧ chains d = [Chain 0 false (Over false)] ∧ log d = [TxConnect; MakeSubscriptions 0; Refused 7].
Proof. eexists. split; [vm_compute; reflexivity|]. by split_and!. Qed.

(** ** Witnesses *)

Definition failing_start : list event := [Connect; Failed 0; RetryTimer; Online 1 false; SettleChain 0 false].


Definition sample_events : list event :=
  [Connect; Online 0 false; Publish 1; Publish 2; SettleChain 0 true; Publish 3; SettleChain 0 true; SettleChain 0 true; Online 0 false; Publish 4].

Lemma connected_in_order_witness :
  ∃ d, run sample_events (create mem_opts) = Some d ∧ connected d = announced (log d) ∧ beating d = true ∧ Connected 0 ∈ log d.
Proof.
  eexists. split; [vm_compute; reflexivity|].
  destruct (connected_in_order mem_opts sample_events _ ltac:(vm_compute; reflexivity)) as (H1 & H2 & _).
  split; [exact H1|]. split; [exact H2|]. vm_compute. repeat (first [left; reflexivity|right]).
Defined.

Lemma publish_once_witness :
  ∃ d, run sample_events (create mem_opts) = Some d ∧ omap packet_of (log d) ++ (waiting d).*2 ≡ₚ [1; 2; 3; 4] ∧ waiting d = [(1, 4)].
Proof.
  eexists. split; [vm_compute; reflexivity|].
  destruct (publish_once mem_opts sample_events _ ltac:(vm_compute; reflexivity)) as (H1 & _).
  split; [exact H1|reflexivity].
Defined.
