(* ===== verification/RedisDiscoverer.v ===== *)
(** * The Redis discoverer

    Models [src/registry/discoverers/redis.js]: brokers that find each other over keys in
    Redis.  A beat key expires unless its broker renews it; an info key holds the INFO of
    a node.  What the calls wait for, replies of Redis among others, are inputs that come
    in any order; what is sent to Redis is a log.  Promises in progress are [task]s.
    Reading keys is a parameter ([deserialize]), since serializers may be packages. *)

From Stdlib Require Import ZArith Lia Bool Ascii.
From stdpp Require Import base tactics list strings option gmap pretty.
From S2P Require Import Prelude Strategies RegistryData EndpointList Registry LocalInfo Discoverer JsonText.

Local Open Scope Z_scope.

Module RedisDiscoverer.

(** ** Keys *)

Inductive number := NaN | Num (z : Z).

(** [Number(s)] on decimal integers as [String] prints them, and on [undefined] and the empty string *)
Definition Number (s : option string) : number :=
  match s with
  | None => NaN
  | Some EmptyString => Num 0
  | Some s => match JSON.parse_number s with Some (z, EmptyString) => Num z | _ => NaN end
  end.

Definition PREFIX (namespace : string) : string :=
  String.append "MOL" (String.append (if String.eqb namespace "" then "" else String.append "-" namespace) "-DSCVR").
Definition BEAT (namespace : string) : string := String.append (PREFIX namespace) "-BEAT:".
Definition INFO_KEY (namespace nodeID : string) : string :=
  String.append (PREFIX namespace) (String.append "-INFO:" nodeID).
Definition instanceHash (instanceID : string) : string := String.substring 0 8 instanceID.
Definition BEAT_KEY (namespace nodeID instanceID : string) : string :=
  String.append (BEAT namespace) (String.append nodeID (String.append "|" (instanceHash instanceID))).
(** The key of a heartbeat *)
Definition beat_key (namespace nodeID instanceID : string) (seq : Z) : string :=
  String.append (BEAT_KEY namespace nodeID instanceID) (String.append "|" (pretty seq)).

(** What a broker learns from a key or a value; own properties that the value lacks are [None]. *)
Record packet := Packet { sender : string; p_instanceID : option string; p_seq : number; p_cpu : option Z }.
Record beat := Beat { b_sender : option string; b_cpu : option Z; b_seq : option Z; b_instanceID : option string }.

(** [removeFromArray(arr, item)] *)
Definition removeFromArray (arr : list string) (item : string) : list string :=
  match Arr.findIndex (String.eqb item) arr with Some i => Arr.splice1 i arr | None => arr end.

(** [const p = key.substring(prefix.length).split("|")] and the object made of it *)
Definition parse_key (namespace key : string) : packet :=
  let p := Text.split "|" (Text.substring_from (String.length (BEAT namespace)) key) in
  Packet (default "" (p !! 0%nat)) (p !! 1%nat) (Number (p !! 2%nat)) None.

(** [{ sender, instanceID, seq, ...beat }] *)
Definition merge (p : packet) (b : beat) : packet :=
  Packet (default (sender p) (b_sender b))
    (match b_instanceID b with Some i => Some i | None => p_instanceID p end)
    (match b_seq b with Some q => Num q | None => p_seq p end) (b_cpu b).

(** ** The state *)

Record options := Options {
  namespace : string;
  instanceID : string;
  heartbeatTimeout : Z;               (* seconds *)
  fullCheck : Z                       (* [0] disables full checks *)
}.

Inductive command :=
| Multi (del : option string) (key : string) (ttl : Z) (value : string)  (* DEL, SETEX *)
| SetEx (key : string) (ttl : Z) (value : string)
| Expire (key : string) (ttl : Z)
| Scan (pattern : string)
| MGet (keys : list string)
| Get (key : string)
| Del (keys : list string)
| Quit.

(** Who called [collectOnlineNodes()] *)
Inductive owner := Heartbeat | Discovery.

(** A promise in progress, by what it waits for *)
Inductive task :=
| Measuring                                            (* [beat()]: the CPU usage *)
| Beating (seq : Z)                                    (* [sendHeartbeat()]: the reply *)
| Scanning (o : owner) (prev keys : list string)       (* [collectOnlineNodes()]: the stream *)
| Reading (o : owner) (prev keys : list string)        (* the values of a full check *)
| Lost (o : owner)                                     (* a promise that nothing settles *)
| Subscribing (to : option string) (info : node_info) (seq : Z)  (* [sendLocalNodeInfo()] *)
| Storing (to : option string) (seq : Z)
| Getting (id : string)                                (* [discoverNode(id)] *)
| Leaving | Forgetting                                 (* [localNodeDisconnected()]: the packet, the info key *)
| Cleaning (paused : bool)                             (* [scanClean()] *)
| Ended (ok : bool).

Inductive reply :=
| Settled (ok : bool)
| Measured (cpu : Z)
| Data (keys : list string) | ScanEnd | ScanError
| Values (l : list (option string))
| Value (v : option string).

Section redis.
Context {S : Type} `{Strategy S} (new_strategy : option string → S).
(** [serializer]: [None] is an exception. *)
Context (serialize_info : node_info → string) (serialize_beat : beat → string).
Context (deserialize_info : string → option node_info) (deserialize_beat : option string → option beat).

Record t := State {
  opts : options;
  reg : registry S;
  idx : Z;
  lastInfoSeq : Z;
  lastBeatSeq : Z;
  reconnecting : bool;
  infoUpdateTimer : option Z;         (* when it is due, in seconds *)
  tasks : list task;
  sent : list (Z * command);
  errors : list string                (* types of [$discoverer.error] *)
}.

Definition set_reg (x : registry S) (d : t) : t :=
  State (opts d) x (idx d) (lastInfoSeq d) (lastBeatSeq d) (reconnecting d) (infoUpdateTimer d) (tasks d) (sent d) (errors d).
Definition set_idx (x : Z) (d : t) : t :=
  State (opts d) (reg d) x (lastInfoSeq d) (lastBeatSeq d) (reconnecting d) (infoUpdateTimer d) (tasks d) (sent d) (errors d).
Definition set_seqs (info beat : Z) (d : t) : t :=
  State (opts d) (reg d) (idx d) info beat (reconnecting d) (infoUpdateTimer d) (tasks d) (sent d) (errors d).
Definition set_reconnecting (x : bool) (d : t) : t :=
  State (opts d) (reg d) (idx d) (lastInfoSeq d) (lastBeatSeq d) x (infoUpdateTimer d) (tasks d) (sent d) (errors d).
Definition set_timer (x : option Z) (d : t) : t :=
  State (opts d) (reg d) (idx d) (lastInfoSeq d) (lastBeatSeq d) (reconnecting d) x (tasks d) (sent d) (errors d).
Definition set_tasks (x : list task) (d : t) : t :=
  State (opts d) (reg d) (idx d) (lastInfoSeq d) (lastBeatSeq d) (reconnecting d) (infoUpdateTimer d) x (sent d) (errors d).
Definition send (now : Z) (c : command) (d : t) : t :=
  State (opts d) (reg d) (idx d) (lastInfoSeq d) (lastBeatSeq d) (reconnecting d) (infoUpdateTimer d) (tasks d)
    (sent d ++ [(now, c)]) (errors d).
Definition error (type : string) (d : t) : t :=
  State (opts d) (reg d) (idx d) (lastInfoSeq d) (lastBeatSeq d) (reconnecting d) (infoUpdateTimer d) (tasks d) (sent d)
    (errors d ++ [type]).

(** Task [i] goes on as [x]. *)
Definition put (i : nat) (x : task) (d : t) : t := set_tasks (<[i := x]> (tasks d)) d.
(** A new task *)
Definition begin (x : task) (d : t) : t := set_tasks (tasks d ++ [x]) d.

Definition own (d : t) : string := Registry.nodeID (cfg (reg d)).
Definition local_seq (d : t) : Z := Node.seq (node_of (st (reg d)) (localNode (reg d))).
Definition info_key (d : t) : string := INFO_KEY (namespace (opts d)) (own d).

Definition create (o : options) (r : registry S) (start : Z) : t :=
  State o r (if 1 <? fullCheck o then start else 0) 0 0 false None [] [] [].

(** ** Nodes *)

(** [discoverNode(nodeID)] *)
Definition discoverNode (now : Z) (id : string) (d : t) : t :=
  begin (Getting id) (send now (Get (INFO_KEY (namespace (opts d)) id)) d).

(** What the registry tells the discoverer *)
Definition perform (now : Z) (d : t) (e : effect) : t :=
  match e with DiscoverNode id => discoverNode now id d | _ => d end.
Definition with_registry (now : Z) (r : registry S) (d : t) : t :=
  foldl (perform now) (set_reg r d) (drop (length (out (reg d))) (out r)).

(** [heartbeatReceived(packet.sender, packet)]; a sequence number that is [NaN] differs from all. *)
Definition heartbeatReceived (now : Z) (p : packet) (d : t) : option t :=
  match p_seq p with
  | NaN => Some (discoverNode now (sender p) d)
  | Num q =>
      r ← Discoverer.heartbeatReceived_by (λ id, tell (DiscoverNode id)) (sender p)
            (Discoverer.Heartbeat (p_cpu p) None (Some q) (p_instanceID p)) now (reg d);
      Some (with_registry now r d)
  end.

(** The loop over the packets; a packet that could not be read is [None].  The result says
    whether the loop came to its end. *)
Fixpoint process (now : Z) (ps : list (option packet)) (prev : list string) (d : t) : list string * t * bool :=
  match ps with
  | [] => (prev, d, true)
  | None :: _ => (prev, d, false)
  | Some p :: ps =>
      if String.eqb (sender p) (own d) then process now ps prev d
      else
        let prev := removeFromArray prev (sender p) in
        match heartbeatReceived now p d with
        | Some d => process now ps prev d
        | None => (prev, d, false)
        end
  end.

(** ** [collectOnlineNodes()] *)

(** [prevNodes] *)
Definition prevNodes (d : t) : list string :=
  Arr.filter (λ id, negb (String.eqb id (own d)))
    (map (node_id (reg d)) (Arr.filter (λ n, Node.available (node_of (st (reg d)) n)) (OMap.values (nodes (reg d))))).

Definition collectOnlineNodes (now : Z) (o : owner) (i : nat) (d : t) : t :=
  put i (Scanning o (prevNodes d) []) (send now (Scan (String.append (BEAT (namespace (opts d))) "*")) d).

(** The nodes whose keys are gone *)
Definition finish (now : Z) (i : nat) (prev : list string) (d : t) : t :=
  put i (Ended true)
    (foldl (λ d id, with_registry now (Discoverer.remoteNodeDisconnected id true now (reg d)) d) d prev).

Definition process_packets (now : Z) (o : owner) (i : nat) (ps : list (option packet)) (prev : list string) (d : t) : t :=
  let '(prev, d, ok) := process now ps prev d in
  if ok then finish now i prev d else put i (Lost o) d.

(** The end of the scan: a full or a lazy check *)
Definition scanned (now : Z) (o : owner) (i : nat) (prev keys : list string) (d : t) : t :=
  match keys with
  | [] => finish now i prev d
  | _ =>
      if negb (fullCheck (opts d) =? 0) && ((idx d + 1) mod fullCheck (opts d) =? 0)
      then put i (Reading o prev keys) (send now (MGet keys) (set_idx 0 d))
      else
        let d := if fullCheck (opts d) =? 0 then d else set_idx (idx d + 1) d in
        process_packets now o i (map (λ k, Some (parse_key (namespace (opts d)) k)) keys) prev d
  end.

(** The packets of a full check *)
Definition read_packets (d : t) (keys : list string) (values : list (option string)) : list (option packet) :=
  zip_with (λ k v, merge (parse_key (namespace (opts d)) k) <$> deserialize_beat v) keys values.

(** ** [sendHeartbeat()] and [beat()] *)

Definition sendHeartbeat (now : Z) (i : nat) (d : t) : t :=
  let seq := local_seq d in
  let key := beat_key (namespace (opts d)) (own d) (instanceID (opts d)) in
  let data := Beat (Some (own d)) (Node.cpu (node_of (st (reg d)) (localNode (reg d)))) (Some seq) (Some (instanceID (opts d))) in
  put i (Beating seq)
    (send now (Multi (if seq =? lastBeatSeq d then None else Some (key (lastBeatSeq d))) (key seq)
                 (heartbeatTimeout (opts d)) (serialize_beat data)) d).

(** [collectOnlineNodes()] or what comes before it is rejected: [sendHeartbeat()] reports that. *)
Definition scan_failed (o : owner) (i : nat) (d : t) : t :=
  match o with
  | Heartbeat => put i (Ended true) (error "failedKeyScan" d)
  | Discovery => put i (Ended false) d
  end.

(** ** [sendLocalNodeInfo(nodeID)] *)

(** [!nodeID] *)
Definition no_target (to : option string) : bool := match to with Some id => String.eqb id "" | None => true end.

(** The value is stored once the subscriptions, if any, are made. *)
Definition store_info (now : Z) (i : nat) (to : option string) (info : node_info) (seq : Z) (d : t) : t :=
  put i (Storing to seq) (send now (SetEx (info_key d) (30 * 60) (serialize_info info)) d).

Definition sendLocalNodeInfo (now : Z) (to : option string) (d : t) : t :=
  let '(info, r) := LocalInfo.getLocalNodeInfo false (reg d) in
  let d := set_reg r d in
  let info := LocalInfo.with_sender (own d) info in
  let i := length (tasks d) in
  let seq := local_seq d in
  if no_target to && disableBalancer (cfg (reg d))
  then begin (Subscribing to info seq) d
  else store_info now i to info seq (begin (Subscribing to info seq) d).

(** [recreateInfoUpdateTimer()] *)
Definition recreateInfoUpdateTimer (now : Z) (d : t) : t := set_timer (Some (now + 20 * 60)) d.

(** ** Replies *)

(** Task [i] gets what it waits for; [None] when it does not wait for that. *)
Definition answer (now : Z) (i : nat) (r : reply) (d : t) : option t :=
  x ← tasks d !! i;
  match x, r with
  (* [beat()] *)
  | Measuring, Measured cpu => Some (sendHeartbeat now i (set_reg (Discoverer.beat cpu (reg d)) d))
  (* [sendHeartbeat()] *)
  | Beating seq, Settled true => Some (collectOnlineNodes now Heartbeat i (set_seqs (lastInfoSeq d) seq d))
  | Beating _, Settled false => Some (scan_failed Heartbeat i d)
  (* [collectOnlineNodes()] *)
  | Scanning o prev keys, Data l => Some (put i (Scanning o prev (keys ++ l)) d)
  | Scanning o prev keys, ScanEnd => Some (scanned now o i prev keys d)
  | Scanning o _ _, ScanError => Some (scan_failed o i d)
  | Reading o prev keys, Values l => Some (process_packets now o i (read_packets d keys l) prev d)
  | Reading o _ _, Settled false => Some (put i (Lost o) d)
  (* [sendLocalNodeInfo()] *)
  | Subscribing to info seq, Settled true => Some (store_info now i to info seq d)
  | Storing to seq, Settled true =>
      let d := recreateInfoUpdateTimer now (set_seqs seq (lastBeatSeq d) d) in
      Some (put i (if no_target to then Measuring else Ended true) d)
  | Subscribing _ _ _, Settled false | Storing _ _, Settled false => Some (put i (Ended true) (error "failedSendInfo" d))
  (* [discoverNode()] *)
  | Getting id, Value v =>
      let d := put i (Ended true) d in
      Some match v ≫= deserialize_info with
           | Some info => with_registry now (processNodeInfo new_strategy info now (reg d)) d
           | None => d
           end
  | Getting _, Settled false => Some (put i (Ended false) d)
  (* [localNodeDisconnected()] *)
  | Leaving, Settled _ => Some (put i Forgetting (send now (Del [info_key d]) d))
  | Forgetting, Settled true =>
      Some (put i (Cleaning false)
              (send now (Scan (String.append (BEAT_KEY (namespace (opts d)) (own d) (instanceID (opts d))) "*")) d))
  | Forgetting, Settled false => Some (put i (Ended false) d)
  | Cleaning false, Data [] => Some d
  | Cleaning false, Data l => Some (put i (Cleaning true) (send now (Del l) d))
  | Cleaning true, Settled true => Some (put i (Cleaning false) d)
  | Cleaning true, Settled false | Cleaning _, ScanError => Some (put i (Ended false) d)
  | Cleaning false, ScanEnd => Some (put i (Ended true) d)
  | _, _ => None
  end.

(** ** Calls and timers *)

Inductive event :=
| CallBeat                            (* the heartbeat timer *)
| DiscoverAllNodes
| SendLocalNodeInfo (to : option string)
| LocalNodeDisconnected
| InfoTimer                           (* the info timer fires *)
| Reconnecting | Connected            (* events of the client *)
| Stop
| Answer (i : nat) (r : reply).

Definition apply (now : Z) (e : event) (d : t) : option t :=
  match e with
  | CallBeat => Some (begin Measuring d)
  | DiscoverAllNodes => Some (collectOnlineNodes now Discovery (length (tasks d)) (begin Measuring d))
  | SendLocalNodeInfo to => Some (sendLocalNodeInfo now to d)
  | LocalNodeDisconnected => Some (begin Leaving d)
  | InfoTimer =>
      due ← infoUpdateTimer d;
      if due <=? now then Some (recreateInfoUpdateTimer now (send now (Expire (info_key d) (60 * 60)) d)) else None
  | Reconnecting => Some (set_seqs 0 0 (set_reconnecting true d))
  | Connected => Some (if reconnecting d then sendLocalNodeInfo now None (set_reconnecting false d) else d)
  | Stop => Some (send now Quit (set_timer None d))
  | Answer i r => answer now i r d
  end.

(** A run: what happens when *)
Fixpoint run (es : list (Z * event)) (d : t) : option t :=
  match es with
  | [] => Some d
  | (now, e) :: es => d ← apply now e d; run es d
  end.

End redis.
End RedisDiscoverer.
