(* ===== verification/RedisTheorems.v ===== *)
(** * What the Redis discoverer finds

    A check of the keys keeps exactly the nodes online whose beats are there
    ([redis_check]); after the replies that it asks for a broker knows exactly the brokers
    that announce themselves in Redis ([redis_converges]), in whatever order the replies come.
    The info key of a running broker does not expire ([info_key_kept]). *)

From Stdlib Require Import ZArith Lia Bool Ascii.
From stdpp Require Import base tactics list strings option gmap pretty.
From S2P Require Import Prelude Strategies RegistryData EndpointList Registry LocalInfo Gossip Discoverer Routing RegistryInv RegistrySpec GossipInv RegistryTheorems JsonText RedisDiscoverer.

Import Text RedisDiscoverer.

Local Open Scope Z_scope.

(** ** Keys *)

Lemma pretty_N_clean c n s : (∀ d, pretty_N_char d ≠ c) → contains c (pretty_N_go n s) = contains c s.
Proof.
  intros Hc. revert s. induction (N.lt_wf_0 n) as [n _ IH]. intros s.
  destruct (decide (n = 0)%N) as [->|Hn]; [by rewrite pretty_N_go_0|].
  rewrite pretty_N_go_step by lia. rewrite IH by (apply N.div_lt; lia). simpl.
  destruct (Ascii.eqb_spec (pretty_N_char (n `mod` 10)) c) as [He|]; [by destruct (Hc (n `mod` 10)%N)|done].
Qed.

Lemma pretty_clean (z : Z) : contains "|" (pretty z) = false.
Proof.
  assert (∀ d, pretty_N_char d ≠ "|"%char) as Hc.
  { intros d. unfold pretty_N_char. by repeat case_match. }
  assert (∀ n : N, contains "|" (pretty n) = false) as Hn.
  { intros n. unfold pretty, pretty_N. case_decide; [done|]. by rewrite pretty_N_clean. }
  destruct z as [|p|p]; [done|apply (Hn (N.pos p))|]. exact (Hn (N.pos p)).
Qed.

Lemma Number_pretty (z : Z) : Number (Some (pretty z)) = Num z.
Proof.
  pose proof (parse_number_pretty z EmptyString I) as Hp. rewrite append_nil in Hp.
  destruct (number_head z) as (c & r & Hz & _). rewrite Hz in Hp |- *. unfold Number. by rewrite Hp.
Qed.

(** What is read off a key that a broker wrote *)
Lemma parse_beat_key ns id inst q :
  contains "|" id = false → contains "|" (instanceHash inst) = false →
  parse_key ns (beat_key ns id inst q) = Packet id (Some (instanceHash inst)) (Num q) None.
Proof.
  intros Hid Hi. unfold parse_key, beat_key, BEAT_KEY.
  assert (∀ a b c, String.append (String.append a b) c = String.append a (String.append b c)) as Ha by apply append_assoc.
  rewrite !Ha, substring_append.
  assert (∀ a b, contains "|" a = false → split "|" (String.append a (String.append "|" b)) = a :: split "|" b) as Hs
    by (intros; by apply split_key_at).
  rewrite !Hs by done. rewrite split_one by apply pretty_clean. cbn [lookup list_lookup default from_option]. by rewrite Number_pretty.
Qed.

(** ** What the registry asks for *)

Section quiet.
Context {S : Type} `{Strategy S} (new_strategy : option string → S).

Notation reg := (registry S).

Definition no_request (e : effect) : Prop := match e with DiscoverNode _ => False | _ => True end.

(** Only notifications were told. *)
Definition quiet (r r' : reg) : Prop := ∃ es, out r' = out r ++ es ∧ Forall no_request es.

#[export] Instance quiet_preorder : PreOrder quiet.
Proof.
  split; [intros r; exists []; split; [by rewrite app_nil_r|done]|].
  intros r1 r2 r3 (es & E & ?) (es' & E' & ?). exists (es ++ es'). split; [by rewrite E', E, app_assoc|by apply Forall_app].
Qed.

Lemma quiet_out r r' : out r' = out r → quiet r r'.
Proof. intros E. exists []. rewrite E, app_nil_r. done. Qed.

Lemma quiet_tell e r : no_request e → quiet r (tell e r).
Proof. intros He. exists [e]. split; [done|]. by apply Forall_singleton. Qed.

Lemma quiet_loop {B} (f : reg → B → reg) l r : (∀ r b, quiet r (f r b)) → quiet r (foldl f r l).
Proof. intros Hf. revert r. induction l as [|b l IH]; intros r; simpl; [done|]. etransitivity; [apply Hf|apply IH]. Qed.

Lemma registerActions_quiet n s acts r : quiet r (registerActions new_strategy n s acts r).
Proof.
  apply quiet_loop. intros r' [k a]. destruct (checkActionVisibility _ _); [|done]. apply quiet_out.
  unfold actions_add. by destruct (EndpointList.add _ _ _ _ _ _).
Qed.

Lemma registerEvents_quiet n s evs r : quiet r (registerEvents new_strategy n s evs r).
Proof. apply quiet_loop. intros r' [k e]. apply quiet_out. unfold events_add. by destruct (EndpointList.add _ _ _ _ _ _). Qed.

Lemma registerService_quiet n r v : quiet r (registerService new_strategy n r v).
Proof.
  rewrite registerService_eq. assert (quiet r (enter n v r).2) as He.
  { unfold enter. destruct (services_get _ _ r); [by apply quiet_out|].
    unfold services_add. destruct (new_svc _ _) eqn:Hn. by apply quiet_out. }
  destruct (enter n v r) as [[s prev] r1]. simpl in He. etransitivity; [exact He|]. clear r He.
  assert (∀ r, quiet r (put_actions new_strategy n v s r)) as Ha.
  { intros r. unfold put_actions. destruct (sv_actions v); [apply registerActions_quiet|done]. }
  assert (∀ r, quiet r (put_events new_strategy n v s r)) as Hv.
  { intros r. unfold put_events. destruct (sv_events v); [apply registerEvents_quiet|done]. }
  unfold refresh. destruct prev as [[pa pe]|]; [|etransitivity; [apply Ha|apply Hv]].
  unfold drop_events, drop_actions.
  etransitivity; [apply Ha|]. etransitivity; [|etransitivity; [apply Hv|apply quiet_loop]].
  2: { intros r' [k a]. destruct (has_key _ _); [done|by apply quiet_out]. }
  apply quiet_loop. intros r' [k a]. destruct (has_key _ _); [done|]. apply quiet_out.
  unfold unregisterAction, actions_remove. by destruct (OMap.get k _).
Qed.

Lemma unregisterService_quiet fn id r : quiet r (unregisterService fn id r).
Proof.
  apply quiet_out. unfold unregisterService. set (i := match id with Some _ => _ | None => _ end).
  assert (∀ r : reg, out (services_remove fn (Some i) r) = out r) as Hr.
  { intros r0. unfold services_remove. by destruct (services_get _ _ r0). }
  destruct (String.eqb _ _); [|apply Hr]. simpl.
  destruct (Node.services _); [apply Hr|]. destruct (Arr.findIndex _ _); apply Hr.
Qed.

Lemma registerServices_quiet n l r : quiet r (registerServices new_strategy n l r).
Proof.
  unfold registerServices. etransitivity; [apply (quiet_loop (registerService new_strategy n)); apply registerService_quiet|].
  etransitivity; [|by apply quiet_tell]. etransitivity; [|by apply quiet_tell].
  apply quiet_loop. intros r' s. destruct (Pos.eqb _ _); [|done]. destruct (existsb _ _); [done|]. apply unregisterService_quiet.
Qed.

Lemma processNodeInfo_quiet p now r : quiet r (processNodeInfo new_strategy p now r).
Proof.
  rewrite processNodeInfo_eq. destruct (greet _ _ r) as [[[n a] b] r1] eqn:Hg.
  assert (out r1 = out r) as Ho.
  { unfold greet in Hg. destruct (OMap.get _ _); [by destruct (Node.available _); simplify_eq|].
    destruct (new_node _ _). by simplify_eq. }
  destruct (Node.update _ _ _) as [x need]. etransitivity; [by apply quiet_out|]. simpl.
  assert (∀ r, quiet r (notify (i_sender p) a b r)) as Hn.
  { intros r0. destruct a, b; eexists; (split; [simpl; rewrite <- ?app_assoc; reflexivity|repeat constructor]). }
  etransitivity; [|apply Hn]. etransitivity; [by apply (quiet_out _ (set_st (upd_node (λ _, x) n (st r1)) r1))|].
  destruct (i_services p); [|done]. destruct need; [|done].
  etransitivity; [|apply registerServices_quiet]. by apply quiet_out.
Qed.

Lemma disconnected_quiet id u now r : quiet r (disconnected id u now r).
Proof.
  unfold disconnected. destruct (OMap.get _ _) as [n|]; [|done]. destruct (Node.available _); [|done].
  set (r1 := set_st _ r). set (r2 := unregisterServicesByNode _ r1).
  assert (out r2 = out r) as Ho.
  { unfold r2, unregisterServicesByNode, services_removeAllByNodeID. simpl.
    change (out r) with (out r1). apply (foldl_invariant (λ r', out r' = out r1)); [done|].
    intros r' s _ <-. by destruct (String.eqb _ _). }
  clearbody r2. cbv zeta. set (r3 := tell _ (tell _ (tell _ r2))). assert (quiet r r3) as H3.
  { etransitivity; [by apply (quiet_out r r2)|]. eexists. split; [simpl; rewrite <- !app_assoc; reflexivity|repeat constructor]. }
  destruct (hasTransit _); [|exact H3]. etransitivity; [exact H3|]. by apply quiet_tell.
Qed.

End quiet.

(** ** A check, node by node *)

(** Whether a broker has a node online. *)
Definition online {S} (r : registry S) (id : string) : bool :=
  match view r id with Some x => Node.available x | None => false end.

(** What decides about heartbeats *)
Definition face (v : option Node.t) : option (bool * Z * json) :=
  (λ x, (Node.available x, Node.seq x, Node.instanceID x)) <$> v.

(** The packet is of the instance and the services that the broker knows. *)
Definition fresh (p : packet) (v : option Node.t) : bool :=
  match v, p_seq p with
  | Some x, Num q =>
      Node.available x && (Node.seq x =? q) &&
      match p_instanceID p, Node.instanceID x with
      | None, _ => true
      | Some i, JStr j => String.prefix i j
      | Some _, _ => false
      end
  | _, _ => false
  end.

(** What a heartbeat makes of a node *)
Definition beaten (now : Z) (p : packet) (v : option Node.t) : option Node.t :=
  match v with
  | Some x => if fresh p v then Some (Node.heartbeat (p_cpu p) None now x) else v
  | None => None
  end.

(** The instance IDs of the other nodes are strings. *)
Definition instances {S} (r : registry S) : Prop :=
  ∀ id x, id ≠ Registry.nodeID (cfg r) → view r id = Some x → ∃ j, Node.instanceID x = JStr j.

Lemma fresh_face p v v' : face v = face v' → fresh p v = fresh p v'.
Proof. destruct v as [x|], v' as [y|]; try done. intros [= E1 E2 E3]. unfold fresh. by rewrite E1, E2, E3. Qed.

Lemma face_beaten now p v : face (beaten now p v) = face v.
Proof.
  destruct v as [x|]; [|done]. unfold beaten. destruct (fresh p (Some x)) eqn:Hf; [|done].
  simpl. unfold fresh in Hf. destruct (p_seq p); [done|]. apply andb_true_iff in Hf as [Hf _].
  apply andb_true_iff in Hf as [-> _]. done.
Qed.

Lemma online_face {S} (r r' : registry S) id : face (view r' id) = face (view r id) → online r' id = online r id.
Proof. unfold online. destruct (view r' id), (view r id); try done. by intros [=]. Qed.

Section check.
Context {S : Type} `{Strategy S}.

Notation t := (@t S).

(** The discoverer did its work on the registry and asked for the INFO of some nodes. *)
Record moved (ids : list string) (d d' : t) : Prop := {
  mv_opts : opts d' = opts d;
  mv_ok : ok (reg d');
  mv_cfg : cfg (reg d') = cfg (reg d);
  mv_tasks : tasks d' = tasks d ++ map Getting ids
}.

Lemma moved_refl d : ok (reg d) → moved [] d d.
Proof. constructor; [done..|]. by rewrite app_nil_r. Qed.

Lemma moved_trans ids ids' d1 d2 d3 : moved ids d1 d2 → moved ids' d2 d3 → moved (ids ++ ids') d1 d3.
Proof. intros [] []. constructor; [congruence|done|congruence|]. rewrite map_app, app_assoc. congruence. Qed.

(** The nodes that the registry asks for *)
Definition asked (es : list effect) : list string :=
  omap (λ e, match e with DiscoverNode id => Some id | _ => None end) es.

Lemma with_registry_spec now r (d : t) es :
  out r = out (reg d) ++ es → let d' := with_registry now r d in
  opts d' = opts d ∧ reg d' = r ∧ tasks d' = tasks d ++ map Getting (asked es).
Proof.
  intros E. unfold with_registry. rewrite E, drop_app_length. clear E.
  assert (∀ d : t, let d' := foldl (perform now) d es in
    opts d' = opts d ∧ reg d' = reg d ∧ tasks d' = tasks d ++ map Getting (asked es)) as Hl; [|apply (Hl (set_reg r d))].
  induction es as [|e es IH]; intros d0; simpl; [by rewrite app_nil_r|].
  destruct (IH (perform now d0 e)) as (-> & -> & ->). destruct e; try done.
  split_and!; [done..|]. simpl. by rewrite <- app_assoc.
Qed.

Lemma with_quiet now r (d : t) : quiet (reg d) r → ok r → cfg r = cfg (reg d) → moved [] d (with_registry now r d).
Proof.
  intros (es & E & Hq) Hok Hc. destruct (with_registry_spec now r d es E) as (H1 & H2 & H3).
  assert (asked es = []) as Ha.
  { clear -Hq. induction Hq as [|e es He _ IH]; [done|]. simpl. by destruct e. }
  rewrite Ha in H3. constructor; [done|by rewrite H2|by rewrite H2|done].
Qed.

(** A heartbeat in the registry *)
Lemma beat_spec now p q (r : registry S) :
  p_seq p = Num q → ok r → sender p ≠ Registry.nodeID (cfg r) → instances r →
  let v := view r (sender p) in
  ∃ r', Discoverer.heartbeatReceived_by (λ id, tell (DiscoverNode id)) (sender p)
          (Discoverer.Heartbeat (p_cpu p) None (Some q) (p_instanceID p)) now r = Some r' ∧
        ok r' ∧ cfg r' = cfg r ∧ spares (sender p) r r' ∧ view r' (sender p) = beaten now p v ∧
        out r' = out r ++ (if fresh p v then [] else [DiscoverNode (sender p)]).
Proof.
  intros Hq Hok Hne Hin v. pose proof (Hin (sender p)) as Hj.
  assert (fresh p v = false → ∃ r', Some (tell (DiscoverNode (sender p)) r) = Some r' ∧
    ok r' ∧ cfg r' = cfg r ∧ spares (sender p) r r' ∧ view r' (sender p) = beaten now p v ∧
    out r' = out r ++ (if fresh p v then [] else [DiscoverNode (sender p)])) as Hask.
  { intros Hf. rewrite Hf. eexists. split_and!; [done|by apply ok_tell|done|by constructor| |done].
    change (view _ _) with v. unfold beaten. destruct v; [by rewrite Hf|done]. }
  unfold Discoverer.heartbeatReceived_by. destruct (OMap.get (sender p) (nodes r)) as [n|] eqn:Hg.
  2: { apply Hask. unfold v, view. by rewrite Hg. }
  set (x := node_of (st r) n) in *. assert (v = Some x) as Hv by (unfold v, view; by rewrite Hg).
  destruct (Hj _ Hne Hv) as [j Hi].
  assert (fresh p v = true → ∃ r', Some (set_st (upd_node (Node.heartbeat (p_cpu p) None now) n (st r)) r) = Some r' ∧
    ok r' ∧ cfg r' = cfg r ∧ spares (sender p) r r' ∧ view r' (sender p) = beaten now p v ∧
    out r' = out r ++ (if fresh p v then [] else [DiscoverNode (sender p)])) as Hbeat.
  { intros Hf. eexists. split; [done|]. fold (Gossip.upd (Node.heartbeat (p_cpu p) None now) n r). rewrite Hf.
    split_and!; [by apply upd_good|done|by apply spares_upd; [apply Hok|]| |by rewrite app_nil_r].
    rewrite view_upd_eq by (done || apply Hok). rewrite Hv in Hf |- *. unfold beaten. by rewrite Hf. }
  clearbody v. subst v. revert Hask Hbeat. generalize (beaten now p (Some x)). intros w Hask Hbeat. unfold fresh in Hask, Hbeat |- *. rewrite Hq, Hi in *. simpl.
  destruct (Node.available x); simpl in *; [|by apply Hask].
  destruct (Node.seq x =? q); simpl in *; [|by apply Hask].
  destruct (p_instanceID p) as [i|]; [|by apply Hbeat].
  destruct (String.prefix i j); [by apply Hbeat|by apply Hask].
Qed.

Lemma heartbeat_spec now p (d : t) :
  ok (reg d) → sender p ≠ own d → instances (reg d) →
  let v := view (reg d) (sender p) in
  ∃ d', heartbeatReceived now p d = Some d' ∧ moved (if fresh p v then [] else [sender p]) d d' ∧
        spares (sender p) (reg d) (reg d') ∧ view (reg d') (sender p) = beaten now p v.
Proof.
  intros Hok Hne Hin v. unfold heartbeatReceived. destruct (p_seq p) as [|q] eqn:Hq.
  - assert (fresh p v = false) as Hf by (unfold fresh; rewrite Hq; by destruct v).
    exists (discoverNode now (sender p) d). rewrite Hf. split_and!; [done|by constructor|by constructor|].
    unfold beaten. change (view _ _) with v. destruct v; [by rewrite Hf|done].
  - destruct (beat_spec now p q (reg d) Hq Hok Hne Hin) as (r' & -> & Hok' & Hc & Hs & Hv & Ho).
    eexists. split; [done|]. destruct (with_registry_spec now r' d _ Ho) as (H1 & H2 & H3). rewrite H2.
    split_and!; [constructor; rewrite ?H2; try done|done|done]. rewrite H3. by destruct (fresh _ _).
Qed.

(** *** The loop over the packets *)

Definition seen (ps : list packet) (id : string) : Prop := ∃ p, p ∈ ps ∧ sender p = id.

Lemma seen_dec ps id : seen ps id ∨ ¬ seen ps id.
Proof.
  destruct (decide (id ∈ sender <$> ps)) as [Hi|Hn]; [left|right].
  - apply list_elem_of_fmap in Hi as (p & -> & Hp). by exists p.
  - intros (p & Hp & <-). apply Hn. apply list_elem_of_fmap. eauto.
Qed.

(** A packet of the node that is not of what the broker knows *)
Definition outdated (r : registry S) (ps : list packet) (id : string) : Prop :=
  ∃ p, p ∈ ps ∧ sender p = id ∧ fresh p (view r id) = false.

Lemma removeFromArray_elem (l : list string) x y : NoDup l → y ∈ removeFromArray l x ↔ y ∈ l ∧ y ≠ x.
Proof.
  unfold removeFromArray. destruct (Arr.findIndex (String.eqb x) l) as [i|] eqn:Hf.
  - intros Hnd. revert i Hf. induction l as [|z l IH]; intros i; simpl; [done|].
    apply list.NoDup_cons in Hnd as [Hz Hnd].
    destruct (String.eqb_spec x z) as [->|Hne].
    + intros [= <-]. unfold Arr.splice1. simpl. rewrite drop_0. rewrite elem_of_cons. split; [|by intros [[->|] ?]].
      intros Hy. split; [by right|by intros ->].
    + destruct (Arr.findIndex _ l) as [j|]; simpl; [|done]. intros [= <-]. unfold Arr.splice1. simpl.
      rewrite !elem_of_cons. specialize (IH Hnd j eq_refl). unfold Arr.splice1 in IH. simpl in IH. rewrite IH.
      split; [intros [->|[? ?]]; split; auto|]. intros [[->|] ?]; auto.
  - intros _. split; [|by intros [? _]]. intros Hy. split; [done|]. intros ->.
    induction l as [|z l IH]; [by apply elem_of_nil in Hy|]. simpl in Hf.
    destruct (String.eqb_spec x z) as [|Hne]; [done|]. apply elem_of_cons in Hy as [Hy|Hy]; [done|].
    destruct (Arr.findIndex _ l); [done|auto].
Qed.

Lemma removeFromArray_nodup (l : list string) x : NoDup l → NoDup (removeFromArray l x).
Proof.
  intros Hnd. unfold removeFromArray. destruct (Arr.findIndex _ l) as [i|]; [|done]. unfold Arr.splice1.
  assert (NoDup (take i l ++ drop i l)) as Ha by by rewrite take_drop.
  apply list.NoDup_app in Ha as (H1 & H2 & H3). apply list.NoDup_app. split_and!; [done| |].
  - intros y Hy Hd. apply (H2 y Hy). rewrite list_elem_of_lookup in Hd |- *. destruct Hd as [k Hk].
    exists (Datatypes.S k). rewrite lookup_drop in Hk |- *. rewrite <- Hk. f_equal. lia.
  - replace (drop (Datatypes.S i) l) with (drop 1 (drop i l)) by (rewrite drop_drop; f_equal; lia).
    eapply sublist_NoDup; [exact H3|]. apply sublist_drop.
Qed.

Lemma process_spec now ps (d : t) prev :
  ok (reg d) → instances (reg d) → NoDup prev →
  ∃ prev' d' ids, process now (map Some ps) prev d = (prev', d', true) ∧ moved ids d d' ∧ NoDup prev' ∧
    (∀ id, id ∈ prev' ↔ id ∈ prev ∧ ¬ (seen ps id ∧ id ≠ own d)) ∧
    (∀ id, id ∈ ids ↔ id ≠ own d ∧ outdated (reg d) ps id) ∧
    (∀ id, face (view (reg d') id) = face (view (reg d) id)).
Proof.
  revert d prev. induction ps as [|p ps IH]; intros d prev Hok Hin Hnd; simpl.
  - exists prev, d, []. split_and!; [done|by apply moved_refl|done| | |done].
    + intros id. split; [|by intros [? _]]. intros Hid. split; [done|]. intros [(p & Hp & _) _]. by apply elem_of_nil in Hp.
    + intros id. split; [by intros ?%elem_of_nil|]. intros (_ & p & Hp & _). by apply elem_of_nil in Hp.
  - destruct (String.eqb_spec (sender p) (own d)) as [He|Hne].
    + destruct (IH d prev Hok Hin Hnd) as (prev' & d' & ids & -> & Hm & Hnd' & Hp & Hi & Hf).
      exists prev', d', ids. split_and!; [done..| | |done]; intros id; rewrite ?Hp, ?Hi.
      * unfold seen. setoid_rewrite elem_of_cons. split; (intros [H1 H2]; split; [done|]; intros [(x & Hx & Hs) Ho]; apply H2; split; [|done]).
        { destruct Hx as [->|Hx]; [congruence|eauto]. }
        { eauto. }
      * unfold outdated. setoid_rewrite elem_of_cons. split; intros (Ho & x & Hx & Hs & Hfr); (split; [done|]).
        { exists x. eauto. }
        { destruct Hx as [->|Hx]; [congruence|eauto]. }
    + destruct (heartbeat_spec now p d Hok Hne Hin) as (d1 & -> & Hm1 & Hsp & Hv1).
      assert (∀ id, face (view (reg d1) id) = face (view (reg d) id)) as Hface.
      { intros id. destruct (decide (id = sender p)) as [->|Hid]; [by rewrite Hv1, face_beaten|by rewrite (sp_view _ _ _ Hsp)]. }
      assert (own d1 = own d) as Ho1 by (unfold own; by rewrite (mv_cfg _ _ _ Hm1)).
      destruct (IH d1 (removeFromArray prev (sender p))) as (prev' & d' & ids & E & Hm & Hnd' & Hp & Hi & Hf).
      { apply Hm1. }
      { intros id x Hid Hx. rewrite (mv_cfg _ _ _ Hm1) in Hid. pose proof (Hface id) as He. rewrite Hx in He.
        destruct (view (reg d) id) as [y|] eqn:Hy; [|done]. destruct (Hin id y Hid Hy) as [j Hj].
        exists j. simpl in He. by injection He as _ _ ->. }
      { by apply removeFromArray_nodup. }
      exists prev', d', ((if fresh p (view (reg d) (sender p)) then [] else [sender p]) ++ ids).
      split_and!; [done|by eapply moved_trans|done| | |intros id; by rewrite Hf, Hface]; intros id.
      * rewrite Hp, removeFromArray_elem, Ho1 by done. unfold seen. setoid_rewrite elem_of_cons. split.
        { intros [[H1 H2] H3]. split; [done|]. intros [(x & [->|Hx] & Hs) Ho]; [by subst|]. apply H3. eauto. }
        { intros [H1 H2]. split_and!; [done|intros ->; apply H2; eauto|]. intros [(x & Hx & Hs) Ho]. apply H2. eauto. }
      * rewrite elem_of_app, Hi, Ho1. unfold outdated. setoid_rewrite elem_of_cons.
        assert (∀ x, fresh x (view (reg d1) id) = fresh x (view (reg d) id)) as Hfr by (intros; by apply fresh_face).
        split.
        { intros [Hid|(Ho & x & Hx & Hs & Hxf)].
          - destruct (fresh p (view (reg d) (sender p))) eqn:Hpf; [by apply elem_of_nil in Hid|].
            apply list_elem_of_singleton in Hid as ->. split; [done|]. exists p. eauto.
          - split; [done|]. exists x. rewrite Hfr in Hxf. eauto. }
        { intros (Ho & x & [->|Hx] & Hs & Hxf).
          - left. subst id. rewrite Hxf. by left.
          - right. split; [done|]. exists x. by rewrite Hfr. }
Qed.

(** *** Nodes without keys *)

Lemma gone_spec now id (r : registry S) :
  ok r → id ≠ Registry.nodeID (cfg r) → let r' := Discoverer.remoteNodeDisconnected id true now r in
  ok r' ∧ cfg r' = cfg r ∧ spares id r r' ∧ online r' id = false ∧ quiet r r'.
Proof.
  intros Hok Hid. unfold Discoverer.remoteNodeDisconnected. pose proof (disconnected_quiet id true now r) as Hq.
  assert (disconnected id true now r = r → online r id = false → let r' := disconnected id true now r in
    ok r' ∧ cfg r' = cfg r ∧ spares id r r' ∧ online r' id = false ∧ quiet r r') as Hsame.
  { intros E Ho. simpl. rewrite E in *. split_and!; [done|done|by constructor|done|done]. }
  destruct (OMap.get id (nodes r)) as [n|] eqn:Hg.
  - destruct (Node.available (node_of (st r) n)) eqn:Hav.
    + destruct (disconnected_spec id true now r n Hok Hid Hg Hav) as (Hok' & _ & _ & Hn & Hoff & Hoth & Hc).
      pose proof (disconnected_nodes id true now r n (proj1 Hok) Hg Hav) as Hsn. simpl.
      split_and!; [done|done| | |done].
      * etransitivity; [by apply (spares_upd (Node.disconnected now) n); [apply Hok|]|].
        constructor; [|apply Hsn..]. intros j _. by apply same_nodes_view.
      * unfold online, view. by rewrite Hn, Hg.
    + apply Hsame; [unfold disconnected; by rewrite Hg, Hav|]. unfold online, view. by rewrite Hg.
  - apply Hsame; [unfold disconnected; by rewrite Hg|]. unfold online, view. by rewrite Hg.
Qed.

Lemma gone_loop now prev (d : t) :
  ok (reg d) → own d ∉ prev →
  let d' := foldl (λ d id, with_registry now (Discoverer.remoteNodeDisconnected id true now (reg d)) d) d prev in
  moved [] d d' ∧ ∀ id, (id ∉ prev → view (reg d') id = view (reg d) id) ∧ (id ∈ prev → online (reg d') id = false).
Proof.
  revert d. induction prev as [|j prev IH]; intros d Hok Ho; simpl.
  - split; [by apply moved_refl|]. intros id. split; [done|by intros ?%elem_of_nil].
  - rewrite not_elem_of_cons in Ho. destruct Ho as [Hj Ho].
    destruct (gone_spec now j (reg d) Hok (not_eq_sym Hj)) as (Hok1 & Hc1 & Hs1 & Hoff & Hq).
    set (r1 := Discoverer.remoteNodeDisconnected j true now (reg d)) in *.
    pose proof (with_quiet now r1 d Hq Hok1 Hc1) as Hm1.
    destruct Hq as (es & Es & _). destruct (with_registry_spec now r1 d es Es) as (_ & Hr & _).
    set (d1 := with_registry now r1 d) in *.
    destruct (IH d1) as [Hm Hv]; [apply Hm1|unfold own; by rewrite (mv_cfg _ _ _ Hm1)|].
    split; [exact (moved_trans [] [] _ _ _ Hm1 Hm)|]. intros id. destruct (Hv id) as [H1 H2].
    rewrite not_elem_of_cons, elem_of_cons. split.
    + intros [Hid Hin]. rewrite H1 by done. rewrite Hr. by rewrite (sp_view _ _ _ Hs1).
    + intros Hin. destruct (decide (id ∈ prev)) as [|Hni]; [auto|]. destruct Hin as [->|]; [|done].
      unfold online. rewrite H1 by done. by rewrite Hr.
Qed.


Lemma prevNodes_spec (d : t) : ok (reg d) →
  NoDup (prevNodes d) ∧ ∀ id, id ∈ prevNodes d ↔ id ≠ own d ∧ online (reg d) id = true.
Proof.
  intros Hok. pose proof (proj1 Hok) as Hi. unfold prevNodes. split.
  - apply Arr.NoDup_filter. pose proof (values_nodup (reg d) Hi) as Hnd.
    assert (∀ n, n ∈ Arr.filter (λ n, Node.available (node_of (st (reg d)) n)) (OMap.values (nodes (reg d))) → known (reg d) n) as Hk.
    { intros n Hn. apply Arr.elem_of_filter in Hn as [Hn _]. by apply known_values. }
    apply (Arr.NoDup_filter (λ n, Node.available (node_of (st (reg d)) n))) in Hnd.
    revert Hnd Hk. generalize (Arr.filter (λ n, Node.available (node_of (st (reg d)) n)) (OMap.values (nodes (reg d)))).
    intros l Hnd Hk. induction Hnd as [|n l Hn Hnd IH]; simpl; [constructor|]. constructor.
    + intros Hin. apply list_elem_of_fmap in Hin as (m & E & Hm). apply Hn.
      assert (known (reg d) n) as Hkn by (apply Hk; by left). assert (known (reg d) m) as Hkm by (apply Hk; by right).
      unfold known in *. rewrite E in Hkn. rewrite Hkm in Hkn. by injection Hkn as ->.
    + apply IH. intros m Hm. apply Hk. by right.
  - intros id. rewrite Arr.elem_of_filter, list_elem_of_fmap. split.
    + intros [(n & -> & Hn) Hid]. apply Arr.elem_of_filter in Hn as [Hn Hav]. apply negb_true_iff, String.eqb_neq in Hid.
      split; [done|]. unfold online. by rewrite (view_known (reg d) n) by by apply known_values.
    + intros [Hid Hon]. unfold online, view in Hon. destruct (OMap.get id (nodes (reg d))) as [n|] eqn:Hg; [|done].
      simpl in Hon. split; [|by apply negb_true_iff, String.eqb_neq].
      pose proof (OMap.get_Some_elem _ _ _ Hg) as Hin. destruct (inv_nodes _ Hi _ _ Hin) as [_ Hid']. exists n.
      split; [done|]. apply Arr.elem_of_filter. split; [|done]. apply elem_of_values. eauto.
Qed.

(** A check whose packets could all be read *)
Lemma process_packets_spec now o i ps (d : t) :
  ok (reg d) → instances (reg d) → (i < length (tasks d))%nat →
  ∃ ids, let d' := process_packets now o i (map Some ps) (prevNodes d) d in
  opts d' = opts d ∧ ok (reg d') ∧ cfg (reg d') = cfg (reg d) ∧
  tasks d' = <[i := Ended true]> (tasks d) ++ map Getting ids ∧
  (∀ id, id ∈ ids ↔ id ≠ own d ∧ outdated (reg d) ps id) ∧
  (∀ id, id = own d ∨ seen ps id ∨ online (reg d) id = false → face (view (reg d') id) = face (view (reg d) id)) ∧
  (∀ id, id ≠ own d → online (reg d') id = true ↔ online (reg d) id = true ∧ seen ps id).
Proof.
  intros Hok Hin Hi. destruct (prevNodes_spec d Hok) as [Hnd Hprev].
  destruct (process_spec now ps d (prevNodes d) Hok Hin Hnd) as (prev' & d1 & ids & E & Hm & _ & Hp & Hids & Hf).
  exists ids. unfold process_packets. rewrite E. unfold finish. cbv zeta.
  assert (∀ id, id ∈ prev' ↔ id ≠ own d ∧ online (reg d) id = true ∧ ¬ seen ps id) as Hgone.
  { intros id. rewrite Hp, Hprev. tauto. }
  assert (own d1 = own d) as Ho1 by (unfold own; by rewrite (mv_cfg _ _ _ Hm)).
  destruct (gone_loop now prev' d1) as [Hm2 Hv2]; [apply Hm|rewrite Ho1, Hgone; tauto|].
  pose proof (moved_trans _ _ _ _ _ Hm Hm2) as Hm3. rewrite app_nil_r in Hm3.
  set (d2 := foldl _ d1 prev') in *. destruct Hm3 as [H1 H2 H3 H4]. simpl.
  assert (∀ id, id ∉ prev' → face (view (reg d2) id) = face (view (reg d) id)) as Hstay.
  { intros id Hni. destruct (Hv2 id) as [Hv _]. by rewrite Hv, Hf. }
  split_and!; [done|done|done| |done| |].
  - rewrite H4. by rewrite insert_app_l.
  - intros id Hid. apply Hstay. rewrite Hgone. intros (Ha & Hb & Hc). destruct Hid as [->|[?|?]]; congruence.
  - intros id Hid. destruct (decide (id ∈ prev')) as [Hin'|Hni].
    + destruct (Hv2 id) as [_ Hv]. rewrite Hv by done. apply Hgone in Hin' as (_ & _ & Hns). split; [done|tauto].
    + rewrite (online_face (reg d) (reg d2) id) by by apply Hstay. rewrite Hgone in Hni.
      split; [|tauto]. intros Hon. split; [done|]. destruct (seen_dec ps id); tauto.
Qed.

End check.

(** ** The end of a check *)

(** Two brokers that announce themselves have different IDs. *)
Lemma alive_inj alive p p' :
  NoDup (map i_sender alive) → p ∈ alive → p' ∈ alive → i_sender p' = i_sender p → p' = p.
Proof.
  intros Hnd Hp Hp' Es. apply list_elem_of_lookup in Hp as [a Ha], Hp' as [b Hb]. assert (a = b) as ->; [|congruence].
  apply (NoDup_lookup (map i_sender alive) a b (i_sender p)); [done| |]; apply list_lookup_fmap_Some; eauto.
Qed.

Section replies.
Context {S : Type} `{Strategy S} (new_strategy : option string → S).
Context (serialize_info : node_info → string) (serialize_beat : beat → string).
Context (deserialize_info : string → option node_info) (deserialize_beat : option string → option beat).

Notation t := (@t S).
Notation answer := (answer new_strategy serialize_info serialize_beat deserialize_info deserialize_beat).

Definition full_due (d : t) : bool := negb (fullCheck (opts d) =? 0) && ((idx d + 1) mod fullCheck (opts d) =? 0).

(** The reply that ends a check, with the packets that it yields; since the check began no
    other node went online or offline. *)
Inductive checks (d : t) (i : nat) (o : owner) : reply → list packet → Prop :=
| lazy_check keys :
    tasks d !! i = Some (Scanning o (prevNodes d) keys) → keys = [] ∨ full_due d = false →
    checks d i o ScanEnd (map (parse_key (namespace (opts d))) keys)
| full_check keys values ps :
    tasks d !! i = Some (Reading o (prevNodes d) keys) → read_packets deserialize_beat d keys values = map Some ps →
    checks d i o (Values values) ps.

Lemma check_spec now (d : t) i o r ps :
  ok (reg d) → instances (reg d) → checks d i o r ps →
  ∃ d' ids, answer now i r d = Some d' ∧ opts d' = opts d ∧ ok (reg d') ∧ cfg (reg d') = cfg (reg d) ∧
  tasks d' = <[i := Ended true]> (tasks d) ++ map Getting ids ∧
  (∀ id, id ∈ ids ↔ id ≠ own d ∧ outdated (reg d) ps id) ∧
  (∀ id, id = own d ∨ seen ps id ∨ online (reg d) id = false → face (view (reg d') id) = face (view (reg d) id)) ∧
  (∀ id, id ≠ own d → online (reg d') id = true ↔ online (reg d) id = true ∧ seen ps id).
Proof.
  intros Hok Hin Hc. destruct Hc as [keys Ht Hlazy|keys values ps Ht Hps].
  - assert (i < length (tasks d))%nat as Hi by by eapply lookup_lt_Some.
    unfold RedisDiscoverer.answer. rewrite Ht. simpl. unfold scanned. destruct keys as [|k keys].
    + destruct (process_packets_spec now o i [] d Hok Hin Hi) as [ids Hs]. by exists (process_packets now o i [] (prevNodes d) d), ids.
    + fold (full_due d). destruct Hlazy as [?|Hfd]; [done|]. rewrite Hfd. set (d0 := if fullCheck (opts d) =? 0 then d else _).
      assert (opts d0 = opts d ∧ reg d0 = reg d ∧ tasks d0 = tasks d) as (E1 & E2 & E3) by (unfold d0; by case_match).
      assert (prevNodes d0 = prevNodes d ∧ own d0 = own d) as [E4 E5] by (unfold prevNodes, own; by rewrite E2).
      rewrite <- E1, <- E2, <- E3, <- E4, <- E5 in *. rewrite <- map_map.
      destruct (process_packets_spec now o i (map (parse_key (namespace (opts d0))) (k :: keys)) d0 Hok Hin Hi) as [ids Hs].
      eexists _, ids. split; [done|exact Hs].
  - assert (i < length (tasks d))%nat as Hi by by eapply lookup_lt_Some.
    unfold RedisDiscoverer.answer. rewrite Ht. simpl. rewrite Hps.
    destruct (process_packets_spec now o i ps d Hok Hin Hi) as [ids Hs]. eexists _, ids. split; [done|exact Hs].
Qed.

(** ** Replies with INFO *)

(** What a running broker announces: its INFO, under its own ID, instance and sequence number *)
Record announces (p : node_info) (inst : string) (q : Z) : Prop := {
  an_instance : i_instanceID p = JStr inst;
  an_seq : i_seq p = Some q;
  an_pos : 0 < q;
  an_sender : i_sender p ≠ ""%string
}.

(** The broker has the node online, of that instance and sequence number. *)
Definition up_to_date (v : option Node.t) (inst : string) (q : Z) : Prop :=
  face v = Some (true, q, JStr inst).

(** What the broker knew of the node was told by it before. *)
Definition not_ahead (v : option Node.t) (inst : string) (q : Z) : Prop :=
  ∀ x, v = Some x → Node.available x = true → Node.instanceID x = JStr inst → Node.seq x ≤ q.

Lemma told_up_to_date p inst q now v :
  announces p inst q → not_ahead v inst q → up_to_date (Some (told p now v)) inst q.
Proof.
  intros [Hi Hq Hpos _] Hv. unfold told, up_to_date.
  assert (∀ x b, Node.available x = true → (b = true ∨ Node.seq x < q ∨ (Node.instanceID x = JStr inst → Node.seq x ≤ q)) →
    face (Some (let '(x', need) := Node.update p b x in
      match i_services p with
      | Some l => if need then Node.set_services (Node.Announced (Some (map named l))) x' else x'
      | None => x' end)) = Some (true, q, JStr inst)) as Hup.
  { intros x b Hav Hb. unfold Node.update. rewrite Hi, Hq. unfold num_or. rewrite (proj2 (Z.eqb_neq q 0)) by lia.
    assert (face (Some (Node.Node (Node.id x)
      (if (Node.seq x <? q) || b || negb (Node.same_instance (JStr inst) (Node.instanceID x)) then JStr inst else Node.instanceID x)
      (Node.available x) (Node.local x) (Node.lastHeartbeatTime x) (js_or (i_config p) (JObj [])) (js_or (i_client p) (JObj []))
      (i_metadata p) (i_ipList p) (i_port p) (i_hostname p) (Node.udpAddress x) (Some p) (Node.Announced (i_services p)) (Node.cpu x)
      (Node.cpuSeq x) (if (Node.seq x <? q) || b || negb (Node.same_instance (JStr inst) (Node.instanceID x)) then q else Node.seq x)
      (Node.offlineSince x))) = Some (true, q, JStr inst)) as E.
    { simpl. rewrite Hav. destruct (_ || _) eqn:Hn; [done|]. apply orb_false_iff in Hn as [Hn Hs].
      apply orb_false_iff in Hn as [Hlt ->]. apply Z.ltb_ge in Hlt. apply negb_false_iff in Hs. unfold Node.same_instance in Hs.
      destruct (Node.instanceID x) as [| | | |j| |]; try done. apply String.eqb_eq in Hs as <-.
      assert (Node.seq x ≤ q) by (destruct Hb as [?|[?|Hb]]; [done|lia|by apply Hb]). do 3 f_equal. lia. }
    cbv zeta beta iota. destruct (i_services p); [|exact E]. destruct (_ || _); exact E. }
  destruct v as [x|].
  - destruct (Node.available x) eqn:Hav.
    + apply Hup; [done|]. right. right. by apply Hv.
    + apply Hup; [done|by left].
  - apply Hup; [done|]. right. left. simpl. lia.
Qed.


(** The INFO of some brokers arrives for the nodes that were asked for, until none is awaited. *)
Inductive replies (alive : list node_info) : t → t → Prop :=
| replies_end d : (∀ j id, tasks d !! j ≠ Some (Getting id)) → replies alive d d
| replies_step now j p d d1 d2 :
    p ∈ alive → tasks d !! j = Some (Getting (i_sender p)) →
    answer now j (Value (Some (serialize_info p))) d = Some d1 → replies alive d1 d2 → replies alive d d2.

(** What holds between the check and the last reply *)
Record awaiting (alive : list node_info) (id0 : string) (d : t) : Prop := {
  aw_ok : ok (reg d);
  aw_own : own d = id0;
  aw_asked j id : tasks d !! j = Some (Getting id) → ∃ p, p ∈ alive ∧ i_sender p = id ∧ id ≠ id0;
  aw_known p inst q : p ∈ alive → i_sender p ≠ id0 → announces p inst q →
    not_ahead (view (reg d) (i_sender p)) inst q ∧
    (up_to_date (view (reg d) (i_sender p)) inst q ∨ ∃ j, tasks d !! j = Some (Getting (i_sender p)));
  aw_gone id : id ≠ id0 → (∀ p, p ∈ alive → i_sender p ≠ id) → online (reg d) id = false
}.

Definition is_getting (x : task) : bool := match x with Getting _ => true | _ => false end.

Lemma getting_less (l : list task) j id : l !! j = Some (Getting id) →
  (length (Arr.filter is_getting (<[j := Ended true]> l)) < length (Arr.filter is_getting l))%nat.
Proof.
  revert j. induction l as [|x l IH]; intros [|j] Hj; simpl in *; [done|done| |].
  - injection Hj as ->. simpl. lia.
  - specialize (IH j Hj). destruct (is_getting x); simpl; lia.
Qed.

(** One reply *)
Lemma reply_spec alive now j p (d : t) :
  (∀ p, p ∈ alive → deserialize_info (serialize_info p) = Some p ∧ ∃ inst q, announces p inst q) →
  NoDup (map i_sender alive) → awaiting alive (own d) d → p ∈ alive → tasks d !! j = Some (Getting (i_sender p)) →
  ∃ d', answer now j (Value (Some (serialize_info p))) d = Some d' ∧ awaiting alive (own d) d' ∧
        tasks d' = <[j := Ended true]> (tasks d).
Proof.
  intros Hal Hnd [Hok _ Hasked Hknown Hgone] Hp Hj. destruct (Hal p Hp) as [Hde (inst & q & Han)].
  destruct (Hasked j _ Hj) as (p' & Hp' & He & Hne). destruct (Hknown p inst q Hp Hne Han) as [Hna _].
  unfold RedisDiscoverer.answer. rewrite Hj. simpl. rewrite Hde. eexists. split; [done|].
  set (d1 := put j (Ended true) d). set (r := processNodeInfo new_strategy p now (reg d1)).
  destruct (processNodeInfo_spec new_strategy p now (reg d1) Hok (an_sender _ _ _ Han)) as (Hok' & Hsb & _).
  destruct (processNodeInfo_view new_strategy p now (reg d1) Hok (an_sender _ _ _ Han) Hne) as [Hsp Hv].
  pose proof (with_quiet now r d1 (processNodeInfo_quiet new_strategy p now (reg d1)) Hok' (sb_cfg _ _ Hsb)) as [M1 M2 M3 M4].
  destruct (processNodeInfo_quiet new_strategy p now (reg d1)) as (es & E & _).
  destruct (with_registry_spec now r d1 es E) as (_ & Hr & _). set (d2 := with_registry now r d1) in *.
  simpl in M4. rewrite app_nil_r in M4. fold r in Hsp, Hv. rewrite <- Hr in Hsp, Hv. split; [|done].
  pose proof (told_up_to_date p inst q now _ Han Hna) as Hup. change (view (reg d1) (i_sender p)) with (view (reg d) (i_sender p)) in Hv.
  rewrite <- Hv in Hup. change (awaiting alive (own d) d2). constructor.
  - done.
  - unfold own. rewrite M3. done.
  - intros k id Hk. rewrite M4 in Hk. destruct (decide (k = j)) as [->|Hkj].
    + rewrite list_lookup_insert_eq in Hk by (by eapply lookup_lt_Some). done.
    + rewrite list_lookup_insert_ne in Hk by done. by eapply Hasked.
  - intros p2 inst2 q2 Hp2 Hne2 Han2. destruct (decide (i_sender p2 = i_sender p)) as [Es|Hs].
    + assert (p2 = p) as -> by (by apply (alive_inj alive)).
      destruct Han as [I1 I2 _ _], Han2 as [I3 I4 _ _]. rewrite I3 in I1. rewrite I4 in I2. simplify_eq.
      split; [|by left]. intros x Hx _ _. unfold up_to_date in Hup. rewrite Hx in Hup. simpl in Hup. injection Hup as _ -> _. lia.
    + rewrite (sp_view _ _ _ Hsp) by done. destruct (Hknown p2 inst2 q2 Hp2 Hne2 Han2) as [Hx [Hy|[k Hk]]]; (split; [done|]).
      * by left.
      * right. exists k. rewrite M4. rewrite list_lookup_insert_ne; [done|]. intros ->. rewrite Hj in Hk. congruence.
  - intros id Hid Hno. specialize (Hgone id Hid Hno). unfold online in *. rewrite (sp_view _ _ _ Hsp); [done|].
    intros ->. by apply (Hno p).
Qed.

Lemma replies_spec alive (d : t) :
  (∀ p, p ∈ alive → deserialize_info (serialize_info p) = Some p ∧ ∃ inst q, announces p inst q) →
  NoDup (map i_sender alive) → awaiting alive (own d) d →
  (∃ d', replies alive d d') ∧ ∀ d', replies alive d d' → awaiting alive (own d) d' ∧ ∀ j id, tasks d' !! j ≠ Some (Getting id).
Proof.
  intros Hal Hnd Haw. split.
  - remember (length (Arr.filter is_getting (tasks d))) as n eqn:Hn. revert d Haw Hn.
    induction (lt_wf n) as [n _ IH]. intros d Haw ->.
    destruct (Arr.find is_getting (tasks d)) as [x|] eqn:Hx.
    + destruct (Arr.find_Some _ _ _ Hx) as [Hin Hg]. destruct x; try done.
      apply list_elem_of_lookup in Hin as [j Hj]. destruct (aw_asked _ _ _ Haw _ _ Hj) as (p & Hp & <- & _).
      destruct (reply_spec alive 0 j p d Hal Hnd Haw Hp Hj) as (d1 & E & Haw1 & Ht).
      assert (own d1 = own d) as Ho by apply Haw1. rewrite <- Ho in Haw1.
      destruct (IH (length (Arr.filter is_getting (tasks d1)))) with (d := d1) as [d2 H2]; [|done|done|].
      { rewrite Ht. by eapply getting_less. }
      exists d2. by eapply replies_step.
    + exists d. constructor. intros j id Hj. apply list_elem_of_lookup_2 in Hj.
      rewrite Arr.find_None in Hx. by specialize (Hx _ Hj).
  - intros d' Hr. revert Haw. induction Hr as [d He|now j p d d1 d2 Hp Hj E Hr IH]; intros Haw; [done|].
    destruct (reply_spec alive now j p d Hal Hnd Haw Hp Hj) as (d1' & E' & Haw1 & _). rewrite E' in E. injection E as ->.
    assert (own d1 = own d) as Ho by apply Haw1. rewrite Ho in IH. by apply IH.
Qed.

End replies.

(** The key of the heartbeats that a broker with this INFO sends *)
Definition announced_key (ns : string) (p : node_info) : string :=
  match i_instanceID p, i_seq p with
  | JStr inst, Some q => beat_key ns (i_sender p) inst q
  | _, _ => ""
  end.

(** No other instance that the node had starts with the same characters. *)
Definition hash_decides (v : option Node.t) (inst : string) : Prop :=
  ∀ x j, v = Some x → Node.instanceID x = JStr j → String.prefix (instanceHash inst) j = true → j = inst.

(** A packet tells of the instance and sequence number that a broker announces: a key by the hash
    of the instance, a value by the instance. *)
Definition told_by (p : node_info) (inst : string) (q : Z) (x : packet) : Prop :=
  sender x = i_sender p ∧ p_seq x = Num q ∧ (p_instanceID x = Some (instanceHash inst) ∨ p_instanceID x = Some inst).

Lemma prefix_hash n a b : String.prefix a b = true → String.prefix (String.substring 0 n a) b = true.
Proof.
  revert n b. induction a as [|c a IH]; intros n b; [by destruct n|]. destruct b as [|c' b]; [done|]. simpl.
  destruct (ascii_dec c c') as [->|]; [|done]. intros Hp. destruct n as [|n]; [done|]. simpl. destruct (ascii_dec c' c'); [|done]. by apply IH.
Qed.

(** A packet that fits what the broker knows is of the instance that it knows. *)
Lemma fresh_up_to_date p inst q x v :
  hash_decides v inst → told_by p inst q x → fresh x v = true → up_to_date v inst q.
Proof.
  intros Hhash (_ & Hq & Hi). destruct v as [y|]; [|done]. unfold fresh, up_to_date. rewrite Hq. simpl.
  intros Hfr. apply andb_true_iff in Hfr as [Hfr Hpre]. apply andb_true_iff in Hfr as [-> Hs].
  apply Z.eqb_eq in Hs as ->. destruct (Node.instanceID y) as [| | | |j| |] eqn:Hj; try (by destruct Hi as [Hi|Hi]; rewrite Hi in Hpre).
  rewrite (Hhash y j eq_refl Hj); [done|]. destruct Hi as [Hi|Hi]; rewrite Hi in Hpre; [done|]. by apply prefix_hash.
Qed.

(** *** From the check to the replies *)

Section converge.
Context {S : Type} `{Strategy S}.
Context (deserialize_info : string → option node_info) (serialize_info : node_info → string).
Variables (d d1 : @RedisDiscoverer.t S) (i : nat) (ids : list string) (ps : list packet) (alive : list node_info).
Hypothesis (Hnd : NoDup (map i_sender alive)).
Hypothesis (Hfrom : ∀ x, x ∈ ps → ∃ p inst q, p ∈ alive ∧ announces p inst q ∧ told_by p inst q x).
Hypothesis (Hto : ∀ p inst q, p ∈ alive → announces p inst q → ∃ x, x ∈ ps ∧ told_by p inst q x).
Hypothesis (Hal : ∀ p, p ∈ alive → deserialize_info (serialize_info p) = Some p ∧ ∃ inst q, announces p inst q ∧
  (i_sender p ≠ own d → not_ahead (view (reg d) (i_sender p)) inst q ∧ hash_decides (view (reg d) (i_sender p)) inst)).

Lemma check_awaits :
  ok (reg d1) → own d1 = own d → (∀ j id, tasks d !! j ≠ Some (Getting id)) → (i < length (tasks d))%nat →
  tasks d1 = <[i := Ended true]> (tasks d) ++ map Getting ids →
  (∀ id, id ∈ ids ↔ id ≠ own d ∧ outdated (reg d) ps id) →
  (∀ id, id = own d ∨ seen ps id ∨ online (reg d) id = false → face (view (reg d1) id) = face (view (reg d) id)) →
  (∀ id, id ≠ own d → online (reg d1) id = true ↔ online (reg d) id = true ∧ seen ps id) →
  awaiting alive (own d) d1.
Proof.
  intros Hok1 Ho Hno Hi Ht1 Hids Hface Hon. constructor; [done|done| | |].
  - intros j id Hj. rewrite Ht1 in Hj. apply lookup_app_Some in Hj as [Hj|[_ Hj]].
    + destruct (decide (j = i)) as [->|Hji]; [by rewrite list_lookup_insert_eq in Hj by done|].
      rewrite list_lookup_insert_ne in Hj by done. by destruct (Hno j id).
    + apply list_elem_of_lookup_2, list_elem_of_fmap in Hj as (id' & [= <-] & Hid). apply Hids in Hid as [Hid (x & Hx & Hs & _)].
      apply Hfrom in Hx as (p & inst & q & Hp & _ & Es & _). exists p. rewrite <- Hs, Es. split; [done|]. split; [done|]. by rewrite <- Es, Hs.
  - intros p inst q Hp Hne Han. destruct (Hal p Hp) as [_ (inst' & q' & Han' & Hk)].
    assert (inst' = inst ∧ q' = q) as [-> ->].
    { destruct Han as [I1 I2 _ _], Han' as [I3 I4 _ _]. rewrite I1 in I3. rewrite I2 in I4. by simplify_eq. }
    destruct (Hk Hne) as [Hna Hhash].
    destruct (Hto p inst q Hp Han) as (x & Hpp & Ht).
    assert (face (view (reg d1) (i_sender p)) = face (view (reg d) (i_sender p))) as Hf by (apply Hface; right; left; exists x; split; [done|apply Ht]).
    split.
    + intros x' Hx. rewrite Hx in Hf. destruct (view (reg d) (i_sender p)) as [y|] eqn:Hy; [|done].
      simpl in Hf. injection Hf as -> -> ->. by apply Hna.
    + destruct (fresh x (view (reg d) (i_sender p))) eqn:Hfr.
      * left. unfold up_to_date. rewrite Hf. by eapply fresh_up_to_date.
      * right. assert (i_sender p ∈ ids) as Hid by (apply Hids; split; [done|]; exists x; split; [done|]; split; [apply Ht|done]).
        apply list_elem_of_lookup in Hid as [k Hk']. exists (length (<[i:=Ended true]> (tasks d)) + k)%nat.
        rewrite Ht1, lookup_app_r by lia. change (map Getting ids) with (Getting <$> ids). rewrite list_lookup_fmap.
        replace (_ + k - _)%nat with k by lia. by rewrite Hk'.
  - intros id Hid Hna. destruct (online (reg d1) id) eqn:Hon1; [|done]. apply Hon in Hon1 as [_ (x & Hx & Hs)]; [|done].
    apply Hfrom in Hx as (p & inst & q & Hp & _ & Es & _). destruct (Hna p Hp). congruence.
Qed.

(** After the replies *)
Lemma awaiting_done (d2 : @RedisDiscoverer.t S) id :
  awaiting alive (own d) d2 → (∀ j id, tasks d2 !! j ≠ Some (Getting id)) → id ≠ own d →
  (online (reg d2) id = true ↔ id ∈ map i_sender alive) ∧
  ∀ p inst q, p ∈ alive → i_sender p = id → announces p inst q → up_to_date (view (reg d2) id) inst q.
Proof.
  intros [_ _ _ Hknown Hgone] Hnone Hid.
  assert (∀ p inst q, p ∈ alive → i_sender p = id → announces p inst q → up_to_date (view (reg d2) id) inst q) as Hup.
  { intros p inst q Hp <- Han. destruct (Hknown p inst q Hp Hid Han) as [_ [?|[j Hj]]]; [done|]. by destruct (Hnone j (i_sender p)). }
  split; [|exact Hup]. split.
  - intros Hon2. destruct (decide (id ∈ map i_sender alive)) as [|Hni]; [done|]. rewrite Hgone in Hon2; [done|done|].
    intros p Hp <-. apply Hni, list_elem_of_fmap. eauto.
  - intros Hin. apply list_elem_of_fmap in Hin as (p & -> & Hp). destruct (Hal p Hp) as [_ (inst & q & Han & _)].
    pose proof (Hup p inst q Hp eq_refl Han) as Hu. unfold up_to_date in Hu. unfold online.
    destruct (view (reg d2) (i_sender p)); [|done]. simpl in Hu. by injection Hu as -> _ _.
Qed.

End converge.

(** ** Theorems *)

(** When a check of the keys in Redis ends, lazy or full, a remote node is online exactly if
    it was and one of its keys was found; INFO is asked for exactly of the nodes with a key
    that does not fit what the broker knows of them, and only services of nodes that are
    online stay registered. *)
Theorem redis_check {S} `{Strategy S} random regexp new_strategy c i0 h ips cl md t0
    serialize_info serialize_beat deserialize_info deserialize_beat (d : @RedisDiscoverer.t S) now i o r ps :
  reachable random regexp new_strategy (Registry.create c i0 h ips cl md t0) (reg d) → instances (reg d) →
  checks deserialize_beat d i o r ps →
  ∃ d' ids, RedisDiscoverer.answer new_strategy serialize_info serialize_beat deserialize_info deserialize_beat now i r d = Some d' ∧
  tasks d' = <[i := Ended true]> (tasks d) ++ map Getting ids ∧
  (∀ id, id ∈ ids ↔ id ≠ own d ∧ outdated (reg d) ps id) ∧
  (∀ id, id ≠ own d → online (reg d') id = true ↔ online (reg d) id = true ∧ seen ps id) ∧
  (∀ s, s ∈ services (reg d') → online (reg d') (node_id (reg d') (svc_node (reg d') s)) = true).
Proof.
  intros Hr Hin Hc. assert (ok (reg d)) as Hok by (eapply ok_reachable; [apply ok_create|done]).
  destruct (check_spec new_strategy serialize_info serialize_beat deserialize_info deserialize_beat now d i o r ps Hok Hin Hc)
    as (d' & ids & E & _ & Hok' & _ & Ht & Hids & _ & Hon).
  exists d', ids. split_and!; [done..|]. intros s Hs.
  destruct (live_svcs _ (proj2 Hok') s Hs) as [Hg Hav]. unfold online, view. by rewrite Hg.
Qed.

(** The last reply of a check, when what is in Redis are the heartbeats of the brokers [alive]: of a
    lazy check their keys, where bars only separate, and of a full check their values,
    all of which can be read *)
Inductive all_found {S} `{Strategy S} (deserialize_beat : option string → option beat) (d : @RedisDiscoverer.t S) (i : nat) (alive : list node_info) : reply → Prop :=
| keys_found o keys :
    tasks d !! i = Some (Scanning o (prevNodes d) keys) → full_due d = false →
    (∀ k, k ∈ keys ↔ k ∈ map (announced_key (namespace (opts d))) alive) →
    (∀ p inst q, p ∈ alive → announces p inst q → contains "|" (i_sender p) = false ∧ contains "|" (instanceHash inst) = false) →
    all_found deserialize_beat d i alive ScanEnd
| values_found o keys values :
    let beat_of p inst q v := announces p inst q ∧ ∃ cpu, deserialize_beat v = Some (Beat (Some (i_sender p)) cpu (Some q) (Some inst)) in
    tasks d !! i = Some (Reading o (prevNodes d) keys) → length values = length keys →
    (∀ v, v ∈ values → ∃ p inst q, p ∈ alive ∧ beat_of p inst q v) →
    (∀ p inst q, p ∈ alive → announces p inst q → ∃ v, v ∈ values ∧ beat_of p inst q v) →
    all_found deserialize_beat d i alive (Values values).

(** The packets of such a check *)
Lemma found_packets {S} `{Strategy S} deserialize_beat (d : @RedisDiscoverer.t S) i alive r :
  all_found deserialize_beat d i alive r → (∀ p, p ∈ alive → ∃ inst q, announces p inst q) →
  ∃ o ps, checks deserialize_beat d i o r ps ∧
  (∀ x, x ∈ ps → ∃ p inst q, p ∈ alive ∧ announces p inst q ∧ told_by p inst q x) ∧
  (∀ p inst q, p ∈ alive → announces p inst q → ∃ x, x ∈ ps ∧ told_by p inst q x).
Proof.
  intros Hf Hal. unfold told_by. destruct Hf as [o keys Ht Hfull Hkeys Hbar|o keys values beat_of Ht Hlen Hv Hp].
  - exists o, (map (parse_key (namespace (opts d))) keys). split; [constructor; auto|].
    assert (∀ p inst q, p ∈ alive → announces p inst q →
      parse_key (namespace (opts d)) (announced_key (namespace (opts d)) p) = Packet (i_sender p) (Some (instanceHash inst)) (Num q) None) as Hpk.
    { intros p inst q Hp Han. destruct (Hbar p inst q Hp Han) as [K1 K2]. destruct Han as [I1 I2 _ _]. unfold announced_key. rewrite I1, I2. by apply parse_beat_key. }
    split.
    + intros x Hx. apply list_elem_of_fmap in Hx as (k & -> & Hk). apply Hkeys, list_elem_of_fmap in Hk as (p & -> & Hp).
      destruct (Hal p Hp) as (inst & q & Han). exists p, inst, q. rewrite (Hpk p inst q Hp Han). split_and!; [done..|by left].
    + intros p inst q Hp Han. exists (parse_key (namespace (opts d)) (announced_key (namespace (opts d)) p)). split.
      * apply list_elem_of_fmap. eexists. split; [done|]. apply Hkeys, list_elem_of_fmap. eauto.
      * rewrite (Hpk p inst q Hp Han). split_and!; [done..|by left].
  - set (packets := zip_with (λ k v, merge (parse_key (namespace (opts d)) k) <$> deserialize_beat v) keys values).
    assert (∀ x, x ∈ packets → ∃ k v, v ∈ values ∧ x = merge (parse_key (namespace (opts d)) k) <$> deserialize_beat v) as Hin.
    { intros x Hx. unfold packets in Hx. apply elem_of_lookup_zip_with in Hx as (j & k & v & -> & _ & Hj). exists k, v. split; [by eapply list_elem_of_lookup_2|done]. }
    assert (packets = map Some (omap id packets)) as Hps.
    { assert (Forall is_Some packets) as Hall.
      { apply list.Forall_forall. intros x Hx. destruct (Hin x Hx) as (k & v & Hvv & ->). destruct (Hv v Hvv) as (p & inst & q & _ & _ & cpu & ->). done. }
      clear -Hall. induction Hall as [|x l [y ->] _ IH]; [done|]. exact (f_equal (cons (Some y)) IH). }
    exists o, (omap id packets). split; [by eapply full_check|]. split.
    + intros x Hx. assert (Some x ∈ packets) as Hx' by (rewrite Hps; by apply list_elem_of_fmap_2).
      destruct (Hin _ Hx') as (k & v & Hvv & E). destruct (Hv v Hvv) as (p & inst & q & Hpa & Han & cpu & Eb).
      rewrite Eb in E. injection E as ->. exists p, inst, q. split_and!; [done..|by right].
    + intros p inst q Hpa Han. destruct (Hp p inst q Hpa Han) as (v & Hvv & _ & cpu & Eb). apply list_elem_of_lookup in Hvv as [j Hj].
      destruct (lookup_lt_is_Some_2 keys j) as [k Hk]; [rewrite <- Hlen; by eapply lookup_lt_Some|].
      exists (merge (parse_key (namespace (opts d)) k) (Beat (Some (i_sender p)) cpu (Some q) (Some inst))). split.
      * apply list_elem_of_omap. eexists. split; [|reflexivity]. apply (list_elem_of_lookup_2 _ j). unfold packets. rewrite lookup_zip_with, Hk, Hj. simpl. by rewrite Eb.
      * split_and!; [done..|by right].
Qed.

(** C8. A check, lazy or full, that finds the heartbeats of the brokers [alive] in Redis, and the INFO
    that the broker then asks for, the replies in any order: afterwards exactly those nodes
    are online, each with the instance and sequence number that it announces.  Of what
    the broker knew before it is asked that it came from those nodes: no sequence number of the
    same instance is ahead, no other instance has the same hash.  For lazy checks node IDs
    hold no bar; in full checks all values can be read. *)
Theorem redis_converges {S} `{Strategy S} random regexp new_strategy c i0 h ips cl md t0
    serialize_info serialize_beat deserialize_info deserialize_beat (d : @RedisDiscoverer.t S) now i r alive :
  reachable random regexp new_strategy (Registry.create c i0 h ips cl md t0) (reg d) → instances (reg d) →
  all_found deserialize_beat d i alive r → (∀ j id, tasks d !! j ≠ Some (Getting id)) →
  NoDup (map i_sender alive) →
  (∀ p, p ∈ alive → deserialize_info (serialize_info p) = Some p ∧ ∃ inst q, announces p inst q ∧
    (i_sender p ≠ own d → not_ahead (view (reg d) (i_sender p)) inst q ∧ hash_decides (view (reg d) (i_sender p)) inst)) →
  ∃ d1, RedisDiscoverer.answer new_strategy serialize_info serialize_beat deserialize_info deserialize_beat now i r d = Some d1 ∧
  let replied := replies new_strategy serialize_info serialize_beat deserialize_info deserialize_beat alive d1 in
  (∃ d2, replied d2) ∧
  ∀ d2, replied d2 → ∀ id, id ≠ own d →
    (online (reg d2) id = true ↔ id ∈ map i_sender alive) ∧
    ∀ p inst q, p ∈ alive → i_sender p = id → announces p inst q → up_to_date (view (reg d2) id) inst q.
Proof.
  intros Hr Hin Hfound Hno Hnd Hal. assert (ok (reg d)) as Hok by (eapply ok_reachable; [apply ok_create|done]).
  assert (∀ p, p ∈ alive → ∃ inst q, announces p inst q) as Han by (intros p Hp; destruct (Hal p Hp) as [_ (inst & q & ? & _)]; eauto).
  destruct (found_packets deserialize_beat d i alive r Hfound Han) as (o & ps & Hc & Hfrom & Hto).
  assert (i < length (tasks d))%nat as Hi by (destruct Hc as [? Ht _|? ? ? Ht _]; by eapply lookup_lt_Some).
  destruct (check_spec new_strategy serialize_info serialize_beat deserialize_info deserialize_beat now d i o r ps Hok Hin Hc)
    as (d1 & ids & E & _ & Hok1 & Hc1 & Ht1 & Hids & Hface & Hon).
  exists d1. split; [exact E|]. assert (own d1 = own d) as Ho by (unfold own; by rewrite Hc1).
  assert (awaiting alive (own d) d1) as Haw by (by apply (check_awaits deserialize_info serialize_info d d1 i ids ps alive)).
  assert (∀ p, p ∈ alive → deserialize_info (serialize_info p) = Some p ∧ ∃ inst q, announces p inst q) as Hal'.
  { intros p Hp. destruct (Hal p Hp) as [? _]. auto. }
  rewrite <- Ho in Haw.
  destruct (replies_spec new_strategy serialize_info serialize_beat deserialize_info deserialize_beat alive d1 Hal' Hnd Haw) as [Hex Hall].
  split; [exact Hex|]. intros d2 Hd2 id Hid. destruct (Hall d2 Hd2) as [Haw2 Hnone]. rewrite Ho in Haw2.
  by apply (awaiting_done deserialize_info serialize_info d alive Hal).
Qed.

(** A full check that reads a value it cannot parse, or whose read fails, never ends: nothing
    rejects the promise that [sendHeartbeat()] and [discoverAllNodes()] wait for. *)
Lemma full_check_hangs {S} `{Strategy S} new_strategy serialize_info serialize_beat deserialize_info deserialize_beat
    (d : @RedisDiscoverer.t S) now i o prev keys r ps :
  tasks d !! i = Some (Reading o prev keys) →
  r = Settled false ∨ (∃ l, r = Values l ∧ read_packets deserialize_beat d keys l = None :: ps) →
  ∃ d', RedisDiscoverer.answer new_strategy serialize_info serialize_beat deserialize_info deserialize_beat now i r d = Some d' ∧
  tasks d' !! i = Some (Lost o) ∧ reg d' = reg d ∧
  ∀ now' r', RedisDiscoverer.answer new_strategy serialize_info serialize_beat deserialize_info deserialize_beat now' i r' d' = None.
Proof.
  intros Ht Hr. exists (put i (Lost o) d).
  assert (tasks (put i (Lost o) d) !! i = Some (Lost o)) as Hl.
  { simpl. apply list_lookup_insert_eq. by eapply lookup_lt_Some. }
  unfold RedisDiscoverer.answer. rewrite Ht, Hl. simpl. split_and!; [|done|done|intros ? []; done].
  destruct Hr as [->|(l & -> & E)]; [done|]. unfold process_packets. by rewrite E.
Qed.

(** The beats of a node whose ID holds a bar are taken for those of another node. *)
Lemma bar_in_id ns a b inst q :
  contains "|" a = false → sender (parse_key ns (beat_key ns (String.append a (String.append "|" b)) inst q)) = a.
Proof.
  intros Ha. unfold parse_key, beat_key, BEAT_KEY. rewrite !append_assoc, substring_append.
  assert (∀ x, split "|" (String.append a (String.append "|" x)) = a :: split "|" x) as Hs by (intros; by apply split_key_at).
  by rewrite Hs.
Qed.

(** ** Witnesses *)

Section sample.

Definition sample_node (id inst : string) (q : Z) : node_info :=
  NodeInfo id (JStr inst) (Some q) JNull [] None None JUndef JUndef (Some [sample_service "shop" []]).

(** The broker knows [node-2] and [node-4]; by now the services of [node-2] changed, [node-4]
    is gone and [node-3] is new. *)
Definition sample_2 : registry RoundRobin.t := processNodeInfo rr (sample_node "node-4" "i4" 1) 6 sample_1.

Definition sample_alive : list node_info :=
  [sample_node "node-1" "i0" 1; sample_node "node-2" "i1" 2; sample_node "node-3" "i3" 1].

Definition sample_read (s : string) : option node_info :=
  Arr.find (λ p, String.eqb (i_sender p) s) sample_alive.

Definition sample_opts : options := Options "test" "i0" 30 10.

Definition sample_keys : list string :=
  map (announced_key "test") (rev sample_alive ++ sample_alive).

(** A check that has found all keys, some of them twice *)
Definition sample_check : @RedisDiscoverer.t RoundRobin.t :=
  default (RedisDiscoverer.create sample_opts sample_2 3)
    (run rr i_sender (λ _, ""%string) sample_read (λ _, None)
      [(9, DiscoverAllNodes); (9, Answer 0 (Data sample_keys))] (RedisDiscoverer.create sample_opts sample_2 3)).

Lemma sample_2_reachable : reachable draw_low no_regexp rr sample_0 sample_2.
Proof. eapply reach_step; [apply sample_reachable|]. apply step_info; vm_compute; discriminate. Qed.

Lemma view_cases {T} (r : registry T) (P : string → Node.t → Prop) :
  Forall (λ e, P e.1 (node_of (st r) e.2)) (nodes r) → ∀ id x, view r id = Some x → P id x.
Proof.
  intros HF id x Hx. unfold view in Hx. destruct (OMap.get id (nodes r)) as [n|] eqn:Hg; [|done].
  injection Hx as <-. apply OMap.get_Some_elem in Hg. by apply (proj1 (Forall_forall _ _) HF) in Hg.
Qed.

Lemma sample_instances : instances sample_2.
Proof.
  intros id x _. revert id x. apply (view_cases sample_2 (λ _ x, ∃ j, Node.instanceID x = JStr j)).
  repeat constructor; vm_compute; eauto.
Qed.

(** What the broker knew of those who announce themselves *)
Lemma sample_known p : p ∈ sample_alive → ∃ inst q, i_instanceID p = JStr inst ∧ i_seq p = Some q ∧
  ∀ id x, view sample_2 id = Some x → i_sender p = id →
    (Node.available x = true → Node.instanceID x = JStr inst → Node.seq x ≤ q) ∧
    (∀ j, Node.instanceID x = JStr j → String.prefix (instanceHash inst) j = true → j = inst).
Proof.
  revert p. apply Forall_forall. unfold sample_alive.
  assert (∀ id inst q, match view sample_2 id with
    | Some x => Node.instanceID x = JStr inst ∧ Node.seq x ≤ q
    | None => True end →
    i_instanceID (sample_node id inst q) = JStr inst ∧ i_seq (sample_node id inst q) = Some q ∧
    ∀ id' x, view sample_2 id' = Some x → id = id' →
    (Node.available x = true → Node.instanceID x = JStr inst → Node.seq x ≤ q) ∧
    (∀ j, Node.instanceID x = JStr j → String.prefix (instanceHash inst) j = true → j = inst)) as Hk.
  { intros id inst q Hv. split_and!; [done..|]. intros id' x Hx <-. rewrite Hx in Hv. destruct Hv as [Hi Hq].
    split; [done|]. intros j Hj _. congruence. }
  repeat (constructor; [eexists _, _; apply Hk; vm_compute; (exact I || (split; [done|discriminate]))|]). constructor.
Qed.

Lemma sample_found k : k ∈ sample_keys ↔ k ∈ map (announced_key (namespace (opts sample_check))) sample_alive.
Proof.
  change (namespace (opts sample_check)) with "test"%string. unfold sample_keys.
  rewrite map_app, map_rev, elem_of_app. split; [intros [Hk|]; [|done]|by right].
  by apply list_elem_of_In, in_rev, list_elem_of_In in Hk.
Qed.

Lemma sample_clean p inst q : p ∈ sample_alive → announces p inst q →
  contains "|" (i_sender p) = false ∧ contains "|" (instanceHash inst) = false.
Proof.
  intros Hp Han. pose proof (an_instance _ _ _ Han) as Hi.
  repeat (apply elem_of_cons in Hp as [->|Hp]; [injection Hi as <-; done|]). by apply elem_of_nil in Hp.
Qed.

End sample.

(** [node-4] is offline after the check, [node-2] and [node-3] are asked for INFO. *)
Lemma redis_check_witness :
  ∃ d' ids, RedisDiscoverer.answer rr i_sender (λ _, ""%string) sample_read (λ _, None) 9 0 ScanEnd sample_check = Some d' ∧
  tasks d' = [Ended true] ++ map Getting ids ∧ ids = ["node-3"; "node-2"; "node-2"; "node-3"]%string ∧
  online (reg d') "node-2" = true ∧ online (reg d') "node-4" = false.
Proof.
  destruct (redis_check draw_low no_regexp rr sample_cfg "i0" "host" [] JUndef JUndef 0 i_sender (λ _, ""%string) sample_read
    (λ _, None) sample_check 9 0 Discovery ScanEnd (map (parse_key "test") sample_keys) sample_2_reachable sample_instances)
    as (d' & ids & E & Ht & Hids & Hon & _).
  { apply (lazy_check (λ _, None) sample_check 0 Discovery sample_keys); [vm_compute; reflexivity|right; vm_compute; reflexivity]. }
  exists d', ids. split; [exact E|]. split; [exact Ht|]. vm_compute in E. injection E as <-. vm_compute in Ht.
  split; [|by vm_compute]. injection Ht. destruct ids as [|? [|? [|? [|? [|]]]]]; intros; simplify_eq; done.
Defined.

Lemma redis_converges_witness :
  ∃ d1, RedisDiscoverer.answer rr i_sender (λ _, ""%string) sample_read (λ _, None) 9 0 ScanEnd sample_check = Some d1 ∧
  let replied := replies rr i_sender (λ _, ""%string) sample_read (λ _, None) sample_alive d1 in
  (∃ d2, replied d2) ∧
  ∀ d2, replied d2 → online (reg d2) "node-3" = true ∧ online (reg d2) "node-4" = false ∧
    up_to_date (view (reg d2) "node-2") "i1" 2.
Proof.
  assert (∀ p inst q, p ∈ sample_alive → i_instanceID p = JStr inst → i_seq p = Some q → announces p inst q) as Han.
  { intros p inst q Hp Hi Hq. repeat (apply elem_of_cons in Hp as [->|Hp]; [simplify_eq/=; by constructor|]).
    by apply elem_of_nil in Hp. }
  destruct (redis_converges draw_low no_regexp rr sample_cfg "i0" "host" [] JUndef JUndef 0 i_sender (λ _, ""%string) sample_read
    (λ _, None) sample_check 9 0 ScanEnd sample_alive sample_2_reachable sample_instances)
    as (d1 & E & Hex & Hall).
  - apply (keys_found (λ _, None) sample_check 0 sample_alive Discovery sample_keys);
      [vm_compute; reflexivity|vm_compute; reflexivity|exact sample_found|exact sample_clean].
  - intros [|j] id; [discriminate|]. vm_compute. destruct j; discriminate.
  - apply (bool_decide_unpack _). vm_compute. exact I.
  - intros p Hp. split.
    { repeat (apply elem_of_cons in Hp as [->|Hp]; [reflexivity|]). by apply elem_of_nil in Hp. }
    destruct (sample_known p Hp) as (inst & q & Hi & Hq & Hv).
    exists inst, q. split; [by apply Han|]. intros _. split.
    + intros x Hx. by apply (Hv _ x Hx).
    + intros x j Hx. by apply (Hv _ x Hx).
  - exists d1. split; [exact E|]. split; [exact Hex|]. intros d2 Hd2. split_and!.
    + apply (Hall d2 Hd2 "node-3"%string ltac:(vm_compute; discriminate)). vm_compute. right. right. left.
    + destruct (online (reg d2) "node-4") eqn:Ho; [|reflexivity]. exfalso.
      apply (Hall d2 Hd2 "node-4"%string ltac:(vm_compute; discriminate)) in Ho. clear -Ho.
      apply (bool_decide_pack _) in Ho. vm_compute in Ho. exact Ho.
    + apply (Hall d2 Hd2 "node-2"%string ltac:(vm_compute; discriminate)) with (p := sample_node "node-2" "i1" 2);
        [right; left|reflexivity|apply Han; [right; left|reflexivity|reflexivity]].
Defined.
