(* ===== verification/EtcdDiscoverer.v ===== *)
(** * The etcd discoverer

    Models [src/registry/discoverers/etcd3.js]: the keys of brokers in etcd, what a check of the
    heartbeat keys does to the registry, and the leases that keep the keys alive
    (Module [Leases]), as promises that may interleave.  Reading values is a parameter. *)

From Stdlib Require Import ZArith Lia Bool Ascii.
From stdpp Require Import base tactics list strings option gmap pretty.
From S2P Require Import Prelude Strategies RegistryData EndpointList Registry LocalInfo Gossip Discoverer Routing RegistryInv RegistrySpec GossipInv RegistryTheorems JsonText RedisDiscoverer RedisTheorems.

Local Open Scope Z_scope.

Module Etcd.

(** ** Keys *)

Definition PREFIX (namespace : string) : string :=
  ("moleculer" +:+ (if String.eqb namespace "" then "" else "-" +:+ namespace) +:+ "/discovery")%string.
Definition BEATS (namespace : string) : string := (PREFIX namespace +:+ "/beats/")%string.
Definition instanceHash (instanceID : string) : string := String.substring 0 8 instanceID.
Definition BEAT_KEY (namespace nodeID instanceID : string) : string :=
  (BEATS namespace +:+ (nodeID +:+ ("/" +:+ instanceHash instanceID)))%string.
Definition INFO_KEY (namespace nodeID : string) : string := (PREFIX namespace +:+ ("/info/" +:+ nodeID))%string.
(** The key of a heartbeat *)
Definition beat_key (namespace nodeID instanceID : string) (seq : Z) : string :=
  (BEAT_KEY namespace nodeID instanceID +:+ ("/" +:+ pretty seq))%string.

(** [const p = key.substring(prefix.length).split("/")] and the packet made of it *)
Definition parse_key (namespace key : string) : RedisDiscoverer.packet :=
  let p := Text.split "/" (Text.substring_from (String.length (BEATS namespace)) key) in
  RedisDiscoverer.Packet (default "" (p !! 0%nat)) (p !! 1%nat) (RedisDiscoverer.Number (p !! 2%nat)) None.

(** ** [collectOnlineNodes()] *)

Section collect.
Context {S : Type} `{Strategy S}.
Notation reg := (registry S).
Notation packet := RedisDiscoverer.packet.

(** [prevNodes], when the check begins *)
Definition prevNodes (r : reg) : list string :=
  Arr.filter (λ id, negb (String.eqb id (Registry.nodeID (cfg r))))
    (map (node_id r) (Arr.filter (λ n, Node.available (node_of (st r) n)) (OMap.values (nodes r)))).

(** [++this.idx % this.opts.fullCheck === 0]: whether the values are read, and the next index *)
Definition full_due (fullCheck idx : Z) : bool * Z :=
  if fullCheck =? 0 then (false, idx) else if (idx + 1) mod fullCheck =? 0 then (true, 0) else (false, idx + 1).

(** The packets of a check: of the values, where one that cannot be read is [undefined], or of the keys *)
Definition full_packets (deserialize : string → option packet) (values : list string) : list (option packet) := map deserialize values.
Definition lazy_packets (namespace : string) (keys : list string) : list (option packet) := map (λ k, Some (parse_key namespace k)) keys.

(** [heartbeatReceived(packet.sender, packet)]; a sequence number that is [NaN] differs from all. *)
Definition heartbeatReceived (now : Z) (p : packet) (r : reg) : option reg :=
  match RedisDiscoverer.p_seq p with
  | RedisDiscoverer.NaN => Some (tell (DiscoverNode (RedisDiscoverer.sender p)) r)
  | RedisDiscoverer.Num q =>
      Discoverer.heartbeatReceived_by (λ id, tell (DiscoverNode id)) (RedisDiscoverer.sender p)
        (Discoverer.Heartbeat (RedisDiscoverer.p_cpu p) None (Some q) (RedisDiscoverer.p_instanceID p)) now r
  end.

(** The loop over the packets that could be read; [None] when it throws *)
Fixpoint process (now : Z) (ps : list packet) (prev : list string) (r : reg) : option (list string * reg) :=
  match ps with
  | [] => Some (prev, r)
  | p :: ps =>
      if String.eqb (RedisDiscoverer.sender p) (Registry.nodeID (cfg r)) then process now ps prev r
      else
        r ← heartbeatReceived now p r;
        process now ps (RedisDiscoverer.removeFromArray prev (RedisDiscoverer.sender p)) r
  end.

(** The reply of etcd: [_.compact(packets)] is processed, the nodes that are left are gone. *)
Definition collected (now : Z) (ps : list (option packet)) (prev : list string) (r : reg) : option reg :=
  '(prev, r) ← process now (omap id ps) prev r;
  Some (foldl (λ r id, Discoverer.remoteNodeDisconnected id true now r) r prev).

End collect.

(** ** Leases *)

Module Leases.

(** [sendHeartbeat()], by what its promise chain waits for; [lease] is its variable [leaseBeat]. *)
Inductive pc := Checking | Revoking (l : nat) | Leasing | Granting | Ready | Putting (target : nat) | Stored | Ended (ok : bool).
Record call := Call { seq : Z; lease : option nat; at_ : pc }.

(** The discoverer and etcd: the leases that are alive, and the beat keys of this node with theirs *)
Record t := State {
  leaseBeat : option nat;
  lastBeatSeq : Z;
  alive : list bool;
  keys : list (Z * nat);
  calls : list call
}.

Definition is_alive (d : t) (l : nat) : bool := default false (alive d !! l).
Definition put_call (i : nat) (c : call) (d : t) : t := State (leaseBeat d) (lastBeatSeq d) (alive d) (keys d) (<[i := c]> (calls d)).
(** A lease ends with its keys. *)
Definition end_lease (l : nat) (d : t) : t :=
  State (leaseBeat d) (lastBeatSeq d) (<[l := false]> (alive d)) (Arr.filter (λ '(_, l'), negb (l' =? l)%nat) (keys d)) (calls d).
(** A value is put under a key, with a lease. *)
Definition put_key (q : Z) (l : nat) (d : t) : t :=
  State (leaseBeat d) (lastBeatSeq d) (alive d) (Arr.filter (λ '(q', _), negb (q' =? q)) (keys d) ++ [(q, l)]) (calls d).

(** [this.leaseBeat.put(key)]; without a lease that is a TypeError. *)
Definition put_beat (i : nat) (c : call) (d : t) : t :=
  put_call i (Call (seq c) (lease c) (match leaseBeat d with Some l => Putting l | None => Ended false end)) d.

Definition sendHeartbeat (q : Z) (d : t) : t :=
  State (leaseBeat d) (lastBeatSeq d) (alive d) (keys d) (calls d ++ [Call q (leaseBeat d) Checking]).

(** The next callback of call [i] runs; etcd does what was asked. *)
Definition advance (i : nat) (d : t) : option t :=
  c ← calls d !! i;
  match at_ c with
  | Checking =>
      match lease c with
      | Some l => Some (put_call i (if seq c =? lastBeatSeq d then Call (seq c) (lease c) Leasing else Call (seq c) None (Revoking l)) d)
      | None => Some (put_call i (Call (seq c) None Leasing) d)
      end
  | Revoking l => Some (put_call i (Call (seq c) (lease c) Leasing) (end_lease l d))
  | Leasing =>
      match lease c with
      | None => Some (put_call i (Call (seq c) None Granting) d)
      | Some _ => Some (put_call i (Call (seq c) (lease c) Ready) d)
      end
  | Granting =>
      let l := length (alive d) in
      Some (put_call i (Call (seq c) (Some l) Ready) (State (Some l) (lastBeatSeq d) (alive d ++ [true]) (keys d) (calls d)))
  | Ready => Some (put_beat i c d)
  | Putting l =>
      if is_alive d l then Some (put_call i (Call (seq c) (lease c) Stored) (put_key (seq c) l d))
      else Some (put_call i (Call (seq c) (lease c) (Ended false)) d)
  | Stored => Some (put_call i (Call (seq c) (lease c) (Ended true)) (State (leaseBeat d) (seq c) (alive d) (keys d) (calls d)))
  | Ended _ => None
  end.

(** The lease is lost: its keys are gone, the discoverer forgets it and sends a heartbeat if it
    is connected. *)
Definition lost (l : nat) (connected : bool) (q : Z) (d : t) : t :=
  let d := end_lease l d in
  let d := State None (lastBeatSeq d) (alive d) (keys d) (calls d) in
  if connected then sendHeartbeat q d else d.

(** A heartbeat that nothing interrupts *)
Fixpoint finish (fuel i : nat) (d : t) : t :=
  match fuel with
  | O => d
  | Datatypes.S fuel => match advance i d with Some d => finish fuel i d | None => d end
  end.
Definition heartbeat (q : Z) (d : t) : t := finish 7 (length (calls d)) (sendHeartbeat q d).

End Leases.

End Etcd.

Import Text Etcd.

(** ** Keys *)

Lemma slash_clean (z : Z) : contains "/" (pretty z) = false.
Proof.
  assert (∀ d, pretty_N_char d ≠ "/"%char) as Hc by (intros d; unfold pretty_N_char; by repeat case_match).
  assert (∀ n : N, contains "/" (pretty n) = false) as Hn.
  { intros n. unfold pretty, pretty_N. case_decide; [done|]. by rewrite pretty_N_clean. }
  destruct z as [|p|p]; [done|apply (Hn (N.pos p))|]. exact (Hn (N.pos p)).
Qed.

(** What is read off a key that a broker wrote *)
Lemma etcd_beat_key ns id inst q : contains "/" id = false → contains "/" (Etcd.instanceHash inst) = false →
  Etcd.parse_key ns (Etcd.beat_key ns id inst q) = RedisDiscoverer.Packet id (Some (Etcd.instanceHash inst)) (RedisDiscoverer.Num q) None.
Proof.
  intros Hid Hi. unfold Etcd.parse_key, Etcd.beat_key, Etcd.BEAT_KEY. rewrite !append_assoc, substring_append.
  assert (∀ a b, contains "/" a = false → split "/" (String.append a (String.append "/" b)) = a :: split "/" b) as Hs
    by (intros; by apply split_key_at).
  rewrite !Hs by done. rewrite split_one by apply slash_clean. cbn [lookup list_lookup default from_option]. by rewrite Number_pretty.
Qed.

(** The beats of a node whose ID holds a slash are taken for those of another node. *)
Lemma slash_in_id ns a b inst q :
  contains "/" a = false → RedisDiscoverer.sender (Etcd.parse_key ns (Etcd.beat_key ns (a +:+ ("/" +:+ b)) inst q)) = a.
Proof.
  intros Ha. unfold Etcd.parse_key, Etcd.beat_key, Etcd.BEAT_KEY. rewrite !append_assoc, substring_append.
  assert (∀ x, split "/" (String.append a (String.append "/" x)) = a :: split "/" x) as Hs by (intros; by apply split_key_at).
  by rewrite Hs.
Qed.

(** ** A check *)

Section check.
Context {S : Type} `{Strategy S}.

Lemma received_spec now p (r : registry S) :
  ok r → RedisDiscoverer.sender p ≠ Registry.nodeID (cfg r) → instances r →
  let v := view r (RedisDiscoverer.sender p) in
  ∃ r', Etcd.heartbeatReceived now p r = Some r' ∧ ok r' ∧ cfg r' = cfg r ∧ spares (RedisDiscoverer.sender p) r r' ∧
        view r' (RedisDiscoverer.sender p) = beaten now p v ∧
        out r' = out r ++ (if fresh p v then [] else [DiscoverNode (RedisDiscoverer.sender p)]).
Proof.
  intros Hok Hne Hin v. unfold Etcd.heartbeatReceived. destruct (RedisDiscoverer.p_seq p) as [|q] eqn:Hq; [|by apply beat_spec].
  assert (fresh p v = false) as Hf by (unfold fresh; rewrite Hq; by destruct v).
  eexists. rewrite Hf. split_and!; [done|by apply ok_tell|done|by constructor| |done].
  unfold beaten. change (view _ _) with v. destruct v; [by rewrite Hf|done].
Qed.

Lemma asked_app es es' : asked (es ++ es') = asked es ++ asked es'.
Proof. apply omap_app. Qed.

Lemma instances_face (r r' : registry S) : cfg r' = cfg r → (∀ id, face (view r' id) = face (view r id)) → instances r → instances r'.
Proof.
  intros Hc Hf Hin id x Hid Hx. rewrite Hc in Hid. pose proof (Hf id) as He. rewrite Hx in He.
  destruct (view r id) as [y|] eqn:Hy; [|done]. destruct (Hin id y Hid Hy) as [j Hj]. exists j. simpl in He. by injection He as _ _ ->.
Qed.

Lemma etcd_process now ps prev (r : registry S) : ok r → instances r → NoDup prev →
  ∃ prev' r' es, Etcd.process now ps prev r = Some (prev', r') ∧ ok r' ∧ cfg r' = cfg r ∧ out r' = out r ++ es ∧
    (∀ id, id ∈ prev' ↔ id ∈ prev ∧ ¬ (seen ps id ∧ id ≠ Registry.nodeID (cfg r))) ∧
    (∀ id, id ∈ asked es ↔ id ≠ Registry.nodeID (cfg r) ∧ outdated r ps id) ∧
    (∀ id, face (view r' id) = face (view r id)).
Proof.
  revert r prev. induction ps as [|p ps IH]; intros r prev Hok Hin Hnd; simpl.
  - exists prev, r, []. rewrite app_nil_r. unfold seen, outdated. split_and!; [done..| | |done].
    + intros id. split; [|by intros [? _]]. intros Hid. split; [done|]. by intros [(p & ?%elem_of_nil & _) _].
    + intros id. split; [by intros ?%elem_of_nil|]. by intros (_ & p & ?%elem_of_nil & _).
  - unfold seen, outdated. setoid_rewrite elem_of_cons.
    destruct (String.eqb_spec (RedisDiscoverer.sender p) (Registry.nodeID (cfg r))) as [He|Hne].
    + destruct (IH r prev Hok Hin Hnd) as (prev' & r' & es & -> & ? & ? & ? & Hp & Hi & Hf).
      exists prev', r', es. split_and!; [done..| | |done]; intros id; rewrite ?Hp, ?Hi; unfold seen, outdated; naive_solver congruence.
    + destruct (received_spec now p r Hok Hne Hin) as (r1 & -> & Hok1 & Hc1 & Hsp & Hv1 & Ho1). simpl.
      assert (∀ id, face (view r1 id) = face (view r id)) as Hface.
      { intros id. destruct (decide (id = RedisDiscoverer.sender p)) as [->|Hid]; [by rewrite Hv1, face_beaten|by rewrite (sp_view _ _ _ Hsp)]. }
      destruct (IH r1 (RedisDiscoverer.removeFromArray prev (RedisDiscoverer.sender p)) Hok1 (instances_face _ _ Hc1 Hface Hin) (removeFromArray_nodup _ _ Hnd))
        as (prev' & r' & es & E & Hok' & Hc & Ho & Hp & Hi & Hf).
      eexists prev', r', _. split_and!; [exact E|done|congruence|by rewrite Ho, Ho1, <- app_assoc| | |intros id; by rewrite Hf, Hface]; intros id.
      * rewrite Hp, removeFromArray_elem, Hc1 by done. unfold seen. naive_solver.
      * rewrite asked_app, elem_of_app, Hi, Hc1. unfold outdated.
        assert (∀ x, fresh x (view r1 id) = fresh x (view r id)) as Hfr by (intros; by apply fresh_face). setoid_rewrite Hfr.
        destruct (fresh p (view r (RedisDiscoverer.sender p))) eqn:Hpf; simpl;
          [rewrite elem_of_nil|rewrite list_elem_of_singleton]; naive_solver congruence.
Qed.

Lemma etcd_gone now prev (r : registry S) : ok r → Registry.nodeID (cfg r) ∉ prev →
  let r' := foldl (λ r id, Discoverer.remoteNodeDisconnected id true now r) r prev in
  ok r' ∧ cfg r' = cfg r ∧ quiet r r' ∧ ∀ id, (id ∉ prev → view r' id = view r id) ∧ (id ∈ prev → online r' id = false).
Proof.
  revert r. induction prev as [|j prev IH]; intros r Hok Ho; simpl.
  - split_and!; [done..|]. intros id. split; [done|by intros ?%elem_of_nil].
  - rewrite not_elem_of_cons in Ho. destruct Ho as [Hj Ho].
    destruct (gone_spec now j r Hok (not_eq_sym Hj)) as (Hok1 & Hc1 & Hs1 & Hoff & Hq).
    destruct (IH _ Hok1) as (Hok2 & Hc2 & Hq2 & Hv); [by rewrite Hc1|]. split_and!; [done|congruence|by etransitivity|].
    intros id. destruct (Hv id) as [H1 H2]. rewrite not_elem_of_cons, elem_of_cons. split.
    + intros [Hid Hni]. rewrite H1 by done. by rewrite (sp_view _ _ _ Hs1).
    + intros Hi. destruct (decide (id ∈ prev)) as [|Hni]; [auto|]. destruct Hi as [->|]; [|done]. unfold online in *. by rewrite H1.
Qed.

End check.

(** When the keys or values of a check arrive from etcd, a remote node that was online stays so
    exactly if one of its heartbeats was read or it came online since the check began; values
    that cannot be read are skipped, no answer makes the check fail, and INFO is asked
    for exactly of the nodes with a heartbeat that does not fit what is known of them. *)
Theorem etcd_check {S} `{Strategy S} random regexp new_strategy c i0 h ips cl md t0 (r : registry S) now ps prev :
  reachable random regexp new_strategy (Registry.create c i0 h ips cl md t0) r → instances r →
  NoDup prev → Registry.nodeID (cfg r) ∉ prev →
  let read := omap Datatypes.id ps in
  ∃ r' es, Etcd.collected now ps prev r = Some r' ∧ out r' = out r ++ es ∧
  (∀ n, n ≠ Registry.nodeID (cfg r) → online r' n = true ↔ online r n = true ∧ (seen read n ∨ n ∉ prev)) ∧
  (∀ n, n ∈ asked es ↔ n ≠ Registry.nodeID (cfg r) ∧ outdated r read n).
Proof.
  intros Hr Hin Hnd Hown read. assert (ok r) as Hok by (eapply ok_reachable; [apply ok_create|done]).
  destruct (etcd_process now read prev r Hok Hin Hnd) as (prev' & r1 & es & E & Hok1 & Hc1 & Ho1 & Hp & Hi & Hf).
  destruct (etcd_gone now prev' r1 Hok1) as (Hok2 & Hc2 & (es' & Ho2 & Hq) & Hv); [rewrite Hc1, Hp; tauto|].
  eexists _, (es ++ es'). unfold Etcd.collected. fold read. rewrite E. split_and!; [done|by rewrite Ho2, Ho1, <- app_assoc| |].
  - intros n Hn. destruct (Hv n) as [H1 H2]. destruct (decide (n ∈ prev')) as [Hg|Hg].
    + rewrite (H2 Hg). apply Hp in Hg as [Hg Hs]. split; [done|]. intros [_ [?|?]]; [by destruct Hs|done].
    + assert (online (foldl (λ r id, Discoverer.remoteNodeDisconnected id true now r) r1 prev') n = online r n) as ->.
      { unfold online at 1. rewrite (H1 Hg). apply online_face, Hf. }
      split; [|tauto]. intros Hon. split; [done|]. rewrite Hp in Hg. destruct (decide (n ∈ prev)) as [Hpr|]; [|by right]. left.
      destruct (seen_dec read n); [done|]. exfalso. apply Hg. split; [done|]. tauto.
  - intros n. rewrite asked_app, elem_of_app, Hi. assert (asked es' = []) as ->.
    { clear -Hq. induction Hq as [|e es He _ IH]; [done|]. simpl. by destruct e. }
    split; [intros [?|?%elem_of_nil]; done|auto].
Qed.

(** ** Leases *)

Import Leases.

(** Between two heartbeats the node has the one key of the last one, if any, alive. *)
Definition settled (d : Leases.t) : Prop :=
  match leaseBeat d with Some l => is_alive d l = true ∧ keys d = [(lastBeatSeq d, l)] | None => keys d = [] end.

Lemma last_call (cs : list call) c : (cs ++ [c]) !! length cs = Some c.
Proof. by rewrite lookup_app_r, Nat.sub_diag. Qed.
Lemma put_last (cs : list call) c c' : <[length cs := c']> (cs ++ [c]) = cs ++ [c'].
Proof. by rewrite insert_app_r_alt, Nat.sub_diag. Qed.

(** The next callback of the last call *)
Lemma advance_last lb last al ks cs q lo p :
  advance (length cs) (State lb last al ks (cs ++ [Call q lo p])) =
  match p with
  | Checking =>
      Some (State lb last al ks (cs ++ [match lo with
        | Some l => if q =? last then Call q lo Leasing else Call q None (Revoking l)
        | None => Call q None Leasing
        end]))
  | Revoking l => Some (State lb last (<[l := false]> al) (Arr.filter (λ '(_, l'), negb (l' =? l)%nat) ks) (cs ++ [Call q lo Leasing]))
  | Leasing =>
      Some (State lb last al ks (cs ++ [match lo with
        | None => Call q None Granting
        | Some _ => Call q lo Ready
        end]))
  | Granting => Some (State (Some (length al)) last (al ++ [true]) ks (cs ++ [Call q (Some (length al)) Ready]))
  | Ready => Some (State lb last al ks (cs ++ [Call q lo (match lb with Some l => Putting l | None => Ended false end)]))
  | Putting l =>
      Some (if default false (al !! l) then State lb last al (Arr.filter (λ '(q', _), negb (q' =? q)) ks ++ [(q, l)]) (cs ++ [Call q lo Stored])
            else State lb last al ks (cs ++ [Call q lo (Ended false)]))
  | Stored => Some (State lb q al ks (cs ++ [Call q lo (Ended true)]))
  | Ended _ => None
  end.
Proof.
  unfold advance. cbn [calls]. rewrite last_call. cbn [mbind option_bind at_ lease seq].
  destruct p as [|l| | | |l| |ok]; [destruct lo as [l|]| |destruct lo| |destruct lb|unfold is_alive; cbn [alive]; destruct (default false (al !! l))| |done];
    unfold put_beat, put_key, end_lease, put_call; cbn [calls leaseBeat lastBeatSeq alive keys seq lease at_]; by rewrite put_last.
Qed.

(** A lease that was granted is alive until it ends. *)
Lemma new_alive (al : list bool) : default false ((al ++ [true]) !! length al) = true.
Proof. by rewrite lookup_app_r, Nat.sub_diag. Qed.

Lemma finish_S n i d : finish (Datatypes.S n) i d = match advance i d with Some d => finish n i d | None => d end.
Proof. done. Qed.

Ltac next := rewrite finish_S, advance_last; cbn beta iota.

(** From the put on *)
Lemma finish_put n q lo l last al ks cs : default false (al !! l) = true →
  finish (3 + n) (length cs) (State (Some l) last al ks (cs ++ [Call q lo Ready])) =
  State (Some l) q al (Arr.filter (λ '(q', _), negb (q' =? q)) ks ++ [(q, l)]) (cs ++ [Call q lo (Ended true)]).
Proof. intros Hl. change (3 + n)%nat with (Datatypes.S (Datatypes.S (Datatypes.S n))). next. next. rewrite Hl. next. destruct n; [done|]. by rewrite finish_S, advance_last. Qed.

(** From the request of a lease on *)
Lemma finish_lease n q lb last al ks cs :
  finish (5 + n) (length cs) (State lb last al ks (cs ++ [Call q None Leasing])) =
  State (Some (length al)) q (al ++ [true]) (Arr.filter (λ '(q', _), negb (q' =? q)) ks ++ [(q, length al)])
    (cs ++ [Call q (Some (length al)) (Ended true)]).
Proof. change (5 + n)%nat with (Datatypes.S (Datatypes.S (3 + n))). next. next. apply finish_put, new_alive. Qed.

(** A heartbeat that is not interrupted, whatever came before it, leaves exactly one key of this
    node in etcd: that of its sequence number, with a lease that is alive. *)
Theorem heartbeat_key q d : settled d →
  let d' := Leases.heartbeat q d in
  settled d' ∧ lastBeatSeq d' = q ∧ ∃ l lo, leaseBeat d' = Some l ∧ keys d' = [(q, l)] ∧ calls d' = calls d ++ [Call q lo (Ended true)].
Proof.
  destruct d as [lb last al ks cs]. unfold Leases.heartbeat, Leases.sendHeartbeat, settled, is_alive. cbn [leaseBeat lastBeatSeq alive keys calls].
  destruct lb as [l|].
  - intros [Hl ->]. next. destruct (Z.eqb_spec q last) as [->|Hq].
    + next. rewrite (finish_put 2) by done. cbn [Arr.filter]. rewrite Z.eqb_refl. cbn. eauto 10.
    + next. rewrite (finish_lease 0). cbn [Arr.filter]. rewrite Nat.eqb_refl. cbn [negb Arr.filter app leaseBeat lastBeatSeq alive keys calls].
      rewrite new_alive. eauto 10.
  - intros ->. next. rewrite (finish_lease 1). cbn [Arr.filter app leaseBeat lastBeatSeq alive keys calls]. rewrite new_alive. eauto 10.
Qed.

(** A lost lease takes the key with it. *)
Lemma lost_settled l q d : settled d → leaseBeat d = Some l → settled (lost l false q d) ∧ keys (lost l false q d) = [].
Proof.
  destruct d as [lb last al ks cs]. unfold settled. cbn [leaseBeat]. intros Hs [= ->]. destruct Hs as [_ Hk]. cbn [keys lastBeatSeq] in Hk. subst ks.
  cbn [lost end_lease leaseBeat keys Arr.filter]. rewrite Nat.eqb_refl. done.
Qed.

(** ** Witnesses *)

Lemma etcd_check_witness :
  ∃ r' es, Etcd.collected 9 [None; Some (RedisDiscoverer.Packet "node-2" (Some "i1"%string) (RedisDiscoverer.Num 2) None)] ["node-2"; "node-4"]%string sample_2 = Some r' ∧
  out r' = out sample_2 ++ es ∧ (online r' "node-2" = true ↔ online sample_2 "node-2" = true ∧ True) ∧ online r' "node-4" = false.
Proof.
  assert (Registry.nodeID (cfg sample_2) = "node-1"%string) as Hid by (vm_compute; reflexivity).
  destruct (etcd_check draw_low no_regexp rr sample_cfg "i0" "host" [] JUndef JUndef 0 sample_2 9
    [None; Some (RedisDiscoverer.Packet "node-2" (Some "i1"%string) (RedisDiscoverer.Num 2) None)] ["node-2"; "node-4"]%string
    sample_2_reachable sample_instances) as (r' & es & E & Ho & Hon & _).
  - apply (bool_decide_unpack (NoDup ["node-2"; "node-4"]%string)). vm_compute. exact I.
  - rewrite Hid. intros [[=]|[[=]|[]%elem_of_nil]%elem_of_cons]%elem_of_cons.
  - rewrite Hid in Hon. exists r', es. split; [exact E|]. split; [exact Ho|]. split.
    + rewrite Hon by discriminate. split; intros [Ho2 _]; (split; [exact Ho2|]); [exact I|]. left. eexists. split; [left|reflexivity].
    + apply not_true_iff_false. rewrite Hon by discriminate. intros [_ [(p & Hp & Hs)|Hn]].
      * apply list_elem_of_singleton in Hp as ->. discriminate.
      * apply Hn. right. left.
Defined.

Lemma heartbeat_key_witness :
  let d := Leases.heartbeat 1 (State None 0 [] [] []) in
  keys d = [(1, 0%nat)] ∧ settled (Leases.heartbeat 2 d) ∧ lastBeatSeq (Leases.heartbeat 2 d) = 2.
Proof.
  split; [reflexivity|]. destruct (heartbeat_key 2 (Leases.heartbeat 1 (State None 0 [] [] []))) as (H1 & H2 & _); [split; reflexivity|].
  exact (conj H1 H2).
Defined.

(** Two first heartbeats at the same time, with a new sequence number in between: the lease of the
    first one is forgotten but stays alive, with the old key; no later heartbeat removes it. *)
Lemma forgotten_lease :
  let both := foldl (λ d i, default d (advance i d)) (Leases.sendHeartbeat 2 (Leases.sendHeartbeat 1 (State None 0 [] [] [])))
    [0; 1; 0; 1; 0; 0; 0; 1; 1; 1; 0; 1]%nat in
  keys both = [(1, 0%nat); (2, 1%nat)] ∧ keys (Leases.heartbeat 4 (Leases.heartbeat 3 both)) = [(1, 0%nat); (4, 3%nat)].
Proof. split; vm_compute; reflexivity. Qed.
