(* ===== verification/Cacher.v ===== *)
(** * Caching of action results

    Models [src/lock.js] (Module [Lock]), [src/cachers/memory.js] (Module [Memory]),
    the cache keys of [src/cachers/base.js] (Module [Keygen]) and the caching
    middleware of [base.js] with its lock (Module [Caching]), where many requests for
    many keys are served at the same time.  Times are milliseconds as
    [Date.now()] gives them; metrics and logging are left out, and so is cloning, which
    a value does not need. *)

From Stdlib Require Import ZArith Lia Bool Ascii Strings.String.
From stdpp Require Import base tactics list strings option pretty.
From S2P Require Import Prelude Utils.

Local Open Scope Z_scope.

(** ** The lock *)

Module Lock.

Section lock.
(** The [resolve] functions of waiting promises *)
Context {W : Type}.

(** [locked]: a key that is locked has the queue of those who wait for it. *)
Definition t := OMap.t (list W).

(** [acquire(key)]: whether the promise is resolved at once; else [w] waits for it. *)
Definition acquire (key : string) (w : W) (s : t) : bool * t :=
  match OMap.get key s with
  | None => (true, OMap.set key [] s)
  | Some q => (false, OMap.set key (q ++ [w]) s)
  end.

Definition isLocked (key : string) (s : t) : bool := OMap.has key s.

(** [release(key)]: the waiting promise that is resolved *)
Definition release (key : string) (s : t) : option W * t :=
  match OMap.get key s with
  | Some (w :: q) => (Some w, OMap.set key q s)
  | Some [] => (None, OMap.delete key s)
  | None => (None, s)
  end.

End lock.
Arguments t : clear implicits.
End Lock.

(** ** The memory cacher *)

Module Memory.

Section memory.
Context {V : Type}.
(** [missingResponse] *)
Context (missing : V).
(** [this.opts.ttl] in seconds *)
Context (opt_ttl : option Z).
(** [utils.match] *)
Context (regexp : list Ascii.ascii → list Ascii.ascii → bool).

Record item := Item {
  data : V;
  expire : option Z
}.

Definition t := OMap.t item.

(** [item.expire && item.expire < now] *)
Definition expired (now : Z) (it : item) : bool :=
  match expire it with
  | Some e => negb (e =? 0) && (e <? now)
  | None => false
  end.

(** [get(key)] *)
Definition get (key : string) (now : Z) (c : t) : V * t :=
  match OMap.get key c with
  | Some it => if expired now it then (missing, OMap.delete key c) else (data it, c)
  | None => (missing, c)
  end.

(** A number that counts as a condition: neither null nor zero *)
Definition nonzero (n : option Z) : option Z :=
  match n with Some z => if z =? 0 then None else Some z | None => None end.

(** [set(key, data, ttl)] *)
Definition set (key : string) (d : V) (ttl : option Z) (now : Z) (c : t) : t :=
  let ttl := match ttl with None => opt_ttl | Some _ => ttl end in
  OMap.set key (Item d (match nonzero ttl with Some s => Some (now + s * 1000) | None => None end)) c.

(** [del(key)], of one key or several *)
Definition del (keys : list string) (c : t) : t := foldl (λ c key, OMap.delete key c) c keys.

(** [clean(match)] *)
Definition clean (matches : list string) (c : t) : t :=
  foldl (λ c '(key, _),
    if existsb (λ m, Match.match_ regexp (Strings.String.list_ascii_of_string key) (Strings.String.list_ascii_of_string m)) matches
    then OMap.delete key c else c) c c.

(** [getWithTTL(key)]; the remaining time is in milliseconds. *)
Definition getWithTTL (key : string) (now : Z) (c : t) : V * option Z * t :=
  match OMap.get key c with
  | None => (missing, None, c)
  | Some it =>
      let ttl := match expire it with Some e => e - now | None => - now end in
      (data it, if 0 <? ttl then Some ttl else None,
       match nonzero opt_ttl with
       | Some s => OMap.set key (Item (data it) (Some (now + s * 1000))) c
       | None => c
       end)
  end.

(** [checkTTL()] *)
Definition checkTTL (now : Z) (c : t) : t :=
  foldl (λ c '(key, _),
    match OMap.get key c with
    | Some it => if expired now it then OMap.delete key c else c
    | None => c
    end) c c.

Definition getCacheKeys (c : t) : list (string * option Z) := map (λ '(key, it), (key, expire it)) c.

End memory.
Arguments item : clear implicits.
Arguments t : clear implicits.
Arguments Item {V}.
Arguments data {V}.
Arguments expire {V}.
End Memory.

(** ** Cache keys *)

Module Keygen.

Section keygen.
(** [_.get] of lodash, and the base64 of the SHA-256 digest *)
Context (lodash_get : json → string → json) (sha256 : string → string).
(** [maxParamsLength] *)
Context (maxParamsLength : option Z).

(** The double quote character *)
Definition quote : string := String.String "034"%char "".

Fixpoint join (sep : string) (l : list string) : string :=
  match l with
  | [] => ""
  | [x] => x
  | x :: l => String.append x (String.append sep (join sep l))
  end.

(** [_generateKeyFromObject(obj)] *)
Fixpoint generateKey (v : json) : string :=
  match v with
  | JArr l => String.append "[" (String.append (join "|" (map generateKey l)) "]")
  | JObj m => join "|" (map (λ '(k, x), join "|" [k; generateKey x]) m)
  | JStr s => String.append quote (String.append s quote)
  | JNum n => pretty n
  | JBool b => if b then "true" else "false"
  | JNull => "null"
  | JUndef => "undefined"
  end.

(** [_hashedKey(key)] *)
Definition hashedKey (key : string) : string :=
  match maxParamsLength with
  | None => key
  | Some n =>
      if (n =? 0) || (n <? 44) || (Z.of_nat (String.length key) <=? n) then key
      else if n - 44 <? 1 then sha256 key
      else String.append (String.substring 0 (Z.to_nat (n - 44)) key) (sha256 key)
  end.

(** [_getParamMetaValue(key, params, meta, headers)] *)
Definition getParamMetaValue (key : string) (params meta headers : json) : json :=
  let rest := String.substring 1 (String.length key - 1) key in
  if String.prefix "#" key && negb (is_null meta) then lodash_get meta rest
  else if String.prefix "@" key && negb (is_null headers) then lodash_get headers rest
  else if negb (is_null params) then lodash_get params key
  else JUndef.

Definition is_object (v : json) : bool := match v with JObj _ | JArr _ => true | _ => false end.

(** One turn of the [reduce] over several keys *)
Definition key_part (params meta headers : json) (a : string) (i : nat) (key : string) : string :=
  let val := getParamMetaValue key params meta headers in
  let valKey := generateKey val in
  String.append a (String.append (if (0 <? i)%nat then "|" else "")
    (if is_object val then hashedKey valKey else valKey)).

Fixpoint key_parts (params meta headers : json) (a : string) (i : nat) (keys : list string) : string :=
  match keys with
  | [] => a
  | key :: keys => key_parts params meta headers (key_part params meta headers a i key) (Datatypes.S i) keys
  end.

(** [defaultKeygen(action, opts, ctx)] of an action that is not missing; [keys] is [opts.keys]. *)
Definition defaultKeygen (name : string) (keys : option (list string)) (params meta headers : json) : string :=
  if truthy params || truthy meta || truthy headers then
    let keyPrefix := String.append name ":" in
    match keys with
    | Some [key] => String.append keyPrefix (hashedKey (generateKey (getParamMetaValue key params meta headers)))
    | Some [] => name
    | Some keys => String.append keyPrefix (hashedKey (key_parts params meta headers "" 0 keys))
    | None => String.append keyPrefix (hashedKey (generateKey params))
    end
  else name.

End keygen.
End Keygen.

(** ** The caching middleware *)

Module Caching.

(** [opts] of the middleware for one action *)
Record copts := COpts {
  enabled : bool;
  ttl : option Z;
  lock_enabled : bool;
  lock_staleTime : option Z
}.

(** How [cacherMiddleware] serves a request: [allowed] is what the function [opts.enabled]
    answers, if it is one, [cache_meta] is [ctx.meta.$cache === false] and [connected]
    the state of the cacher. *)
Inductive serving := ByHandler | WithLock | WithoutLock.

Definition cacherMiddleware (o : copts) (allowed : option bool) (cache_meta : bool) (connected : option bool) : serving :=
  if negb (enabled o) then ByHandler
  else match allowed with
  | Some false => ByHandler
  | _ =>
      if cache_meta then ByHandler
      else match connected with
      | Some false => ByHandler
      | _ => if lock_enabled o then WithLock else WithoutLock
      end
  end.

Section caching.
Context {V E : Type} `{EqDecision V}.
(** [v == null] *)
Context (nullish : V → bool).
Context (missing : V) (opt_ttl : option Z).
Context (regexp : list ascii → list ascii → bool).

Inductive outcome :=
| Resolved (v : V)
| Rejected (e : E).

(** What a request waits for next.  A refresh is the work [middlewareWithLock] starts
    beside the request. *)
Inductive pc :=
| Peeked (data : V) (ttl : option Z)   (* the callback of [getWithTTL] *)
| Checked (data : V)                   (* the callback that looks at the cached data *)
| Waiting                              (* the lock *)
| Granted                              (* the callback of [lock] *)
| Reread (content : V)                 (* the callback of the second [get] *)
| Calling                              (* the handler *)
| Unlocking (v : V)                    (* the callback of [set] *)
| Done (o : outcome) (cached : bool)
| RefreshGranted                       (* the callback of [tryLock] *)
| RefreshCalling                       (* the handler *)
| RefreshUnlocking                     (* the callback of [set] or [del] *)
| RefreshDone
| PlainRead (content : V)              (* the callback of [get] without a lock *)
| PlainCalling.                        (* the handler, without a lock *)

Record job := Job {
  j_key : string;
  j_opts : copts;
  j_pc : pc
}.

(** What happens to a key, in order *)
Inductive event :=
| Called (i : nat)
| Refreshed (i : nat)
| Saved (i : nat) (v : V)
| Failed (i : nat)
| Gone.

Record world := World {
  w_cache : Memory.t V;
  w_lock : Lock.t nat;
  w_jobs : list job;
  w_trace : list (string * event)
}.

Definition set_pc (i : nat) (p : pc) (w : world) : world :=
  World (w_cache w) (w_lock w) (alter (λ j, Job (j_key j) (j_opts j) p) i (w_jobs w)) (w_trace w).
Definition set_cache (c : Memory.t V) (w : world) : world := World c (w_lock w) (w_jobs w) (w_trace w).
Definition set_lock (l : Lock.t nat) (w : world) : world := World (w_cache w) l (w_jobs w) (w_trace w).
Definition spawn (j : job) (w : world) : world := World (w_cache w) (w_lock w) (w_jobs w ++ [j]) (w_trace w).
Definition emit (key : string) (e : event) (w : world) : world :=
  World (w_cache w) (w_lock w) (w_jobs w) (w_trace w ++ [(key, e)]).

Definition cached (c : Memory.t V) (key : string) : option V := option_map Memory.data (OMap.get key c).

(** Replace the cache; the keys whose data are not the same any more are gone. *)
Definition change (c : Memory.t V) (w : world) : world :=
  World c (w_lock w) (w_jobs w)
    (w_trace w ++
     map (λ key, (key, Gone))
       (Arr.filter (λ key, bool_decide (cached c key ≠ cached (w_cache w) key)) (OMap.keys (w_cache w)))).

(** [this.get(key)] *)
Definition read (key : string) (now : Z) (w : world) : V * world :=
  let '(v, c) := Memory.get missing key now (w_cache w) in (v, change c w).

(** [unlock()]: the next one who waits goes on. *)
Definition unlock (key : string) (w : world) : world :=
  let '(woken, l) := Lock.release key (w_lock w) in
  let w := set_lock l w in
  match woken with Some x => set_pc x Granted w | None => w end.

(** [this.set(key, result, opts.ttl)] and [this.del(key)] *)
Definition save (key : string) (o : copts) (v : V) (now : Z) (w : world) : world :=
  set_cache (Memory.set opt_ttl key v (ttl o) now (w_cache w)) w.
Definition drop (key : string) (w : world) : world := set_cache (Memory.del [key] (w_cache w)) w.

(** [middlewareWithLock(ctx, cacheKey, handler, opts)] up to its first promise *)
Definition middlewareWithLock (key : string) (o : copts) (now : Z) (w : world) : world :=
  match Memory.nonzero (lock_staleTime o) with
  | Some _ =>
      let '(d, t, c) := Memory.getWithTTL missing opt_ttl key now (w_cache w) in
      spawn (Job key o (Peeked d t)) (set_cache c w)
  | None => let '(d, w) := read key now w in spawn (Job key o (Checked d)) w
  end.

(** [middlewareWithoutLock(ctx, cacheKey, handler, opts)] up to its first promise *)
Definition middlewareWithoutLock (key : string) (o : copts) (now : Z) (w : world) : world :=
  let '(d, w) := read key now w in spawn (Job key o (PlainRead d)) w.

(** [opts.lock.staleTime && ttl && ttl < opts.lock.staleTime] *)
Definition stale (o : copts) (t : option Z) : bool :=
  match Memory.nonzero (lock_staleTime o), t with
  | Some s, Some t => t <? s * 1000
  | _, _ => false
  end.

(** The callback a request waits for runs; none is pending while it waits for the lock
    or for a handler. *)
Definition callback (i : nat) (now : Z) (w : world) : option world :=
  match w_jobs w !! i with
  | None => None
  | Some (Job key o p) =>
      match p with
      | Peeked d t =>
          let w := set_pc i (Checked d) w in
          if negb (nullish d) && stale o t then
            if Lock.isLocked key (w_lock w) then Some w
            else
              let '(_, l) := Lock.acquire key (length (w_jobs w)) (w_lock w) in
              Some (spawn (Job key o RefreshGranted) (set_lock l w))
          else Some w
      | Checked d =>
          if bool_decide (d ≠ missing) then Some (set_pc i (Done (Resolved d) true) w)
          else
            let '(granted, l) := Lock.acquire key i (w_lock w) in
            Some (set_pc i (if granted then Granted else Waiting) (set_lock l w))
      | Granted => let '(c, w) := read key now w in Some (set_pc i (Reread c) w)
      | Reread c =>
          if negb (nullish c) then Some (set_pc i (Done (Resolved c) true) (unlock key w))
          else Some (set_pc i Calling (emit key (Called i) w))
      | Unlocking v => Some (set_pc i (Done (Resolved v) false) (unlock key w))
      | RefreshGranted => Some (set_pc i RefreshCalling (emit key (Refreshed i) w))
      | RefreshUnlocking => Some (set_pc i RefreshDone (unlock key w))
      | PlainRead c =>
          if bool_decide (c ≠ missing) then Some (set_pc i (Done (Resolved c) true) w)
          else Some (set_pc i PlainCalling w)
      | Waiting | Calling | RefreshCalling | PlainCalling | Done _ _ | RefreshDone => None
      end
  end.

(** The handler of a request settles. *)
Definition settle (i : nat) (r : outcome) (now : Z) (w : world) : option world :=
  match w_jobs w !! i with
  | None => None
  | Some (Job key o p) =>
      match p, r with
      | Calling, Resolved v => Some (set_pc i (Unlocking v) (emit key (Saved i v) (save key o v now w)))
      | Calling, Rejected e => Some (set_pc i (Done (Rejected e) false) (unlock key (emit key (Failed i) w)))
      | RefreshCalling, Resolved v => Some (set_pc i RefreshUnlocking (emit key (Saved i v) (save key o v now w)))
      | RefreshCalling, Rejected e => Some (set_pc i RefreshUnlocking (emit key (Failed i) (drop key w)))
      | PlainCalling, Resolved v => Some (set_pc i (Done (Resolved v) false) (save key o v now w))
      | PlainCalling, Rejected e => Some (set_pc i (Done (Rejected e) false) w)
      | _, _ => None
      end
  end.

(** Internal steps: what was started goes on. *)
Inductive internal : world → world → Prop :=
| int_callback i now w w' : callback i now w = Some w' → internal w w'
| int_settle i r now w w' : settle i r now w = Some w' → internal w w'.

(** All steps, for actions of which those with the keys [locked] cache with the lock:
    requests arrive and others work on the cache. *)
Context (locked : string → bool).

Inductive step : world → world → Prop :=
| step_internal w w' : internal w w' → step w w'
| step_locked key o now w : locked key = true → step w (middlewareWithLock key o now w)
| step_plain key o now w : locked key = false → step w (middlewareWithoutLock key o now w)
| step_set key v t now w : step w (change (Memory.set opt_ttl key v t now (w_cache w)) w)
| step_del keys w : step w (change (Memory.del keys (w_cache w)) w)
| step_clean ms w : step w (change (Memory.clean regexp ms (w_cache w)) w)
| step_checkTTL now w : step w (change (Memory.checkTTL now (w_cache w)) w).

Definition start (c : Memory.t V) : world := World c [] [] [].

Inductive reachable (c0 : Memory.t V) : world → Prop :=
| reach_start : reachable c0 (start c0)
| reach_step w w' : reachable c0 w → step w w' → reachable c0 w'.

(** *** What a lock is for

    At any time a key is free, perhaps with a value that was computed and is still
    cached, or one request computes it.  A cached [null] or [undefined] does not count as a
    value: the middleware takes it for nothing ([content != null]) and calls the handler
    again. *)

Inductive phase :=
| Free (v : option V)
| Busy (i : nat).

Definition advance (ph : phase) (e : event) : option phase :=
  match e, ph with
  | Called i, Free None => Some (Busy i)
  | Refreshed i, Free _ => Some (Busy i)
  | Saved i v, Busy j => if Nat.eqb i j then Some (Free (if nullish v then None else Some v)) else None
  | Failed i, Busy j => if Nat.eqb i j then Some (Free None) else None
  | Gone, Free _ => Some (Free None)
  | Gone, Busy j => Some (Busy j)
  | _, _ => None
  end.

(** The phase of a key after what happened to it; [None] is what must not happen. *)
Definition phase_of (key : string) (trace : list (string * event)) : option phase :=
  foldl (λ ph '(k, e), if String.eqb k key then ph ≫= λ ph, advance ph e else ph) (Some (Free None)) trace.

End caching.
Arguments outcome : clear implicits.
Arguments pc : clear implicits.
Arguments job : clear implicits.
Arguments world : clear implicits.
Arguments event : clear implicits.
Arguments phase : clear implicits.
End Caching.
