(* ===== verification/CacherTheorems.v ===== *)
(** * What caching guarantees

    The lock is a fair mutex per key; with it the caching middleware computes a key
    for one request at a time and only when no computed value is cached; every
    request that was accepted is answered.  Cache keys and their collisions. *)

From Stdlib Require Import ZArith Lia Bool Ascii Strings.String.
From stdpp Require Import base tactics list strings option functions pretty sets relations.
From S2P Require Import Prelude Utils Cacher.

Local Open Scope Z_scope.

(** ** The lock *)

Section lock.
Context {W : Type}.

Inductive lock_op :=
| Acquire (w : W)
| Release.

(** Operations on one key: those who got the lock, in order *)
Definition lock_step (key : string) (acc : list W * Lock.t W) (op : lock_op) : list W * Lock.t W :=
  let '(granted, s) := acc in
  match op with
  | Acquire w => let '(ok, s) := Lock.acquire key w s in (if ok then granted ++ [w] else granted, s)
  | Release => let '(o, s) := Lock.release key s in (match o with Some w => granted ++ [w] | None => granted end, s)
  end.

Definition acquires (ops : list lock_op) : list W :=
  foldr (λ op l, match op with Acquire w => w :: l | Release => l end) [] ops.

Lemma acquires_app ops ops' : acquires (ops ++ ops') = acquires ops ++ acquires ops'.
Proof. induction ops as [|[w|] ops IH]; simpl; [done|by rewrite IH|done]. Qed.

(** Who waits is exactly who was not granted yet, in the order of arrival. *)
Lemma lock_queue key (ops : list lock_op) :
  let '(granted, s) := foldl (lock_step key) ([], []) ops in
  OMap.wf s ∧ acquires ops = granted ++ default [] (OMap.get key s).
Proof.
  induction ops as [|op ops IH] using rev_ind; simpl; [split; [constructor|done]|].
  rewrite foldl_app. simpl. destruct (foldl _ _ ops) as [granted s]. destruct IH as [Hwf IH].
  rewrite acquires_app, IH. destruct op as [w|]; simpl; unfold Lock.acquire, Lock.release.
  - destruct (OMap.get key s) as [q|] eqn:Hg; rewrite OMap.get_set_eq; simpl;
      (split; [by apply OMap.wf_set|]); [by rewrite <- app_assoc|].
    by rewrite !app_nil_r.
  - destruct (OMap.get key s) as [[|w q]|] eqn:Hg; simpl; rewrite ?app_nil_r.
    + split; [by apply OMap.wf_delete|]. rewrite OMap.get_delete_eq by done. by rewrite app_nil_r.
    + split; [by apply OMap.wf_set|]. rewrite OMap.get_set_eq. simpl. by rewrite <- app_assoc.
    + rewrite Hg. simpl. by rewrite app_nil_r.
Qed.

End lock.

(** ** The invariant of the caching middleware *)

Section invariant.
Context {V E : Type} `{EqDecision V}.
Context (nullish : V → bool) (missing : V) (opt_ttl : option Z).
Context (regexp : list ascii → list ascii → bool) (locked : string → bool).

Notation world := (Caching.world V E).
Notation pc := (Caching.pc V E).

(** Whether a request holds the lock of its key, waits for it, or neither *)
Inductive role := Idle | Wait | Crit.

Definition role_of (p : option pc) : role :=
  match p with
  | Some Caching.Waiting => Wait
  | Some (Caching.Granted | Caching.Reread _ | Caching.Calling | Caching.Unlocking _
    | Caching.RefreshGranted | Caching.RefreshCalling | Caching.RefreshUnlocking) => Crit
  | _ => Idle
  end.

Definition calling (p : pc) : bool :=
  match p with Caching.Calling | Caching.RefreshCalling => true | _ => false end.

(** The request found nothing usable and will call the handler. *)
Definition blank (p : pc) : bool :=
  match p with Caching.Reread c => nullish c | _ => false end.

(** The requests for one key *)
Definition proj (w : world) (key : string) (i : nat) : option pc :=
  match Caching.w_jobs w !! i with
  | Some j => if String.eqb (Caching.j_key j) key then Some (Caching.j_pc j) else None
  | None => None
  end.

(** One holder exactly if the key is locked, and the queue is those who wait. *)
Definition lock_ok (ρ : nat → role) (o : option (list nat)) : Prop :=
  match o with
  | None => ∀ i, ρ i = Idle
  | Some q => ∃ h, (∀ i, ρ i = Crit ↔ i = h) ∧ NoDup q ∧ ∀ i, i ∈ q ↔ ρ i = Wait
  end.

Definition phase_ok (π : nat → option pc) (d : option V) (ph : Caching.phase V) : Prop :=
  match ph with
  | Caching.Busy h => ∃ p, π h = Some p ∧ calling p = true
  | Caching.Free o =>
      (∀ i p, π i = Some p → calling p = false) ∧
      (∀ v, o = Some v → d = Some v ∧ nullish v = false) ∧
      (o ≠ None → ∀ i p, π i = Some p → blank p = false)
  end.

(** No request for a key is served in the other mode. *)
Definition mode_ok (key : string) (π : nat → option pc) : Prop :=
  ∀ i p, π i = Some p →
    match p with Caching.PlainRead _ | Caching.PlainCalling => locked key = false | Caching.Done _ _ => True
            | _ => locked key = true end.

(** What holds of one key. *)
Definition key_ok (π : nat → option pc) (o : option (list nat)) (d : option V) (ph : option (Caching.phase V)) : Prop :=
  lock_ok (λ i, role_of (π i)) o ∧ ∃ x, ph = Some x ∧ phase_ok π d x.

Definition inv (w : world) : Prop :=
  OMap.wf (Caching.w_lock w) ∧ OMap.wf (Caching.w_cache w) ∧
  ∀ key, mode_ok key (proj w key) ∧
    (locked key = true →
     key_ok (proj w key) (OMap.get key (Caching.w_lock w)) (Caching.cached (Caching.w_cache w) key)
       (Caching.phase_of nullish key (Caching.w_trace w))) ∧
    (locked key = false → OMap.get key (Caching.w_lock w) = None).

(** *** Updates of one request *)

Definition upd (i : nat) (p : pc) (π : nat → option pc) : nat → option pc := <[i:=Some p]> π.

Lemma upd_eq i p π : upd i p π i = Some p.
Proof. apply fn_lookup_insert. Qed.

Lemma upd_ne i p π j : j ≠ i → upd i p π j = π j.
Proof. intros Hj. by apply fn_lookup_insert_ne. Qed.

Lemma key_ok_ext π π' o d ph : (∀ i, π i = π' i) → key_ok π o d ph → key_ok π' o d ph.
Proof.
  intros Heq [Hl (x & -> & Hp)]. split.
  - destruct o as [q|]; simpl in *; [|intros i; by rewrite <- Heq].
    destruct Hl as (h & H1 & H2 & H3). exists h. split_and!; [|done|]; intros i; rewrite <- Heq; auto.
  - exists x. split; [done|]. destruct x as [v|h]; simpl in *.
    + destruct Hp as (H1 & H2 & H3). split_and!; [|done|]; intros; eapply H1 || eapply H3; try done; by rewrite Heq.
    + destruct Hp as (p & ? & ?). exists p. by rewrite <- Heq.
Qed.

(** A request moves on without touching the lock or calling a handler. *)
Lemma key_ok_move i p0 p π o d ph :
  key_ok π o d ph → role_of (π i) = role_of (Some p) → π i = p0 → calling p = false →
  (∀ q, p0 = Some q → calling q = false) →
  (blank p = true → ∀ v, ph = Some (Caching.Free (Some v)) → False) → key_ok (upd i p π) o d ph.
Proof.
  intros [Hl (x & -> & Hp)] Hr Hi Hc Hc0 Hb.
  assert (∀ j, role_of (upd i p π j) = role_of (π j)) as Hrole.
  { intros j. destruct (decide (j = i)) as [->|Hj]; [by rewrite upd_eq|by rewrite upd_ne]. }
  split.
  - destruct o as [q|]; simpl in *; [|intros j; by rewrite Hrole].
    destruct Hl as (h & H1 & H2 & H3). exists h. split_and!; [|done|]; intros j; rewrite Hrole; auto.
  - exists x. split; [done|]. destruct x as [v|h]; simpl in *.
    + destruct Hp as (H1 & H2 & H3). split_and!; [|done|].
      * intros j q. destruct (decide (j = i)) as [->|Hj]; [rewrite upd_eq; congruence|rewrite upd_ne by done; eauto].
      * intros Hv j q. destruct (decide (j = i)) as [->|Hj]; [|rewrite upd_ne by done; eauto].
        rewrite upd_eq. intros [= <-]. destruct v as [v|]; [|done]. destruct (blank p); [|done]. by destruct (Hb eq_refl v).
    + destruct Hp as (q & Hq & Hcq). exists q. split; [|done]. rewrite upd_ne; [done|].
      intros ->. rewrite Hi in Hq. rewrite (Hc0 _ Hq) in Hcq. done.
Qed.

(** A request asks for the lock. *)
Lemma key_ok_acquire i p0 p π o d ph :
  key_ok π o d ph → π i = p0 → role_of p0 = Idle →
  role_of (Some p) = match o with None => Crit | Some _ => Wait end → calling p = false → blank p = false →
  key_ok (upd i p π) (Some (match o with None => [] | Some q => q ++ [i] end)) d ph.
Proof.
  intros [Hl (x & -> & Hp)] Hi Hr Hr' Hc Hb. split.
  - destruct o as [q|]; simpl in Hl.
    + destruct Hl as (h & H1 & H2 & H3). assert (i ≠ h) as Hih by (intros ->; specialize (H1 h); rewrite Hi, Hr in H1; by destruct H1 as [_ H1]; specialize (H1 eq_refl)).
      assert (i ∉ q) as Hq by (rewrite H3, Hi, Hr; done).
      exists h. split_and!.
      * intros j. destruct (decide (j = i)) as [->|Hj]; [rewrite upd_eq, Hr'; split; [done|congruence]|by rewrite upd_ne].
      * apply NoDup_app. split_and!; [done| |apply NoDup_singleton]. intros j Hj ->%list_elem_of_singleton. done.
      * intros j. rewrite elem_of_app, list_elem_of_singleton.
        destruct (decide (j = i)) as [->|Hj]; [rewrite upd_eq, Hr'; tauto|]. rewrite upd_ne by done. rewrite H3. tauto.
    + exists i. split_and!; [|constructor|].
      * intros j. destruct (decide (j = i)) as [->|Hj]; [by rewrite upd_eq|]. rewrite upd_ne by done. rewrite Hl. done.
      * intros j. rewrite elem_of_nil. destruct (decide (j = i)) as [->|Hj]; [by rewrite upd_eq, Hr'|].
        rewrite upd_ne by done. rewrite Hl. done.
  - exists x. split; [done|]. destruct x as [v|h]; simpl in *.
    + destruct Hp as (H1 & H2 & H3). split_and!; [|done|].
      * intros j q. destruct (decide (j = i)) as [->|Hj]; [rewrite upd_eq; congruence|rewrite upd_ne by done; eauto].
      * intros Hv j q. destruct (decide (j = i)) as [->|Hj]; [rewrite upd_eq; congruence|rewrite upd_ne by done; eauto].
    + destruct Hp as (q & Hq & Hcq). exists q. split; [|done]. rewrite upd_ne; [done|].
      intros ->. rewrite Hi in Hq. subst p0. by destruct q.
Qed.

(** The holder releases the lock; the next one in the queue holds it. *)
Lemma key_ok_release i p0 p π q d ph :
  key_ok π (Some q) d ph → π i = p0 → role_of p0 = Crit → role_of (Some p) = Idle →
  (∀ y, p0 = Some y → calling y = false) → calling p = false →
  match q with
  | [] => key_ok (upd i p π) None d ph
  | x :: q => key_ok (upd i p (upd x Caching.Granted π)) (Some q) d ph
  end.
Proof.
  intros [(h & H1 & H2 & H3) (y & -> & Hp)] Hi Hr Hr' Hc0 Hc. cbv beta in H1, H3.
  assert (i = h) as -> by (apply H1; by rewrite Hi).
  assert (blank p = false) as Hb by (by destruct p).
  assert (∀ x, x ∈ q → x ≠ h) as Hxh by (intros x Hx ->; apply H3 in Hx; rewrite Hi in Hx; congruence).
  assert (∀ π', (∀ j z, π' j = Some z → π j = Some z ∨ (calling z = false ∧ blank z = false)) →
    (∀ j z, π j = Some z → calling z = true → π' j = Some z) → ∃ x, Some y = Some x ∧ phase_ok π' d x) as Hph.
  { intros π' Ha Hb'. exists y. split; [done|]. destruct y as [v|k]; simpl in *.
    - destruct Hp as (G1 & G2 & G3). split_and!; [|done|]; intros.
      + match goal with Hx : π' _ = Some _ |- _ => destruct (Ha _ _ Hx) as [?|[? ?]]; [eauto|done] end.
      + match goal with Hx : π' _ = Some _ |- _ => destruct (Ha _ _ Hx) as [?|[? ?]]; [eauto|done] end.
    - destruct Hp as (z & Hz & Hcz). exists z. eauto. }
  destruct q as [|x q].
  - split.
    + intros j. destruct (decide (j = h)) as [->|Hj]; [by rewrite upd_eq|]. rewrite upd_ne by done.
      destruct (role_of (π j)) eqn:Hj'; [done| |].
      * apply H3 in Hj'. by apply not_elem_of_nil in Hj'.
      * apply H1 in Hj'. done.
    + apply Hph; intros j z; (destruct (decide (j = h)) as [->|Hj]; [rewrite upd_eq|rewrite upd_ne by done; auto]).
      * intros [= <-]. auto.
      * intros Hz Hcz. rewrite Hi in Hz. rewrite (Hc0 _ Hz) in Hcz. done.
  - apply NoDup_cons in H2 as [Hxq H2]. assert (x ≠ h) as Hne by (apply Hxh; left).
    assert (role_of (π x) = Wait) as Hxw by (apply H3; left). split.
    + exists x. split_and!; [|done|].
      * intros j. destruct (decide (j = h)) as [->|Hj]; [rewrite upd_eq; rewrite Hr'; split; [done|congruence]|].
        rewrite upd_ne by done. destruct (decide (j = x)) as [->|Hjx]; [by rewrite upd_eq|].
        rewrite upd_ne by done. split; [intros Hj'; by apply H1 in Hj'|done].
      * intros j. destruct (decide (j = h)) as [->|Hj].
        { rewrite upd_eq, Hr'. split; [|done]. intros Hin. destruct (Hxh h); [by right|done]. }
        rewrite upd_ne by done. destruct (decide (j = x)) as [->|Hjx]; [rewrite upd_eq; split; [done|done]|].
        rewrite upd_ne by done. rewrite <- H3, elem_of_cons. naive_solver.
    + apply Hph; intros j z; (destruct (decide (j = h)) as [->|Hj]; [rewrite upd_eq|rewrite upd_ne by done;
        (destruct (decide (j = x)) as [->|Hjx]; [rewrite upd_eq|rewrite upd_ne by done; auto])]).
      * intros [= <-]. auto.
      * intros [= <-]. auto.
      * intros Hz Hcz. rewrite Hi in Hz. rewrite (Hc0 _ Hz) in Hcz. done.
      * intros Hz Hcz. rewrite Hz in Hxw. by destruct z.
Qed.

Lemma crit_holder (ρ : nat → role) o i : lock_ok ρ o → ρ i = Crit → ∃ q, o = Some q ∧ ∀ j, ρ j = Crit ↔ j = i.
Proof.
  destruct o as [q|]; simpl; [|intros Hl Hi; by rewrite Hl in Hi].
  intros (h & H1 & _) Hi. exists q. split; [done|]. apply H1 in Hi as ->. done.
Qed.

(** Who holds the lock without calling a handler finds the key free. *)
Lemma key_ok_free i p0 π o d ph :
  key_ok π o d ph → π i = Some p0 → role_of (Some p0) = Crit → calling p0 = false →
  ∃ v, ph = Some (Caching.Free v) ∧ (blank p0 = true → v = None).
Proof.
  intros [Hl (x & -> & Hp)] Hi Hr Hc. destruct x as [v|h]; simpl in Hp.
  - exists v. split; [done|]. intros Hb. destruct Hp as (_ & _ & Hp). destruct v as [v|]; [|done].
    rewrite (Hp ltac:(done) _ _ Hi) in Hb. done.
  - destruct Hp as (p & Hp & Hcp).
    destruct (crit_holder _ _ i Hl) as (q & -> & H1); [by rewrite Hi|].
    assert (h = i) as -> by (apply H1; rewrite Hp; by destruct p). congruence.
Qed.

Lemma key_ok_call i p0 p π o d ph :
  key_ok π o d ph → π i = Some p0 → role_of (Some p0) = Crit → role_of (Some p) = Crit → calling p = true →
  key_ok (upd i p π) o d (Some (Caching.Busy i)).
Proof.
  intros [Hl _] Hi Hr Hr' Hc. split; [|exists (Caching.Busy i); split; [done|]; exists p; by rewrite upd_eq].
  assert (∀ j, role_of (upd i p π j) = role_of (π j)) as Hrole.
  { intros j. destruct (decide (j = i)) as [->|Hj]; [by rewrite upd_eq, Hi, Hr|by rewrite upd_ne]. }
  destruct o as [q|]; cbn [lock_ok] in *; [|intros j; by rewrite Hrole].
  destruct Hl as (h & H1 & H2 & H3). exists h. split_and!; [|done|]; intros j; rewrite Hrole; auto.
Qed.

Lemma key_ok_settle i p0 p π o d d' ph v' :
  key_ok π o d ph → π i = Some p0 → calling p0 = true → role_of (Some p) = Crit → calling p = false → blank p = false →
  (∀ v, v' = Some v → d' = Some v ∧ nullish v = false) →
  ph = Some (Caching.Busy i) ∧ key_ok (upd i p π) o d' (Some (Caching.Free v')).
Proof.
  intros [Hl (x & -> & Hp)] Hi Hc Hr Hc' Hb Hv. assert (role_of (Some p0) = Crit) as Hr0 by (by destruct p0).
  destruct (crit_holder _ _ i Hl) as (q & -> & _); [by rewrite Hi|]. destruct Hl as (h & H1 & H2 & H3).
  assert (i = h) as -> by (apply H1; by rewrite Hi).
  assert (∀ j y, π j = Some y → role_of (Some y) = Crit → j = h) as Huniq by (intros j y Hy Hcy; apply H1; by rewrite Hy).
  split.
  - destruct x as [v|k]; simpl in Hp; [by rewrite (proj1 Hp _ _ Hi) in Hc|].
    destruct Hp as (y & Hy & Hcy). by rewrite (Huniq k y Hy) by (by destruct y).
  - assert (∀ j, role_of (upd h p π j) = role_of (π j)) as Hrole.
    { intros j. destruct (decide (j = h)) as [->|Hj]; [by rewrite upd_eq, Hi, Hr|by rewrite upd_ne]. }
    split; [exists h; split_and!; [|done|]; intros j; rewrite Hrole; auto|].
    exists (Caching.Free v'). split; [done|].
    assert (∀ j y, upd h p π j = Some y → calling y = false ∧ blank y = false) as Hcb.
    { intros j y. destruct (decide (j = h)) as [->|Hj]; [rewrite upd_eq; by intros [= <-]|rewrite upd_ne by done].
      intros Hy. split; (destruct y; try done); exfalso; apply Hj; eapply Huniq; done. }
    split_and!; [|done|]; intros; eapply Hcb; done.
Qed.

(** What is cached under the key changes. *)
Lemma key_ok_gone π o d d' ph :
  key_ok π o d ph → key_ok π o d' (ph ≫= λ x, Caching.advance nullish x Caching.Gone).
Proof.
  intros [Hl (x & -> & Hp)]. split; [done|]. destruct x as [v|h]; simpl in *; [|by exists (Caching.Busy h)].
  exists (Caching.Free None). split; [done|]. destruct Hp as (H1 & _ & _). by split_and!.
Qed.

Lemma key_ok_data π o d d' ph : key_ok π o d ph → (d = None ∨ d = d') → key_ok π o d' ph.
Proof.
  intros [Hl (x & -> & Hp)] Hd. split; [done|]. exists x. split; [done|].
  destruct x as [v|h]; simpl in *; [|done]. destruct Hp as (H1 & H2 & H3). split_and!; [done| |done].
  intros y Hy. destruct (H2 y Hy) as [? ?]. destruct Hd; subst; done.
Qed.

(** *** The primitives work on one key *)

Notation cached := Caching.cached.
Notation phase_of := (Caching.phase_of nullish).

(** Nothing but the state of key [k] changes. *)
Record local (k : string) (w w' : world) : Prop := {
  lc_proj key j : key ≠ k → proj w' key j = proj w key j;
  lc_lock key : key ≠ k → OMap.get key (Caching.w_lock w') = OMap.get key (Caching.w_lock w);
  lc_cache key : key ≠ k → cached (Caching.w_cache w') key = cached (Caching.w_cache w) key;
  lc_phase key : key ≠ k → phase_of key (Caching.w_trace w') = phase_of key (Caching.w_trace w);
  lc_wfl : OMap.wf (Caching.w_lock w) → OMap.wf (Caching.w_lock w');
  lc_wfc : OMap.wf (Caching.w_cache w) → OMap.wf (Caching.w_cache w')
}.

#[export] Instance local_preorder k : PreOrder (local k).
Proof.
  split; [by constructor|]. intros w1 w2 w3 [P1 L1 C1 T1 A1 B1] [P2 L2 C2 T2 A2 B2].
  constructor; [..|auto|auto]; intros.
  - by rewrite P2, P1.
  - by rewrite L2, L1.
  - by rewrite C2, C1.
  - by rewrite T2, T1.
Qed.

(** The state of one key *)
Definition state (w : world) (k : string) :=
  (OMap.get k (Caching.w_lock w), cached (Caching.w_cache w) k, phase_of k (Caching.w_trace w)).

Lemma proj_Some (w : world) k i p : proj w k i = Some p ↔ ∃ o, Caching.w_jobs w !! i = Some (Caching.Job k o p).
Proof.
  unfold proj. destruct (Caching.w_jobs w !! i) as [[k' o q]|]; simpl; [|split; [done|by intros [? ?]]].
  destruct (String.eqb_spec k' k) as [->|Hk]; split.
  - intros [= ->]. by exists o.
  - intros (o' & [= -> ->]). done.
  - done.
  - intros (o' & [= -> -> ->]). done.
Qed.

Lemma set_pc_local k i p (w : world) q : proj w k i = Some q → local k w (Caching.set_pc i p w).
Proof.
  intros Hq. apply proj_Some in Hq as [o Ho]. constructor; try done.
  intros key j Hk. unfold proj. simpl. destruct (decide (j = i)) as [->|Hj].
  - rewrite list_lookup_alter_eq, Ho. simpl. apply not_eq_sym, String.eqb_neq in Hk. by rewrite Hk.
  - by rewrite list_lookup_alter_ne.
Qed.

Lemma proj_set_pc k i p (w : world) q j : proj w k i = Some q → proj (Caching.set_pc i p w) k j = upd i p (proj w k) j.
Proof.
  intros Hq. apply proj_Some in Hq as [o Ho]. unfold proj at 1. simpl. destruct (decide (j = i)) as [->|Hj].
  - rewrite list_lookup_alter_eq, Ho, upd_eq. simpl. by rewrite String.eqb_refl.
  - rewrite upd_ne by done. by rewrite list_lookup_alter_ne.
Qed.

Lemma spawn_local k o p (w : world) : local k w (Caching.spawn (Caching.Job k o p) w).
Proof.
  constructor; try done. intros key j Hk. unfold proj. simpl.
  destruct (decide (j < length (Caching.w_jobs w))%nat) as [Hj|Hj].
  - by rewrite lookup_app_l.
  - rewrite lookup_app_r by lia. rewrite (lookup_ge_None_2 (Caching.w_jobs w)) by lia.
    destruct (j - _)%nat; simpl; [|done]. apply not_eq_sym, String.eqb_neq in Hk. by rewrite Hk.
Qed.

Lemma proj_spawn k o p (w : world) j :
  proj (Caching.spawn (Caching.Job k o p) w) k j = upd (length (Caching.w_jobs w)) p (proj w k) j.
Proof.
  unfold proj at 1. simpl. destruct (decide (j = length (Caching.w_jobs w))) as [->|Hj].
  - rewrite upd_eq, lookup_app_r, Nat.sub_diag by lia. simpl. by rewrite String.eqb_refl.
  - rewrite upd_ne by done. unfold proj. destruct (decide (j < length (Caching.w_jobs w))%nat).
    + by rewrite lookup_app_l.
    + rewrite lookup_ge_None_2 by (rewrite length_app; simpl; lia). by rewrite lookup_ge_None_2 by lia.
Qed.

Lemma proj_fresh (w : world) k : proj w k (length (Caching.w_jobs w)) = None.
Proof. unfold proj. by rewrite lookup_ge_None_2 by lia. Qed.

Lemma phase_of_app key t t' :
  phase_of key (t ++ t') =
  foldl (λ ph '(k, e), if String.eqb k key then ph ≫= λ ph, Caching.advance nullish ph e else ph) (phase_of key t) t'.
Proof. unfold Caching.phase_of. by rewrite foldl_app. Qed.

Lemma emit_local k e (w : world) : local k w (Caching.emit k e w).
Proof.
  constructor; try done. intros key Hk. simpl. rewrite phase_of_app. simpl.
  apply not_eq_sym, String.eqb_neq in Hk. by rewrite Hk.
Qed.

Lemma state_emit k e (w : world) :
  state (Caching.emit k e w) k =
  (OMap.get k (Caching.w_lock w), cached (Caching.w_cache w) k,
   phase_of k (Caching.w_trace w) ≫= λ ph, Caching.advance nullish ph e).
Proof. unfold state. simpl. rewrite phase_of_app. simpl. by rewrite String.eqb_refl. Qed.

Lemma cached_set_ne (c : Memory.t V) key k it : key ≠ k → cached (OMap.set k it c) key = cached c key.
Proof. intros Hk. unfold cached. by rewrite OMap.get_set_ne. Qed.

Lemma cached_set_eq (c : Memory.t V) k it : cached (OMap.set k it c) k = Some (Memory.data it).
Proof. unfold cached. by rewrite OMap.get_set_eq. Qed.

Lemma save_local k o v now (w : world) : local k w (Caching.save opt_ttl k o v now w).
Proof. constructor; try done; simpl; [intros; by apply cached_set_ne|by apply OMap.wf_set]. Qed.

Lemma drop_local k (w : world) : local k w (Caching.drop k w).
Proof.
  constructor; try done; simpl; [|by apply OMap.wf_delete].
  intros key Hk. unfold cached. by rewrite OMap.get_delete_ne.
Qed.

Lemma set_lock_local k l (w : world) :
  (∀ key, key ≠ k → OMap.get key l = OMap.get key (Caching.w_lock w)) →
  (OMap.wf (Caching.w_lock w) → OMap.wf l) → local k w (Caching.set_lock l w).
Proof. by constructor. Qed.

(** *** Replacing the cache *)

Lemma gones ph ks key :
  foldl (λ ph '(k, e), if String.eqb k key then ph ≫= λ ph, Caching.advance nullish ph e else ph) ph
    (map (λ k, (k, Caching.Gone)) ks) =
  if bool_decide (key ∈ ks) then ph ≫= λ ph, Caching.advance nullish ph Caching.Gone else ph.
Proof.
  revert ph. induction ks as [|k ks IH]; intros ph; simpl; [done|]. rewrite IH.
  destruct (String.eqb_spec k key) as [->|Hk].
  - rewrite (bool_decide_eq_true_2 (key ∈ key :: ks)) by left.
    case_bool_decide; [|done]. destruct ph as [[v|h]|]; done.
  - do 2 case_bool_decide; set_solver.
Qed.

Lemma cached_keys (c : Memory.t V) key : key ∉ OMap.keys c → cached c key = None.
Proof. intros Hk. unfold cached. apply OMap.get_None_keys in Hk. by rewrite Hk. Qed.

(** Every key the new cache has other data for was gone or is new. *)
Lemma change_key c (w : world) key π :
  key_ok π (OMap.get key (Caching.w_lock w)) (cached (Caching.w_cache w) key) (phase_of key (Caching.w_trace w)) →
  let w' := Caching.change c w in
  key_ok π (OMap.get key (Caching.w_lock w')) (cached (Caching.w_cache w') key) (phase_of key (Caching.w_trace w')).
Proof.
  intros Hk. simpl. rewrite phase_of_app, gones. case_bool_decide as Hin; [by eapply key_ok_gone|].
  eapply key_ok_data; [exact Hk|]. rewrite Arr.elem_of_filter in Hin.
  destruct (decide (key ∈ OMap.keys (Caching.w_cache w))) as [Hkey|Hkey]; [|left; by apply cached_keys].
  right. destruct (decide (cached c key = cached (Caching.w_cache w) key)) as [|Hne]; [done|].
  destruct Hin. split; [done|]. by apply bool_decide_eq_true_2.
Qed.

Lemma change_inv c (w : world) : inv w → OMap.wf c → inv (Caching.change c w).
Proof.
  intros (H1 & H2 & H3) Hc. split_and!; [done|done|]. intros key. destruct (H3 key) as (Hm & Hk & Hl).
  split_and!; [done| |done]. intros Hlk. by apply change_key, Hk.
Qed.

Lemma change_local k c (w : world) :
  (∀ key, key ≠ k → cached c key = cached (Caching.w_cache w) key) →
  (OMap.wf (Caching.w_cache w) → OMap.wf c) → local k w (Caching.change c w).
Proof.
  intros Hc Hwf. constructor; try done. intros key Hk. simpl. rewrite phase_of_app, gones.
  case_bool_decide as Hin; [|done]. apply Arr.elem_of_filter in Hin as [_ Hin].
  apply bool_decide_eq_true in Hin. by rewrite Hc in Hin.
Qed.

(** Reading a key: what it answers is cached, or the key is gone. *)
Lemma read_spec k now (w : world) :
  OMap.wf (Caching.w_cache w) →
  let '(v, w') := Caching.read missing k now w in
  local k w w' ∧ Caching.w_jobs w' = Caching.w_jobs w ∧ Caching.w_lock w' = Caching.w_lock w ∧
  (∀ π, key_ok π (OMap.get k (Caching.w_lock w)) (cached (Caching.w_cache w) k) (phase_of k (Caching.w_trace w)) →
     key_ok π (OMap.get k (Caching.w_lock w')) (cached (Caching.w_cache w') k) (phase_of k (Caching.w_trace w'))) ∧
  (∀ x, cached (Caching.w_cache w') k = Some x → v = x).
Proof.
  intros Hwf. unfold Caching.read.
  destruct (Memory.get missing k now (Caching.w_cache w)) as [v c] eqn:Hget.
  assert ((∀ key, key ≠ k → cached c key = cached (Caching.w_cache w) key) ∧ OMap.wf c ∧
    ∀ x, cached c k = Some x → v = x) as (H1 & H2 & H3).
  { unfold Memory.get in Hget. destruct (OMap.get k (Caching.w_cache w)) as [it|] eqn:Hg; [|simplify_eq; split_and!; try done; unfold Caching.cached; rewrite Hg; done].
    destruct (Memory.expired now it); simplify_eq; split_and!; try done.
    - intros key Hk. unfold Caching.cached. by rewrite OMap.get_delete_ne.
    - by apply OMap.wf_delete.
    - unfold Caching.cached. by rewrite OMap.get_delete_eq.
    - unfold Caching.cached. rewrite Hg. simpl. congruence. }
  split_and!; [by apply change_local|done|done| |done].
  intros π. apply change_key.
Qed.

(** The invariant after work on one key *)
Lemma inv_local k (w w' : world) :
  inv w → local k w w' → mode_ok k (proj w' k) →
  (locked k = true → key_ok (proj w' k) (OMap.get k (Caching.w_lock w')) (cached (Caching.w_cache w') k)
     (phase_of k (Caching.w_trace w'))) →
  (locked k = false → OMap.get k (Caching.w_lock w') = None) → inv w'.
Proof.
  intros (H1 & H2 & H3) [L1 L2 L3 L4 L5 L6] Hm Hk Hl. split_and!; [auto..|]. intros key.
  destruct (decide (key = k)) as [->|Hne]; [done|]. destruct (H3 key) as (Hm' & Hk' & Hl').
  split_and!.
  - intros i p. rewrite L1 by done. apply Hm'.
  - intros Hlk. rewrite L2, L3, L4 by done. apply (key_ok_ext (proj w key)); [|auto]. intros i. by rewrite L1.
  - intros Hlk. rewrite L2 by done. auto.
Qed.

Lemma mode_ok_upd k i p π : mode_ok k π →
  match p with Caching.PlainRead _ | Caching.PlainCalling => locked k = false | Caching.Done _ _ => True
          | _ => locked k = true end → mode_ok k (upd i p π).
Proof.
  intros Hm Hp j q. destruct (decide (j = i)) as [->|Hj]; [rewrite upd_eq; by intros [= <-]|].
  rewrite upd_ne by done. apply Hm.
Qed.

Lemma mode_ok_ext k π π' : (∀ i, π' i = π i) → mode_ok k π → mode_ok k π'.
Proof. intros Heq Hm i p. rewrite Heq. apply Hm. Qed.

(** What a request waited for before it moves on does not matter. *)
Lemma unlock_absorb k i p y (w : world) :
  Caching.set_pc i p (Caching.unlock k (Caching.set_pc i y w)) = Caching.set_pc i p (Caching.unlock k w).
Proof.
  unfold Caching.unlock. simpl. destruct (Lock.release k (Caching.w_lock w)) as [[x|] l]; unfold Caching.set_pc; simpl;
    f_equal; apply list_eq; intros j; rewrite !list_lookup_alter; repeat case_decide; subst; try done;
    match goal with |- context [Caching.w_jobs w !! ?n] => by destruct (Caching.w_jobs w !! n) end.
Qed.

(** The holder of a key unlocks it and goes on with [p]. *)
Lemma unlock_spec k i p0 p (w : world) :
  inv w → locked k = true → proj w k i = Some p0 → role_of (Some p0) = Crit → calling p0 = false →
  role_of (Some p) = Idle →
  match p with Caching.PlainRead _ | Caching.PlainCalling => False | _ => True end →
  inv (Caching.set_pc i p (Caching.unlock k w)).
Proof.
  intros Hinv Hlk Hi Hr Hc0 Hr' Hpl. pose proof Hinv as (Hwl & Hwc & Hkeys).
  assert (calling p = false) as Hc by (by destruct p).
  destruct (Hkeys k) as (Hm & Hk & _). specialize (Hk Hlk).
  destruct (crit_holder _ _ i (proj1 Hk)) as (q & Hq & _); [by rewrite Hi|]. rewrite Hq in Hk.
  pose proof (key_ok_release i (Some p0) p _ q _ _ Hk Hi Hr Hr' ltac:(by intros ? [= <-]) Hc) as Hk2.
  assert (match p with Caching.PlainRead _ | Caching.PlainCalling => locked k = false | Caching.Done _ _ => True
          | _ => locked k = true end) as Hmp by by destruct p.
  unfold Caching.unlock, Lock.release. rewrite Hq. destruct q as [|x q].
  - set (w2 := Caching.set_lock _ w).
    assert (local k w w2) as Hl2.
    { apply set_lock_local; [intros key Hne; apply OMap.get_delete_ne; congruence|by apply OMap.wf_delete]. }
    assert (proj w2 k i = Some p0) as Hi2 by exact Hi.
    apply (inv_local k w); [done| | | |intros; congruence].
    + etransitivity; [exact Hl2|]. by eapply set_pc_local.
    + eapply mode_ok_ext; [intros j; by eapply proj_set_pc|]. by apply mode_ok_upd.
    + intros _. simpl. rewrite OMap.get_delete_eq by done. eapply key_ok_ext; [|exact Hk2].
      intros j. by rewrite (proj_set_pc k i p w2 p0 j Hi2).
  - set (w2 := Caching.set_lock _ w).
    assert (proj w k x = Some Caching.Waiting) as Hx.
    { destruct Hk as [(h & _ & _ & H3) _]. assert (role_of (proj w k x) = Wait) as Hw by (apply H3; left).
      destruct (proj w k x) as [z|]; [|done]. by destruct z. }
    assert (x ≠ i) as Hxi by (intros ->; rewrite Hi in Hx; injection Hx as ->; done).
    assert (local k w w2) as Hl2.
    { apply set_lock_local; [intros key Hne; apply OMap.get_set_ne; congruence|by apply OMap.wf_set]. }
    assert (proj w2 k x = Some Caching.Waiting) as Hx2 by exact Hx.
    set (w3 := Caching.set_pc x Caching.Granted w2).
    assert (∀ j, proj w3 k j = upd x Caching.Granted (proj w k) j) as Hp3 by (intros j; exact (proj_set_pc k x _ w2 _ j Hx2)).
    assert (proj w3 k i = Some p0) as Hi3 by (rewrite Hp3, upd_ne; done).
    assert (∀ j, proj (Caching.set_pc i p w3) k j = upd i p (upd x Caching.Granted (proj w k)) j) as Hp4.
    { intros j. rewrite (proj_set_pc k i p w3 p0 j Hi3).
      destruct (decide (j = i)) as [->|Hj]; [by rewrite !upd_eq|]. by rewrite !(upd_ne i) by done. }
    apply (inv_local k w); [done| | | |intros; congruence].
    + etransitivity; [exact Hl2|]. etransitivity; [by eapply (set_pc_local k x)|by eapply set_pc_local].
    + eapply mode_ok_ext; [exact Hp4|]. apply mode_ok_upd; [|done]. by apply mode_ok_upd.
    + intros _. simpl. rewrite OMap.get_set_eq. by eapply key_ok_ext; [intros j; symmetry; exact (Hp4 j)|].
Qed.

(** A request moves on without touching the lock or the cache. *)
Lemma move_spec k i p0 p (w : world) :
  inv w → proj w k i = Some p0 → role_of (Some p0) = role_of (Some p) → calling p0 = false → calling p = false →
  match p with Caching.PlainRead _ | Caching.PlainCalling => locked k = false | Caching.Done _ _ => True
          | _ => locked k = true end →
  (blank p = true → ∀ v, phase_of k (Caching.w_trace w) = Some (Caching.Free (Some v)) → False) →
  inv (Caching.set_pc i p w).
Proof.
  intros Hinv Hi Hr Hc0 Hc Hmp Hb. pose proof Hinv as (_ & _ & Hkeys). destruct (Hkeys k) as (Hm & Hk & Hl).
  apply (inv_local k w); [done|by eapply set_pc_local| | |done].
  - eapply mode_ok_ext; [intros j; by eapply proj_set_pc|]. by apply mode_ok_upd.
  - intros Hlk. eapply key_ok_ext; [intros j; symmetry; by eapply proj_set_pc|].
    eapply (key_ok_move i (Some p0)); [by apply Hk|by rewrite Hi|done|done|by intros ? [= <-]|done].
Qed.

(** Requests that arrive *)
Lemma spawn_spec k o p (w : world) :
  inv w → role_of (Some p) = Idle → calling p = false →
  match p with Caching.PlainRead _ | Caching.PlainCalling => locked k = false | Caching.Done _ _ => True
          | _ => locked k = true end →
  inv (Caching.spawn (Caching.Job k o p) w).
Proof.
  intros Hinv Hr Hc Hmp. pose proof Hinv as (_ & _ & Hkeys). destruct (Hkeys k) as (Hm & Hk & Hl).
  apply (inv_local k w); [done|apply spawn_local| | |done].
  - eapply mode_ok_ext; [intros j; apply proj_spawn|]. by apply mode_ok_upd.
  - intros Hlk. eapply key_ok_ext; [intros j; symmetry; apply proj_spawn|].
    eapply (key_ok_move _ None); [by apply Hk|by rewrite proj_fresh|by rewrite proj_fresh|done|done|].
    intros Hb. by destruct p.
Qed.

Lemma read_inv k now (w : world) : inv w → inv (Caching.read missing k now w).2.
Proof.
  intros Hinv. pose proof Hinv as (_ & Hwc & Hkeys). pose proof (read_spec k now w Hwc) as Hr.
  destruct (Caching.read missing k now w) as [v w']. destruct Hr as (Hloc & Hj & Hl & Hk & _). simpl.
  assert (∀ key j, proj w' key j = proj w key j) as Hp by (intros; unfold proj; by rewrite Hj).
  destruct (Hkeys k) as (Hm & Hko & Hl0). apply (inv_local k w); [done|done| | |].
  - eapply mode_ok_ext; [apply Hp|done].
  - intros Hlk. eapply key_ok_ext; [intros j; symmetry; apply Hp|]. by apply Hk, Hko.
  - rewrite Hl. done.
Qed.

(** Asking for the lock *)
Lemma acquire_spec k i p0 (w : world) :
  inv w → locked k = true → proj w k i = Some p0 → role_of (Some p0) = Idle →
  let '(granted, l) := Lock.acquire k i (Caching.w_lock w) in
  inv (Caching.set_pc i (if granted then Caching.Granted else Caching.Waiting) (Caching.set_lock l w)).
Proof.
  intros Hinv Hlk Hi Hr. pose proof Hinv as (Hwl & _ & Hkeys). destruct (Hkeys k) as (Hm & Hk & _). specialize (Hk Hlk).
  assert (Lock.acquire k i (Caching.w_lock w) =
    (match OMap.get k (Caching.w_lock w) with None => true | Some _ => false end,
     OMap.set k (match OMap.get k (Caching.w_lock w) with None => [] | Some q => q ++ [i] end) (Caching.w_lock w))) as ->.
  { unfold Lock.acquire. by destruct (OMap.get k (Caching.w_lock w)). }
  set (o := OMap.get k (Caching.w_lock w)) in *. set (w1 := Caching.set_lock _ w).
  match goal with |- inv (Caching.set_pc _ ?x _) => set (p := x) end.
  assert (proj w1 k i = Some p0) as Hi1 by exact Hi.
  apply (inv_local k w); [done| | | |congruence].
  - etransitivity; [|by eapply set_pc_local].
    apply set_lock_local; [intros key Hne; apply OMap.get_set_ne; congruence|by apply OMap.wf_set].
  - eapply mode_ok_ext; [intros j; by eapply proj_set_pc|]. apply mode_ok_upd; [done|]. by unfold p; destruct o.
  - intros _. simpl. rewrite OMap.get_set_eq. eapply key_ok_ext; [intros j; symmetry; by eapply (proj_set_pc k i p w1)|].
    apply (key_ok_acquire i (Some p0) p _ o); [done..| | |]; by unfold p; destruct o.
Qed.

(** Starting a refresh of a key that is not locked *)
Lemma refresh_spec k o (w : world) :
  inv w → locked k = true → Lock.isLocked k (Caching.w_lock w) = false →
  inv (Caching.spawn (Caching.Job k o Caching.RefreshGranted)
         (Caching.set_lock (Lock.acquire k (length (Caching.w_jobs w)) (Caching.w_lock w)).2 w)).
Proof.
  intros Hinv Hlk Hn. pose proof Hinv as (Hwl & _ & Hkeys). destruct (Hkeys k) as (Hm & Hk & _). specialize (Hk Hlk).
  unfold Lock.isLocked, OMap.has in Hn. unfold Lock.acquire.
  destruct (OMap.get k (Caching.w_lock w)) as [q|] eqn:Hg; [done|]. simpl. set (w1 := Caching.set_lock _ w).
  apply (inv_local k w); [done| | | |congruence].
  - etransitivity; [|apply spawn_local].
    apply set_lock_local; [intros key Hne; apply OMap.get_set_ne; congruence|by apply OMap.wf_set].
  - eapply mode_ok_ext; [intros j; apply proj_spawn|]. by apply mode_ok_upd.
  - intros _. simpl. rewrite OMap.get_set_eq. eapply key_ok_ext; [intros j; symmetry; apply (proj_spawn k o _ w1)|].
    apply (key_ok_acquire _ None _ _ None); try done. apply (proj_fresh w k).
Qed.

(** The holder of a key does something that counts for the phase of the key. *)
Lemma work_spec k i p0 p e (w w1 : world) :
  inv w → locked k = true → proj w k i = Some p0 → local k w w1 →
  Caching.w_jobs w1 = Caching.w_jobs w → Caching.w_lock w1 = Caching.w_lock w → Caching.w_trace w1 = Caching.w_trace w →
  match p with Caching.PlainRead _ | Caching.PlainCalling => False | _ => True end →
  (key_ok (proj w k) (OMap.get k (Caching.w_lock w)) (cached (Caching.w_cache w) k) (phase_of k (Caching.w_trace w)) →
   key_ok (upd i p (proj w k)) (OMap.get k (Caching.w_lock w)) (cached (Caching.w_cache w1) k)
     (phase_of k (Caching.w_trace w) ≫= λ ph, Caching.advance nullish ph e)) →
  inv (Caching.set_pc i p (Caching.emit k e w1)).
Proof.
  intros Hinv Hlk Hi Hloc Hj Hl Ht Hp Hko. pose proof Hinv as (_ & _ & Hkeys). destruct (Hkeys k) as (Hm & Hk & _).
  set (w2 := Caching.emit k e w1).
  assert (proj w2 k i = Some p0) as Hi2 by (unfold proj; simpl; rewrite Hj; exact Hi).
  assert (∀ j, proj (Caching.set_pc i p w2) k j = upd i p (proj w k) j) as Hpr.
  { intros j. rewrite (proj_set_pc k i p w2 p0 j Hi2). destruct (decide (j = i)) as [->|Hne]; [by rewrite !upd_eq|].
    rewrite !upd_ne by done. unfold proj. simpl. by rewrite Hj. }
  apply (inv_local k w); [done| | | |congruence].
  - etransitivity; [exact Hloc|]. etransitivity; [apply emit_local|by eapply set_pc_local].
  - eapply mode_ok_ext; [exact Hpr|]. apply mode_ok_upd; [done|]. by destruct p.
  - intros _. pose proof (f_equal snd (state_emit k e w1)) as Hs3. simpl in Hs3 |- *.
    rewrite Hs3, Hl, Ht. eapply key_ok_ext; [intros j; symmetry; apply Hpr|]. by apply Hko, Hk.
Qed.

Lemma inv_callback i now (w w' : world) : inv w → Caching.callback nullish missing i now w = Some w' → inv w'.
Proof.
  intros Hinv. unfold Caching.callback. pose proof Hinv as (_ & Hwc & Hkeys).
  destruct (Caching.w_jobs w !! i) as [[k o p]|] eqn:Hj; [|done].
  assert (proj w k i = Some p) as Hi by (apply proj_Some; by exists o).
  destruct (Hkeys k) as (Hm & Hk & _). pose proof (Hm i p Hi) as Hmode.
  destruct p as [d t|d| | |c| |v|out b| | | | |c|]; try done.
  - assert (inv (Caching.set_pc i (Caching.Checked d) w)) as H1 by by eapply (move_spec k i (Caching.Peeked d t)).
    destruct (_ && _); [|by intros [= <-]]. destruct (Lock.isLocked k (Caching.w_lock w)) eqn:Hn.
    + simpl. rewrite Hn. by intros [= <-].
    + pose proof (refresh_spec k o _ H1 Hmode Hn) as H2. revert H2. simpl. rewrite Hn.
      destruct (Lock.acquire _ _ _) as [g l]. by intros H2 [= <-].
  - case_bool_decide; [intros [= <-]; by eapply (move_spec k i (Caching.Checked d))|].
    pose proof (acquire_spec k i _ w Hinv Hmode Hi eq_refl) as Ha.
    destruct (Lock.acquire _ _ _) as [g l]. by intros [= <-].
  - pose proof (read_spec k now w Hwc) as Hr. pose proof (read_inv k now w Hinv) as Hinv1.
    destruct (Caching.read missing k now w) as [c w1]. simpl in Hinv1. destruct Hr as (_ & Hjobs & _ & _ & Hc).
    intros [= <-]. assert (proj w1 k i = Some Caching.Granted) as Hi1 by (unfold proj; rewrite Hjobs; exact Hi).
    eapply (move_spec k i Caching.Granted); try done. intros Hb v Hph.
    destruct Hinv1 as (_ & _ & Hkeys1). destruct (Hkeys1 k) as (_ & Hk1 & _). destruct (Hk1 Hmode) as [_ (x & Hx & Hpx)].
    rewrite Hph in Hx. injection Hx as <-. simpl in Hpx. destruct Hpx as (_ & Hpx & _).
    destruct (Hpx v eq_refl) as [Hcv Hnv]. apply Hc in Hcv as ->. simpl in Hb. congruence.
  - destruct (nullish c) eqn:Hn; simpl; intros [= <-].
    + apply (work_spec k i (Caching.Reread c) _ _ w w); try done. intros Hko.
      destruct (key_ok_free i _ _ _ _ _ Hko Hi eq_refl eq_refl) as (v & Hph & Hv). rewrite Hph. rewrite (Hv Hn). simpl.
      by eapply key_ok_call.
    + by eapply (unlock_spec k i (Caching.Reread c)).
  - intros [= <-]. by eapply (unlock_spec k i (Caching.Unlocking v)).
  - intros [= <-]. apply (work_spec k i Caching.RefreshGranted _ _ w w); try done. intros Hko.
    destruct (key_ok_free i _ _ _ _ _ Hko Hi eq_refl eq_refl) as (v & Hph & _). rewrite Hph. simpl. by eapply key_ok_call.
  - intros [= <-]. by eapply (unlock_spec k i Caching.RefreshUnlocking).
  - case_bool_decide; intros [= <-]; by eapply (move_spec k i (Caching.PlainRead c)).
Qed.

Lemma save_cached k o v now (w : world) : cached (Caching.w_cache (Caching.save opt_ttl k o v now w)) k = Some v.
Proof. unfold Caching.save, Memory.set. simpl. by rewrite cached_set_eq. Qed.

Lemma drop_cached k (w : world) : OMap.wf (Caching.w_cache w) → cached (Caching.w_cache (Caching.drop k w)) k = None.
Proof. intros Hwf. simpl. unfold cached. by rewrite OMap.get_delete_eq. Qed.

(** Work on the cache of a key that is not cached with the lock *)
Lemma plain_spec k i p0 p (w w1 : world) :
  inv w → locked k = false → proj w k i = Some p0 → local k w w1 → Caching.w_jobs w1 = Caching.w_jobs w →
  Caching.w_lock w1 = Caching.w_lock w →
  match p with Caching.PlainRead _ | Caching.PlainCalling | Caching.Done _ _ => True | _ => False end →
  inv (Caching.set_pc i p w1).
Proof.
  intros Hinv Hlk Hi Hloc Hj Hl Hp. pose proof Hinv as (_ & _ & Hkeys). destruct (Hkeys k) as (Hm & _ & Hl0).
  assert (proj w1 k i = Some p0) as Hi1 by (unfold proj; rewrite Hj; exact Hi).
  apply (inv_local k w); [done| | |congruence|].
  - etransitivity; [exact Hloc|by eapply set_pc_local].
  - eapply mode_ok_ext; [intros j; by eapply proj_set_pc|]. apply mode_ok_upd; [|by destruct p].
    eapply mode_ok_ext; [|exact Hm]. intros j. unfold proj. by rewrite Hj.
  - intros _. simpl. rewrite Hl. auto.
Qed.

Lemma inv_settle i r now (w w' : world) : inv w → Caching.settle opt_ttl i r now w = Some w' → inv w'.
Proof.
  intros Hinv. unfold Caching.settle. pose proof Hinv as (_ & Hwc & Hkeys).
  destruct (Caching.w_jobs w !! i) as [[k o p]|] eqn:Hj; [|done].
  assert (proj w k i = Some p) as Hi by (apply proj_Some; by exists o).
  destruct (Hkeys k) as (Hm & _ & _). pose proof (Hm i p Hi) as Hmode.
  assert (∀ v y, role_of (Some y) = Crit → calling y = false → blank y = false → calling p = true →
    match y with Caching.PlainRead _ | Caching.PlainCalling => False | _ => True end → locked k = true →
    inv (Caching.set_pc i y (Caching.emit k (Caching.Saved i v) (Caching.save opt_ttl k o v now w)))) as Hsave.
  { intros v y Hr Hc Hb Hcp Hpl Hlk. apply (work_spec k i p _ _ w); [done..|apply save_local|done|done|done|done|]. intros Hko.
    destruct (key_ok_settle i p y _ _ _ (Some v) _ (if nullish v then None else Some v) Hko Hi Hcp Hr Hc Hb) as [-> Hk'].
    { intros u. destruct (nullish v) eqn:Hn; [done|]. intros [= <-]. done. }
    rewrite save_cached. simpl. by rewrite Nat.eqb_refl. }
  assert (∀ w1 y, local k w w1 → Caching.w_jobs w1 = Caching.w_jobs w → Caching.w_lock w1 = Caching.w_lock w →
    Caching.w_trace w1 = Caching.w_trace w → role_of (Some y) = Crit → calling y = false → blank y = false →
    match y with Caching.PlainRead _ | Caching.PlainCalling => False | _ => True end → calling p = true → locked k = true →
    inv (Caching.set_pc i y (Caching.emit k (Caching.Failed i) w1))) as Hfail.
  { intros w1 y Hloc H1 H2 H3 Hr Hc Hb Hpl Hcp Hlk. apply (work_spec k i p _ _ w w1); try done. intros Hko.
    destruct (key_ok_settle i p y _ _ _ (cached (Caching.w_cache w1) k) _ None Hko Hi Hcp Hr Hc Hb) as [-> Hk']; [done|].
    simpl. by rewrite Nat.eqb_refl. }
  destruct p, r; try done; intros [= <-].
  - by apply Hsave.
  - rewrite <- (unlock_absorb k i _ Caching.RefreshUnlocking).
    eapply (unlock_spec k i Caching.RefreshUnlocking); try done; [by apply Hfail|].
    rewrite (proj_set_pc k i _ _ Caching.Calling i) by exact Hi. by rewrite upd_eq.
  - by apply Hsave.
  - apply Hfail; try done. apply drop_local.
  - eapply (plain_spec k i Caching.PlainCalling); try done. apply save_local.
  - by eapply (plain_spec k i Caching.PlainCalling).
Qed.

Lemma wf_foldl_delete {A} (f : Memory.t V → A → Memory.t V) l c :
  (∀ c x, OMap.wf c → OMap.wf (f c x)) → OMap.wf c → OMap.wf (foldl f c l).
Proof. intros Hf Hc. apply foldl_invariant; auto. Qed.

Lemma wf_del keys (c : Memory.t V) : OMap.wf c → OMap.wf (Memory.del keys c).
Proof. apply wf_foldl_delete. intros. by apply OMap.wf_delete. Qed.

Lemma wf_clean ms (c : Memory.t V) : OMap.wf c → OMap.wf (Memory.clean regexp ms c).
Proof. apply wf_foldl_delete. intros c' [k it] Hc. destruct (existsb _ _); [by apply OMap.wf_delete|done]. Qed.

Lemma wf_checkTTL now (c : Memory.t V) : OMap.wf c → OMap.wf (Memory.checkTTL now c).
Proof.
  apply wf_foldl_delete. intros c' [k it] Hc. destruct (OMap.get k c') as [it'|]; [|done].
  destruct (Memory.expired now it'); [by apply OMap.wf_delete|done].
Qed.

Notation step := (Caching.step nullish missing opt_ttl regexp locked).
Notation reachable := (Caching.reachable nullish missing opt_ttl regexp locked).
Notation internal := (Caching.internal nullish missing opt_ttl).

Lemma inv_internal (w w' : world) : inv w → internal w w' → inv w'.
Proof. intros Hinv Hs. destruct Hs; [by eapply inv_callback|by eapply inv_settle]. Qed.

Lemma caching_inv_step (w w' : world) : inv w → step w w' → inv w'.
Proof.
  intros Hinv Hs. pose proof Hinv as (_ & Hwc & Hkeys). destruct Hs.
  - by eapply inv_internal.
  - unfold Caching.middlewareWithLock. destruct (Memory.nonzero _).
    + unfold Memory.getWithTTL. destruct (OMap.get key (Caching.w_cache w)) as [it|] eqn:Hg.
      * apply spawn_spec; try done.
        destruct (Memory.nonzero opt_ttl); [|done].
        destruct (Hkeys key) as (Hm & Hk & Hl). apply (inv_local key w); [done| |done| |done].
        -- constructor; try done; simpl; [intros; by apply cached_set_ne|by apply OMap.wf_set].
        -- intros Hlk. simpl. rewrite cached_set_eq. simpl. replace (Some (Memory.data it)) with (cached (Caching.w_cache w) key); [by apply Hk|].
           unfold Caching.cached. by rewrite Hg.
      * by apply spawn_spec.
    + pose proof (read_inv key now w Hinv) as Hr. destruct (Caching.read _ _ _ w). by apply spawn_spec.
  - unfold Caching.middlewareWithoutLock. pose proof (read_inv key now w Hinv) as Hr.
    destruct (Caching.read _ _ _ w). by apply spawn_spec.
  - apply change_inv; [done|]. by apply OMap.wf_set.
  - apply change_inv; [done|]. by apply wf_del.
  - apply change_inv; [done|]. by apply wf_clean.
  - apply change_inv; [done|]. by apply wf_checkTTL.
Qed.

Lemma inv_start c : OMap.wf c → inv (Caching.start c).
Proof.
  intros Hc. split_and!; [constructor|done|]. intros key. split_and!; [by intros i p|intros _|done].
  split; [by intros i|]. exists (Caching.Free None). split; [done|]. by split_and!.
Qed.

Lemma caching_inv_reachable c (w : world) : OMap.wf c → reachable c w → inv w.
Proof. intros Hc. induction 1; [by apply inv_start|by eapply caching_inv_step]. Qed.

(** *** Every request is answered *)

(** How many internal steps a request may still take. *)
Definition weight (p : pc) : nat :=
  match p with
  | Caching.Peeked _ _ => 10
  | Caching.Checked _ => 6
  | Caching.Waiting => 5
  | Caching.Granted => 4
  | Caching.Reread _ | Caching.RefreshGranted => 3
  | Caching.Calling | Caching.RefreshCalling | Caching.PlainRead _ => 2
  | Caching.Unlocking _ | Caching.RefreshUnlocking | Caching.PlainCalling => 1
  | Caching.Done _ _ | Caching.RefreshDone => 0
  end.

Definition work (w : world) : nat := sum_list_with (λ j, weight (Caching.j_pc j)) (Caching.w_jobs w).

Lemma work_set_pc i p j (w : world) :
  Caching.w_jobs w !! i = Some j → (work (Caching.set_pc i p w) + weight (Caching.j_pc j) = work w + weight p)%nat.
Proof.
  unfold work. simpl. generalize (Caching.w_jobs w). intros l. revert i.
  induction l as [|x l IH]; intros [|i] Hi; simpl in *; try done; [simplify_eq; simpl; lia|].
  specialize (IH i Hi). unfold alter in IH. lia.
Qed.

Lemma work_spawn j (w : world) : work (Caching.spawn j w) = (work w + weight (Caching.j_pc j))%nat.
Proof. unfold work. simpl. rewrite sum_list_with_app. simpl. lia. Qed.

(** Unlocking only lets someone who waits go on. *)
Lemma work_unlock k (w : world) : inv w → locked k = true → (work (Caching.unlock k w) ≤ work w)%nat.
Proof.
  intros (_ & _ & Hkeys) Hlk. destruct (Hkeys k) as (_ & Hk & _). destruct (Hk Hlk) as [Hl _].
  unfold Caching.unlock, Lock.release. destruct (OMap.get k (Caching.w_lock w)) as [[|x q]|]; [done| |done].
  destruct Hl as (h & _ & _ & H3). assert (role_of (proj w k x) = Wait) as Hw by (apply H3; left).
  destruct (proj w k x) as [y|] eqn:Hx; [|done]. destruct y; try done. apply proj_Some in Hx as [o Ho].
  match goal with |- (work (Caching.set_pc _ _ ?v) ≤ _)%nat => pose proof (work_set_pc x Caching.Granted _ v Ho) as Hwk end.
  simpl in Hwk. change (work (Caching.set_lock _ w)) with (work w) in Hwk. lia.
Qed.

Lemma unlock_pc k i j (w : world) : inv w → locked k = true → Caching.w_jobs w !! i = Some j →
  role_of (Some (Caching.j_pc j)) = Crit → Caching.w_jobs (Caching.unlock k w) !! i = Some j.
Proof.
  intros (_ & _ & Hkeys) Hlk Hj Hr. destruct (Hkeys k) as (_ & Hk & _). destruct (Hk Hlk) as [Hl _].
  unfold Caching.unlock, Lock.release. destruct (OMap.get k (Caching.w_lock w)) as [[|x q]|]; [done| |done].
  destruct Hl as (h & _ & _ & H3). assert (role_of (proj w k x) = Wait) as Hw by (apply H3; left).
  simpl. rewrite list_lookup_alter_ne; [done|]. intros ->. unfold proj in Hw. rewrite Hj in Hw.
  destruct (String.eqb _ _); [rewrite Hr in Hw; done|done].
Qed.

Lemma work_unlock_done k i j p (w : world) :
  inv w → locked k = true → Caching.w_jobs w !! i = Some j → role_of (Some (Caching.j_pc j)) = Crit →
  (weight p < weight (Caching.j_pc j))%nat → (work (Caching.set_pc i p (Caching.unlock k w)) < work w)%nat.
Proof.
  intros Hinv Hlk Hj Hr Hp. pose proof (work_unlock k w Hinv Hlk) as H1.
  pose proof (work_set_pc i p j _ (unlock_pc k i j w Hinv Hlk Hj Hr)) as H2. lia.
Qed.

Lemma work_read k now (w : world) : work (Caching.read missing k now w).2 = work w.
Proof. unfold Caching.read. by destruct (Memory.get _ _ _ _). Qed.

Lemma read_jobs k now (w : world) : Caching.w_jobs (Caching.read missing k now w).2 = Caching.w_jobs w.
Proof. unfold Caching.read. by destruct (Memory.get _ _ _ _). Qed.

Lemma work_move i p j (w w1 : world) :
  Caching.w_jobs w1 = Caching.w_jobs w → Caching.w_jobs w !! i = Some j → (weight p < weight (Caching.j_pc j))%nat →
  (work (Caching.set_pc i p w1) < work w)%nat.
Proof.
  intros H1 Hj Hp. rewrite <- H1 in Hj. pose proof (work_set_pc i p j w1 Hj) as H2.
  assert (work w1 = work w) as H3 by (unfold work; by rewrite H1). lia.
Qed.

Lemma work_callback i now (w w' : world) :
  inv w → Caching.callback nullish missing i now w = Some w' → (work w' < work w)%nat.
Proof.
  intros Hinv. unfold Caching.callback. pose proof Hinv as (_ & Hwc & Hkeys).
  destruct (Caching.w_jobs w !! i) as [[k o p]|] eqn:Hj; [|done].
  assert (proj w k i = Some p) as Hi by (apply proj_Some; by exists o).
  destruct (Hkeys k) as (Hm & _ & _). pose proof (Hm i p Hi) as Hmode.
  destruct p as [d t|d| | |c| |v|out b| | | | |c|]; try done.
  - pose proof (work_set_pc i (Caching.Checked d) _ w Hj) as Hw. simpl in Hw.
    destruct (_ && _); [|intros [= <-]; lia]. destruct (Lock.isLocked _ _); [intros [= <-]; lia|].
    destruct (Lock.acquire _ _ _) as [g l]. intros [= <-]. rewrite work_spawn. simpl.
    change (work (Caching.set_lock l _)) with (work (Caching.set_pc i (Caching.Checked d) w)). lia.
  - case_bool_decide; [intros [= <-]; by eapply work_move; [|exact Hj|simpl; lia]|].
    destruct (Lock.acquire _ _ _) as [g l]. intros [= <-]. eapply work_move; [|exact Hj|destruct g; simpl; lia]. done.
  - pose proof (read_jobs k now w) as Hr. destruct (Caching.read missing k now w) as [c w1]. intros [= <-].
    eapply work_move; [exact Hr|exact Hj|simpl; lia].
  - destruct (nullish c); simpl; intros [= <-].
    + by eapply work_move; [|exact Hj|simpl; lia].
    + eapply work_unlock_done; [done|done|exact Hj|done|simpl; lia].
  - intros [= <-]. eapply work_unlock_done; [done|done|exact Hj|done|simpl; lia].
  - intros [= <-]. by eapply work_move; [|exact Hj|simpl; lia].
  - intros [= <-]. eapply work_unlock_done; [done|done|exact Hj|done|simpl; lia].
  - case_bool_decide; intros [= <-]; by eapply work_move; [|exact Hj|simpl; lia].
Qed.

Lemma work_settle i r now (w w' : world) :
  inv w → Caching.settle opt_ttl i r now w = Some w' → (work w' < work w)%nat.
Proof.
  intros Hinv. unfold Caching.settle. pose proof Hinv as (_ & _ & Hkeys).
  destruct (Caching.w_jobs w !! i) as [[k o p]|] eqn:Hj; [|done].
  assert (proj w k i = Some p) as Hi by (apply proj_Some; by exists o).
  destruct (Hkeys k) as (Hm & _ & _). pose proof (Hm i p Hi) as Hmode.
  assert (∀ w1 y, Caching.w_jobs w1 = Caching.w_jobs w → (weight y < weight p)%nat → (work (Caching.set_pc i y w1) < work w)%nat) as Hmv.
  { intros w1 y H1 Hy. by eapply work_move; [exact H1|exact Hj|]. }
  destruct p, r as [u|e]; try done; intros [= <-]; try (apply Hmv; [done|simpl; lia]).
  set (w1 := Caching.set_pc i (Caching.RefreshUnlocking : pc) w).
  pose proof (work_set_pc i Caching.RefreshUnlocking _ w Hj) as Hw1. simpl in Hw1. fold w1 in Hw1.
  enough (work (Caching.set_pc i (Caching.Done (Caching.Rejected e) false) (Caching.unlock k (Caching.emit k (Caching.Failed i) w))) < work w)%nat by done.
  assert (inv (Caching.set_pc i Caching.RefreshUnlocking (Caching.emit k (Caching.Failed i) w))) as Hinv1.
  { assert (Caching.settle opt_ttl i (Caching.Rejected e) now w = Some
      (Caching.set_pc i (Caching.Done (Caching.Rejected e) false) (Caching.unlock k (Caching.emit k (Caching.Failed i) w)))) as _
      by (unfold Caching.settle; by rewrite Hj).
    apply (work_spec k i Caching.Calling _ _ w w); try done. intros Hko.
    destruct (key_ok_settle i Caching.Calling Caching.RefreshUnlocking _ _ _ (cached (Caching.w_cache w) k) _ None Hko Hi) as [-> Hk'];
      try done. simpl. by rewrite Nat.eqb_refl. }
  rewrite <- (unlock_absorb k i _ Caching.RefreshUnlocking).
  assert (Caching.w_jobs (Caching.set_pc i (Caching.RefreshUnlocking : pc) (Caching.emit k (Caching.Failed i) w)) !! i =
    Some (Caching.Job k o Caching.RefreshUnlocking)) as Hj1 by (simpl; by rewrite list_lookup_alter_eq, Hj).
  pose proof (work_unlock_done k i _ (Caching.Done (Caching.Rejected e) false) _ Hinv1 Hmode Hj1 eq_refl ltac:(simpl; lia)) as Hlt.
  change (work (Caching.set_pc i Caching.RefreshUnlocking (Caching.emit k (Caching.Failed i) w))) with (work w1) in Hlt. lia.
Qed.

Lemma work_internal (w w' : world) : inv w → internal w w' → (work w' < work w)%nat.
Proof. intros Hinv Hs. destruct Hs; [by eapply work_callback|by eapply work_settle]. Qed.

(** While someone is not answered something can go on. *)
Lemma internal_enabled (w : world) i j :
  inv w → Caching.w_jobs w !! i = Some j → (0 < weight (Caching.j_pc j))%nat → ∃ w', internal w w'.
Proof.
  intros Hinv Hj Hw.
  assert (∀ h o k p, Caching.w_jobs w !! h = Some (Caching.Job k o p) → p ≠ Caching.Waiting → (0 < weight p)%nat →
    ∃ w', internal w w') as Hgo.
  { intros h o k p Hh Hp Hwp.
    assert ((∃ w', Caching.callback nullish missing h 0 w = Some w') ∨
            (∃ w', Caching.settle opt_ttl h (Caching.Resolved missing) 0 w = Some w')) as [[w' Hc]|[w' Hc]].
    { unfold Caching.callback, Caching.settle. rewrite Hh.
      destruct p; simpl in Hwp; try lia; try done; try (right; eexists; reflexivity); left;
        repeat match goal with |- context [if ?b then _ else _] => destruct b end;
        repeat match goal with |- context [let '(_, _) := ?b in _] => destruct b end;
        eexists; reflexivity. }
    - exists w'. by eapply Caching.int_callback.
    - exists w'. by eapply Caching.int_settle. }
  destruct j as [k o p]. destruct (role_of (Some p)) eqn:Hr.
  - eapply (Hgo i o k p Hj); [by intros ->|done].
  - assert (p = Caching.Waiting) as -> by by destruct p.
    assert (proj w k i = Some Caching.Waiting) as Hi by (apply proj_Some; by exists o).
    destruct Hinv as (_ & _ & Hkeys). destruct (Hkeys k) as (Hm & Hk & _). pose proof (Hm i _ Hi) as Hmode. simpl in Hmode.
    destruct (Hk Hmode) as [Hl _]. destruct (OMap.get k (Caching.w_lock w)) as [q|];
      [|exfalso; specialize (Hl i); cbv beta in Hl; by rewrite Hi in Hl].
    destruct Hl as (h & H1 & _ & _). assert (role_of (proj w k h) = Crit) as Hh by by apply H1.
    destruct (proj w k h) as [y|] eqn:Hy; [|done]. apply proj_Some in Hy as [o' Ho'].
    eapply (Hgo h o' k y Ho'); [by intros ->|]. destruct y; simpl in *; try done; lia.
  - eapply (Hgo i o k p Hj); [by intros ->|done].
Qed.

End invariant.

(** ** The lock is fair *)

(** The lock of a key hands itself out in the order of the requests for it, to one
    after the other: after any sequence of [acquire] and [release] those who got it
    are the first of those who asked, the rest waits in order, and the number of
    grants is that of the acquisitions or one more than that of the releases of a
    held lock. *)
Theorem lock_fifo {W} key (ops : list (lock_op (W := W))) :
  let '(granted, s) := foldl (lock_step key) ([], []) ops in
  acquires ops = granted ++ default [] (OMap.get key s) ∧
  (Lock.isLocked key s = false → granted = acquires ops) ∧
  (∀ w, (Lock.acquire key w s).1 = negb (Lock.isLocked key s)).
Proof.
  pose proof (lock_queue key ops) as Hq. destruct (foldl _ _ ops) as [granted s]. destruct Hq as [Hwf Hq].
  unfold Lock.isLocked, Lock.acquire, OMap.has. split_and!; [done| |intros w; by destruct (OMap.get key s)].
  destruct (OMap.get key s); [done|]. intros _. simpl in Hq. by rewrite app_nil_r in Hq.
Qed.

(** ** One computation at a time *)

(** *** A run with two requests for one key

    Both find nothing; the first calls the handler, the second waits for the lock. *)

Definition demo_nullish (v : option Z) : bool := match v with Some _ => false | None => true end.
Definition demo_opts : Caching.copts := Caching.COpts true None true None.
Definition demo_world (acts : list (nat + nat * option Z)) : option (Caching.world (option Z) unit) :=
  foldl (λ w a, w ≫= λ w,
      match a with
      | inl i => Caching.callback demo_nullish None i 0 w
      | inr (i, v) => Caching.settle None i (Caching.Resolved v) 0 w
      end)
    (Some (Caching.middlewareWithLock None None "k" demo_opts 0
      (Caching.middlewareWithLock None None "k" demo_opts 0 (Caching.start [])))) acts.
Definition demo_no_match (a b : list ascii) : bool := false.
Definition demo_locked (key : string) : bool := true.

Lemma demo_reachable acts w : demo_world acts = Some w →
  Caching.reachable demo_nullish None None demo_no_match demo_locked [] w.
Proof.
  revert w. induction acts as [|a acts IH] using rev_ind; intros w.
  - intros [= <-]. eapply Caching.reach_step; [eapply Caching.reach_step; [apply Caching.reach_start|]|]; by apply Caching.step_locked.
  - unfold demo_world. rewrite foldl_app. fold (demo_world acts). destruct (demo_world acts) as [w0|] eqn:Hw; [|done].
    intros Ha. eapply Caching.reach_step; [by apply IH|]. apply Caching.step_internal. destruct a as [i|[i v]].
    + eapply Caching.int_callback. exact Ha.
    + eapply Caching.int_settle. exact Ha.
Qed.

(** Both have asked for the lock and the first has called the handler. *)
Definition demo_run : list (nat + nat * option Z) := [inl 0; inl 1; inl 0; inl 0]%nat.
Definition demo_calling : Caching.world (option Z) unit :=
  Caching.World [] [("k"%string, [1%nat])]
    [Caching.Job "k" demo_opts Caching.Calling; Caching.Job "k" demo_opts Caching.Waiting] [("k"%string, Caching.Called 0)].


(** C3. With the lock no key is computed twice at the same time.  In every run, whatever requests
    arrive, time passes, callbacks run in any order and others change the cache: at most
    one handler of a key runs, and while one runs or any callback of it is pending the
    key is locked.  A handler is called for a request only when no request is computing the
    key and no value other than [null] and [undefined], which the code takes for misses, that
    was computed for it is still cached; the refresh of a stale value only when no
    request is computing the key. *)
Theorem single_flight {V E} `{EqDecision V} (nullish : V → bool) missing opt_ttl regexp locked c (w : Caching.world V E) key :
  OMap.wf c → Caching.reachable nullish missing opt_ttl regexp locked c w → locked key = true →
  (∀ t1 i t2, Caching.w_trace w = t1 ++ (key, Caching.Called i) :: t2 →
     Caching.phase_of nullish key t1 = Some (Caching.Free None)) ∧
  (∀ t1 i t2, Caching.w_trace w = t1 ++ (key, Caching.Refreshed i) :: t2 →
     ∃ v, Caching.phase_of nullish key t1 = Some (Caching.Free v)) ∧
  (∀ i j p q, proj w key i = Some p → proj w key j = Some q → calling p = true → calling q = true → i = j) ∧
  (∀ i p, proj w key i = Some p → role_of (Some p) = Crit → Lock.isLocked key (Caching.w_lock w) = true).
Proof.
  intros Hc Hr Hlk. pose proof (caching_inv_reachable _ _ _ _ _ c w Hc Hr) as (_ & _ & Hkeys).
  destruct (Hkeys key) as (_ & Hk & _). destruct (Hk Hlk) as [Hl (x & Hx & _)].
  assert (∀ t1 e t2, Caching.w_trace w = t1 ++ (key, e) :: t2 →
    ∃ ph, Caching.phase_of nullish key t1 = Some ph ∧ Caching.advance nullish ph e ≠ None) as Hadv.
  { intros t1 e t2 Ht. rewrite Ht, phase_of_app in Hx. simpl in Hx. rewrite String.eqb_refl in Hx.
    assert (∀ t, foldl (λ ph '(k, e), if String.eqb k key then ph ≫= λ ph, Caching.advance nullish ph e else ph) None t = None) as Hn.
    { intros t. induction t as [|[k e'] t IH]; simpl; [done|]. by destruct (String.eqb k key). }
    destruct (Caching.phase_of nullish key t1) as [ph|]; simpl in Hx; [|by rewrite Hn in Hx].
    exists ph. split; [done|]. intros Hno. by rewrite Hno, Hn in Hx. }
  split_and!.
  - intros t1 i t2 Ht. destruct (Hadv _ _ _ Ht) as (ph & -> & Ha). by destruct ph as [[v|]|h].
  - intros t1 i t2 Ht. destruct (Hadv _ _ _ Ht) as (ph & -> & Ha). destruct ph as [v|h]; [by exists v|done].
  - intros i j p q Hi Hj Hp Hq. destruct (crit_holder _ _ j Hl) as (_ & _ & H1); [rewrite Hj; by destruct q|].
    apply H1. rewrite Hi. by destruct p.
  - intros i p Hi Hp. destruct (crit_holder _ _ i Hl) as (q & Hq & _); [by rewrite Hi|].
    unfold Lock.isLocked, OMap.has. by rewrite Hq.
Qed.

Lemma single_flight_witness :
  demo_world demo_run = Some demo_calling ∧
  Caching.phase_of demo_nullish "k" [] = Some (Caching.Free None) ∧ Lock.isLocked "k" (Caching.w_lock demo_calling) = true.
Proof.
  assert (demo_world demo_run = Some demo_calling) as Hrun by (vm_compute; reflexivity). split; [exact Hrun|].
  destruct (single_flight demo_nullish None None demo_no_match demo_locked [] demo_calling "k"
    ltac:(constructor) (demo_reachable _ _ Hrun) eq_refl) as (H1 & _ & _ & H4).
  split; [exact (H1 [] 0%nat [] eq_refl)|]. exact (H4 0%nat Caching.Calling eq_refl eq_refl).
Defined.

(** C9. Caching loses no request: from any state of any run, the callbacks that are
    pending and the handlers that settle can take only so many steps, and in a
    state where none of them can go on every request is answered (and every refresh
    is over), none of them still waiting for a lock. *)
Theorem caching_terminates {V E} `{EqDecision V} (nullish : V → bool) missing opt_ttl regexp locked c (w : Caching.world V E) :
  OMap.wf c → Caching.reachable nullish missing opt_ttl regexp locked c w →
  (∀ n w', nsteps (Caching.internal nullish missing opt_ttl) n w w' → (n ≤ work w)%nat) ∧
  (∃ w', rtc (Caching.internal nullish missing opt_ttl) w w' ∧ ∀ i j, Caching.w_jobs w' !! i = Some j →
     match Caching.j_pc j with Caching.Done _ _ | Caching.RefreshDone => True | _ => False end) ∧
  (nf (Caching.internal nullish missing opt_ttl) w → ∀ i j, Caching.w_jobs w !! i = Some j →
     match Caching.j_pc j with Caching.Done _ _ | Caching.RefreshDone => True | _ => False end).
Proof.
  intros Hc Hr. pose proof (caching_inv_reachable _ _ _ _ _ c w Hc Hr) as Hinv.
  assert (∀ w : Caching.world V E, inv nullish locked w → nf (Caching.internal nullish missing opt_ttl) w →
    ∀ i j, Caching.w_jobs w !! i = Some j →
     match Caching.j_pc j with Caching.Done _ _ | Caching.RefreshDone => True | _ => False end) as Hstuck.
  { intros w0 Hw0 Hnf i j Hj. destruct (decide (0 < weight (Caching.j_pc j))%nat) as [Hp|Hp].
    - destruct Hnf. by eapply internal_enabled.
    - destruct (Caching.j_pc j); simpl in Hp; try lia; done. }
  split_and!; [| |by apply Hstuck].
  - intros n w' Hn. induction Hn as [|n w w1 w' Hs Hn IH]; [lia|].
    assert (inv nullish locked w1) as Hinv1 by by eapply inv_internal.
    pose proof (work_internal _ _ _ _ w w1 Hinv Hs).
    assert (Caching.reachable nullish missing opt_ttl regexp locked c w1) as Hr1
      by (eapply Caching.reach_step; [exact Hr|by apply Caching.step_internal]).
    specialize (IH Hr1 Hinv1). lia.
  - clear Hr. revert Hinv. remember (work w) as n eqn:Hn. revert w Hn.
    induction (lt_wf n) as [n _ IH]. intros w -> Hinv.
    destruct (decide (Exists (λ j, 0 < weight (Caching.j_pc j))%nat (Caching.w_jobs w))) as [He|He].
    + apply Exists_exists in He as (j & Hj & Hp). apply list_elem_of_lookup in Hj as [i Hj].
      destruct (internal_enabled nullish missing opt_ttl locked w i j Hinv Hj Hp) as [w1 Hs].
      pose proof (work_internal _ _ _ _ w w1 Hinv Hs) as Hlt.
      destruct (IH (work w1) Hlt w1 eq_refl (inv_internal _ _ _ _ w w1 Hinv Hs)) as (w' & Hw' & Hd).
      exists w'. split; [|done]. by eapply rtc_l.
    + exists w. split; [apply rtc_refl|]. intros i j Hj. apply not_Exists_Forall in He; [|apply _].
      rewrite Forall_forall in He. specialize (He j (list_elem_of_lookup_2 _ _ _ Hj)). simpl in He.
      destruct (Caching.j_pc j); simpl in He; try lia; done.
Qed.

Lemma caching_terminates_witness :
  demo_world demo_run = Some demo_calling ∧
  ∃ w', rtc (Caching.internal demo_nullish None None) demo_calling w' ∧ ∀ i j, Caching.w_jobs w' !! i = Some j →
     match Caching.j_pc j with Caching.Done _ _ | Caching.RefreshDone => True | _ => False end.
Proof.
  assert (demo_world demo_run = Some demo_calling) as Hrun by (vm_compute; reflexivity). split; [exact Hrun|].
  destruct (caching_terminates demo_nullish None None demo_no_match demo_locked [] demo_calling
    ltac:(constructor) (demo_reachable _ _ Hrun)) as (_ & H2 & _). exact H2.
Defined.

(** ** The memory cacher *)

(** [c] with the entries that [p] rejects removed, in the same order *)
Definition keep {V} (p : string → Memory.item V → bool) (c : Memory.t V) : Memory.t V :=
  Arr.filter (λ '(k, it), p k it) c.

Lemma get_keep {V} (p : string → Memory.item V → bool) (c : Memory.t V) k :
  OMap.wf c → OMap.get k (keep p c) = match OMap.get k c with Some it => if p k it then Some it else None | None => None end.
Proof.
  unfold OMap.wf, keep. induction c as [|[k' it] c IH]; simpl; [done|]. intros [Hnin Hnd]%NoDup_cons.
  specialize (IH Hnd). destruct (String.eqb_spec k k') as [->|Hk]; destruct (p k' it); simpl;
    rewrite ?String.eqb_refl, ?IH; try done.
  - apply OMap.get_None_keys in Hnin. by rewrite Hnin.
  - apply String.eqb_neq in Hk. by rewrite Hk.
Qed.

Lemma get_middle {V} (l l' : Memory.t V) k it : OMap.wf (l ++ (k, it) :: l') → OMap.get k (l ++ (k, it) :: l') = Some it.
Proof. intros Hwf. apply OMap.elem_get; [done|]. set_solver. Qed.

Lemma delete_middle {V} (l l' : Memory.t V) k it :
  OMap.wf (l ++ (k, it) :: l') → OMap.delete k (l ++ (k, it) :: l') = l ++ l'.
Proof.
  unfold OMap.wf, OMap.keys. rewrite map_app. simpl. induction l as [|[k' it'] l IH]; simpl; [by rewrite String.eqb_refl|].
  intros [Hnin Hnd]%NoDup_cons. destruct (String.eqb_spec k k') as [->|]; [exfalso; apply Hnin; set_solver|]. by rewrite IH.
Qed.

(** A loop over the entries that deletes those [p] rejects is [keep]. *)
Lemma delete_loop {V} (p : string → Memory.item V → bool) (f : Memory.t V → string * Memory.item V → Memory.t V)
    (done_ todo : Memory.t V) :
  (∀ l l' k it, OMap.wf (l ++ (k, it) :: l') →
     f (l ++ (k, it) :: l') (k, it) = if p k it then l ++ (k, it) :: l' else OMap.delete k (l ++ (k, it) :: l')) →
  OMap.wf (done_ ++ todo) → foldl f (done_ ++ todo) todo = done_ ++ keep p todo.
Proof.
  intros Hf. unfold keep. revert done_. induction todo as [|[k it] todo IH]; intros done_ Hwf; simpl; [done|].
  rewrite Hf by done. destruct (p k it) eqn:Hp.
  - assert (done_ ++ (k, it) :: todo = (done_ ++ [(k, it)]) ++ todo) as Heq by by rewrite <- app_assoc.
    rewrite Heq in Hwf |- *. rewrite IH; [by rewrite <- app_assoc|done].
  - rewrite delete_middle by done. apply IH. eapply sublist_NoDup; [exact Hwf|]. unfold OMap.keys. rewrite !map_app.
    apply sublist_app; [done|]. by apply sublist_cons.
Qed.

(** The memory cacher keeps what it is given.  A value is answered as long as its
    time to live (its own or the cacher's) has not run out, forever without one, and
    not longer; setting a key changes no other key; [del] removes the given keys
    only, [clean] exactly the keys that match one of the patterns and [checkTTL]
    exactly the expired entries, the others keeping their order. *)
Theorem memory_cacher {V} (missing : V) opt_ttl regexp (c : Memory.t V) :
  OMap.wf c →
  (∀ k d ttl t1 t2, 0 ≤ t1 →
     let time_to_live := match ttl with None => opt_ttl | Some _ => ttl end in
     (∀ s, time_to_live = Some s → 0 < s) →
     let c' := Memory.set opt_ttl k d ttl t1 c in
     (Memory.get missing k t2 c').1 =
       match time_to_live with Some s => if t1 + s * 1000 <? t2 then missing else d | None => d end ∧
     ∀ k', k' ≠ k → (Memory.get missing k' t2 c').1 = (Memory.get missing k' t2 c).1) ∧
  (∀ ks k now, (Memory.get missing k now (Memory.del ks c)).1 =
     if bool_decide (k ∈ ks) then missing else (Memory.get missing k now c).1) ∧
  (∀ ms, Memory.clean regexp ms c =
     keep (λ k _, negb (existsb (λ m, Match.match_ regexp (list_ascii_of_string k) (list_ascii_of_string m)) ms)) c) ∧
  (∀ now, Memory.checkTTL now c = keep (λ _ it, negb (Memory.expired now it)) c).
Proof.
  intros Hwf. split_and!.
  - intros k d ttl t1 t2 Ht o Hpos c'. split.
    + unfold Memory.get, c', Memory.set. rewrite OMap.get_set_eq. unfold Memory.expired, Memory.nonzero. fold o. simpl.
      destruct o as [s|]; [|done]. specialize (Hpos s eq_refl).
      rewrite (proj2 (Z.eqb_neq s 0)) by lia. simpl.
      rewrite (proj2 (Z.eqb_neq (t1 + s * 1000) 0)) by lia. simpl. by destruct (t1 + s * 1000 <? t2).
    + intros k' Hk. unfold Memory.get, c', Memory.set. rewrite OMap.get_set_ne by congruence.
      destruct (OMap.get k' c) as [it|]; [|done]. by destruct (Memory.expired t2 it).
  - intros ks k now. unfold Memory.del.
    assert (∀ c : Memory.t V, OMap.wf c → OMap.get k (foldl (λ c key, OMap.delete key c) c ks) = if bool_decide (k ∈ ks) then None else OMap.get k c) as Hg.
    { clear c Hwf. induction ks as [|k' ks IH]; intros c Hwf; simpl; [done|]. rewrite IH by by apply OMap.wf_delete.
      destruct (decide (k' = k)) as [->|Hne].
      - rewrite OMap.get_delete_eq by done. rewrite (bool_decide_eq_true_2 (k ∈ k :: ks)) by left. by destruct (bool_decide _).
      - rewrite OMap.get_delete_ne by done. do 2 case_bool_decide; set_solver. }
    unfold Memory.get. rewrite (Hg c Hwf). case_bool_decide; [done|]. destruct (OMap.get k c) as [it|]; [|done]. by destruct (Memory.expired now it).
  - intros ms. unfold Memory.clean. apply (delete_loop _ _ [] c); [|done].
    intros l l' k it _. by destruct (existsb _ _).
  - intros now. unfold Memory.checkTTL. apply (delete_loop _ _ [] c); [|done].
    intros l l' k it Hw. rewrite get_middle by done. by destruct (Memory.expired now it).
Qed.

Lemma memory_cacher_witness :
  OMap.wf (Memory.set (Some 5) "a" (Some 1) None 10 (Memory.set (Some 5) "b" (Some 2) (Some 1) 10 [])) ∧
  (Memory.get None "a" 3000 (Memory.set (Some 5) "a" (Some 7) None 10 (Memory.set (Some 5) "b" (Some 2) (Some 1) 10 []))).1 = Some 7.
Proof.
  assert (OMap.wf (Memory.set (Some 5) "b" (Some 2) (Some 1) 10 [])) as Hwf by (apply OMap.wf_set; constructor).
  split; [by apply OMap.wf_set|].
  destruct (memory_cacher (V := option Z) None (Some 5) (λ _ _, false) _ Hwf) as (H & _).
  destruct (H "a"%string (Some 7) None 10 3000 ltac:(lia) ltac:(intros s [= <-]; lia)) as [H1 _]. exact H1.
Defined.

(** ** Stale data *)

(** The reads of one key through [getWithTTL] at the given times: what is answered and
    whether the middleware refreshes it. *)
Fixpoint reads {V} (missing : V) opt_ttl (o : Caching.copts) (key : string) (ts : list Z) (c : Memory.t V) : list (V * bool) :=
  match ts with
  | [] => []
  | t :: ts =>
      let '(d, r, c') := Memory.getWithTTL missing opt_ttl key t c in
      (d, Caching.stale o r) :: reads missing opt_ttl o key ts c'
  end.

(** Each time at most [gap] after the one before *)
Fixpoint frequent (gap prev : Z) (ts : list Z) : Prop :=
  match ts with
  | [] => True
  | t :: ts => prev ≤ t ≤ prev + gap ∧ frequent gap t ts
  end.

(** A value that is read often is never refreshed, however old it is: [getWithTTL] sets
    the time to live anew at every read, so when the cacher has a time to live of T
    seconds and an action a stale time of S seconds, reads that are at most T - S
    seconds apart answer the value first saved and never start the refresh that is
    due when less than S seconds are left.  And a value that has expired is still
    answered by [getWithTTL], as one that needs no refresh, where [get] answers that
    it is missing. *)
Theorem stale_never_refreshed {V} (missing : V) (T : Z) o S key v t0 ts (c : Memory.t V) :
  0 < S < T → Caching.lock_staleTime o = Some S →
  (frequent ((T - S) * 1000) t0 ts →
   reads missing (Some T) o key ts (Memory.set (Some T) key v None t0 c) = map (λ _, (v, false)) ts) ∧
  (∀ t, 0 < t0 + T * 1000 < t →
   let c' := Memory.set (Some T) key v None t0 c in
   (Memory.get missing key t c').1 = missing ∧
   (Memory.getWithTTL missing (Some T) key t c').1 = (v, None) ∧ Caching.stale o None = false).
Proof.
  intros HT Ho. split.
  - unfold Memory.set. simpl. rewrite (proj2 (Z.eqb_neq T 0)) by lia. revert t0 c.
    induction ts as [|t ts IH]; intros t0 c Hf; simpl; [done|]. destruct Hf as [Ht Hf].
    unfold Memory.getWithTTL. rewrite OMap.get_set_eq. simpl. rewrite (proj2 (Z.eqb_neq T 0)) by lia.
    rewrite (proj2 (Z.ltb_lt 0 (t0 + T * 1000 - t))) by lia.
    unfold Caching.stale at 1. rewrite Ho. simpl. rewrite (proj2 (Z.eqb_neq S 0)) by lia.
    rewrite (proj2 (Z.ltb_ge _ (S * 1000))) by lia. f_equal. by apply IH.
  - intros t Ht. simpl. unfold Memory.get, Memory.getWithTTL, Memory.set. rewrite !OMap.get_set_eq. simpl.
    rewrite (proj2 (Z.eqb_neq T 0)) by lia. unfold Memory.expired. simpl.
    rewrite (proj2 (Z.eqb_neq (t0 + T * 1000) 0)) by lia. rewrite (proj2 (Z.ltb_lt _ t)) by lia. simpl.
    rewrite (proj2 (Z.ltb_ge 0 (t0 + T * 1000 - t))) by lia. split_and!; [done|done|].
    unfold Caching.stale. by destruct (Memory.nonzero _).
Qed.

(** With a time to live of ten seconds and reads every four the value is as old as one likes. *)
Lemma stale_never_refreshed_witness :
  let o := Caching.COpts true None true (Some 5) in
  frequent 5000 0 [4000; 8000; 12000; 16000] ∧
  reads None (Some 10) o "k" [4000; 8000; 12000; 16000] (Memory.set (Some 10) "k" (Some 1) None 0 []) =
    [(Some 1, false); (Some 1, false); (Some 1, false); (Some 1, false)].
Proof.
  intros o. assert (frequent 5000 0 [4000; 8000; 12000; 16000]) as Hf by (simpl; lia). split; [exact Hf|].
  destruct (stale_never_refreshed None 10 o 5 "k" (Some 1) 0 [4000; 8000; 12000; 16000] [] ltac:(lia) eq_refl) as [H _].
  exact (H Hf).
Defined.

(** With the lock and a [missingResponse] of its own the cacher answers that response
    instead of the action's: the second look at the cache, with the lock held, takes
    everything but null and undefined for a cached result, the missing response too.
    So a request for a key that is not cached ends with the missing response, and the
    handler is never called. *)
Theorem missing_response_answered {V E} `{EqDecision V} (nullish : V → bool) (missing : V) opt_ttl key o t1 t2 t3 t4 :
  nullish missing = false → Memory.nonzero (Caching.lock_staleTime o) = None →
  let w0 := Caching.middlewareWithLock missing opt_ttl key o t1 (Caching.start (V := V) (E := E) []) in
  let run t w := w ≫= Caching.callback nullish missing 0 t in
  ∃ w, run t4 (run t3 (run t2 (Some w0))) = Some w ∧
    Caching.w_jobs w = [Caching.Job key o (Caching.Done (Caching.Resolved missing) true)] ∧ Caching.w_trace w = [].
Proof.
  intros Hn Ho w0 run.
  set (at_ p := Caching.World (V := V) (E := E) [] [(key, [])] [Caching.Job key o p] []).
  assert (w0 = Caching.World [] [] [Caching.Job key o (Caching.Checked missing)] []) as ->.
  { unfold w0, Caching.middlewareWithLock. by rewrite Ho. }
  assert (run t2 (Some (Caching.World [] [] [Caching.Job key o (Caching.Checked missing)] [])) = Some (at_ Caching.Granted)) as ->.
  { unfold run, Caching.callback. simpl. rewrite bool_decide_eq_false_2; [done|]. intros Hm. by apply Hm. }
  assert (run t3 (Some (at_ Caching.Granted)) = Some (at_ (Caching.Reread missing))) as -> by done.
  unfold run, Caching.callback. simpl. rewrite Hn. simpl. unfold Caching.unlock, Lock.release. simpl.
  rewrite String.eqb_refl. simpl. eexists. split_and!; reflexivity.
Qed.

(** 99 stands for the missing response. *)
Lemma missing_response_answered_witness :
  Caching.w_jobs (Caching.middlewareWithLock (Some 99) None "k" demo_opts 0 (Caching.start (E := unit) [])) =
    [Caching.Job "k" demo_opts (Caching.Checked (Some 99))] ∧
  ∃ w, ((Caching.callback demo_nullish (Some 99) 0 1
      (Caching.middlewareWithLock (Some 99) None "k" demo_opts 0 (Caching.start (E := unit) []))
    ≫= Caching.callback demo_nullish (Some 99) 0 2) ≫= Caching.callback demo_nullish (Some 99) 0 3) = Some w ∧
    Caching.w_jobs w = [Caching.Job "k" demo_opts (Caching.Done (Caching.Resolved (Some 99)) true)] ∧ Caching.w_trace w = [].
Proof.
  split; [reflexivity|].
  exact (missing_response_answered (E := unit) demo_nullish (Some 99) None "k" demo_opts 0 1 2 3 eq_refl eq_refl).
Defined.

(** ** Cache keys *)

Section keys.

(** All characters of a string satisfy [f]. *)
Fixpoint all_chars (f : ascii → bool) (s : string) : bool :=
  match s with
  | EmptyString => true
  | String.String c s => f c && all_chars f s
  end.

Definition bar : ascii := "|"%char.
Definition dquote : ascii := "034"%char.
Definition is_not (c d : ascii) : bool := negb (Ascii.eqb c d).

Lemma append_nil_r s : String.append s "" = s.
Proof. induction s as [|c s IH]; [done|]. change (String.String c (String.append s "") = String.String c s). by rewrite IH. Qed.

(** A rest that is empty or begins with [d] *)
Definition ends_at (d : ascii) (r : string) : Prop := r = ""%string ∨ ∃ r', r = String.String d r'.

Lemma split_at d a1 a2 r1 r2 :
  all_chars (is_not d) a1 = true → all_chars (is_not d) a2 = true → ends_at d r1 → ends_at d r2 →
  String.append a1 r1 = String.append a2 r2 → a1 = a2 ∧ r1 = r2.
Proof.
  revert a2. induction a1 as [|c a1 IH]; intros [|c2 a2] H1 H2 E1 E2 Heq; simpl in *.
  - done.
  - exfalso. destruct E1 as [->|[r' ->]]; [done|]. injection Heq as -> _. unfold is_not in H2. by rewrite Ascii.eqb_refl in H2.
  - exfalso. destruct E2 as [->|[r' ->]]; [done|]. injection Heq as -> _. unfold is_not in H1. by rewrite Ascii.eqb_refl in H1.
  - injection Heq as -> Heq. apply andb_prop in H1 as [_ H1], H2 as [_ H2]. destruct (IH a2 H1 H2 E1 E2 Heq) as [-> ->]. done.
Qed.

(** The characters of numbers *)
Definition numeral (c : ascii) : bool := is_not bar c && is_not dquote c && is_not "t"%char c && is_not "f"%char c && is_not "n"%char c && is_not "u"%char c.

Lemma numeral_go x s : all_chars numeral s = true → all_chars numeral (pretty_N_go x s) = true.
Proof.
  revert s. induction (N.lt_wf_0 x) as [x _ IH]; intros s Hs.
  destruct (decide (x = 0)%N) as [->|]; [by rewrite pretty_N_go_0|].
  rewrite pretty_N_go_step by lia. apply IH; [apply N.div_lt; lia|]. simpl. rewrite Hs, andb_true_r.
  unfold pretty_N_char. by repeat case_match.
Qed.

Lemma numeral_pretty (z : Z) : all_chars numeral (pretty z) = true.
Proof.
  destruct z as [|p|p]; simpl; [done|..]; unfold pretty, pretty_Z, pretty, pretty_positive, pretty, pretty_N; simpl;
    by apply numeral_go.
Qed.

Lemma all_chars_impl (f g : ascii → bool) s : (∀ c, f c = true → g c = true) → all_chars f s = true → all_chars g s = true.
Proof. intros Hfg. induction s as [|c s IH]; simpl; [done|]. rewrite !andb_true_iff. intros [? ?]. auto. Qed.

(** Values that are no objects, and strings without a double quote *)
Definition scalar (v : json) : Prop :=
  match v with JArr _ | JObj _ => False | JStr s => all_chars (is_not dquote) s = true | _ => True end.

Definition quoted (v : json) : bool := match v with JStr _ => true | _ => false end.

Lemma bare_chars v : scalar v → quoted v = false →
  all_chars (λ c, is_not bar c && is_not dquote c) (Keygen.generateKey v) = true.
Proof.
  destruct v as [| |[]|n| | |]; simpl; try done. intros _ _. eapply all_chars_impl; [|apply (numeral_pretty n)].
  intros c. unfold numeral. rewrite !andb_true_iff. tauto.
Qed.

Lemma bare_inj v1 v2 : scalar v1 → scalar v2 → quoted v1 = false → quoted v2 = false →
  Keygen.generateKey v1 = Keygen.generateKey v2 → v1 = v2.
Proof.
  destruct v1 as [| |[]|n1| | |], v2 as [| |[]|n2| | |]; simpl; try done; intros _ _ _ _ Heq.
  all: try (pose proof (numeral_pretty n1) as Hn; rewrite Heq in Hn; done).
  all: try (pose proof (numeral_pretty n2) as Hn; rewrite <- Heq in Hn; done).
  by apply (inj pretty) in Heq as ->.
Qed.

(** The first part of a key is read off unambiguously. *)
Lemma part_inj v1 v2 r1 r2 :
  scalar v1 → scalar v2 → ends_at bar r1 → ends_at bar r2 →
  String.append (Keygen.generateKey v1) r1 = String.append (Keygen.generateKey v2) r2 → v1 = v2 ∧ r1 = r2.
Proof.
  intros H1 H2 E1 E2 Heq.
  assert (∀ v r s, scalar v → quoted v = false → ends_at bar r →
    String.append (Keygen.generateKey v) r = String.String dquote s → False) as Hmix.
  { intros v r s Hv Hq He Hs. pose proof (bare_chars v Hv Hq) as Hc. destruct (Keygen.generateKey v) as [|c k]; simpl in *.
    - destruct He as [->|[r' ->]]; [done|]. by injection Hs.
    - injection Hs as -> _. done. }
  destruct (quoted v1) eqn:Q1, (quoted v2) eqn:Q2.
  - destruct v1 as [| | | |s1| |], v2 as [| | | |s2| |]; try done.
    change (String.String dquote (String.append (String.append s1 Keygen.quote) r1) =
            String.String dquote (String.append (String.append s2 Keygen.quote) r2)) in Heq. injection Heq as Heq.
    assert (∀ s r, String.append (String.append s Keygen.quote) r = String.append s (String.String dquote r)) as Hassoc.
    { intros s r. induction s as [|c s IH]; [done|].
      change (String.String c (String.append (String.append s Keygen.quote) r) =
              String.String c (String.append s (String.String dquote r))). by rewrite IH. }
    rewrite !Hassoc in Heq. destruct (split_at dquote s1 s2 _ _ H1 H2 (or_intror (ex_intro _ _ eq_refl))
      (or_intror (ex_intro _ _ eq_refl)) Heq) as [-> Hr]. by injection Hr as ->.
  - destruct v1 as [| | | |s1| |]; try done. exfalso.
    exact (Hmix v2 r2 (String.append (String.append s1 Keygen.quote) r1) H2 Q2 E2 (eq_sym Heq)).
  - destruct v2 as [| | | |s2| |]; try done. exfalso.
    exact (Hmix v1 r1 (String.append (String.append s2 Keygen.quote) r2) H1 Q1 E1 Heq).
  - assert (∀ v, scalar v → quoted v = false → all_chars (is_not bar) (Keygen.generateKey v) = true) as Hb.
    { intros v Hv Hq. eapply all_chars_impl; [|by apply bare_chars]. intros c. rewrite andb_true_iff. tauto. }
    destruct (split_at bar _ _ _ _ (Hb v1 H1 Q1) (Hb v2 H2 Q2) E1 E2 Heq) as [Hv ->]. split; [by apply bare_inj|done].
Qed.

(** The parts of several keys are read off one after the other. *)
Lemma key_parts_eq lodash_get sha256 params meta headers keys a i :
  Keygen.key_parts lodash_get sha256 None params meta headers a i keys =
  String.append a (Keygen.key_parts lodash_get sha256 None params meta headers "" i keys).
Proof.
  revert a i. induction keys as [|k keys IH]; intros a i; [by rewrite append_nil_r|].
  cbn [Keygen.key_parts]. rewrite IH, (IH (Keygen.key_part _ _ _ _ _ _ "" _ _)).
  unfold Keygen.key_part. rewrite !append_assoc. reflexivity.
Qed.

Lemma hashed_none sha256 k : Keygen.hashedKey sha256 None k = k.
Proof. done. Qed.

Lemma key_parts_ends lodash_get sha256 params meta headers keys i :
  ends_at bar (Keygen.key_parts lodash_get sha256 None params meta headers "" (Datatypes.S i) keys).
Proof.
  destruct keys as [|k keys]; [by left|]. right. cbn [Keygen.key_parts]. rewrite key_parts_eq.
  unfold Keygen.key_part. simpl. eexists. reflexivity.
Qed.

Lemma key_parts_inj lodash_get sha256 keys i p m h p' m' h' :
  (∀ k, k ∈ keys → scalar (Keygen.getParamMetaValue lodash_get k p m h) ∧
                   scalar (Keygen.getParamMetaValue lodash_get k p' m' h')) →
  Keygen.key_parts lodash_get sha256 None p m h "" i keys = Keygen.key_parts lodash_get sha256 None p' m' h' "" i keys →
  ∀ k, k ∈ keys → Keygen.getParamMetaValue lodash_get k p m h = Keygen.getParamMetaValue lodash_get k p' m' h'.
Proof.
  revert i. induction keys as [|k0 keys IH]; intros i Hs Heq k Hk; [by apply not_elem_of_nil in Hk|].
  cbn [Keygen.key_parts] in Heq. rewrite key_parts_eq, (key_parts_eq _ _ p') in Heq.
  set (v := Keygen.getParamMetaValue lodash_get k0 p m h) in *. set (v' := Keygen.getParamMetaValue lodash_get k0 p' m' h') in *.
  destruct (Hs k0 ltac:(left)) as [H1 H2]. fold v in H1. fold v' in H2.
  unfold Keygen.key_part in Heq. fold v v' in Heq. rewrite !hashed_none in Heq.
  assert (∀ v, (if Keygen.is_object v then Keygen.generateKey v else Keygen.generateKey v) = Keygen.generateKey v) as Hif
    by (intros x; by destruct (Keygen.is_object x)). rewrite !Hif in Heq.
  assert (v = v' ∧ Keygen.key_parts lodash_get sha256 None p m h "" (Datatypes.S i) keys =
    Keygen.key_parts lodash_get sha256 None p' m' h' "" (Datatypes.S i) keys) as [Hv Hrest].
  { apply part_inj; [done|done|apply key_parts_ends..|]. destruct i as [|i]; [exact Heq|].
    change (String.String "|"%char (String.append (Keygen.generateKey v) (Keygen.key_parts lodash_get sha256 None p m h "" (Datatypes.S (Datatypes.S i)) keys)) =
      String.String "|"%char (String.append (Keygen.generateKey v') (Keygen.key_parts lodash_get sha256 None p' m' h' "" (Datatypes.S (Datatypes.S i)) keys))) in Heq.
    by injection Heq. }
  apply elem_of_cons in Hk as [->|Hk]; [done|]. apply (IH (Datatypes.S i)); [|done|done].
  intros x Hx. apply Hs. by right.
Qed.

End keys.

(** An action that names the parameters its result depends on ([keys]) has the same
    cache key for two requests only if these parameters are the same, provided they
    are no objects, strings among them hold no double quote and keys are not
    shortened by hashing; the values may otherwise be anything, of any type. *)
Theorem cache_key_injective lodash_get sha256 name keys p m h p' m' h' :
  truthy p || truthy m || truthy h = true → truthy p' || truthy m' || truthy h' = true →
  (∀ k, k ∈ keys → scalar (Keygen.getParamMetaValue lodash_get k p m h) ∧
                   scalar (Keygen.getParamMetaValue lodash_get k p' m' h')) →
  Keygen.defaultKeygen lodash_get sha256 None name (Some keys) p m h =
    Keygen.defaultKeygen lodash_get sha256 None name (Some keys) p' m' h' →
  ∀ k, k ∈ keys → Keygen.getParamMetaValue lodash_get k p m h = Keygen.getParamMetaValue lodash_get k p' m' h'.
Proof.
  intros Ht Ht' Hs Heq. unfold Keygen.defaultKeygen in Heq. rewrite Ht, Ht' in Heq.
  assert (∀ a b c : string, String.append a b = String.append a c → b = c) as Hinj.
  { intros a b c. induction a as [|x a IH]; intros Habc; [exact Habc|]. apply IH.
    change (String.String x (String.append a b) = String.String x (String.append a c)) in Habc. by injection Habc. }
  destruct keys as [|k1 [|k2 keys]]; [intros k Hk; by apply not_elem_of_nil in Hk| |].
  - intros k ->%list_elem_of_singleton. destruct (Hs k1 ltac:(left)) as [H1 H2]. apply Hinj in Heq.
    rewrite !hashed_none in Heq.
    destruct (part_inj _ _ ""%string ""%string H1 H2 ltac:(by left) ltac:(by left)) as [? _]; [|done].
    by rewrite !append_nil_r.
  - apply Hinj in Heq. rewrite !hashed_none in Heq. by apply (key_parts_inj lodash_get sha256 _ 0).
Qed.

(** Two requests with the same key, where one of the parameters that are not named differs *)
Lemma cache_key_injective_witness :
  let get v k := match v with JObj m => default JUndef (OMap.get k m) | _ => JUndef end in
  let p := JObj [("id"%string, JNum 5); ("name"%string, JStr "a|b")] in
  let p' := JObj [("name"%string, JStr "a|b"); ("id"%string, JNum 5); ("extra"%string, JNum 1)] in
  let keys := ["id"; "name"]%string in
  Keygen.defaultKeygen get id None "users.get" (Some keys) p (JObj []) (JObj []) =
    Keygen.defaultKeygen get id None "users.get" (Some keys) p' (JObj []) (JObj []) ∧
  Keygen.getParamMetaValue get "name" p (JObj []) (JObj []) = Keygen.getParamMetaValue get "name" p' (JObj []) (JObj []).
Proof.
  intros get p p' keys. split; [vm_compute; reflexivity|].
  refine (cache_key_injective get id "users.get" keys p (JObj []) (JObj []) p' (JObj []) (JObj []) _ _ _ _ "name"%string _).
  - reflexivity.
  - reflexivity.
  - intros k Hk. apply elem_of_cons in Hk as [->|Hk]; [split; exact I|].
    apply list_elem_of_singleton in Hk as ->. split; vm_compute; reflexivity.
  - vm_compute. reflexivity.
  - right. left.
Defined.

(** Without [keys] different parameters can share a cache key, so that one request is
    answered with the cached result of another: the key of an object does not tell
    where a nested object ends, and strings are not escaped. *)
Theorem cache_key_collision lodash_get sha256 max name meta headers :
  let params1 := JObj [("a"%string, JObj [("b"%string, JNum 1)]); ("c"%string, JNum 2)] in
  let params2 := JObj [("a"%string, JObj [("b"%string, JNum 1); ("c"%string, JNum 2)])] in
  let q s := String.append (String.append "x" Keygen.quote) (String.append s (String.append Keygen.quote "y")) in
  let params3 := JObj [("a"%string, JStr "x"); ("b"%string, JStr "y")] in
  let params4 := JObj [("a"%string, JStr (q "|b|"%string))] in
  let key params := Keygen.defaultKeygen lodash_get sha256 max name None params meta headers in
  params1 ≠ params2 ∧ key params1 = key params2 ∧ params3 ≠ params4 ∧ key params3 = key params4.
Proof. by split_and!. Qed.
