(* ===== verification/Cachers.v ===== *)
(** * The cachers behind one interface

    What the caching middleware and the users of a cacher rely on (class [Cacher]) and the cachers
    that promise it: [src/cachers/memory.js] ([Memory] of [Cacher.v]), [memory-lru.js] over
    the package [lru-cache], and [redis.js] over a Redis server.  Package and server are
    classes with the documented behaviour that the code relies on.  [Scan] is the deletion of keys
    that match a pattern, which runs while others use the server. *)

From Stdlib Require Import ZArith Lia Bool Ascii.
From stdpp Require Import base tactics list strings option gmap.
From S2P Require Import Prelude Utils JsonText Serializers SerializerTheorems Errors Transporter Cacher CacherTheorems.

Local Open Scope Z_scope.

(** ** The interface *)

(** Operations at a time; [set] is [None] when it throws. *)
Class Cacher (C : Type) := {
  get : string → Z → C → option json * C;          (* [None]: the missing response *)
  set : string → json → option Z → Z → C → option C;
  del : list string → Z → C → C;
  clean : list string → Z → C → C;
  (** What the values are that come back, and which keys a pattern cleans *)
  norm : json → json;
  hit : string → string → bool;
  (** The time to live of entries that are set without one *)
  default_ttl : option Z
}.

(** A time to live, if there is one, is not negative. *)
Definition lives (ttl : option Z) : Prop := ∀ s, ttl = Some s → 0 ≤ s.

(** What is answered for a key at a time is what is stored then; what is set is stored; in the course of time and by
    all operations but [set] entries only vanish. *)
Class CacherLaws (C : Type) `{Cacher C} := {
  valid : C → Prop;
  stored : C → string → Z → option json;
  stored_later c k t t' v : valid c → t ≤ t' → stored c k t' = Some v → stored c k t = Some v;
  get_stored k now c : valid c →
    let '(r, c') := get k now c in valid c' ∧ r = stored c k now ∧ ∀ k' t v, now ≤ t → stored c' k' t = Some v → stored c k' now = Some v;
  set_stored k v ttl now c : valid c → proper v = true → v ≠ JUndef → ∃ c', set k v ttl now c = Some c' ∧
    valid c' ∧ (∀ t w, now ≤ t → stored c' k t = Some w → w = norm v) ∧
    (∀ k' t w, k' ≠ k → now ≤ t → stored c' k' t = Some w → stored c k' now = Some w) ∧
    (lives (match ttl with None => default_ttl | Some _ => ttl end) → stored c' k now = Some (norm v));
  del_stored ks now c : valid c → valid (del ks now c) ∧
    ∀ k t v, now ≤ t → stored (del ks now c) k t = Some v → k ∉ ks ∧ stored c k now = Some v;
  clean_stored ps now c : valid c → valid (clean ps now c) ∧
    ∀ k t v, now ≤ t → stored (clean ps now c) k t = Some v → existsb (λ p, hit p k) ps = false ∧ stored c k now = Some v
}.

(** ** What a user sees *)

Inductive op := Get (k : string) | Set_ (k : string) (v : json) (ttl : option Z) | Del (ks : list string) | Clean (ps : list string).

Section runs.
Context {C : Type} `{CacherLaws C}.

(** A call at a time; one that throws changes nothing. *)
Definition apply (c : C) (e : Z * op) : C :=
  match e.2 with
  | Get k => (get k e.1 c).2
  | Set_ k v ttl => default c (set k v ttl e.1 c)
  | Del ks => del ks e.1 c
  | Clean ps => clean ps e.1 c
  end.

(** The specification: the value that was last set for a key and not removed since *)
Definition remember (k : string) (c : C) (m : option json) (e : Z * op) : option json :=
  match e.2 with
  | Get _ => m
  | Set_ k' v ttl => if String.eqb k' k then match set k' v ttl e.1 c with Some _ => Some v | None => m end else m
  | Del ks => if existsb (String.eqb k) ks then None else m
  | Clean ps => if existsb (λ p, hit p k) ps then None else m
  end.

Fixpoint last_set (k : string) (c : C) (m : option json) (ops : list (Z * op)) : option json :=
  match ops with
  | [] => m
  | e :: ops => last_set k (apply c e) (remember k c m e) ops
  end.

(** Time passes. *)
Fixpoint in_order (t : Z) (ops : list (Z * op)) : Prop :=
  match ops with [] => True | e :: ops => t ≤ e.1 ∧ in_order e.1 ops end.
Definition end_time (t : Z) (ops : list (Z * op)) : Z := foldl (λ _ e, e.1) t ops.

(** Values that can be sent *)
Definition plain_ops (ops : list (Z * op)) : Prop := ∀ t k v ttl, (t, Set_ k v ttl) ∈ ops → proper v = true ∧ v ≠ JUndef.

Definition agrees (k : string) (t : Z) (c : C) (m : option json) : Prop :=
  ∀ t' w, t ≤ t' → stored c k t' = Some w → ∃ v, m = Some v ∧ w = norm v.

Lemma apply_agrees k t c m e : valid c → t ≤ e.1 → (∀ k v ttl, e.2 = Set_ k v ttl → proper v = true ∧ v ≠ JUndef) →
  agrees k t c m → valid (apply c e) ∧ agrees k e.1 (apply c e) (remember k c m e).
Proof.
  intros Hv Ht Hp Ha. destruct e as [now o]. unfold apply, remember, agrees in *. simpl in *.
  assert (∀ w, stored c k now = Some w → ∃ v, m = Some v ∧ w = norm v) as Hnow by (intros w Hw; by apply (Ha now)).
  destruct o as [k'|k' v ttl|ks|ps].
  - pose proof (get_stored k' now c Hv) as Hg. destruct (get k' now c) as [r c']. destruct Hg as (Hv' & _ & Hg). split; [done|].
    intros t' w Ht' Hw. apply Hnow. by apply (Hg k t').
  - destruct (Hp _ _ _ eq_refl) as [Hpv Hu]. destruct (set_stored k' v ttl now c Hv Hpv Hu) as (c' & -> & Hv' & H1 & H2 & _). simpl.
    split; [done|]. intros t' w Ht' Hw.
    destruct (String.eqb_spec k' k) as [->|Hne]; [exists v; split; [done|by apply (H1 t')]|].
    apply Hnow, (H2 k t'); [congruence|done|done].
  - destruct (del_stored ks now c Hv) as [Hv' Hd]. split; [done|]. intros t' w Ht' Hw. destruct (Hd k t' w Ht' Hw) as [Hk Hs].
    destruct (existsb (String.eqb k) ks) eqn:He; [|by apply Hnow]. exfalso. apply Hk.
    apply existsb_exists in He as (k' & Hk' & ->%String.eqb_eq). by apply list_elem_of_In.
  - destruct (clean_stored ps now c Hv) as [Hv' Hd]. split; [done|]. intros t' w Ht' Hw. destruct (Hd k t' w Ht' Hw) as [-> Hs]. by apply Hnow.
Qed.

Lemma run_agrees k ops : ∀ t c m, valid c → in_order t ops → plain_ops ops → agrees k t c m →
  valid (foldl apply c ops) ∧ agrees k (end_time t ops) (foldl apply c ops) (last_set k c m ops).
Proof.
  induction ops as [|e ops IH]; intros t c m Hv Ho Hp Ha; [done|]. destruct Ho as [Ht Ho].
  destruct (apply_agrees k t c m e Hv Ht) as [Hv' Ha']; [|done|].
  - intros k' v ttl He. apply (Hp e.1 k' v ttl). destruct e. simpl in *. subst. left.
  - apply (IH e.1); [done|done| |done]. intros t' k' v ttl Hin. apply (Hp t' k' v ttl). by right.
Qed.

(** What a cacher answers after some calls: the value that was last set for the key, or nothing,
    and not nothing directly after it was set *)
Definition sound (c0 : C) (ops : list (Z * op)) (k : string) (now : Z) : Prop :=
  let answer := (get k now (foldl apply c0 ops)).1 in
  match answer with
  | Some w => ∃ v, last_set k c0 None ops = Some v ∧ w = norm v
  | None => True
  end ∧
  ∀ ops' v ttl, ops = ops' ++ [(now, Set_ k v ttl)] → lives (match ttl with None => default_ttl | Some _ => ttl end) →
    answer = Some (norm v).

Lemma laws_sound c0 ops k now :
  valid c0 → (∀ k t, stored c0 k t = None) → in_order 0 ops → plain_ops ops → end_time 0 ops ≤ now → sound c0 ops k now.
Proof.
  intros Hv Hempty Ho Hp Hnow. destruct (run_agrees k ops 0 c0 None Hv Ho Hp) as [Hv' Ha]; [intros t w _; by rewrite Hempty|].
  unfold sound. pose proof (get_stored k now _ Hv') as Hg. destruct (get k now _) as [r c']. destruct Hg as (_ & -> & _). simpl. split.
  - destruct (stored _ k now) as [w|] eqn:Hw; [|done]. by apply (Ha now).
  - intros ops' v ttl -> Hl. assert (plain_ops ops') as Hp' by (intros t k' v' ttl' Hin; apply (Hp t k' v' ttl'), elem_of_app; by left).
    destruct (Hp now k v ttl) as [Hpv Hu]; [apply elem_of_app; right; by apply list_elem_of_singleton|].
    assert (in_order 0 ops') as Ho' by (clear -Ho; revert Ho; generalize 0; induction ops' as [|e ops' IH]; intros t; simpl; [done|intros []; split; eauto]).
    destruct (run_agrees k ops' 0 c0 None Hv Ho' Hp') as [Hv'' _]; [intros t w _; by rewrite Hempty|].
    rewrite foldl_snoc. unfold apply at 1. simpl. destruct (set_stored k v ttl now _ Hv'' Hpv Hu) as (c1 & -> & _ & _ & _ & H1). by apply H1.
Qed.

End runs.

(** ** The memory cacher *)

Module MemoryCacher.
Section memory.
Context (opt_ttl : option Z) (regexp : list Ascii.ascii → list Ascii.ascii → bool).

Definition matches (p k : string) : bool :=
  Match.match_ regexp (Strings.String.list_ascii_of_string k) (Strings.String.list_ascii_of_string p).

Definition cacher : Cacher (Memory.t (option json)) := {|
  get k now c := Memory.get None k now c;
  set k v ttl now c := Some (Memory.set opt_ttl k (Some v) ttl now c);
  del ks _ c := Memory.del ks c;
  clean ps _ c := Memory.clean regexp ps c;
  norm v := v;
  hit := matches;
  default_ttl := opt_ttl
|}.

Definition stored (c : Memory.t (option json)) (k : string) (t : Z) : option json :=
  match OMap.get k c with Some it => if Memory.expired t it then None else Memory.data it | None => None end.

Lemma get_delete_sub {V} (c : OMap.t V) k k' : OMap.wf c → OMap.get k' (OMap.delete k c) = if String.eqb k k' then None else OMap.get k' c.
Proof. intros Hwf. destruct (String.eqb_spec k k') as [->|Hne]; [by apply OMap.get_delete_eq|by apply OMap.get_delete_ne]. Qed.

Lemma get_del ks (c : Memory.t (option json)) k : OMap.wf c → OMap.get k (Memory.del ks c) = if existsb (String.eqb k) ks then None else OMap.get k c.
Proof.
  unfold Memory.del. revert c. induction ks as [|k' ks IH]; intros c Hwf; simpl; [done|].
  rewrite IH by by apply OMap.wf_delete. rewrite get_delete_sub by done. rewrite String.eqb_sym.
  destruct (String.eqb k k'), (existsb _ ks); done.
Qed.

Lemma cleaned_get ps (c : Memory.t (option json)) k : OMap.wf c →
  OMap.get k (Memory.clean regexp ps c) = if existsb (λ p, matches p k) ps then None else OMap.get k c.
Proof.
  intros Hwf. assert (Memory.clean regexp ps c = keep (λ k _, negb (existsb (λ p, matches p k) ps)) c) as ->.
  { unfold Memory.clean. apply (delete_loop _ _ [] c); [|done]. intros l l' k' it _. unfold matches. by destruct (existsb _ ps). }
  rewrite get_keep by done. destruct (OMap.get k c), (existsb _ ps); done.
Qed.

Lemma stored_sub (c c' : Memory.t (option json)) k t now v : now ≤ t → (∀ it, OMap.get k c' = Some it → OMap.get k c = Some it) →
  stored c' k t = Some v → stored c k now = Some v.
Proof.
  unfold stored. intros Ht Hs. destruct (OMap.get k c') as [it|] eqn:E; [|done]. rewrite (Hs it eq_refl).
  unfold Memory.expired. destruct (Memory.expire it) as [e|]; [|done]. destruct (Z.ltb_spec e t), (Z.ltb_spec e now); try lia; simpl;
    destruct (e =? 0); simpl; done.
Qed.

#[export] Instance laws : @CacherLaws _ cacher.
Proof.
  refine {| valid := OMap.wf : Memory.t (option json) → Prop; Cachers.stored := stored |}; simpl.
  - intros c k t t' v Hwf Ht. by apply stored_sub.
  - intros k now c Hwf. assert (stored c k now = match OMap.get k c with Some it => if Memory.expired now it then None else Memory.data it | None => None end) as -> by done.
    unfold Memory.get. destruct (OMap.get k c) as [it|] eqn:E; [destruct (Memory.expired now it)|];
      (split_and!; [by try apply OMap.wf_delete|done|intros k' t v Ht; apply stored_sub; [done|]; intros it'; rewrite ?get_delete_sub by done]); [|done..].
    by destruct (String.eqb k k').
  - intros k v ttl now c Hwf _ _. eexists. split; [reflexivity|]. unfold Memory.set. split_and!; [by apply OMap.wf_set| | |].
    + intros t w _. unfold stored. rewrite OMap.get_set_eq. destruct (Memory.expired _ _); [done|]. simpl. by intros [= ->].
    + intros k' t w Hne Ht. apply stored_sub; [done|]. intros it. by rewrite OMap.get_set_ne.
    + intros Hl. unfold stored. rewrite OMap.get_set_eq. unfold Memory.expired, Memory.nonzero. simpl.
      destruct (match ttl with Some _ => _ | None => _ end) as [n|]; [|done]. specialize (Hl n eq_refl). destruct (n =? 0); [done|].
      by rewrite (proj2 (Z.ltb_ge _ _)), andb_false_r by lia.
  - intros ks now c Hwf. split; [by apply wf_del|]. intros k t v Ht Hs.
    assert (existsb (String.eqb k) ks = false) as Hk by (unfold stored in Hs; rewrite get_del in Hs by done; by destruct (existsb _ ks)).
    split; [|revert Hs; apply stored_sub; [done|]; intros it; by rewrite get_del, Hk].
    intros Hin. apply list_elem_of_In in Hin. apply not_true_iff_false in Hk. apply Hk, existsb_exists. exists k. by rewrite String.eqb_refl.
  - intros ps now c Hwf. split; [by apply wf_clean|]. intros k t v Ht Hs.
    assert (existsb (λ p, matches p k) ps = false) as Hk by (unfold stored in Hs; rewrite cleaned_get in Hs by done; by destruct (existsb _ ps)).
    split; [done|]. revert Hs. apply stored_sub; [done|]. intros it. by rewrite cleaned_get, Hk.
Defined.

End memory.
End MemoryCacher.

(** ** The LRU cacher *)

(** The package [lru-cache]: times to live in milliseconds, zero for none *)
Class LRU (L : Type) := {
  lru_has : string → Z → L → bool;
  lru_get : string → Z → L → option json * L;
  lru_set : string → json → Z → Z → L → L;
  lru_delete : string → L → L;
  lru_keys : Z → L → list string;
  lru_purgeStale : Z → L → L
}.

(** Its documentation: what is stored is answered until it is stale, removed or evicted; [keys]
    lists what is not stale. *)
Class LRULaws (L : Type) `{LRU L} := {
  lru_valid : L → Prop;
  fresh : L → string → Z → option json;
  fresh_later l k t t' v : lru_valid l → t ≤ t' → fresh l k t' = Some v → fresh l k t = Some v;
  has_fresh l k now : lru_valid l → lru_has k now l = match fresh l k now with Some _ => true | None => false end;
  get_fresh l k now : lru_valid l → let '(r, l') := lru_get k now l in
    lru_valid l' ∧ r = fresh l k now ∧ ∀ k' t v, now ≤ t → fresh l' k' t = Some v → fresh l k' now = Some v;
  set_fresh l k v ttl now : lru_valid l → lru_valid (lru_set k v ttl now l) ∧
    (∀ t w, now ≤ t → fresh (lru_set k v ttl now l) k t = Some w → w = v) ∧
    (∀ k' t w, k' ≠ k → now ≤ t → fresh (lru_set k v ttl now l) k' t = Some w → fresh l k' now = Some w) ∧
    (0 ≤ ttl → fresh (lru_set k v ttl now l) k now = Some v);
  delete_fresh l k : lru_valid l → lru_valid (lru_delete k l) ∧
    ∀ k' t, fresh (lru_delete k l) k' t = if String.eqb k k' then None else fresh l k' t;
  keys_fresh l k now : lru_valid l → k ∈ lru_keys now l ↔ is_Some (fresh l k now);
  purge_fresh l now : lru_valid l → lru_valid (lru_purgeStale now l) ∧ ∀ k t, now ≤ t → fresh (lru_purgeStale now l) k t = fresh l k t
}.

Module MemoryLRU.
Section memory_lru.
Context {L : Type} `{LRULaws L} (opt_ttl : option Z) (regexp : list Ascii.ascii → list Ascii.ascii → bool).

Definition get (k : string) (now : Z) (l : L) : option json * L := if lru_has k now l then lru_get k now l else (None, l).

Definition set (k : string) (v : json) (ttl : option Z) (now : Z) (l : L) : L :=
  let ttl := match ttl with None => opt_ttl | Some _ => ttl end in
  lru_set k v (match Memory.nonzero ttl with Some s => s * 1000 | None => 0 end) now l.

Definition del (ks : list string) (l : L) : L := foldl (λ l k, lru_delete k l) l ks.

Definition clean (ps : list string) (now : Z) (l : L) : L :=
  foldl (λ l k, if existsb (λ p, MemoryCacher.matches regexp p k) ps then lru_delete k l else l) l (lru_keys now l).

Definition checkTTL (now : Z) (l : L) : L := lru_purgeStale now l.

Definition cacher : Cacher L := {|
  Cachers.get := get;
  Cachers.set k v ttl now l := Some (set k v ttl now l);
  Cachers.del ks _ l := del ks l;
  Cachers.clean := clean;
  norm v := v;
  hit := MemoryCacher.matches regexp;
  default_ttl := opt_ttl
|}.

(** Deleting some of the keys of a list *)
Lemma delete_some (p : string → bool) ks l : lru_valid l →
  let l' := foldl (λ l k, if p k then lru_delete k l else l) l ks in
  lru_valid l' ∧ ∀ k t, fresh l' k t = if p k && existsb (String.eqb k) ks then None else fresh l k t.
Proof.
  simpl. revert l. induction ks as [|k0 ks IH]; intros l Hv; simpl; [split; [done|]; intros k t; by rewrite andb_false_r|].
  destruct (p k0) eqn:Hp.
  - destruct (delete_fresh l k0 Hv) as [Hv' Hd]. destruct (IH _ Hv') as [? Hf]. split; [done|]. intros k t. rewrite Hf, Hd, (String.eqb_sym k0).
    destruct (String.eqb_spec k k0) as [->|]; [rewrite Hp; simpl; by destruct (existsb _ ks)|]. done.
  - destruct (IH _ Hv) as [? Hf]. split; [done|]. intros k t. rewrite Hf. destruct (String.eqb_spec k k0) as [->|]; [by rewrite Hp|done].
Qed.

#[export] Instance laws : @CacherLaws L cacher.
Proof.
  refine {| valid := lru_valid; stored := fresh |}; simpl.
  - apply fresh_later.
  - intros k now l Hv. unfold get. rewrite has_fresh by done. destruct (fresh l k now) eqn:E.
    + pose proof (get_fresh l k now Hv) as Hg. destruct (lru_get k now l) as [r l']. destruct Hg as (? & -> & ?). done.
    + split_and!; [done..|]. intros ????. by apply fresh_later.
  - intros k v ttl now l Hv _ _. eexists. split; [reflexivity|]. unfold set. set (z := match Memory.nonzero _ with Some _ => _ | None => _ end).
    destruct (set_fresh l k v z now Hv) as (H1 & H2 & H3 & H4).
    split_and!; [exact H1|exact H2|exact H3|]. intros Hl. apply H4. unfold z, Memory.nonzero.
    destruct (match ttl with Some _ => _ | None => _ end) as [n|]; [|done]. specialize (Hl n eq_refl). destruct (n =? 0); lia.
  - intros ks now l Hv. destruct (delete_some (λ _, true) ks l Hv) as [Hv' Hf]. split; [exact Hv'|]. intros k t v Ht. unfold del. rewrite Hf. simpl.
    destruct (existsb (String.eqb k) ks) eqn:He; [done|]. intros Hs. split; [|by apply fresh_later with t].
    intros Hin. apply list_elem_of_In in Hin. apply not_true_iff_false in He. apply He, existsb_exists. exists k. by rewrite String.eqb_refl.
  - intros ps now l Hv. destruct (delete_some (λ k, existsb (λ p, MemoryCacher.matches regexp p k) ps) (lru_keys now l) l Hv) as [Hv' Hf].
    split; [exact Hv'|]. intros k t v Ht. unfold clean. rewrite Hf. destruct (existsb (λ p, _) ps) eqn:Hp; simpl; [|intros Hs; split; [done|by apply fresh_later with t]].
    destruct (existsb (String.eqb k) (lru_keys now l)) eqn:He; [done|]. intros Hs. exfalso. apply not_true_iff_false in He. apply He, existsb_exists.
    exists k. rewrite String.eqb_refl. split; [|done]. apply list_elem_of_In, keys_fresh; [done|]. exists v. by apply fresh_later with t.
Defined.

End memory_lru.
End MemoryLRU.

(** ** The Redis cacher *)

(** A Redis server: GET, SET with EX in seconds, DEL, and all keys that match a pattern *)
Class Redis (R : Type) := {
  r_get : string → Z → R → option string;
  r_set : string → string → option Z → Z → R → R;
  r_del : list string → R → R;
  r_keys : string → Z → R → list string;
  (** The patterns of Redis *)
  glob : string → string → bool
}.

Class RedisLaws (R : Type) `{Redis R} := {
  r_valid : R → Prop;
  r_get_later r k t t' s : r_valid r → t ≤ t' → r_get k t' r = Some s → r_get k t r = Some s;
  r_set_get r k s ttl now : r_valid r → r_valid (r_set k s ttl now r) ∧
    (∀ t x, now ≤ t → r_get k t (r_set k s ttl now r) = Some x → x = s) ∧
    (∀ k' t, k' ≠ k → r_get k' t (r_set k s ttl now r) = r_get k' t r) ∧
    ((∀ n, ttl = Some n → 0 < n) → r_get k now (r_set k s ttl now r) = Some s);
  r_del_get r ks : r_valid r → r_valid (r_del ks r) ∧ ∀ k t, r_get k t (r_del ks r) = if existsb (String.eqb k) ks then None else r_get k t r;
  r_keys_get r p k now : r_valid r → k ∈ r_keys p now r ↔ is_Some (r_get k now r) ∧ glob p k = true
}.

Module RedisCacher.

(** [init(broker)] of the base class *)
Definition prefix (opt_prefix : option string) (namespace : string) : string :=
  match opt_prefix with
  | Some (String _ _ as p) => (p +:+ "-")%string
  | _ => if String.eqb namespace "" then "MOL-" else ("MOL-" +:+ namespace +:+ "-")%string
  end.

(** [match.replace(/\*\*/g, "*")] *)
Fixpoint one_star (p : string) : string :=
  match p with
  | String "*"%char (String "*"%char p) => String "*"%char (one_star p)
  | String c p => String c (one_star p)
  | EmptyString => EmptyString
  end.

Section redis.
Context {R : Type} `{Redis R} {Z_ : Serializer} (opt_ttl : option Z) (pre : string).

(** A text that cannot be parsed counts as missing. *)
Definition get (k : string) (now : Z) (r : R) : option json * R :=
  (match r_get (pre +:+ k) now r with Some s => deserialize s | None => None end, r).

Definition set (k : string) (v : json) (ttl : option Z) (now : Z) (r : R) : option R :=
  s ← serialize v;
  let ttl := match ttl with None => opt_ttl | Some _ => ttl end in
  Some (r_set (pre +:+ k) s (Memory.nonzero ttl) now r).

Definition del (ks : list string) (r : R) : R := r_del (map (λ k, pre +:+ k) ks) r.

(** [_scanDel(pattern)], undisturbed *)
Definition scanDel (now : Z) (r : R) (pattern : string) : R := r_del (r_keys pattern now r) r.

Definition normalized (p : string) : string := (pre +:+ one_star p)%string.

Definition clean (ps : list string) (now : Z) (r : R) : R := foldl (scanDel now) r (map normalized ps).

Definition cacher : Cacher R := {|
  Cachers.get := get;
  Cachers.set := set;
  Cachers.del ks _ r := del ks r;
  Cachers.clean := clean;
  norm := JsonText.clean;
  hit p k := glob (normalized p) (pre +:+ k);
  default_ttl := opt_ttl
|}.

Context {HR : RedisLaws R} {HS : SerializerLaws Z_}.

Definition stored (r : R) (k : string) (t : Z) : option json :=
  match r_get (pre +:+ k) t r with Some s => deserialize s | None => None end.

Lemma pre_inj a b : (pre +:+ a)%string = (pre +:+ b)%string → a = b.
Proof. clear. induction pre as [|c p IH]; [done|]. intros [= E]. by apply IH. Qed.

Lemma redis_stored_sub r r' k t now v : r_valid r → now ≤ t → (∀ s, r_get (pre +:+ k) t r' = Some s → r_get (pre +:+ k) t r = Some s) →
  stored r' k t = Some v → stored r k now = Some v.
Proof.
  intros Hv Ht Hs. unfold stored. destruct (r_get (pre +:+ k) t r') as [s|]; [|done].
  by rewrite (r_get_later r _ now t s Hv Ht (Hs s eq_refl)).
Qed.

Lemma scanDel_get now r p : r_valid r → r_valid (scanDel now r p) ∧
  ∀ k t, now ≤ t → r_get k t (scanDel now r p) = if glob p k then None else r_get k t r.
Proof.
  intros Hv. destruct (r_del_get r (r_keys p now r) Hv) as [Hv' Hd]. split; [done|]. intros k t Ht. unfold scanDel. rewrite Hd.
  destruct (existsb (String.eqb k) (r_keys p now r)) eqn:He.
  - apply existsb_exists in He as (k' & Hk & ->%String.eqb_eq). apply list_elem_of_In, r_keys_get in Hk as [_ ->]; [done|done].
  - destruct (glob p k) eqn:Hg; [|done]. destruct (r_get k t r) as [s|] eqn:Hs; [|done]. exfalso. apply not_true_iff_false in He.
    apply He, existsb_exists. exists k. rewrite String.eqb_refl. split; [|done]. apply list_elem_of_In, r_keys_get; [done|].
    split; [exists s; by apply r_get_later with t|done].
Qed.

Lemma clean_get now ps r : r_valid r → r_valid (foldl (scanDel now) r ps) ∧
  ∀ k t, now ≤ t → r_get k t (foldl (scanDel now) r ps) = if existsb (λ p, glob p k) ps then None else r_get k t r.
Proof.
  revert r. induction ps as [|p ps IH]; intros r Hv; simpl; [done|]. destruct (scanDel_get now r p Hv) as [Hv' Hs].
  destruct (IH _ Hv') as [? Hc]. split; [done|]. intros k t Ht. rewrite Hc, Hs by done. destruct (glob p k), (existsb _ ps); done.
Qed.

#[export] Instance laws : @CacherLaws R cacher.
Proof.
  refine {| valid := r_valid; Cachers.stored := stored |}; simpl.
  - intros r k t t' v Hv Ht. by apply redis_stored_sub.
  - intros k now r Hv. unfold get. split_and!; [done|done|]. intros k' t v Ht. by apply redis_stored_sub.
  - intros k v ttl now r Hv Hp Hu. unfold set. destruct (serialized_arrives v Hp Hu) as (s & -> & Hd). simpl. eexists. split; [reflexivity|].
    set (o := Memory.nonzero _). destruct (r_set_get r (pre +:+ k) s o now Hv) as (Hv' & H1 & H2 & H3). split_and!; [done| | |].
    + intros t w Ht. unfold stored. destruct (r_get (pre +:+ k) t _) as [x|] eqn:E; [|done]. apply H1 in E as ->; [|done]. rewrite Hd. congruence.
    + intros k' t w Hne Ht. apply redis_stored_sub; [done|done|]. intros x. rewrite H2; [done|]. by intros ?%pre_inj.
    + intros Hl. unfold stored. rewrite H3; [exact Hd|]. intros n Hn. unfold o, Memory.nonzero in Hn.
      destruct (match ttl with Some _ => _ | None => _ end) as [m|]; [|done]. specialize (Hl m eq_refl). destruct (Z.eqb_spec m 0); [done|]. injection Hn as <-. lia.
  - intros ks now r Hv. destruct (r_del_get r (map (λ k, (pre +:+ k)%string) ks) Hv) as [Hv' Hd]. split; [done|]. intros k t v Ht Hs. split.
    + intros Hin. unfold stored, del in Hs. rewrite Hd in Hs.
      assert (existsb (String.eqb (pre +:+ k)) (map (λ k, (pre +:+ k)%string) ks) = true) as E; [|by rewrite E in Hs].
      apply existsb_exists. exists (pre +:+ k)%string. rewrite String.eqb_refl. split; [|done]. apply in_map. by apply list_elem_of_In.
    + revert Hs. apply redis_stored_sub; [done|done|]. intros s. unfold del. rewrite Hd. by destruct (existsb _ _).
  - intros ps now r Hv. destruct (clean_get now (map normalized ps) r Hv) as [Hv' Hc]. split; [done|]. intros k t v Ht Hs.
    assert (existsb (λ p, glob (normalized p) (pre +:+ k)) ps = existsb (λ p, glob p (pre +:+ k)) (map normalized ps)) as ->.
    { clear. induction ps as [|p ps IH]; [done|]. simpl. by rewrite IH. }
    unfold stored, clean in Hs. rewrite Hc in Hs by done. destruct (existsb _ (map normalized ps)); [done|]. split; [done|].
    revert Hs. apply redis_stored_sub; [done|done|]. done.
Defined.

End redis.
End RedisCacher.

(** ** The cachers of the project *)

(** The serializers of the Redis cacher: those of the project, and others over packages *)
Inductive codec := AsJSON | AsJSONExt | AsPackage (Z_ : Serializer) (L : SerializerLaws Z_).

Definition serializer_of (s : codec) : Serializer :=
  match s with AsJSON => json_serializer | AsJSONExt => json_ext_serializer | AsPackage Z_ _ => Z_ end.

#[export] Instance codec_laws s : SerializerLaws (serializer_of s).
Proof. destruct s; [apply json_serializer_laws|apply json_ext_serializer_laws|done]. Qed.

(** The cachers with their settings *)
Inductive kind :=
| MemoryKind (ttl : option Z)
| MemoryLRUKind (ttl : option Z)
| RedisKind (ttl : option Z) (opt_prefix : option string) (namespace : string) (serializer : codec).

Section kinds.
Context {L R : Type} `{LRULaws L} `{RedisLaws R} (regexp : list Ascii.ascii → list Ascii.ascii → bool).

Definition contents (x : kind) : Type :=
  match x with MemoryKind _ => Memory.t (option json) | MemoryLRUKind _ => L | RedisKind _ _ _ _ => R end.

Definition cacher_of (x : kind) : Cacher (contents x) :=
  match x with
  | MemoryKind ttl => MemoryCacher.cacher ttl regexp
  | MemoryLRUKind ttl => MemoryLRU.cacher ttl regexp
  | RedisKind ttl p ns s => RedisCacher.cacher (Z_ := serializer_of s) ttl (RedisCacher.prefix p ns)
  end.

Definition cacher_laws (x : kind) : @CacherLaws (contents x) (cacher_of x) :=
  match x with
  | MemoryKind ttl => MemoryCacher.laws ttl regexp
  | MemoryLRUKind ttl => MemoryLRU.laws ttl regexp
  | RedisKind ttl p ns s => RedisCacher.laws (Z_ := serializer_of s) ttl (RedisCacher.prefix p ns)
  end.

(** Nothing is there yet: a map without entries, a new LRU cache, a Redis without keys *)
Definition begins (x : kind) : contents x → Prop :=
  match x with
  | MemoryKind _ => λ c, c = []
  | MemoryLRUKind _ => λ l, lru_valid l ∧ ∀ k t, fresh l k t = None
  | RedisKind _ p ns _ => λ r, r_valid r ∧ ∀ k t, r_get (RedisCacher.prefix p ns +:+ k) t r = None
  end.

Lemma begins_empty x c : begins x c → valid (CacherLaws := cacher_laws x) c ∧ ∀ k t, stored (CacherLaws := cacher_laws x) c k t = None.
Proof.
  destruct x as [ttl|ttl|ttl p ns s]; simpl; [intros ->; split; [exact (@NoDup_nil_2 string)|done]|done|].
  intros [? Hr]. split; [done|]. intros k t. unfold RedisCacher.stored. by rewrite Hr.
Qed.

(** C23. Whatever calls were made of the memory, the LRU or the Redis cacher, begun
    empty, in the course of time and with values that can be serialized: a value that it answers for a
    key is the one that was last set for that key, and neither deleted nor cleaned since, so
    that it answers no older value nor that of another key; and directly after a value is set, with
    a time to live that is not negative, it is answered.  (The package lru-cache, the server, and
    serializers over packages are as documented; Redis gives values back as they are serialized;
    users change no value they put in or get out.) *)
Theorem cacher_sound x (c0 : contents x) ops k now :
  begins x c0 → in_order 0 ops → plain_ops ops → end_time 0 ops ≤ now → sound (H := cacher_of x) c0 ops k now.
Proof. intros [Hv He]%begins_empty. by apply (laws_sound (H0 := cacher_laws x)). Qed.

End kinds.

(** ** Cleaning while others write *)

(** [_nodeScanDel(node, pattern)]: a stream that lists the keys in batches, paused while a batch
    is deleted.  [store] has the version of each key that the pattern matches;
    [seen] are the keys of all batches. *)
Module Scan.

Inductive outcome := Resolved | Rejected.

Record t := Scanning {
  store : string → option nat;
  paused : bool;
  deleting : option (list string);
  settled : option outcome;
  seen : list string
}.

(** The first settlement of a promise counts. *)
Definition settle (o : outcome) (s : t) : t :=
  Scanning (store s) (paused s) (deleting s) (match settled s with Some x => Some x | None => Some o end) (seen s).

(** [stream.on("data")] *)
Definition on_data (keys : list string) (s : t) : t :=
  match keys with
  | [] => s
  | _ => Scanning (store s) true (Some keys) (settled s) (seen s ++ keys)
  end.

(** [node.del(keys)] succeeds, and the stream goes on, or it fails. *)
Definition on_deleted (keys : list string) (s : t) : t :=
  Scanning (λ k, if bool_decide (k ∈ keys) then None else store s k) false None (settled s) (seen s).
Definition on_failed (s : t) : t := settle Rejected (Scanning (store s) (paused s) None (settled s) (seen s)).

(** Another client sets or deletes a key. *)
Definition write (k : string) (v : option nat) (s : t) : t :=
  Scanning (λ k', if String.eqb k k' then v else store s k') (paused s) (deleting s) (settled s) (seen s).

(** Versions below [old] are those of the beginning. *)
Definition is_old (old : nat) (v : option nat) : bool := match v with Some n => (n <? old)%nat | None => false end.

(** Redis promises for a complete scan that the keys which are there from its beginning to its end
    are listed; a paused stream neither lists nor ends. *)
Inductive step (old : nat) : t → t → Prop :=
| step_data s keys : paused s = false → step old s (on_data keys s)
| step_deleted s keys : deleting s = Some keys → step old s (on_deleted keys s)
| step_failed s keys : deleting s = Some keys → step old s (on_failed s)
| step_error s : step old s (settle Rejected s)
| step_end s : paused s = false → (∀ k, is_old old (store s k) = true → k ∈ seen s) → step old s (settle Resolved s)
| step_set s k n : (old ≤ n)%nat → step old s (write k (Some n) s)
| step_del s k : step old s (write k None s).

Definition start (st : string → option nat) : t := Scanning st false None None [].

Inductive reachable (old : nat) (st : string → option nat) : t → Prop :=
| reach_start : reachable old st (start st)
| reach_step s s' : reachable old st s → step old s s' → reachable old st s'.

(** A listed key has lost its old value, or is being deleted. *)
Record inv (old : nat) (s : t) : Prop := {
  inv_seen k : k ∈ seen s → is_old old (store s k) = true → settled s = Some Rejected ∨ ∃ ks, deleting s = Some ks ∧ k ∈ ks;
  inv_paused ks : deleting s = Some ks → paused s = true;
  inv_done : settled s = Some Resolved → ∀ k, is_old old (store s k) = false
}.

Lemma inv_write old k v s : is_old old v = false → inv old s → inv old (write k v s).
Proof.
  intros Hv [H1 H2 H3]. constructor; simpl; [|done|].
  - intros k' Hk. destruct (String.eqb_spec k k'); [congruence|by apply H1].
  - intros Hs k'. destruct (String.eqb k k'); [done|by apply H3].
Qed.

Lemma scan_inv_step old s s' : inv old s → step old s s' → inv old s'.
Proof.
  intros Hi Hs. destruct Hi as [H1 H2 H3]. destruct Hs as [s keys Hp|s keys Hd|s keys Hd|s|s Hp Hall|s k n Hn|s k].
  - destruct keys as [|k0 keys]; [done|]. constructor; simpl.
    + intros k [Hk|Hk]%elem_of_app Ho; [|right; eauto]. destruct (H1 k Hk Ho) as [?|(ks & Hks & _)]; [by left|].
      apply H2 in Hks. congruence.
    + done.
    + done.
  - constructor; simpl; [|done|].
    + intros k Hk. case_bool_decide as Hin; [done|]. intros Ho. destruct (H1 k Hk Ho) as [?|(ks & Hks & Hk')]; [by left|]. by simplify_eq.
    + intros Hr k. case_bool_decide; [done|by apply H3].
  - unfold on_failed, settle. constructor; simpl; [|done|].
    + intros k Hk Ho. left. destruct (settled s) as [[]|] eqn:E; [|done..]. by rewrite (H3 eq_refl k) in Ho.
    + destruct (settled s) as [o|] eqn:E; [exact H3|done].
  - unfold settle. constructor; simpl; [|done|].
    + intros k Hk Ho. left. destruct (settled s) as [[]|] eqn:E; [|done..]. by rewrite (H3 eq_refl k) in Ho.
    + destruct (settled s) as [o|] eqn:E; [exact H3|done].
  - assert (settled s = None → ∀ k, is_old old (store s k) = false) as Hnone.
    { intros Hn k. destruct (is_old old (store s k)) eqn:Ho; [|done]. destruct (H1 k (Hall k Ho) Ho) as [?|(ks & Hks & _)]; [congruence|].
      apply H2 in Hks. congruence. }
    unfold settle. constructor; simpl; [|done|].
    + intros k Hk Ho. destruct (H1 k Hk Ho) as [E|?]; [left; by rewrite E|by right].
    + destruct (settled s) as [o|] eqn:E; [exact H3|intros _; by apply Hnone].
  - apply inv_write; [simpl; apply Nat.ltb_ge; done|done].
  - by apply inv_write.
Qed.

(** When the promise of [clean] is resolved, no key that matches the pattern has a value from
    before the cleaning, although other clients set and delete keys meanwhile. *)
Theorem clean_removes_old old st s :
  reachable old st s → settled s = Some Resolved → ∀ k n, store s k = Some n → (old ≤ n)%nat.
Proof.
  intros Hr Hs k n Hk. assert (inv old s) as [_ _ H3].
  { clear Hs Hk. induction Hr as [|s s' _ IH Hst]; [|by eapply scan_inv_step]. constructor; simpl; [by intros k' ?%elem_of_nil|done|done]. }
  specialize (H3 Hs k). rewrite Hk in H3. by apply Nat.ltb_ge in H3.
Qed.

End Scan.

(** ** Samples *)

(** A Redis that knows patterns with a star at the end *)
Module MapRedis.

Fixpoint simple_glob (p s : string) : bool :=
  match p, s with
  | String "*"%char EmptyString, _ => true
  | String c p, String d s => Ascii.eqb c d && simple_glob p s
  | EmptyString, EmptyString => true
  | _, _ => false
  end.

Definition t : Type := OMap.t (string * option Z).

Definition live (now : Z) (x : string * option Z) : option string :=
  match x.2 with Some e => if e <? now then None else Some x.1 | None => Some x.1 end.
Definition r_get (k : string) (now : Z) (r : t) : option string := x ← OMap.get k r; live now x.

#[global] Instance redis : Redis t := {|
  Cachers.r_get := r_get;
  r_set k s ttl now r := OMap.set k (s, (λ n, now + n * 1000) <$> ttl) r;
  r_del ks r := OMap.delete_all ks r;
  r_keys p now r := Arr.filter (λ k, simple_glob p k && match r_get k now r with Some _ => true | None => false end) (OMap.keys r);
  glob := simple_glob
|}.

Lemma map_delete_all ks : ∀ (r : t) k, OMap.wf r → OMap.get k (OMap.delete_all ks r) = if existsb (String.eqb k) ks then None else OMap.get k r.
Proof.
  unfold OMap.delete_all. induction ks as [|k' ks IH]; intros r k Hwf; simpl; [done|]. rewrite IH by by apply OMap.wf_delete.
  destruct (String.eqb_spec k k') as [->|Hne]; [rewrite OMap.get_delete_eq by done; by destruct (existsb _ ks)|].
  by rewrite OMap.get_delete_ne by congruence.
Qed.

#[global] Instance redis_laws : RedisLaws t.
Proof.
  refine {| r_valid := OMap.wf : t → Prop |}; simpl.
  - unfold r_get. intros r k t1 t2 s _ Ht. destruct (OMap.get k r) as [[x [e|]]|]; simpl; [|done..]. unfold live. simpl.
    destruct (Z.ltb_spec e t2), (Z.ltb_spec e t1); done || lia.
  - intros r k s ttl now Hwf. split_and!; [by apply OMap.wf_set| | |].
    + intros t1 x _. unfold r_get. rewrite OMap.get_set_eq. simpl. unfold live. simpl. destruct (_ <$> ttl); [destruct (_ <? _)|]; congruence.
    + intros k' t1 Hne. unfold r_get. by rewrite OMap.get_set_ne by congruence.
    + intros Hl. unfold r_get. rewrite OMap.get_set_eq. simpl. unfold live. simpl. destruct ttl as [n|]; simpl; [|done].
      specialize (Hl n eq_refl). by rewrite (proj2 (Z.ltb_ge _ _)) by lia.
  - intros r ks Hwf. split; [by apply OMap.wf_delete_all|]. intros k t1. unfold r_get. rewrite map_delete_all by done. by destruct (existsb _ ks).
  - intros r p k now _. rewrite Arr.elem_of_filter, andb_true_iff. split.
    + intros (_ & Hg & Hs). split; [|done]. destruct (r_get k now r); [eauto|done].
    + intros [[s Hs] Hg]. rewrite Hs. split_and!; [|done|done]. unfold r_get in Hs. destruct (OMap.get k r) as [x|] eqn:E; [|done].
      apply OMap.get_Some_elem in E. by apply (list_elem_of_fmap_2 fst) in E.
Defined.

End MapRedis.

(** An LRU cache of two entries, the newest first, whose time begins again when they are used *)
Module SmallLRU.

Record item := Item { data : json; ttl : Z; start : Z }.
Definition t : Type := OMap.t item.

Definition live (now : Z) (i : item) : bool := (ttl i =? 0) || (now <=? start i + ttl i).
Definition fresh (l : t) (k : string) (now : Z) : option json :=
  match OMap.get k l with Some i => if live now i then Some (data i) else None | None => None end.
Definition put (k : string) (i : item) (l : t) : t := take 2 ((k, i) :: OMap.delete k l).

#[global] Instance lru : LRU t := {|
  lru_has k now l := match fresh l k now with Some _ => true | None => false end;
  lru_get k now l :=
    match OMap.get k l with
    | Some i => if live now i then (Some (data i), put k (Item (data i) (ttl i) now) l) else (None, OMap.delete k l)
    | None => (None, l)
    end;
  lru_set k v ttl now l := put k (Item v ttl now) l;
  lru_delete k l := OMap.delete k l;
  lru_keys now l := Arr.filter (λ k, match fresh l k now with Some _ => true | None => false end) (OMap.keys l);
  lru_purgeStale now l := l
|}.

Lemma get_take n (l : t) k i : OMap.get k (take n l) = Some i → OMap.get k l = Some i.
Proof. revert n. induction l as [|[k' i'] l IH]; intros [|n]; simpl; [done..|]. destruct (String.eqb k k'); [done|apply IH]. Qed.

Lemma wf_put k i (l : t) : OMap.wf l → OMap.wf (put k i l).
Proof.
  intros Hwf. unfold put, OMap.wf, OMap.keys. eapply sublist_NoDup; [|apply (fmap_sublist fst), sublist_take]. simpl.
  constructor; [|by apply OMap.wf_delete]. intros Hin. assert (OMap.get k (OMap.delete k l) = None) as Hn by by apply OMap.get_delete_eq.
  apply OMap.get_None_keys in Hn. by apply Hn.
Qed.

Lemma put_get k i (l : t) k' i' : OMap.get k' (put k i l) = Some i' → k' = k ∧ i' = i ∨ k' ≠ k ∧ OMap.get k' l = Some i'.
Proof.
  intros Hg%get_take. simpl in Hg. destruct (String.eqb_spec k' k) as [->|Hne]; [left; split; congruence|right; split; [done|]].
  by rewrite OMap.get_delete_ne in Hg by congruence.
Qed.

Lemma live_later i t1 t2 : t1 ≤ t2 → live t2 i = true → live t1 i = true.
Proof. unfold live. rewrite !orb_true_iff. intros ? [?|Hl]; [by left|right]. apply Z.leb_le in Hl. apply Z.leb_le. lia. Qed.

Lemma fresh_inv l k t1 v : fresh l k t1 = Some v ↔ ∃ i, OMap.get k l = Some i ∧ live t1 i = true ∧ data i = v.
Proof. unfold fresh. destruct (OMap.get k l) as [i|]; [|naive_solver]. destruct (live t1 i) eqn:E; naive_solver congruence. Qed.

#[global] Instance lru_laws : LRULaws t.
Proof.
  refine {| lru_valid := OMap.wf : t → Prop; Cachers.fresh := fresh |}; simpl.
  - intros l k t1 t2 v _ Ht (i & ? & ? & ?)%fresh_inv. apply fresh_inv. exists i. split_and!; [done|by eapply live_later|done].
  - done.
  - intros l k now Hwf. unfold fresh at 1. destruct (OMap.get k l) as [i|] eqn:E; [destruct (live now i) eqn:Hl|].
    + split_and!; [by apply wf_put|done|]. intros k' t1 v Ht (i' & Hg & Hl' & Hd)%fresh_inv. apply fresh_inv.
      apply put_get in Hg as [[-> ->]|[_ Hg]]; [exists i|exists i']; (split_and!; [done|done || by eapply live_later|done]).
    + split_and!; [by apply OMap.wf_delete|done|]. intros k' t1 v Ht (i' & Hg & Hl' & Hd)%fresh_inv. apply fresh_inv. exists i'.
      destruct (decide (k = k')) as [->|Hne]; [by rewrite OMap.get_delete_eq in Hg|]. rewrite OMap.get_delete_ne in Hg by done.
      split_and!; [done|by eapply live_later|done].
    + split_and!; [done..|]. intros k' t1 v Ht (i' & Hg & Hl' & Hd)%fresh_inv. apply fresh_inv. exists i'. split_and!; [done|by eapply live_later|done].
  - intros l k v ttl now Hwf. split_and!; [by apply wf_put| | |].
    + intros t1 w _ (i' & Hg & _ & <-)%fresh_inv. apply put_get in Hg as [[_ ->]|[? _]]; done.
    + intros k' t1 w Hne Ht (i' & Hg & Hl' & Hd)%fresh_inv. apply fresh_inv. exists i'. apply put_get in Hg as [[? _]|[_ ?]]; [done|].
      split_and!; [done|by eapply live_later|done].
    + intros Hl. apply fresh_inv. exists (Item v ttl now). unfold put, live. simpl. rewrite String.eqb_refl.
      split_and!; [done| |done]. rewrite (proj2 (Z.leb_le _ _)) by lia. apply orb_true_r.
  - intros l k Hwf. split; [by apply OMap.wf_delete|]. intros k' t1. unfold fresh. rewrite MemoryCacher.get_delete_sub by done. by destruct (String.eqb k k').
  - intros l k now Hwf. rewrite Arr.elem_of_filter. split.
    + intros [_ Hf]. destruct (fresh l k now); [eauto|done].
    + intros [v Hv]. rewrite Hv. split; [|done]. apply fresh_inv in Hv as (i & Hg & _). apply OMap.get_Some_elem in Hg. by apply (list_elem_of_fmap_2 fst) in Hg.
  - done.
Defined.

End SmallLRU.

Section sample.

Definition sample_ops : list (Z * op) :=
  [(1, Set_ "users.get:1" (JNum 7) None); (2, Set_ "posts.get:1" (JNum 8) None); (3, Clean ["posts.*"]); (4, Set_ "users.get:1" (JNum 9) (Some 1))]%string.

Definition sample_kind : kind := RedisKind (Some 60) None "" AsJSON.
Definition sample_answer (x : kind) (c : contents (L := SmallLRU.t) (R := MapRedis.t) x) (k : string) : option json :=
  (get (Cacher := cacher_of (λ _ _, false) x) k 4 (foldl (apply (H := cacher_of (λ _ _, false) x)) c sample_ops)).1.

Lemma sample_plain : plain_ops sample_ops.
Proof.
  intros t k v ttl Hin.
  assert (Forall (λ e : Z * op, match e.2 with Set_ _ v _ => proper v = true ∧ v ≠ JUndef | _ => True end) sample_ops) as Hf by by repeat constructor.
  exact (proj1 (list.Forall_forall _ _) Hf _ Hin).
Qed.

Lemma cacher_sound_witness :
  map (λ k, (sample_answer (MemoryKind None) [] k, sample_answer (MemoryLRUKind (Some 5)) [] k, sample_answer sample_kind [] k)) ["users.get:1"; "posts.get:1"]%string =
    [(Some (JNum 9), Some (JNum 9), Some (JNum 9)); (None, None, None)] ∧
  sound (H := cacher_of (L := SmallLRU.t) (R := MapRedis.t) (λ _ _, false) sample_kind) ([] : MapRedis.t) sample_ops "users.get:1" 4 ∧
  sound (H := cacher_of (L := SmallLRU.t) (R := MapRedis.t) (λ _ _, false) (MemoryLRUKind (Some 5))) ([] : SmallLRU.t) sample_ops "users.get:1" 4.
Proof.
  split; [vm_compute; reflexivity|].
  split; (apply (cacher_sound (L := SmallLRU.t) (R := MapRedis.t) (λ _ _, false));
    [split; [exact (@NoDup_nil_2 string)|intros k t; reflexivity]|simpl; lia|exact sample_plain|simpl; lia]).
Defined.

End sample.

Lemma clean_removes_old_witness :
  ∃ s, Scan.reachable 1 (λ k, if String.eqb k "a" then Some 0%nat else None) s ∧ Scan.settled s = Some Scan.Resolved ∧
  Scan.store s "b" = Some 1%nat ∧ ∀ k n, Scan.store s k = Some n → (1 ≤ n)%nat.
Proof.
  set (st := λ k, if String.eqb k "a" then Some 0%nat else None).
  set (s1 := Scan.on_data ["a"%string] (Scan.start st)). set (s2 := Scan.write "b" (Some 1%nat) s1).
  set (s3 := Scan.on_deleted ["a"%string] s2). set (s4 := Scan.settle Scan.Resolved s3).
  assert (Scan.reachable 1 st s1) as H1.
  { apply (Scan.reach_step 1 st (Scan.start st)); [apply Scan.reach_start|]. by apply Scan.step_data. }
  assert (Scan.reachable 1 st s2) as H2 by (apply (Scan.reach_step 1 st s1); [done|by apply Scan.step_set]).
  assert (Scan.reachable 1 st s3) as H3 by (apply (Scan.reach_step 1 st s2); [done|by apply Scan.step_deleted]).
  assert (Scan.reachable 1 st s4) as Hr.
  { apply (Scan.reach_step 1 st s3); [done|]. apply Scan.step_end; [done|]. intros k. unfold s3, s2, s1, st. cbn [Scan.store Scan.on_deleted Scan.write Scan.on_data Scan.start Scan.seen app].
    destruct (bool_decide (k ∈ ["a"%string])) eqn:Hk; [done|]. apply bool_decide_eq_false in Hk.
    destruct (String.eqb "b" k); [by vm_compute|]. destruct (String.eqb_spec k "a") as [->|]; [by destruct Hk; left|by vm_compute]. }
  exists s4. split; [exact Hr|]. split; [reflexivity|]. split; [reflexivity|]. exact (Scan.clean_removes_old 1 st s4 Hr eq_refl).
Defined.

(** ** Where they differ *)

(** The result of an action that returns nothing cannot be saved in Redis: [set] throws, inside
    the chain of the call. *)
Lemma undefined_not_cached (r : MapRedis.t) :
  RedisCacher.set (Z_ := json_serializer) None "MOL-" "users.touch" JUndef None 0 r = None.
Proof. reflexivity. Qed.

(** A pattern with one star cleans what is below one part of the names in memory, everything
    below in Redis. *)
Lemma one_star_differs regexp :
  MemoryCacher.matches regexp "users.*" "users.roles.list" = false ∧
  hit (Cacher := RedisCacher.cacher (R := MapRedis.t) (Z_ := json_serializer) None "MOL-") "users.*" "users.roles.list" = true.
Proof. split; vm_compute; reflexivity. Qed.

(** A broker without a namespace that cleans its cache cleans that of all namespaces. *)
Lemma unnamed_cleans_all :
  let unnamed := RedisCacher.prefix None "" in
  let named := RedisCacher.prefix None "prod" in
  MapRedis.simple_glob (RedisCacher.normalized unnamed "*") (named +:+ "users.get:1")%string = true.
Proof. reflexivity. Qed.
