(* ===== verification/Streams.v ===== *)
(** * Streams over packets

    Models the streaming parts of [src/transit.js]: how [_sendRequest] and
    [sendResponse] cut a stream into numbered packets, and how
    [_handleIncomingRequestStream] and [_handleIncomingResponseStream] put them in
    order again.  A packet is what these functions read of a payload; a
    [Transform] stream passes its chunks on unchanged. *)

From Stdlib Require Import ZArith Lia Bool.
From stdpp Require Import base tactics list strings option gmap.
From S2P Require Import Prelude.

Local Open Scope Z_scope.

Module Streams.

(** A [Buffer], which may be cut, or any other chunk. *)
Inductive chunk :=
| Buffer (bytes : list Z)
| Value (v : json).

(** [seq], [stream], the data, the error field of a stream error, and the rest of the
    payload, which these functions only pass on *)
Record packet (R : Type) := Packet {
  p_seq : Z;
  p_stream : bool;
  p_data : chunk;
  p_error : option json;
  p_rest : R
}.
Arguments Packet {R}.
Arguments p_seq {R}.
Arguments p_stream {R}.
Arguments p_data {R}.
Arguments p_error {R}.
Arguments p_rest {R}.

Definition null_data : chunk := Value JNull.

(** ** Sending *)

(** [while (i < len) chunks.push(chunk.subarray(i, (i += max)))], by the rest of the
    buffer; [fuel] is its length. *)
Fixpoint pieces (fuel : nat) (max : nat) (l : list Z) : list (list Z) :=
  match fuel, l with
  | Datatypes.S fuel, _ :: _ => take max l :: pieces fuel max (drop max l)
  | _, _ => []
  end.

(** The chunks one [data] event is sent as. *)
Definition split (maxChunkSize : Z) (c : chunk) : list chunk :=
  match c with
  | Buffer l =>
      if (0 <? maxChunkSize) && (maxChunkSize <? Z.of_nat (length l))
      then map Buffer (pieces (length l) (Z.to_nat maxChunkSize) l)
      else [c]
  | Value _ => [c]
  end.

(** The events of the source stream: data, and its end or an error. *)
Inductive source_end := SrcEnd | SrcError (err : json).

Section sending.
Context {R : Type} (rest : R).

(** The [data] handler: each chunk gets the next number ([++payload.seq]). *)
Definition send_data (maxChunkSize : Z) (st : Z * list (packet R)) (c : chunk) : Z * list (packet R) :=
  foldl (λ '(seq, ps) ch, (seq + 1, ps ++ [Packet (seq + 1) true ch None rest])) st (split maxChunkSize c).

(** The [end] and [error] handlers. *)
Definition send_end (st : Z * list (packet R)) (e : source_end) : Z * list (packet R) :=
  let '(seq, ps) := st in
  (seq + 1, ps ++ [Packet (seq + 1) false null_data
                     (match e with SrcEnd => None | SrcError err => Some err end) rest]).

(** All packets of a stream: the opening one, the data, the closing one. *)
Definition send_stream (maxChunkSize : Z) (cs : list chunk) (e : source_end) : list (packet R) :=
  (send_end (foldl (send_data maxChunkSize) (0, [Packet 0 true null_data None rest]) cs) e).2.
End sending.

(** ** Receiving *)

(** [stream.$prevSeq] and [stream.$pool] *)
Record rstream (R : Type) := RStream { prevSeq : Z; pool : gmap Z (packet R) }.
Arguments RStream {R}.
Arguments prevSeq {R}.
Arguments pool {R}.

Definition new_stream {R} : rstream R := RStream (-1) ∅.

(** What the receiving stream is told. *)
Inductive sevent := Write (c : chunk) | EmitError (err : json) | End.

(** [NotStream] is [false], [Hold] is [null] and [Open] the stream itself. *)
Inductive verdict := NotStream | Hold | Open.

#[global] Instance verdict_eq_dec : EqDecision verdict.
Proof. solve_decision. Defined.

(** A packet of an existing stream: the new entry, what the stream is told, the packet
    scheduled with [setImmediate] and the result. *)
Definition process {R} (s : rstream R) (p : packet R)
    : option (rstream R) * list sevent * option (packet R) * verdict :=
  if prevSeq s + 1 <? p_seq p then
    (* some chunks are late: store this one *)
    (Some (RStream (prevSeq s) (<[p_seq p := p]> (pool s))), [], None, Hold)
  else
    let s := RStream (p_seq p) (pool s) in
    let res := if p_seq p =? 0 then Open else Hold in
    if (0 <? p_seq p) && negb (p_stream p) then
      (None, (match p_error p with Some err => [EmitError err] | None => [] end) ++ [End], None, res)
    else
      let told := if 0 <? p_seq p then [Write (p_data p)] else [] in
      match pool s !! (prevSeq s + 1) with
      | Some q => (Some (RStream (prevSeq s) (delete (prevSeq s + 1) (pool s))), told, Some q, res)
      | None => (Some s, told, None, res)
      end.

(** [_handleIncomingRequestStream(payload)] on the entry of [pendingReqStreams] *)
Definition handleIncomingRequestStream {R} (entry : option (rstream R)) (p : packet R)
    : option (rstream R) * list sevent * option (packet R) * verdict :=
  if negb (p_stream p) && (match entry with None => true | Some _ => false end) && (p_seq p =? 0)
  then (entry, [], None, NotStream)
  else process (default new_stream entry) p.

(** [_handleIncomingResponseStream(packet, req)] on the entry of [pendingResStreams];
    [Open] resolves the request with the stream. *)
Definition handleIncomingResponseStream {R} (entry : option (rstream R)) (p : packet R)
    : option (rstream R) * list sevent * option (packet R) * verdict :=
  match entry with
  | None =>
      if negb (p_stream p) && (p_seq p =? 0) then (entry, [], None, NotStream)
      else process new_stream p
  | Some s => process s p
  end.

(** ** Delivery in any order *)

(** Packets on their way, the scheduled callback, the receiver and its output. *)
Record world (R : Type) := World {
  inflight : list (packet R);
  immediate : list (packet R);
  entry : option (rstream R);
  told : list sevent;
  opened : nat
}.
Arguments World {R}.
Arguments inflight {R}.
Arguments immediate {R}.
Arguments entry {R}.
Arguments told {R}.
Arguments opened {R}.

Section delivery.
Context {R : Type}.
Notation packet := (packet R).
Notation rstream := (rstream R).
Notation world := (world R).

(** The handler of either side. *)
Context (handle : option rstream → packet → option rstream * list sevent * option packet * verdict).

Definition accept (p : packet) (w : world) : world :=
  let '(e, out, next, v) := handle (entry w) p in
  World (inflight w) (immediate w ++ match next with Some q => [q] | None => [] end) e (told w ++ out)
    (opened w + match v with Open => 1 | _ => 0 end)%nat.

Inductive step : world → world → Prop :=
| step_deliver l1 p l2 im e t o :
    step (World (l1 ++ p :: l2) im e t o) (accept p (World (l1 ++ l2) im e t o))
| step_immediate l q im e t o :
    step (World l (q :: im) e t o) (accept q (World l im e t o)).

Inductive steps : world → world → Prop :=
| steps_refl w : steps w w
| steps_step w1 w2 w3 : steps w1 w2 → step w2 w3 → steps w1 w3.

(** A run by a list of choices: the index of a packet on its way, or the scheduled callback. *)
Definition choose (c : option nat) (w : world) : option world :=
  match c with
  | Some i =>
      p ← inflight w !! i;
      Some (accept p (World (take i (inflight w) ++ drop (Datatypes.S i) (inflight w))
                        (immediate w) (entry w) (told w) (opened w)))
  | None =>
      match immediate w with
      | q :: im => Some (accept q (World (inflight w) im (entry w) (told w) (opened w)))
      | [] => None
      end
  end.

Fixpoint run (cs : list (option nat)) (w : world) : option world :=
  match cs with
  | [] => Some w
  | c :: cs => w' ← choose c w; run cs w'
  end.

Lemma choose_step c w w' : choose c w = Some w' → step w w'.
Proof.
  destruct c as [i|], w as [l im e t o]; simpl.
  - destruct (l !! i) as [p|] eqn:Hp; simpl; [|done]. intros [= <-].
    rewrite <- (take_drop_middle l i p Hp) at 1. constructor.
  - destruct im as [|q im]; [done|]. intros [= <-]. constructor.
Qed.

Lemma steps_l w1 w2 w3 : step w1 w2 → steps w2 w3 → steps w1 w3.
Proof.
  intros H12 H23. induction H23 as [w|w2 w3 w4 _ IH H34].
  - eapply steps_step; [apply steps_refl|exact H12].
  - eapply steps_step; [by apply IH|exact H34].
Qed.

Lemma run_steps cs w w' : run cs w = Some w' → steps w w'.
Proof.
  revert w. induction cs as [|c cs IH]; intros w; simpl; [intros [= <-]; apply steps_refl|].
  destruct (choose c w) as [w1|] eqn:Hc; simpl; [|done].
  intros Hr. eapply steps_l; [by eapply choose_step|auto].
Qed.
End delivery.

Section numbering.
Context {R : Type}.
Notation packet := (packet R).
Notation rstream := (rstream R).
Notation world := (world R).

Definition sent (ps : list packet) : world := World ps [] None [] 0.

(** What the receiver should be told for a list of packets in order. *)
Definition events_of (p : packet) : list sevent :=
  if p_seq p =? 0 then []
  else if p_stream p then [Write (p_data p)]
  else (match p_error p with Some err => [EmitError err] | None => [] end) ++ [End].

Definition expected (ps : list packet) : list sevent := concat (map events_of ps).

(** *** Numbered packets *)

Record numbered (ps : list packet) : Prop := {
  num_seq i p : ps !! i = Some p → p_seq p = Z.of_nat i;
  num_stream i p : ps !! i = Some p → p_stream p = bool_decide (Datatypes.S i ≠ length ps);
  num_len : (2 <= length ps)%nat
}.

(** The receiver after the first [k] packets were processed. *)
Record inv (ps : list packet) (k : nat) (w : world) : Prop := {
  inv_k : (k <= length ps)%nat;
  inv_told : told w = expected (take k ps);
  inv_opened : opened w = (if (k =? 0)%nat then 0 else 1)%nat;
  inv_entry : if (k =? length ps)%nat then entry w = None
              else if (k =? 0)%nat then match entry w with None => True | Some s => prevSeq s = -1 end
              else match entry w with None => False | Some s => prevSeq s = Z.of_nat k - 1 end;
  (* where the other packets are *)
  inv_flight p : p ∈ inflight w → ∃ i, (k <= i)%nat ∧ ps !! i = Some p;
  inv_nodup : NoDup (inflight w);
  inv_imm : immediate w = [] ∨ ∃ p, immediate w = [p] ∧ ps !! k = Some p ∧ p ∉ inflight w;
  inv_pool s i p : entry w = Some s → pool s !! i = Some p →
    ∃ j, i = Z.of_nat j ∧ (k < j)%nat ∧ ps !! j = Some p ∧ p ∉ inflight w
}.

(** Packet [i] is on its way, scheduled or stored. *)
Definition somewhere (w : world) (i : nat) (p : packet) : Prop :=
  p ∈ inflight w ∨ p ∈ immediate w ∨ ∃ s, entry w = Some s ∧ pool s !! Z.of_nat i = Some p.

(** No packet is lost. *)
Definition covered (ps : list packet) (k : nat) (w : world) : Prop :=
  ∀ i p, (k <= i)%nat → ps !! i = Some p → somewhere w i p.

End numbering.

(** *** One packet *)

Section one_packet.
Context {R : Type}.
Notation packet := (packet R).
Notation rstream := (rstream R).
Notation world := (world R).
Context (handle : option rstream → packet → option rstream * list sevent * option packet * verdict).
Context (handle_process : ∀ e p, p_stream p = true ∨ p_seq p ≠ 0 →
  handle e p = process (default new_stream e) p).
Context (ps : list packet) (Hps : numbered ps).

Lemma numbered_process e i p : ps !! i = Some p → handle e p = process (default new_stream e) p.
Proof.
  intros Hi. apply handle_process. rewrite (num_seq _ Hps i p Hi), (num_stream _ Hps i p Hi).
  pose proof (num_len _ Hps). destruct i as [|i]; [left|right; lia]. apply bool_decide_true. lia.
Qed.

(** The stream a packet finds while [k] packets are processed and one more is missing. *)
Definition current (k : nat) (w : world) : rstream := default new_stream (entry w).

Lemma current_prev k w : inv ps k w → (k < length ps)%nat → prevSeq (current k w) = Z.of_nat k - 1.
Proof.
  intros Hinv Hk. pose proof (inv_entry _ _ _ Hinv) as He. unfold current.
  rewrite (proj2 (Nat.eqb_neq k (length ps))) in He by lia.
  destruct k as [|k]; simpl in He; destruct (entry w); simpl; try done; lia.
Qed.

Lemma current_pool k w i p : pool (current k w) !! i = Some p ↔ ∃ s, entry w = Some s ∧ pool s !! i = Some p.
Proof.
  unfold current. destruct (entry w) as [s|]; simpl; [naive_solver|]. rewrite lookup_empty. naive_solver.
Qed.

Lemma process_late k w i p : inv ps k w → (k < length ps)%nat → ps !! i = Some p → (k < i)%nat →
  handle (entry w) p =
  (Some (RStream (Z.of_nat k - 1) (<[Z.of_nat i := p]> (pool (current k w)))), [], None, Hold).
Proof.
  intros Hinv Hk Hi Hlt. rewrite (numbered_process _ i p Hi). fold (current k w). unfold process.
  rewrite (current_prev k w Hinv Hk), (num_seq _ Hps i p Hi).
  rewrite (proj2 (Z.ltb_lt _ _)) by lia. done.
Qed.

Lemma process_last k w p : inv ps k w → Datatypes.S k = length ps → ps !! k = Some p →
  handle (entry w) p = (None, events_of p, None, Hold).
Proof.
  intros Hinv Hk Hi. rewrite (numbered_process _ k p Hi). fold (current k w). unfold process, events_of.
  pose proof (num_len _ Hps). rewrite (current_prev k w Hinv) by lia.
  rewrite (num_seq _ Hps k p Hi), (num_stream _ Hps k p Hi), bool_decide_false by lia.
  rewrite (proj2 (Z.ltb_ge _ _)), (proj2 (Z.ltb_lt 0 _)), (proj2 (Z.eqb_neq _ 0)) by lia. done.
Qed.

Lemma process_next k w p : inv ps k w → (Datatypes.S k < length ps)%nat → ps !! k = Some p →
  handle (entry w) p =
  (Some (RStream (Z.of_nat k) (match pool (current k w) !! Z.of_nat (Datatypes.S k) with
                               | Some _ => delete (Z.of_nat (Datatypes.S k)) (pool (current k w))
                               | None => pool (current k w) end)),
   events_of p, pool (current k w) !! Z.of_nat (Datatypes.S k), if (k =? 0)%nat then Open else Hold).
Proof.
  intros Hinv Hk Hi. rewrite (numbered_process _ k p Hi). fold (current k w). unfold process, events_of.
  rewrite (current_prev k w Hinv) by lia.
  rewrite (num_seq _ Hps k p Hi), (num_stream _ Hps k p Hi), bool_decide_true by lia.
  rewrite (proj2 (Z.ltb_ge _ _)) by lia. rewrite andb_false_r. simpl.
  replace (Z.of_nat k + 1) with (Z.of_nat (Datatypes.S k)) by lia.
  assert ((Z.of_nat k =? 0) = (k =? 0)%nat) as -> by (destruct k; [done|apply Z.eqb_neq; lia]).
  destruct k as [|k]; [|rewrite (proj2 (Z.ltb_lt 0 _)) by lia]; simpl;
    (destruct (pool _ !! _); reflexivity).
Qed.

Lemma expected_snoc k p : ps !! k = Some p →
  expected (take (Datatypes.S k) ps) = expected (take k ps) ++ events_of p.
Proof.
  intros Hi. rewrite (take_S_r _ _ p) by done. unfold expected. rewrite map_app, concat_app. simpl.
  by rewrite app_nil_r.
Qed.

(** A packet that comes too early is stored. *)
Lemma accept_late k (w : world) i p :
  inv ps k w → ps !! i = Some p → (k < i)%nat → p ∉ inflight w →
  (∀ j q, (k <= j)%nat → j ≠ i → ps !! j = Some q → somewhere w j q) →
  inv ps k (accept handle p w) ∧ covered ps k (accept handle p w).
Proof.
  intros Hinv Hi Hlt Hnf Hall. apply lookup_lt_Some in Hi as Hlen.
  unfold accept. rewrite (process_late k w i p) by (done || lia). rewrite !app_nil_r, Nat.add_0_r.
  destruct Hinv as [H1 H2 H3 H4 H5 H6 H7 H8]. split; [constructor; simpl; try done|].
  - rewrite (proj2 (Nat.eqb_neq k (length ps))) in * by lia. destruct (k =? 0)%nat eqn:Hk; [|done].
    to_prop. subst k. done.
  - intros s j q [= <-] Hj. simpl in Hj. apply lookup_insert_Some in Hj as [[<- <-]|[Hne Hj]].
    + by exists i.
    + apply current_pool in Hj as (s' & Hs' & Hj). by eapply H8.
  - intros j q Hj Hq. destruct (decide (j = i)) as [->|Hne].
    + right. right. eexists. split; [reflexivity|]. simpl. simplify_eq. by rewrite lookup_insert_eq.
    + destruct (Hall j q Hj Hne Hq) as [?|[?|(s & Hs & Hp)]]; [by left|right; by left|].
      right. right. eexists. split; [reflexivity|]. simpl. rewrite lookup_insert_ne by lia.
      apply current_pool. eauto.
Qed.

(** The next packet in order is handed on. *)
Lemma accept_next k (w : world) p :
  inv ps k w → ps !! k = Some p → p ∉ inflight w → immediate w = [] →
  (∀ j q, (k < j)%nat → ps !! j = Some q → somewhere w j q) →
  inv ps (Datatypes.S k) (accept handle p w) ∧ covered ps (Datatypes.S k) (accept handle p w).
Proof.
  intros Hinv Hi Hnf Him Hall. apply lookup_lt_Some in Hi as Hlen. pose proof (num_len _ Hps) as Hl2.
  assert (∀ q, q ∈ inflight w → ∃ i, (Datatypes.S k <= i)%nat ∧ ps !! i = Some q) as Hfl.
  { intros q Hq. destruct (inv_flight _ _ _ Hinv q Hq) as (i & Hki & Hiq). exists i. split; [|done].
    destruct (decide (i = k)) as [->|]; [|lia]. by simplify_eq. }
  destruct (decide (Datatypes.S k = length ps)) as [Hlast|Hmid].
  - unfold accept. rewrite (process_last k w p Hinv Hlast Hi). rewrite Him. simpl.
    destruct Hinv as [H1 H2 H3 H4 H5 H6 H7 H8]. split; [constructor; cbn [told opened entry inflight immediate]|].
    + lia.
    + by rewrite (expected_snoc k p Hi), H2.
    + rewrite H3. destruct k; simpl; lia.
    + by rewrite (proj2 (Nat.eqb_eq _ _) Hlast).
    + done.
    + done.
    + by left.
    + done.
    + intros i q Hki Hiq. apply lookup_lt_Some in Hiq. lia.
  - unfold accept. rewrite (process_next k w p) by (done || lia). rewrite Him. simpl.
    set (nxt := pool (current k w) !! Z.of_nat (Datatypes.S k)).
    assert (∀ q, nxt = Some q → ps !! Datatypes.S k = Some q ∧ q ∉ inflight w) as Hnxt.
    { intros q Hq. apply current_pool in Hq as (s & Hs & Hq).
      destruct (inv_pool _ _ _ Hinv s _ q Hs Hq) as (j & Heq & _ & Hjq & Hn).
      assert (j = Datatypes.S k) as -> by lia. done. }
    destruct Hinv as [H1 H2 H3 H4 H5 H6 H7 H8]. split; [constructor; cbn [told opened entry inflight immediate]|].
    + lia.
    + by rewrite (expected_snoc k p Hi), H2.
    + rewrite H3. destruct k; simpl; lia.
    + rewrite (proj2 (Nat.eqb_neq (Datatypes.S k) (length ps))) by done. simpl. lia.
    + done.
    + done.
    + destruct nxt as [q|] eqn:Hq; [|by left]. right. exists q. destruct (Hnxt q eq_refl). done.
    + intros s i q [= <-] Hq. simpl in Hq.
      assert (pool (current k w) !! i = Some q ∧ (i = Z.of_nat (Datatypes.S k) → False)) as [Hq' Hne].
      { destruct nxt eqn:Hn; [by apply lookup_delete_Some in Hq as [? ?]; split; [|intros ->]|].
        split; [done|]. intros ->. unfold nxt in Hn. congruence. }
      apply current_pool in Hq' as (s & Hs & Hp). destruct (H8 s i q Hs Hp) as (j & -> & Hkj & Hjq & Hn).
      exists j. split_and!; try done. destruct (decide (j = Datatypes.S k)) as [->|]; [by destruct Hne|lia].
    + intros i q Hki Hiq. destruct (Hall i q ltac:(lia) Hiq) as [?|[Hm|(s & Hs & Hp)]];
        [by left|rewrite Him in Hm; by apply not_elem_of_nil in Hm|right].
      destruct (decide (i = Datatypes.S k)) as [->|Hne].
      * left. assert (nxt = Some q) as ->; [|left]. apply current_pool. eauto.
      * right. eexists. split; [reflexivity|]. simpl.
        assert (pool (current k w) !! Z.of_nat i = Some q) as Hp' by (apply current_pool; eauto).
        destruct nxt; [rewrite lookup_delete_ne by lia|]; done.
Qed.

Lemma inv_sub k l im e t o l' im' :
  inv ps k (World l im e t o) → sublist l' l → im' = im ∨ im' = [] → inv ps k (World l' im' e t o).
Proof.
  intros [H1 H2 H3 H4 H5 H6 H7 H8] Hsub Him. simpl in *.
  assert (∀ p, p ∈ l' → p ∈ l) as Hin by (intros p Hp; by eapply (elem_of_submseteq l' l), sublist_submseteq).
  constructor; simpl; auto.
  - by eapply sublist_NoDup.
  - destruct Him as [->| ->]; [|by left]. destruct H7 as [->|(p & -> & ? & ?)]; [by left|right].
    exists p. split_and!; auto.
  - intros s i p Hs Hp. destruct (H8 s i p Hs Hp) as (j & ? & ? & ? & ?). exists j. split_and!; auto.
Qed.

Lemma somewhere_delivered l1 (p : packet) l2 im e t o i q :
  somewhere (R:=R) (World (l1 ++ p :: l2) im e t o) i q → q ≠ p → somewhere (R:=R) (World (l1 ++ l2) im e t o) i q.
Proof.
  intros [Hq|Hq] Hne; [left|right; exact Hq]. simpl in *. rewrite elem_of_app, elem_of_cons in Hq.
  rewrite elem_of_app. naive_solver.
Qed.

Lemma numbered_inj i j p : ps !! i = Some p → ps !! j = Some p → i = j.
Proof. intros Hi Hj. apply (num_seq _ Hps) in Hi, Hj. lia. Qed.

Lemma numbered_nodup : NoDup ps.
Proof. apply NoDup_alt. intros i j p Hi Hj. by eapply numbered_inj. Qed.

Lemma order_step k w w' : inv ps k w → covered ps k w → step handle w w' →
  ∃ k', inv ps k' w' ∧ covered ps k' w'.
Proof.
  intros Hinv Hcov Hstep. destruct Hstep as [l1 p l2 im e t o|l q im e t o].
  - pose proof (inv_nodup _ _ _ Hinv) as Hnd. simpl in Hnd.
    assert (p ∉ l1 ++ l2) as Hnf.
    { apply NoDup_app in Hnd as (_ & Hd & Hnd). apply NoDup_cons in Hnd as [Hp _].
      rewrite elem_of_app. intros [Hin|?]; [|done]. apply (Hd p Hin). left. }
    destruct (inv_flight _ _ _ Hinv p) as (i & Hki & Hi); [simpl; rewrite elem_of_app; right; left|].
    assert (inv ps k (World (l1 ++ l2) im e t o)) as Hinv'.
    { eapply inv_sub; [exact Hinv| |by left]. apply sublist_app; [done|by apply sublist_cons]. }
    assert (∀ j q, (k <= j)%nat → j ≠ i → ps !! j = Some q → somewhere (World (l1 ++ l2) im e t o) j q) as Hall.
    { intros j q Hkj Hne Hq. eapply somewhere_delivered; [by apply Hcov|].
      intros ->. by destruct (numbered_inj i j p Hi Hq). }
    destruct (decide (i = k)) as [->|Hne].
    + assert (im = []) as ->.
      { destruct (inv_imm _ _ _ Hinv) as [?|(q & _ & Hq & Hn)]; [done|]. simplify_eq.
        destruct Hn. simpl. rewrite elem_of_app. right; left. }
      exists (Datatypes.S k). apply accept_next; try done. intros j q Hkj. apply Hall; lia.
    + exists k. eapply accept_late; try done. lia.
  - destruct (inv_imm _ _ _ Hinv) as [?|(q' & Heq & Hq & Hn)]; [done|]. simpl in Heq, Hn.
    injection Heq as -> ->. exists (Datatypes.S k).
    assert (inv ps k (World l [] e t o)) as Hinv' by (eapply inv_sub; [exact Hinv|done|by right]).
    apply accept_next; try done.
    intros j p Hkj Hj. destruct (Hcov j p ltac:(lia) Hj) as [Hp|[Hp|Hp]]; [by left| |by right; right].
    simpl in Hp. apply list_elem_of_singleton in Hp as ->. pose proof (numbered_inj j k q' Hj Hq). lia.
Qed.

Lemma inv_sent : inv ps 0 (sent ps) ∧ covered ps 0 (sent ps).
Proof.
  pose proof (num_len _ Hps). split; [constructor; simpl|].
  - lia.
  - done.
  - done.
  - by destruct (length ps).
  - intros p Hp. apply list_elem_of_lookup in Hp as [i Hi]. exists i. split; [lia|done].
  - apply numbered_nodup.
  - by left.
  - done.
  - intros i p _ Hi. left. by eapply list_elem_of_lookup_2.
Qed.

Lemma inv_steps w : steps handle (sent ps) w → ∃ k, inv ps k w ∧ covered ps k w.
Proof.
  intros Hsteps. remember (sent ps) as w0 eqn:Hw0. induction Hsteps as [w|w1 w2 w3 _ IH Hstep].
  - exists 0%nat. subst. apply inv_sent.
  - destruct (IH Hw0) as (k & Hinv & Hcov). by eapply order_step.
Qed.

(** Nothing is left of a stream whose packets all arrived. *)
Lemma inv_done k w : inv ps k w → covered ps k w → inflight w = [] → immediate w = [] → k = length ps.
Proof.
  intros Hinv Hcov Hfl Him. pose proof (inv_k _ _ _ Hinv).
  destruct (decide (k = length ps)) as [|Hne]; [done|].
  destruct (lookup_lt_is_Some_2 ps k) as [p Hp]; [lia|].
  destruct (Hcov k p) as [Hin|[Hin|(s & Hs & Hin)]]; [lia|done|..].
  - rewrite Hfl in Hin. by apply not_elem_of_nil in Hin.
  - rewrite Him in Hin. by apply not_elem_of_nil in Hin.
  - destruct (inv_pool _ _ _ Hinv s _ p Hs Hin) as (j & ? & ? & _). lia.
Qed.

End one_packet.

(** *** What is sent *)

Section sent_packets.
Context {R : Type} (rest : R).
Notation packet := (packet R).

Fixpoint number (n : Z) (chs : list chunk) : list packet :=
  match chs with
  | [] => []
  | c :: chs => Packet (n + 1) true c None rest :: number (n + 1) chs
  end.

Definition closing (n : Z) (e : source_end) : packet :=
  Packet n false null_data (match e with SrcEnd => None | SrcError err => Some err end) rest.

(** What a stream that ends so is told last. *)
Definition end_events (e : source_end) : list sevent :=
  match e with SrcEnd => [] | SrcError err => [EmitError err] end ++ [End].

(** The chunks all [data] events are sent as. *)
Definition pieces_of (m : Z) (cs : list chunk) : list chunk := concat (map (split m) cs).

Lemma number_app n c1 c2 : number n (c1 ++ c2) = number n c1 ++ number (n + Z.of_nat (length c1)) c2.
Proof.
  revert n. induction c1 as [|c c1 IH]; intros n; simpl; [by rewrite Z.add_0_r|].
  rewrite IH. do 3 f_equal. lia.
Qed.

Lemma length_number n chs : length (number n chs) = length chs.
Proof. revert n. induction chs; intros; simpl; auto. Qed.

Lemma number_lookup n chs i p : number n chs !! i = Some p →
  p_seq p = n + 1 + Z.of_nat i ∧ p_stream p = true.
Proof.
  revert n i. induction chs as [|c chs IH]; intros n [|i] Hp; simpl in Hp; try done.
  - injection Hp as <-. simpl. split; [lia|done].
  - apply IH in Hp as [-> ->]. split; [lia|done].
Qed.

Lemma send_pieces n ps chs :
  foldl (λ '(seq, ps) ch, (seq + 1, ps ++ [Packet (seq + 1) true ch None rest])) (n, ps) chs =
  (n + Z.of_nat (length chs), ps ++ number n chs).
Proof.
  revert n ps. induction chs as [|c chs IH]; intros n ps; simpl; [by rewrite Z.add_0_r, app_nil_r|].
  rewrite IH, <- app_assoc. simpl. f_equal. lia.
Qed.

Lemma send_datas m n ps cs : foldl (send_data rest m) (n, ps) cs =
  (n + Z.of_nat (length (pieces_of m cs)), ps ++ number n (pieces_of m cs)).
Proof.
  revert n ps. induction cs as [|c cs IH]; intros n ps; [simpl; by rewrite Z.add_0_r, app_nil_r|].
  simpl. unfold send_data at 2. rewrite send_pieces, IH. unfold pieces_of. simpl.
  rewrite number_app, length_app, app_assoc. f_equal. lia.
Qed.

Lemma send_stream_eq m cs e :
  send_stream rest m cs e =
  (Packet 0 true null_data None rest :: number 0 (pieces_of m cs))
    ++ [closing (Z.of_nat (length (pieces_of m cs)) + 1) e].
Proof. unfold send_stream. rewrite send_datas. reflexivity. Qed.

Lemma send_stream_numbered m cs e : numbered (send_stream rest m cs e).
Proof.
  rewrite send_stream_eq. set (chs := pieces_of m cs).
  assert (∀ i p, ((Packet 0 true null_data None rest :: number 0 chs) ++ [closing (Z.of_nat (length chs) + 1) e]) !! i
    = Some p → (i < Datatypes.S (length chs))%nat ∧ p_seq p = Z.of_nat i ∧ p_stream p = true ∨
      i = Datatypes.S (length chs) ∧ p = closing (Z.of_nat i) e) as Hps.
  { intros i p Hi. apply lookup_app_Some in Hi as [Hi|[Hlen Hi]].
    - left. apply lookup_lt_Some in Hi as Hlt. simpl in Hlt. rewrite length_number in Hlt. split; [done|].
      destruct i as [|i]; simpl in Hi; [by injection Hi as <-|].
      apply number_lookup in Hi as [-> ->]. split; [lia|done].
    - right. apply list_lookup_singleton_Some in Hi as [Hi <-]. simpl in Hlen, Hi. rewrite length_number in Hlen, Hi.
      assert (i = Datatypes.S (length chs)) as -> by lia. split; [done|]. f_equal. lia. }
  split.
  - intros i p Hi. destruct (Hps i p Hi) as [(_ & ? & _)|[_ ->]]; done.
  - intros i p Hi. rewrite length_app. simpl. rewrite length_number.
    destruct (Hps i p Hi) as [(? & _ & ->)|[-> ->]]; symmetry; simpl;
      [apply bool_decide_true|apply bool_decide_false]; lia.
  - rewrite length_app. simpl. lia.
Qed.

Lemma expected_app (p1 p2 : list packet) : expected (p1 ++ p2) = expected p1 ++ expected p2.
Proof. unfold expected. by rewrite map_app, concat_app. Qed.

Lemma expected_number n chs : 0 <= n → expected (number n chs) = map Write chs.
Proof.
  revert n. induction chs as [|c chs IH]; intros n Hn; [done|].
  cbn [number map]. change (?x :: ?l) with ([x] ++ l). rewrite expected_app, IH by lia.
  unfold expected, events_of. simpl. by rewrite (proj2 (Z.eqb_neq _ 0)) by lia.
Qed.

Lemma expected_send_stream m cs e :
  expected (send_stream rest m cs e) = map Write (pieces_of m cs) ++ end_events e.
Proof.
  rewrite send_stream_eq, expected_app. change (?x :: ?l) with ([x] ++ l) at 1.
  rewrite expected_app, expected_number by lia. change (expected (R:=R) [Packet 0 true null_data None rest]) with (@nil sevent).
  simpl app at 1. f_equal. unfold expected, events_of, end_events. simpl.
  rewrite (proj2 (Z.eqb_neq _ 0)) by lia. destruct e; reflexivity.
Qed.

End sent_packets.

(** *** Cutting buffers *)

(** The bytes of a list of chunks, other chunks set aside. *)
Definition bytes_of (c : chunk) : list Z := match c with Buffer l => l | Value _ => [] end.

Lemma pieces_concat fuel max l : (0 < max)%nat → (length l <= fuel)%nat → concat (pieces fuel max l) = l.
Proof.
  intros Hmax. revert l. induction fuel as [|fuel IH]; intros [|x l] Hl; simpl in *; try done; [lia|].
  rewrite IH; [apply take_drop|]. rewrite length_drop. simpl. lia.
Qed.

Lemma pieces_small fuel max l p : p ∈ pieces fuel max l → (length p <= max)%nat.
Proof.
  revert l. induction fuel as [|fuel IH]; intros [|x l]; simpl; try (intros Hp; by apply not_elem_of_nil in Hp).
  intros [->|Hp]%elem_of_cons; [rewrite length_take; lia|eauto].
Qed.

Lemma split_bytes m c : concat (map bytes_of (split m c)) = bytes_of c.
Proof.
  destruct c as [l|v]; simpl; [|done]. destruct (_ && _) eqn:Hm; simpl; [|apply app_nil_r].
  to_prop. rewrite map_map. simpl. rewrite map_id. apply pieces_concat; lia.
Qed.

Lemma pieces_of_bytes m cs : concat (map bytes_of (pieces_of m cs)) = concat (map bytes_of cs).
Proof.
  induction cs as [|c cs IH]; [done|]. unfold pieces_of in *. simpl.
  rewrite map_app, concat_app, IH. f_equal. apply split_bytes.
Qed.

Lemma split_small m c l : 0 < m → Buffer l ∈ split m c → (length l <= Z.to_nat m)%nat.
Proof.
  intros Hm. destruct c as [l'|v]; simpl.
  - destruct (_ && _) eqn:Hb; intros Hin.
    + apply list_elem_of_fmap in Hin as (p & [= ->] & Hp). by eapply pieces_small.
    + apply list_elem_of_singleton in Hin as [= ->].
      rewrite (proj2 (Z.ltb_lt 0 m)) in Hb by lia. simpl in Hb. to_prop. lia.
  - intros Hin. apply list_elem_of_singleton in Hin. done.
Qed.

Lemma pieces_of_small m cs l : 0 < m → Buffer l ∈ pieces_of m cs → (length l <= Z.to_nat m)%nat.
Proof.
  intros Hm. induction cs as [|c cs IH]; unfold pieces_of in *; simpl; [intros Hin; by apply not_elem_of_nil in Hin|].
  intros [Hin|Hin]%elem_of_app; [by eapply split_small|auto].
Qed.

(** ** Properties *)

(** The two receivers *)
Inductive receiver := OfRequest | OfResponse.

Definition handler {R} (r : receiver)
    : option (rstream R) → packet R → option (rstream R) * list sevent * option (packet R) * verdict :=
  match r with OfRequest => handleIncomingRequestStream | OfResponse => handleIncomingResponseStream end.

Lemma handler_process {R} r e (p : packet R) : p_stream p = true ∨ p_seq p ≠ 0 →
  handler r e p = process (default new_stream e) p.
Proof.
  intros Hp. assert (negb (p_stream p) && (p_seq p =? 0) = false) as Hb.
  { destruct Hp as [->|Hp]; [done|]. rewrite (proj2 (Z.eqb_neq _ _) Hp). apply andb_false_r. }
  destruct r; simpl; unfold handleIncomingRequestStream, handleIncomingResponseStream; destruct e; simpl;
    rewrite ?andb_true_r, ?andb_false_r, ?Hb; done.
Qed.

(** C5. However the network reorders the packets of one stream, and however deliveries interleave
    with the scheduled callbacks, the receiving stream has at any time been told a prefix of what
    the sender's stream produced, in order, and it has been opened at most once.  When all
    packets were taken in, it has been opened, told everything and then ended (after the error,
    if there was one), and no entry is left.  The bytes are those of the source, cut into
    pieces of at most [maxChunkSize] bytes. *)
Theorem stream_end_to_end {R} (rest : R) r m cs e w :
  steps (handler r) (sent (send_stream rest m cs e)) w →
  (told w `prefix_of` map Write (pieces_of m cs) ++ end_events e) ∧ (opened w <= 1)%nat ∧
  (inflight w = [] → immediate w = [] →
    told w = map Write (pieces_of m cs) ++ end_events e ∧ opened w = 1%nat ∧ entry w = None) ∧
  concat (map bytes_of (pieces_of m cs)) = concat (map bytes_of cs) ∧
  (∀ l, 0 < m → Buffer l ∈ pieces_of m cs → (length l <= Z.to_nat m)%nat).
Proof.
  intros Hsteps. pose proof (send_stream_numbered rest m cs e) as Hps.
  destruct (inv_steps _ (handler_process r) _ Hps w Hsteps) as (k & Hinv & Hcov).
  rewrite <- (expected_send_stream rest). split_and!.
  - rewrite (inv_told _ _ _ Hinv). exists (expected (drop k (send_stream rest m cs e))).
    by rewrite <- expected_app, take_drop.
  - rewrite (inv_opened _ _ _ Hinv). destruct (k =? 0)%nat; lia.
  - intros Hfl Him. pose proof (inv_done _ k w Hinv Hcov Hfl Him) as ->.
    pose proof (num_len _ Hps). rewrite (inv_told _ _ _ Hinv), firstn_all, (inv_opened _ _ _ Hinv).
    pose proof (inv_entry _ _ _ Hinv) as He. rewrite Nat.eqb_refl in He.
    split_and!; [done| |done]. destruct (length _); [lia|done].
  - apply pieces_of_bytes.
  - intros l Hm Hl. by eapply pieces_of_small.
Qed.

(** Two chunks, the first cut in two; the packets arrive as 2, 4, 1, 0, 3. *)
Lemma stream_end_to_end_witness :
  told (World (R := unit) [] [] None
    [Write (Buffer [1; 2]); Write (Buffer [3]); Write (Value JNull); End] 1) =
  map Write (pieces_of 2 [Buffer [1; 2; 3]; Value JNull]) ++ end_events SrcEnd.
Proof.
  set (w := World (R := unit) [] [] None [Write (Buffer [1; 2]); Write (Buffer [3]); Write (Value JNull); End] 1).
  assert (steps (handler OfRequest) (sent (send_stream tt 2 [Buffer [1; 2; 3]; Value JNull] SrcEnd)) w) as Hsteps.
  { apply (run_steps _ [Some 2; Some 3; Some 1; Some 0; None; None; Some 0; None]%nat).
    vm_compute. reflexivity. }
  apply (stream_end_to_end tt OfRequest 2 _ SrcEnd w Hsteps); reflexivity.
Defined.

End Streams.
