(* ===== verification/Transit.v ===== *)
(** * The transit layer

    Models [src/transit.js]: the tables of pending requests and streams, sending
    requests, events and responses, handling every kind of received packet, and
    the clean-up after a node is gone.  It sits on the registry, the discoverer,
    the routing and the streams.  A promise is a numbered cell that is settled
    once; what the transit hands to the transporter, to actions and to streams is
    a list of outputs.  The object mode of streams and logging are left out. *)

From Stdlib Require Import ZArith Lia Bool.
From stdpp Require Import base tactics list strings option gmap.
From S2P Require Import Prelude Errors Strategies RegistryData EndpointList Registry Discoverer Routing Streams.

Local Open Scope Z_scope.

Module Transit.

Notation chunk := Streams.chunk.

(** ** Contexts and packets *)

(** The fields of a [Context] that travel with a request. *)
Record context := Context {
  c_id : string;
  c_action : string;
  c_nodeID : option string;
  c_params : chunk;
  c_meta : OMap.t json;
  c_headers : OMap.t json;
  c_timeout : option Z;
  c_level : Z;
  c_tracing : json;
  c_parentID : option string;
  c_requestID : option string;
  c_caller : option string;
  (** [ctx.options.stream] is a readable stream *)
  c_isStream : bool
}.

Record request_payload := RequestPayload {
  q_sender : string;
  q_id : string;
  q_action : string;
  q_params : chunk;
  q_meta : option (OMap.t json);
  q_headers : option (OMap.t json);
  q_timeout : option Z;
  q_level : Z;
  q_tracing : json;
  q_parentID : option string;
  q_requestID : option string;
  q_caller : option string;
  q_stream : option bool;
  q_seq : option Z;
  (** [headers.$streamError] *)
  q_streamError : option json
}.

Record response_payload := ResponsePayload {
  s_sender : string;
  s_id : string;
  s_meta : OMap.t json;
  s_success : bool;
  s_data : chunk;
  s_error : json;
  s_stream : option bool;
  s_seq : option Z
}.

Record event_payload := EventPayload {
  e_sender : string;
  e_id : string;
  e_event : string;
  e_data : json;
  e_groups : option (list string);
  e_broadcast : bool
}.

Inductive payload :=
| PRequest (q : request_payload)
| PResponse (s : response_payload)
| PEvent (e : event_payload)
| PDiscover (sender : string)
| PInfo (i : node_info)
| PDisconnect (sender : string)
| PHeartbeat (sender : string) (hb : Discoverer.heartbeat)
| PPing (sender id : string) (time : Z)
| PPong (sender id : string) (time arrived : Z).

Definition sender (p : payload) : string :=
  match p with
  | PRequest q => q_sender q
  | PResponse s => s_sender s
  | PEvent e => e_sender e
  | PInfo i => i_sender i
  | PDiscover s | PDisconnect s | PHeartbeat s _ | PPing s _ _ | PPong s _ _ _ => s
  end.

(** A packet without a payload is [None]. *)
Record packet := Packet { ver : string; body : option payload }.

(** ** State *)

Inductive error :=
| ServiceNotFoundError (action : string) (nodeID : option string)
| ServiceNotAvailableError (action : string) (nodeID : option string)
| EndpointError
| RequestRejectedError (action : string) (nodeID : string)
| QueueIsFullError (action nodeID : string) (size limit : Z)
| PublishError (e : Errors.t)
(** Thrown by an action or made by the regenerator *)
| OtherError (e : Errors.t).

Inductive outcome :=
| Resolved (data : chunk)
| ResolvedStream (stream : nat)
| Rejected (err : error).

(** An entry of [pendingRequests]; its context is shared with the caller. *)
Record request := Request {
  r_action : string;
  r_nodeID : option string;
  r_promise : nat;
  r_ctx_nodeID : option string;
  r_ctx_meta : OMap.t json
}.

(** A [Transform] stream, the payloads it holds back, and its sender *)
Record stream (P : Type) := Stream { x_num : nat; x_state : Streams.rstream P; x_sender : string }.
Arguments Stream {P}.
Arguments x_num {P}.
Arguments x_state {P}.
Arguments x_sender {P}.

(** What a response is made of: the result of the action, a stream, or its error. *)
Inductive result := Data (d : chunk) | StreamData | Failure (err : error).

Inductive output :=
| PublishRequest (to : option string) (q : request_payload)
| PublishResponse (to : string) (s : response_payload)
| PublishDiscover (to : string)
| SendLocalNodeInfo (to : string)
| PublishPong (to id : string) (time arrived : Z)
| OrphanResponse (id : string)
(** [endpoint.action.handler(ctx)] with the stream of the request *)
| RunAction (ep : ref) (ctx : context) (requester : string) (stream : option nat)
| RunEvent (ep : ref) (e : event_payload)
| Told (stream : nat) (what : list Streams.sevent)
| Destroyed (stream : nat) (origin : string)
| Pong (nodeID id : string) (elapsedTime timeDiff : Z)
| Fatal
| TransitError.

(** A handler scheduled with [setImmediate] *)
Inductive callback := HandleRequest (q : request_payload) | HandleResponse (s : response_payload).

Record t := Transit {
  own : string;
  instanceID : json;
  protocol : string;
  disableVersionCheck : bool;
  maxQueueSize : Z;
  stopping : bool;
  pendingRequests : OMap.t request;
  pendingReqStreams : OMap.t (stream request_payload);
  pendingResStreams : OMap.t (stream response_payload);
  promises : list (option outcome);
  nstreams : nat;
  immediates : list callback;
  log : list output
}.

(** Assigning to one field. *)
Definition set_requests (x : OMap.t request) (m : t) : t :=
  Transit (own m) (instanceID m) (protocol m) (disableVersionCheck m) (maxQueueSize m) (stopping m) x
    (pendingReqStreams m) (pendingResStreams m) (promises m) (nstreams m) (immediates m) (log m).
Definition set_reqStreams (x : OMap.t (stream request_payload)) (m : t) : t :=
  Transit (own m) (instanceID m) (protocol m) (disableVersionCheck m) (maxQueueSize m) (stopping m)
    (pendingRequests m) x (pendingResStreams m) (promises m) (nstreams m) (immediates m) (log m).
Definition set_resStreams (x : OMap.t (stream response_payload)) (m : t) : t :=
  Transit (own m) (instanceID m) (protocol m) (disableVersionCheck m) (maxQueueSize m) (stopping m)
    (pendingRequests m) (pendingReqStreams m) x (promises m) (nstreams m) (immediates m) (log m).
Definition set_promises (x : list (option outcome)) (m : t) : t :=
  Transit (own m) (instanceID m) (protocol m) (disableVersionCheck m) (maxQueueSize m) (stopping m)
    (pendingRequests m) (pendingReqStreams m) (pendingResStreams m) x (nstreams m) (immediates m) (log m).
Definition set_nstreams (x : nat) (m : t) : t :=
  Transit (own m) (instanceID m) (protocol m) (disableVersionCheck m) (maxQueueSize m) (stopping m)
    (pendingRequests m) (pendingReqStreams m) (pendingResStreams m) (promises m) x (immediates m) (log m).
Definition set_immediates (x : list callback) (m : t) : t :=
  Transit (own m) (instanceID m) (protocol m) (disableVersionCheck m) (maxQueueSize m) (stopping m)
    (pendingRequests m) (pendingReqStreams m) (pendingResStreams m) (promises m) (nstreams m) x (log m).
Definition emit (o : output) (m : t) : t :=
  Transit (own m) (instanceID m) (protocol m) (disableVersionCheck m) (maxQueueSize m) (stopping m)
    (pendingRequests m) (pendingReqStreams m) (pendingResStreams m) (promises m) (nstreams m) (immediates m)
    (log m ++ [o]).

(** Resolving or rejecting a promise; a settled one stays as it is. *)
Definition settle (p : nat) (o : outcome) (m : t) : t :=
  match promises m !! p with
  | Some None => set_promises (<[p := Some o]> (promises m)) m
  | _ => m
  end.

(** ** Sending *)

(** The payload of a request: [_sendRequest] up to its first packet *)
Definition request_payload_of (m : t) (c : context) : request_payload :=
  RequestPayload (own m) (c_id c) (c_action c) (c_params c) (Some (c_meta c)) (Some (c_headers c))
    (c_timeout c) (c_level c) (c_tracing c) (c_parentID c) (c_requestID c) (c_caller c)
    (Some (c_isStream c)) (if c_isStream c then Some 0 else None) None.

(** A later packet of the request's stream *)
Definition stream_payload_of (m : t) (c : context) (p : Streams.packet unit) : request_payload :=
  RequestPayload (own m) (c_id c) (c_action c) (Streams.p_data p) (Some []) (Some (c_headers c))
    (c_timeout c) (c_level c) (c_tracing c) (c_parentID c) (c_requestID c) (c_caller c)
    (Some (Streams.p_stream p)) (Some (Streams.p_seq p)) (Streams.p_error p).

(** [_sendRequest(ctx, resolve, reject)]; [p] is the promise [resolve] and [reject]
    belong to. *)
Definition sendRequest (c : context) (p : nat) (m : t) : t :=
  let req := Request (c_action c) (c_nodeID c) p (c_nodeID c) (c_meta c) in
  emit (PublishRequest (c_nodeID c) (request_payload_of m c))
    (set_requests (OMap.set (c_id c) req (pendingRequests m)) m).

(** [request(ctx)] *)
Definition request_ (c : context) (m : t) : t :=
  let size := Z.of_nat (length (pendingRequests m)) in
  if (negb (maxQueueSize m =? 0)) && (maxQueueSize m <=? size) then
    set_promises (promises m ++ [Some (Rejected (QueueIsFullError (c_action c) (own m) size (maxQueueSize m)))]) m
  else sendRequest c (length (promises m)) (set_promises (promises m ++ [None]) m).

(** The [catch] of the publishing: [reject(err)] *)
Definition publishFailed (p : nat) (e : Errors.t) (m : t) : t :=
  emit TransitError (settle p (Rejected (PublishError e)) m).

Section responses.
(** [broker.errorRegenerator], which the options may replace: what a packet holds of an error,
    and the error made of it and the packet it came in; [None] is that this throws. *)
Context (extract : error → json) (restore : json → response_payload → option error).

(** [sendResponse(nodeID, id, meta, headers, data, err)]: the first packet *)
Definition sendResponse (to id : string) (meta : OMap.t json) (r : result) (m : t) : t :=
  emit (PublishResponse to
    match r with
    | Data d => ResponsePayload (own m) id meta true d JUndef None None
    | StreamData => ResponsePayload (own m) id meta true Streams.null_data JUndef (Some true) (Some 0)
    | Failure err => ResponsePayload (own m) id meta false Streams.null_data (extract err) None None
    end) m.

(** A later packet of a streaming response *)
Definition response_stream_payload (m : t) (id : string) (meta : OMap.t json) (p : Streams.packet unit)
    : response_payload :=
  ResponsePayload (own m) id meta (match Streams.p_error p with None => true | Some _ => false end)
    (Streams.p_data p) (default JUndef (Streams.p_error p)) (Some (Streams.p_stream p)) (Some (Streams.p_seq p)).

(** ** Removing *)

(** [removePendingRequest(id)] *)
Definition removePendingRequest (id : string) (m : t) : t :=
  set_resStreams (OMap.delete id (pendingResStreams m))
    (set_reqStreams (OMap.delete id (pendingReqStreams m))
       (set_requests (OMap.delete id (pendingRequests m)) m)).

(** [_deletePendingReqStream(id, origin)] *)
Definition deletePendingReqStream (id origin : string) (m : t) : t :=
  let m' := set_reqStreams (OMap.delete id (pendingReqStreams m)) m in
  match OMap.get id (pendingReqStreams m) with
  | Some x => emit (Destroyed (x_num x) origin) m'
  | None => m'
  end.

(** [_deletePendingResStream(id, origin)] *)
Definition deletePendingResStream (id origin : string) (m : t) : t :=
  let m' := set_resStreams (OMap.delete id (pendingResStreams m)) m in
  match OMap.get id (pendingResStreams m) with
  | Some x => emit (Destroyed (x_num x) origin) m'
  | None => m'
  end.

(** One turn of the first [forEach] of [removePendingRequestByNodeID] *)
Definition close_stream (nodeID : string) (m : t) (e : string * stream request_payload) : t :=
  let '(id, x) := e in
  if String.eqb (x_sender x) nodeID
  then emit (Destroyed (x_num x) nodeID) (set_reqStreams (OMap.delete id (pendingReqStreams m)) m)
  else m.

(** One turn of the second [forEach] *)
Definition reject_request (nodeID : string) (m : t) (e : string * request) : t :=
  let '(id, req) := e in
  match r_nodeID req with
  | Some n =>
      if String.eqb n nodeID then
        deletePendingResStream id nodeID
          (deletePendingReqStream id nodeID
             (settle (r_promise req) (Rejected (RequestRejectedError (r_action req) n))
                (set_requests (OMap.delete id (pendingRequests m)) m)))
      else m
  | None => m
  end.

(** [removePendingRequestByNodeID(nodeID)] *)
Definition removePendingRequestByNodeID (nodeID : string) (m : t) : t :=
  let m := foldl (close_stream nodeID) m (pendingReqStreams m) in
  foldl (reject_request nodeID) m (pendingRequests m).

(** ** Receiving responses *)

(** [Object.assign(req.ctx.meta, packet.meta)] *)
Definition assign (old new : OMap.t json) : OMap.t json := foldl (λ m '(k, v), OMap.set k v m) old new.

(** What the stream functions read of a response; a missing [seq] counts as 0. *)
Definition response_packet (s : response_payload) : Streams.packet response_payload :=
  Streams.Packet (default 0 (s_seq s)) (default false (s_stream s)) (s_data s)
    (if s_success s then None else Some (s_error s)) s.

(** [_handleIncomingResponseStream(packet, req)] *)
Definition handleIncomingResponseStream (s : response_payload) (req : request) (m : t) : bool * t :=
  let entry := OMap.get (s_id s) (pendingResStreams m) in
  let '(e, told, next, v) := Streams.handleIncomingResponseStream (option_map x_state entry) (response_packet s) in
  match v with
  | Streams.NotStream => (false, m)
  | _ =>
      let num := match entry with Some x => x_num x | None => nstreams m end in
      let m := match entry with Some _ => m | None => set_nstreams (nstreams m + 1) m end in
      let m := match v with Streams.Open => settle (r_promise req) (ResolvedStream num) m | _ => m end in
      let m := match told with [] => m | _ => emit (Told num told) m end in
      let m :=
        match e with
        | Some st => set_resStreams (OMap.set (s_id s) (Stream num st (s_sender s)) (pendingResStreams m)) m
        | None => removePendingRequest (s_id s) m
        end in
      (true, match next with
             | Some q => set_immediates (immediates m ++ [HandleResponse (Streams.p_rest q)]) m
             | None => m
             end)
  end.

(** [responseHandler(packet)]; [false] when the regenerator throws, and the promise waits for ever. *)
Definition responseHandler (s : response_payload) (m : t) : bool * t :=
  match OMap.get (s_id s) (pendingRequests m) with
  | None => (true, emit (OrphanResponse (s_id s)) m)
  | Some req =>
      let req := Request (r_action req) (r_nodeID req) (r_promise req) (Some (s_sender s))
                   (assign (r_ctx_meta req) (s_meta s)) in
      let m := set_requests (OMap.set (s_id s) req (pendingRequests m)) m in
      let '(handled, m) :=
        match s_stream s with
        | Some _ => handleIncomingResponseStream s req m
        | None => (false, m)
        end in
      if handled then (true, m)
      else
        let m := removePendingRequest (s_id s) m in
        if s_success s then (true, settle (r_promise req) (Resolved (s_data s)) m)
        else match restore (s_error s) s with
             | Some err => (true, settle (r_promise req) (Rejected err) m)
             | None => (false, m)
             end
  end.

(** ** Receiving requests and events *)

Definition request_packet (q : request_payload) : Streams.packet request_payload :=
  Streams.Packet (default 0 (q_seq q)) (default false (q_stream q)) (q_params q) (q_streamError q) q.

(** [_handleIncomingRequestStream(payload)]: [None] is [null], [Some None] is [false] *)
Definition handleIncomingRequestStream (q : request_payload) (m : t) : option (option nat) * t :=
  let entry := OMap.get (q_id q) (pendingReqStreams m) in
  let '(e, told, next, v) := Streams.handleIncomingRequestStream (option_map x_state entry) (request_packet q) in
  match v with
  | Streams.NotStream => (Some None, m)
  | _ =>
      let num := match entry with Some x => x_num x | None => nstreams m end in
      let from := match entry with Some x => x_sender x | None => q_sender q end in
      let m := match entry with Some _ => m | None => set_nstreams (nstreams m + 1) m end in
      let m := match told with [] => m | _ => emit (Told num told) m end in
      let m :=
        set_reqStreams
          (match e with
           | Some st => OMap.set (q_id q) (Stream num st from) (pendingReqStreams m)
           | None => OMap.delete (q_id q) (pendingReqStreams m)
           end) m in
      let m := match next with
               | Some p => set_immediates (immediates m ++ [HandleRequest (Streams.p_rest p)]) m
               | None => m
               end in
      (match v with Streams.Open => Some (Some num) | _ => None end, m)
  end.

(** The context [requestHandler] recreates *)
Definition context_of (q : request_payload) (stream : option nat) : context :=
  Context (q_id q) (q_action q) (Some (q_sender q)) (q_params q) (default [] (q_meta q)) (default [] (q_headers q))
    (q_timeout q) (q_level q) (q_tracing q) (q_parentID q) (q_requestID q) (q_caller q)
    (match stream with Some _ => true | None => false end).

Section handlers.
Context {S : Type} `{Strategy S} (new_strategy : option string → S).
Context (random : random_source) (regexp : list Ascii.ascii → list Ascii.ascii → bool).

Record world := World { reg : registry S; tr : t }.

(** [requestHandler(payload)] until the action runs or fails to be found *)
Definition requestHandler (q : request_payload) (w : world) : world :=
  let refuse err m := sendResponse (q_sender q) (q_id q) (default [] (q_meta q)) (Failure err) m in
  if stopping (tr w) then
    World (reg w) (refuse (ServiceNotAvailableError (q_action q) (Some (own (tr w)))) (tr w))
  else
    let '(stream, m) :=
      match q_stream q with
      | Some _ => handleIncomingRequestStream q (tr w)
      | None => (Some None, tr w)
      end in
    match stream with
    | None => World (reg w) m
    | Some stream =>
        let '(route, r) := Routing.getLocalActionEndpoint random (q_action q) None (reg w) in
        World r
          match route with
          | Routing.Routed ep => emit (RunAction ep (context_of q stream) (q_sender q) stream) m
          | Routing.ServiceNotFound a n => refuse (ServiceNotFoundError a n) m
          | Routing.ServiceNotAvailable a n => refuse (ServiceNotAvailableError a n) m
          | Routing.InvalidEndpoint => refuse EndpointError m
          end
    end.

(** The action that [RunAction ep ctx requester _] started is done: its context's meta
    and its result are sent back. *)
Definition actionDone (requester : string) (ctx : context) (meta : OMap.t json) (r : result) (m : t) : t :=
  sendResponse requester (c_id ctx) meta r m.

(** [eventHandler(payload)]; [None] when choosing the handlers throws *)
Definition eventHandler (e : event_payload) (w : world) : option bool * world :=
  if stopping (tr w) then (Some false, w)
  else
    let '(eps, r) := Routing.emitLocalServices random regexp (e_broadcast e) (e_event e) (e_groups e) (reg w) in
    match eps with
    | Some eps => (Some true, World r (foldl (λ m ep, emit (RunEvent ep e) m) (tr w) eps))
    | None => (None, World r (tr w))
    end.

(** [processPong(payload)]: times are whole milliseconds. *)
Definition timeDiff (now time arrived : Z) : Z :=
  (* Math.round(now - arrived - elapsedTime / 2) *)
  (2 * (now - arrived) - (now - time) + 1) / 2.

Definition processPong (nodeID id : string) (time arrived now : Z) (m : t) : t :=
  emit (Pong nodeID id (now - time) (timeDiff now time arrived)) m.

(** What the broker does on the transit when the registry tells it to *)
Definition perform (m : t) (e : effect) : t :=
  match e with
  | RemovePendingByNodeID n => removePendingRequestByNodeID n m
  | DiscoverNode n => emit (PublishDiscover n) m
  | _ => m
  end.

(** An operation of the registry and what it tells the transit *)
Definition with_registry (f : registry S → registry S) (w : world) : world :=
  let r := f (reg w) in
  World r (foldl perform (tr w) (drop (length (out (reg w))) (out r))).

(** [messageHandler(cmd, packet)]; [uptime] is in seconds, [date] in milliseconds.
    The result says whether the packet was processed. *)
Definition messageHandler (uptime date : Z) (p : packet) (w : world) : bool * world :=
  let failed w := (false, World (reg w) (emit TransitError (tr w))) in
  match body p with
  | None => failed w
  | Some b =>
      if negb (String.eqb (ver p) (protocol (tr w))) && negb (disableVersionCheck (tr w)) then failed w
      else
        let from_us := String.eqb (sender b) (own (tr w)) in
        match b with
        | PRequest q => (true, requestHandler q w)
        | PResponse s =>
            let '(ok, m) := responseHandler s (tr w) in
            if ok then (true, World (reg w) m) else failed (World (reg w) m)
        | PEvent e =>
            let '(res, w) := eventHandler e w in
            match res with Some b => (b, w) | None => failed w end
        | PInfo i =>
            if from_us then
              (false, if Node.same_instance (i_instanceID i) (instanceID (tr w)) then w
                      else World (reg w) (emit Fatal (tr w)))
            else (true, with_registry (processNodeInfo new_strategy i uptime) w)
        | PDiscover s =>
            if from_us then (false, w)
            else (true, World (reg w) (emit (SendLocalNodeInfo s) (tr w)))
        | PDisconnect s =>
            if from_us then (false, w)
            else (true, with_registry (Discoverer.remoteNodeDisconnected s false uptime) w)
        | PHeartbeat s hb =>
            if from_us then (false, w)
            else match Discoverer.heartbeatReceived s hb uptime (reg w) with
                 | Some r => (true, with_registry (λ _, r) w)
                 | None => failed w
                 end
        | PPing s id time =>
            if from_us then (false, w)
            else (true, World (reg w) (emit (PublishPong s id time date) (tr w)))
        | PPong s id time arrived =>
            if from_us then (false, w)
            else (true, World (reg w) (processPong s id time arrived date (tr w)))
        end
  end.

End handlers.
End responses.

End Transit.
