(* ===== verification/TransitInv.v ===== *)
(** * The tables of the transit

    What [removePendingRequestByNodeID] leaves behind, the invariant of the tables
    of requests and streams, and that each operation keeps it and loses no request. *)

From Stdlib Require Import ZArith Lia Bool.
From stdpp Require Import base tactics list strings option gmap.
From S2P Require Import Prelude Strategies RegistryData EndpointList Registry Discoverer Routing Streams RegistryInv RegistrySpec RegistryTheorems Transit.

Local Open Scope Z_scope.

Import Transit.

(** ** Removing *)

Section removal.
Context (n : string).

(** The ids of the entries that go with node [n] *)
Definition of_node (e : string * request) : bool :=
  match r_nodeID e.2 with Some i => String.eqb i n | None => false end.
Definition from_node (e : string * stream request_payload) : bool := String.eqb (x_sender e.2) n.

(** A table that lost entries whose streams were destroyed *)
Definition shrunk {P} (g : t → OMap.t (stream P)) (m m' : t) : Prop :=
  log m `prefix_of` log m' ∧
  ∀ id, OMap.get id (g m') = OMap.get id (g m) ∨
    (OMap.get id (g m') = None ∧ ∀ x, OMap.get id (g m) = Some x → Destroyed (x_num x) n ∈ log m').

Lemma shrunk_refl {P} (g : t → OMap.t (stream P)) m : shrunk g m m.
Proof. split; [done|]. by left. Qed.

Lemma shrunk_trans {P} (g : t → OMap.t (stream P)) m1 m2 m3 : shrunk g m1 m2 → shrunk g m2 m3 → shrunk g m1 m3.
Proof.
  intros [L12 H12] [L23 H23]. split; [by etrans|]. intros id.
  assert (∀ o, o ∈ log m2 → o ∈ log m3) as Hl by (destruct L23 as [k ->]; set_solver).
  destruct (H23 id) as [->|[E3 D3]].
  - destruct (H12 id) as [?|[E2 D2]]; [by left|right]. split; [done|]. intros x Hx. by apply Hl, D2.
  - right. split; [done|]. intros x Hx. destruct (H12 id) as [E2|[E2 D2]]; [apply D3; by rewrite E2|by apply Hl, D2].
Qed.

Lemma get_delete {V} k k' (m : OMap.t V) : OMap.wf m →
  OMap.get k' (OMap.delete k m) = if String.eqb k k' then None else OMap.get k' m.
Proof.
  intros Hm. destruct (String.eqb_spec k k') as [->|Hne]; [by apply OMap.get_delete_eq|by apply OMap.get_delete_ne].
Qed.

(** The streams phase *)
Lemma close_streams es m :
  let m' := foldl (close_stream n) m es in
  pendingReqStreams m' = OMap.delete_all (OMap.keys (Arr.filter from_node es)) (pendingReqStreams m) ∧
  pendingResStreams m' = pendingResStreams m ∧ pendingRequests m' = pendingRequests m ∧
  promises m' = promises m ∧ nstreams m' = nstreams m ∧ immediates m' = immediates m.
Proof.
  revert m. induction es as [|[id x] es IH]; intros m; cbn [foldl]; [done|].
  destruct (IH (close_stream n m (id, x))) as (H1 & H2 & H3 & H4 & H5 & H6).
  cbv zeta. rewrite H1, H2, H3, H4, H5, H6. unfold close_stream, from_node. simpl.
  destruct (String.eqb (x_sender x) n); split_and!; reflexivity.
Qed.

Lemma close_streams_shrunk es m : OMap.wf (pendingReqStreams m) → OMap.wf es →
  (∀ id x, (id, x) ∈ es → OMap.get id (pendingReqStreams m) = Some x) →
  shrunk pendingReqStreams m (foldl (close_stream n) m es).
Proof.
  revert m. induction es as [|[id x] es IH]; intros m Hwf Hes Hin; simpl; [apply shrunk_refl|].
  apply NoDup_cons in Hes as [Hid Hes]. unfold close_stream at 1. destruct (String.eqb (x_sender x) n).
  - eapply shrunk_trans; [|apply IH]; simpl.
    + split; simpl; [by apply prefix_app_r|]. intros id'. rewrite get_delete by done.
      destruct (String.eqb_spec id id') as [<-|Hne]; [right|by left]. split; [done|].
      intros x'. rewrite (Hin id x) by left. intros [= <-]. set_solver.
    + by apply OMap.wf_delete.
    + done.
    + intros id' x' Hx'. rewrite OMap.get_delete_ne; [apply Hin; by right|].
      intros <-. apply Hid. apply (list_elem_of_fmap_2 fst) in Hx'. done.
  - apply IH; try done. intros id' x' Hx'. apply Hin. by right.
Qed.

(** The request phase *)
Lemma settle_fields p o m :
  pendingRequests (settle p o m) = pendingRequests m ∧ pendingReqStreams (settle p o m) = pendingReqStreams m ∧
  pendingResStreams (settle p o m) = pendingResStreams m ∧ nstreams (settle p o m) = nstreams m ∧
  log (settle p o m) = log m ∧ immediates (settle p o m) = immediates m.
Proof. unfold settle. by destruct (_ !! _) as [[]|]. Qed.

Lemma reject_request_fields e m :
  pendingRequests (reject_request n m e) =
    (if of_node e then OMap.delete e.1 (pendingRequests m) else pendingRequests m) ∧
  pendingReqStreams (reject_request n m e) =
    (if of_node e then OMap.delete e.1 (pendingReqStreams m) else pendingReqStreams m) ∧
  pendingResStreams (reject_request n m e) =
    (if of_node e then OMap.delete e.1 (pendingResStreams m) else pendingResStreams m) ∧
  promises (reject_request n m e) =
    (if of_node e
     then promises (settle (r_promise e.2) (Rejected (RequestRejectedError (r_action e.2) n)) m)
     else promises m) ∧
  nstreams (reject_request n m e) = nstreams m ∧ immediates (reject_request n m e) = immediates m.
Proof.
  destruct e as [id req]. unfold reject_request, of_node. simpl. destruct (r_nodeID req) as [i|]; [|done].
  destruct (String.eqb_spec i n) as [->|]; [|done].
  unfold deletePendingResStream, deletePendingReqStream.
  set (m1 := settle _ _ _). destruct (settle_fields (r_promise req) (Rejected (RequestRejectedError (r_action req) n))
    (set_requests (OMap.delete id (pendingRequests m)) m)) as (H1 & H2 & H3 & H4 & H5 & H6). fold m1 in H1, H2, H3, H4, H5, H6.
  assert (promises m1 = promises (settle (r_promise req) (Rejected (RequestRejectedError (r_action req) n)) m)) as H7.
  { unfold m1, settle. simpl. by destruct (promises m !! _) as [[]|]. }
  rewrite <- H7. destruct (OMap.get id (pendingReqStreams m1)); simpl; destruct (OMap.get id _); simpl;
    rewrite ?H1, ?H2, ?H3, ?H4, ?H6; done.
Qed.

Lemma reject_requests es m :
  let gone := OMap.keys (Arr.filter of_node es) in
  let m' := foldl (reject_request n) m es in
  pendingRequests m' = OMap.delete_all gone (pendingRequests m) ∧
  pendingReqStreams m' = OMap.delete_all gone (pendingReqStreams m) ∧
  pendingResStreams m' = OMap.delete_all gone (pendingResStreams m) ∧
  nstreams m' = nstreams m ∧ immediates m' = immediates m.
Proof.
  revert m. induction es as [|e es IH]; intros m; cbn [foldl]; [done|].
  destruct (IH (reject_request n m e)) as (H1 & H2 & H3 & H4 & H5).
  destruct (reject_request_fields e m) as (F1 & F2 & F3 & _ & F4 & F5).
  cbv zeta. rewrite H1, H2, H3, H4, H5, F1, F2, F3, F4, F5. simpl. destruct (of_node e); split_and!; reflexivity.
Qed.

Lemma settle_lookup p o m q :
  (q = p ∧ promises m !! p = Some None ∧ promises (settle p o m) !! q = Some (Some o)) ∨
  ((promises m !! q = Some None → q ≠ p) ∧ promises (settle p o m) !! q = promises m !! q).
Proof.
  unfold settle. destruct (promises m !! p) as [[|]|] eqn:Hp; simpl.
  - right. split; [|done]. intros Hq ->. congruence.
  - destruct (decide (q = p)) as [->|Hne].
    + left. split_and!; [done..|]. apply list_lookup_insert_eq. by eapply lookup_lt_Some.
    + right. split; [done|]. by apply list_lookup_insert_ne.
  - right. split; [|done]. intros Hq ->. congruence.
Qed.

Lemma reject_promises es m p :
  let m' := foldl (reject_request n) m es in
  (promises m' !! p = promises m !! p ∧
    (promises m !! p = Some None → ∀ id req, (id, req) ∈ es → r_promise req = p → r_nodeID req ≠ Some n)) ∨
  (promises m !! p = Some None ∧ ∃ id req, (id, req) ∈ es ∧ r_promise req = p ∧ r_nodeID req = Some n ∧
    promises m' !! p = Some (Some (Rejected (RequestRejectedError (r_action req) n)))).
Proof.
  revert m. induction es as [|[i r] es IH]; intros m; cbn [foldl].
  - left. split; [done|]. intros _ id req Hin. by apply not_elem_of_nil in Hin.
  - destruct (reject_request_fields (i, r) m) as (_ & _ & _ & Fp & _).
    assert (of_node (i, r) = true ↔ r_nodeID r = Some n) as Hof.
    { unfold of_node. simpl. destruct (r_nodeID r); [|done]. rewrite String.eqb_eq. naive_solver. }
    destruct (of_node (i, r)) eqn:Ho.
    + pose proof (proj1 Hof eq_refl) as Hn. cbn [snd] in Fp.
      pose proof (settle_lookup (r_promise r) (Rejected (RequestRejectedError (r_action r) n)) m p) as Hs.
      rewrite <- Fp in Hs. destruct Hs as [(-> & Hpend & Hs)|[Hne Hs]].
      * right. split; [done|]. exists i, r. split_and!; try done; [left|].
        destruct (IH (reject_request n m (i, r))) as [[-> _]|[Hx _]]; [done|]. rewrite Hs in Hx. done.
      * destruct (IH (reject_request n m (i, r))) as [[-> Hall]|(Hx & id & req & Hin & ? & ? & ?)]; rewrite Hs in *.
        -- left. split; [done|]. intros Hpend id req [[= -> ->]|Hin]%elem_of_cons Hp; [|by eapply Hall].
           by destruct (Hne Hpend).
        -- right. split; [done|]. exists id, req. split_and!; try done. by right.
    + destruct (IH (reject_request n m (i, r))) as [[-> Hall]|(Hx & id & req & Hin & ? & ? & ?)]; rewrite Fp in *.
      * left. split; [done|]. intros Hpend id req [[= -> ->]|Hin]%elem_of_cons Hp; [|by eapply Hall].
        intros Hn. apply Hof in Hn. done.
      * right. split; [done|]. exists id, req. split_and!; try done. by right.
Qed.

Lemma shrunk_delete {P} (g : t → OMap.t (stream P)) id m m' :
  OMap.wf (g m) → g m' = OMap.delete id (g m) → log m `prefix_of` log m' →
  (∀ x, OMap.get id (g m) = Some x → Destroyed (x_num x) n ∈ log m') → shrunk g m m'.
Proof.
  intros Hwf Hg Hl Hx. split; [done|]. intros id'. rewrite Hg, get_delete by done.
  destruct (String.eqb_spec id id') as [<-|]; [right|by left]. split; [done|apply Hx].
Qed.

Lemma reject_request_shrunk e m : OMap.wf (pendingReqStreams m) → OMap.wf (pendingResStreams m) →
  shrunk pendingReqStreams m (reject_request n m e) ∧ shrunk pendingResStreams m (reject_request n m e).
Proof.
  intros Hq Hs. destruct (reject_request_fields e m) as (_ & F2 & F3 & _).
  destruct (of_node e) eqn:Ho.
  - assert (log m `prefix_of` log (reject_request n m e) ∧
      (∀ x, OMap.get e.1 (pendingReqStreams m) = Some x → Destroyed (x_num x) n ∈ log (reject_request n m e)) ∧
      (∀ x, OMap.get e.1 (pendingResStreams m) = Some x → Destroyed (x_num x) n ∈ log (reject_request n m e)))
      as (Hl & Hdq & Hds); [|split; by eapply shrunk_delete].
    clear F2 F3. destruct e as [id req]. unfold of_node in Ho. unfold reject_request. simpl in *.
    destruct (r_nodeID req) as [i|]; [|done]. rewrite Ho. unfold deletePendingResStream, deletePendingReqStream.
    set (m1 := settle _ _ _).
    destruct (settle_fields (r_promise req) (Rejected (RequestRejectedError (r_action req) i))
      (set_requests (OMap.delete id (pendingRequests m)) m)) as (_ & H2 & H3 & _ & H5 & _). fold m1 in H2, H3, H5.
    simpl in H2, H3, H5. rewrite H2. destruct (OMap.get id (pendingReqStreams m)); simpl; rewrite H3;
      destruct (OMap.get id (pendingResStreams m)); simpl; rewrite H5; split_and!; try (intros ? [= <-]);
      try done; try set_solver; try (rewrite <- app_assoc); by apply prefix_app_r.
  - assert (reject_request n m e = m) as ->; [|split; apply shrunk_refl].
    clear F2 F3. destruct e as [id req]. unfold of_node in Ho. unfold reject_request. simpl in *.
    destruct (r_nodeID req); [by rewrite Ho|done].
Qed.

Lemma reject_requests_shrunk es m : OMap.wf (pendingReqStreams m) → OMap.wf (pendingResStreams m) →
  shrunk pendingReqStreams m (foldl (reject_request n) m es) ∧
  shrunk pendingResStreams m (foldl (reject_request n) m es).
Proof.
  revert m. induction es as [|e es IH]; intros m Hq Hs; cbn [foldl]; [split; apply shrunk_refl|].
  destruct (reject_request_shrunk e m Hq Hs) as [H1 H2].
  destruct (reject_request_fields e m) as (_ & F2 & F3 & _).
  destruct (IH (reject_request n m e)) as [H3 H4].
  - rewrite F2. destruct (of_node e); auto with moleculer.
  - rewrite F3. destruct (of_node e); auto with moleculer.
  - split; by eapply shrunk_trans.
Qed.

Lemma get_delete_all {V} ks id (m : OMap.t V) : OMap.wf m →
  OMap.get id (OMap.delete_all ks m) = if existsb (String.eqb id) ks then None else OMap.get id m.
Proof.
  unfold OMap.delete_all. revert m. induction ks as [|k ks IH]; intros m Hm; simpl; [done|].
  rewrite IH by auto with moleculer. rewrite get_delete, (String.eqb_sym k id) by done.
  destruct (String.eqb id k), (existsb _ ks); done.
Qed.

(** The ids of the entries that [p] picks *)
Lemma picked {V} (p : string * V → bool) id (m : OMap.t V) : OMap.wf m →
  existsb (String.eqb id) (OMap.keys (Arr.filter p m)) =
  match OMap.get id m with Some v => p (id, v) | None => false end.
Proof.
  intros Hm. apply eq_bool_prop_intro. rewrite !Is_true_true, existsb_exists.
  setoid_rewrite String.eqb_eq. setoid_rewrite <- list_elem_of_In. split.
  - intros (id' & Hin & <-). apply list_elem_of_fmap in Hin as ([j v] & -> & Hin).
    apply Arr.elem_of_filter in Hin as [Hin Hp]. simpl. by rewrite (OMap.elem_get j v m Hm Hin).
  - destruct (OMap.get id m) as [v|] eqn:Hg; [|done]. intros Hp. exists id. split; [|done].
    apply (list_elem_of_fmap_2' fst _ (id, v)); [|done]. apply Arr.elem_of_filter. split; [|done].
    by apply OMap.get_Some_elem.
Qed.

End removal.

(** What is left of the tables after [removePendingRequestByNodeID] *)
Section removed.
Context (n : string) (m : t).
Context (Wr : OMap.wf (pendingRequests m)) (Wq : OMap.wf (pendingReqStreams m)) (Ws : OMap.wf (pendingResStreams m)).

Definition gone (id : string) : bool :=
  match OMap.get id (pendingRequests m) with
  | Some req => match r_nodeID req with Some i => String.eqb i n | None => false end
  | None => false
  end.

Let m1 := foldl (close_stream n) m (pendingReqStreams m).

Lemma removed_eq : removePendingRequestByNodeID n m = foldl (reject_request n) m1 (pendingRequests m).
Proof.
  unfold removePendingRequestByNodeID. fold m1.
  destruct (close_streams n (pendingReqStreams m) m) as (_ & _ & H3 & _). fold m1 in H3. by rewrite H3.
Qed.

Lemma removed_requests id :
  OMap.get id (pendingRequests (removePendingRequestByNodeID n m)) =
  if gone id then None else OMap.get id (pendingRequests m).
Proof.
  rewrite removed_eq. destruct (reject_requests n (pendingRequests m) m1) as (H1 & _).
  destruct (close_streams n (pendingReqStreams m) m) as (_ & _ & H3 & _). fold m1 in H3.
  rewrite H1, H3, get_delete_all, picked by done. reflexivity.
Qed.

Lemma removed_reqStreams id :
  OMap.get id (pendingReqStreams (removePendingRequestByNodeID n m)) =
  if gone id then None
  else match OMap.get id (pendingReqStreams m) with
       | Some x => if String.eqb (x_sender x) n then None else Some x
       | None => None
       end.
Proof.
  rewrite removed_eq. destruct (reject_requests n (pendingRequests m) m1) as (_ & H2 & _).
  destruct (close_streams n (pendingReqStreams m) m) as (H3 & _). fold m1 in H3.
  rewrite H2, H3, !get_delete_all, !picked by auto using OMap.wf_delete_all.
  unfold gone, of_node, from_node. simpl.
  assert ((if match OMap.get id (pendingReqStreams m) with Some v => String.eqb (x_sender v) n | None => false end
           then None else OMap.get id (pendingReqStreams m)) =
    match OMap.get id (pendingReqStreams m) with
    | Some x => if String.eqb (x_sender x) n then None else Some x
    | None => None
    end) as -> by (by destruct (OMap.get id (pendingReqStreams m))).
  by destruct (OMap.get id (pendingRequests m)).
Qed.

Lemma removed_resStreams id :
  OMap.get id (pendingResStreams (removePendingRequestByNodeID n m)) =
  if gone id then None else OMap.get id (pendingResStreams m).
Proof.
  rewrite removed_eq. destruct (reject_requests n (pendingRequests m) m1) as (_ & _ & H2 & _).
  destruct (close_streams n (pendingReqStreams m) m) as (_ & H3 & _). fold m1 in H3.
  rewrite H2, H3, get_delete_all, picked by done. reflexivity.
Qed.

Lemma removed_promises p :
  let m' := removePendingRequestByNodeID n m in
  (promises m' !! p = promises m !! p ∧
    (promises m !! p = Some None → ∀ id req, OMap.get id (pendingRequests m) = Some req →
       r_promise req = p → r_nodeID req ≠ Some n)) ∨
  (promises m !! p = Some None ∧ ∃ id req, OMap.get id (pendingRequests m) = Some req ∧ r_promise req = p ∧
    r_nodeID req = Some n ∧ promises m' !! p = Some (Some (Rejected (RequestRejectedError (r_action req) n)))).
Proof.
  cbv zeta. rewrite removed_eq.
  destruct (close_streams n (pendingReqStreams m) m) as (_ & _ & _ & H4 & _). fold m1 in H4.
  destruct (reject_promises n (pendingRequests m) m1 p) as [[E H]|(E & id & req & Hin & Hp & Hn & Ho)];
    rewrite H4 in *.
  - left. split; [done|]. intros Hpend id req Hg. apply (H Hpend id). by apply OMap.get_Some_elem.
  - right. split; [done|]. exists id, req. split_and!; try done. by apply OMap.elem_get.
Qed.

Lemma removed_shrunk :
  shrunk n pendingReqStreams m (removePendingRequestByNodeID n m) ∧
  shrunk n pendingResStreams m (removePendingRequestByNodeID n m).
Proof.
  rewrite removed_eq.
  assert (shrunk n pendingReqStreams m m1) as H1.
  { apply close_streams_shrunk; [done..|]. intros. by apply OMap.elem_get. }
  destruct (close_streams n (pendingReqStreams m) m) as (E1 & E2 & _). fold m1 in E1, E2.
  destruct (reject_requests_shrunk n (pendingRequests m) m1) as [H3 H4].
  - rewrite E1. by apply OMap.wf_delete_all.
  - by rewrite E2.
  - split; [by eapply shrunk_trans|]. destruct H4 as [Hl H4]. split.
    + etrans; [apply H1|done].
    + intros id. rewrite <- E2. apply H4.
Qed.

Lemma removed_wf :
  let m' := removePendingRequestByNodeID n m in
  OMap.wf (pendingRequests m') ∧ OMap.wf (pendingReqStreams m') ∧ OMap.wf (pendingResStreams m') ∧
  nstreams m' = nstreams m ∧ (length (pendingRequests m') <= length (pendingRequests m))%nat.
Proof.
  cbv zeta. rewrite removed_eq. destruct (reject_requests n (pendingRequests m) m1) as (H1 & H2 & H3 & H4 & _).
  destruct (close_streams n (pendingReqStreams m) m) as (E1 & E2 & E3 & _ & E5 & _). fold m1 in E1, E2, E3, E5.
  rewrite H1, H2, H3, H4, E1, E2, E3, E5. split_and!; auto using OMap.wf_delete_all.
  generalize (OMap.keys (Arr.filter (of_node n) (pendingRequests m))). intros ks.
  unfold OMap.delete_all. generalize (pendingRequests m).
  induction ks as [|k ks IH]; intros l; simpl; [done|]. etrans; [apply IH|].
  pose proof (sublist_length _ _ (OMap.delete_sublist k l)) as Hl. unfold OMap.keys in Hl.
  by rewrite !length_map in Hl.
Qed.
End removed.

(** ** The tables *)

Record tables (m : t) : Prop := {
  tb_requests : OMap.wf (pendingRequests m);
  tb_reqStreams : OMap.wf (pendingReqStreams m);
  tb_resStreams : OMap.wf (pendingResStreams m);
  tb_bound : 0 < maxQueueSize m → Z.of_nat (length (pendingRequests m)) <= maxQueueSize m;
  tb_promise id req : OMap.get id (pendingRequests m) = Some req → (r_promise req < length (promises m))%nat;
  tb_inj i j r1 r2 : OMap.get i (pendingRequests m) = Some r1 → OMap.get j (pendingRequests m) = Some r2 →
    r_promise r1 = r_promise r2 → i = j;
  (* a response stream belongs to a request, which is resolved once the stream has begun *)
  tb_answer id x : OMap.get id (pendingResStreams m) = Some x → ∃ req,
    OMap.get id (pendingRequests m) = Some req ∧
    (0 <= Streams.prevSeq (x_state x) → ∃ o, promises m !! r_promise req = Some (Some o));
  (* every stream has a number of its own *)
  tb_num id x : OMap.get id (pendingReqStreams m) = Some x → (x_num x < nstreams m)%nat;
  tb_num' id x : OMap.get id (pendingResStreams m) = Some x → (x_num x < nstreams m)%nat;
  tb_uniq i j x y : OMap.get i (pendingReqStreams m) = Some x → OMap.get j (pendingReqStreams m) = Some y →
    x_num x = x_num y → i = j;
  tb_uniq' i j x y : OMap.get i (pendingResStreams m) = Some x → OMap.get j (pendingResStreams m) = Some y →
    x_num x = x_num y → i = j;
  tb_apart i j x y : OMap.get i (pendingReqStreams m) = Some x → OMap.get j (pendingResStreams m) = Some y →
    x_num x ≠ x_num y
}.

(** What the tables are made of *)
Definition core (m : t) :=
  (maxQueueSize m, pendingRequests m, pendingReqStreams m, pendingResStreams m, promises m, nstreams m).

Lemma tables_core m m' : core m' = core m → tables m → tables m'.
Proof.
  unfold core. intros [= E1 E2 E3 E4 E5 E6] [].
  constructor; intros; rewrite ?E1, ?E2, ?E3, ?E4, ?E5, ?E6 in *; eauto.
Qed.

(** Promises are settled once. *)
Definition settled (m : t) (p : nat) : Prop := ∃ o, promises m !! p = Some (Some o).

Record mono (m m' : t) : Prop := {
  mono_len : (length (promises m) <= length (promises m'))%nat;
  mono_settled p o : promises m !! p = Some (Some o) → promises m' !! p = Some (Some o)
}.

#[export] Instance mono_preorder : PreOrder mono.
Proof.
  split; [intros m; by constructor|]. intros m1 m2 m3 [] []. constructor; [lia|eauto].
Qed.

Lemma mono_core m m' : core m' = core m → mono m m'.
Proof. unfold core. intros [= _ _ _ _ E _]. constructor; rewrite E; auto. Qed.

(** Tables that only lost entries *)
Lemma tables_shrink m m' :
  tables m → maxQueueSize m' = maxQueueSize m → nstreams m' = nstreams m →
  length (promises m') = length (promises m) → mono m m' →
  OMap.wf (pendingRequests m') → OMap.wf (pendingReqStreams m') → OMap.wf (pendingResStreams m') →
  (length (pendingRequests m') <= length (pendingRequests m))%nat →
  (∀ id req, OMap.get id (pendingRequests m') = Some req → OMap.get id (pendingRequests m) = Some req) →
  (∀ id x, OMap.get id (pendingReqStreams m') = Some x → OMap.get id (pendingReqStreams m) = Some x) →
  (∀ id x, OMap.get id (pendingResStreams m') = Some x → OMap.get id (pendingResStreams m) = Some x ∧
     OMap.get id (pendingRequests m') = OMap.get id (pendingRequests m)) →
  tables m'.
Proof.
  intros [] Em En Ep [_ Hmono] ? ? ? Hlen Hr Hq Hs. constructor; try done; rewrite ?Em, ?En, ?Ep.
  - intros Hm. specialize (tb_bound0 Hm). lia.
  - eauto.
  - eauto.
  - intros id x Hx. apply Hs in Hx as [Hx ->]. destruct (tb_answer0 id x Hx) as (req & ? & Hp).
    exists req. split; [done|]. intros Hle. destruct (Hp Hle) as [o Ho]. exists o. by apply Hmono.
  - eauto.
  - intros id x Hx. apply Hs in Hx as [? _]. eauto.
  - eauto.
  - intros i j x y Hx%Hs Hy%Hs. destruct Hx, Hy. eauto.
  - intros i j x y Hx%Hq Hy%Hs. destruct Hy. eauto.
Qed.

Lemma settle_mono p o m : mono m (settle p o m).
Proof.
  constructor.
  - unfold settle. destruct (_ !! _) as [[]|]; simpl; [done| |done]. by rewrite length_insert.
  - intros q o' Hq. destruct (settle_lookup p o m q) as [(-> & Hp & _)|[_ ->]]; [congruence|done].
Qed.

Lemma settle_length p o m : length (promises (settle p o m)) = length (promises m).
Proof. unfold settle. destruct (_ !! _) as [[]|]; simpl; [done| |done]. by rewrite length_insert. Qed.

Lemma settle_settled p o m : (p < length (promises m))%nat → settled (settle p o m) p.
Proof.
  intros Hp. destruct (lookup_lt_is_Some_2 _ _ Hp) as [v Hv].
  destruct (settle_lookup p o m p) as [(_ & _ & E)|[Hne E]]; unfold settled; rewrite E; [eauto|].
  destruct v as [v|]; [eauto|]. by destruct (Hne Hv).
Qed.

Lemma settle_max p o m : maxQueueSize (settle p o m) = maxQueueSize m.
Proof. unfold settle. by destruct (_ !! _) as [[]|]. Qed.

Lemma settle_tables p o m : tables m → tables (settle p o m).
Proof.
  intros Hm. destruct (settle_fields p o m) as (E1 & E2 & E3 & E4 & _). pose proof Hm as [].
  apply (tables_shrink m); rewrite ?E1, ?E2, ?E3; try done.
  - apply settle_max.
  - apply settle_length.
  - apply settle_mono.
Qed.

(** ** The fate of requests *)

(** Each pending request that [p] does not exempt is still pending or settled. *)
Record fate (exempt : option string) (m m' : t) : Prop := {
  fate_mono : mono m m';
  fate_kept id req : OMap.get id (pendingRequests m) = Some req → exempt ≠ Some id →
    (∃ req', OMap.get id (pendingRequests m') = Some req' ∧ r_promise req' = r_promise req ∧
       r_nodeID req' = r_nodeID req) ∨
    settled m' (r_promise req)
}.

#[export] Instance fate_refl x : Reflexive (fate x).
Proof. intros m. split; [done|]. eauto. Qed.

#[export] Instance fate_trans x : Transitive (fate x).
Proof.
  intros m1 m2 m3 [M12 K12] [M23 K23]. split; [by etrans|]. intros id req Hr Hx.
  destruct (K12 id req Hr Hx) as [(r2 & H2 & E2 & N2)|[o Ho]]; [|right; exists o; by apply M23].
  rewrite <- E2, <- N2. by apply K23.
Qed.

Lemma fate_weaken x m m' : fate None m m' → fate x m m'.
Proof. intros [Hm Hk]. split; [done|]. intros id req Hr _. by apply Hk. Qed.

Lemma fate_core x m m' : core m' = core m → fate x m m'.
Proof.
  intros E. split; [by apply mono_core|]. unfold core in E. injection E as _ E _ _ _ _.
  intros id req Hr _. left. rewrite E. eauto.
Qed.

Lemma settle_fate x p o m : fate x m (settle p o m).
Proof.
  split; [apply settle_mono|]. destruct (settle_fields p o m) as (E & _). intros id req Hr _. left. rewrite E. eauto.
Qed.

(** *** Removing keeps the tables in order *)

Lemma get_delete_Some {V} k i (m : OMap.t V) v :
  OMap.wf m → OMap.get i (OMap.delete k m) = Some v → OMap.get i m = Some v ∧ k ≠ i.
Proof. intros Hm. rewrite get_delete by done. destruct (String.eqb_spec k i); naive_solver. Qed.

Lemma length_delete_le {V} k (m : OMap.t V) : (length (OMap.delete k m) <= length m)%nat.
Proof.
  pose proof (sublist_length _ _ (OMap.delete_sublist k m)) as Hl. unfold OMap.keys in Hl. by rewrite !length_map in Hl.
Qed.

Lemma removePendingRequest_tables id m : tables m → tables (removePendingRequest id m).
Proof.
  intros Hm. pose proof Hm as []. apply (tables_shrink m); simpl; auto with moleculer; try done.
  - apply length_delete_le.
  - intros i req Hr. by apply get_delete_Some in Hr as [? _].
  - intros i x Hx. by apply get_delete_Some in Hx as [? _].
  - intros i x Hx. apply get_delete_Some in Hx as [? ?]; [|done]. split; [done|]. by apply OMap.get_delete_ne.
Qed.

Lemma removePendingRequest_fate id m : fate (Some id) m (removePendingRequest id m).
Proof.
  split; [by constructor|]. intros i req Hr Hne. left. exists req. split; [|done]. simpl.
  rewrite OMap.get_delete_ne; [done|]. congruence.
Qed.

(** The request was settled before it goes. *)
Lemma fate_settled x id m m' :
  fate (Some id) m m' → (∀ req, OMap.get id (pendingRequests m) = Some req → settled m' (r_promise req)) → fate x m m'.
Proof.
  intros [Hmono Hk] Hs. split; [done|]. intros i req Hr _.
  destruct (decide (i = id)) as [->|Hne]; [right; eauto|]. apply Hk; [done|congruence].
Qed.

Lemma reject_request_promises n e m :
  mono m (reject_request n m e) ∧ length (promises (reject_request n m e)) = length (promises m) ∧
  maxQueueSize (reject_request n m e) = maxQueueSize m.
Proof.
  destruct (reject_request_fields n e m) as (_ & _ & _ & E & _). split_and!.
  - constructor; rewrite E; (destruct (of_node n e); [apply settle_mono|done]).
  - rewrite E. destruct (of_node n e); [apply settle_length|done].
  - destruct e as [id req]. unfold reject_request. destruct (r_nodeID req); [|done].
    destruct (String.eqb _ n); [|done]. unfold deletePendingResStream, deletePendingReqStream.
    destruct (OMap.get id _); simpl; destruct (OMap.get id _); simpl; by rewrite settle_max.
Qed.

Lemma removed_mono n m :
  mono m (removePendingRequestByNodeID n m) ∧
  length (promises (removePendingRequestByNodeID n m)) = length (promises m) ∧
  maxQueueSize (removePendingRequestByNodeID n m) = maxQueueSize m.
Proof.
  unfold removePendingRequestByNodeID. set (m1 := foldl (close_stream n) m (pendingReqStreams m)).
  destruct (close_streams n (pendingReqStreams m) m) as (_ & _ & _ & E & _). fold m1 in E.
  assert (maxQueueSize m1 = maxQueueSize m) as Em.
  { unfold m1. apply (foldl_invariant (λ m', maxQueueSize m' = maxQueueSize m)); [done|].
    intros m' [i x] _ <-. unfold close_stream. by destruct (String.eqb _ n). }
  rewrite <- E, <- Em. assert (mono m m1) as H1 by (constructor; rewrite E; auto). clearbody m1.
  assert (mono m1 (foldl (reject_request n) m1 (pendingRequests m1)) ∧
    length (promises (foldl (reject_request n) m1 (pendingRequests m1))) = length (promises m1) ∧
    maxQueueSize (foldl (reject_request n) m1 (pendingRequests m1)) = maxQueueSize m1) as (H2 & H3 & H4).
  { apply (foldl_invariant (λ m', mono m1 m' ∧ length (promises m') = length (promises m1) ∧
      maxQueueSize m' = maxQueueSize m1)); [done|].
    intros m' e _ (M & L & Q). destruct (reject_request_promises n e m') as (? & -> & ->).
    split_and!; [by etrans|done..]. }
  split_and!; [by etrans|done..].
Qed.

Lemma removed_tables n m : tables m → tables (removePendingRequestByNodeID n m).
Proof.
  intros Hm. pose proof Hm as []. destruct (removed_wf n m tb_requests0 tb_reqStreams0 tb_resStreams0)
    as (W1 & W2 & W3 & En & Hlen). destruct (removed_mono n m) as (Hmono & Hl & Hmax).
  apply (tables_shrink m); try done.
  - intros i req. rewrite removed_requests by done. by destruct (gone n m i).
  - intros i x. rewrite removed_reqStreams by done. destruct (gone n m i); [done|].
    destruct (OMap.get i (pendingReqStreams m)); [|done]. by destruct (String.eqb _ n).
  - intros i x. rewrite removed_resStreams, removed_requests by done. by destruct (gone n m i).
Qed.

Lemma removed_fate x n m : tables m → fate x m (removePendingRequestByNodeID n m).
Proof.
  intros Hm. pose proof Hm as []. destruct (removed_mono n m) as (Hmono & _). split; [done|].
  intros id req Hr _. destruct (gone n m id) eqn:Hg.
  - right. destruct (lookup_lt_is_Some_2 _ _ (tb_promise0 id req Hr)) as [[o|] Hv].
    + exists o. by apply Hmono.
    + destruct (removed_promises n m tb_requests0 (r_promise req)) as [[_ Hno]|(_ & i & r & _ & _ & _ & ?)];
        [|eexists; done].
      exfalso. apply (Hno Hv id req Hr eq_refl). unfold gone in Hg. rewrite Hr in Hg.
      destruct (r_nodeID req); [|done]. to_prop. by subst.
  - left. exists req. split; [|done]. rewrite removed_requests by done. by rewrite Hg.
Qed.

(** *** Streams enter the tables *)

Lemma put_resStream id num st from m req :
  tables m → OMap.get id (pendingRequests m) = Some req →
  (0 <= Streams.prevSeq st → settled m (r_promise req)) → (num < nstreams m)%nat →
  (∀ j y, OMap.get j (pendingReqStreams m) = Some y → x_num y ≠ num) →
  (∀ j y, OMap.get j (pendingResStreams m) = Some y → x_num y = num → j = id) →
  tables (set_resStreams (OMap.set id (Stream num st from) (pendingResStreams m)) m).
Proof.
  intros [] Hreq Hprev Hnum Hq Hs.
  assert (∀ j y, OMap.get j (OMap.set id (Stream num st from) (pendingResStreams m)) = Some y →
    (j = id ∧ y = Stream num st from) ∨ (j ≠ id ∧ OMap.get j (pendingResStreams m) = Some y)) as Hget.
  { intros j y. destruct (decide (j = id)) as [->|]; [rewrite OMap.get_set_eq|rewrite OMap.get_set_ne by done]; naive_solver. }
  constructor; simpl; auto with moleculer.
  - intros j y [[-> ->]|[_ Hy]]%Hget; eauto.
  - intros j y [[-> ->]|[_ Hy]]%Hget; eauto.
  - intros i j x y [[-> ->]|[? Hx]]%Hget [[-> ->]|[? Hy]]%Hget E; simpl in *; eauto. by symmetry; eauto.
  - intros i j x y Hx [[-> ->]|[_ Hy]]%Hget; simpl; eauto.
Qed.

Lemma put_reqStream id num st from m :
  tables m → (num < nstreams m)%nat →
  (∀ j y, OMap.get j (pendingResStreams m) = Some y → x_num y ≠ num) →
  (∀ j y, OMap.get j (pendingReqStreams m) = Some y → x_num y = num → j = id) →
  tables (set_reqStreams (OMap.set id (Stream num st from) (pendingReqStreams m)) m).
Proof.
  intros [] Hnum Hs Hq.
  assert (∀ j y, OMap.get j (OMap.set id (Stream num st from) (pendingReqStreams m)) = Some y →
    (j = id ∧ y = Stream num st from) ∨ (j ≠ id ∧ OMap.get j (pendingReqStreams m) = Some y)) as Hget.
  { intros j y. destruct (decide (j = id)) as [->|]; [rewrite OMap.get_set_eq|rewrite OMap.get_set_ne by done]; naive_solver. }
  constructor; simpl; auto with moleculer.
  - intros j y [[-> ->]|[_ Hy]]%Hget; eauto.
  - intros i j x y [[-> ->]|[? Hx]]%Hget [[-> ->]|[? Hy]]%Hget E; simpl in *; eauto. by symmetry; eauto.
  - intros i j x y [[-> ->]|[_ Hx]]%Hget Hy; simpl; [|eauto]. intros E. by eapply Hs.
Qed.

Lemma next_stream_tables m : tables m → tables (set_nstreams (nstreams m + 1) m).
Proof. intros []. constructor; simpl; eauto; intros; [enough (x_num x < nstreams m)%nat by lia|
  enough (x_num x < nstreams m)%nat by lia]; eauto. Qed.

(** The shape of what the stream functions answer *)
Lemma process_shape {R} (s : Streams.rstream R) p e told next v :
  Streams.process s p = (e, told, next, v) →
  v ≠ Streams.NotStream ∧
  (∀ s', e = Some s' → 0 <= Streams.prevSeq s' → 0 <= Streams.prevSeq s ∨ v = Streams.Open) ∧
  (e = None → 0 <= Streams.prevSeq s).
Proof.
  unfold Streams.process. destruct (_ <? _) eqn:Hlt; to_prop.
  - intros [= <- <- <- <-]. split_and!; try done. intros s' [= <-]. simpl. auto.
  - destruct (_ && _) eqn:Hend; to_prop.
    + intros [= <- <- <- <-]. split_and!; [by destruct (_ =? 0)|done|]. simpl in *. lia.
    + destruct (Streams.pool _ !! _); intros [= <- <- <- <-];
        (split_and!; [by destruct (_ =? 0)| |done]); intros s' [= <-]; simpl;
        (destruct (Streams.p_seq p =? 0) eqn:E0; [by right|left; to_prop; lia]).
Qed.

(** *** Responses *)

(** Writing back the context of a request *)
Definition touched (m : t) (id : string) (req : request) : t :=
  set_requests (OMap.set id req (pendingRequests m)) m.

Lemma length_set_in {V} k (v w : V) m : OMap.get k m = Some w → length (OMap.set k v m) = length m.
Proof.
  intros Hk. assert (OMap.keys (OMap.set k v m) = OMap.keys m) as E.
  { apply OMap.keys_set_in. destruct (decide (k ∈ OMap.keys m)) as [|Hn]; [done|].
    apply OMap.get_None_keys in Hn. congruence. }
  apply (f_equal length) in E. unfold OMap.keys in E. by rewrite !length_map in E.
Qed.

Lemma touched_tables m id req req' : tables m → OMap.get id (pendingRequests m) = Some req →
  r_promise req' = r_promise req → tables (touched m id req').
Proof.
  intros [] Hr Hp.
  assert (∀ j y, OMap.get j (OMap.set id req' (pendingRequests m)) = Some y →
    ∃ y', OMap.get j (pendingRequests m) = Some y' ∧ r_promise y' = r_promise y) as Hget.
  { intros j y. destruct (decide (j = id)) as [->|]; [rewrite OMap.get_set_eq|rewrite OMap.get_set_ne by done];
      naive_solver. }
  constructor; simpl; auto with moleculer.
  - by rewrite (length_set_in _ _ req).
  - intros j y (y' & ? & <-)%Hget. eauto.
  - intros i j r1 r2 (y1 & ? & <-)%Hget (y2 & ? & <-)%Hget. eauto.
  - intros j x Hx. destruct (tb_answer0 j x Hx) as (r & Hr' & Hs). destruct (decide (j = id)) as [->|Hne].
    + rewrite OMap.get_set_eq. exists req'. split; [done|]. rewrite Hp. by simplify_eq.
    + rewrite OMap.get_set_ne by done. eauto.
Qed.

Lemma touched_fate x m id req req' : OMap.get id (pendingRequests m) = Some req →
  r_promise req' = r_promise req → r_nodeID req' = r_nodeID req → fate x m (touched m id req').
Proof.
  intros Hr Hp Hn. split; [by constructor|]. intros j y Hy _. left. simpl.
  destruct (decide (j = id)) as [->|Hne]; [rewrite OMap.get_set_eq|rewrite OMap.get_set_ne by done; eauto].
  simplify_eq. eauto.
Qed.

(** One packet of a response stream *)
Lemma response_stream_step s req m handled m' :
  tables m → OMap.get (s_id s) (pendingRequests m) = Some req →
  handleIncomingResponseStream s req m = (handled, m') →
  tables m' ∧ fate None m m' ∧ (handled = false → m' = m).
Proof.
  intros Hm Hreq. unfold handleIncomingResponseStream.
  set (entry := OMap.get (s_id s) (pendingResStreams m)).
  destruct (Streams.handleIncomingResponseStream (option_map x_state entry) (response_packet s)) as [[[e told] next] v] eqn:Hh.
  destruct (decide (v = Streams.NotStream)) as [->|Hv]; [intros [= <- <-]; split_and!; [done|reflexivity|done]|].
  assert ((∀ st, e = Some st → 0 <= Streams.prevSeq st → (∃ x, entry = Some x ∧ 0 <= Streams.prevSeq (x_state x)) ∨ v = Streams.Open) ∧
    (e = None → ∃ x, entry = Some x ∧ 0 <= Streams.prevSeq (x_state x))) as [Hsome Hnone].
  { unfold Streams.handleIncomingResponseStream in Hh. destruct entry as [x|]; simpl in Hh.
    - apply process_shape in Hh as (_ & H1 & H2). split; [|eauto].
      intros st He Hp. destruct (H1 st He Hp); eauto.
    - destruct (_ && _); [by injection Hh as _ _ _ <-|]. apply process_shape in Hh as (_ & H1 & H2). simpl in H1, H2.
      split; [|intros He; specialize (H2 He); lia]. intros st He Hp. destruct (H1 st He Hp); [lia|by right]. }
  set (num := match entry with Some x => x_num x | None => nstreams m end).
  set (ma := match entry with Some _ => m | None => set_nstreams (nstreams m + 1) m end).
  assert (tables ma ∧ fate None m ma ∧ pendingRequests ma = pendingRequests m ∧
    promises ma = promises m ∧ (num < nstreams ma)%nat ∧
    (∀ j y, OMap.get j (pendingReqStreams ma) = Some y → x_num y ≠ num) ∧
    (∀ j y, OMap.get j (pendingResStreams ma) = Some y → x_num y = num → j = s_id s)) as (Ha & Fa & Ea & Pa & Hn & Hq & Hs).
  { unfold ma, num. destruct entry as [x|] eqn:He.
    - pose proof Hm as []. split_and!; try done; [eauto|eauto|]. intros j y Hy E. by eapply tb_uniq'0.
    - split_and!; try done; simpl; [by apply next_stream_tables|split; [by constructor|eauto]|lia|..];
        intros j y Hy; pose proof Hm as []; [apply tb_num0 in Hy|apply tb_num'0 in Hy]; lia. }
  set (mb := match v with Streams.Open => settle (r_promise req) (ResolvedStream num) ma | _ => ma end).
  assert (tables mb ∧ fate None ma mb ∧ pendingRequests mb = pendingRequests ma ∧
    pendingReqStreams mb = pendingReqStreams ma ∧ pendingResStreams mb = pendingResStreams ma ∧
    nstreams mb = nstreams ma ∧ (v = Streams.Open → settled mb (r_promise req))) as (Hb & Fb & Eb & Qb & Sb & Nb & Ob).
  { unfold mb. destruct v; [done|split_and!; done|].
    destruct (settle_fields (r_promise req) (ResolvedStream num) ma) as (H1 & H2 & H3 & H4 & _).
    split_and!; try done; [by apply settle_tables|apply settle_fate|]. intros _. apply settle_settled.
    rewrite Pa. pose proof Hm as []. eauto. }
  set (mc := match told with [] => mb | _ => emit (Told num told) mb end).
  assert (core mc = core mb) as Hc by (unfold mc; by destruct told).
  assert (tables mc ∧ fate None m mc) as [Htc Hfc].
  { split; [by eapply tables_core|]. etrans; [exact Fa|]. etrans; [exact Fb|]. by apply fate_core. }
  assert (∀ x, entry = Some x → 0 <= Streams.prevSeq (x_state x) → settled mc (r_promise req)) as Hold.
  { intros x He Hp. pose proof Hm as []. destruct (tb_answer0 _ _ He) as (r & Hr & Ho). simplify_eq.
    destruct (Ho Hp) as [o Hpo]. exists o. by apply Hfc. }
  unfold core in Hc. injection Hc as _ Ec1 Ec2 Ec3 Ec4 Ec5.
  set (md := match e with
             | Some st => set_resStreams (OMap.set (s_id s) (Stream num st (s_sender s)) (pendingResStreams mc)) mc
             | None => removePendingRequest (s_id s) mc
             end).
  assert (tables md ∧ fate None mc md) as [Htd Hfd].
  { unfold md. destruct e as [st|].
    - split; [|split; [by constructor|eauto]]. apply (put_resStream _ _ _ _ _ req); rewrite ?Ec1, ?Ec2, ?Ec3, ?Ec5,
        ?Eb, ?Qb, ?Sb, ?Nb, ?Ea; try done.
      intros Hp. destruct (Hsome st eq_refl Hp) as [(x & Hx & Hpx)|Ho]; [by eapply Hold|].
      unfold settled. rewrite Ec4. by apply Ob.
    - split; [by apply removePendingRequest_tables|]. apply (fate_settled _ (s_id s)); [apply removePendingRequest_fate|].
      intros r. rewrite Ec1, Eb, Ea, Hreq. intros [= <-]. destruct (Hnone eq_refl) as (x & Hx & Hpx).
      by apply (Hold x). }
  destruct v; [done|..]; intros [= <- <-]; (split_and!; [| |done]); destruct next; try done;
    try (by eapply tables_core; [|exact Htd]); try (by etrans; [exact Hfc|]);
    (etrans; [exact Hfc|]; etrans; [exact Hfd|]; by apply fate_core).
Qed.

Section handlers.
Context (restore : json → response_payload → option error).

(** The request of a response whose error cannot be restored is dropped. *)
Definition dropped (s : response_payload) (m : t) : option string :=
  if (responseHandler restore s m).1 then None else Some (s_id s).

Lemma responseHandler_step s m : tables m →
  tables (responseHandler restore s m).2 ∧ fate (dropped s m) m (responseHandler restore s m).2.
Proof.
  intros Hm. unfold dropped, responseHandler. destruct (OMap.get (s_id s) (pendingRequests m)) as [req|] eqn:Hreq.
  2: { split; [by apply (tables_core m)|by apply fate_core]. }
  set (req' := Request _ _ _ _ _). fold (touched m (s_id s) req'). set (m1 := touched m (s_id s) req').
  assert (tables m1) as H1 by (by apply (touched_tables m _ req)).
  assert (fate None m m1) as F1 by (by apply (touched_fate _ m _ req)).
  assert (OMap.get (s_id s) (pendingRequests m1) = Some req') as Hr1 by (apply OMap.get_set_eq).
  assert (∃ handled m2, (match s_stream s with Some _ => handleIncomingResponseStream s req' m1
      | None => (false, m1) end) = (handled, m2) ∧ tables m2 ∧ fate None m1 m2 ∧ (handled = false → m2 = m1))
    as (handled & m2 & -> & H2 & F2 & E2).
  { destruct (s_stream s); [|exists false, m1; split_and!; try done; reflexivity].
    destruct (handleIncomingResponseStream s req' m1) as [handled m2] eqn:Hh. exists handled, m2. split; [done|].
    by eapply response_stream_step. }
  destruct handled; [split; [done|by etrans]|]. rewrite (E2 eq_refl).
  assert (tables (removePendingRequest (s_id s) m1)) as H3 by (by apply removePendingRequest_tables).
  assert (∀ o, tables (settle (r_promise req') o (removePendingRequest (s_id s) m1)) ∧
    fate None m (settle (r_promise req') o (removePendingRequest (s_id s) m1))) as Hend.
  { intros o. split; [by apply settle_tables|]. etrans; [exact F1|]. apply (fate_settled _ (s_id s)).
    - etrans; [apply removePendingRequest_fate|apply settle_fate].
    - intros r. rewrite Hr1. intros [= <-]. apply settle_settled. pose proof Hm as []. simpl. eauto. }
  destruct (s_success s); [apply Hend|]. destruct (restore (s_error s) s) as [err|]; [apply Hend|]. simpl.
  split; [done|]. etrans; [by apply (fate_weaken (Some (s_id s)))|apply removePendingRequest_fate].
Qed.
End handlers.

(** *** Requests *)

Lemma request_stream_step q m res m' :
  tables m → handleIncomingRequestStream q m = (res, m') → tables m' ∧ fate None m m'.
Proof.
  intros Hm. unfold handleIncomingRequestStream. set (entry := OMap.get (q_id q) (pendingReqStreams m)).
  destruct (Streams.handleIncomingRequestStream (option_map x_state entry) (request_packet q)) as [[[e told] next] v] eqn:Hh.
  set (num := match entry with Some x => x_num x | None => nstreams m end).
  set (from := match entry with Some x => x_sender x | None => q_sender q end).
  set (ma := match entry with Some _ => m | None => set_nstreams (nstreams m + 1) m end).
  assert (tables ma ∧ pendingRequests ma = pendingRequests m ∧
    promises ma = promises m ∧ (num < nstreams ma)%nat ∧
    (∀ j y, OMap.get j (pendingResStreams ma) = Some y → x_num y ≠ num) ∧
    (∀ j y, OMap.get j (pendingReqStreams ma) = Some y → x_num y = num → j = q_id q)) as (Ha & Ea & Pa & Hn & Hs & Hq).
  { unfold ma, num. destruct entry as [x|] eqn:He.
    - pose proof Hm as []. split_and!; try done; [eauto|..].
      + intros j y Hy E. by eapply (tb_apart0 (q_id q) j x y).
      + intros j y Hy E. by eapply tb_uniq0.
    - split_and!; try done; simpl; [by apply next_stream_tables|lia|..];
        intros j y Hy; pose proof Hm as []; [apply tb_num'0 in Hy|apply tb_num0 in Hy]; lia. }
  set (mb := match told with [] => ma | _ => emit (Told num told) ma end).
  assert (core mb = core ma) as Hc by (unfold mb; by destruct told).
  assert (tables mb) as Htb by (by eapply tables_core).
  unfold core in Hc. injection Hc as _ Ec1 Ec2 Ec3 Ec4 Ec5.
  set (mc := set_reqStreams (match e with
           | Some st => OMap.set (q_id q) (Stream num st from) (pendingReqStreams mb)
           | None => OMap.delete (q_id q) (pendingReqStreams mb)
           end) mb).
  assert (tables mc) as Htc.
  { unfold mc. destruct e as [st|].
    - apply put_reqStream; rewrite ?Ec2, ?Ec3, ?Ec5; done.
    - pose proof Htb as []. apply (tables_shrink mb); simpl; auto with moleculer; try done.
      intros i x Hx. by apply get_delete_Some in Hx as [? _]. }
  set (md := match next with Some p => set_immediates (immediates mc ++ [HandleRequest (Streams.p_rest p)]) mc
             | None => mc end).
  assert (core md = core mc) as Hd by (unfold md; by destruct next).
  assert (tables md) as Htd by (by eapply tables_core).
  assert (fate None m md) as Hfd.
  { assert (pendingRequests md = pendingRequests m ∧ promises md = promises m) as [E1 E2].
    { unfold core in Hd. injection Hd as _ -> _ _ -> _. simpl. by rewrite Ec1, Ec4, Ea, Pa. }
    split; [constructor; rewrite E2; auto|]. intros id req Hr _. left. rewrite E1. eauto. }
  destruct v; intros [= <- <-]; done.
Qed.

Lemma length_set_notin {V} k (v : V) m : OMap.get k m = None → length (OMap.set k v m) = Datatypes.S (length m).
Proof.
  intros Hk. apply OMap.get_None_keys in Hk. apply (OMap.keys_set_notin k v) in Hk.
  apply (f_equal length) in Hk. unfold OMap.keys in Hk. rewrite length_app, !length_map in Hk. simpl in Hk. lia.
Qed.

Lemma request_step c m : tables m → OMap.get (c_id c) (pendingRequests m) = None →
  tables (request_ c m) ∧ fate None m (request_ c m).
Proof.
  intros Hm Hfresh. pose proof Hm as [].
  assert (∀ v, mono m (set_promises (promises m ++ [v]) m)) as Hmono.
  { intros v. constructor; simpl; [rewrite length_app; lia|]. intros p o Hp. by apply lookup_app_l_Some. }
  unfold request_. destruct (_ && _) eqn:Hfull.
  - set (v := Some (Rejected _)). split.
    + constructor; simpl; try done.
      * intros id req Hr. rewrite length_app. specialize (tb_promise0 id req Hr). lia.
      * intros id x Hx. destruct (tb_answer0 id x Hx) as (req & ? & Hp). exists req. split; [done|].
        intros Hle. destruct (Hp Hle) as [o Ho]. exists o. by apply (Hmono v).
    + split; [apply Hmono|]. simpl. eauto.
  - unfold sendRequest. simpl. set (req := Request _ _ _ _ _). split.
    + assert (∀ j y, OMap.get j (OMap.set (c_id c) req (pendingRequests m)) = Some y →
        (j = c_id c ∧ y = req) ∨ (j ≠ c_id c ∧ OMap.get j (pendingRequests m) = Some y)) as Hget.
      { intros j y. destruct (decide (j = c_id c)) as [->|];
          [rewrite OMap.get_set_eq|rewrite OMap.get_set_ne by done]; naive_solver. }
      constructor; simpl; auto with moleculer.
      * intros Hpos. rewrite length_set_notin by done.
        rewrite (proj2 (Z.eqb_neq _ 0)) in Hfull by lia. simpl in Hfull. to_prop. lia.
      * intros j y [[-> ->]|[_ Hy]]%Hget; rewrite length_app; simpl; [lia|]. specialize (tb_promise0 j y Hy). lia.
      * intros i j r1 r2 [[-> ->]|[_ H1]]%Hget [[-> ->]|[_ H2]]%Hget; simpl; try done; [..|eauto].
        -- specialize (tb_promise0 j r2 H2). lia.
        -- specialize (tb_promise0 i r1 H1). lia.
      * intros j x Hx. destruct (tb_answer0 j x Hx) as (r & Hr & Hp). exists r. split.
        -- rewrite OMap.get_set_ne; [done|]. congruence.
        -- intros Hle. destruct (Hp Hle) as [o Ho]. exists o. by apply (Hmono None).
    + split; [destruct (Hmono None); by constructor|]. intros j y Hy _. left. exists y. split; [|done].
      simpl. rewrite OMap.get_set_ne; [done|congruence].
Qed.
