(* ===== verification/TransitTheorems.v ===== *)
(** * What the transit guarantees

    Runs of a node's registry and transit over received packets, calls and the
    transporter's answers; the fate of every request; the clean-up after a node is
    gone; and the way of a request to the other node and back. *)

From Stdlib Require Import ZArith Lia Bool.
From stdpp Require Import base tactics list strings option gmap.
From S2P Require Import Prelude Errors Strategies RegistryData EndpointList Registry Discoverer Routing Streams RegistryInv RegistrySpec RegistryTheorems Transit TransitInv.

Local Open Scope Z_scope.

Import Transit.

(** A transit that has just been created *)
Definition create_transit (own_ : string) (inst : json) (proto : string) (noVersion : bool) (queue : Z) : t :=
  Transit own_ inst proto noVersion queue false [] [] [] [] 0 [] [].

(** The broker begins to stop. *)
Definition stop (m : t) : t :=
  Transit (own m) (instanceID m) (protocol m) (disableVersionCheck m) (maxQueueSize m) true
    (pendingRequests m) (pendingReqStreams m) (pendingResStreams m) (promises m) (nstreams m) (immediates m) (log m).

Section runs.
Context {S : Type} `{Strategy S} (extract : error → json) (restore : json → response_payload → option error)
  (new_strategy : option string → S) (random : random_source) (regexp : list Ascii.ascii → list Ascii.ascii → bool).

Notation world := (world (S := S)).

Definition on_tr (f : t → t) (w : world) : world := World (reg w) (f (tr w)).

(** The two ways in which a request is forgotten: its call has failed, and the error handler removes
    it, or the error of its response cannot be restored, and the handler of responses throws. *)
Inductive loss := CallFailed (id : string) | Unrestorable (s : response_payload).
Definition lost_id (l : loss) : string := match l with CallFailed id => id | Unrestorable s => s_id s end.

Definition response_drops (s : response_payload) (m : t) : option loss :=
  if (responseHandler restore s m).1 then None else Some (Unrestorable s).
Definition callback_drops (cb : callback) (m : t) : option loss :=
  match cb with HandleRequest _ => None | HandleResponse s => response_drops s m end.
Definition message_drops (pk : packet) (m : t) : option loss :=
  match body pk with Some (PResponse s) => response_drops s m | _ => None end.

(** The label is the request that is forgotten. *)
Inductive step : option loss → world → world → Prop :=
| step_request c w : OMap.get (c_id c) (pendingRequests (tr w)) = None → step None w (on_tr (request_ c) w)
| step_publishFailed p e w : step None w (on_tr (publishFailed p e) w)
| step_message uptime date pk w :
    step (message_drops pk (tr w)) w (messageHandler extract restore new_strategy random regexp uptime date pk w).2
| step_immediate cb cbs w :
    immediates (tr w) = cb :: cbs →
    let w' := on_tr (set_immediates cbs) w in
    step (callback_drops cb (tr w')) w
      match cb with
      | HandleRequest q => requestHandler extract random q w'
      | HandleResponse s => on_tr (λ m, (responseHandler restore s m).2) w'
      end
| step_done requester ctx meta r w : step None w (on_tr (actionDone extract requester ctx meta r) w)
| step_registry f w : step None w (with_registry f w)
| step_stop w : step None w (on_tr stop w)
(* [errorHandlerMiddleware]: the call failed, in time or not *)
| step_callFailed id w : step (Some (CallFailed id)) w (on_tr (removePendingRequest id) w).

Inductive run : list (option loss) → world → world → Prop :=
| run_nil w : run [] w w
| run_cons l ls w1 w2 w3 : step l w1 w2 → run ls w2 w3 → run (l :: ls) w1 w3.

Lemma response_drops_id s m : option_map lost_id (response_drops s m) = dropped restore s m.
Proof. unfold response_drops, dropped. by destruct (responseHandler restore s m).1. Qed.

(** A response is unrestorable only if it tells of an error that [restore] fails for. *)
Lemma response_unrestorable s m : (responseHandler restore s m).1 = false → s_success s = false ∧ restore (s_error s) s = None.
Proof.
  unfold responseHandler. destruct (OMap.get _ _) as [req|]; [|done].
  destruct (match s_stream s with Some _ => _ | None => _ end) as [[] m']; [done|].
  destruct (s_success s); [done|]. by destruct (restore (s_error s) s).
Qed.

Lemma step_unrestorable l w w' s : step l w w' → l = Some (Unrestorable s) → s_success s = false ∧ restore (s_error s) s = None.
Proof.
  assert (∀ s' m, response_drops s' m = Some (Unrestorable s) → s_success s = false ∧ restore (s_error s) s = None) as Hd.
  { intros s' m. unfold response_drops. destruct (responseHandler restore s' m).1 eqn:E; [done|]. intros [= <-]. by eapply response_unrestorable. }
  intros Hs. destruct Hs as [| |uptime date pk w|cb cbs w Hcb w1| | | |id w]; try done.
  - unfold message_drops. destruct (body pk) as [[]|]; try done. apply Hd.
  - destruct cb as [q|s']; [done|]. apply Hd.
Qed.

Lemma run_unrestorable ls w w' s : run ls w w' → Some (Unrestorable s) ∈ ls → s_success s = false ∧ restore (s_error s) s = None.
Proof.
  intros Hr. induction Hr as [|l ls w1 w2 w3 Hs _ IH]; [by intros ?%elem_of_nil|].
  intros [<-|Hin]%elem_of_cons; [by eapply (step_unrestorable _ _ _ s)|auto].
Qed.

Lemma core_step x m m' : core m' = core m → tables m → tables m' ∧ fate x m m'.
Proof. intros E Hm. split; [by apply (tables_core m)|by apply fate_core]. Qed.

Lemma perform_step es m : tables m → tables (foldl perform m es) ∧ fate None m (foldl perform m es).
Proof.
  intros Hm. apply (foldl_invariant (λ m', tables m' ∧ fate None m m')); [split; [done|reflexivity]|].
  intros m' e _ [Ht Hf].
  assert (tables (perform m' e) ∧ fate None m' (perform m' e)) as [? ?]; [|split; [done|by etrans]].
  destruct e; simpl; try (by apply core_step).
  split; [by apply removed_tables|by apply removed_fate].
Qed.

Lemma requestHandler_step q (w : world) : tables (tr w) →
  tables (tr (requestHandler extract random q w)) ∧ fate None (tr w) (tr (requestHandler extract random q w)).
Proof.
  intros Hm. unfold requestHandler. destruct (stopping (tr w)); [by apply core_step|].
  assert (∃ res m, (match q_stream q with Some _ => handleIncomingRequestStream q (tr w)
    | None => (Some None, tr w) end) = (res, m) ∧ tables m ∧ fate None (tr w) m) as (res & m & -> & Ht & Hf).
  { destruct (q_stream q); [|exists (Some None), (tr w); split_and!; try done; reflexivity].
    destruct (handleIncomingRequestStream q (tr w)) as [res m] eqn:E. exists res, m. split; [done|].
    by eapply request_stream_step. }
  destruct res as [stream|]; [|done].
  destruct (Routing.getLocalActionEndpoint random (q_action q) None (reg w)) as [route r]. simpl.
  assert (∀ m', core m' = core m → tables m' ∧ fate None (tr w) m') as Hc.
  { intros m' E. destruct (core_step None m m' E Ht). split; [done|by etrans]. }
  destruct route; by apply Hc.
Qed.

Lemma eventHandler_core e (w : world) : core (tr (eventHandler random regexp e w).2) = core (tr w).
Proof.
  unfold eventHandler. destruct (stopping (tr w)); [done|].
  destruct (Routing.emitLocalServices _ _ _ _ _ _) as [[eps|] r]; [|done]. simpl.
  apply (foldl_invariant (λ m, core m = core (tr w))); [done|]. intros m ep _ <-. done.
Qed.

Lemma message_step uptime date pk (w : world) : tables (tr w) →
  let w' := (messageHandler extract restore new_strategy random regexp uptime date pk w).2 in
  tables (tr w') ∧ fate (option_map lost_id (message_drops pk (tr w))) (tr w) (tr w').
Proof.
  intros Hm. unfold message_drops, messageHandler. destruct (body pk) as [b|]; [|by apply core_step].
  destruct (_ && _); [by apply core_step|].
  destruct b; simpl; try (destruct (String.eqb _ (own (tr w))); [try by apply core_step|by apply core_step]).
  - by apply requestHandler_step.
  - rewrite response_drops_id. destruct (responseHandler_step restore s (tr w) Hm) as [Ht Hf]. destruct (responseHandler restore s (tr w)) as [[] m]; [done|].
    simpl in *. destruct (core_step (dropped restore s (tr w)) m (emit TransitError m) eq_refl Ht). split; [done|by etrans].
  - pose proof (eventHandler_core e w) as E. destruct (eventHandler random regexp e w) as [[b|] w']; simpl in *;
      apply core_step; try done; by rewrite <- E.
  - destruct (String.eqb _ (own (tr w))); [|by apply perform_step].
    destruct (Node.same_instance _ _); by apply core_step.
  - destruct (String.eqb _ (own (tr w))); [by apply core_step|by apply perform_step].
  - destruct (String.eqb _ (own (tr w))); [by apply core_step|].
    destruct (Discoverer.heartbeatReceived _ _ _ _); [by apply perform_step|by apply core_step].
Qed.

Lemma step_ok l w w' : tables (tr w) → step l w w' → tables (tr w') ∧ fate (option_map lost_id l) (tr w) (tr w').
Proof.
  intros Hm Hs. destruct Hs as [c w Hf|p e w|uptime date pk w|cb cbs w Hcb w1|? ? ? ? w|f w|w|id w]; simpl.
  - by apply request_step.
  - assert (fate None (tr w) (settle p (Rejected (PublishError e)) (tr w))) by apply settle_fate.
    destruct (core_step None (settle p (Rejected (PublishError e)) (tr w))
      (publishFailed p e (tr w)) eq_refl (settle_tables _ _ _ Hm)). split; [done|by etrans].
  - by apply message_step.
  - assert (tables (tr w1) ∧ fate None (tr w) (tr w1)) as [Ht Hf] by (by apply core_step).
    destruct cb as [q|s].
    + destruct (requestHandler_step q w1 Ht). split; [done|by etrans].
    + cbn [callback_drops]. rewrite response_drops_id. destruct (responseHandler_step restore s (tr w1) Ht). split; [done|]. etrans; [by apply fate_weaken|done].
  - by apply core_step.
  - by apply perform_step.
  - by apply core_step.
  - split; [by apply removePendingRequest_tables|apply removePendingRequest_fate].
Qed.

Lemma run_tables ls w w' : tables (tr w) → run ls w w' → tables (tr w').
Proof. intros Hm Hr. induction Hr as [|l ls w1 w2 w3 Hs _ IH]; [done|]. apply IH. by eapply step_ok. Qed.

Lemma run_fate ls w w' id req : tables (tr w) → run ls w w' →
  OMap.get id (pendingRequests (tr w)) = Some req → Some id ∉ map (option_map lost_id) ls →
  mono (tr w) (tr w') ∧
  ((∃ req', OMap.get id (pendingRequests (tr w')) = Some req' ∧ r_promise req' = r_promise req ∧
     r_nodeID req' = r_nodeID req) ∨ settled (tr w') (r_promise req)).
Proof.
  intros Hm Hr. revert req. induction Hr as [w|l ls w1 w2 w3 Hs Hr IH]; intros req Hreq Hid.
  - split; [done|]. eauto.
  - cbn [map] in Hid. apply not_elem_of_cons in Hid as [Hl Hid]. destruct (step_ok _ _ _ Hm Hs) as [Ht [Hmono Hk]].
    assert (mono (tr w2) (tr w3)) as Hmono'.
    { clear - Hr Ht. induction Hr as [|l ls w1 w2 w3 Hs _ IH]; [done|].
      destruct (step_ok _ _ _ Ht Hs) as [Ht' [Hm' _]]. etrans; [exact Hm'|by apply IH]. }
    split; [by etrans|].
    destruct (Hk id req Hreq) as [(r2 & H2 & E2 & N2)|[o Ho]]; [congruence| |right; exists o; by apply Hmono'].
    rewrite <- E2, <- N2. by apply (IH Ht r2 H2 Hid).
Qed.

Lemma run_mono ls w w' : tables (tr w) → run ls w w' → mono (tr w) (tr w').
Proof.
  intros Ht Hr. induction Hr as [|l ls w1 w2 w3 Hs _ IH]; [done|].
  destruct (step_ok _ _ _ Ht Hs) as [Ht' [Hm' _]]. etrans; [exact Hm'|by apply IH].
Qed.

Lemma create_tables o i p d q : tables (create_transit o i p d q).
Proof. constructor; simpl; try done; try apply NoDup_nil_2. intros. lia. Qed.

End runs.

(** ** Invariant and fate of requests *)

(** C40. In every run of a node from its creation, over any packets, calls, failures to publish,
    registry changes and scheduled callbacks, the tables of the transit stay in order: no
    more requests are pending than [maxQueueSize], no two pending requests share a promise,
    every response stream belongs to a pending request that is resolved once the stream has
    begun, and no two streams are mixed up. *)
Theorem transit_invariant {S} `{Strategy S} extract restore new_strategy random regexp r o i p d q ls (w : world (S := S)) :
  run extract restore new_strategy random regexp ls (World r (create_transit o i p d q)) w → tables (tr w).
Proof. apply run_tables. apply create_tables. Qed.

(** C2. No request is lost silently and none is answered twice.  A pending request of a reachable
    state is, after any further steps, still pending with the same promise and node; or its
    promise is settled; or the call has failed already and the error handler removed it; or
    its response told of an error that cannot be restored (whose promise the code leaves
    unsettled).  And a settled promise keeps its outcome. *)
Theorem request_not_lost {S} `{Strategy S} extract restore new_strategy random regexp r o i p d q ls ls'
    (w w' : world (S := S)) id req :
  run extract restore new_strategy random regexp ls (World r (create_transit o i p d q)) w →
  run extract restore new_strategy random regexp ls' w w' →
  OMap.get id (pendingRequests (tr w)) = Some req →
  ((∃ req', OMap.get id (pendingRequests (tr w')) = Some req' ∧ r_promise req' = r_promise req ∧
      r_nodeID req' = r_nodeID req) ∨
   (∃ out, promises (tr w') !! r_promise req = Some (Some out)) ∨
   Some (CallFailed id) ∈ ls' ∨
   ∃ s, Some (Unrestorable s) ∈ ls' ∧ s_id s = id ∧ s_success s = false ∧ restore (s_error s) s = None) ∧
  (∀ pr out, promises (tr w) !! pr = Some (Some out) → promises (tr w') !! pr = Some (Some out)).
Proof.
  intros Hr Hr' Hreq. assert (tables (tr w)) as Hm by (eapply run_tables; [|exact Hr]; apply create_tables).
  split; [|intros pr out; by eapply run_mono].
  destruct (decide (Some id ∈ map (option_map lost_id) ls')) as [Hid|Hid].
  - apply list_elem_of_fmap in Hid as ([l|] & E & Hl); [|done]. injection E as E. right. right.
    destruct l as [id'|s]; simpl in E; subst id; [by left|right]. exists s. split; [done|]. split; [done|]. by eapply run_unrestorable.
  - destruct (run_fate _ _ _ _ _ _ _ _ _ _ Hm Hr' Hreq Hid) as [_ [Hk|Hk]]; auto.
Qed.

(** ** A node is gone *)

(** C28. [removePendingRequestByNodeID(n)] rejects exactly the pending promises of requests
    sent to [n], takes these requests and their streams and the request streams coming
    from [n] out of the tables, destroys these streams, and leaves everything else alone. *)
Theorem node_gone n m : tables m →
  let m' := removePendingRequestByNodeID n m in
  let gone_request id := ∃ req, OMap.get id (pendingRequests m) = Some req ∧ r_nodeID req = Some n in
  (∀ id req, OMap.get id (pendingRequests m) = Some req →
    OMap.get id (pendingRequests m') = if decide (r_nodeID req = Some n) then None else Some req) ∧
  (∀ id req, OMap.get id (pendingRequests m) = Some req → promises m !! r_promise req = Some None →
    promises m' !! r_promise req =
      Some (if decide (r_nodeID req = Some n) then Some (Rejected (RequestRejectedError (r_action req) n)) else None)) ∧
  (∀ p, (∀ id req, OMap.get id (pendingRequests m) = Some req → r_nodeID req = Some n → r_promise req ≠ p) →
    promises m' !! p = promises m !! p) ∧
  (∀ id x, OMap.get id (pendingReqStreams m) = Some x →
    (gone_request id ∨ x_sender x = n) ∧ OMap.get id (pendingReqStreams m') = None ∧ Destroyed (x_num x) n ∈ log m' ∨
    ¬ (gone_request id ∨ x_sender x = n) ∧ OMap.get id (pendingReqStreams m') = Some x) ∧
  (∀ id x, OMap.get id (pendingResStreams m) = Some x →
    gone_request id ∧ OMap.get id (pendingResStreams m') = None ∧ Destroyed (x_num x) n ∈ log m' ∨
    ¬ gone_request id ∧ OMap.get id (pendingResStreams m') = Some x).
Proof.
  intros Hm m' gone_request. pose proof Hm as [].
  assert (∀ id, gone n m id = true ↔ gone_request id) as Hgone.
  { intros id. unfold gone, gone_request. destruct (OMap.get id (pendingRequests m)) as [req|]; [|naive_solver].
    destruct (r_nodeID req) as [i|] eqn:E; [rewrite String.eqb_eq; naive_solver|naive_solver]. }
  destruct (removed_shrunk n m tb_reqStreams tb_resStreams) as [[_ Sq] [_ Ss]].
  pose proof (removed_promises n m tb_requests) as Hp. cbv zeta in Hp. fold m' in Sq, Ss, Hp.
  split_and!.
  - intros id req Hr. unfold m'. rewrite removed_requests by done. case_decide as Hd.
    + by rewrite (proj2 (Hgone id)) by (exists req; done).
    + destruct (gone n m id) eqn:Hg; [|done]. apply Hgone in Hg as (r & ? & ?). by simplify_eq.
  - intros id req Hr Hpend. destruct (Hp (r_promise req)) as [[E Hno]|(_ & i & r & Hi & Er & En & E)]; rewrite E.
    + rewrite decide_False; [done|]. by eapply Hno.
    + assert (i = id) as -> by (by eapply tb_inj). simplify_eq. by rewrite decide_True.
  - intros p Hno. destruct (Hp p) as [[E _]|(_ & i & r & Hi & Er & En & _)]; [done|]. by destruct (Hno i r Hi En).
  - intros id x Hx. unfold m'. rewrite removed_reqStreams, Hx by done. destruct (Sq id) as [E|[E HD]].
    + rewrite Hx in E. unfold m' in E. rewrite removed_reqStreams, Hx in E by done.
      right. destruct (gone n m id) eqn:Hg; [done|]. destruct (String.eqb_spec (x_sender x) n) as [|Hne]; [done|].
      split; [|done]. intros [Hg'|?]; [|done]. apply Hgone in Hg'. congruence.
    + left. unfold m' in E. rewrite removed_reqStreams, Hx in E by done. split_and!; [|done|by apply HD].
      destruct (gone n m id) eqn:Hg; [left; by apply Hgone|]. destruct (String.eqb_spec (x_sender x) n); [by right|done].
  - intros id x Hx. unfold m'. rewrite removed_resStreams, Hx by done.
    destruct (Ss id) as [E|[E HD]]; unfold m' in E; rewrite removed_resStreams, Hx in E by done.
    + right. destruct (gone n m id) eqn:Hg; [done|]. split; [|done]. intros Hg'%Hgone. congruence.
    + left. destruct (gone n m id) eqn:Hg; [|done]. split_and!; [by apply Hgone|done|by apply HD].
Qed.

(** A request handed to an external balancer is not tied to a node: its context learns the
    answering node, but [r_nodeID] stays empty, so when that node is gone the request stays
    pending and a response stream it has begun is never closed. *)
Theorem balanced_request_outlives_node n m id req x : tables m →
  OMap.get id (pendingRequests m) = Some req → r_nodeID req = None → r_ctx_nodeID req = Some n →
  OMap.get id (pendingResStreams m) = Some x →
  OMap.get id (pendingRequests (removePendingRequestByNodeID n m)) = Some req ∧
  OMap.get id (pendingResStreams (removePendingRequestByNodeID n m)) = Some x.
Proof.
  intros [] Hr Hn _ Hx. rewrite removed_requests, removed_resStreams by done.
  unfold gone. rewrite Hr, Hn. done.
Qed.

(** ** Late chunks *)

(** Chunks of a request stream that arrive when its entry is gone, say after a timeout, are
    kept in a new entry that nothing but the loss of the sending node removes: whatever
    packets but the first one follow, the closing one included, the entry holds them all
    back and hands on nothing. *)
Theorem late_chunks_kept id q qs m :
  OMap.get id (pendingReqStreams m) = None →
  Forall (λ q, q_id q = id ∧ q_stream q ≠ None ∧ ∃ n, q_seq q = Some n ∧ 1 <= n) (q :: qs) →
  let m' := foldl (λ m q, (handleIncomingRequestStream q m).2) m (q :: qs) in
  log m' = log m ∧ immediates m' = immediates m ∧
  ∃ x, OMap.get id (pendingReqStreams m') = Some x ∧ Streams.prevSeq (x_state x) = -1 ∧
    ∀ q', q' ∈ q :: qs → is_Some (Streams.pool (x_state x) !! default 0 (q_seq q')).
Proof.
  intros Hnone Hall.
  assert (∀ qs m, Forall (λ q, q_id q = id ∧ q_stream q ≠ None ∧ ∃ n, q_seq q = Some n ∧ 1 <= n) qs →
    match OMap.get id (pendingReqStreams m) with Some x => Streams.prevSeq (x_state x) = -1 | None => qs ≠ [] end →
    let m' := foldl (λ m q, (handleIncomingRequestStream q m).2) m qs in
    log m' = log m ∧ immediates m' = immediates m ∧
    ∃ x, OMap.get id (pendingReqStreams m') = Some x ∧ Streams.prevSeq (x_state x) = -1 ∧
      (∀ y i, OMap.get id (pendingReqStreams m) = Some y → is_Some (Streams.pool (x_state y) !! i) →
        is_Some (Streams.pool (x_state x) !! i)) ∧
      ∀ q', q' ∈ qs → is_Some (Streams.pool (x_state x) !! default 0 (q_seq q'))) as Hgen.
  { clear. intros qs. induction qs as [|q qs IH]; intros m Hall Hentry; cbn [foldl].
    - destruct (OMap.get id (pendingReqStreams m)) as [x|] eqn:Hx; [|done]. split_and!; try done. exists x.
      split_and!; [done..|naive_solver|]. intros q' Hq'. by apply not_elem_of_nil in Hq'.
    - apply list.Forall_cons in Hall as [(Hid & _ & k & Hk & Hpos) Hall].
      set (m1 := (handleIncomingRequestStream q m).2).
      set (s := default Streams.new_stream (option_map x_state (OMap.get id (pendingReqStreams m)))).
      assert (Streams.prevSeq s = -1) as Hs.
      { unfold s. destruct (OMap.get id (pendingReqStreams m)); [done|reflexivity]. }
      assert (log m1 = log m ∧ immediates m1 = immediates m ∧ ∃ num from,
        OMap.get id (pendingReqStreams m1) =
          Some (Stream num (Streams.RStream (-1) (<[k := request_packet q]> (Streams.pool s))) from)) as (El & Ei & num & from & Ex).
      { unfold m1, handleIncomingRequestStream, Streams.handleIncomingRequestStream. rewrite Hid.
        assert ((Streams.p_seq (request_packet q) =? 0) = false) as E0 by (simpl; rewrite Hk; apply Z.eqb_neq; simpl; lia).
        rewrite E0, andb_false_r. fold s. unfold Streams.process. rewrite Hs. simpl. rewrite Hk. simpl.
        rewrite (proj2 (Z.ltb_lt (-1 + 1) k)) by lia. simpl.
        destruct (OMap.get id (pendingReqStreams m)); simpl; split_and!; try done;
          do 2 eexists; apply OMap.get_set_eq. }
      destruct (IH m1 Hall) as (H1 & H2 & x & H3 & H4 & H5 & H6); [by rewrite Ex|].
      split_and!; [congruence..|]. exists x. split_and!; [done..| |].
      + intros y i Hy Hi. eapply H5; [exact Ex|]. simpl. unfold s. rewrite Hy. simpl.
        destruct (decide (i = k)) as [->|]; [rewrite lookup_insert_eq; eauto|by rewrite lookup_insert_ne].
      + intros q' [->|Hq']%elem_of_cons; [|by apply H6]. eapply H5; [exact Ex|]. simpl. rewrite Hk. simpl.
        rewrite lookup_insert_eq. eauto. }
  destruct (Hgen (q :: qs) m Hall) as (H1 & H2 & x & H3 & H4 & _ & H5); [by rewrite Hnone|].
  split_and!; eauto.
Qed.

(** ** There and back *)

(** What the caller's promise is settled with *)
Definition answer (restored : error → option error) (streams : nat) (r : result) : option outcome :=
  match r with
  | Data d => Some (Resolved d)
  | StreamData => Some (ResolvedStream streams)
  | Failure err => Rejected <$> restored err
  end.

(** A request is sent if there is room. *)
Lemma request_sent c m :
  maxQueueSize m = 0 ∨ Z.of_nat (length (pendingRequests m)) < maxQueueSize m →
  request_ c m = sendRequest c (length (promises m)) (set_promises (promises m ++ [None]) m).
Proof.
  intros Hroom. unfold request_. destruct (_ && _) eqn:Hfull; [|done]. apply andb_true_iff in Hfull as [H1 H2].
  apply negb_true_iff in H1. to_prop. lia.
Qed.

(** A request that node [a] sends reaches the action on the other node with all its fields
    and the name of [a], and whatever the action answers there settles the promise of the
    caller: its data, a stream, or its error through the error regenerator, unless that throws;
    the request stays registered only for a stream. *)
Theorem request_and_response {S} `{Strategy S} extract restore random c a (w : world (S := S)) ep r b meta res :
  tables a → OMap.get (c_id c) (pendingRequests a) = None → c_isStream c = false →
  (maxQueueSize a = 0 ∨ Z.of_nat (length (pendingRequests a)) < maxQueueSize a) →
  stopping (tr w) = false → OMap.get (c_id c) (pendingReqStreams (tr w)) = None →
  Routing.getLocalActionEndpoint random (c_action c) None (reg w) = (Routing.Routed ep, r) →
  let a1 := request_ c a in
  ∃ q s ctx,
    log a1 = log a ++ [PublishRequest (c_nodeID c) q] ∧
    tr (requestHandler extract random q w) = emit (RunAction ep ctx (own a) None) (tr w) ∧
    ctx = Context (c_id c) (c_action c) (Some (own a)) (c_params c) (c_meta c) (c_headers c) (c_timeout c)
            (c_level c) (c_tracing c) (c_parentID c) (c_requestID c) (c_caller c) false ∧
    log (actionDone extract (own a) ctx meta res b) = log b ++ [PublishResponse (own a) s] ∧
    let a2 := (responseHandler restore s a1).2 in
    promises a1 = promises a ++ [None] ∧
    promises a2 = promises a ++ [answer (λ err, restore (extract err) s) (nstreams a) res] ∧
    (OMap.get (c_id c) (pendingRequests a2) = None ↔ res ≠ StreamData).
Proof.
  intros Ha Hfresh Hstr Hroom Hstop Hnone Hroute a1.
  exists (request_payload_of a c),
    (match res with
     | Data d => ResponsePayload (own b) (c_id c) meta true d JUndef None None
     | StreamData => ResponsePayload (own b) (c_id c) meta true Streams.null_data JUndef (Some true) (Some 0)
     | Failure err => ResponsePayload (own b) (c_id c) meta false Streams.null_data (extract err) None None
     end), (context_of (request_payload_of a c) None).
  assert (a1 = sendRequest c (length (promises a)) (set_promises (promises a ++ [None]) a)) as E1.
  { by apply request_sent. }
  assert (∀ o, <[length (promises a) := Some o]> (promises a ++ [None]) = promises a ++ [Some o]) as Hins.
  { intros o. rewrite insert_app_r_alt by lia. by rewrite Nat.sub_diag. }
  assert ((promises a ++ [None]) !! length (promises a) = Some None) as Hpend.
  { rewrite lookup_app_r by lia. by rewrite Nat.sub_diag. }
  assert (OMap.get (c_id c) (pendingResStreams a) = None) as Hno.
  { destruct (OMap.get _ (pendingResStreams a)) as [x|] eqn:Hx; [|done].
    apply (tb_answer a Ha) in Hx as (req & Hr & _). congruence. }
  cbv zeta. split_and!.
  - rewrite E1. unfold sendRequest. simpl. by destruct c.
  - clear E1 a1. destruct c; simpl in *; subst. unfold requestHandler, handleIncomingRequestStream. rewrite Hstop.
    simpl. rewrite Hnone. simpl. by rewrite Hroute.
  - unfold context_of. by destruct c.
  - by destruct res.
  - rewrite E1. done.
  - rewrite E1. destruct res; unfold responseHandler, sendRequest; simpl; rewrite OMap.get_set_eq; simpl.
    + unfold settle. simpl. rewrite Hpend. apply Hins.
    + unfold handleIncomingResponseStream. simpl. rewrite Hno. simpl. unfold Streams.process. simpl.
      unfold settle. simpl. rewrite Hpend. apply Hins.
    + destruct (restore _ _); simpl; [|done]. unfold settle. simpl. rewrite Hpend. apply Hins.
  - rewrite E1. destruct res; unfold responseHandler, sendRequest; simpl; rewrite OMap.get_set_eq; simpl.
    + unfold settle. simpl. rewrite Hpend. simpl. split; [done|]. intros _. apply OMap.get_delete_eq.
      do 2 apply OMap.wf_set. apply Ha.
    + unfold handleIncomingResponseStream. simpl. rewrite Hno. simpl. unfold Streams.process. simpl.
      rewrite lookup_empty. unfold settle. simpl. rewrite Hpend. simpl. by rewrite OMap.get_set_eq.
    + destruct (restore _ _); unfold settle; simpl; rewrite ?Hpend; simpl; (split; [done|]); intros _;
        apply OMap.get_delete_eq; do 2 apply OMap.wf_set; apply Ha.
Qed.

(** ** Messages *)

(** Taking endpoints out of the catalogs changes nothing else. *)
Lemma remove_endpoints_frame {S} s (r : registry S) :
  out (remove_endpoints s r) = out r ∧ cfg (remove_endpoints s r) = cfg r ∧ st (remove_endpoints s r) = st r.
Proof. done. Qed.

Lemma unregisterServicesByNode_frame {S} id (r : registry S) :
  out (unregisterServicesByNode id r) = out r ∧ cfg (unregisterServicesByNode id r) = cfg r ∧
  st (unregisterServicesByNode id r) = st r.
Proof.
  unfold unregisterServicesByNode, services_removeAllByNodeID.
  apply (foldl_invariant (λ r', out r' = out r ∧ cfg r' = cfg r ∧ st r' = st r)); [done|].
  intros r' s _ (<- & <- & <-). by destruct (String.eqb _ id).
Qed.

Lemma disconnected_tells {S} n u now (r : registry S) node :
  hasTransit (cfg r) = true → OMap.get n (nodes r) = Some node → Node.available (node_of (st r) node) = true →
  is_Some (st_nodes (st r) !! node) ∧ Node.id (node_of (st r) node) = n →
  drop (length (out r)) (out (disconnected n u now r)) =
  [NodeDisconnected n u; ServicesChanged false; UpdateMetrics; RemovePendingByNodeID n].
Proof.
  intros Htr Hg Hav [Hsome Hid]. unfold disconnected. rewrite Hg, Hav. cbv zeta.
  set (r1 := set_st _ r).
  assert (node_id r1 node = n) as Hn by (unfold node_id, r1; simpl; by rewrite node_of_upd_eq).
  destruct (unregisterServicesByNode_frame (node_id r1 node) r1) as (Eo & Ec & Es).
  revert Eo Ec Es. generalize (unregisterServicesByNode (node_id r1 node) r1). intros r2 Eo Ec Es.
  simpl. rewrite Ec. change (cfg r1) with (cfg r). rewrite Htr. simpl.
  rewrite Eo. change (out r1) with (out r). rewrite <- !app_assoc, drop_app_length. simpl.
  unfold node_id at 1. rewrite Es. fold (node_id r1 node). by rewrite Hn.
Qed.

(** A DISCONNECT packet of an online remote node cleans the registry and the transit at once:
    no endpoint of the node is left, no request to it and no stream from it is pending. *)
Theorem disconnect_message {S} `{Strategy S} extract restore new_strategy random regexp (w : world (S := S)) n node
    uptime date version :
  ok (reg w) → tables (tr w) → hasTransit (cfg (reg w)) = true → nodeID (cfg (reg w)) = own (tr w) →
  n ≠ own (tr w) → version = protocol (tr w) →
  OMap.get n (nodes (reg w)) = Some node → Node.available (node_of (st (reg w)) node) = true →
  let '(processed, w') :=
    messageHandler extract restore new_strategy random regexp uptime date (Packet version (Some (PDisconnect n))) w in
  processed = true ∧
  (∀ l ep, l ∈ all_lists (reg w') → ep ∈ EndpointList.endpoints l → Endpoint.id (ep_of (st (reg w')) ep) ≠ n) ∧
  (∀ id req, OMap.get id (pendingRequests (tr w')) = Some req →
     r_nodeID req ≠ Some n ∧ OMap.get id (pendingRequests (tr w)) = Some req) ∧
  (∀ id x, OMap.get id (pendingReqStreams (tr w')) = Some x → x_sender x ≠ n).
Proof.
  intros Hok Hm Htr Hown Hn -> Hg Hav. unfold messageHandler. simpl. rewrite String.eqb_refl. simpl.
  rewrite (proj2 (String.eqb_neq n (own (tr w)))) by done.
  destruct (disconnected_spec n false uptime (reg w) node Hok ltac:(congruence) Hg Hav)
    as (_ & He & _ & _ & _ & _ & _).
  split; [done|]. unfold with_registry, Discoverer.remoteNodeDisconnected. simpl. split; [exact He|].
  assert (drop (length (out (reg w))) (out (disconnected n false uptime (reg w))) =
    [NodeDisconnected n false; ServicesChanged false; UpdateMetrics; RemovePendingByNodeID n]) as ->.
  { apply (disconnected_tells _ _ _ _ node); try done. apply (inv_nodes (reg w) (proj1 Hok)). by apply OMap.get_Some_elem. }
  simpl. destruct Hm as []. split.
  - intros id req. rewrite removed_requests by done. unfold gone.
    destruct (OMap.get id (pendingRequests (tr w))) as [r|] eqn:Hr; [|done].
    destruct (r_nodeID r) as [i|] eqn:Hi.
    + destruct (String.eqb_spec i n); [done|]. intros [= <-]. split; [congruence|done].
    + intros [= <-]. split; [congruence|done].
  - intros id x. rewrite removed_reqStreams by done. destruct (gone n (tr w) id); [done|].
    destruct (OMap.get id (pendingReqStreams (tr w))); [|done].
    destruct (String.eqb_spec (x_sender s) n); [done|]. by intros [= <-].
Qed.

(** Packets that are not for the node to process change nothing: without a payload or of another
    protocol version they only report an error, and the node's own packets are skipped,
    except events, requests and responses, and an INFO packet of a node with the same name. *)
Theorem message_guard {S} `{Strategy S} extract restore new_strategy random regexp (w : world (S := S)) uptime date pk :
  let '(processed, w') := messageHandler extract restore new_strategy random regexp uptime date pk w in
  match body pk with
  | None => processed = false ∧ w' = World (reg w) (emit TransitError (tr w))
  | Some b =>
      if negb (String.eqb (ver pk) (protocol (tr w))) && negb (disableVersionCheck (tr w))
      then processed = false ∧ w' = World (reg w) (emit TransitError (tr w))
      else if String.eqb (sender b) (own (tr w)) then
        match b with
        | PEvent _ | PRequest _ | PResponse _ => True
        | PInfo i => processed = false ∧
            w' = if Node.same_instance (i_instanceID i) (instanceID (tr w)) then w
                 else World (reg w) (emit Fatal (tr w))
        | _ => processed = false ∧ w' = w
        end
      else
        match b with
        | PDiscover s => processed = true ∧ w' = World (reg w) (emit (SendLocalNodeInfo s) (tr w))
        | PPing s id time => processed = true ∧ w' = World (reg w) (emit (PublishPong s id time date) (tr w))
        | PResponse _ | PPong _ _ _ _ => reg w' = reg w
        | _ => True
        end
  end.
Proof.
  unfold messageHandler. destruct (body pk) as [b|]; [|done]. destruct (_ && _); [done|].
  destruct b as [q|s|e|s|i|s|s hb|s id time|s id time arrived]; simpl;
    try (by destruct (String.eqb _ (own (tr w)))).
  - destruct (responseHandler restore s (tr w)) as [[] m]; by destruct (String.eqb _ (own (tr w))).
  - destruct (eventHandler random regexp e w) as [[b|] w']; by destruct (String.eqb _ (own (tr w))).
  - destruct (String.eqb _ (own (tr w))); [done|]. by destruct (Discoverer.heartbeatReceived _ _ _ _).
Qed.

(** For a remote clock ahead by [offset] and a ping that takes [there] and [back] milliseconds,
    [processPong] reports the round trip exactly, and the clock difference up to half of it,
    rounded up, with a negative sign for a clock that is ahead. *)
Theorem pong_times nodeID id sent offset there back m :
  0 <= there → 0 <= back →
  ∃ elapsed diff,
    log (processPong nodeID id sent (sent + there + offset) (sent + there + back) m) =
      log m ++ [Pong nodeID id elapsed diff] ∧
    elapsed = there + back ∧ 2 * Z.abs (diff + offset) <= there + back + 1.
Proof.
  intros Ht Hb. eexists _, _. split; [reflexivity|]. split; [lia|].
  unfold timeDiff. pose proof (Z.mul_div_le (2 * (sent + there + back - (sent + there + offset)) - (sent + there + back - sent) + 1) 2 ltac:(lia)).
  pose proof (Z.mul_succ_div_gt (2 * (sent + there + back - (sent + there + offset)) - (sent + there + back - sent) + 1) 2 ltac:(lia)).
  lia.
Qed.

(** ** Samples *)

(** A regenerator that only sends the message *)
Definition plain_error (e : error) : json := match e with OtherError e => Errors.e_message e | _ => JStr "error" end.
Definition plain_restore (j : json) (s : response_payload) : option error :=
  Some (OtherError (Errors.extendable JNull Errors.Error j)).

Definition sample_ctx (id : string) (to : option string) : context :=
  Context id "shop.list" to (Streams.Value (JNum 7)) [] [] None 1 (JBool false) None (Some id) None false.

Definition sample_tr : t := create_transit "node-1" (JStr "i0") "5" false 10.

(** [node-1] after two calls, to [node-2] and to an external balancer *)
Definition sample_calls : t := request_ (sample_ctx "r2" None) (request_ (sample_ctx "r1" (Some "node-2"%string)) sample_tr).

(** The balancer's choice, [node-2], begins to answer [r2] with a stream. *)
Definition sample_streaming : t :=
  (responseHandler plain_restore
    (ResponsePayload "node-2" "r2" [] true Streams.null_data JUndef (Some true) (Some 0)) sample_calls).2.

(** The caller of [shop.list] and the node that runs it *)
Definition sample_server : world (S := RoundRobin.t) :=
  World (registerLocalService rr
           (SvcSchema "shop" (Some "shop"%string) JUndef JUndef JUndef
              (Some [("shop.list"%string, Action "shop.list" None false None (HUser 2) None)]) None) sample_0)
    (create_transit "node-1" (JStr "i0") "5" false 0).

Lemma sample_run : run plain_error plain_restore rr draw_low no_regexp [None; None]
  (World sample_1 sample_tr) (World sample_1 sample_calls).
Proof.
  set (c1 := sample_ctx "r1" (Some "node-2"%string)).
  eapply run_cons; [apply (step_request plain_error plain_restore rr draw_low no_regexp c1 (World sample_1 sample_tr) eq_refl)|].
  eapply run_cons; [apply (step_request plain_error plain_restore rr draw_low no_regexp (sample_ctx "r2" None)
    (World sample_1 (request_ c1 sample_tr)) eq_refl)|]. apply run_nil.
Qed.

Lemma sample_calls_tables : tables sample_calls.
Proof.
  apply (run_tables plain_error plain_restore rr draw_low no_regexp [None; None] (World sample_1 sample_tr) (World sample_1 sample_calls)).
  - apply create_tables.
  - apply sample_run.
Qed.

Lemma transit_invariant_witness : (length (pendingRequests sample_calls) = 2)%nat ∧ tables sample_calls.
Proof.
  split; [reflexivity|].
  apply (transit_invariant plain_error plain_restore rr draw_low no_regexp sample_1 "node-1" (JStr "i0") "5" false 10
    [None; None] (World sample_1 sample_calls) sample_run).
Defined.

(** The answer to [r2] leaves [r1] pending. *)
Lemma request_not_lost_witness :
  ∃ req, OMap.get "r1" (pendingRequests sample_calls) = Some req ∧
  ((∃ req', OMap.get "r1" (pendingRequests sample_streaming) = Some req' ∧ r_promise req' = r_promise req ∧
      r_nodeID req' = r_nodeID req) ∨
   (∃ out, promises sample_streaming !! r_promise req = Some (Some out)) ∨ False).
Proof.
  eexists. split; [reflexivity|].
  set (s := ResponsePayload "node-2" "r2" [] true Streams.null_data JUndef (Some true) (Some 0)).
  assert (run plain_error plain_restore rr draw_low no_regexp [None] (World sample_1 sample_calls)
    (World sample_1 sample_streaming)) as Hrun.
  { assert (message_drops plain_restore (Packet "5" (Some (PResponse s))) sample_calls = None) as Hd by (vm_compute; reflexivity).
    assert (∀ r1, (messageHandler plain_error plain_restore rr draw_low no_regexp 0 0 (Packet "5" (Some (PResponse s)))
      (World r1 sample_calls)).2 = World r1 sample_streaming) as E by (intros; vm_compute; reflexivity).
    rewrite <- (E sample_1).
    pose proof (step_message plain_error plain_restore rr draw_low no_regexp 0 0 (Packet "5" (Some (PResponse s)))
      (World sample_1 sample_calls)) as Hs. cbn [tr] in Hs. rewrite Hd in Hs.
    eapply run_cons; [exact Hs|apply run_nil]. }
  destruct (request_not_lost plain_error plain_restore rr draw_low no_regexp sample_1 "node-1" (JStr "i0") "5" false 10
    [None; None] [None] (World sample_1 sample_calls) (World sample_1 sample_streaming) "r1" _ sample_run Hrun eq_refl)
    as [[Hk|[Hk|[Hk|(x & Hk & _)]]] _]; [left; exact Hk|right; left; exact Hk| |].
  - apply elem_of_cons in Hk as [Hk|Hk]; [discriminate|by apply elem_of_nil in Hk].
  - apply elem_of_cons in Hk as [Hk|Hk]; [discriminate|by apply elem_of_nil in Hk].
Defined.

Lemma node_gone_witness :
  promises (removePendingRequestByNodeID "node-2" sample_calls) !! 0%nat =
    Some (Some (Rejected (RequestRejectedError "shop.list" "node-2"))).
Proof.
  destruct (node_gone "node-2" sample_calls sample_calls_tables) as (_ & Hp & _).
  apply (Hp "r1"%string _ eq_refl eq_refl).
Defined.

(** [node-2] goes away while it streams its answer to [r2]. *)
Lemma balanced_request_outlives_node_witness :
  is_Some (OMap.get "r2" (pendingResStreams (removePendingRequestByNodeID "node-2" sample_streaming))).
Proof.
  assert (tables sample_streaming) as Hm by apply (responseHandler_step plain_restore _ _ sample_calls_tables).
  destruct (balanced_request_outlives_node "node-2" sample_streaming "r2" _ _ Hm eq_refl eq_refl eq_refl eq_refl) as [_ Hx].
  rewrite Hx. eexists. reflexivity.
Defined.

Lemma late_chunks_kept_witness :
  let chunk seq more := RequestPayload "node-2" "r9" "shop.list" Streams.null_data None None None 1 JUndef None None None
                     (Some more) (Some seq) None in
  let m' := foldl (λ m q, (handleIncomingRequestStream q m).2) sample_tr [chunk 4 true; chunk 5 false] in
  ∃ x, OMap.get "r9" (pendingReqStreams m') = Some x ∧ Streams.prevSeq (x_state x) = -1.
Proof.
  intros chunk m'.
  destruct (late_chunks_kept "r9" (chunk 4 true) [chunk 5 false] sample_tr eq_refl) as (_ & _ & x & Hx & Hp & _).
  - repeat constructor; try discriminate; eexists; (split; [reflexivity|lia]).
  - exists x. split; [exact Hx|exact Hp].
Defined.

Lemma request_and_response_witness :
  ∃ s, promises (responseHandler plain_restore s (request_ (sample_ctx "r1" (Some "node-1"%string)) sample_tr)).2 =
    [Some (Resolved (Streams.Value (JStr "done")))].
Proof.
  destruct (Routing.getLocalActionEndpoint draw_low "shop.list" None (reg sample_server)) as [[ep| | |] r] eqn:E;
    [|vm_compute in E; discriminate E..].
  destruct (request_and_response plain_error plain_restore draw_low (sample_ctx "r1" (Some "node-1"%string)) sample_tr
    sample_server ep r sample_tr [] (Data (Streams.Value (JStr "done")))
    (create_tables _ _ _ _ _) eq_refl eq_refl (or_intror eq_refl) eq_refl eq_refl E)
    as (q & s & ctx & _ & _ & _ & _ & _ & Hp & _).
  exists s. exact Hp.
Defined.

Lemma disconnect_message_witness :
  let '(processed, w') := messageHandler plain_error plain_restore rr draw_low no_regexp 9 0
    (Packet "5" (Some (PDisconnect "node-2"))) (World sample_1 sample_calls) in
  processed = true ∧ OMap.keys (pendingRequests (tr w')) = ["r2"%string].
Proof.
  assert (ok sample_1) as Hok by (eapply ok_reachable; [apply ok_create|apply sample_reachable]).
  assert (hasTransit (cfg sample_1) = true ∧ nodeID (cfg sample_1) = own sample_calls ∧ "5"%string = protocol sample_calls)
    as (Htr & Hown & Hver) by (split_and!; reflexivity).
  assert (OMap.get "node-2" (nodes sample_1) = Some 2%positive) as Hg by (vm_compute; reflexivity).
  assert (Node.available (node_of (st sample_1) 2) = true) as Hav by (vm_compute; reflexivity).
  assert ("node-2"%string ≠ own sample_calls) as Hne by (vm_compute; discriminate).
  assert (OMap.keys (pendingRequests (tr (messageHandler plain_error plain_restore rr draw_low no_regexp 9 0
    (Packet "5" (Some (PDisconnect "node-2"))) (World sample_1 sample_calls)).2)) = ["r2"%string]) as Hk
    by (vm_compute; reflexivity).
  pose proof sample_calls_tables as Hm. revert Hok Htr Hown Hver Hg Hav Hne Hk Hm.
  generalize sample_1 sample_calls. intros r1 m1 Hok Htr Hown Hver Hg Hav Hne Hk Hm.
  pose proof (disconnect_message plain_error plain_restore rr draw_low no_regexp (World r1 m1) "node-2"
    2%positive 9 0 "5" Hok Hm Htr Hown Hne Hver Hg Hav) as Hd.
  destruct (messageHandler _ _ _ _ _ _ _ _ _) as [processed w']. destruct Hd as [-> _]. split; [reflexivity|exact Hk].
Defined.

Lemma pong_times_witness :
  ∃ elapsed diff, elapsed = 30 ∧ 2 * Z.abs (diff + 1000) <= 31 ∧
    log (processPong "node-2" "p1" 5000 6010 5030 sample_tr) = [Pong "node-2" "p1" elapsed diff].
Proof.
  destruct (pong_times "node-2" "p1" 5000 1000 10 20 sample_tr) as (e & d & Hl & He & Hd); [lia..|].
  exists e, d. split; [exact He|]. split; [exact Hd|]. exact Hl.
Defined.
