(* ===== verification/Ping.v ===== *)
(** * Pinging nodes

    [ping()] of [src/service-broker.js]: promises that wait for [$node.pong] events, each with
    a timer, over the PING and PONG packets of the transit ([Transit.messageHandler]). *)

From Stdlib Require Import ZArith Lia Bool.
From stdpp Require Import base tactics list strings option gmap.
From S2P Require Import Prelude Errors Strategies RegistryData EndpointList Registry Discoverer Routing Streams RegistryInv RegistrySpec RegistryTheorems Listing Runner RunnerTheorems Transit TransitInv TransitTheorems.

Local Open Scope Z_scope.

Module Ping.

(** The payload of [$node.pong] *)
Record pong := PongInfo { nodeID : string; id : string; elapsedTime : Z; timeDiff : Z }.

(** A handler on the local bus, with the object and the set that it closes over *)
Inductive handler := One (node : string) | Many (pongs : OMap.t (option pong)) (processing : list string).

Inductive answer := Null | Answered (p : pong) | Pongs (pongs : OMap.t (option pong)) | NoNodes.

(** A promise: as long as it waits it has a timer and a handler. *)
Inductive promise := Waiting (h : handler) | Settled (a : answer).

(** The first argument of [ping()] *)
Inductive target := Node (n : string) | NodeList (ns : list string) | AllNodes.

(** The available nodes but the local one *)
Definition others {S} (own : string) (r : registry S) : list string :=
  Arr.filter (λ n, negb (String.eqb n own)) (map (λ '(n, _), Node.id n) (Listing.getNodeList true false r)).

Definition nodes_of (others : list string) (t : target) : list string :=
  match t with Node n => [n] | NodeList ns => ns | AllNodes => others end.

Definition no_pongs (ns : list string) : OMap.t (option pong) := foldl (λ m n, OMap.set n None m) [] ns.

(** [ping(nodeID)]: the promise and the nodes that a PING is sent to *)
Definition ping (connected : bool) (others : list string) (t : target) (ps : list promise) : list promise * list string :=
  if connected then
    (ps ++ [Waiting (match t with Node n => One n | _ => Many (no_pongs (nodes_of others t)) (Runner.uniq (nodes_of others t)) end)],
     nodes_of others t)
  else
    (ps ++ [Settled (match t with Node n => if String.eqb n "" then NoNodes else Null | NodeList _ => Null | AllNodes => NoNodes end)], []).

(** A pong is heard by every handler. *)
Definition hear (p : pong) (x : promise) : promise :=
  match x with
  | Waiting (One n) => if String.eqb (nodeID p) n then Settled (Answered p) else x
  | Waiting (Many m processing) =>
      let m := OMap.set (nodeID p) (Some p) m in
      match Arr.remove (String.eqb (nodeID p)) processing with
      | [] => Settled (Pongs m)
      | processing => Waiting (Many m processing)
      end
  | Settled _ => x
  end.

(** The timer of a promise *)
Definition expire (x : promise) : promise :=
  match x with
  | Waiting (One _) => Settled Null
  | Waiting (Many m _) => Settled (Pongs m)
  | Settled _ => x
  end.

Inductive event := Heard (p : pong) | TimedOut (i : nat).

Definition handle (ps : list promise) (e : event) : list promise :=
  match e with Heard p => map (hear p) ps | TimedOut i => alter expire i ps end.

(** What the transit tells the local bus *)
Definition pong_of (o : Transit.output) : option pong :=
  match o with Transit.Pong n i elapsed diff => Some (PongInfo n i elapsed diff) | _ => None end.

Section receiving.
Context {S : Type} `{Strategy S} (extract : Transit.error → json) (restore : json → Transit.response_payload → option Transit.error)
  (new_strategy : option string → S) (random : random_source) (regexp : list Ascii.ascii → list Ascii.ascii → bool).

(** A packet arrives: the transit handles it, and the promises hear of the pongs it tells. *)
Definition receive (uptime date : Z) (pk : Transit.packet) (w : Transit.world (S := S)) (ps : list promise) : Transit.world (S := S) * list promise :=
  let w' := (Transit.messageHandler extract restore new_strategy random regexp uptime date pk w).2 in
  (w', foldl (λ ps p, handle ps (Heard p)) ps (omap pong_of (drop (length (Transit.log (Transit.tr w))) (Transit.log (Transit.tr w'))))).

End receiving.

End Ping.

Import Ping.

(** ** Promises are settled once *)

Lemma handle_length ps e : length (handle ps e) = length ps.
Proof. destruct e; simpl; [apply length_map|apply length_alter]. Qed.

Lemma handle_settled ps e i a : ps !! i = Some (Settled a) → handle ps e !! i = Some (Settled a).
Proof.
  intros Hi. destruct e as [p|j]; simpl; [rewrite list_lookup_fmap, Hi; done|].
  destruct (decide (i = j)) as [->|Hne]; [by rewrite list_lookup_alter_eq, Hi|by rewrite list_lookup_alter_ne by congruence].
Qed.

Lemma settled_stays evs ps i a : ps !! i = Some (Settled a) → foldl handle ps evs !! i = Some (Settled a).
Proof. revert ps. induction evs as [|e evs IH]; intros ps Hi; [done|]. apply IH. by apply handle_settled. Qed.

Lemma expired ps i x : ps !! i = Some x → ∃ a, handle ps (TimedOut i) !! i = Some (Settled a).
Proof. intros Hi. simpl. rewrite list_lookup_alter_eq, Hi. destruct x as [[]|]; simpl; eauto. Qed.

(** ** What a list of nodes answers *)

(** The nodes of [ns] whose pongs were heard have one of them, the others none. *)
Definition good (ns : list string) (evs : list event) (m : OMap.t (option pong)) : Prop :=
  ∀ n, n ∈ ns →
    (∃ p, Heard p ∈ evs ∧ nodeID p = n ∧ OMap.get n m = Some (Some p)) ∨
    (∀ p, Heard p ∈ evs → nodeID p ≠ n) ∧ OMap.get n m = Some None.

Definition heard_all (ns : list string) (evs : list event) : Prop := ∀ n, n ∈ ns → ∃ p, Heard p ∈ evs ∧ nodeID p = n.

(** The state of the promise [i] after the events [evs] *)
Definition promised (ns : list string) (i : nat) (evs : list event) (x : promise) : Prop :=
  match x with
  | Waiting (Many m processing) =>
      good ns evs m ∧ TimedOut i ∉ evs ∧ (∀ n, n ∈ processing ↔ n ∈ ns ∧ ∀ p, Heard p ∈ evs → nodeID p ≠ n) ∧
      (processing = [] → ns = [] ∧ ∀ p, Heard p ∉ evs)
  | Settled (Pongs m) => ∃ before after, evs = before ++ after ∧ good ns before m ∧ (heard_all ns before ∨ ∃ b, before = b ++ [TimedOut i])
  | _ => False
  end.

Lemma no_pongs_get ns n : n ∈ ns → OMap.get n (no_pongs ns) = Some None.
Proof.
  unfold no_pongs. induction ns as [|m ns IH] using rev_ind; [by intros ?%elem_of_nil|]. rewrite foldl_snoc.
  destruct (decide (m = n)) as [->|Hne]; [by rewrite OMap.get_set_eq|]. rewrite OMap.get_set_ne by done.
  rewrite elem_of_app, list_elem_of_singleton. intros [?|?]; [by apply IH|congruence].
Qed.

Lemma good_heard ns evs m p : good ns evs m → good ns (evs ++ [Heard p]) (OMap.set (nodeID p) (Some p) m).
Proof.
  intros Hg n Hn. setoid_rewrite elem_of_app. setoid_rewrite list_elem_of_singleton. destruct (decide (nodeID p = n)) as [<-|Hne].
  - left. exists p. rewrite OMap.get_set_eq. auto.
  - rewrite OMap.get_set_ne by done. destruct (Hg n Hn) as [(q & Hq & Hqn & Hget)|[Hq Hget]]; [left; exists q; auto|right].
    split; [|done]. intros q [?|[= ->]]; [by apply Hq|done].
Qed.

Lemma good_other ns evs m j : good ns evs m → good ns (evs ++ [TimedOut j]) m.
Proof.
  intros Hg n Hn. setoid_rewrite elem_of_app. setoid_rewrite list_elem_of_singleton.
  destruct (Hg n Hn) as [(q & Hq & ?)|[Hq ?]]; [left; exists q; auto|right]. split; [|done]. intros q [?|?]; [by apply Hq|done].
Qed.

Lemma promised_hear ns i evs x p : promised ns i evs x → promised ns i (evs ++ [Heard p]) (hear p x).
Proof.
  destruct x as [[n|m processing]|[|q|m|]]; simpl; try done.
  - intros (Hg & Ht & Hp & He). pose proof (good_heard ns evs m p Hg) as Hg'. remember (Arr.remove (String.eqb (nodeID p)) processing) as rest eqn:Hr.
    assert (∀ n, n ∈ rest ↔ n ∈ ns ∧ ∀ q, Heard q ∈ evs ++ [Heard p] → nodeID q ≠ n) as Hrest.
    { intros n. rewrite Hr, Arr.elem_of_remove, Hp, String.eqb_neq. setoid_rewrite elem_of_app. setoid_rewrite list_elem_of_singleton. naive_solver. }
    destruct rest as [|r rest]; simpl.
    + exists (evs ++ [Heard p]), []. split_and!; [by rewrite app_nil_r|done|left]. intros n Hn.
      destruct (Hg' n Hn) as [(q & ? & ? & _)|[Hno _]]; [by exists q|]. assert (n ∈ []) as []%elem_of_nil by by apply Hrest.
    + split_and!; [done| |done|done]. rewrite elem_of_app, list_elem_of_singleton. naive_solver.
  - intros (b & a & -> & Hg & Hs). exists b, (a ++ [Heard p]). by rewrite app_assoc.
Qed.

Lemma promised_expire ns i evs x : promised ns i evs x → promised ns i (evs ++ [TimedOut i]) (expire x).
Proof.
  destruct x as [[n|m processing]|[|q|m|]]; simpl; try done.
  - intros (Hg & _). exists (evs ++ [TimedOut i]), []. rewrite app_nil_r. split_and!; [done|by apply good_other|eauto].
  - intros (b & a & -> & Hg & Hs). exists b, (a ++ [TimedOut i]). by rewrite app_assoc.
Qed.

Lemma promised_other ns i j evs x : i ≠ j → promised ns i evs x → promised ns i (evs ++ [TimedOut j]) x.
Proof.
  intros Hij. destruct x as [[n|m processing]|[|q|m|]]; simpl; try done.
  - intros (Hg & Ht & Hp & He). split_and!; [by apply good_other| | |].
    + rewrite elem_of_app, list_elem_of_singleton. naive_solver.
    + intros n. rewrite Hp. setoid_rewrite elem_of_app. setoid_rewrite list_elem_of_singleton. naive_solver.
    + intros E. destruct (He E) as [? Hno]. split; [done|]. intros p. rewrite elem_of_app, list_elem_of_singleton. naive_solver.
  - intros (b & a & -> & Hg & Hs). exists b, (a ++ [TimedOut j]). by rewrite app_assoc.
Qed.

Lemma promised_run ns i evs ps : (∃ x, ps !! i = Some x ∧ promised ns i [] x) → ∃ x, foldl handle ps evs !! i = Some x ∧ promised ns i evs x.
Proof.
  intros H0. induction evs as [|e evs (x & Hx & IH)] using rev_ind; [done|]. rewrite foldl_snoc. destruct e as [p|j]; simpl.
  - exists (hear p x). rewrite list_lookup_fmap, Hx. split; [done|by apply promised_hear].
  - destruct (decide (i = j)) as [<-|Hne].
    + exists (expire x). rewrite list_lookup_alter_eq, Hx. split; [done|by apply promised_expire].
    + exists x. rewrite list_lookup_alter_ne by congruence. split; [done|by apply promised_other].
Qed.

Lemma ping_promised others t ps : (∀ n, t ≠ Node n) →
  ∃ x, (ping true others t ps).1 !! length ps = Some x ∧ promised (nodes_of others t) (length ps) [] x.
Proof.
  intros Ht. unfold ping. cbn [fst]. rewrite lookup_app_r, Nat.sub_diag by done. eexists. split; [done|].
  assert (∀ ns, promised ns (length ps) [] (Waiting (Many (no_pongs ns) (Runner.uniq ns)))) as Hp.
  { intros ns. destruct (uniq_spec ns) as [_ Hu]. simpl. split_and!.
    - intros n Hn. right. split; [by intros p ?%elem_of_nil|by apply no_pongs_get].
    - apply not_elem_of_nil.
    - intros n. rewrite Hu. split; [|by intros [? _]]. intros Hn. split; [done|]. by intros p ?%elem_of_nil.
    - intros E. split; [|intros p; apply not_elem_of_nil]. destruct ns as [|n ns]; [done|].
      assert (n ∈ Runner.uniq (n :: ns)) as Hn by (apply Hu; left). rewrite E in Hn. by apply elem_of_nil in Hn. }
  destruct t as [n|ns|]; simpl; [by destruct (Ht n)|apply Hp|apply Hp].
Qed.

(** C24. A ping of several nodes is answered when each of them has sent a pong, at the latest when
    its time is up; the answer then has a pong of each node that sent one since the ping, and
    null for the others, whatever other pings are under way. *)
Theorem ping_answers others t ps evs :
  (∀ n, t ≠ Node n) →
  let ns := nodes_of others t in
  let i := length ps in
  TimedOut i ∈ evs ∨ ns ≠ [] ∧ heard_all ns evs →
  ∃ m before after, foldl handle (ping true others t ps).1 evs !! i = Some (Settled (Pongs m)) ∧
    evs = before ++ after ∧ good ns before m ∧ (heard_all ns before ∨ ∃ b, before = b ++ [TimedOut i]).
Proof.
  intros Ht ns i Hend. destruct (promised_run ns i evs _ (ping_promised others t ps Ht)) as (x & Hx & Hp).
  destruct x as [[n|m processing]|[|q|m|]]; simpl in Hp; try done.
  - destruct Hp as (_ & Hno & Hproc & Hnil). destruct Hend as [?|[Hne Hall]]; [done|].
    destruct processing as [|n rest]; [by destruct (Hnil eq_refl)|]. destruct (proj1 (Hproc n)) as [Hn Hq]; [left|].
    destruct (Hall n Hn) as (p & Hin & Hpn). by destruct (Hq p Hin).
  - destruct Hp as (before & after & ? & ? & ?). by exists m, before, after.
Qed.

(** A promise that is settled stays so, and its timer settles it. *)
Lemma ping_settled_once ps evs i x : ps !! i = Some x →
  ∃ a, foldl handle ps (evs ++ [TimedOut i]) !! i = Some (Settled a) ∧
  (∀ b, foldl handle ps evs !! i = Some (Settled b) → a = b) ∧
  ∀ more, foldl handle ps (evs ++ TimedOut i :: more) !! i = Some (Settled a).
Proof.
  intros Hx. assert (is_Some (foldl handle ps evs !! i)) as [y Hy].
  { apply lookup_lt_is_Some. assert (length (foldl handle ps evs) = length ps) as ->; [|by apply lookup_lt_is_Some; eauto].
    revert ps x Hx. clear. induction evs as [|e evs IH]; intros ps x Hx; [done|]. simpl.
    assert (is_Some (handle ps e !! i)) as [z Hz] by (apply lookup_lt_is_Some; rewrite handle_length; by eapply lookup_lt_Some).
    by rewrite (IH _ z Hz), handle_length. }
  destruct (expired _ _ _ Hy) as [a Ha]. exists a. rewrite foldl_snoc. split_and!; [done| |].
  - intros b Hb. pose proof (handle_settled _ (TimedOut i) _ _ Hb) as Hb'. congruence.
  - intros more. rewrite foldl_app. simpl foldl. by apply settled_stays.
Qed.

(** ** From node to node *)

(** A ping of one node, over both transits: the node answers a PING with a PONG, which settles
    the promise with the time that both packets took, and with the difference of the
    clocks up to half of that. *)
Theorem ping_round_trip {S} `{Strategy S} extract restore new_strategy random regexp (wa wb : Transit.world (S := S)) ps nodes pid sent offset there back up1 up2 :
  Transit.own (Transit.tr wa) ≠ Transit.own (Transit.tr wb) → Transit.protocol (Transit.tr wa) = Transit.protocol (Transit.tr wb) →
  0 <= there → 0 <= back →
  let a := Transit.own (Transit.tr wa) in
  let b := Transit.own (Transit.tr wb) in
  let arrived := sent + there + offset in
  let wb' := (Transit.messageHandler extract restore new_strategy random regexp up1 arrived
    (Transit.Packet (Transit.protocol (Transit.tr wa)) (Some (Transit.PPing a pid sent))) wb).2 in
  let ps' := (receive extract restore new_strategy random regexp up2 (sent + there + back)
    (Transit.Packet (Transit.protocol (Transit.tr wb)) (Some (Transit.PPong b pid sent arrived))) wa (ping true nodes (Node b) ps).1).2 in
  (ping true nodes (Node b) ps).2 = [b] ∧
  Transit.log (Transit.tr wb') = Transit.log (Transit.tr wb) ++ [Transit.PublishPong a pid sent arrived] ∧
  ∃ diff, ps' !! length ps = Some (Settled (Answered (PongInfo b pid (there + back) diff))) ∧ 2 * Z.abs (diff + offset) <= there + back + 1.
Proof.
  intros Hab Hproto Ht Hb a b arrived wb' ps'. split_and!; [done| |].
  - unfold wb', Transit.messageHandler. simpl. rewrite Hproto, String.eqb_refl. simpl. apply String.eqb_neq in Hab. unfold a. by rewrite Hab.
  - destruct (pong_times b pid sent offset there back (Transit.tr wa) Ht Hb) as (e & diff & Hlog & -> & Hd).
    exists diff. split; [|exact Hd]. unfold ps', receive, Transit.messageHandler. simpl. rewrite <- Hproto, String.eqb_refl. simpl.
    apply not_eq_sym, String.eqb_neq in Hab. unfold b. rewrite Hab. cbn [snd fst Transit.tr]. fold b. fold arrived in Hlog. rewrite Hlog, drop_app_length. simpl.
    rewrite list_lookup_fmap, lookup_app_r, Nat.sub_diag by done. simpl. by rewrite String.eqb_refl.
Qed.

(** ** Witnesses *)

Section sample.
Definition sample_pong (n : string) : pong := PongInfo n "p" 10 0.
End sample.

Lemma ping_answers_witness :
  let evs := [Heard (sample_pong "node-3"); Heard (sample_pong "node-9"); TimedOut 0] in
  ∃ m before after, foldl handle (ping true [] (NodeList ["node-2"; "node-3"]%string) []).1 evs !! 0%nat = Some (Settled (Pongs m)) ∧
    evs = before ++ after ∧ good ["node-2"; "node-3"]%string before m ∧ (heard_all ["node-2"; "node-3"]%string before ∨ ∃ b, before = b ++ [TimedOut 0]).
Proof.
  apply (ping_answers [] (NodeList ["node-2"; "node-3"]%string) [] [Heard (sample_pong "node-3"); Heard (sample_pong "node-9"); TimedOut 0]); [done|].
  left. right. right. left.
Defined.

Lemma ping_round_trip_witness :
  let wb := Transit.World (Transit.reg sample_server) (create_transit "node-2" (JStr "i2") "5" false 0) in
  (ping true [] (Node "node-2") []).2 = ["node-2"%string] ∧
  ∃ diff, (receive plain_error plain_restore rr draw_low no_regexp 7 1030
    (Transit.Packet "5" (Some (Transit.PPong "node-2" "p1" 1000 1110))) sample_server (ping true [] (Node "node-2") []).1).2 !! 0%nat =
    Some (Settled (Answered (PongInfo "node-2" "p1" 30 diff))) ∧ 2 * Z.abs (diff + 100) <= 31.
Proof.
  destruct (ping_round_trip plain_error plain_restore rr draw_low no_regexp sample_server
    (Transit.World (Transit.reg sample_server) (create_transit "node-2" (JStr "i2") "5" false 0)) [] [] "p1" 1000 100 10 20 5 7
    ltac:(discriminate) eq_refl ltac:(lia) ltac:(lia)) as (H1 & _ & H3).
  exact (conj H1 H3).
Defined.

(** With no other node, a ping of all waits for its timer, or for the pong of another ping,
    which then appears in its answer. *)
Lemma lonely_ping :
  let ps := (ping true [] AllNodes []).1 in
  ps = [Waiting (Many [] [])] ∧
  handle ps (Heard (sample_pong "node-9")) = [Settled (Pongs [("node-9"%string, Some (sample_pong "node-9"))])].
Proof. split; vm_compute; reflexivity. Qed.
