(* ===== verification/Wire.v ===== *)
(** * Calls over the wire

    The composition of [transit.js] with [transporters/base.js], a serializer and the error
    regenerator of [errors.js]: the payload objects that [_sendRequest], [sendResponse],
    [sendPong] and [discoverNode] make, what the handlers read of a received object, and a
    remote call from the buffer that leaves the caller to the promise its answer
    settles.  INFO and event packets are not translated into objects here. *)

From stdpp Require Import base tactics list strings option gmap.
From Stdlib Require Import ZArith Lia Bool.
From S2P Require Import Prelude JsonText Serializers Errors Transporter Strategies RegistryData EndpointList Registry Discoverer Routing Streams RegistryTheorems Transit TransitInv TransitTheorems.

Local Open Scope Z_scope.

Module Wire.
Import Transit.

(** ** Payload objects *)

(** [JSON.stringify] asks a buffer for [buffer.toJSON()]. *)
Definition chunk_json (c : chunk) : json :=
  match c with
  | Streams.Value v => v
  | Streams.Buffer l => JObj [("type", JStr "Buffer"); ("data", JArr (map JNum l))]%string
  end.

(** A property that may be [null], and one that may be [undefined] *)
Definition nullable (o : option string) : json := match o with Some s => JStr s | None => JNull end.
Definition optional {A} (f : A → json) (o : option A) : json := match o with Some x => f x | None => JUndef end.
(** A property that is only there if it is set *)
Definition if_set {A} (k : string) (f : A → json) (o : option A) : OMap.t json :=
  match o with Some x => [(k, f x)] | None => [] end.

(** The headers with [$streamError] of a stream that failed *)
Definition request_headers (q : request_payload) : option (OMap.t json) :=
  match q_streamError q with
  | Some e => Some (OMap.set "$streamError" e (default [] (q_headers q)))
  | None => q_headers q
  end.

(** The payload of [_sendRequest(ctx, resolve, reject)] *)
Definition request_object (q : request_payload) : OMap.t json :=
  [("id", JStr (q_id q)); ("action", JStr (q_action q)); ("params", chunk_json (q_params q));
   ("meta", optional JObj (q_meta q)); ("headers", optional JObj (request_headers q));
   ("timeout", optional JNum (q_timeout q)); ("level", JNum (q_level q)); ("tracing", q_tracing q);
   ("parentID", nullable (q_parentID q)); ("requestID", nullable (q_requestID q)); ("caller", nullable (q_caller q));
   ("stream", optional JBool (q_stream q))]%string ++ if_set "seq" JNum (q_seq q).

(** The payload of [sendResponse(nodeID, id, meta, headers, data, err)] *)
Definition response_object (headers : json) (s : response_payload) : OMap.t json :=
  [("id", JStr (s_id s)); ("meta", JObj (s_meta s)); ("headers", headers); ("success", JBool (s_success s));
   ("data", chunk_json (s_data s))]%string ++
  (if s_success s then [] else [("error", s_error s)]%string) ++ if_set "stream" JBool (s_stream s) ++ if_set "seq" JNum (s_seq s).

(** The packet an output of the transit is published as *)
Definition packet_of_output (headers : json) (o : output) : option BaseTransporter.packet :=
  match o with
  | PublishRequest to q => Some (BaseTransporter.Packet "REQ" to (request_object q))
  | PublishResponse to s => Some (BaseTransporter.Packet "RES" (Some to) (response_object headers s))
  | PublishDiscover to => Some (BaseTransporter.Packet "DISCOVER" (Some to) [])
  | PublishPong to id time arrived =>
      Some (BaseTransporter.Packet "PONG" (Some to) [("time", JNum time); ("id", JStr id); ("arrived", JNum arrived)]%string)
  | _ => None
  end.

(** ** Reading a received object *)

Definition prop (k : string) (m : OMap.t json) : json := default JUndef (OMap.get k m).
Definition text_of (v : json) : option string := match v with JStr s => Some s | _ => None end.
Definition int_of (v : json) : option Z := match v with JNum n => Some n | _ => None end.
Definition object_of (v : json) : option (OMap.t json) := match v with JObj m => Some m | _ => None end.

(** What [requestHandler] reads; [None] when a property is not of the type it has in the
    packets of the transit. *)
Definition request_of (m : OMap.t json) : option request_payload :=
  sender ← text_of (prop "sender" m);
  id ← text_of (prop "id" m);
  action ← text_of (prop "action" m);
  level ← int_of (prop "level" m);
  Some (RequestPayload sender id action (Streams.Value (prop "params" m)) (object_of (prop "meta" m))
    (object_of (prop "headers" m)) (int_of (prop "timeout" m)) level (prop "tracing" m)
    (text_of (prop "parentID" m)) (text_of (prop "requestID" m)) (text_of (prop "caller" m))
    (match prop "stream" m with JUndef => None | v => Some (truthy v) end) (int_of (prop "seq" m))
    (h ← object_of (prop "headers" m); OMap.get "$streamError" h)).

(** What [responseHandler] reads *)
Definition response_of (m : OMap.t json) : option response_payload :=
  sender ← text_of (prop "sender" m);
  id ← text_of (prop "id" m);
  Some (ResponsePayload sender id (default [] (object_of (prop "meta" m))) (truthy (prop "success" m))
    (Streams.Value (prop "data" m)) (prop "error" m)
    (let v := prop "stream" m in if is_null v then None else Some (truthy v)) (int_of (prop "seq" m))).

(** What [messageHandler(cmd, packet)] gets *)
Definition packet_of (cmd : string) (m : OMap.t json) : option packet :=
  ver ← text_of (prop "ver" m);
  body ←
    (if String.eqb cmd "REQ" then PRequest <$> request_of m
     else if String.eqb cmd "RES" then PResponse <$> response_of m
     else
       sender ← text_of (prop "sender" m);
       if String.eqb cmd "DISCOVER" then Some (PDiscover sender)
       else if String.eqb cmd "DISCONNECT" then Some (PDisconnect sender)
       else if String.eqb cmd "HEARTBEAT" then
         Some (PHeartbeat sender (Discoverer.Heartbeat (int_of (prop "cpu" m)) (int_of (prop "cpuSeq" m)) (int_of (prop "seq" m))
           (text_of (prop "instanceID" m))))
       else
         id ← text_of (prop "id" m);
         time ← int_of (prop "time" m);
         if String.eqb cmd "PING" then Some (PPing sender id time)
         else if String.eqb cmd "PONG" then (arrived ← int_of (prop "arrived" m); Some (PPong sender id time arrived))
         else None);
  Some (Packet ver (Some body)).

(** ** Errors as JSON *)

Section errors.
Import Errors.
Context (stack : json).

(** The error object behind an error of the transit *)
Definition thrown (e : Transit.error) : option Errors.t :=
  let where_ (a : string) (n : option string) := JObj (("action"%string, JStr a) :: if_set "nodeID" JStr n) in
  match e with
  | Transit.ServiceNotFoundError a n => newServiceNotFoundError stack (where_ a n)
  | Transit.ServiceNotAvailableError a n => newServiceNotAvailableError stack (where_ a n)
  | EndpointError =>
      Some (retryable stack MoleculerServerError (JStr "Strategy returned an invalid endpoint.") (JNum 500) (JStr "INVALID_ENDPOINT")
        (JObj [("strategy", JStr "object")]%string))
  | Transit.RequestRejectedError a n => newRequestRejectedError stack (where_ a (Some n))
  | Transit.QueueIsFullError a n size limit =>
      newQueueIsFullError stack
        (JObj [("action", JStr a); ("nodeID", JStr n); ("size", JNum size); ("limit", JNum limit)]%string)
  | PublishError e | OtherError e => Some e
  end.

Definition plain_json (p : Regenerator.plain) : json :=
  JObj [("name", Regenerator.p_name p); ("message", Regenerator.p_message p); ("nodeID", Regenerator.p_nodeID p);
        ("code", Regenerator.p_code p); ("type", Regenerator.p_type p); ("retryable", Regenerator.p_retryable p);
        ("stack", Regenerator.p_stack p); ("data", Regenerator.p_data p)]%string.
(** What [restore] reads of [packet.error]; reading throws if there is none. *)
Definition plain_of (v : json) : option Regenerator.plain :=
  name ← member "name" v; message ← member "message" v; nodeID ← member "nodeID" v; code ← member "code" v;
  type ← member "type" v; retry ← member "retryable" v; st ← member "stack" v; data ← member "data" v;
  Some (Regenerator.Plain name message nodeID code type retry st data).

(** [_createPayloadErrorField(err, payload)] at the node [own] *)
Definition extract (own : string) (e : Transit.error) : json :=
  match thrown e with Some e => plain_json (Regenerator.extractPlainError own e) | None => JUndef end.
(** [_createErrFromPayload(error, payload)] *)
Definition restore (v : json) (s : response_payload) : option Transit.error :=
  p ← plain_of v;
  e ← Regenerator.restore stack Regenerator.restoreCustomError p (JStr (s_sender s));
  Some (OtherError e).

End errors.

(** ** The wire *)

Section wire.
Context {S : Type} `{Strategy S} (new_strategy : option string → S) (random : random_source)
  (regexp : list Ascii.ascii → list Ascii.ascii → bool).
Context {Ser : Serializer} (version : string) (stack : json).

(** [publish(packet)] at the transporter, when its subscriptions are made *)
Definition publish (x : BaseTransporter.t) (headers : json) (o : output) : list BaseTransporter.effect * BaseTransporter.outcome :=
  match packet_of_output headers o with
  | Some p => BaseTransporter.prepublish version x p
  | None => ([], BaseTransporter.Done)
  end.

(** A buffer arrives for the command [cmd]; [None] when it holds something else than an object of the
    transit's shape. *)
Definition receive (uptime date : Z) (cmd data : string) (w : world (S := S)) : option (bool * world (S := S)) :=
  match BaseTransporter.incomingMessage cmd (Some data) with
  | [BaseTransporter.Handle cmd (JObj m)] =>
      pk ← packet_of cmd m;
      Some (messageHandler (Wire.extract stack (own (tr w))) (Wire.restore stack) new_strategy random regexp uptime date pk w)
  | _ => None
  end.

End wire.
End Wire.

(** ** What arrives *)

Import Transit Wire.

Section arrival.
Import BaseTransporter.

Lemma prop_clean k m : proper (JObj m) = true → prop k (clean_members m) = clean (prop k m).
Proof.
  intros [Hnd _]%andb_true_iff. apply bool_decide_eq_true in Hnd. unfold prop. rewrite get_clean by done.
  destruct (OMap.get k m) as [v|]; [by destruct v|done].
Qed.

Lemma prop_signed ver x p k : k ≠ "sender"%string → k ≠ "ver"%string → prop k (signed ver x p) = prop k (payload p).
Proof. intros Hs Hv. unfold prop, signed. by rewrite !OMap.get_set_ne. Qed.

Lemma text_of_nullable o : text_of (clean (nullable o)) = o.
Proof. by destruct o. Qed.
Lemma int_of_optional o : int_of (clean (optional JNum o)) = o.
Proof. by destruct o. Qed.
Lemma object_of_optional o : object_of (clean (optional JObj o)) = clean_members <$> o.
Proof. by destruct o. Qed.

(** A property that may be missing *)
Lemma prop_if_set {A} k (f : A → json) (o : option A) m : prop k (if_set k f o ++ m) = match o with Some x => f x | None => prop k m end.
Proof. unfold prop, if_set. destruct o; simpl; [by rewrite String.eqb_refl|done]. Qed.

(** The plain request [q] as it is read on the other side *)
Definition request_arrived (own : string) (q : request_payload) (v : json) : request_payload :=
  RequestPayload own (q_id q) (q_action q) (Streams.Value (clean v)) (clean_members <$> q_meta q) (clean_members <$> q_headers q)
    (q_timeout q) (q_level q) (clean (q_tracing q)) (q_parentID q) (q_requestID q) (q_caller q) (q_stream q) (q_seq q) None.

Definition proper_request (q : request_payload) (v : json) : Prop :=
  q_params q = Streams.Value v ∧ q_streamError q = None ∧ proper v = true ∧ proper (q_tracing q) = true ∧
  proper (optional JObj (q_meta q)) = true ∧ proper (optional JObj (q_headers q)) = true ∧
  OMap.get "$streamError" (default [] (q_headers q)) = None.

Lemma proper_request_object q v : proper_request q v → proper (JObj (request_object q)) = true.
Proof.
  intros (Hp & He & Hv & Ht & Hm & Hh & _). unfold request_object, request_headers. rewrite Hp, He. cbn [proper]. apply andb_true_iff. split.
  - apply bool_decide_eq_true. destruct (q_seq q); apply (bool_decide_eq_true _); vm_compute; reflexivity.
  - cbn [chunk_json forallb app]. rewrite Hv, Ht, Hm, Hh. by destruct (q_timeout q), (q_parentID q), (q_requestID q), (q_caller q), (q_stream q), (q_seq q).
Qed.

Lemma request_of_signed ver x to q v : proper_request q v →
  packet_of "REQ" (clean_members (signed ver x (Packet "REQ" to (request_object q)))) =
  Some (Transit.Packet ver (Some (PRequest (request_arrived (nodeID x) q v)))).
Proof.
  intros Hq. pose proof (proper_signed ver x (Packet "REQ" to (request_object q)) (proper_request_object q v Hq)) as Hs.
  destruct Hq as (Hp & He & _ & _ & _ & Hh & Hno). unfold packet_of, request_of.
  set (m := signed _ _ _) in *.
  assert (prop "ver" m = JStr ver ∧ prop "sender" m = JStr (nodeID x)) as [Ever Esender].
  { unfold m, prop, signed. rewrite OMap.get_set_ne by done. by rewrite !OMap.get_set_eq. }
  assert (∀ k, k ≠ "sender"%string → k ≠ "ver"%string → prop k m = prop k (request_object q)) as Em by (intros; by apply prop_signed).
  rewrite !prop_clean by done. rewrite Ever, Esender. cbn [String.eqb Ascii.eqb Bool.eqb]. rewrite !Em by done.
  unfold request_object, request_headers. rewrite Hp, He.
  assert (prop "seq" (if_set "seq" JNum (q_seq q)) = optional JNum (q_seq q)) as Eseq by (by destruct (q_seq q)).
  unfold prop in *. cbn [OMap.get app String.eqb Ascii.eqb Bool.eqb default mbind option_bind text_of int_of clean id chunk_json].
  rewrite Eseq. rewrite !text_of_nullable, !int_of_optional, !object_of_optional.
  assert ((clean_members <$> q_headers q) ≫= (λ h, OMap.get "$streamError" h) = None) as ->.
  { destruct (q_headers q) as [h|]; [|done]. simpl in *. apply andb_true_iff in Hh as [Hnd _]. apply bool_decide_eq_true in Hnd.
    by rewrite get_clean, Hno. }
  unfold request_arrived. cbn. by destruct (q_stream q) as [[]|].
Qed.

(** The first packet of an answer as it is read on the other side *)
Definition response_arrived (own : string) (s : response_payload) (v : json) : response_payload :=
  ResponsePayload own (s_id s) (clean_members (s_meta s)) (s_success s) (Streams.Value (clean v))
    (if s_success s then JUndef else clean (s_error s)) (s_stream s) (s_seq s).

Definition proper_response (headers : json) (s : response_payload) (v : json) : Prop :=
  s_data s = Streams.Value v ∧ proper v = true ∧ proper (JObj (s_meta s)) = true ∧ proper (s_error s) = true ∧ proper headers = true.

Lemma proper_response_object headers s v : proper_response headers s v → proper (JObj (response_object headers s)) = true.
Proof.
  intros (Hd & Hv & Hm & He & Hh). unfold response_object. rewrite Hd. cbn [proper]. apply andb_true_iff. split.
  - apply bool_decide_eq_true. destruct (s_success s), (s_stream s), (s_seq s); apply (bool_decide_eq_true _); vm_compute; reflexivity.
  - cbn [chunk_json]. rewrite !forallb_app. cbn [forallb]. rewrite Hm, Hv, Hh.
    destruct (s_success s), (s_stream s), (s_seq s); cbn; by rewrite ?He.
Qed.

Lemma response_of_signed ver x to headers s v : proper_response headers s v →
  packet_of "RES" (clean_members (signed ver x (Packet "RES" to (response_object headers s)))) =
  Some (Transit.Packet ver (Some (PResponse (response_arrived (nodeID x) s v)))).
Proof.
  intros Hr. pose proof (proper_signed ver x (Packet "RES" to (response_object headers s)) (proper_response_object headers s v Hr)) as Hs.
  destruct Hr as (Hd & _). unfold packet_of, response_of. set (m := signed _ _ _) in *.
  assert (prop "ver" m = JStr ver ∧ prop "sender" m = JStr (nodeID x)) as [Ever Esender].
  { unfold m, prop, signed. rewrite OMap.get_set_ne by done. by rewrite !OMap.get_set_eq. }
  assert (∀ k, k ≠ "sender"%string → k ≠ "ver"%string → prop k m = prop k (response_object headers s)) as Em by (intros; by apply prop_signed).
  rewrite !prop_clean by done. rewrite Ever, Esender. cbn [String.eqb Ascii.eqb Bool.eqb]. rewrite !Em by done.
  unfold response_object, response_arrived. rewrite Hd. destruct s as [sd id meta [] data err [[]|] [seq|]]; reflexivity.
Qed.

End arrival.

(** *** Errors *)

Section error_arrival.
Import Errors Regenerator.

(** No property of the error holds [undefined] inside. *)
Definition tidy (e : Errors.t) : Prop :=
  Forall (λ v, proper v = true ∧ clean v = v)
    [e_name e; e_message e; e_nodeID e; e_code e; e_type e; e_data e; e_retryable e; e_stack e].

Lemma proper_plain own e : tidy e → proper (plain_json (extractPlainError own e)) = true.
Proof.
  unfold tidy. rewrite !list.Forall_cons. intros ([H1 _] & [H2 _] & [H3 _] & [H4 _] & [H5 _] & [H6 _] & [H7 _] & [H8 _] & _).
  unfold plain_json, extractPlainError. cbn [proper]. apply andb_true_iff. split; [done|]. cbn. unfold js_or.
  destruct (truthy (e_nodeID e)); by rewrite H1, H2, ?H3, H4, H5, H7, H8, H6.
Qed.

Lemma plain_of_json own e : tidy e →
  plain_of (clean (plain_json (extractPlainError own e))) = Some (extractPlainError own e).
Proof.
  intros He. pose proof (proper_plain own e He) as Hp. unfold plain_json in *.
  match type of Hp with proper (JObj ?m) = true => change (clean (JObj m)) with (JObj (clean_members m)); set (o := m) in * end.
  unfold plain_of, member. change (default JUndef (OMap.get ?k ?m)) with (prop k m).
  fold (prop "name" (clean_members o)) (prop "message" (clean_members o)) (prop "nodeID" (clean_members o)) (prop "code" (clean_members o))
    (prop "type" (clean_members o)) (prop "retryable" (clean_members o)) (prop "stack" (clean_members o)) (prop "data" (clean_members o)).
  rewrite !prop_clean by done. cbn.
  unfold tidy in He. rewrite !list.Forall_cons in He.
  destruct He as ([_ E1] & [_ E2] & [_ E3] & [_ E4] & [_ E5] & [_ E6] & [_ E7] & [_ E8] & _).
  rewrite E1, E2, E4, E5, E6, E7, E8. unfold extractPlainError, js_or. by destruct (truthy (e_nodeID e)); rewrite ?E3.
Qed.

(** An error of the framework over the wire *)
Lemma restore_extracted stack stack' own (err : Transit.error) e s : thrown stack' err = Some e → framework e → truthy (e_stack e) = true → tidy e →
  own ≠ ""%string →
  Wire.restore stack (clean (Wire.extract stack' own err)) s = Some (OtherError (set_nodeID (js_or (e_nodeID e) (JStr own)) e)).
Proof.
  intros Ht Hf Hs Hy Ho. unfold Wire.restore, Wire.extract. rewrite Ht, plain_of_json by done. cbn [mbind option_bind].
  by rewrite restore_framework.
Qed.

End error_arrival.

(** ** A call to another node *)

Section calls.
Context {S : Type} `{Strategy S} (new_strategy : option string → S) (random : random_source)
  (regexp : list Ascii.ascii → list Ascii.ascii → bool).
Context {Ser : Serializer} {L : SerializerLaws Ser} (version : string) (stack : json).
Notation world := (world (S := S)).
Notation publish := (publish version).
Notation receive := (receive new_strategy random regexp stack).

(** What a buffer is to a receiver *)
Lemma receive_carried uptime date cmd m d pk (w : world) :
  carries m d → packet_of cmd (clean_members m) = Some pk →
  receive uptime date cmd d w =
  Some (messageHandler (Wire.extract stack (own (tr w))) (Wire.restore stack) new_strategy random regexp uptime date pk w).
Proof. intros Hd Hp. unfold Wire.receive. rewrite Hd. simpl. by rewrite Hp. Qed.

(** One buffer leaves for a packet to a node, or for a request to anybody. *)
Lemma publish_one x headers o p :
  BaseTransporter.connected x = true → packet_of_output headers o = Some p → proper (JObj (BaseTransporter.payload p)) = true →
  (BaseTransporter.target p = None → BaseTransporter.type p = BaseTransporter.PACKET_REQUEST) →
  ∃ d, publish x headers o =
    ([match BaseTransporter.target p with
      | Some n => BaseTransporter.Send (BaseTransporter.getTopicName x (BaseTransporter.type p) (Some n)) d false
      | None => BaseTransporter.Send (BaseTransporter.request_topic x (BaseTransporter.field "action" p)) d true
      end], BaseTransporter.Done) ∧ carries (BaseTransporter.signed version x p) d.
Proof.
  intros Hc Hp Hv Hn. unfold Wire.publish, BaseTransporter.prepublish. rewrite Hp, Hc. cbn [negb].
  destruct (BaseTransporter.target p) as [n|] eqn:Ht.
  - unfold BaseTransporter.publish. rewrite Ht. edestruct (send_packet version x p) as (d & -> & Hd); [done|]. by exists d.
  - rewrite (Hn eq_refl). cbn. unfold BaseTransporter.publishBalancedRequest.
    edestruct (send_packet version x p) as (d & -> & Hd); [done|]. by exists d.
Qed.

(** The context of the request as the action gets it *)
Definition context_arrived (from : string) (c : context) (v : json) : context :=
  Context (c_id c) (c_action c) (Some from) (Streams.Value (clean v)) (clean_members (c_meta c)) (clean_members (c_headers c))
    (c_timeout c) (c_level c) (clean (c_tracing c)) (c_parentID c) (c_requestID c) (c_caller c) false.

(** A request without a stream, of JSON values *)
Definition plain_context (c : context) (v : json) : Prop :=
  c_isStream c = false ∧ c_params c = Streams.Value v ∧ proper v = true ∧ proper (c_tracing c) = true ∧
  proper (JObj (c_meta c)) = true ∧ proper (JObj (c_headers c)) = true ∧ OMap.get "$streamError" (c_headers c) = None.

Lemma plain_request m c v : plain_context c v → proper_request (request_payload_of m c) v.
Proof. intros (Hs & Hp & Hv & Ht & Hm & Hh & Hn). unfold proper_request, request_payload_of. cbn. by split_and!. Qed.

Lemma not_stream q (m : t) : OMap.get (q_id q) (pendingReqStreams m) = None → q_stream q = Some false → q_seq q = None →
  handleIncomingRequestStream q m = (Some None, m).
Proof. intros Hn Hs Hq. unfold handleIncomingRequestStream. rewrite Hn. unfold request_packet. by rewrite Hs, Hq. Qed.

(** The request reaches the action. *)
Lemma request_arrives c v a xa (w : world) ep r uptime date :
  plain_context c v → BaseTransporter.connected xa = true → BaseTransporter.nodeID xa = own a →
  protocol (tr w) = version → stopping (tr w) = false → OMap.get (c_id c) (pendingReqStreams (tr w)) = None →
  Routing.getLocalActionEndpoint random (c_action c) None (reg w) = (Routing.Routed ep, r) →
  ∃ d, publish xa JNull (PublishRequest (c_nodeID c) (request_payload_of a c)) =
    ([match c_nodeID c with
      | Some n => BaseTransporter.Send (BaseTransporter.getTopicName xa "REQ" (Some n)) d false
      | None => BaseTransporter.Send (BaseTransporter.request_topic xa (c_action c)) d true
      end], BaseTransporter.Done) ∧
    receive uptime date "REQ" d w =
      Some (true, World r (emit (RunAction ep (context_arrived (own a) c v) (own a) None) (tr w))).
Proof.
  intros Hc Hx Hn Hver Hstop Hnew Hroute. pose proof (plain_request a c v Hc) as Hq.
  destruct (publish_one xa JNull (PublishRequest (c_nodeID c) (request_payload_of a c)) _ Hx eq_refl) as (d & Hp & Hd);
    [by apply proper_request_object with v|done|].
  exists d. split; [exact Hp|]. rewrite (receive_carried _ _ _ _ _ _ _ Hd (request_of_signed version xa _ _ v Hq)).
  rewrite Hn. unfold messageHandler. cbn [body ver]. rewrite Hver, String.eqb_refl. cbn [negb andb].
  unfold requestHandler. rewrite Hstop. destruct Hc as (Hs & _). cbn [request_arrived q_stream request_payload_of].
  rewrite not_stream; [|exact Hnew|cbn; by rewrite Hs|cbn; by rewrite Hs].
  cbn [q_action request_arrived request_payload_of]. rewrite Hroute. done.
Qed.

(** What an action answers, if it can be sent, and what the caller is told *)
Definition answerable (r : result) : Prop :=
  match r with
  | Data (Streams.Value v) => proper v = true
  | Failure err => ∃ e, thrown stack err = Some e ∧ framework e ∧ truthy (Errors.e_stack e) = true ∧ tidy e
  | _ => False
  end.
Definition answered (own : string) (r : result) : option outcome :=
  match r with
  | Data (Streams.Value v) => Some (Resolved (Streams.Value (clean v)))
  | Failure err => e ← thrown stack err; Some (Rejected (OtherError (Errors.set_nodeID (js_or (Errors.e_nodeID e) (JStr own)) e)))
  | _ => None
  end.

(** The packet of an answer, and what the regenerator of the caller makes of it *)
Lemma answer_packet c v from res meta headers b :
  answerable res → proper (JObj meta) = true → proper headers = true → own b ≠ ""%string →
  ∃ s y out,
    log (actionDone (extract stack (own b)) from (context_arrived from c v) meta res b) = log b ++ [PublishResponse from s] ∧
    s_id s = c_id c ∧ s_stream s = None ∧ proper_response headers s y ∧ answered (own b) res = Some out ∧
    if s_success s then out = Resolved (Streams.Value (clean y))
    else ∃ err, out = Rejected err ∧ ∀ s', restore stack (clean (s_error s)) s' = Some err.
Proof.
  intros Hr Hmeta Hh Hb. destruct res as [[l|x]| |err]; try done.
  - eexists _, x, _. split; [reflexivity|]. by split_and!.
  - destruct Hr as (e & Ht & Hf & Hst & Htidy). cbn [answered]. rewrite Ht. cbn.
    eexists _, JNull, _. split; [reflexivity|]. split_and!; try done.
    + split_and!; try done. cbn. unfold extract. rewrite Ht. by apply proper_plain.
    + cbn. eexists. split; [done|]. intros s'. by apply restore_extracted.
Qed.

(** The answer reaches the caller. *)
Lemma response_arrives c v from res meta headers b xb (m : world) req uptime date :
  answerable res → proper (JObj meta) = true → proper headers = true → own b ≠ ""%string →
  BaseTransporter.connected xb = true → BaseTransporter.nodeID xb = own b →
  tables (tr m) → protocol (tr m) = version →
  OMap.get (c_id c) (pendingRequests (tr m)) = Some req → promises (tr m) !! r_promise req = Some None →
  ∃ s d out m',
    log (actionDone (extract stack (own b)) from (context_arrived from c v) meta res b) = log b ++ [PublishResponse from s] ∧
    publish xb headers (PublishResponse from s) =
      ([BaseTransporter.Send (BaseTransporter.getTopicName xb "RES" (Some from)) d false], BaseTransporter.Done) ∧
    receive uptime date "RES" d m = Some (true, m') ∧ answered (own b) res = Some out ∧ reg m' = reg m ∧
    promises (tr m') = <[r_promise req := Some out]> (promises (tr m)) ∧
    OMap.get (c_id c) (pendingRequests (tr m')) = None.
Proof.
  intros Hr Hmeta Hh Hb Hx Hn Hm Hver Hreq Hpr.
  destruct (answer_packet c v from res meta headers b Hr Hmeta Hh Hb) as (s & y & out & Hlog & Hid & Hstr & Hs & Ho & Hout).
  destruct (publish_one xb headers (PublishResponse from s) _ Hx eq_refl) as (d & Hp & Hd);
    [by apply proper_response_object with y|done|].
  set (req' := Request (r_action req) (r_nodeID req) (r_promise req) (Some (own b)) (assign (r_ctx_meta req) (clean_members (s_meta s)))).
  set (gone := removePendingRequest (c_id c) (set_requests (OMap.set (c_id c) req' (pendingRequests (tr m))) (tr m))).
  assert (responseHandler (restore stack) (response_arrived (own b) s y) (tr m) = (true, settle (r_promise req) out gone)) as E.
  { unfold responseHandler. cbn [response_arrived s_id s_stream s_success s_data s_error s_meta s_sender]. rewrite Hid, Hreq, Hstr.
    destruct (s_success s); [by subst|]. destruct Hout as (err & -> & Hrest). by rewrite Hrest. }
  exists s, d, out, (World (reg m) (settle (r_promise req) out gone)). split; [done|]. split; [exact Hp|].
  rewrite (receive_carried _ _ _ _ _ _ _ Hd (response_of_signed version xb _ headers s y Hs)).
  rewrite Hn. unfold messageHandler. cbn [body ver]. rewrite Hver, String.eqb_refl. cbn [negb andb]. rewrite E.
  split_and!; try done; cbn [tr].
  - unfold settle, gone. cbn. by rewrite Hpr.
  - destruct (settle_fields (r_promise req) out gone) as (Eq & _). rewrite Eq. apply OMap.get_delete_eq. apply OMap.wf_set, Hm.
Qed.

End calls.



(** An error that the regenerator cannot make again, of a library that uses a name of the
    framework, leaves the caller's promise waiting although its answer came. *)
Lemma unrestorable_error_hangs stack b m req id meta :
  tables m → OMap.get id (pendingRequests m) = Some req → promises m !! r_promise req = Some None →
  let e := Errors.Err (Errors.Custom "TimeoutError") (JStr "RequestTimeoutError") (JStr "slow") JUndef JUndef JUndef JUndef JUndef JNull in
  let s := ResponsePayload b id meta false (Streams.Value JNull) (clean (extract stack b (OtherError e))) None None in
  let '(ok, m') := responseHandler (restore stack) s m in
  ok = false ∧ OMap.get id (pendingRequests m') = None ∧ promises m' !! r_promise req = Some None.
Proof.
  intros Hm Hreq Hp e s.
  assert (restore stack (s_error s) s = None) as Hno.
  { unfold s, e. cbn [s_error extract thrown]. destruct b; reflexivity. }
  unfold responseHandler. cbn [s_id s s_stream s_success s_sender s_meta]. rewrite Hreq.
  change (s_error _) with (s_error s). fold s. rewrite Hno.
  split; [done|]. split; [|exact Hp]. apply OMap.get_delete_eq. apply OMap.wf_set, Hm.
Qed.
